(* ===== verification/_CoqProject ===== *)
-Q . S2P
Prelude.v
Bytes.v
Text.v
Net.v
Endpoint.v
Domain.v
PolicyModel.v
Acl.v
Guard.v
Inspection.v
Evidence.v
Framing.v
AuditModel.v
AuditSink.v
AuditChain.v
Hooks.v
Runtime.v
WireCapture.v
WireSafety.v
Destination.v
FlowInspect.v
Relay.v
Settings.v
TcpSession.v
Socks.v
Server.v
HttpHeaders.v
Tls.v
Keys.v
HttpMessages.v
HttpService.v
HttpSafety.v
HttpBodies.v
BodyChannel.v
HttpServer.v
ServerSafety.v
HttpRepeat.v
RepeatSafety.v
HttpWitnesses.v
Config.v
ConfigSafety.v
Process.v
ProcessSafety.v
Lifecycle.v
UiEvents.v
Tracing.v
UiEditor.v
UiRoundTrip.v
UiModel.v
UiInput.v
UiSafety.v
UiTerminal.v
UiPaused.v
UiText.v
UiDetail.v
UiScreen.v
UiLoop.v
System.v
Shown.v
