(* ===== verification/Prelude.v ===== *)
(** * Freja: a verification library

    Freja is a filtering and recording proxy written in Rust (src/crates).  A listener
    (static TCP, SOCKS5, HTTP) accepts a client and learns the target it wants; the
    target is authorised by an access-control policy as requested, resolved, and
    authorised again address by address, with a guard against private and metadata
    addresses; the flow is then relayed while its bytes are inspected for patterns,
    captured and optionally rewritten by hooks; and every decision and observation goes
    to an append-only, hash-chained audit log that an offline replay verifies.

    The library models these parts as executable functions translated from the source
    and proves what makes them correct.

    ** Files, and the sources they model

    - Prelude: [Result], machine integers, bytes; shared lemmas and tactics.
    - Bytes, Text, Net: the string, integer, UTF-8, character and [std::net] functions
      the source uses.
    - Endpoint, Domain (freja-domain/src): host names, ports, endpoints; identifiers,
      findings, facts, decisions, listeners.
    - PolicyModel, Acl (freja-policy/src/acl): the rule language, validation of
      policies, three-valued evaluation and its evidence.  Guard
      (freja-policy/src/destination.rs): the destination guard.
    - Inspection (freja-policy/src/inspection.rs): pattern programs and the streaming
      scanner.
    - Evidence (freja-policy/src/evidence.rs, evidence/acl.rs): the bounded copy of the
      definitions a decision was made from, kept for the operator.
    - Framing (freja-proxy/src/http/wire/framing.rs): the HTTP/1 framer that cuts a
      captured stream into messages.
    - AuditModel, AuditSink, AuditChain (freja-audit/src, freja/src/replay.rs,
      freja-proxy/src/metrics.rs): events, redaction, the writer of hash-chained
      records with signed checkpoints, the replayer, and the theorems on the chain.
    - Hooks (freja-policy/src/hook): mutations, the hook runner, the interactive broker.
    - Runtime (freja-proxy/src/runtime, event.rs, error.rs): the world a flow acts on,
      its effects, publication of audit and observer events, decision snapshots.
    - Destination (freja-proxy/src/destination.rs): authorisation, resolution,
      connection.
    - FlowInspect (freja-proxy/src/inspection.rs): the inspector of one flow.
    - Relay (freja-proxy/src/tcp/relay.rs): the bidirectional relay.
    - TcpSession, Socks, Server (freja-proxy/src/tcp, socks, settings.rs): sessions from
      acceptance to closing, the SOCKS5 protocol, the accept loops.
    - Settings (freja-proxy/src/settings.rs): the limits and their zero checks.
    - HttpHeaders (freja-proxy/src/http/headers.rs, target.rs, service/response.rs): what
      the HTTP listener checks, strips and shows the policy of a request's headers.
    - Tls (freja-proxy/src/tls): host selection, the leaf cache, certificate resolution,
      protocol negotiation of the interceptor.
    - Keys (freja-proxy/src/tls/material.rs, tls/interceptor.rs,
      freja-audit/src/checkpoint.rs): the loading of the interception authority and of
      the checkpoint signer, and the text of keys, signatures and digests.
    - HttpMessages (freja-proxy/src/http/body.rs, service/body.rs): messages, the class
      [HttpEnvironment] of what hyper, the peers and the operator do, bounded collection
      and the pump of inspected bodies.
    - HttpService (freja-proxy/src/http/service.rs, service/forward.rs, connect.rs,
      hooks.rs, intercept.rs): one transaction, from its request to its response or its
      tunnel.  HttpServer (http/server.rs, intercept.rs): the loops of a connection and
      of an intercepted tunnel, the tracker of its tasks, the accept loop.
    - HttpRepeat (freja-proxy/src/http/service/repeat.rs): attempts at repeating a
      request that was retained for the operator.
    - BodyChannel (freja-proxy/src/http/body.rs): the channel between the pump of a body
      and the connection that sends it, under every interleaving of the two.
    - HttpSafety, HttpBodies, ServerSafety, RepeatSafety: the theorems on them.
      HttpWitnesses: a concrete proxy on which they are evaluated.
    - WireCapture, WireSafety (freja-proxy/src/http/wire/capture.rs): the adapters that
      capture a connection around the framer and pair messages with transactions.
    - Config, ConfigSafety (freja-config/src): the raw documents, their validation into
      policies, programs, listeners and limits, and what a configuration compiles to.
    - Process, ProcessSafety (freja/src, freja-proxy/src/runtime/snapshot.rs): commands,
      start-up, the audit segment, reloads and the end of the process.  Lifecycle
      (freja-proxy/src/shutdown.rs, pingora.rs, error.rs, the servers' binding,
      freja/src/proxy.rs): the listeners that are bound, the shutdown signal, the signals
      that end the process.
    - UiEvents (freja-ui/src/lib.rs, freja/src/ui_adapter.rs): the channel to the
      terminal.  Tracing (freja/src/tracing_setup.rs): the log lines it carries.
      UiEditor, UiRoundTrip (freja-ui/src/tui/editor.rs): the request editor.
      UiModel (tui/model.rs, tui/evidence.rs): what the terminal keeps.  UiInput
      (tui/input.rs, tui/runtime.rs): the keys and the event loop.  UiSafety, UiTerminal,
      UiPaused: what holds of the rows, of the whole terminal and of paused requests.
      UiText, UiDetail (tui/render.rs, tui/render/evidence.rs): the text that is drawn,
      escaped and wrapped: messages, the draft and its caret, evaluations, rule details.
      UiScreen (the same files): the widgets of a frame and their areas.  UiLoop
      (tui/runtime.rs, tui/terminal.rs): the thread that owns the terminal, with its
      faults.
    - System: the activities of the running process, composed from Process, Config, Guard,
      Destination and the sessions.  Shown: what these activities show the terminal.

    Definitions keep the names of the source; types with several operations are modules
    ([HostName], [DestinationGuard], [Http1Framer], [JsonlAuditSink], [PreflightBuffer]).
    Where the source mutates [self], the operation returns the new value.

    ** How effects are modelled

    Fallible functions return [result].  Network code is a [flow]: a function from a
    [world] (the history of effects of the flow, the shared metric counters, the bytes
    its two peers have yet to send) to a result and a world.  Everything a flow cannot
    decide is a class [Environment] of answers that may depend on the whole history:
    the current policy snapshot (so policies may be reloaded between any two steps),
    audit delivery, lookups, connections, reads, writes, the clock, the hook registry.
    Statements quantify over it, so they hold for every interleaving with other tasks.
    [tokio::select!] is a schedule: the list of branches taken.  The hash function, hex
    coding, JSON coding of records, Ed25519, CIDR containment ([ipnet]), the [http]
    crate's header map, base64 and URL form coding are classes; what a theorem relies on is a
    named law, and the witnesses instantiate every class by a concrete function.

    ** What the theorems show

    - The whole proxy (System): every address that is connected to, by any activity and
      after any reload, is an address of a target its client asked for and was entitled
      to, and one that a configuration in force lets that client reach; where that
      configuration enforces, its policy and its guard passed the target and the address.
    - Decisions: the policy takes the first rule whose expression is true, expressions
      evaluate as strong Kleene logic, later facts never revise a definite answer, a
      detour is settled at the requested stage; the guard denies exactly the protected
      blocks of the families it classifies.
    - Authorisation (against a pure reference, by refinement): the addresses returned are
      those of the request, or of its one detour, with that target's port; under
      enforcement they passed every decision of one snapshot; refusals are audited last;
      recorded facts replay to the recorded decisions; the causes of detour loops.
    - Inspection: findings do not depend on how a stream is cut; a flow is permitted
      exactly when no refusing pattern occurs in the inspected prefix; captures are the
      prefix.
    - Relay, with hooks disabled: in-order prefix delivery and exact counts, nothing
      refused is ever sent under enforcement, and termination when nothing fails.
    - Sessions: the audit trail of a session, the addresses it may contact, the SOCKS5
      authentication gate, round trip of requests, the reply to each outcome; the accept
      loop's limit and draining, once it starts: beyond the permits of a semaphore it
      panics ([bound_servers_run]).
    - Framing: what is captured is exactly the messages of the stream, for every
      chunking, within bounded memory; ambiguous heads are rejected.
    - Audit: one chain with consecutive numbers; replay accepts what the drain loop wrote,
      within the length of line it reads; two accepted segments that agree on one record
      hash say the same before it, or exhibit a digest collision; secrets are redacted.
      The JSON of a target host does not tell a name that reads as an address from that
      address, so these hold up to [canonical_record], and a concrete segment shows what
      is lost by it.
    - Hooks: mutations rebuild the framing headers; failures follow the policy.
    - HTTP headers: validation agrees with the capture framer on the same head,
      stripping removes exactly the hop-by-hop headers, the policy sees no secrets.
    - HTTP transactions: what is sent upstream is clean and names its target; contacts
      are authorised for the target and permitted by the request policy; without the
      listener's credentials nothing happens; requests and responses are recorded as a
      bracket around everything else.  Bodies: what is delivered is an inspected prefix,
      what is preflighted was inspected whole, collection is exact at its limit; a streamed
      body that ends without an error is whole, unless its pump was cut short.
    - Connections and intercepted tunnels: their records from acceptance to close, in
      order, with the outcome of hyper, the tunnel and the tasks, and that a tunnel
      serves its host alone.  Repeats: sent clean, authorised
      again, recorded, and kept up to the inspected prefix.
    - TLS: the leaf cache is least-recently-used, and acceptors serve their own host.
      Keys are loaded exactly from sound files that only their owner can use.
    - Wire capture: what is stored for a transaction is its own message, a prefix of
      what was read.
    - Configuration: validation accepts exactly the documents whose parts are sound;
      what it accepts starts, unless the channel sizes exceed what the platform permits.
    - Process: exposed servers authenticate; reloads install exactly the compatible
      candidates; audit segments are new files; the exit status says what failed.  Servers
      bind what the platform answers, in order; a waiting task returns exactly when a
      shutdown was requested, under every interleaving with the senders.
    - Terminal: it never holds up the proxy and counts what it drops; what it keeps is
      bounded and consistent under all traffic and keys; a paused request is answered at
      most once and has its row while there is room; the editor submits what it shows,
      and a document submitted unchanged changes nothing.  Three concrete runs show
      where the operator's answer goes astray.  What is drawn holds no control character
      that was observed, but for the start line, which is not escaped; the caret stands where its text ends, the evidence of a decision
      describes it within its limits, and its detail can always be drawn.  Frames stay on
      the screen, the view stays anchored to the selected evaluation and the caret is
      drawn where the draft has it.  Whatever the activities of the process show it, the
      terminal's thread never panics and gives the terminal back (Shown).

    ** Bounds and fuel

    [u64] and [usize] values are [N] with saturation, checking or wrap-around written
    out; [usize] has 64 bits.  Loops are structural, or run on fuel that theorems show
    sufficient: the framer's fuel is the length of its input, the replayer's the length
    of the segment, decimal printing the bit size of the number.  The relay and the
    accept loop run for as long as their schedule; [relay_terminates] and
    [server_drains] say which schedules are long enough.

    ** Not modelled

    The interleaving of HTTP/2 streams (the environment answers what each exchange
    received); rustls, rcgen, hyper and Pingora themselves; TOML decoding, argument parsing
    and tracing's formatting; how ratatui divides an area (a class with laws), paints a
    widget and styles single lines; error sources and [Display] texts of errors where
    nothing depends on them; latency and cancellation inside a single read or write; the
    example HTTP server and the fuzz targets, which are no part of the proxy. *)
From Stdlib Require Import NArith Ascii.
From stdpp Require Import strings prelude.

(** * Rust results *)

(** [Result<A, E>]: the fallible return type of the program. *)
Inductive result (E A : Type) : Type :=
| Ok (a : A)
| Err (e : E).
Arguments Ok {E A} a.
Arguments Err {E A} e.

#[export] Instance result_ret E : MRet (result E) := fun A a => Ok a.
#[export] Instance result_bind E : MBind (result E) :=
  fun A B f r => match r with Ok a => f a | Err e => Err e end.
#[export] Instance result_fmap E : FMap (result E) :=
  fun A B f r => match r with Ok a => Ok (f a) | Err e => Err e end.
#[export] Instance result_eq_dec E A `{EqDecision E, EqDecision A} :
  EqDecision (result E A).
Proof. solve_decision. Defined.

(** [Result::map_err]. *)
Definition map_err {E F A} (f : E -> F) (r : result E A) : result F A :=
  match r with Ok a => Ok a | Err e => Err (f e) end.
(** [Option::ok_or]. *)
Definition ok_or {E A} (e : E) (o : option A) : result E A :=
  match o with Some a => Ok a | None => Err e end.
(** [Result::ok]. *)
Definition res_ok {E A} (r : result E A) : option A :=
  match r with Ok a => Some a | Err _ => None end.
(** [Result::is_ok]. *)
Definition is_ok {E A} (r : result E A) : bool :=
  match r with Ok _ => true | Err _ => false end.
(** [iter.map(f).collect::<Result<Vec<_>, _>>()]: stops at the first error. *)
Fixpoint collect {E A B} (f : A -> result E B) (l : list A) : result E (list B) :=
  match l with
  | [] => Ok []
  | a :: l => b ← f a; bs ← collect f l; Ok (b :: bs)
  end.

Lemma ok_or_Ok {E A} (e : E) (o : option A) a : ok_or e o = Ok a <-> o = Some a.
Proof. destruct o; cbn; split; congruence. Qed.
Lemma bind_Ok {E A B} (r : result E A) (f : A -> result E B) b :
  r ≫= f = Ok b -> exists a, r = Ok a /\ f a = Ok b.
Proof. destruct r as [a|e]; [|discriminate]; intros H; exists a; auto. Qed.
Lemma bind_Err {E A B} (r : result E A) (f : A -> result E B) e :
  r ≫= f = Err e -> r = Err e \/ exists a, r = Ok a /\ f a = Err e.
Proof.
  destruct r as [a|e']; intros H; [right; eauto|left].
  injection H as ->. done.
Qed.
Lemma collect_Ok {E A B} (f : A -> result E B) l bs :
  collect f l = Ok bs <-> Forall2 (fun a b => f a = Ok b) l bs.
Proof.
  revert bs; induction l as [|a l IH]; intros bs; cbn.
  - split; [intros [= <-]; constructor|inversion 1; done].
  - split.
    + intros (b & Hb & (bs' & Hbs & [= <-])%bind_Ok)%bind_Ok.
      constructor; [done|by apply IH].
    + inversion 1 as [|? b ? bs' Hb Hbs]; subst.
      rewrite Hb; cbn. apply IH in Hbs. rewrite Hbs. done.
Qed.
Lemma collect_length {E A B} (f : A -> result E B) l bs :
  collect f l = Ok bs -> length bs = length l.
Proof. intros H%collect_Ok%Forall2_length. done. Qed.

(** Splits every [bind] hypothesis into its successful steps. *)
Ltac inv_bind :=
  repeat match goal with
  | H : _ ≫= _ = Ok _ |- _ =>
      let a := fresh "a" in let Ha := fresh "Hok" in
      apply bind_Ok in H as (a & Ha & H)
  | H : Ok _ = Ok _ |- _ => injection H as H
  | H : Err _ = Err _ |- _ => injection H as H
  | H : Ok _ = Err _ |- _ => discriminate H
  | H : Err _ = Ok _ |- _ => discriminate H
  end.

(** Reduces binds and result combinators, and nothing of the model. *)
Ltac mcbn :=
  cbn [mbind mret fmap option_bind option_fmap option_map result_bind result_fmap
       result_ret ok_or map_err res_ok fst snd].

(** Case analysis on the conditional or the match in the goal. *)
Ltac case_if := match goal with
  | |- context [if ?b then _ else _] => destruct b eqn:?
  end.
Ltac case_if_in H := match type of H with
  | context [if ?b then _ else _] => destruct b eqn:?
  end.

(** * Machine integers

    [u64] and [usize] values are [N] with their bounds written out; the targets
    the program supports have a 64-bit [usize], so that the conversions
    [usize_as_u64], [u64_from_usize], [usize_from_u64] and [count_as_u64] of the
    source, which saturate where the widths differ, are the identity. *)
Definition u16_max : N := 65535.
Definition u64_max : N := 18446744073709551615.
Definition usize_max : N := u64_max.

(** [u64::saturating_add]. *)
Definition sat_add (a b : N) : N := N.min (a + b) u64_max.
(** [u64::checked_add] and [u64::checked_mul]. *)
Definition checked_add (a b : N) : option N :=
  if (a + b <=? u64_max)%N then Some (a + b)%N else None.
Definition checked_mul (a b : N) : option N :=
  if (a * b <=? u64_max)%N then Some (a * b)%N else None.

Lemma sat_add_le a b : (sat_add a b <= u64_max)%N.
Proof. unfold sat_add. lia. Qed.
Lemma sat_add_small a b : (a + b <= u64_max)%N -> sat_add a b = (a + b)%N.
Proof. unfold sat_add. lia. Qed.
Lemma sat_add_assoc a b c : sat_add (sat_add a b) c = sat_add a (b + c).
Proof. unfold sat_add. lia. Qed.
Lemma checked_add_Some a b c :
  checked_add a b = Some c <-> c = (a + b)%N /\ (a + b <= u64_max)%N.
Proof.
  unfold checked_add. destruct (N.leb_spec (a + b) u64_max); split;
    [intros [= <-]; done|intros [-> ?]; done|done|lia].
Qed.
Lemma checked_add_None a b : checked_add a b = None <-> (u64_max < a + b)%N.
Proof.
  unfold checked_add. destruct (N.leb_spec (a + b) u64_max); split; try done; lia.
Qed.

(** * Byte strings

    A byte is an [ascii] (exactly eight bits); both [&[u8]] and the UTF-8
    encoding of a Rust [String] are lists of bytes. *)
Abbreviation u8 := Ascii.ascii.
Abbreviation bytes := (list Ascii.ascii).
Definition bs (s : string) : bytes := String.list_ascii_of_string s.
Definition byte_of (n : N) : u8 := ascii_of_N n.
Definition byte_val (b : u8) : N := N_of_ascii b.
Definition lenN {A} (l : list A) : N := N.of_nat (length l).
Definition takeN {A} (n : N) (l : list A) : list A := take (N.to_nat n) l.
Definition dropN {A} (n : N) (l : list A) : list A := drop (N.to_nat n) l.

Definition CR : u8 := byte_of 13.
Definition LF : u8 := byte_of 10.
Definition byte_in (lo hi : N) (b : u8) : bool :=
  ((lo <=? byte_val b) && (byte_val b <=? hi))%N.
(** [u8::is_ascii_digit], [is_ascii_alphanumeric], [is_ascii_hexdigit],
    [is_ascii_graphic], [is_ascii_whitespace]. *)
Definition is_digit (b : u8) : bool := byte_in 48 57 b.
Definition is_upper (b : u8) : bool := byte_in 65 90 b.
Definition is_lower (b : u8) : bool := byte_in 97 122 b.
Definition is_alnum (b : u8) : bool := is_digit b || is_upper b || is_lower b.
Definition is_hexdigit (b : u8) : bool :=
  is_digit b || byte_in 65 70 b || byte_in 97 102 b.
Definition is_graphic (b : u8) : bool := byte_in 33 126 b.
Definition is_whitespace (b : u8) : bool :=
  bool_decide (b ∈ [byte_of 32; byte_of 9; byte_of 10; byte_of 12; byte_of 13]).
(** [to_ascii_lowercase] and [to_ascii_uppercase]; bytes above 127, the pieces of
    a non-ASCII character, are unchanged. *)
Definition lower_byte (b : u8) : u8 :=
  if is_upper b then byte_of (byte_val b + 32) else b.
Definition upper_byte (b : u8) : u8 :=
  if is_lower b then byte_of (byte_val b - 32) else b.
Definition to_ascii_lowercase (l : bytes) : bytes := map lower_byte l.
Definition to_ascii_uppercase (l : bytes) : bytes := map upper_byte l.
Definition eq_ignore_ascii_case (a b : bytes) : bool :=
  bool_decide (to_ascii_lowercase a = to_ascii_lowercase b).

(** Facts about a single byte, by enumeration of its 256 values. *)
Ltac byte_cases b :=
  let b0 := fresh in let b1 := fresh in let b2 := fresh in let b3 := fresh in
  let b4 := fresh in let b5 := fresh in let b6 := fresh in let b7 := fresh in
  destruct b as [b0 b1 b2 b3 b4 b5 b6 b7];
  destruct b0, b1, b2, b3, b4, b5, b6, b7.

Lemma lower_byte_idem b : lower_byte (lower_byte b) = lower_byte b.
Proof. byte_cases b; reflexivity. Qed.
Lemma upper_byte_idem b : upper_byte (upper_byte b) = upper_byte b.
Proof. byte_cases b; reflexivity. Qed.
Lemma lower_upper_byte b : lower_byte (upper_byte b) = lower_byte b.
Proof. byte_cases b; reflexivity. Qed.
Lemma to_ascii_lowercase_idem l :
  to_ascii_lowercase (to_ascii_lowercase l) = to_ascii_lowercase l.
Proof. unfold to_ascii_lowercase. rewrite map_map. apply map_ext, lower_byte_idem. Qed.
Lemma to_ascii_lowercase_length l : length (to_ascii_lowercase l) = length l.
Proof. apply length_map. Qed.
