(* ===== verification/Bytes.v ===== *)
(** Byte strings: the [str] and slice functions the program calls (prefixes and
    suffixes, [split], [split_once], trimming, substring search, decimal and
    hexadecimal integers), with the lemmas the components share. *)
From stdpp Require Import strings prelude.
From S2P Require Import Prelude.

(** * Prefixes and suffixes *)

(** [slice::strip_prefix]. *)
Fixpoint strip_pre (p l : bytes) : option bytes :=
  match p, l with
  | [], _ => Some l
  | a :: p, b :: l => if decide (a = b) then strip_pre p l else None
  | _ :: _, [] => None
  end.
(** [slice::strip_suffix]. *)
Definition strip_suf (s l : bytes) : option bytes :=
  if decide (length s <= length l /\ drop (length l - length s) l = s)
  then Some (take (length l - length s) l) else None.
Definition starts_with (p l : bytes) : bool :=
  match strip_pre p l with Some _ => true | None => false end.
Definition ends_with (s l : bytes) : bool :=
  match strip_suf s l with Some _ => true | None => false end.

Lemma strip_pre_Some p l r : strip_pre p l = Some r <-> l = p ++ r.
Proof.
  revert l; induction p as [|a p IH]; intros l; cbn.
  - split; [intros [= ->]; done|intros ->; done].
  - destruct l as [|b l]; [done|]. case_decide as Hab.
    + subst b. rewrite IH. split; [intros ->; done|intros [= ->]; done].
    + split; [done|intros [= -> ->]; done].
Qed.
Lemma strip_suf_Some s l r : strip_suf s l = Some r <-> l = r ++ s.
Proof.
  unfold strip_suf. case_decide as H.
  - destruct H as [Hle Hd]. split.
    + intros [= <-]. rewrite <- Hd at 2. by rewrite take_drop.
    + intros ->. f_equal. rewrite length_app.
      replace (length r + length s - length s) with (length r) by lia.
      by rewrite take_app_length.
  - split; [done|]. intros ->. destruct H. rewrite length_app. split; [lia|].
    replace (length r + length s - length s) with (length r) by lia.
    by rewrite drop_app_length.
Qed.
Lemma starts_with_spec p l : starts_with p l = true <-> exists r, l = p ++ r.
Proof.
  unfold starts_with. destruct (strip_pre p l) as [r|] eqn:E; split; try done.
  - intros _. exists r. by apply strip_pre_Some.
  - intros [r ->]. rewrite (proj2 (strip_pre_Some p (p ++ r) r)) in E; done.
Qed.
Lemma ends_with_spec s l : ends_with s l = true <-> exists r, l = r ++ s.
Proof.
  unfold ends_with. destruct (strip_suf s l) as [r|] eqn:E; split; try done.
  - intros _. exists r. by apply strip_suf_Some.
  - intros [r ->]. rewrite (proj2 (strip_suf_Some s (r ++ s) r)) in E; done.
Qed.

(** * Splitting *)

(** [slice::split]: always at least one field, separators dropped. *)
Fixpoint split_by (p : u8 -> bool) (l : bytes) : list bytes :=
  match l with
  | [] => [[]]
  | b :: l =>
      if p b then [] :: split_by p l
      else match split_by p l with
           | [] => [[b]]
           | f :: fs => (b :: f) :: fs
           end
  end.
Definition split_on (c : u8) (l : bytes) : list bytes :=
  split_by (fun b => bool_decide (b = c)) l.
(** [iter().position(|b| b == c)]. *)
Fixpoint position (c : u8) (l : bytes) : option nat :=
  match l with
  | [] => None
  | b :: l => if decide (b = c) then Some 0 else S <$> position c l
  end.
(** [str::split_once] and [str::rsplit_once] on one ASCII character. *)
Definition split_once (c : u8) (l : bytes) : option (bytes * bytes) :=
  i ← position c l; Some (take i l, drop (S i) l).
Definition rsplit_once (c : u8) (l : bytes) : option (bytes * bytes) :=
  i ← position c (rev l);
  let k := length l - S i in Some (take k l, drop (S k) l).

Lemma split_by_nonempty p l : split_by p l <> [].
Proof. induction l as [|b l IH]; cbn; [done|]. destruct (p b); [done|]. by destruct (split_by p l). Qed.
Lemma split_by_none p l :
  Forall (fun b => p b = false) l -> split_by p l = [l].
Proof.
  unfold to_ascii_lowercase. induction 1 as [|b l Hb Hl IH]; cbn; [done|].
  by rewrite Hb, IH.
Qed.
Lemma split_by_fields p l f : f ∈ split_by p l -> Forall (fun b => p b = false) f.
Proof.
  revert f; induction l as [|b l IH]; intros f; cbn.
  - rewrite list_elem_of_singleton. intros ->. constructor.
  - destruct (p b) eqn:Hb.
    + rewrite elem_of_cons. intros [-> | Hf]; [constructor|by apply IH].
    + destruct (split_by p l) as [|g gs] eqn:E; [by apply split_by_nonempty in E|].
      rewrite elem_of_cons. intros [-> | Hf].
      * constructor; [done|]. apply IH. left.
      * apply IH. by right.
Qed.
Lemma position_None c l : position c l = None <-> c ∉ l.
Proof.
  induction l as [|b l IH]; cbn; [split; [intros _; apply not_elem_of_nil|done]|].
  rewrite not_elem_of_cons. case_decide as Hb.
  - split; [done|]. intros [Hc _]. by destruct Hc.
  - rewrite fmap_None, IH. split; [intros H; split; congruence|by intros [_ H]].
Qed.
Lemma position_app c l r : c ∉ l -> position c (l ++ c :: r) = Some (length l).
Proof.
  induction l as [|b l IH]; cbn; intros Hc.
  - by rewrite decide_True.
  - apply not_elem_of_cons in Hc as [Hb Hc].
    rewrite decide_False by congruence. by rewrite IH.
Qed.
Lemma split_once_app c l r : c ∉ l -> split_once c (l ++ c :: r) = Some (l, r).
Proof.
  intros Hc. unfold split_once. rewrite position_app by done; cbn.
  rewrite take_app_length. f_equal. f_equal.
  change (c :: r) with ([c] ++ r). rewrite (app_assoc l [c] r).
  rewrite drop_app_length'; [done|]. rewrite length_app; cbn; lia.
Qed.
Lemma rsplit_once_app c l r : c ∉ r -> rsplit_once c (l ++ c :: r) = Some (l, r).
Proof.
  intros Hc. unfold rsplit_once.
  rewrite rev_app_distr; cbn. rewrite <- app_assoc; cbn.
  rewrite position_app by (rewrite list_elem_of_In, <- in_rev, <- list_elem_of_In; done).
  cbn. rewrite length_rev, length_app; cbn.
  replace (length l + S (length r) - S (length r)) with (length l) by lia.
  rewrite take_app_length. f_equal. f_equal.
  change (c :: r) with ([c] ++ r). rewrite (app_assoc l [c] r).
  rewrite drop_app_length'; [done|]. rewrite length_app; cbn; lia.
Qed.

(** * Trimming *)

Fixpoint trim_start (p : u8 -> bool) (l : bytes) : bytes :=
  match l with
  | [] => []
  | b :: r => if p b then trim_start p r else l
  end.
Definition trim_end (p : u8 -> bool) (l : bytes) : bytes := rev (trim_start p (rev l)).
Definition trim (p : u8 -> bool) (l : bytes) : bytes := trim_end p (trim_start p l).

Lemma trim_start_none p l : Forall (fun b => p b = false) l -> trim_start p l = l.
Proof. destruct 1 as [|b l Hb Hl]; cbn; [done|]. by rewrite Hb. Qed.
Lemma trim_none p l : Forall (fun b => p b = false) l -> trim p l = l.
Proof.
  intros H. unfold trim, trim_end. rewrite (trim_start_none p l) by done.
  rewrite trim_start_none; [apply rev_involutive|]. by apply Forall_rev.
Qed.

(** * Substring search: [value.windows(needle.len())] *)

(** Offsets at which [needle] occurs in [l], in increasing order. *)
Fixpoint occurrences_from (i : nat) (needle l : bytes) : list nat :=
  (if starts_with needle l then [i] else [])
  ++ match l with [] => [] | _ :: l => occurrences_from (S i) needle l end.

(** [slice::windows] panics on a zero length: callers exclude it. *)
Definition windows_any (needle l : bytes) : bool :=
  bool_decide (occurrences_from 0 needle l <> []).

Lemma elem_of_occurrences_from i needle l k :
  k ∈ occurrences_from i needle l <->
  i <= k /\ k - i <= length l /\ starts_with needle (drop (k - i) l) = true.
Proof.
  revert i; induction l as [|b l IH]; intros i; cbn [occurrences_from].
  - rewrite app_nil_r. destruct (starts_with needle []) eqn:E; cbn.
    + rewrite list_elem_of_singleton. split.
      * intros ->. rewrite Nat.sub_diag. cbn. auto with lia.
      * intros (Hi & Hk & _). lia.
    + rewrite elem_of_nil. split; [done|]. intros (Hi & Hk & Hs).
      replace (k - i) with 0 in Hs by lia. cbn in Hs. congruence.
  - rewrite elem_of_app, IH. cbn [length].
    assert (Hhd : k ∈ (if starts_with needle (b :: l) then [i] else []) <->
                  k = i /\ starts_with needle (b :: l) = true).
    { destruct (starts_with needle (b :: l)); [rewrite list_elem_of_singleton|rewrite elem_of_nil]; intuition congruence. }
    rewrite Hhd. split.
    + intros [[-> Hs]|(Hi & Hk & Hs)].
      * rewrite Nat.sub_diag. auto with lia.
      * replace (k - i) with (S (k - S i)) by lia. cbn. auto with lia.
    + intros (Hi & Hk & Hs). destruct (decide (k = i)) as [->|Hne].
      * left. rewrite Nat.sub_diag in Hs. done.
      * right. replace (k - i) with (S (k - S i)) in Hs by lia. cbn in Hs.
        split_and!; [lia|lia|done].
Qed.

(** * Integers as text *)

Definition digit_val (b : u8) : N := byte_val b - 48.
Definition digit_byte (d : N) : u8 := byte_of (48 + d).

(** Digit loop of [u16::from_str] and [u64::from_str]: every byte a decimal
    digit, every step checked against the type's maximum. *)
Fixpoint parse_digits (max acc : N) (l : bytes) : option N :=
  match l with
  | [] => Some acc
  | b :: l =>
      if is_digit b
      then let v := (acc * 10 + digit_val b)%N in
           if (v <=? max)%N then parse_digits max v l else None
      else None
  end.
(** [str::parse::<uN>]: one leading plus sign is accepted; an empty text and a
    lone sign are errors. *)
Definition parse_uint (max : N) (l : bytes) : option N :=
  match l with
  | [] => None
  | b :: r =>
      if decide (b = byte_of 43)
      then match r with [] => None | _ :: _ => parse_digits max 0 r end
      else parse_digits max 0 l
  end.

(** [Display] of an unsigned integer: decimal, no leading zero.  One step per
    digit; [N.size_nat n] steps are enough since a step divides by ten. *)
Fixpoint show_fuel (fuel : nat) (n : N) (acc : bytes) : bytes :=
  let acc' := digit_byte (n mod 10) :: acc in
  match fuel with
  | O => acc'
  | S fuel => if (n <? 10)%N then acc' else show_fuel fuel (n / 10)%N acc'
  end.
Definition show_N (n : N) : bytes := show_fuel (N.size_nat n) n [].

Fixpoint digits_value (acc : N) (l : bytes) : N :=
  match l with
  | [] => acc
  | b :: l => digits_value (acc * 10 + digit_val b)%N l
  end.

Lemma byte_val_of n : (n < 256)%N -> byte_val (byte_of n) = n.
Proof. apply Ascii.N_ascii_embedding. Qed.
Lemma digit_byte_props d : (d < 10)%N ->
  is_digit (digit_byte d) = true /\ digit_val (digit_byte d) = d.
Proof.
  intros Hd. unfold is_digit, byte_in, digit_val, digit_byte.
  rewrite byte_val_of by lia. split; [|lia].
  apply andb_true_iff; split; apply N.leb_le; lia.
Qed.
Lemma parse_digits_value max acc l :
  Forall (fun b => is_digit b = true) l -> (digits_value acc l <= max)%N ->
  parse_digits max acc l = Some (digits_value acc l).
Proof.
  intros Hl; revert acc; induction Hl as [|b l Hb Hl IH]; intros acc Hm; cbn in *; [done|].
  rewrite Hb. assert (Hle : forall l v, (v <= digits_value v l)%N).
  { clear. induction l as [|b l IH]; intros v; cbn; [lia|].
    etransitivity; [|apply IH]. lia. }
  rewrite (proj2 (N.leb_le _ _)); [by apply IH|]. etransitivity; [apply Hle|exact Hm].
Qed.
Lemma show_fuel_digits fuel n acc :
  Forall (fun b => is_digit b = true) acc ->
  Forall (fun b => is_digit b = true) (show_fuel fuel n acc).
Proof.
  revert n acc; induction fuel as [|fuel IH]; intros n acc Hacc; cbn.
  all: assert (Hd : is_digit (digit_byte (n mod 10)) = true)
    by (apply digit_byte_props, N.mod_lt; lia).
  - by constructor.
  - destruct (n <? 10)%N; [by constructor|]. apply IH. by constructor.
Qed.
Lemma show_fuel_value fuel n acc : (n < 10 ^ N.succ (N.of_nat fuel))%N ->
  digits_value 0 (show_fuel fuel n acc) = digits_value n acc.
Proof.
  revert n acc; induction fuel as [|fuel IH]; intros n acc Hn.
  - cbn [show_fuel digits_value]. change (10 ^ N.succ (N.of_nat 0))%N with 10%N in Hn.
    rewrite N.mod_small by done. destruct (digit_byte_props n Hn) as [_ ->].
    by rewrite N.mul_0_l, N.add_0_l.
  - cbn [show_fuel]. assert (Hm : (n mod 10 < 10)%N) by (apply N.mod_lt; lia).
    destruct (digit_byte_props _ Hm) as [_ Hv].
    destruct (N.ltb_spec n 10) as [H10|H10].
    + cbn [digits_value]. rewrite Hv, N.mod_small by done. by rewrite N.mul_0_l, N.add_0_l.
    + rewrite IH.
      * cbn [digits_value]. rewrite Hv. f_equal. rewrite (N.div_mod n 10) at 3; lia.
      * rewrite Nat2N.inj_succ, (N.pow_succ_r' 10 (N.succ _)) in Hn.
        apply N.Div0.div_lt_upper_bound. done.
Qed.
Lemma size_nat_bound n : (n < 10 ^ N.succ (N.of_nat (N.size_nat n)))%N.
Proof.
  assert (Hs : (n < 2 ^ N.of_nat (N.size_nat n))%N).
  { destruct (N.eq_dec n 0%N) as [->|Hn]; [done|].
    replace (N.of_nat (N.size_nat n)) with (N.size n) by (destruct n as [|p]; [done|]; cbn; induction p; cbn; lia).
    rewrite N.size_log2 by done. by apply N.log2_spec; lia. }
  eapply N.lt_le_trans; [exact Hs|]. transitivity (10 ^ N.of_nat (N.size_nat n))%N.
  - apply N.pow_le_mono_l. lia.
  - apply N.pow_le_mono_r; lia.
Qed.
Lemma show_N_digits n : Forall (fun b => is_digit b = true) (show_N n).
Proof. apply show_fuel_digits. constructor. Qed.
Lemma show_N_nonempty n : show_N n <> [].
Proof.
  unfold show_N. assert (H : forall f m acc, acc <> [] -> show_fuel f m acc <> []).
  { induction f as [|f IH]; intros m acc Ha; cbn; [done|].
    destruct (m <? 10)%N; [done|]. by apply IH. }
  destruct (N.size_nat n) as [|f]; cbn; [done|]. destruct (n <? 10)%N; [done|]. by apply H.
Qed.
Lemma digits_value_show n : digits_value 0 (show_N n) = n.
Proof. unfold show_N. rewrite show_fuel_value by apply size_nat_bound. done. Qed.
Lemma parse_show_N max n : (n <= max)%N -> parse_uint max (show_N n) = Some n.
Proof.
  intros Hn. pose proof (show_N_digits n) as Hd.
  pose proof (digits_value_show n) as Hv.
  assert (Hp : parse_digits max 0 (show_N n) = Some n).
  { rewrite <- Hv at 2. apply parse_digits_value; [done|]. by rewrite Hv. }
  unfold parse_uint. destruct (show_N n) as [|b r] eqn:E; [by apply show_N_nonempty in E|].
  case_decide as Hb; [|done]. exfalso. apply Forall_cons_1 in Hd as [Hd _]. by subst b.
Qed.

Lemma split_by_snoc p l c : p c = true -> split_by p (l ++ [c]) = split_by p l ++ [[]].
Proof.
  intros Hc. induction l as [|b l IH]; cbn; [by rewrite Hc|].
  destruct (p b); [by rewrite IH|]. rewrite IH.
  destruct (split_by p l) as [|f fs] eqn:E; [by apply split_by_nonempty in E|]. done.
Qed.

Lemma split_on_app c l r : c ∉ l -> split_on c (l ++ c :: r) = l :: split_on c r.
Proof.
  unfold split_on. induction l as [|b l IH]; cbn; intros Hc.
  - by rewrite bool_decide_true.
  - apply not_elem_of_cons in Hc as [Hb Hc].
    rewrite bool_decide_false by congruence. by rewrite IH.
Qed.
Lemma split_on_none c l : c ∉ l -> split_on c l = [l].
Proof.
  intros Hc. apply split_by_none, Forall_forall. intros b Hb.
  apply bool_decide_eq_false. by intros ->.
Qed.
Lemma digits_not_in c l :
  is_digit c = false -> Forall (fun b => is_digit b = true) l -> c ∉ l.
Proof. intros Hc Hl Hin. rewrite Forall_forall in Hl. specialize (Hl c Hin). congruence. Qed.
Lemma show_byte_length (a : u8) : length (show_N (byte_val a)) <= 3.
Proof. byte_cases a; apply Nat.leb_le; reflexivity. Qed.
Lemma lower_digit b : is_digit b = true -> lower_byte b = b.
Proof. byte_cases b; reflexivity || discriminate. Qed.
Lemma to_ascii_lowercase_fixed l :
  Forall (fun b => lower_byte b = b) l -> to_ascii_lowercase l = l.
Proof.
  unfold to_ascii_lowercase. induction 1 as [|b l Hb Hl IH]; cbn; [done|].
  by rewrite Hb, IH.
Qed.

(** * UTF-8: [String::from_utf8] accepts exactly the well-formed sequences *)

Definition cont (b : u8) : bool := byte_in 128 191 b.
(** Number of continuation bytes after a lead byte, and the range of the first. *)
Definition utf8_lead (b : u8) : option (nat * N * N) :=
  let v := byte_val b in
  if (v <? 128)%N then Some (0, 0%N, 0%N)
  else if byte_in 194 223 b then Some (1, 128%N, 191%N)
  else if (v =? 224)%N then Some (2, 160%N, 191%N)
  else if byte_in 225 236 b || byte_in 238 239 b then Some (2, 128%N, 191%N)
  else if (v =? 237)%N then Some (2, 128%N, 159%N)
  else if (v =? 240)%N then Some (3, 144%N, 191%N)
  else if byte_in 241 243 b then Some (3, 128%N, 191%N)
  else if (v =? 244)%N then Some (3, 128%N, 143%N)
  else None.
(** [pending] continuation bytes are still due, the next one in [lo, hi]. *)
Fixpoint utf8_from (pending : nat) (lo hi : N) (l : bytes) : bool :=
  match pending, l with
  | O, [] => true
  | S _, [] => false
  | O, b :: l =>
      match utf8_lead b with
      | Some (n, lo, hi) => utf8_from n lo hi l
      | None => false
      end
  | S n, b :: l => byte_in lo hi b && utf8_from n 128 191 l
  end.
Definition utf8_valid (l : bytes) : bool := utf8_from 0 0 0 l.
Lemma utf8_ascii l : Forall (fun b => (byte_val b < 128)%N) l -> utf8_valid l = true.
Proof.
  unfold utf8_valid. induction 1 as [|b l Hb Hl IH]; cbn; [done|].
  unfold utf8_lead. by rewrite (proj2 (N.ltb_lt _ _) Hb).
Qed.

(** [Utf8Error::valid_up_to]: the length of the longest valid prefix. *)
Fixpoint floor_valid (text : bytes) (n : nat) : nat :=
  match n with
  | 0 => 0
  | S n' => if utf8_valid (take n text) then n else floor_valid text n'
  end.
Definition valid_up_to (text : bytes) : nat := floor_valid text (length text).
Lemma floor_valid_valid t n : utf8_valid (take (floor_valid t n) t) = true.
Proof. induction n as [|n IH]; [done|]. cbn [floor_valid]. destruct (utf8_valid (take (S n) t)) eqn:E; done. Qed.

(** ** [String::from_utf8_lossy]

    Each maximal prefix of a sequence that is not continued as it should be becomes one
    replacement character.  [seen] holds the bytes of the sequence being read. *)
Definition REPLACEMENT : bytes := [byte_of 239; byte_of 191; byte_of 189].
Fixpoint lossy_from (seen : bytes) (pending : nat) (lo hi : N) (l : bytes) : bytes :=
  match l with
  | [] => match seen with [] => [] | _ => REPLACEMENT end
  | b :: l =>
      let continues := match pending with S _ => byte_in lo hi b | O => false end in
      if continues then
        match pending with
        | S (S n) => lossy_from (seen ++ [b]) (S n) 128 191 l
        | _ => seen ++ b :: lossy_from [] 0 0 0 l
        end
      else
        match seen with [] => [] | _ => REPLACEMENT end ++
        match utf8_lead b with
        | Some (O, _, _) => b :: lossy_from [] 0 0 0 l
        | Some (n, lo, hi) => lossy_from [b] n lo hi l
        | None => REPLACEMENT ++ lossy_from [] 0 0 0 l
        end
  end.
Definition utf8_lossy (l : bytes) : bytes := lossy_from [] 0 0 0 l.

(** Reading [l] in a state leads to another state, for every continuation. *)
Definition utf8_reads (pending : nat) (lo hi : N) (l : bytes) (pending' : nat) (lo' hi' : N) : Prop :=
  forall k, utf8_from pending lo hi (l ++ k) = utf8_from pending' lo' hi' k.
Lemma utf8_reads_replacement : utf8_reads 0 0 0 REPLACEMENT 0 128 191.
Proof. intros k. vm_compute. reflexivity. Qed.
Lemma utf8_from_zero lo hi lo' hi' l : utf8_from 0 lo hi l = utf8_from 0 lo' hi' l.
Proof. by destruct l. Qed.

(** What is being read is a prefix of a sequence: [seen] leads to the current state. *)
Lemma lossy_from_valid seen pending lo hi l :
  (seen = [] /\ pending = 0 \/ seen <> [] /\ pending <> 0 /\ utf8_reads 0 0 0 seen pending lo hi) ->
  utf8_from 0 0 0 (lossy_from seen pending lo hi l) = true.
Proof.
  revert seen pending lo hi; induction l as [|b l IH]; intros seen pending lo hi Hs; cbn [lossy_from].
  { destruct Hs as [[-> ->]|(Hs & _)]; [done|]. by destruct seen. }
  assert (Hfresh : utf8_from 0 0 0 (lossy_from [] 0 0 0 l) = true) by (apply IH; by left).
  assert (Hstart : utf8_from 0 0 0
    match utf8_lead b with
    | Some (O, _, _) => b :: lossy_from [] 0 0 0 l
    | Some (n, lo, hi) => lossy_from [b] n lo hi l
    | None => REPLACEMENT ++ lossy_from [] 0 0 0 l
    end = true).
  { destruct (utf8_lead b) as [[[[|n] lo'] hi']|] eqn:Hb.
    - cbn [utf8_from]. rewrite Hb. by rewrite (utf8_from_zero _ _ 0 0).
    - apply IH. right. split; [done|]. split; [done|]. intros k. cbn [app utf8_from]. by rewrite Hb.
    - rewrite utf8_reads_replacement. by rewrite (utf8_from_zero _ _ 0 0). }
  assert (Hrestart : utf8_from 0 0 0
    (match seen with [] => [] | _ => REPLACEMENT end ++
     match utf8_lead b with
     | Some (O, _, _) => b :: lossy_from [] 0 0 0 l
     | Some (n, lo, hi) => lossy_from [b] n lo hi l
     | None => REPLACEMENT ++ lossy_from [] 0 0 0 l
     end) = true).
  { destruct seen; [exact Hstart|]. rewrite utf8_reads_replacement. by rewrite (utf8_from_zero _ _ 0 0). }
  destruct pending as [|pending]; [exact Hrestart|]. cbv zeta. destruct (byte_in lo hi b) eqn:Hin; [|exact Hrestart].
  destruct Hs as [[_ ?]|(Hne & _ & Hreads)]; [done|].
  destruct pending as [|n].
  - rewrite Hreads. cbn [utf8_from]. rewrite Hin. cbn [andb]. by rewrite (utf8_from_zero _ _ 0 0).
  - apply IH. right. split; [by destruct seen|]. split; [done|]. intros k. rewrite <- app_assoc.
    rewrite Hreads. cbn [app utf8_from]. by rewrite Hin.
Qed.
Lemma lossy_from_fixed seen pending lo hi l : (seen = [] <-> pending = 0) ->
  utf8_from pending lo hi l = true -> lossy_from seen pending lo hi l = seen ++ l.
Proof.
  revert seen pending lo hi; induction l as [|b l IH]; intros seen pending lo hi Hs Hv; cbn [lossy_from].
  { destruct pending; [|done]. by rewrite (proj2 Hs eq_refl). }
  destruct pending as [|pending].
  - rewrite (proj2 Hs eq_refl). cbn [app]. cbn [utf8_from] in Hv.
    destruct (utf8_lead b) as [[[[|n] lo'] hi']|]; [| |done].
    + rewrite IH; [done|done|]. by rewrite (utf8_from_zero _ _ lo' hi').
    + rewrite IH; [done| |done]. split; done.
  - cbn [utf8_from] in Hv. apply andb_true_iff in Hv as [Hin Hv]. cbv zeta. rewrite Hin.
    destruct pending as [|n].
    + rewrite IH; [done|done|]. by rewrite (utf8_from_zero _ _ 128 191).
    + rewrite IH; [by rewrite <- app_assoc| |done]. split; [|done]. by destruct seen.
Qed.
Lemma utf8_lossy_valid l : utf8_valid (utf8_lossy l) = true.
Proof. apply lossy_from_valid. by left. Qed.
Lemma utf8_lossy_fixed l : utf8_valid l = true -> utf8_lossy l = l.
Proof. intros Hl. by apply (lossy_from_fixed []). Qed.
