(* ===== verification/Text.v ===== *)
(** The characters of UTF-8 text: [str::chars], [char::is_whitespace], [str::trim], and
    how valid texts are made of characters. *)
From stdpp Require Import strings.
From stdpp Require Import prelude.
From S2P Require Import Prelude Bytes.

(** * Characters *)

(** [str::chars] of a valid text, each as its bytes. *)
Fixpoint chars (text : bytes) : list bytes :=
  match text with
  | [] => []
  | b :: text =>
      let rest := chars text in
      match head text, rest with
      | Some b', c :: cs => if cont b' then (b :: c) :: cs else [b] :: rest
      | _, _ => [b] :: rest
      end
  end.
(** [char::is_whitespace]. *)
Definition char_whitespace (c : bytes) : bool :=
  match map byte_val c with
  | [b] => ((9 <=? b) && (b <=? 13) || (b =? 32))%N
  | [a; b] => ((a =? 194) && ((b =? 133) || (b =? 160)))%N
  | [a; b; d] =>
      ((a =? 225) && (b =? 154) && (d =? 128)
       || (a =? 226) && (b =? 128) && ((128 <=? d) && (d <=? 138) || (d =? 168) || (d =? 169) || (d =? 175))
       || (a =? 226) && (b =? 129) && (d =? 159) || (a =? 227) && (b =? 128) && (d =? 128))%N
  | _ => false
  end.
(** [str::trim]. *)
Fixpoint skip_whitespace (l : list bytes) : list bytes :=
  match l with c :: l' => if char_whitespace c then skip_whitespace l' else l | [] => [] end.
Definition trim_text (text : bytes) : bytes := concat (rev (skip_whitespace (rev (skip_whitespace (chars text))))).

(** * How text is made of characters *)

Lemma concat_chars text : concat (chars text) = text.
Proof.
  induction text as [|b text IH]; [done|]. cbn [chars]. destruct (head text) as [b'|] eqn:Eh, (chars text) as [|c cs] eqn:Ec; cbn in *; subst; try done.
  destruct (cont b'); done.
Qed.
Lemma chars_nonempty b text : chars (b :: text) <> [].
Proof. cbn [chars]. destruct (head text), (chars text) as [|c cs]; try done. by destruct (cont _). Qed.
(** A text that does not begin inside a character starts new ones. *)
Definition starts (text : bytes) : Prop := match head text with Some b => cont b = false | None => True end.
Lemma chars_app a t : starts t -> chars (a ++ t) = chars a ++ chars t.
Proof.
  intros Ht. induction a as [|b a IH]; [done|]. cbn [app chars]. rewrite IH. destruct a as [|b' a].
  - cbn [app chars head]. destruct t as [|b'' t]; [done|]. cbn [head]. unfold starts in Ht. cbn in Ht. rewrite Ht.
    destruct (chars (b'' :: t)) eqn:E; [by apply chars_nonempty in E|done].
  - cbn [app head]. destruct (chars (b' :: a)) as [|c cs] eqn:E; [by apply chars_nonempty in E|]. cbn [app]. by destruct (cont b').
Qed.
Lemma chars_conts b k : Forall (fun c => cont c = true) k -> chars (b :: k) = [b :: k].
Proof.
  intros Hk. revert b. induction Hk as [|b' k Hb Hk IH]; intros b; [done|]. cbn [chars]. change (head (b' :: k)) with (Some b'). cbv zeta.
  specialize (IH b'). cbn [chars] in IH. rewrite IH, Hb. done.
Qed.
(** ** Valid texts are made of characters *)

Lemma utf8_from_app p lo hi a t : utf8_from p lo hi a = true -> utf8_from p lo hi (a ++ t) = utf8_valid t.
Proof.
  revert p lo hi; induction a as [|b a IH]; intros p lo hi Ha.
  - destruct p; [|done]. by apply utf8_from_zero.
  - destruct p; cbn in *.
    + destruct (utf8_lead b) as [[[n l] h]|]; [by apply IH|done].
    + apply andb_true_iff in Ha as [Hb Ha]. rewrite Hb. by apply IH.
Qed.
Lemma utf8_valid_app a t : utf8_valid a = true -> utf8_valid (a ++ t) = utf8_valid t.
Proof. apply utf8_from_app. Qed.
Lemma lead_range b n lo hi : utf8_lead b = Some (n, lo, hi) -> cont b = false /\ (n = 0 -> (byte_val b < 128)%N) /\ (n <> 0 -> (128 <= lo)%N /\ (hi <= 191)%N /\ (128 <= byte_val b)%N).
Proof.
  unfold utf8_lead, cont, byte_in. intros Hl. repeat case_match; try done; injection Hl as <- <- <-; repeat rewrite ?andb_true_iff, ?orb_true_iff, ?N.leb_le, ?N.ltb_lt, ?N.eqb_eq, ?N.ltb_ge in *;
    (split; [apply andb_false_iff; rewrite ?N.leb_gt; lia|split; [try done|try done; lia]]).
Qed.
Lemma utf8_pending n lo hi l :
  utf8_from n lo hi l = true -> (n <> 0 -> (128 <= lo)%N /\ (hi <= 191)%N) ->
  exists k r, l = k ++ r /\ length k = n /\ Forall (fun b => cont b = true) k /\ utf8_from n lo hi k = true /\ utf8_valid r = true.
Proof.
  revert lo hi l; induction n as [|n IH]; intros lo hi l Hl Hb.
  - exists [], l. repeat split; [constructor|]. unfold utf8_valid. by rewrite (utf8_from_zero _ _ lo hi).
  - destruct l as [|b l]; [done|]. cbn in Hl. apply andb_true_iff in Hl as [Hin Hl]. destruct (IH 128%N 191%N l Hl ltac:(lia)) as (k & r & -> & <- & Hk & Hv & Hr).
    exists (b :: k), r. repeat split; [|cbn; by rewrite Hin, Hv|done]. constructor; [|done]. unfold cont, byte_in in *. destruct (Hb ltac:(done)).
    rewrite andb_true_iff, !N.leb_le in *. lia.
Qed.
(** The first character of a valid text. *)
Lemma utf8_uncons b l : utf8_valid (b :: l) = true ->
  exists k r, l = k ++ r /\ Forall (fun c => cont c = true) k /\ utf8_valid (b :: k) = true /\ utf8_valid r = true /\ cont b = false /\
    ((byte_val b < 128)%N -> k = []).
Proof.
  unfold utf8_valid at 1. cbn. destruct (utf8_lead b) as [[[n lo] hi]|] eqn:E; [|done]. intros Hl. destruct (lead_range _ _ _ _ E) as (Hc & H0 & Hn).
  destruct (utf8_pending n lo hi l Hl) as (k & r & -> & Hlen & Hk & Hv & Hr); [intros ?; destruct (Hn ltac:(done)) as (? & ? & ?); done|].
  exists k, r. repeat split; try done.
  intros Hb. destruct n; [by apply nil_length_inv|]. destruct (Hn ltac:(done)) as (_ & _ & ?). lia.
Qed.
Lemma valid_starts t : utf8_valid t = true -> starts t.
Proof. destruct t as [|b t]; [done|]. intros (k & r & _ & _ & _ & _ & Hb & _)%utf8_uncons. exact Hb. Qed.
(** Induction on the characters of a valid text. *)
Lemma text_ind (P : bytes -> Prop) :
  P [] ->
  (forall b k r, cont b = false -> Forall (fun c => cont c = true) k -> utf8_valid (b :: k) = true -> ((byte_val b < 128)%N -> k = []) ->
     utf8_valid r = true -> P r -> P ((b :: k) ++ r)) ->
  forall t, utf8_valid t = true -> P t.
Proof.
  intros H0 Hs t. remember (length t) as n eqn:Hn. assert (Hle : length t <= n) by lia. clear Hn. revert t Hle.
  induction n as [|n IH]; intros [|b l] Hle Hv; cbn in Hle; try done; [lia|].
  destruct (utf8_uncons b l Hv) as (k & r & -> & Hk & Hc & Hr & Hb & Ha). change (b :: k ++ r) with ((b :: k) ++ r).
  apply Hs; try done. apply IH; [rewrite length_app in Hle; lia|done].
Qed.
Lemma chars_first b k r : Forall (fun c => cont c = true) k -> utf8_valid r = true -> chars ((b :: k) ++ r) = (b :: k) :: chars r.
Proof. intros Hk Hr. rewrite chars_app by (by apply valid_starts). by rewrite chars_conts. Qed.
(** ** Characters of valid text *)

(** One character, as its bytes. *)
Definition char_ok (c : bytes) : Prop :=
  exists b k, c = b :: k /\ cont b = false /\ Forall (fun x => cont x = true) k /\ utf8_valid c = true /\ ((byte_val b < 128)%N -> k = []).
Lemma valid_chars t : utf8_valid t = true -> Forall char_ok (chars t).
Proof.
  revert t. apply text_ind; [constructor|]. intros b k r Hb Hk Hv Ha Hr IH. rewrite chars_first by done. constructor; [|done]. by exists b, k.
Qed.
Lemma chars_concat cs : Forall char_ok cs -> utf8_valid (concat cs) = true /\ chars (concat cs) = cs.
Proof.
  induction 1 as [|c cs (b & k & -> & _ & Hk & Hv & _) _ [IHv IHc]]; [done|]. cbn [concat]. split; [by rewrite utf8_valid_app|].
  rewrite chars_first by done. by rewrite IHc.
Qed.
(** An ASCII byte in a character is the whole of it. *)
Lemma char_ascii c x : char_ok c -> x ∈ c -> (byte_val x < 128)%N -> c = [x].
Proof.
  intros (b & k & -> & _ & Hk & _ & Ha) [-> |Hin]%elem_of_cons Hx; [by rewrite Ha|]. rewrite Forall_forall in Hk. specialize (Hk x Hin).
  unfold cont, byte_in in Hk. apply andb_true_iff in Hk as [Hk _]. apply N.leb_le in Hk. lia.
Qed.
Lemma skip_whitespace_suffix l : exists k, l = k ++ skip_whitespace l.
Proof. induction l as [|c l [k IH]]; cbn; [by exists []|]. destruct (char_whitespace c); [exists (c :: k); by rewrite IH at 1|by exists []]. Qed.
Lemma trim_text_chars t : utf8_valid t = true -> Forall char_ok (chars (trim_text t)) /\ length (trim_text t) <= length t.
Proof.
  intros Hv%valid_chars. unfold trim_text. destruct (skip_whitespace_suffix (chars t)) as [k Hk]. set (l := skip_whitespace (chars t)) in *.
  destruct (skip_whitespace_suffix (rev l)) as [k' Hk']. set (l' := skip_whitespace (rev l)) in *.
  assert (Hl : l = rev l' ++ rev k') by (rewrite <- rev_app_distr, <- Hk'; by rewrite rev_involutive).
  assert (Hok : Forall char_ok (rev l')). { rewrite Hk, Hl in Hv. apply Forall_app in Hv as [_ Hv]. by apply Forall_app in Hv as [Hv _]. }
  split; [by rewrite (proj2 (chars_concat _ Hok))|]. rewrite <- (concat_chars t). rewrite Hk, Hl, !concat_app, !length_app. lia.
Qed.
