(* ===== verification/Net.v ===== *)
(** [std::net] as far as the program uses it: IP and socket addresses, their
    textual forms (the recursive-descent parser and the [Display] instances of
    the Rust standard library) and the address classes. *)
From stdpp Require Import strings prelude.
From S2P Require Import Prelude Bytes.

(** * Addresses *)

(** [IpAddr]: an IPv4 address is four octets, an IPv6 address eight 16-bit
    segments ([ip_wf]). *)
Inductive ip_addr : Type :=
| V4 (a b c d : u8)
| V6 (segments : list N).
#[export] Instance ip_addr_eq_dec : EqDecision ip_addr.
Proof. solve_decision. Defined.

Definition ip_wf (ip : ip_addr) : Prop :=
  match ip with
  | V4 _ _ _ _ => True
  | V6 s => length s = 8 /\ Forall (fun g => g <= u16_max)%N s
  end.
Definition ipv4 (a b c d : N) : ip_addr := V4 (byte_of a) (byte_of b) (byte_of c) (byte_of d).

(** [SocketAddr]; [sa_scope] is the IPv6 scope identifier, zero for IPv4. *)
Record socket_addr : Type := SocketAddr { sa_ip : ip_addr; sa_port : N; sa_scope : N }.
#[export] Instance socket_addr_eq_dec : EqDecision socket_addr.
Proof. solve_decision. Defined.

(** * Address classes *)

Definition segment (i : nat) (s : list N) : N := default 0%N (s !! i).
Definition is_loopback (ip : ip_addr) : bool :=
  match ip with
  | V4 a _ _ _ => (byte_val a =? 127)%N
  | V6 s => bool_decide (s = [0; 0; 0; 0; 0; 0; 0; 1]%N)
  end.
Definition is_unspecified (ip : ip_addr) : bool :=
  match ip with
  | V4 a b c d => bool_decide (V4 a b c d = ipv4 0 0 0 0)
  | V6 s => bool_decide (s = replicate 8 0%N)
  end.
Definition is_multicast (ip : ip_addr) : bool :=
  match ip with
  | V4 a _ _ _ => byte_in 224 239 a
  | V6 s => (N.land (segment 0 s) 0xff00 =? 0xff00)%N
  end.
(** [Ipv4Addr::is_link_local] and [Ipv6Addr::is_unicast_link_local]. *)
Definition is_link_local_std (ip : ip_addr) : bool :=
  match ip with
  | V4 a b _ _ => (byte_val a =? 169)%N && (byte_val b =? 254)%N
  | V6 s => (N.land (segment 0 s) 0xffc0 =? 0xfe80)%N
  end.
(** [Ipv4Addr::is_private] and [Ipv6Addr::is_unique_local]. *)
Definition is_private_std (ip : ip_addr) : bool :=
  match ip with
  | V4 a b _ _ =>
      (byte_val a =? 10)%N
      || ((byte_val a =? 172)%N && byte_in 16 31 b)
      || ((byte_val a =? 192)%N && (byte_val b =? 168)%N)
  | V6 s => (N.land (segment 0 s) 0xfe00 =? 0xfc00)%N
  end.

(** * Parsing *)

(** [char::to_digit] for radix 10 and 16. *)
Definition to_digit (radix : N) (b : u8) : option N :=
  let v := if is_digit b then Some (byte_val b - 48)%N
           else if byte_in 65 70 b then Some (byte_val b - 55)%N
           else if byte_in 97 102 b then Some (byte_val b - 87)%N
           else None in
  d ← v; if (d <? radix)%N then Some d else None.

(** Longest run of digits, its value and its length. *)
Fixpoint read_digits (radix acc count : N) (l : bytes) : N * N * bytes :=
  match l with
  | [] => (acc, count, [])
  | b :: r =>
      match to_digit radix b with
      | Some d => read_digits radix (acc * radix + d)%N (count + 1)%N r
      | None => (acc, count, l)
      end
  end.
(** [Parser::read_number]. *)
Definition read_number (radix max : N) (max_digits : option N) (allow_zero_prefix : bool)
    (l : bytes) : option (N * bytes) :=
  let leading_zero := match l with b :: _ => bool_decide (b = byte_of 48) | [] => false end in
  let '(v, count, rest) := read_digits radix 0 0 l in
  if (count =? 0)%N then None
  else if match max_digits with Some m => (m <? count)%N | None => false end then None
  else if negb allow_zero_prefix && leading_zero && (1 <? count)%N then None
  else if (v <=? max)%N then Some (v, rest) else None.
Definition read_char (c : u8) (l : bytes) : option bytes :=
  match l with b :: r => if decide (b = c) then Some r else None | [] => None end.
(** [Parser::read_separator]. *)
Definition read_separator {A} (c : u8) (i : nat) (p : bytes -> option (A * bytes))
    (l : bytes) : option (A * bytes) :=
  match i with O => p l | S _ => r ← read_char c l; p r end.
Definition DOT : u8 := byte_of 46.
Definition COLON : u8 := byte_of 58.

Definition read_octet (i : nat) : bytes -> option (N * bytes) :=
  read_separator DOT i (read_number 10 255 (Some 3%N) false).
Definition read_ipv4 (l : bytes) : option (ip_addr * bytes) :=
  '(a, l) ← read_octet 0 l; '(b, l) ← read_octet 1 l;
  '(c, l) ← read_octet 2 l; '(d, l) ← read_octet 3 l;
  Some (ipv4 a b c d, l).
(** [read_groups] over [limit] slots from slot [i]; the second component says
    that an embedded IPv4 address ended the run. *)
Fixpoint read_groups (limit i : nat) (l : bytes) : list N * bool * bytes :=
  match limit with
  | O => ([], false, l)
  | S limit' =>
      let v4 := match limit' with O => None | S _ => read_separator COLON i read_ipv4 l end in
      match v4 with
      | Some (V4 a b c d, r) =>
          ([byte_val a * 256 + byte_val b; byte_val c * 256 + byte_val d]%N, true, r)
      | _ =>
          match read_separator COLON i (read_number 16 u16_max (Some 4%N) true) l with
          | Some (g, r) =>
              let '(gs, v4, r) := read_groups limit' (S i) r in (g :: gs, v4, r)
          | None => ([], false, l)
          end
      end
  end.
Definition read_ipv6 (l : bytes) : option (ip_addr * bytes) :=
  let '(head, head_v4, r) := read_groups 8 0 l in
  if decide (length head = 8) then Some (V6 head, r)
  else if (head_v4 : bool) then None
  else
    r ← read_char COLON r; r ← read_char COLON r;
    let '(tail, _, r) := read_groups (7 - length head) 0 r in
    Some (V6 (head ++ replicate (8 - length head - length tail) 0%N ++ tail), r).
(** [read_ip_addr]: IPv4 first, then IPv6. *)
Definition read_ip (l : bytes) : option (ip_addr * bytes) :=
  match read_ipv4 l with Some x => Some x | None => read_ipv6 l end.
(** [str::parse::<IpAddr>]: the whole text is consumed. *)
Definition parse_ip (l : bytes) : option ip_addr :=
  '(ip, r) ← read_ip l; if decide (r = []) then Some ip else None.

Definition read_port (l : bytes) : option (N * bytes) :=
  r ← read_char COLON l; read_number 10 u16_max None true r.
Definition read_scope (l : bytes) : N * bytes :=
  match (r ← read_char (byte_of 37) l; read_number 10 4294967295 None true r) with
  | Some x => x
  | None => (0%N, l)
  end.
Definition read_socket_v4 (l : bytes) : option (socket_addr * bytes) :=
  '(ip, l) ← read_ipv4 l; '(p, l) ← read_port l; Some (SocketAddr ip p 0, l).
Definition read_socket_v6 (l : bytes) : option (socket_addr * bytes) :=
  l ← read_char (byte_of 91) l; '(ip, l) ← read_ipv6 l;
  let '(scope, l) := read_scope l in
  l ← read_char (byte_of 93) l; '(p, l) ← read_port l; Some (SocketAddr ip p scope, l).
(** [str::parse::<SocketAddr>]. *)
Definition parse_socket_addr (l : bytes) : option socket_addr :=
  '(a, r) ← match read_socket_v4 l with Some x => Some x | None => read_socket_v6 l end;
  if decide (r = []) then Some a else None.

(** * Printing *)

Definition hex_digit (d : N) : u8 :=
  if (d <? 10)%N then byte_of (48 + d) else byte_of (87 + d).
Fixpoint show_hex_fuel (fuel : nat) (n : N) (acc : bytes) : bytes :=
  let acc' := hex_digit (n mod 16) :: acc in
  match fuel with
  | O => acc'
  | S fuel => if (n <? 16)%N then acc' else show_hex_fuel fuel (n / 16)%N acc'
  end.
(** [{:x}] of a 16-bit segment. *)
Definition show_hex (n : N) : bytes := show_hex_fuel 3 n [].
Definition show_ipv4 (a b c d : u8) : bytes :=
  show_N (byte_val a) ++ DOT :: show_N (byte_val b) ++ DOT ::
  show_N (byte_val c) ++ DOT :: show_N (byte_val d).
Fixpoint show_groups (s : list N) : bytes :=
  match s with
  | [] => []
  | [g] => show_hex g
  | g :: s => show_hex g ++ COLON :: show_groups s
  end.
(** First longest run of zero segments, as (start, length). *)
Fixpoint zero_span (i : nat) (s : list N) (longest current : nat * nat) : nat * nat :=
  match s with
  | [] => longest
  | g :: s =>
      if (g =? 0)%N then
        let current := ((if decide (current.2 = 0) then i else current.1), S current.2) in
        zero_span (S i) s (if decide (longest.2 < current.2) then current else longest) current
      else zero_span (S i) s longest (0, 0)
  end.
Definition show_ip (ip : ip_addr) : bytes :=
  match ip with
  | V4 a b c d => show_ipv4 a b c d
  | V6 [0; 0; 0; 0; 0; 65535; x; y]%N =>
      bs "::ffff:" ++ show_ipv4 (byte_of (x / 256)) (byte_of (x mod 256))
                                (byte_of (y / 256)) (byte_of (y mod 256))
  | V6 s =>
      let '(start, len) := zero_span 0 s (0, 0) (0, 0) in
      if decide (1 < len)
      then show_groups (take start s) ++ bs "::" ++ show_groups (drop (start + len) s)
      else show_groups s
  end.
Definition show_socket_addr (a : socket_addr) : bytes :=
  match sa_ip a with
  | V4 _ _ _ _ => show_ip (sa_ip a) ++ COLON :: show_N (sa_port a)
  | V6 _ =>
      bs "[" ++ show_ip (sa_ip a)
      ++ (if (sa_scope a =? 0)%N then [] else bs "%" ++ show_N (sa_scope a))
      ++ bs "]:" ++ show_N (sa_port a)
  end.

Example parse_ip_examples :
  parse_ip (bs "127.0.0.1") = Some (ipv4 127 0 0 1)
  /\ parse_ip (bs "127.0.0.01") = None
  /\ parse_ip (bs "2001:db8::1") = Some (V6 [0x2001; 0xdb8; 0; 0; 0; 0; 0; 1]%N)
  /\ parse_ip (bs "::ffff:1.2.3.4") = Some (V6 [0; 0; 0; 0; 0; 0xffff; 0x102; 0x304]%N)
  /\ parse_ip (bs "::") = Some (V6 (replicate 8 0%N))
  /\ parse_ip (bs "1.2.3.4.") = None
  /\ parse_socket_addr (bs "[::1]:443") = Some (SocketAddr (V6 [0;0;0;0;0;0;0;1]%N) 443 0)
  /\ show_ip (V6 [0x2001; 0xdb8; 0; 0; 0; 0; 0; 1]%N) = bs "2001:db8::1"
  /\ show_ip (V6 (replicate 8 0%N)) = bs "::".
Proof. vm_compute. auto 20. Qed.

(** * Round trip of the IPv4 text *)

(** The rest of the input does not continue a decimal number. *)
Definition stops (l : bytes) : Prop :=
  match l with [] => True | b :: _ => is_digit b = false end.

Lemma to_digit_10 b : to_digit 10 b = if is_digit b then Some (digit_val b) else None.
Proof. byte_cases b; reflexivity. Qed.
Lemma read_digits_app acc n ds r :
  Forall (fun b => is_digit b = true) ds -> stops r ->
  read_digits 10 acc n (ds ++ r) = (digits_value acc ds, (n + lenN ds)%N, r).
Proof.
  intros Hd Hr. revert acc n; induction Hd as [|b ds Hb Hd IH]; intros acc n; cbn.
  - replace (n + lenN [])%N with n by (unfold lenN; cbn; lia).
    destruct r as [|c r]; cbn; [done|]. cbn in Hr. by rewrite to_digit_10, Hr.
  - rewrite to_digit_10, Hb, IH. unfold lenN; cbn [length]. f_equal. f_equal. lia.
Qed.
Lemma read_digits_inv acc n l v c r :
  read_digits 10 acc n l = (v, c, r) ->
  exists ds, l = ds ++ r /\ Forall (fun b => is_digit b = true) ds /\ stops r
             /\ v = digits_value acc ds /\ c = (n + lenN ds)%N.
Proof.
  revert acc n; induction l as [|b l IH]; intros acc n; cbn.
  - intros [= <- <- <-]. exists []. cbn. unfold lenN; cbn. split_and!; try done; lia.
  - rewrite to_digit_10. destruct (is_digit b) eqn:Hb.
    + intros (ds & -> & Hd & Hr & -> & ->)%IH. exists (b :: ds).
      unfold lenN; cbn [length]. split_and!; try done; [by constructor|lia].
    + intros [= <- <- <-]. exists []. cbn. unfold lenN; cbn. split_and!; try done; lia.
Qed.
Lemma read_number_local m l v r :
  read_number 10 m (Some 3%N) false l = Some (v, r) ->
  exists ds, l = ds ++ r /\ ds <> [] /\ Forall (fun b => is_digit b = true) ds /\ stops r
    /\ forall r', stops r' -> read_number 10 m (Some 3%N) false (ds ++ r') = Some (v, r').
Proof.
  unfold read_number. destruct (read_digits 10 0 0 l) as [[v0 c] r0] eqn:E.
  apply read_digits_inv in E as (ds & -> & Hd & Hr & -> & ->). rewrite N.add_0_l.
  destruct ds as [|b ds]; [done|]. change (lenN (b :: ds) =? 0)%N with false. cbn match.
  intros H. exists (b :: ds).
  assert (Hrr : r0 = r) by (repeat case_if_in H; congruence). subst r0.
  split_and!; try done. intros r' Hr'.
  rewrite (read_digits_app 0 0 (b :: ds) r' Hd Hr'), N.add_0_l.
  change (lenN (b :: ds) =? 0)%N with false. cbn [app negb andb] in *.
  repeat case_if_in H; congruence.
Qed.

Lemma byte_of_val b : byte_of (byte_val b) = b.
Proof. apply Ascii.ascii_N_embedding. Qed.
Lemma read_number_show (a : u8) r : stops r ->
  read_number 10 255 (Some 3%N) false (show_N (byte_val a) ++ r) = Some (byte_val a, r).
Proof.
  intros Hr. unfold read_number.
  rewrite (read_digits_app 0 0 _ r (show_N_digits _) Hr).
  byte_cases a; reflexivity.
Qed.
Lemma read_ipv4_show a b c d r : stops r ->
  read_ipv4 (show_ipv4 a b c d ++ r) = Some (V4 a b c d, r).
Proof.
  intros Hr. unfold read_ipv4, read_octet, read_separator, show_ipv4.
  repeat (rewrite <- ?app_assoc; cbn [app read_char mbind option_bind];
          rewrite ?decide_True by done; cbn [mbind option_bind];
          rewrite read_number_show by done; cbn [mbind option_bind]).
  unfold ipv4. by rewrite !byte_of_val.
Qed.
Theorem parse_show_ipv4 a b c d : parse_ip (show_ip (V4 a b c d)) = Some (V4 a b c d).
Proof.
  unfold parse_ip, read_ip, show_ip. rewrite <- (app_nil_r (show_ipv4 a b c d)).
  by rewrite read_ipv4_show.
Qed.

(** The IPv4 reader looks only at digits and dots. *)
Definition ipv4_byte (b : u8) : Prop := is_digit b = true \/ b = DOT.
Lemma ipv4_byte_digits ds :
  Forall (fun b => is_digit b = true) ds -> Forall ipv4_byte ds.
Proof. intros H. eapply Forall_impl; [exact H|]. by left. Qed.
Lemma read_octet_local i l v r :
  read_octet i l = Some (v, r) ->
  exists pre, l = pre ++ r /\ Forall ipv4_byte pre /\ (i = 0 \/ head pre = Some DOT)
    /\ forall r', stops r' -> read_octet i (pre ++ r') = Some (v, r').
Proof.
  unfold read_octet, read_separator. destruct i as [|i].
  - intros (ds & -> & Hne & Hd & Hr & Hl)%read_number_local. exists ds.
    split_and!; auto using ipv4_byte_digits.
  - unfold read_char. destruct l as [|b l]; [done|]. case_decide as Hb; [subst b|done].
    cbn [mbind option_bind]. intros (ds & -> & Hne & Hd & Hr & Hl)%read_number_local.
    exists (DOT :: ds). split_and!; [done| |by right|].
    + constructor; [by right|by apply ipv4_byte_digits].
    + intros r' Hr'. cbn [app]. rewrite decide_True by done. by apply Hl.
Qed.
Lemma stops_dot p r : head p = Some DOT -> stops (p ++ r).
Proof. destruct p as [|b p]; [done|]. by intros [= ->]. Qed.
Lemma read_ipv4_local l ip r :
  read_ipv4 l = Some (ip, r) ->
  exists pre, l = pre ++ r /\ Forall ipv4_byte pre
    /\ forall r', stops r' -> read_ipv4 (pre ++ r') = Some (ip, r').
Proof.
  unfold read_ipv4. intros H.
  apply bind_Some in H as ([a l1] & (p0 & -> & F0 & _ & L0)%read_octet_local & G1).
  apply bind_Some in G1 as ([b l2] & (p1 & -> & F1 & [?|D1] & L1)%read_octet_local & G2); [done|].
  apply bind_Some in G2 as ([c l3] & (p2 & -> & F2 & [?|D2] & L2)%read_octet_local & G3); [done|].
  apply bind_Some in G3 as ([d l4] & (p3 & -> & F3 & [?|D3] & L3)%read_octet_local & G4); [done|].
  injection G4 as <- <-. exists (p0 ++ p1 ++ p2 ++ p3).
  rewrite <- !app_assoc. split_and!; [done|by rewrite !Forall_app|].
  intros r' Hr'. rewrite <- !app_assoc.
  rewrite L0 by by apply stops_dot. cbn [mbind option_bind].
  rewrite L1 by by apply stops_dot. cbn [mbind option_bind].
  rewrite L2 by by apply stops_dot. cbn [mbind option_bind].
  by rewrite L3.
Qed.

Lemma stops_colon r : stops (COLON :: r).
Proof. done. Qed.
Lemma read_port_show p : (p <= u16_max)%N -> read_port (COLON :: show_N p) = Some (p, []).
Proof.
  intros Hp. unfold read_port. cbn [read_char]. rewrite decide_True by done.
  cbn [mbind option_bind]. unfold read_number.
  rewrite <- (app_nil_r (show_N p)), (read_digits_app 0 0 _ [] (show_N_digits p) I), app_nil_r.
  rewrite digits_value_show, N.add_0_l.
  destruct (N.eqb_spec (lenN (show_N p)) 0) as [H0|_].
  { exfalso. apply (show_N_nonempty p). destruct (show_N p); [done|]. unfold lenN in H0. cbn in H0. lia. }
  cbn [negb andb]. by rewrite (proj2 (N.leb_le p u16_max)).
Qed.
