(* ===== verification/Endpoint.v ===== *)
(** Validated endpoints (crates/freja-domain/src/endpoint.rs): host names, target
    hosts, non-zero ports, listener and upstream endpoints, with their parsers
    and printers. *)
From stdpp Require Import strings prelude.
From S2P Require Import Prelude Bytes Net.

Definition MAXIMUM_DNS_NAME_BYTES : nat := 253.
Definition MAXIMUM_DNS_LABEL_BYTES : nat := 63.

Inductive endpoint_error : Type :=
| EmptyHost
| HostTooLong
| EmptyLabel
| LabelTooLong (label : bytes)
| InvalidHostCharacter (character : bytes)
| InvalidLabelBoundary (label : bytes)
| ZeroPort
| MissingPort
| InvalidPort (value : bytes)
| InvalidSocketAddress (value : bytes).
#[export] Instance endpoint_error_eq_dec : EqDecision endpoint_error.
Proof. solve_decision. Defined.

(** [impl Display for EndpointError]; the two [{:?}] arguments are printed by
    [debug], the standard library's escaping printer. *)
Definition show_endpoint_error (debug : bytes -> bytes) (e : endpoint_error) : bytes :=
  match e with
  | EmptyHost => bs "host must not be empty"
  | HostTooLong => bs "host must not exceed 253 bytes"
  | EmptyLabel => bs "host contains an empty label"
  | LabelTooLong l => bs "host label " ++ debug l ++ bs " exceeds 63 bytes"
  | InvalidHostCharacter c => bs "host contains invalid character " ++ debug c
  | InvalidLabelBoundary l => bs "host label " ++ debug l ++ bs " starts or ends with '-'"
  | ZeroPort => bs "port must be non-zero"
  | MissingPort => bs "endpoint is missing a port"
  | InvalidPort v => bs "invalid port " ++ debug v
  | InvalidSocketAddress v => bs "invalid listen socket address " ++ debug v
  end.

(** First character of a UTF-8 text rejected by [ok], a predicate that accepts
    only ASCII characters: its lead byte and the continuation bytes after it. *)
Definition is_continuation (b : u8) : bool := byte_in 128 191 b.
Fixpoint span_continuation (l : bytes) : bytes :=
  match l with b :: l => if is_continuation b then b :: span_continuation l else [] | [] => [] end.
Fixpoint find_char_not (ok : u8 -> bool) (l : bytes) : option bytes :=
  match l with
  | [] => None
  | b :: l => if ok b then find_char_not ok l else Some (b :: span_continuation l)
  end.

(** * Host names *)
Module HostName.

Record t : Type := Make { as_str : bytes }.
#[global] Instance eq_dec : EqDecision t.
Proof. solve_decision. Defined.

Definition HYPHEN : u8 := byte_of 45.
Definition label_char (b : u8) : bool := is_alnum b || bool_decide (b = HYPHEN).

(** Body of the label loop of [HostName::new]. *)
Definition check_label (label : bytes) : result endpoint_error unit :=
  if decide (label = []) then Err EmptyLabel
  else if decide (MAXIMUM_DNS_LABEL_BYTES < length label) then Err (LabelTooLong label)
  else if starts_with [HYPHEN] label || ends_with [HYPHEN] label
  then Err (InvalidLabelBoundary label)
  else match find_char_not label_char label with
       | Some c => Err (InvalidHostCharacter c)
       | None => Ok tt
       end.
Fixpoint check_labels (labels : list bytes) : result endpoint_error unit :=
  match labels with
  | [] => Ok tt
  | label :: labels => _ ← check_label label; check_labels labels
  end.

Definition normalize (value : bytes) : bytes :=
  to_ascii_lowercase (default value (strip_suf [DOT] value)).

Definition new (value : bytes) : result endpoint_error t :=
  let normalized := normalize value in
  if decide (normalized = []) then Err EmptyHost
  else if decide (MAXIMUM_DNS_NAME_BYTES < length normalized) then Err HostTooLong
  else _ ← check_labels (split_on DOT normalized); Ok (Make normalized).

End HostName.

(** * Target hosts *)
Inductive target_host : Type :=
| Ip (address : ip_addr)
| Name (name : HostName.t).
#[export] Instance target_host_eq_dec : EqDecision target_host.
Proof. solve_decision. Defined.

Module TargetHost.
Definition parse (value : bytes) : result endpoint_error target_host :=
  let ip_candidate :=
    default value (candidate ← strip_pre (bs "[") value; strip_suf (bs "]") candidate) in
  match parse_ip ip_candidate with
  | Some address => Ok (Ip address)
  | None => Name <$> HostName.new value
  end.
Definition as_host_text (h : target_host) : bytes :=
  match h with
  | Ip address => show_ip address
  | Name name => HostName.as_str name
  end.
(** [impl Display for TargetHost]. *)
Definition show (h : target_host) : bytes := as_host_text h.
End TargetHost.

(** * Ports *)
Module Port.
Record t : Type := Make { get : N }.
#[global] Instance eq_dec : EqDecision t.
Proof. solve_decision. Defined.
Definition HTTP : t := Make 80.
Definition HTTPS : t := Make 443.
Definition new (value : N) : result endpoint_error t :=
  if (value =? 0)%N then Err ZeroPort else Ok (Make value).
Definition show (p : t) : bytes := show_N (get p).
(** [NonZeroU16]. *)
Definition wf (p : t) : Prop := (1 <= get p <= u16_max)%N.
End Port.

(** * Listener and upstream endpoints *)
Module ListenEndpoint.
Record t : Type := Make { address : socket_addr }.
#[global] Instance eq_dec : EqDecision t.
Proof. solve_decision. Defined.
Definition is_loopback (e : t) : bool := Net.is_loopback (sa_ip (address e)).
Definition from_str (value : bytes) : result endpoint_error t :=
  match parse_socket_addr value with
  | Some a => Ok (Make a)
  | None => Err (InvalidSocketAddress value)
  end.
Definition show (e : t) : bytes := show_socket_addr (address e).
End ListenEndpoint.

Module UpstreamEndpoint.
Record t : Type := Make { host : target_host; port : Port.t }.
#[global] Instance eq_dec : EqDecision t.
Proof. solve_decision. Defined.
Definition from_str (value : bytes) : result endpoint_error t :=
  match parse_socket_addr value with
  | Some a => p ← Port.new (sa_port a); Ok (Make (Ip (sa_ip a)) p)
  | None =>
      '(host, port) ← ok_or MissingPort (rsplit_once COLON value);
      port ← ok_or (InvalidPort port) (parse_uint u16_max port);
      host ← TargetHost.parse host;
      port ← Port.new port;
      Ok (Make host port)
  end.
Definition show (e : t) : bytes :=
  match host e with
  | Ip (V6 s) => bs "[" ++ show_ip (V6 s) ++ bs "]:" ++ Port.show (port e)
  | h => TargetHost.show h ++ COLON :: Port.show (port e)
  end.
End UpstreamEndpoint.

Example host_examples :
  HostName.new (bs "Example.Test.") = Ok (HostName.Make (bs "example.test"))
  /\ HostName.new (bs "example.test..") = Err EmptyLabel
  /\ TargetHost.parse (bs "[2001:db8::1]")
     = Ok (Ip (V6 [0x2001; 0xdb8; 0; 0; 0; 0; 0; 1]%N))
  /\ UpstreamEndpoint.from_str (bs "example.test:8080")
     = Ok (UpstreamEndpoint.Make (Name (HostName.Make (bs "example.test"))) (Port.Make 8080)).
Proof. vm_compute. auto. Qed.

(** * Host names: the accepted language *)

Definition valid_label (l : bytes) : Prop :=
  l <> [] /\ length l <= 63
  /\ Forall (fun b => is_alnum b = true \/ b = byte_of 45) l
  /\ head l <> Some (byte_of 45) /\ last l <> Some (byte_of 45).
Definition valid_name (n : bytes) : Prop :=
  n <> [] /\ length n <= 253 /\ Forall valid_label (split_on DOT n).

Lemma find_char_not_None ok l :
  find_char_not ok l = None <-> Forall (fun b => ok b = true) l.
Proof.
  induction l as [|b l IH]; cbn; [split; [constructor|done]|].
  destruct (ok b) eqn:E.
  - rewrite IH. split; [by constructor|by inversion 1].
  - split; [done|]. inversion 1; congruence.
Qed.
Lemma starts_with_single c l : starts_with [c] l = true <-> head l = Some c.
Proof.
  rewrite starts_with_spec. split; [by intros [r ->]|].
  destruct l as [|b l]; [done|]. intros [= ->]. by exists l.
Qed.
Lemma ends_with_single c l : ends_with [c] l = true <-> last l = Some c.
Proof.
  rewrite ends_with_spec. split; [intros [r ->]; apply last_snoc|].
  intros H%last_Some. done.
Qed.
Lemma label_char_spec b :
  HostName.label_char b = true <-> is_alnum b = true \/ b = byte_of 45.
Proof. unfold HostName.label_char. by rewrite orb_true_iff, bool_decide_eq_true. Qed.

Lemma check_label_Ok l : HostName.check_label l = Ok tt <-> valid_label l.
Proof.
  unfold HostName.check_label, valid_label, MAXIMUM_DNS_LABEL_BYTES.
  case_decide as H1; [naive_solver|]. case_decide as H2; [split; [done|intros; lia]|].
  destruct (starts_with _ l || ends_with _ l) eqn:Hh.
  - split; [done|]. intros (_ & _ & _ & Hs & He).
    apply orb_true_iff in Hh as [Hh|Hh];
      [apply starts_with_single in Hh|apply ends_with_single in Hh]; done.
  - apply orb_false_iff in Hh as [Hs He].
    rewrite <- not_true_iff_false, starts_with_single in Hs.
    rewrite <- not_true_iff_false, ends_with_single in He.
    assert (Hf : find_char_not HostName.label_char l = None <->
      Forall (fun b => is_alnum b = true \/ b = byte_of 45) l).
    { rewrite find_char_not_None. apply Forall_proper; [|done].
      intros b; apply label_char_spec. }
    destruct (find_char_not _ l) as [c|]; [split; [done|]|].
    + intros (_ & _ & Hall & _). apply Hf in Hall. done.
    + split; [intros _|done]. split_and!; [done|lia|by apply Hf|done|done].
Qed.
Lemma check_labels_Ok ls : HostName.check_labels ls = Ok tt <-> Forall valid_label ls.
Proof.
  induction ls as [|l ls IH]; cbn; [split; [constructor|done]|].
  rewrite Forall_cons, <- check_label_Ok, <- IH.
  destruct (HostName.check_label l) as [[]|e]; cbn; naive_solver.
Qed.

Lemma host_name_new_Ok (v : bytes) (h : HostName.t) :
  HostName.new v = Ok h <->
  HostName.as_str h = HostName.normalize v /\ valid_name (HostName.as_str h).
Proof.
  unfold HostName.new, valid_name, MAXIMUM_DNS_NAME_BYTES.
  case_decide as H1; [split; [done|intros [-> (? & _)]; done]|].
  case_decide as H2; [split; [done|intros [-> (_ & ? & _)]; lia]|].
  pose proof (check_labels_Ok (split_on DOT (HostName.normalize v))) as Hc.
  destruct (HostName.check_labels _) as [[]|e]; cbn.
  - split; [intros [= <-]; cbn|].
    + split_and!; [done|done|lia|by apply Hc].
    + intros [<- _]. by destruct h.
  - split; [done|]. intros [Hn (_ & _ & Hall)]. rewrite Hn in Hall.
    apply Hc in Hall. done.
Qed.

Lemma valid_name_no_root_dot n : valid_name n -> strip_suf [DOT] n = None.
Proof.
  intros (_ & _ & Hall). destruct (strip_suf [DOT] n) as [r|] eqn:E; [|done].
  apply strip_suf_Some in E as ->. unfold split_on in Hall.
  rewrite split_by_snoc in Hall by (by apply bool_decide_eq_true).
  apply Forall_app in Hall as [_ [(Hne & _) _]%Forall_cons_1]. done.
Qed.

(** Texts of host names: valid and in normal form. *)
Definition host_name_wf (h : HostName.t) : Prop :=
  valid_name (HostName.as_str h)
  /\ to_ascii_lowercase (HostName.as_str h) = HostName.as_str h.
Lemma host_name_new_wf v h : HostName.new v = Ok h -> host_name_wf h.
Proof.
  intros [Hn Hv]%host_name_new_Ok. split; [done|]. rewrite Hn.
  apply to_ascii_lowercase_idem.
Qed.
Lemma host_name_new_again h : host_name_wf h -> HostName.new (HostName.as_str h) = Ok h.
Proof.
  intros [Hv Hl]. apply host_name_new_Ok. split; [|done].
  unfold HostName.normalize. rewrite valid_name_no_root_dot by done. symmetry. exact Hl.
Qed.

(** * Upstream endpoints: printing and parsing *)

(** Hosts whose text names them again: an IPv4 address, or a valid name that is not
    itself the text of an address. *)
Definition re_readable (h : target_host) : Prop :=
  match h with
  | Ip (V4 _ _ _ _) => True
  | Ip (V6 _) => False
  | Name n => host_name_wf n /\ parse_ip (HostName.as_str n) = None
  end.

Lemma split_by_concat_char p l : forall b, b ∈ l -> p b = true \/ exists f, f ∈ split_by p l /\ b ∈ f.
Proof.
  induction l as [|c l IH]; intros b Hb; [by apply elem_of_nil in Hb|]. cbn.
  destruct (p c) eqn:Hc.
  - apply elem_of_cons in Hb as [->|Hb]; [by left|].
    destruct (IH b Hb) as [?|(f & Hf & Hbf)]; [by left|right; exists f; split; [by right|done]].
  - destruct (split_by p l) as [|g gs] eqn:E; [by apply split_by_nonempty in E|].
    apply elem_of_cons in Hb as [->|Hb]; [right; exists (c :: g); split; left|].
    destruct (IH b Hb) as [?|(f & Hf & Hbf)]; [by left|right].
    apply elem_of_cons in Hf as [->|Hf].
    + exists (c :: g); split; [left|by right].
    + exists f; split; [by right|done].
Qed.
Lemma valid_name_bytes n b :
  valid_name n -> b ∈ n -> b = DOT \/ is_alnum b = true \/ b = byte_of 45.
Proof.
  intros (_ & _ & Hall) Hb.
  destruct (split_by_concat_char (fun b => bool_decide (b = DOT)) n b Hb) as [Hd|(f & Hf & Hbf)].
  - left. by apply bool_decide_eq_true in Hd.
  - right. rewrite Forall_forall in Hall. destruct (Hall f Hf) as (_ & _ & Hc & _).
    rewrite Forall_forall in Hc. by apply Hc.
Qed.
Lemma valid_name_no_colon n : valid_name n -> COLON ∉ n.
Proof. intros Hv Hc. by destruct (valid_name_bytes n COLON Hv Hc) as [?|[?|?]]. Qed.
Lemma valid_name_no_bracket n : valid_name n -> byte_of 91 ∉ n.
Proof. intros Hv Hc. by destruct (valid_name_bytes n _ Hv Hc) as [?|[?|?]]. Qed.

(** A list before its first occurrence of a separator is unique. *)
Lemma app_sep_inj (c : u8) (l1 l2 r1 r2 : bytes) :
  c ∉ l1 -> c ∉ l2 -> l1 ++ c :: r1 = l2 ++ c :: r2 -> l1 = l2 /\ r1 = r2.
Proof.
  intros H1 H2 H.
  pose proof (split_once_app c l1 r1 H1) as E1. rewrite H, (split_once_app c l2 r2 H2) in E1.
  by injection E1 as -> ->.
Qed.
Lemma parse_ip_of_read_ipv4 n r ip rest :
  COLON ∉ n -> read_ipv4 (n ++ COLON :: r) = Some (ip, COLON :: rest) -> parse_ip n = Some ip.
Proof.
  intros Hn (pre & Heq & Hpre & Hloc)%read_ipv4_local.
  assert (Hc : COLON ∉ pre).
  { intros Hc. rewrite Forall_forall in Hpre. by destruct (Hpre _ Hc). }
  destruct (app_sep_inj COLON n pre r rest Hn Hc Heq) as [-> _].
  unfold parse_ip, read_ip. rewrite <- (app_nil_r pre), (Hloc [] I). done.
Qed.
Lemma name_port_not_socket n r :
  valid_name n -> parse_ip n = None -> parse_socket_addr (n ++ COLON :: r) = None.
Proof.
  intros Hv Hip. unfold parse_socket_addr.
  replace (read_socket_v4 (n ++ COLON :: r)) with (@None (socket_addr * bytes)).
  - unfold read_socket_v6. destruct n as [|b n]; [by destruct Hv|]. cbn [app read_char].
    rewrite decide_False; [done|]. intros ->. eapply valid_name_no_bracket; [done|]. left.
  - symmetry. unfold read_socket_v4.
    destruct (read_ipv4 (n ++ COLON :: r)) as [[ip rest]|] eqn:E; [|done]. cbn.
    unfold read_port. destruct rest as [|b rest]; [done|]. cbn [read_char].
    case_decide as Hb; [subst b|done]. exfalso.
    by rewrite (parse_ip_of_read_ipv4 n r ip rest (valid_name_no_colon n Hv) E) in Hip.
Qed.
Lemma target_host_parse_plain v :
  head v <> Some (byte_of 91) ->
  TargetHost.parse v
  = match parse_ip v with Some a => Ok (Ip a) | None => Name <$> HostName.new v end.
Proof.
  intros Hh. unfold TargetHost.parse.
  replace (strip_pre (bs "[") v) with (@None bytes); [done|].
  symmetry. destruct (strip_pre _ _) as [r|] eqn:E; [|done].
  apply strip_pre_Some in E as ->. by destruct Hh.
Qed.
Lemma target_host_parse_name n :
  host_name_wf n -> parse_ip (HostName.as_str n) = None ->
  TargetHost.parse (HostName.as_str n) = Ok (Name n).
Proof.
  intros Hw Hip. rewrite target_host_parse_plain.
  - by rewrite Hip, (host_name_new_again n Hw).
  - intros Hh. apply (valid_name_no_bracket (HostName.as_str n)); [apply Hw|].
    destruct (HostName.as_str n); [done|]. injection Hh as ->. left.
Qed.
Lemma show_N_no_colon p : COLON ∉ show_N p.
Proof. by apply digits_not_in, show_N_digits. Qed.
Lemma show_N_no_dot p : DOT ∉ show_N p.
Proof. by apply digits_not_in, show_N_digits. Qed.
Lemma digits_label l :
  l <> [] -> length l <= 63 -> Forall (fun b => is_digit b = true) l -> valid_label l.
Proof.
  intros Hne Hlen Hd. split_and!; [done|done| | |].
  - eapply Forall_impl; [exact Hd|]. intros b Hb. left. unfold is_alnum. by rewrite Hb.
  - intros Hh. destruct l as [|b l]; [done|]. injection Hh as ->. by inversion Hd.
  - intros [l' ->]%last_Some. apply Forall_app in Hd as [_ Hd]. by inversion Hd.
Qed.
Lemma show_byte_label (a : u8) : valid_label (show_N (byte_val a)).
Proof.
  pose proof (show_byte_length a).
  apply digits_label; [apply show_N_nonempty|lia|apply show_N_digits].
Qed.
Lemma show_ipv4_host_name a b c d : host_name_wf (HostName.Make (show_ipv4 a b c d)).
Proof.
  split; [split_and!|]; cbn [HostName.as_str].
  - unfold show_ipv4. pose proof (show_N_nonempty (byte_val a)). by destruct (show_N (byte_val a)).
  - unfold show_ipv4. rewrite !length_app. cbn [length]. rewrite !length_app. cbn [length].
    rewrite !length_app. cbn [length].
    pose proof (show_byte_length a); pose proof (show_byte_length b);
    pose proof (show_byte_length c); pose proof (show_byte_length d). lia.
  - unfold show_ipv4.
    rewrite !split_on_app by apply show_N_no_dot. rewrite split_on_none by apply show_N_no_dot.
    repeat first [apply Forall_nil_2 | apply Forall_cons_2; [apply show_byte_label|]].
  - apply to_ascii_lowercase_fixed. unfold show_ipv4.
    assert (Hd : forall x : u8, Forall (fun b => lower_byte b = b) (show_N (byte_val x))).
    { intros x. eapply Forall_impl; [apply show_N_digits|]. apply lower_digit. }
    repeat (apply Forall_app; split; [apply Hd|constructor; [reflexivity|]]). apply Hd.
Qed.
Lemma show_ipv4_head a b c d r : head (show_ipv4 a b c d ++ r) <> Some (byte_of 91).
Proof.
  unfold show_ipv4. pose proof (show_N_nonempty (byte_val a)) as Hne.
  pose proof (show_N_digits (byte_val a)) as Hd.
  destruct (show_N (byte_val a)) as [|x l]; [done|]. intros [= ->]. by inversion Hd.
Qed.
Lemma port_new_get p : Port.wf p -> Port.new (Port.get p) = Ok p.
Proof.
  intros [H1 _]. unfold Port.new. destruct (N.eqb_spec (Port.get p) 0); [lia|]. by destruct p.
Qed.

(** * Properties *)

(** [HostName::new] accepts exactly the texts whose normal form (one root dot
    removed, lower case) is a valid DNS name, returns that normal form, and is
    stable: the text of an accepted name is accepted again as the same name. *)
Theorem host_name_new_canonical (v : bytes) (h : HostName.t) :
  (HostName.new v = Ok h <->
     HostName.as_str h = HostName.normalize v /\ valid_name (HostName.as_str h))
  /\ (HostName.new v = Ok h -> HostName.new (HostName.as_str h) = Ok h).
Proof.
  split; [apply host_name_new_Ok|].
  intros H. apply host_name_new_again, (host_name_new_wf v h H).
Qed.

(** An upstream endpoint with an IPv4 host, or with a host name that is not the
    text of an address, is read back unchanged from its printed form. *)
Theorem upstream_endpoint_roundtrip (h : target_host) (p : Port.t) :
  re_readable h -> Port.wf p ->
  UpstreamEndpoint.from_str (UpstreamEndpoint.show (UpstreamEndpoint.Make h p))
  = Ok (UpstreamEndpoint.Make h p).
Proof.
  intros Hh Hp. pose proof (proj2 Hp) as Hmax.
  destruct h as [[a b c d|s]|n]; unfold UpstreamEndpoint.from_str, UpstreamEndpoint.show;
    cbn [re_readable UpstreamEndpoint.host UpstreamEndpoint.port TargetHost.show
         TargetHost.as_host_text show_ip] in Hh |- *.
  - unfold parse_socket_addr, read_socket_v4.
    rewrite read_ipv4_show by apply stops_colon. cbn [mbind option_bind].
    unfold Port.show. rewrite read_port_show by done. mcbn.
    rewrite decide_True by done. mcbn. cbn [sa_port sa_ip]. by rewrite port_new_get.
  - done.
  - destruct Hh as [Hw Hip].
    rewrite name_port_not_socket by (done || apply Hw).
    unfold Port.show. rewrite rsplit_once_app by apply show_N_no_colon. mcbn.
    rewrite parse_show_N by done. mcbn.
    rewrite target_host_parse_name by done. mcbn. by rewrite port_new_get.
Qed.
Lemma upstream_endpoint_roundtrip_witness :
  UpstreamEndpoint.from_str (bs "example.test:8080")
  = Ok (UpstreamEndpoint.Make (Name (HostName.Make (bs "example.test"))) (Port.Make 8080)).
Proof.
  apply (upstream_endpoint_roundtrip (Name (HostName.Make (bs "example.test"))) (Port.Make 8080)).
  - split; [|reflexivity]. split; [|reflexivity].
    apply (host_name_new_Ok (bs "example.test")). reflexivity.
  - split; apply N.leb_le; reflexivity.
Defined.

(** A root dot hides an address: [TargetHost::parse] takes every IPv4 address
    followed by one dot for a host name, whose text is the bare address; reading that
    text again gives the address, so parsing is not stable under printing. *)
Theorem target_host_root_dot_address (a b c d : u8) :
  TargetHost.parse (show_ip (V4 a b c d) ++ [DOT])
  = Ok (Name (HostName.Make (show_ip (V4 a b c d))))
  /\ TargetHost.parse (TargetHost.show (Name (HostName.Make (show_ip (V4 a b c d)))))
     = Ok (Ip (V4 a b c d)).
Proof.
  cbn [TargetHost.show TargetHost.as_host_text HostName.as_str show_ip]. split.
  - rewrite target_host_parse_plain by apply show_ipv4_head.
    replace (parse_ip (show_ipv4 a b c d ++ [DOT])) with (@None ip_addr).
    2: { unfold parse_ip, read_ip. by rewrite (read_ipv4_show a b c d [DOT] eq_refl). }
    assert (Hn : HostName.new (show_ipv4 a b c d ++ [DOT])
                 = Ok (HostName.Make (show_ipv4 a b c d))); [|by rewrite Hn].
    destruct (show_ipv4_host_name a b c d) as [Hv Hl]. cbn in Hv, Hl.
    apply host_name_new_Ok. split; [|done]. unfold HostName.normalize.
    rewrite (proj2 (strip_suf_Some [DOT] _ (show_ipv4 a b c d)) eq_refl).
    symmetry. exact Hl.
  - rewrite <- (app_nil_r (show_ipv4 a b c d)) at 1.
    rewrite target_host_parse_plain by apply show_ipv4_head. rewrite app_nil_r.
    pose proof (parse_show_ipv4 a b c d) as Hp. cbn [show_ip] in Hp. by rewrite Hp.
Qed.
