(* ===== verification/Domain.v ===== *)
(** Domain types (crates/freja-domain/src): runtime modes, identifiers, flow
    facts, findings, decisions and listeners, with their validating
    constructors. *)
From stdpp Require Import gmap strings.
From stdpp Require Import prelude.
From S2P Require Import Prelude Bytes Net Endpoint.

(** * Modes (mode.rs) *)
Inductive ui_mode : Type := Headless | Tui.
Inductive enforcement_mode : Type := Observe | Enforce.
Inductive hook_mode : Type := Disabled | Automatic | Interactive.
Inductive tls_handling : Type := Tunnel | Intercept.
#[export] Instance ui_mode_eq_dec : EqDecision ui_mode.
Proof. solve_decision. Defined.
#[export] Instance enforcement_mode_eq_dec : EqDecision enforcement_mode.
Proof. solve_decision. Defined.
#[export] Instance hook_mode_eq_dec : EqDecision hook_mode.
Proof. solve_decision. Defined.
#[export] Instance tls_handling_eq_dec : EqDecision tls_handling.
Proof. solve_decision. Defined.
Record runtime_profile : Type := RuntimeProfile {
  rp_ui : ui_mode; rp_enforcement : enforcement_mode; rp_hooks : hook_mode }.
Definition runtime_profile_default : runtime_profile := RuntimeProfile Tui Observe Interactive.

(** * Identifiers (ids.rs) *)

(** [SessionId] and [TransactionId] wrap a UUID, a 128-bit value. *)
Definition session_id : Type := N.
Definition transaction_id : Type := N.

Definition MAXIMUM_TEXT_IDENTIFIER_BYTES : nat := 128.
Inductive id_error : Type :=
| IdEmpty (kind : bytes)
| IdTooLong (kind : bytes) (maximum : nat)
| IdInvalidCharacter (kind : bytes) (character : bytes)
| ZeroPolicyGeneration
| ZeroAuditSequence.
#[export] Instance id_error_eq_dec : EqDecision id_error.
Proof. solve_decision. Defined.

Definition id_char (b : u8) : bool :=
  is_alnum b || bool_decide (b ∈ [byte_of 45; byte_of 95; byte_of 46]).
Definition validate_string_id (value kind : bytes) : result id_error unit :=
  if decide (value = []) then Err (IdEmpty kind)
  else if decide (MAXIMUM_TEXT_IDENTIFIER_BYTES < length value)
  then Err (IdTooLong kind MAXIMUM_TEXT_IDENTIFIER_BYTES)
  else match find_char_not id_char value with
       | Some c => Err (IdInvalidCharacter kind c)
       | None => Ok tt
       end.

Module RuleId.
Record t : Type := Make { as_str : bytes }.
#[global] Instance eq_dec : EqDecision t.
Proof. solve_decision. Defined.
Definition new (value : bytes) : result id_error t :=
  _ ← validate_string_id value (bs "rule ID"); Ok (Make value).
End RuleId.
Module DetectorId.
Record t : Type := Make { as_str : bytes }.
#[global] Instance eq_dec : EqDecision t.
Proof. solve_decision. Defined.
Definition new (value : bytes) : result id_error t :=
  _ ← validate_string_id value (bs "detector ID"); Ok (Make value).
End DetectorId.

Module PolicyGeneration.
Record t : Type := Make { get : N }.
#[global] Instance eq_dec : EqDecision t.
Proof. solve_decision. Defined.
Definition INITIAL : t := Make 1.
Definition new (value : N) : result id_error t :=
  if (value =? 0)%N then Err ZeroPolicyGeneration else Ok (Make value).
End PolicyGeneration.
Module AuditSequence.
Record t : Type := Make { get : N }.
#[global] Instance eq_dec : EqDecision t.
Proof. solve_decision. Defined.
Definition FIRST : t := Make 1.
Definition new (value : N) : result id_error t :=
  if (value =? 0)%N then Err ZeroAuditSequence else Ok (Make value).
Definition checked_next (s : t) : option t :=
  match checked_add (get s) 1 with
  | Some value => if (value =? 0)%N then None else Some (Make value)
  | None => None
  end.
Definition wf (s : t) : Prop := (1 <= get s <= u64_max)%N.
End AuditSequence.

(** * Findings (finding.rs) *)
Inductive direction : Type :=
| ClientToUpstream | UpstreamToClient | HttpRequestBody | HttpResponseBody.
Inductive inspection_mode : Type := Preflight | Streaming.
Inductive severity : Type := Informational | Low | Medium | High | Critical.
Inductive confidence : Type := Heuristic | Probable | Confirmed.
#[export] Instance direction_eq_dec : EqDecision direction.
Proof. solve_decision. Defined.
#[export] Instance inspection_mode_eq_dec : EqDecision inspection_mode.
Proof. solve_decision. Defined.
#[export] Instance severity_eq_dec : EqDecision severity.
Proof. solve_decision. Defined.
#[export] Instance confidence_eq_dec : EqDecision confidence.
Proof. solve_decision. Defined.

(** [EvidenceHash([u8; 32])]. *)
Record evidence_hash : Type := EvidenceHash { hash_bytes : bytes }.
#[export] Instance evidence_hash_eq_dec : EqDecision evidence_hash.
Proof. solve_decision. Defined.

Module ByteRange.
Record t : Type := Make { start : N; end_ : N }.
#[global] Instance eq_dec : EqDecision t.
Proof. solve_decision. Defined.
Record error : Type := Error { error_start : N; error_end : N }.
Definition new (start end_ : N) : result error t :=
  if (end_ <=? start)%N then Err (Error start end_) else Ok (Make start end_).
End ByteRange.

Record finding : Type := Finding {
  detector_id : DetectorId.t;
  finding_severity : severity;
  finding_confidence : confidence;
  finding_direction : direction;
  byte_range : option ByteRange.t;
  finding_evidence : evidence_hash;
  finding_tags : list bytes }.
#[export] Instance finding_eq_dec : EqDecision finding.
Proof. solve_decision. Defined.

(** * Flow facts (flow.rs) *)
Inductive protocol : Type := Tcp | Http.
#[export] Instance protocol_eq_dec : EqDecision protocol.
Proof. solve_decision. Defined.

Record requested_facts : Type := RequestedTargetFacts {
  source_ip : ip_addr;
  requested_host : target_host;
  destination_port : Port.t;
  facts_protocol : protocol }.
#[export] Instance requested_facts_eq_dec : EqDecision requested_facts.
Proof. solve_decision. Defined.
Record resolved_facts : Type := ResolvedTargetFacts {
  resolved_requested : requested_facts;
  resolved_ip : ip_addr }.
#[export] Instance resolved_facts_eq_dec : EqDecision resolved_facts.
Proof. solve_decision. Defined.
Inductive evaluation_target : Type :=
| EvaluatedRequested (facts : requested_facts)
| EvaluatedResolved (facts : resolved_facts).

(** [SanitizedHeaders(BTreeMap<String, Vec<Vec<u8>>>)]. *)
Module SanitizedHeaders.
Record t : Type := Make { headers_map : gmap bytes (list bytes) }.
#[global] Instance eq_dec : EqDecision t.
Proof. solve_decision. Defined.
Definition add_entry (m : gmap bytes (list bytes)) (entry : bytes * list bytes)
  : gmap bytes (list bytes) :=
  let key := to_ascii_lowercase entry.1 in
  <[key := default [] (m !! key) ++ entry.2]> m.
Definition new (headers : list (bytes * list bytes)) : t :=
  Make (foldl add_entry ∅ headers).
Definition values (h : t) (name : bytes) : option (list bytes) :=
  headers_map h !! to_ascii_lowercase name.
Definition empty : t := Make ∅.
End SanitizedHeaders.

Definition MINIMUM_HTTP_STATUS_CODE : N := 100.
Definition MAXIMUM_HTTP_STATUS_CODE : N := 999.
Module HttpStatusCode.
Record t : Type := Make { get : N }.
#[global] Instance eq_dec : EqDecision t.
Proof. solve_decision. Defined.
Definition new (value : N) : result N t :=
  if ((value <? MINIMUM_HTTP_STATUS_CODE) || (MAXIMUM_HTTP_STATUS_CODE <? value))%N
  then Err value else Ok (Make value).
End HttpStatusCode.

Record request_facts : Type := HttpRequestFacts {
  request_target : resolved_facts;
  request_method : bytes;
  request_path : bytes;
  request_headers : SanitizedHeaders.t }.
#[export] Instance request_facts_eq_dec : EqDecision request_facts.
Proof. solve_decision. Defined.
(** [HttpRequestFacts::new] normalises the method to upper case. *)
Definition http_request_facts_new target method path headers : request_facts :=
  HttpRequestFacts target (to_ascii_uppercase method) path headers.
Record response_facts : Type := HttpResponseFacts {
  response_target : resolved_facts;
  response_status : HttpStatusCode.t;
  response_headers : SanitizedHeaders.t }.
#[export] Instance response_facts_eq_dec : EqDecision response_facts.
Proof. solve_decision. Defined.

Inductive replay_facts : Type :=
| ReplayRequested (facts : requested_facts)
| ReplayResolved (facts : resolved_facts)
| ReplayHttpRequest (facts : request_facts)
| ReplayHttpResponse (facts : response_facts)
| ReplayFinding (f : finding) (p : protocol).
#[export] Instance replay_facts_eq_dec : EqDecision replay_facts.
Proof. solve_decision. Defined.

(** * Decisions (decision.rs) *)
Inductive policy_stage : Type :=
| RequestedDestination | ResolvedDestination | StageHttpRequest | StageHttpResponse
| StageStreaming.
#[export] Instance policy_stage_eq_dec : EqDecision policy_stage.
Proof. solve_decision. Defined.
Record match_reason : Type := MatchReason { criterion : bytes; observed : bytes }.
#[export] Instance match_reason_eq_dec : EqDecision match_reason.
Proof. solve_decision. Defined.
Inductive http_reject : Type :=
| Forbidden | UnavailableForLegalReasons | ProxyAuthenticationRequired.
#[export] Instance http_reject_eq_dec : EqDecision http_reject.
Proof. solve_decision. Defined.
Inductive tcp_close_mode : Type := Graceful | Reset.
#[export] Instance tcp_close_mode_eq_dec : EqDecision tcp_close_mode.
Proof. solve_decision. Defined.
Inductive enforcement_action : Type :=
| Allow
| HttpReject (r : http_reject)
| TcpClose (mode : tcp_close_mode)
| TcpDetour (destination : UpstreamEndpoint.t).
#[export] Instance enforcement_action_eq_dec : EqDecision enforcement_action.
Proof. solve_decision. Defined.
Inductive action_kind : Type := KAllow | KHttpReject | KTcpClose | KTcpDetour.
#[export] Instance action_kind_eq_dec : EqDecision action_kind.
Proof. solve_decision. Defined.
Definition kind (a : enforcement_action) : action_kind :=
  match a with
  | Allow => KAllow
  | HttpReject _ => KHttpReject
  | TcpClose _ => KTcpClose
  | TcpDetour _ => KTcpDetour
  end.
Record decision_trace : Type := DecisionTrace {
  policy_generation : PolicyGeneration.t;
  evaluated_stage : policy_stage;
  matched_rule : option RuleId.t;
  match_reasons : list match_reason;
  final_action : action_kind }.
#[export] Instance decision_trace_eq_dec : EqDecision decision_trace.
Proof. solve_decision. Defined.

Module Decision.
Record t : Type := Make { action : enforcement_action; trace : decision_trace }.
#[global] Instance eq_dec : EqDecision t.
Proof. solve_decision. Defined.
Inductive error : Type := ActionTraceMismatch (action trace : action_kind).
Definition new action policy_generation evaluated_stage matched_rule match_reasons : t :=
  Make action
    (DecisionTrace policy_generation evaluated_stage matched_rule match_reasons (kind action)).
(** Deserialisation goes through this check. *)
Definition from_serialized (action : enforcement_action) (trace : decision_trace)
  : result error t :=
  if decide (final_action trace = kind action) then Ok (Make action trace)
  else Err (ActionTraceMismatch (kind action) (final_action trace)).
Definition wf (d : t) : Prop := final_action (trace d) = kind (action d).
End Decision.

(** * Listeners (listener.rs) *)
Inductive listener_error : Type := EmptyConnectPorts | InvalidAuthenticationRealm.
(** [ProxyCredentialHash([u8; 32])]. *)
Record credential_hash : Type := ProxyCredentialHash { credential_bytes : bytes }.
#[export] Instance credential_hash_eq_dec : EqDecision credential_hash.
Proof. solve_decision. Defined.
Module ProxyAuthentication.
Record t : Type := Make { realm : bytes; hash : credential_hash }.
#[global] Instance eq_dec : EqDecision t.
Proof. solve_decision. Defined.
Definition realm_byte (b : u8) : bool :=
  is_graphic b && negb (bool_decide (b = byte_of 34)) && negb (bool_decide (b = byte_of 92)).
Definition new (realm : bytes) (hash : credential_hash) : result listener_error t :=
  if bool_decide (realm = []) || negb (forallb realm_byte realm)
  then Err InvalidAuthenticationRealm else Ok (Make realm hash).
End ProxyAuthentication.
Module HttpForwardListener.
(** [connect_ports] is the membership of the [BTreeSet<Port>]. *)
Record t : Type := Make {
  bind : ListenEndpoint.t;
  connect_ports : gset N;
  authentication : option ProxyAuthentication.t }.
#[global] Instance eq_dec : EqDecision t.
Proof. solve_decision. Defined.
Definition new (bind : ListenEndpoint.t) : t := Make bind {[ Port.get Port.HTTPS ]} None.
Definition with_connect_ports (bind : ListenEndpoint.t) (ports : list Port.t)
  : result listener_error t :=
  let ports : gset N := list_to_set (map Port.get ports) in
  if decide (ports = ∅) then Err EmptyConnectPorts else Ok (Make bind ports None).
Definition with_authentication (l : t) (a : ProxyAuthentication.t) : t :=
  Make (bind l) (connect_ports l) (Some a).
Definition allows_connect_port (l : t) (p : Port.t) : bool :=
  bool_decide (Port.get p ∈ connect_ports l).
End HttpForwardListener.
Record tcp_static_listener : Type := TcpStaticListener {
  static_bind : ListenEndpoint.t; static_upstream : UpstreamEndpoint.t }.
#[export] Instance tcp_static_listener_eq_dec : EqDecision tcp_static_listener.
Proof. solve_decision. Defined.
Record socks5_listener : Type := Socks5Listener {
  socks_bind : ListenEndpoint.t; socks_authentication : option credential_hash }.
#[export] Instance socks5_listener_eq_dec : EqDecision socks5_listener.
Proof. solve_decision. Defined.
Inductive listener_spec : Type :=
| HttpForward (l : HttpForwardListener.t)
| TcpStatic (l : tcp_static_listener)
| Socks5 (l : socks5_listener).
#[export] Instance listener_spec_eq_dec : EqDecision listener_spec.
Proof. solve_decision. Defined.
Definition listener_bind (l : listener_spec) : ListenEndpoint.t :=
  match l with
  | HttpForward l => HttpForwardListener.bind l
  | TcpStatic l => static_bind l
  | Socks5 l => socks_bind l
  end.

(** * Lemmas *)

Lemma validate_string_id_Ok v k :
  validate_string_id v k = Ok tt <->
  v <> [] /\ length v <= 128 /\ Forall (fun b => id_char b = true) v.
Proof.
  unfold validate_string_id, MAXIMUM_TEXT_IDENTIFIER_BYTES. case_decide; [naive_solver|].
  case_decide; [split; [done|lia]|].
  pose proof (find_char_not_None id_char v) as Hf.
  destruct (find_char_not id_char v) as [c|].
  - split; [done|]. intros (_ & _ & Hall). apply Hf in Hall. done.
  - split; [intros _|done]. split_and!; [done|lia|by apply Hf].
Qed.
Lemma rule_id_new_Ok v r :
  RuleId.new v = Ok r <->
  r = RuleId.Make v /\ v <> [] /\ length v <= 128 /\ Forall (fun b => id_char b = true) v.
Proof.
  unfold RuleId.new. rewrite <- (validate_string_id_Ok v (bs "rule ID")).
  destruct (validate_string_id v _) as [[]|e]; mcbn; naive_solver.
Qed.

Lemma checked_next_Some s s' :
  AuditSequence.checked_next s = Some s' <->
  AuditSequence.get s' = (AuditSequence.get s + 1)%N /\ (AuditSequence.get s < u64_max)%N.
Proof.
  unfold AuditSequence.checked_next. destruct (checked_add _ 1) as [v|] eqn:E.
  - apply checked_add_Some in E as [-> Hle].
    destruct (N.eqb_spec (AuditSequence.get s + 1) 0); [lia|].
    split; [intros [= <-]; cbn; split; [done|lia]|]. intros [Hs _]. f_equal.
    destruct s'; cbn in *. by rewrite Hs.
  - apply checked_add_None in E. split; [done|lia].
Qed.
Lemma checked_next_None s :
  AuditSequence.wf s -> (AuditSequence.checked_next s = None <-> AuditSequence.get s = u64_max).
Proof.
  intros Hw. destruct (AuditSequence.checked_next s) as [s'|] eqn:E.
  - apply checked_next_Some in E as [_ Hlt]. split; [done|lia].
  - split; [|done]. intros _. destruct (N.eq_dec (AuditSequence.get s) u64_max) as [?|Hne]; [done|].
    assert (Hs : AuditSequence.checked_next s = Some (AuditSequence.Make (AuditSequence.get s + 1)));
      [|congruence].
    apply checked_next_Some. cbn. unfold AuditSequence.wf in Hw. split; [done|lia].
Qed.

Lemma decision_new_wf a g st r m : Decision.wf (Decision.new a g st r m).
Proof. done. Qed.
Lemma decision_new_action a g st r m : Decision.action (Decision.new a g st r m) = a.
Proof. done. Qed.

(** The values a list of entries holds under a case-insensitive name. *)
Definition entries_named (name : bytes) (hs : list (bytes * list bytes)) : list (bytes * list bytes) :=
  filter (fun e => to_ascii_lowercase e.1 = to_ascii_lowercase name) hs.
Lemma sanitized_fold m hs name :
  foldl SanitizedHeaders.add_entry m hs !! to_ascii_lowercase name
  = match entries_named name hs with
    | [] => m !! to_ascii_lowercase name
    | es => Some (default [] (m !! to_ascii_lowercase name) ++ concat (map snd es))
    end.
Proof.
  revert m; induction hs as [|[n vs] hs IH]; intros m; [done|].
  cbn [foldl]. rewrite IH. unfold SanitizedHeaders.add_entry, entries_named. cbn [fst snd].
  rewrite filter_cons. cbn [fst]. case_decide as Hn.
  - rewrite Hn, lookup_insert_eq. cbn [default]. fold (entries_named name hs).
    destruct (entries_named name hs) as [|e es]; cbn; [by rewrite app_nil_r|].
    by rewrite <- app_assoc.
  - by rewrite lookup_insert_ne by done.
Qed.

(** * Properties *)

(** Header names are one key in every letter case: looking a name up in a
    sanitised map returns, in declaration order, the values of every entry whose
    name differs from it at most in case, and nothing when there is none. *)
Theorem sanitized_headers_merge_case (hs : list (bytes * list bytes)) (name : bytes) :
  SanitizedHeaders.values (SanitizedHeaders.new hs) name
  = match entries_named name hs with
    | [] => None
    | es => Some (concat (map snd es))
    end.
Proof.
  unfold SanitizedHeaders.values, SanitizedHeaders.new. cbn [SanitizedHeaders.headers_map].
  rewrite sanitized_fold, lookup_empty. by destruct (entries_named name hs).
Qed.

(** Deserialising a decision accepts exactly the pairs an in-process constructor
    could have built: the trace names the category of the attached action. *)
Theorem decision_from_serialized_sound (a : enforcement_action) (t : decision_trace)
    (d : Decision.t) :
  Decision.from_serialized a t = Ok d <->
  d = Decision.new a (policy_generation t) (evaluated_stage t) (matched_rule t) (match_reasons t)
  /\ final_action t = kind a.
Proof.
  unfold Decision.from_serialized. destruct t as [g st r m k]; cbn. case_decide as Hk.
  - subst k. split; [intros [= <-]; done|intros [-> _]; done].
  - split; [done|intros [_ ?]; done].
Qed.
