(* ===== verification/PolicyModel.v ===== *)
(** Policy data (crates/freja-policy/src/acl/model.rs, acl/error.rs, the pattern
    type of inspection.rs, evidence.rs and evidence/acl.rs): rules, expressions,
    facts, inspection patterns and the evaluation evidence shared by the
    evaluators. *)
From stdpp Require Import gmap strings.
From stdpp Require Import prelude.
From S2P Require Import Prelude Bytes Net Endpoint Domain.

(** The [ipnet] crate: networks and membership, a third-party dependency. *)
Class IpNet : Type := {
  ip_net : Type;
  net_contains : ip_net -> ip_addr -> bool }.
(** Host networks (prefix lengths 32 and 128), the instance of the examples. *)
Definition host_nets : IpNet :=
  {| ip_net := ip_addr; net_contains n a := bool_decide (n = a) |}.

(** * Rules (acl/model.rs) *)

Inductive policy_error : Type :=
| DuplicateRule (rule_id : RuleId.t)
| EmptyBooleanExpression (rule_id : RuleId.t) (operator : bytes)
| InvalidPortRange (start end_ : N)
| BuiltInRule (source : id_error)
| InvalidDetourRule (rule_id : RuleId.t)
| InvalidDefaultDetour.
#[export] Instance policy_error_eq_dec : EqDecision policy_error.
Proof. solve_decision. Defined.

Module PortRange.
Record t : Type := Make { start : Port.t; end_ : Port.t }.
#[global] Instance eq_dec : EqDecision t.
Proof. solve_decision. Defined.
Definition new (start end_ : Port.t) : result policy_error t :=
  if (Port.get end_ <? Port.get start)%N
  then Err (InvalidPortRange (Port.get start) (Port.get end_)) else Ok (Make start end_).
Definition contains (r : t) (p : Port.t) : bool :=
  ((Port.get (start r) <=? Port.get p) && (Port.get p <=? Port.get (end_ r)))%N.
(** [TryFrom<PortRangeRepr>]. *)
Definition try_from (start end_ : N) : result policy_error t :=
  s ← map_err (fun _ => InvalidPortRange start end_) (Port.new start);
  e ← map_err (fun _ => InvalidPortRange start end_) (Port.new end_);
  new s e.
End PortRange.

Inductive host_pattern : Type := Exact (n : HostName.t) | Suffix (n : HostName.t).
#[export] Instance host_pattern_eq_dec : EqDecision host_pattern.
Proof. solve_decision. Defined.
Definition matches_target (p : host_pattern) (target : target_host) : bool :=
  match target with
  | Ip _ => false
  | Name candidate =>
      match p with
      | Exact expected => bool_decide (candidate = expected)
      | Suffix suffix =>
          bool_decide (candidate = suffix)
          || match strip_suf (HostName.as_str suffix) (HostName.as_str candidate) with
             | Some prefix => ends_with [DOT] prefix
             | None => false
             end
      end
  end.

Record header_matcher : Type := HttpHeaderMatcher {
  matcher_name : bytes; value_contains : option bytes }.

Section Expressions.
Context `{IpNet}.
Inductive match_expression : Type :=
| All (es : list match_expression)
| Any (es : list match_expression)
| Not (e : match_expression)
| SourceIp (network : ip_net)
| DestinationIp (network : ip_net)
| DestinationHost (p : host_pattern)
| DestinationPort (r : PortRange.t)
| MatchProtocol (p : protocol)
| HttpMethod (methods : list bytes)
| HttpPathPrefix (prefix : bytes)
| HttpHeader (m : header_matcher).

(** Induction over expressions, with the hypothesis on every operand. *)
Lemma match_expression_ind' (P : match_expression -> Prop) :
  (forall es, Forall P es -> P (All es)) -> (forall es, Forall P es -> P (Any es)) ->
  (forall e, P e -> P (Not e)) -> (forall n, P (SourceIp n)) -> (forall n, P (DestinationIp n)) ->
  (forall p, P (DestinationHost p)) -> (forall r, P (DestinationPort r)) ->
  (forall p, P (MatchProtocol p)) -> (forall m, P (HttpMethod m)) ->
  (forall p, P (HttpPathPrefix p)) -> (forall m, P (HttpHeader m)) -> forall e, P e.
Proof.
  intros Hall Hany Hnot H1 H2 H3 H4 H5 H6 H7 H8.
  fix IH 1. intros [es|es|e| | | | | | | | ].
  - apply Hall. induction es as [|e es IHes]; constructor; [apply IH|exact IHes].
  - apply Hany. induction es as [|e es IHes]; constructor; [apply IH|exact IHes].
  - apply Hnot, IH.
  - apply H1.
  - apply H2.
  - apply H3.
  - apply H4.
  - apply H5.
  - apply H6.
  - apply H7.
  - apply H8.
Qed.

Inductive rule_action : Type :=
| RuleAllow | RuleDeny | RuleDetour (destination : UpstreamEndpoint.t).
Record acl_rule : Type := AclRule {
  rule_id : RuleId.t; rule_matcher : match_expression; rule_act : rule_action }.
End Expressions.
#[export] Instance rule_action_eq_dec : EqDecision rule_action.
Proof. solve_decision. Defined.

(** * Facts (acl/model.rs) *)
Inductive policy_facts : Type :=
| Requested (f : requested_facts)
| Resolved (f : resolved_facts)
| HttpRequest (f : request_facts)
| HttpResponse (f : response_facts).
Module PolicyFacts.
Definition stage (f : policy_facts) : policy_stage :=
  match f with
  | Requested _ => RequestedDestination
  | Resolved _ => ResolvedDestination
  | HttpRequest _ => StageHttpRequest
  | HttpResponse _ => StageHttpResponse
  end.
Definition requested (f : policy_facts) : requested_facts :=
  match f with
  | Requested f => f
  | Resolved f => resolved_requested f
  | HttpRequest f => resolved_requested (request_target f)
  | HttpResponse f => resolved_requested (response_target f)
  end.
Definition resolved_ip (f : policy_facts) : option ip_addr :=
  match f with
  | Requested _ => None
  | Resolved f => Some (Domain.resolved_ip f)
  | HttpRequest f => Some (Domain.resolved_ip (request_target f))
  | HttpResponse f => Some (Domain.resolved_ip (response_target f))
  end.
Definition http (f : policy_facts) : option request_facts :=
  match f with HttpRequest f => Some f | _ => None end.
Definition http_headers (f : policy_facts) : option SanitizedHeaders.t :=
  match f with
  | HttpRequest f => Some (request_headers f)
  | HttpResponse f => Some (response_headers f)
  | _ => None
  end.
End PolicyFacts.

(** * Inspection patterns (inspection.rs) *)
Inductive inspection_error : Type :=
| EmptyPattern (id : DetectorId.t)
| EmptyDirections (id : DetectorId.t)
| DuplicateDetector (id : DetectorId.t)
| UnsupportedDetour (id : DetectorId.t).
#[export] Instance inspection_error_eq_dec : EqDecision inspection_error.
Proof. solve_decision. Defined.
Module InspectionPattern.
Record t : Type := Make {
  detector_id : DetectorId.t;
  rule_id : RuleId.t;
  bytes_ : bytes;
  severity : Domain.severity;
  confidence : Domain.confidence;
  directions : list direction;
  action : rule_action;
  tags : list bytes }.
#[global] Instance eq_dec : EqDecision t.
Proof. solve_decision. Defined.
Definition new (id : DetectorId.t) (rule : RuleId.t) (pattern : bytes) sev conf
    (dirs : list direction) (act : rule_action) tags : result inspection_error t :=
  if decide (pattern = []) then Err (EmptyPattern id)
  else if decide (dirs = []) then Err (EmptyDirections id)
  else match act with
       | RuleDetour _ => Err (UnsupportedDetour id)
       | _ => Ok (Make id rule pattern sev conf dirs act tags)
       end.
Definition applies_to (p : t) (d : direction) : bool := bool_decide (d ∈ directions p).
Definition byte_len (p : t) : nat := length (bytes_ p).
End InspectionPattern.

(** * Evaluation evidence (evidence.rs, evidence/acl.rs) *)
Definition MAXIMUM_ACL_EVIDENCE_RULES : nat := 64.
Inductive acl_rule_result : Type :=
| ResMatched | ResDidNotMatch | ResUnavailableAtThisStage | ResNotEvaluatedAfterFirstMatch.
#[export] Instance acl_rule_result_eq_dec : EqDecision acl_rule_result.
Proof. solve_decision. Defined.

Module AclEvaluation.
Section Evaluation.
Context `{IpNet}.
Record t : Type := Make {
  rules : list acl_rule;
  default_action : rule_action;
  results : list acl_rule_result;
  evaluated : nat;
  did_not_match : nat;
  unavailable : nat;
  selected : option nat }.
Definition new (rules : list acl_rule) (default_action : rule_action) : t :=
  Make rules default_action
    (replicate MAXIMUM_ACL_EVIDENCE_RULES ResNotEvaluatedAfterFirstMatch) 0 0 0 None.
(** [results.get_mut(evaluated)] is [None] past the array: nothing is written. *)
Definition record (ev : t) (r : acl_rule_result) : t :=
  Make (rules ev) (default_action ev)
    (<[evaluated ev := r]> (results ev))
    (S (evaluated ev))
    (match r with ResDidNotMatch => S (did_not_match ev) | _ => did_not_match ev end)
    (match r with ResUnavailableAtThisStage => S (unavailable ev) | _ => unavailable ev end)
    (match r with ResMatched => Some (evaluated ev) | _ => selected ev end).
Definition selected_rule (ev : t) : option acl_rule :=
  i ← selected ev; rules ev !! i.
Definition selected_ordinal (ev : t) : option nat := S <$> selected ev.
Definition rule_count (ev : t) : nat := length (rules ev).
End Evaluation.
End AclEvaluation.

Inductive rule_definition `{IpNet} : Type :=
| DefAcl (ev : AclEvaluation.t)
| DefInspection (p : InspectionPattern.t)
| DefInspectionDefault
| DefDestinationGuard (condition : bytes)
| DefConnectPorts (ports : gset N).
