(* ===== verification/Acl.v ===== *)
(** The ordered first-match ACL (crates/freja-policy/src/acl/policy.rs): rule
    validation, three-valued expression evaluation and decision selection. *)
From stdpp Require Import gmap strings.
From stdpp Require Import prelude.
From S2P Require Import Prelude Bytes Net Endpoint Domain PolicyModel.

Inductive expression_result : Type :=
| Matched (reasons : list match_reason)
| DidNotMatch
| Unavailable.

Section Acl.
Context `{IpNet}.

Record acl_policy : Type := AclPolicy {
  generation : PolicyGeneration.t;
  rules : list acl_rule;
  default_action : rule_action }.

(** * Validation *)

Fixpoint is_requested_stage_expression (e : match_expression) : bool :=
  match e with
  | All es | Any es => forallb is_requested_stage_expression es
  | Not e => is_requested_stage_expression e
  | DestinationIp _ | HttpMethod _ | HttpPathPrefix _ | HttpHeader _ => false
  | SourceIp _ | DestinationHost _ | DestinationPort _ | MatchProtocol _ => true
  end.

Fixpoint requires_tcp (e : match_expression) : bool :=
  match e with
  | MatchProtocol Tcp => true
  | All es => existsb requires_tcp es
  | Any es => negb (bool_decide (length es = 0)) && forallb requires_tcp es
  | _ => false
  end.

Fixpoint validate_expression (id : RuleId.t) (e : match_expression) : result policy_error unit :=
  let fix validate_each es :=
    match es with
    | [] => Ok tt
    | e :: es => _ ← validate_expression id e; validate_each es
    end in
  match e with
  | All [] => Err (EmptyBooleanExpression id (bs "all"))
  | Any [] => Err (EmptyBooleanExpression id (bs "any"))
  | All es | Any es => validate_each es
  | Not e => validate_expression id e
  | _ => Ok tt
  end.

Definition is_detour (a : rule_action) : bool :=
  match a with RuleDetour _ => true | _ => false end.

(** Loop of [AclPolicy::new]; [ids] is the [HashSet] of identities seen so far. *)
Fixpoint check_rules (ids : gset bytes) (rs : list acl_rule) : result policy_error unit :=
  match rs with
  | [] => Ok tt
  | r :: rs =>
      if decide (RuleId.as_str (rule_id r) ∈ ids) then Err (DuplicateRule (rule_id r))
      else
        _ ← validate_expression (rule_id r) (rule_matcher r);
        if is_detour (rule_act r)
           && (negb (is_requested_stage_expression (rule_matcher r))
               || negb (requires_tcp (rule_matcher r)))
        then Err (InvalidDetourRule (rule_id r))
        else check_rules ({[ RuleId.as_str (rule_id r) ]} ∪ ids) rs
  end.
Definition acl_policy_new (g : PolicyGeneration.t) (rs : list acl_rule) (d : rule_action)
  : result policy_error acl_policy :=
  _ ← check_rules ∅ rs;
  if is_detour d then Err InvalidDefaultDetour else Ok (AclPolicy g rs d).

(** * Expression evaluation *)

Definition leaf (matched : bool) (criterion value : bytes) : expression_result :=
  if matched then Matched [MatchReason criterion value] else DidNotMatch.

Section Loops.
Variable evaluate : match_expression -> expression_result.
(** [evaluate_all]: a definite mismatch returns at once. *)
Fixpoint evaluate_all (es : list match_expression) (reasons : list match_reason)
    (unavailable : bool) : expression_result :=
  match es with
  | [] => if unavailable then Unavailable else Matched reasons
  | e :: es =>
      match evaluate e with
      | Matched nested => evaluate_all es (reasons ++ nested) unavailable
      | DidNotMatch => DidNotMatch
      | Unavailable => evaluate_all es reasons true
      end
  end.
(** [evaluate_any]: the first match returns at once. *)
Fixpoint evaluate_any (es : list match_expression) (unavailable : bool)
  : expression_result :=
  match es with
  | [] => if unavailable then Unavailable else DidNotMatch
  | e :: es =>
      match evaluate e with
      | Matched reasons => Matched reasons
      | DidNotMatch => evaluate_any es unavailable
      | Unavailable => evaluate_any es true
      end
  end.
End Loops.

Definition evaluate_http_header (m : header_matcher) (f : policy_facts) : expression_result :=
  match PolicyFacts.http_headers f with
  | None => Unavailable
  | Some headers =>
      match SanitizedHeaders.values headers (matcher_name m) with
      | None => DidNotMatch
      | Some values =>
          let value_matches :=
            match value_contains m with
            | None => true
            | Some needle =>
                bool_decide (needle = []) || existsb (windows_any needle) values
            end in
          leaf value_matches (bs "http-header") (to_ascii_lowercase (matcher_name m))
      end
  end.

(** [format!("{:?}", protocol).to_ascii_lowercase()]. *)
Definition show_protocol (p : protocol) : bytes :=
  match p with Tcp => bs "tcp" | Http => bs "http" end.

Fixpoint evaluate_expression (e : match_expression) (f : policy_facts) : expression_result :=
  let facts := PolicyFacts.requested f in
  match e with
  | All es => evaluate_all (fun e => evaluate_expression e f) es [] false
  | Any es => evaluate_any (fun e => evaluate_expression e f) es false
  | Not e =>
      match evaluate_expression e f with
      | Matched _ => DidNotMatch
      | DidNotMatch => Matched [MatchReason (bs "not") (bs "nested expression did not match")]
      | Unavailable => Unavailable
      end
  | SourceIp network =>
      leaf (net_contains network (source_ip facts)) (bs "source-ip") (show_ip (source_ip facts))
  | DestinationIp network =>
      match PolicyFacts.resolved_ip f with
      | None => Unavailable
      | Some address => leaf (net_contains network address) (bs "destination-ip") (show_ip address)
      end
  | DestinationHost p =>
      leaf (matches_target p (requested_host facts)) (bs "destination-host")
           (TargetHost.show (requested_host facts))
  | DestinationPort r =>
      leaf (PortRange.contains r (destination_port facts)) (bs "destination-port")
           (Port.show (destination_port facts))
  | MatchProtocol p =>
      leaf (bool_decide (p = facts_protocol facts)) (bs "protocol")
           (show_protocol (facts_protocol facts))
  | HttpMethod methods =>
      match PolicyFacts.http f with
      | None => Unavailable
      | Some http =>
          leaf (existsb (fun m => eq_ignore_ascii_case m (request_method http)) methods)
               (bs "http-method") (request_method http)
      end
  | HttpPathPrefix prefix =>
      match PolicyFacts.http f with
      | None => Unavailable
      | Some http => leaf (starts_with prefix (request_path http)) (bs "http-path") (request_path http)
      end
  | HttpHeader m => evaluate_http_header m f
  end.

(** * Decisions *)

Definition decision (g : PolicyGeneration.t) (f : policy_facts) (action : rule_action)
    (matched_rule : option RuleId.t) (reasons : list match_reason) : Decision.t :=
  let act :=
    match action, facts_protocol (PolicyFacts.requested f) with
    | RuleAllow, _ => Allow
    | RuleDeny, Http => HttpReject Forbidden
    | RuleDeny, Tcp => TcpClose Graceful
    | RuleDetour destination, Tcp => TcpDetour destination
    | RuleDetour _, Http => HttpReject Forbidden
    end in
  Decision.new act g (PolicyFacts.stage f) matched_rule reasons.

(** [format!("{:?}", action).to_ascii_lowercase()] of the derived [Debug]. *)
Definition debug_action (a : rule_action) : bytes :=
  let quote := byte_of 34 in
  to_ascii_lowercase
    match a with
    | RuleAllow => bs "Allow"
    | RuleDeny => bs "Deny"
    | RuleDetour d =>
        bs "Detour(UpstreamEndpoint { host: "
        ++ match UpstreamEndpoint.host d with
           | Ip address => bs "Ip(" ++ show_ip address ++ bs ")"
           | Name n => bs "Name(HostName(" ++ quote :: HostName.as_str n ++ quote :: bs "))"
           end
        ++ bs ", port: Port(" ++ Port.show (UpstreamEndpoint.port d) ++ bs ") })"
    end.

(** Rule loop of [AclPolicy::evaluate_with_definition]. *)
Fixpoint evaluate_rules (p : acl_policy) (f : policy_facts) (rs : list acl_rule)
    (ev : AclEvaluation.t) : Decision.t * AclEvaluation.t :=
  match rs with
  | [] =>
      (decision (generation p) f (default_action p) None
         [MatchReason (bs "default-action") (debug_action (default_action p))], ev)
  | r :: rs =>
      match evaluate_expression (rule_matcher r) f with
      | Matched reasons =>
          (decision (generation p) f (rule_act r) (Some (rule_id r)) reasons,
           AclEvaluation.record ev ResMatched)
      | DidNotMatch => evaluate_rules p f rs (AclEvaluation.record ev ResDidNotMatch)
      | Unavailable => evaluate_rules p f rs (AclEvaluation.record ev ResUnavailableAtThisStage)
      end
  end.
Definition evaluate_with_definition (p : acl_policy) (f : policy_facts)
  : Decision.t * rule_definition :=
  let '(d, ev) :=
    evaluate_rules p f (rules p) (AclEvaluation.new (rules p) (default_action p)) in
  (d, DefAcl ev).
Definition evaluate (p : acl_policy) (f : policy_facts) : Decision.t :=
  (evaluate_with_definition p f).1.

End Acl.

(** * Reference semantics: strong Kleene logic *)

(** Truth values, ordered false < unknown < true. *)
Inductive truth : Type := TF | TU | TT.
#[export] Instance truth_eq_dec : EqDecision truth.
Proof. solve_decision. Defined.
Definition t_not (a : truth) : truth := match a with TF => TT | TU => TU | TT => TF end.
Definition t_and (a b : truth) : truth :=
  match a, b with TF, _ | _, TF => TF | TU, _ | _, TU => TU | TT, TT => TT end.
Definition t_or (a b : truth) : truth :=
  match a, b with TT, _ | _, TT => TT | TU, _ | _, TU => TU | TF, TF => TF end.
Definition t_all (l : list truth) : truth := foldr t_and TT l.
Definition t_any (l : list truth) : truth := foldr t_or TF l.
Definition verdict (r : expression_result) : truth :=
  match r with Matched _ => TT | DidNotMatch => TF | Unavailable => TU end.
(** Information order: an unknown value may become definite, nothing else changes. *)
Definition t_refines (a b : truth) : Prop := a = TU \/ a = b.

(** Later facts of one flow: the same request, with more known about it. *)
Inductive extends : policy_facts -> policy_facts -> Prop :=
| extends_resolved r : extends (Requested (resolved_requested r)) (Resolved r)
| extends_request q : extends (Resolved (request_target q)) (HttpRequest q)
| extends_response q : extends (Resolved (response_target q)) (HttpResponse q)
| extends_requested_request q :
    extends (Requested (resolved_requested (request_target q))) (HttpRequest q)
| extends_requested_response q :
    extends (Requested (resolved_requested (response_target q))) (HttpResponse q).

Section Theory.
Context `{IpNet}.

(** The truth of an expression, by structural recursion over connectives. *)
Fixpoint truth_of (e : match_expression) (f : policy_facts) : truth :=
  match e with
  | All es => t_all (map (fun e => truth_of e f) es)
  | Any es => t_any (map (fun e => truth_of e f) es)
  | Not e => t_not (truth_of e f)
  | _ => verdict (evaluate_expression e f)
  end.

Lemma verdict_leaf b c v : verdict (leaf b c v) = if b then TT else TF.
Proof. by destruct b. Qed.
Lemma evaluate_all_verdict ev es rs u :
  verdict (evaluate_all ev es rs u)
  = t_and (if u then TU else TT) (t_all (map (fun e => verdict (ev e)) es)).
Proof.
  revert rs u; induction es as [|e es IH]; intros rs u; cbn; [by destruct u|].
  fold (t_all (map (fun e => verdict (ev e)) es)).
  destruct (ev e); cbn; rewrite ?IH; destruct u, (t_all _); done.
Qed.
Lemma evaluate_any_verdict ev es u :
  verdict (evaluate_any ev es u)
  = t_or (if u then TU else TF) (t_any (map (fun e => verdict (ev e)) es)).
Proof.
  revert u; induction es as [|e es IH]; intros u; cbn; [by destruct u|].
  fold (t_any (map (fun e => verdict (ev e)) es)).
  destruct (ev e); cbn; rewrite ?IH; destruct u, (t_any _); done.
Qed.
Lemma verdict_truth_of e f : verdict (evaluate_expression e f) = truth_of e f.
Proof.
  induction e as [es IH|es IH|e IH| | | | | | | | ] using match_expression_ind'; try done.
  - cbn [evaluate_expression truth_of]. rewrite evaluate_all_verdict.
    replace (map (fun e => verdict (evaluate_expression e f)) es)
      with (map (fun e => truth_of e f) es); [by destruct (t_all _)|].
    apply map_ext_in. intros e He. rewrite Forall_forall in IH.
    symmetry. apply IH. by apply list_elem_of_In.
  - cbn [evaluate_expression truth_of]. rewrite evaluate_any_verdict.
    replace (map (fun e => verdict (evaluate_expression e f)) es)
      with (map (fun e => truth_of e f) es); [by destruct (t_any _)|].
    apply map_ext_in. intros e He. rewrite Forall_forall in IH.
    symmetry. apply IH. by apply list_elem_of_In.
  - cbn [evaluate_expression truth_of]. rewrite <- IH.
    by destruct (evaluate_expression e f).
Qed.

Lemma t_not_all l : t_not (t_all l) = t_any (map t_not l).
Proof. induction l as [|a l IH]; cbn; [done|]. fold (t_all l) (t_any (map t_not l)). rewrite <- IH. by destruct a, (t_all l). Qed.
Lemma t_not_any l : t_not (t_any l) = t_all (map t_not l).
Proof. induction l as [|a l IH]; cbn; [done|]. fold (t_any l) (t_all (map t_not l)). rewrite <- IH. by destruct a, (t_any l). Qed.

Ltac truth_cases :=
  unfold t_refines in *; intuition (subst; cbn; try (left; reflexivity); try (right; reflexivity)).
Lemma t_and_refines a b a' b' :
  t_refines a b -> t_refines a' b' -> t_refines (t_and a a') (t_and b b').
Proof. destruct b, b'; truth_cases. Qed.
Lemma t_or_refines a b a' b' :
  t_refines a b -> t_refines a' b' -> t_refines (t_or a a') (t_or b b').
Proof. destruct b, b'; truth_cases. Qed.
Lemma t_all_refines l1 l2 : Forall2 t_refines l1 l2 -> t_refines (t_all l1) (t_all l2).
Proof. induction 1; [by right|by apply t_and_refines]. Qed.
Lemma t_any_refines l1 l2 : Forall2 t_refines l1 l2 -> t_refines (t_any l1) (t_any l2).
Proof. induction 1; [by right|by apply t_or_refines]. Qed.
Lemma extends_requested f f' : extends f f' -> PolicyFacts.requested f = PolicyFacts.requested f'.
Proof. by destruct 1. Qed.
Lemma Forall2_map_same {A B} (R : B -> B -> Prop) (g h : A -> B) l :
  Forall (fun a => R (g a) (h a)) l -> Forall2 R (map g l) (map h l).
Proof. induction 1; cbn; by constructor. Qed.
Lemma truth_of_extends e f f' : extends f f' -> t_refines (truth_of e f) (truth_of e f').
Proof.
  intros Hx. pose proof (extends_requested f f' Hx) as Hreq.
  induction e as [es IH|es IH|e IH| | | | | | | | ] using match_expression_ind'.
  - apply t_all_refines, Forall2_map_same, IH.
  - apply t_any_refines, Forall2_map_same, IH.
  - cbn. by destruct IH as [->| ->]; [left|right].
  - right. cbn. by rewrite Hreq.
  - destruct Hx; cbn; by (left + right).
  - right. cbn. by rewrite Hreq.
  - right. cbn. by rewrite Hreq.
  - right. cbn. by rewrite Hreq.
  - destruct Hx; cbn; by left.
  - destruct Hx; cbn; by left.
  - destruct Hx; cbn; by left.
Qed.
Lemma truth_of_requested_stage e f :
  is_requested_stage_expression e = true -> truth_of e f <> TU.
Proof.
  induction e as [es IH|es IH|e IH| | | | | | | | ] using match_expression_ind'; try done.
  - cbn. rewrite forallb_forall. intros Hes.
    induction IH as [|e es He IH IHes]; cbn; [done|].
    assert (Hr : t_all (map (fun e => truth_of e f) es) <> TU) by (apply IHes; intros x Hx; apply Hes; by right).
    assert (Ht : truth_of e f <> TU) by (apply He, Hes; by left).
    fold (t_all (map (fun e => truth_of e f) es)). destruct (truth_of e f), (t_all _); done.
  - cbn. rewrite forallb_forall. intros Hes.
    induction IH as [|e es He IH IHes]; cbn; [done|].
    assert (Hr : t_any (map (fun e => truth_of e f) es) <> TU) by (apply IHes; intros x Hx; apply Hes; by right).
    assert (Ht : truth_of e f <> TU) by (apply He, Hes; by left).
    fold (t_any (map (fun e => truth_of e f) es)). destruct (truth_of e f), (t_any _); done.
  - cbn. intros He. specialize (IH He). by destruct (truth_of e f).
  - intros _. cbn. by rewrite verdict_leaf; case_if.
  - intros _. cbn. by rewrite verdict_leaf; case_if.
  - intros _. cbn. by rewrite verdict_leaf; case_if.
  - intros _. cbn. by rewrite verdict_leaf; case_if.
Qed.
Lemma truth_of_requires_tcp e f :
  requires_tcp e = true -> truth_of e f = TT -> facts_protocol (PolicyFacts.requested f) = Tcp.
Proof.
  induction e as [es IH|es IH|e IH| | | | | | | | ] using match_expression_ind'; try done.
  - cbn. intros Hex Ht. induction IH as [|e es He IH IHes]; [done|]. cbn in Hex, Ht.
    fold (t_all (map (fun e => truth_of e f) es)) in Ht.
    destruct (truth_of e f) eqn:E; [done|by destruct (t_all _)|].
    apply orb_true_iff in Hex as [Hex|Hex]; [by apply He|]. apply IHes; [done|].
    by destruct (t_all _).
  - cbn. intros [_ Hall]%andb_true_iff Ht.
    induction IH as [|e es He IH IHes]; [done|]. cbn in Hall, Ht.
    apply andb_true_iff in Hall as [H1 H2].
    fold (t_any (map (fun e => truth_of e f) es)) in Ht.
    destruct (truth_of e f) eqn:E; [| |by apply He].
    all: apply IHes; [done|]; by destruct (t_any _).
  - destruct p; [|done]. intros _. cbn. rewrite verdict_leaf. case_if; [|done]. intros _.
    by apply bool_decide_eq_true in Heqb.
Qed.

(** Expressions without an empty connective, the ones a policy may hold. *)
Inductive expression_wf : match_expression -> Prop :=
| wf_all es : es <> [] -> Forall expression_wf es -> expression_wf (All es)
| wf_any es : es <> [] -> Forall expression_wf es -> expression_wf (Any es)
| wf_not e : expression_wf e -> expression_wf (Not e)
| wf_source n : expression_wf (SourceIp n)
| wf_destination n : expression_wf (DestinationIp n)
| wf_host p : expression_wf (DestinationHost p)
| wf_port r : expression_wf (DestinationPort r)
| wf_protocol p : expression_wf (MatchProtocol p)
| wf_method m : expression_wf (HttpMethod m)
| wf_path p : expression_wf (HttpPathPrefix p)
| wf_header m : expression_wf (HttpHeader m).
#[local] Hint Constructors expression_wf : core.

Lemma validate_expression_Ok id e : validate_expression id e = Ok tt <-> expression_wf e.
Proof.
  assert (Heach : forall es, Forall (fun e => validate_expression id e = Ok tt <-> expression_wf e) es ->
    (fix validate_each es := match es with
       | [] => Ok tt
       | e :: es => _ ← validate_expression id e; validate_each es end) es = Ok tt
    <-> Forall expression_wf es).
  { induction 1 as [|e' es He Hes IH]; [done|]. rewrite Forall_cons, <- He, <- IH.
    destruct (validate_expression id e') as [[]|]; mcbn; naive_solver. }
  induction e as [es IH|es IH|e IH| | | | | | | | ] using match_expression_ind'; try (by split).
  - apply Heach in IH. destruct es as [|e es]; [split; [done|by inversion 1]|].
    etransitivity; [exact IH|]. split; [by constructor|by inversion 1].
  - apply Heach in IH. destruct es as [|e es]; [split; [done|by inversion 1]|].
    etransitivity; [exact IH|]. split; [by constructor|by inversion 1].
  - cbn. rewrite IH. split; [by constructor|by inversion 1].
Qed.

(** What [AclPolicy::new] demands of one rule on its own. *)
Definition rule_wf (r : acl_rule) : Prop :=
  expression_wf (rule_matcher r) /\
  (is_detour (rule_act r) = true ->
   is_requested_stage_expression (rule_matcher r) = true /\ requires_tcp (rule_matcher r) = true).
Definition rule_key (r : acl_rule) : bytes := RuleId.as_str (rule_id r).

Lemma check_rules_Ok ids rs :
  check_rules ids rs = Ok tt <->
  NoDup (map rule_key rs) /\ (forall r, r ∈ rs -> rule_key r ∉ ids) /\ Forall rule_wf rs.
Proof.
  revert ids; induction rs as [|r rs IH]; intros ids; cbn [check_rules map].
  { split; [intros _|done]. split_and!; [constructor|by intros ? ?%not_elem_of_nil|constructor]. }
  fold (rule_key r). rewrite NoDup_cons, Forall_cons.
  setoid_rewrite elem_of_cons.
  assert (Hmem : rule_key r ∈ map rule_key rs <-> exists r', r' ∈ rs /\ rule_key r' = rule_key r).
  { rewrite list_elem_of_In, in_map_iff. setoid_rewrite list_elem_of_In. naive_solver. }
  rewrite Hmem. case_decide as Hin; [split; [done|naive_solver]|].
  unfold rule_wf at 1. rewrite <- (validate_expression_Ok (rule_id r)).
  destruct (validate_expression _ _) as [[]|]; mcbn; [|naive_solver].
  destruct (is_detour (rule_act r)), (is_requested_stage_expression _), (requires_tcp _);
    cbn; try (rewrite IH; setoid_rewrite elem_of_union; setoid_rewrite elem_of_singleton); naive_solver.
Qed.

(** The truth of a rule decides whether the rule loop stops at it. *)
Definition selects (f : policy_facts) (r : acl_rule) : bool :=
  bool_decide (truth_of (rule_matcher r) f = TT).
Lemma selects_matched f r :
  selects f r = true <-> exists reasons, evaluate_expression (rule_matcher r) f = Matched reasons.
Proof.
  unfold selects. rewrite bool_decide_eq_true, <- verdict_truth_of.
  destruct (evaluate_expression _ _); cbn; naive_solver.
Qed.
Lemma evaluate_rules_skip p f pre rs ev :
  Forall (fun r => selects f r = false) pre -> exists ev',
  evaluate_rules p f (pre ++ rs) ev = evaluate_rules p f rs ev'
  /\ AclEvaluation.rules ev' = AclEvaluation.rules ev
  /\ AclEvaluation.evaluated ev' = AclEvaluation.evaluated ev + length pre
  /\ AclEvaluation.selected ev' = AclEvaluation.selected ev
  /\ AclEvaluation.did_not_match ev' + AclEvaluation.unavailable ev'
     = AclEvaluation.did_not_match ev + AclEvaluation.unavailable ev + length pre.
Proof.
  intros Hpre. revert ev; induction Hpre as [|r pre Hr Hpre IH]; intros ev.
  { exists ev. cbn. split_and!; (done || lia). }
  cbn [app evaluate_rules]. destruct (evaluate_expression (rule_matcher r) f) eqn:E.
  - assert (selects f r = true) by (apply selects_matched; eauto). congruence.
  - destruct (IH (AclEvaluation.record ev ResDidNotMatch)) as (ev' & -> & H1 & H2 & H3 & H4).
    exists ev'. cbn in *. split_and!; (done || lia).
  - destruct (IH (AclEvaluation.record ev ResUnavailableAtThisStage)) as (ev' & -> & H1 & H2 & H3 & H4).
    exists ev'. cbn in *. split_and!; (done || lia).
Qed.
Lemma first_selected f rs :
  (Forall (fun r => selects f r = false) rs) \/
  (exists pre r post, rs = pre ++ r :: post /\ Forall (fun r => selects f r = false) pre
     /\ selects f r = true).
Proof.
  induction rs as [|r rs IH]; [left; constructor|].
  destruct (selects f r) eqn:E; [right; exists [], r, rs; split_and!; (done || constructor)|].
  destruct IH as [IH|(pre & r' & post & -> & Hpre & Hr')]; [left; by constructor|].
  right. exists (r :: pre), r', post. split_and!; [done|by constructor|done].
Qed.
Lemma evaluate_first p f pre r post :
  rules p = pre ++ r :: post -> Forall (fun r => selects f r = false) pre ->
  selects f r = true -> exists reasons,
  evaluate_expression (rule_matcher r) f = Matched reasons /\
  evaluate p f = decision (generation p) f (rule_act r) (Some (rule_id r)) reasons.
Proof.
  intros Hp Hpre (reasons & Hr)%selects_matched. exists reasons. split; [done|].
  unfold evaluate, evaluate_with_definition. rewrite Hp at 1.
  destruct (evaluate_rules_skip p f pre (r :: post) (AclEvaluation.new (rules p) (default_action p)) Hpre)
    as (ev' & -> & _). cbn. by rewrite Hr.
Qed.
Lemma evaluate_default p f :
  Forall (fun r => selects f r = false) (rules p) ->
  evaluate p f = decision (generation p) f (default_action p) None
    [MatchReason (bs "default-action") (debug_action (default_action p))].
Proof.
  intros Hp. unfold evaluate, evaluate_with_definition. rewrite <- (app_nil_r (rules p)) at 1.
  destruct (evaluate_rules_skip p f (rules p) [] (AclEvaluation.new (rules p) (default_action p)) Hp)
    as (ev' & -> & _). done.
Qed.
Lemma decision_detour g f a m rs d :
  Decision.action (decision g f a m rs) = TcpDetour d <->
  a = RuleDetour d /\ facts_protocol (PolicyFacts.requested f) = Tcp.
Proof.
  unfold decision. rewrite decision_new_action.
  destruct a, (facts_protocol (PolicyFacts.requested f)); naive_solver.
Qed.

(** A policy as [AclPolicy::new] returns it. *)
Definition policy_wf (p : acl_policy) : Prop :=
  NoDup (map rule_key (rules p)) /\ Forall rule_wf (rules p) /\ is_detour (default_action p) = false.
Lemma acl_policy_new_Ok g rs d p :
  acl_policy_new g rs d = Ok p <-> p = AclPolicy g rs d /\ policy_wf p.
Proof.
  unfold acl_policy_new, policy_wf. pose proof (check_rules_Ok ∅ rs) as Hc.
  destruct (check_rules ∅ rs) as [[]|e]; mcbn.
  - destruct Hc as [Hc _]. destruct (Hc eq_refl) as (H1 & _ & H2).
    destruct (is_detour d) eqn:E; split; try done.
    + by intros [-> (_ & _ & ?)]; cbn in *; congruence.
    + by intros [= <-].
    + by intros [-> _].
  - split; [done|]. intros [-> (H1 & H2 & _)]. destruct Hc as [_ Hc].
    enough (Err e = Ok ()) by done. apply Hc. split_and!; [done|set_solver|done].
Qed.

Lemma evaluate_detour p f d :
  policy_wf p -> Decision.action (evaluate p f) = TcpDetour d ->
  exists pre r post, rules p = pre ++ r :: post
    /\ Forall (fun r => selects f r = false) pre /\ selects f r = true
    /\ rule_act r = RuleDetour d
    /\ facts_protocol (PolicyFacts.requested f) = Tcp
    /\ matched_rule (Decision.trace (evaluate p f)) = Some (rule_id r).
Proof.
  intros (_ & _ & Hd) Hact. destruct (first_selected f (rules p)) as [Hno|(pre & r & post & Hp & Hpre & Hr)].
  - rewrite (evaluate_default p f Hno) in Hact. apply decision_detour in Hact as [Hact _].
    by rewrite Hact in Hd.
  - destruct (evaluate_first p f pre r post Hp Hpre Hr) as (reasons & _ & He).
    rewrite He in Hact |- *. apply decision_detour in Hact as [Hact Htcp].
    exists pre, r, post. by split_and!.
Qed.
Lemma selects_requested_stage f f' r :
  extends f f' -> is_requested_stage_expression (rule_matcher r) = true ->
  selects f r = selects f' r.
Proof.
  intros Hx Hr. unfold selects. apply bool_decide_ext.
  destruct (truth_of_extends (rule_matcher r) f f' Hx) as [Hu| ->]; [|done].
  by apply truth_of_requested_stage in Hu.
Qed.
Lemma selects_extends f f' r : extends f f' -> selects f' r = false -> selects f r = false.
Proof.
  unfold selects. rewrite !bool_decide_eq_false. intros Hx Hf Ht. apply Hf.
  destruct (truth_of_extends (rule_matcher r) f f' Hx) as [Hu| <-]; congruence.
Qed.
Lemma detour_settled p f f' d :
  policy_wf p -> extends f f' -> Decision.action (evaluate p f') = TcpDetour d ->
  Decision.action (evaluate p f) = TcpDetour d.
Proof.
  intros Hwf Hx Hact. destruct (evaluate_detour p f' d Hwf Hact)
    as (pre & r & post & Hp & Hpre & Hr & Hd & Htcp & _).
  destruct Hwf as (_ & Hall & _). rewrite Hp in Hall.
  apply Forall_app in Hall as [_ [[_ Hdr] _]%Forall_cons].
  rewrite Hd in Hdr. destruct (Hdr eq_refl) as [Hrs _].
  assert (Hpre' : Forall (fun r => selects f r = false) pre).
  { eapply Forall_impl; [exact Hpre|]. intros r'. by apply selects_extends. }
  rewrite <- (selects_requested_stage f f' r Hx Hrs) in Hr.
  destruct (evaluate_first p f pre r post Hp Hpre' Hr) as (reasons & _ & ->).
  apply decision_detour. split; [done|]. by rewrite (extends_requested f f' Hx).
Qed.

(** ** Evidence *)

Definition outcome (f : policy_facts) (r : acl_rule) : acl_rule_result :=
  match evaluate_expression (rule_matcher r) f with
  | Matched _ => ResMatched
  | DidNotMatch => ResDidNotMatch
  | Unavailable => ResUnavailableAtThisStage
  end.
(** The fixed array after results [l]: the first 64 of them, then the filler. *)
Definition bounded_results (l : list acl_rule_result) : list acl_rule_result :=
  take MAXIMUM_ACL_EVIDENCE_RULES
    (l ++ replicate MAXIMUM_ACL_EVIDENCE_RULES ResNotEvaluatedAfterFirstMatch).
Definition count_results (x : acl_rule_result) (l : list acl_rule_result) : nat :=
  length (filter (.= x) l).
(** Evidence after the results [l] of the rules in declaration order. *)
Record evidence_inv (rs : list acl_rule) (l : list acl_rule_result) (ev : AclEvaluation.t) : Prop := {
  inv_rules : AclEvaluation.rules ev = rs;
  inv_results : AclEvaluation.results ev = bounded_results l;
  inv_evaluated : AclEvaluation.evaluated ev = length l;
  inv_did_not_match : AclEvaluation.did_not_match ev = count_results ResDidNotMatch l;
  inv_unavailable : AclEvaluation.unavailable ev = count_results ResUnavailableAtThisStage l }.

Lemma count_results_snoc x l y :
  count_results x (l ++ [y]) = count_results x l + (if decide (y = x) then 1 else 0).
Proof.
  unfold count_results. rewrite filter_app, length_app. f_equal.
  rewrite filter_cons, filter_nil. by case_decide.
Qed.
Lemma bounded_results_snoc l x : <[length l := x]> (bounded_results l) = bounded_results (l ++ [x]).
Proof.
  unfold bounded_results. set (n := MAXIMUM_ACL_EVIDENCE_RULES). apply list_eq. intros i.
  destruct (decide (i < n)) as [Hi|Hi].
  2:{ rewrite (lookup_take_ge _ n) by lia. apply lookup_ge_None.
      rewrite length_insert, length_take. lia. }
  rewrite (lookup_take_lt _ n i) by done. rewrite <- app_assoc.
  destruct (decide (i = length l)) as [->|Hne].
  - rewrite list_lookup_insert_eq.
    2:{ rewrite length_take, length_app, length_replicate. lia. }
    by rewrite lookup_app_r, Nat.sub_diag by lia.
  - rewrite list_lookup_insert_ne, lookup_take_lt by done.
    destruct (decide (i < length l)); [by rewrite !lookup_app_l|].
    rewrite !lookup_app_r by lia. cbn [app]. rewrite lookup_cons_ne_0 by lia.
    rewrite !lookup_replicate_2 by lia. done.
Qed.
Lemma record_inv rs l ev x :
  evidence_inv rs l ev -> evidence_inv rs (l ++ [x]) (AclEvaluation.record ev x).
Proof.
  intros [H1 H2 H3 H4 H5]. split; cbn.
  - done.
  - by rewrite H2, H3, bounded_results_snoc.
  - rewrite length_app, H3. cbn. lia.
  - rewrite count_results_snoc, <- H4. destruct x; case_decide; try done; lia.
  - rewrite count_results_snoc, <- H5. destruct x; case_decide; try done; lia.
Qed.
Lemma evaluate_rules_evidence p f rs l ev d ev' :
  evidence_inv (rules p) l ev -> AclEvaluation.selected ev = None ->
  evaluate_rules p f rs ev = (d, ev') ->
  exists seen rest, rs = seen ++ rest
  /\ evidence_inv (rules p) (l ++ map (outcome f) seen) ev'
  /\ match AclEvaluation.selected ev' with
     | None => rest = [] /\ matched_rule (Decision.trace d) = None
         /\ Forall (fun r => selects f r = false) seen
     | Some k => exists before r, seen = before ++ [r] /\ k = length l + length before
         /\ matched_rule (Decision.trace d) = Some (rule_id r)
         /\ Forall (fun r => selects f r = false) before /\ selects f r = true
     end.
Proof.
  revert l ev; induction rs as [|r rs IH]; intros l ev Hinv Hsel; cbn [evaluate_rules].
  { intros [= <- <-]. exists [], []. split; [done|]. cbn [map].
    rewrite app_nil_r, Hsel. split; [exact Hinv|]. split_and!; (done || constructor). }
  assert (Hstep : forall x, outcome f r = x -> x <> ResMatched ->
    evaluate_rules p f rs (AclEvaluation.record ev x) = (d, ev') -> _) by
    (intros x Hx Hne He; refine (IH (l ++ [x]) _ (record_inv _ _ _ _ Hinv) _ He); by destruct x).
  assert (Hskip : selects f r = true <-> outcome f r = ResMatched).
  { rewrite selects_matched. unfold outcome. destruct (evaluate_expression _ _); naive_solver. }
  unfold outcome in Hstep, Hskip at 1.
  destruct (evaluate_expression (rule_matcher r) f) as [reasons| |] eqn:E.
  { intros [= <- <-]. exists [r], rs. split; [done|]. cbn [map]. unfold outcome. rewrite E.
    split; [by apply record_inv|]. cbn. exists [], r. cbn. rewrite Nat.add_0_r.
    destruct Hinv. split_and!; try done. by apply Hskip. }
  all: intros He; destruct (Hstep _ eq_refl ltac:(done) He) as (seen & rest & -> & Hev & Hm);
    exists (r :: seen), rest; (split; [done|]); cbn [map];
    (split; [unfold outcome at 1; rewrite E, cons_middle, app_assoc; exact Hev|]);
    assert (Hr : selects f r = false) by (destruct (selects f r); [by destruct Hskip as [Hs _]; specialize (Hs eq_refl)|done]);
    destruct (AclEvaluation.selected ev') as [k|];
    [destruct Hm as (before & r' & -> & -> & Hm & Hb & Hr'); exists (r :: before), r';
     rewrite length_app; cbn; split_and!; (done || lia || by constructor)
    |destruct Hm as (-> & Hm & Hs); split_and!; (done || by constructor)].
Qed.
Lemma selected_outcome f r : selects f r = true <-> outcome f r = ResMatched.
Proof.
  rewrite selects_matched. unfold outcome. destruct (evaluate_expression _ _); naive_solver.
Qed.
Lemma count_outcomes f seen :
  Forall (fun r => selects f r = false) seen ->
  length (map (outcome f) seen)
  = count_results ResDidNotMatch (map (outcome f) seen)
    + count_results ResUnavailableAtThisStage (map (outcome f) seen).
Proof.
  unfold count_results. induction 1 as [|r seen Hr _ IH]; [done|]. cbn [map length].
  assert (Ho : outcome f r = ResDidNotMatch \/ outcome f r = ResUnavailableAtThisStage).
  { unfold outcome. destruct (evaluate_expression _ _) eqn:E; [|by left|by right].
    enough (selects f r = true) by congruence. apply selects_matched. eauto. }
  rewrite !filter_cons, IH. destruct Ho as [-> | ->]; repeat case_decide; cbn; try done; lia.
Qed.
End Theory.

(** * Properties *)

Section Properties.
Context `{IpNet}.

(** C3. Evaluation is ordered first match: the decision is the one of the first rule
    whose expression is true of the facts (in the three-valued reading of its
    connectives), and carries that rule's identity and the reasons its
    expression produced; without such a rule it is the default action with the
    single reason [default-action]. *)
Theorem acl_first_match (p : acl_policy) (f : policy_facts) :
  match List.find (selects f) (rules p) with
  | Some r => exists reasons,
      evaluate_expression (rule_matcher r) f = Matched reasons /\
      evaluate p f = decision (generation p) f (rule_act r) (Some (rule_id r)) reasons
  | None =>
      evaluate p f = decision (generation p) f (default_action p) None
        [MatchReason (bs "default-action") (debug_action (default_action p))]
  end.
Proof.
  assert (Hskip : forall pre l, Forall (fun r => selects f r = false) pre ->
    List.find (selects f) (pre ++ l) = List.find (selects f) l).
  { intros pre l. induction 1 as [|r pre Hr _ IH]; cbn; [done|]. by rewrite Hr. }
  destruct (first_selected f (rules p)) as [Hno|(pre & r & post & Hp & Hpre & Hr)].
  - pose proof (Hskip _ [] Hno) as Hf. rewrite app_nil_r in Hf. rewrite Hf. cbn.
    by apply evaluate_default.
  - pose proof (Hskip _ (r :: post) Hpre) as Hf. rewrite <- Hp in Hf. cbn in Hf.
    rewrite Hr in Hf. rewrite Hf. by eapply evaluate_first.
Qed.

(** The evaluator of a boolean expression, with its early returns and its
    [unavailable] flag, computes the strong Kleene connectives; hence negation
    distributes over [All] and [Any] at every stage, unavailable facts included. *)
Theorem acl_expression_kleene (e : match_expression) (es : list match_expression)
    (f : policy_facts) :
  verdict (evaluate_expression e f) = truth_of e f /\
  verdict (evaluate_expression (Not (All es)) f)
  = verdict (evaluate_expression (Any (map Not es)) f) /\
  verdict (evaluate_expression (Not (Any es)) f)
  = verdict (evaluate_expression (All (map Not es)) f).
Proof.
  rewrite !verdict_truth_of. split; [done|]. cbn [truth_of].
  by rewrite t_not_all, t_not_any, !map_map.
Qed.

(** Learning more about a flow never overturns a definite result: when the facts of
    a later stage extend those of an earlier one, an expression that matched (or
    did not) still does, and an expression over requested-stage criteria was
    definite from the start. *)
Theorem acl_definite_results_persist (e : match_expression) (f f' : policy_facts)
    (Hx : extends f f') :
  t_refines (verdict (evaluate_expression e f)) (verdict (evaluate_expression e f')) /\
  (if is_requested_stage_expression e
   then verdict (evaluate_expression e f') <> TU
        /\ verdict (evaluate_expression e f') = verdict (evaluate_expression e f)
   else True).
Proof.
  rewrite !verdict_truth_of. pose proof (truth_of_extends e f f' Hx) as Hr. split; [done|].
  destruct (is_requested_stage_expression e) eqn:He; [|done].
  split; [by apply truth_of_requested_stage|]. destruct Hr as [Hu|Hu]; [|done].
  by apply truth_of_requested_stage in Hu.
Qed.

(** [AclPolicy::new] accepts exactly the rule lists with distinct identities, no
    empty connective, detour rules that are decidable before resolution and
    select TCP, and a default that is not a detour; it stores them unchanged. *)
Theorem acl_policy_new_exact (g : PolicyGeneration.t) (rs : list acl_rule)
    (d : rule_action) (p : acl_policy) :
  acl_policy_new g rs d = Ok p <->
  p = AclPolicy g rs d /\ NoDup (map rule_key rs) /\ Forall rule_wf rs /\ is_detour d = false.
Proof. rewrite acl_policy_new_Ok. split; [intros [-> Hp]; by split|intros [-> Hp]; by split]. Qed.

(** A validated policy detours only plain TCP, and only because a rule that names
    that destination matched: the decision's trace identifies the rule. *)
Theorem acl_detour_only_tcp (g : PolicyGeneration.t) (rs : list acl_rule) (dflt : rule_action)
    (p : acl_policy) (f : policy_facts) (d : UpstreamEndpoint.t)
    (Hnew : acl_policy_new g rs dflt = Ok p)
    (Hact : Decision.action (evaluate p f) = TcpDetour d) :
  facts_protocol (PolicyFacts.requested f) = Tcp /\
  exists r, r ∈ rs /\ rule_act r = RuleDetour d
    /\ matched_rule (Decision.trace (evaluate p f)) = Some (rule_id r).
Proof.
  apply acl_policy_new_Ok in Hnew as [-> Hwf].
  destruct (evaluate_detour _ _ _ Hwf Hact) as (pre & r & post & Hp & _ & _ & Hd & Htcp & Hm).
  split; [done|]. exists r. cbn in Hp. split_and!; [rewrite Hp; set_solver|done|done].
Qed.

(** Whether a flow is detoured is settled before its name is resolved: a detour
    decided on the resolved (or any later) facts was already the decision, with
    the same destination, on the requested facts. *)
Theorem acl_detour_settled_when_requested (g : PolicyGeneration.t) (rs : list acl_rule)
    (dflt : rule_action) (p : acl_policy) (f f' : policy_facts) (d : UpstreamEndpoint.t)
    (Hnew : acl_policy_new g rs dflt = Ok p) (Hx : extends f f')
    (Hact : Decision.action (evaluate p f') = TcpDetour d) :
  Decision.action (evaluate p f) = TcpDetour d.
Proof. apply acl_policy_new_Ok in Hnew as [_ Hwf]. by eapply detour_settled. Qed.

(** The evidence of one evaluation accounts for every rule: the rules it counts as
    evaluated are a prefix [seen] of the policy, each recorded with its own
    outcome (the first 64 individually, all of them in the counters), the
    selected index is the last of them, and the decision's trace names that
    rule, or none when the whole list was evaluated without a match. *)
Theorem acl_evidence_accounts (p : acl_policy) (f : policy_facts) :
  exists seen rest d ev,
  evaluate_with_definition p f = (d, DefAcl ev) /\ rules p = seen ++ rest
  /\ AclEvaluation.evaluated ev = length seen
  /\ AclEvaluation.results ev = bounded_results (map (outcome f) seen)
  /\ AclEvaluation.evaluated ev
     = AclEvaluation.did_not_match ev + AclEvaluation.unavailable ev
       + match AclEvaluation.selected ev with Some _ => 1 | None => 0 end
  /\ match AclEvaluation.selected_rule ev with
     | Some r => AclEvaluation.selected_ordinal ev = Some (length seen)
                 /\ last seen = Some r
                 /\ matched_rule (Decision.trace d) = Some (rule_id r)
     | None => rest = [] /\ matched_rule (Decision.trace d) = None
     end.
Proof.
  unfold evaluate_with_definition.
  destruct (evaluate_rules p f (rules p) _) as [d ev'] eqn:He.
  eapply (evaluate_rules_evidence p f (rules p) []) in He as (seen & rest & Hp & [H1 H2 H3 H4 H5] & Hm);
    [|by split|done].
  exists seen, rest, d, ev'. cbn [app] in *. split_and!; try done.
  - by rewrite H3, length_map.
  - rewrite H3, H4, H5. destruct (AclEvaluation.selected ev') as [k|].
    + destruct Hm as (before & r & -> & -> & _ & Hb & Hr). apply selected_outcome in Hr.
      apply count_outcomes in Hb. rewrite map_app. cbn [map].
      rewrite length_app, !count_results_snoc, Hr. repeat case_decide; try done. cbn. lia.
    + destruct Hm as (_ & _ & Hs). apply count_outcomes in Hs. lia.
  - unfold AclEvaluation.selected_rule, AclEvaluation.selected_ordinal. rewrite H1.
    destruct (AclEvaluation.selected ev') as [k|]; cbn; [|by destruct Hm as (-> & ? & _)].
    destruct Hm as (before & r & Hs & -> & Hm & _). cbn.
    rewrite Hp, Hs, <- app_assoc. cbn [app]. rewrite list_lookup_middle by done.
    rewrite length_app, last_snoc. cbn. split_and!; [f_equal; lia|done|done].
Qed.
End Properties.

(** * Examples *)
Section Examples.
#[local] Existing Instance host_nets.

Definition honeypot : UpstreamEndpoint.t :=
  UpstreamEndpoint.Make (Ip (ipv4 192 0 2 9)) (Port.Make 2222).
Definition ex_detour : acl_rule :=
  AclRule (RuleId.Make (bs "trap")) (All [MatchProtocol Tcp; SourceIp (ipv4 192 0 2 1)])
    (RuleDetour honeypot).
Definition ex_deny : acl_rule :=
  AclRule (RuleId.Make (bs "no-ip")) (Not (DestinationIp (ipv4 198 51 100 7))) RuleDeny.
Definition ex_rules : list acl_rule := [ex_detour; ex_deny].
Definition ex_policy : acl_policy := AclPolicy PolicyGeneration.INITIAL ex_rules RuleAllow.
Definition ex_requested (source : ip_addr) : requested_facts :=
  RequestedTargetFacts source (Ip (ipv4 198 51 100 7)) (Port.Make 22) Tcp.
Definition ex_resolved (source : ip_addr) : resolved_facts :=
  ResolvedTargetFacts (ex_requested source) (ipv4 198 51 100 7).

Lemma acl_definite_results_persist_witness :
  t_refines TU (verdict (evaluate_expression (rule_matcher ex_deny) (Resolved (ex_resolved (ipv4 192 0 2 1))))).
Proof.
  exact (proj1 (acl_definite_results_persist (rule_matcher ex_deny)
    (Requested (ex_requested (ipv4 192 0 2 1))) (Resolved (ex_resolved (ipv4 192 0 2 1)))
    (extends_resolved (ex_resolved (ipv4 192 0 2 1))))).
Defined.
Lemma acl_detour_only_tcp_witness :
  exists r, r ∈ ex_rules /\ rule_act r = RuleDetour honeypot
    /\ matched_rule (Decision.trace (evaluate ex_policy (Requested (ex_requested (ipv4 192 0 2 1)))))
       = Some (rule_id r).
Proof.
  refine (proj2 (acl_detour_only_tcp PolicyGeneration.INITIAL ex_rules RuleAllow ex_policy
    (Requested (ex_requested (ipv4 192 0 2 1))) honeypot _ _)); vm_compute; reflexivity.
Defined.
Lemma acl_detour_settled_when_requested_witness :
  Decision.action (evaluate ex_policy (Requested (ex_requested (ipv4 192 0 2 1)))) = TcpDetour honeypot.
Proof.
  apply (acl_detour_settled_when_requested PolicyGeneration.INITIAL ex_rules RuleAllow ex_policy
    (Requested (ex_requested (ipv4 192 0 2 1))) (Resolved (ex_resolved (ipv4 192 0 2 1))) honeypot).
  - vm_compute. reflexivity.
  - exact (extends_resolved (ex_resolved (ipv4 192 0 2 1))).
  - vm_compute. reflexivity.
Defined.
End Examples.
