(* ===== verification/Guard.v ===== *)
(** The built-in destination guard (crates/freja-policy/src/destination.rs):
    sensitive address classes of resolved destinations and their precedence. *)
From stdpp Require Import gmap strings.
From stdpp Require Import prelude.
From S2P Require Import Prelude Bytes Net Endpoint Domain PolicyModel.

Definition EC2_IPV4_METADATA_ADDRESS : ip_addr := ipv4 169 254 169 254.
Definition ALIBABA_IPV4_METADATA_ADDRESS : ip_addr := ipv4 100 100 100 200.
Definition EC2_IPV6_METADATA_ADDRESS : ip_addr :=
  V6 [0xfd00; 0x0ec2; 0; 0; 0; 0; 0; 0x0254]%N.

Inductive destination_access : Type := Protect | AccessAllow.
#[export] Instance destination_access_eq_dec : EqDecision destination_access.
Proof. solve_decision. Defined.
Record guard_settings : Type := DestinationGuardSettings {
  set_private : destination_access;
  set_link_local : destination_access;
  set_loopback : destination_access;
  set_metadata : destination_access }.
(** [DestinationGuardSettings::default]. *)
Definition default_settings : guard_settings :=
  DestinationGuardSettings Protect Protect Protect Protect.

(** [IpAddr] equality is by family and value; both metadata lists are per family. *)
Definition is_unroutable (ip : ip_addr) : bool := is_unspecified ip || is_multicast ip.
Definition is_link_local (ip : ip_addr) : bool := is_link_local_std ip.
Definition is_private (ip : ip_addr) : bool := is_private_std ip.
Definition is_metadata (ip : ip_addr) : bool :=
  match ip with
  | V4 _ _ _ _ =>
      bool_decide (ip = EC2_IPV4_METADATA_ADDRESS)
      || bool_decide (ip = ALIBABA_IPV4_METADATA_ADDRESS)
  | V6 _ => bool_decide (ip = EC2_IPV6_METADATA_ADDRESS)
  end.

Module DestinationGuard.
Section Guard.
Context `{IpNet}.

Record t : Type := Make {
  settings : guard_settings;
  loopback_rule : RuleId.t;
  link_local_rule : RuleId.t;
  private_rule : RuleId.t;
  metadata_rule : RuleId.t;
  unroutable_rule : RuleId.t }.

Definition built_in_rule (value : bytes) : result policy_error RuleId.t :=
  map_err BuiltInRule (RuleId.new value).
Definition new (s : guard_settings) : result policy_error t :=
  lo ← built_in_rule (bs "protect-loopback-destination");
  ll ← built_in_rule (bs "protect-link-local-destination");
  pr ← built_in_rule (bs "protect-private-destination");
  me ← built_in_rule (bs "protect-metadata-destination");
  un ← built_in_rule (bs "protect-unroutable-destination");
  Ok (Make s lo ll pr me un).

Definition deny_decision (g : PolicyGeneration.t) (f : resolved_facts) (matched : RuleId.t)
    (address_class : bytes) : Decision.t :=
  let action :=
    match facts_protocol (resolved_requested f) with
    | Http => HttpReject Forbidden
    | Tcp => TcpClose Graceful
    end in
  Decision.new action g ResolvedDestination (Some matched)
    [MatchReason (bs "destination-address-class")
       (show_ip (resolved_ip f) ++ bs " (" ++ address_class ++ bs ")")].

Definition protects (a : destination_access) : bool := bool_decide (a = Protect).
(** The chain of conditions of [evaluate_with_definition]. *)
Definition matched (d : t) (address : ip_addr) : option (RuleId.t * bytes * bytes) :=
  if is_unroutable address then
    Some (unroutable_rule d, bs "unroutable",
      bs "resolved IPv4/IPv6 address is unspecified OR multicast; always protected")
  else if is_metadata address && protects (set_metadata (settings d)) then
    Some (metadata_rule d, bs "metadata-service",
      bs "metadata = protect AND resolved address IN [169.254.169.254, 100.100.100.200, fd00:ec2::254]")
  else if is_loopback address && protects (set_loopback (settings d)) then
    Some (loopback_rule d, bs "loopback",
      bs "loopback = protect AND resolved address IN [127.0.0.0/8, ::1/128]")
  else if is_link_local address && protects (set_link_local (settings d)) then
    Some (link_local_rule d, bs "link-local",
      bs "link_local = protect AND resolved address IN [169.254.0.0/16, fe80::/10]")
  else if is_private address && protects (set_private (settings d)) then
    Some (private_rule d, bs "private",
      bs "private = protect AND resolved address IN [10.0.0.0/8, 172.16.0.0/12, 192.168.0.0/16, fc00::/7]")
  else None.
Definition evaluate_with_definition (d : t) (g : PolicyGeneration.t) (f : resolved_facts)
  : option (Decision.t * rule_definition) :=
  '(rule, class, condition) ← matched d (resolved_ip f);
  Some (deny_decision g f rule class, DefDestinationGuard condition).
Definition evaluate (d : t) (g : PolicyGeneration.t) (f : resolved_facts) : option Decision.t :=
  fst <$> evaluate_with_definition d g f.
End Guard.
End DestinationGuard.

(** * Reference: the address classes as blocks of the address space *)

(** Numeric value and width of an address, and membership in a CIDR block. *)
Definition ip_width (ip : ip_addr) : N := match ip with V4 _ _ _ _ => 32 | V6 _ => 128 end%N.
Definition ip_value (ip : ip_addr) : N :=
  match ip with
  | V4 a b c d => ((byte_val a * 256 + byte_val b) * 256 + byte_val c) * 256 + byte_val d
  | V6 s => foldl (fun acc g => acc * 65536 + g) 0 s
  end%N.
Record cidr : Type := Cidr { base : ip_addr; prefix_len : N }.
Definition in_cidr (ip : ip_addr) (c : cidr) : bool :=
  let host_bits := (ip_width ip - prefix_len c)%N in
  (ip_width ip =? ip_width (base c))%N
  && (ip_value ip / 2 ^ host_bits =? ip_value (base c) / 2 ^ host_bits)%N.

Inductive address_class : Type := Unroutable | Metadata | Loopback | LinkLocal | Private.
(** Precedence of the classes, most specific explanation first. *)
Definition classes : list address_class := [Unroutable; Metadata; Loopback; LinkLocal; Private].
Definition v6_0 (first : N) : ip_addr := V6 (first :: replicate 7 0%N).
Definition class_blocks (c : address_class) : list cidr :=
  match c with
  | Unroutable =>
      [Cidr (ipv4 0 0 0 0) 32; Cidr (v6_0 0) 128; Cidr (ipv4 224 0 0 0) 4; Cidr (v6_0 0xff00) 8]
  | Metadata =>
      [Cidr EC2_IPV4_METADATA_ADDRESS 32; Cidr ALIBABA_IPV4_METADATA_ADDRESS 32;
       Cidr EC2_IPV6_METADATA_ADDRESS 128]
  | Loopback => [Cidr (ipv4 127 0 0 0) 8; Cidr (V6 [0; 0; 0; 0; 0; 0; 0; 1]%N) 128]
  | LinkLocal => [Cidr (ipv4 169 254 0 0) 16; Cidr (v6_0 0xfe80) 10]
  | Private =>
      [Cidr (ipv4 10 0 0 0) 8; Cidr (ipv4 172 16 0 0) 12; Cidr (ipv4 192 168 0 0) 16;
       Cidr (v6_0 0xfc00) 7]
  end%N.
Definition class_protected (s : guard_settings) (c : address_class) : bool :=
  match c with
  | Unroutable => true
  | Metadata => bool_decide (set_metadata s = Protect)
  | Loopback => bool_decide (set_loopback s = Protect)
  | LinkLocal => bool_decide (set_link_local s = Protect)
  | Private => bool_decide (set_private s = Protect)
  end.
Definition in_class (ip : ip_addr) (c : address_class) : bool :=
  existsb (in_cidr ip) (class_blocks c).
Definition class_rule (c : address_class) : RuleId.t :=
  RuleId.Make
    match c with
    | Unroutable => bs "protect-unroutable-destination"
    | Metadata => bs "protect-metadata-destination"
    | Loopback => bs "protect-loopback-destination"
    | LinkLocal => bs "protect-link-local-destination"
    | Private => bs "protect-private-destination"
    end.
Definition class_name (c : address_class) : bytes :=
  match c with
  | Unroutable => bs "unroutable"
  | Metadata => bs "metadata-service"
  | Loopback => bs "loopback"
  | LinkLocal => bs "link-local"
  | Private => bs "private"
  end.

(** * Lemmas *)

Lemma byte_val_lt b : (byte_val b < 256)%N.
Proof. byte_cases b; reflexivity. Qed.
Lemma byte_val_inj a b : byte_val a = byte_val b -> a = b.
Proof.
  intros Hv. rewrite <- (Ascii.ascii_N_embedding a), <- (Ascii.ascii_N_embedding b).
  unfold byte_val in Hv. by rewrite Hv.
Qed.

(** Masks of the first segment are divisions, by enumeration of its 2^16 values. *)
Fixpoint check_range (P : N -> bool) (count : nat) (i : N) : bool :=
  match count with 0 => true | S count => P i && check_range P count (N.succ i) end.
Lemma check_range_spec P count i :
  check_range P count i = true -> forall s, (i <= s < i + N.of_nat count)%N -> P s = true.
Proof.
  revert i; induction count as [|count IH]; intros i; cbn [check_range]; [lia|].
  rewrite andb_true_iff. intros [Hi Hc] s Hs. destruct (N.eq_dec s i) as [->|]; [done|].
  apply (IH (N.succ i) Hc). lia.
Qed.
Lemma mask_check (mask base shift : N) :
  check_range (fun s =>
    Bool.eqb (N.land s mask =? base)%N (s / 2 ^ shift =? base / 2 ^ shift)%N)
    (N.to_nat 65536) 0 = true ->
  forall s, (s <= u16_max)%N ->
  (N.land s mask =? base)%N = (s / 2 ^ shift =? base / 2 ^ shift)%N.
Proof.
  intros Hc s Hs. apply Bool.eqb_prop.
  apply (check_range_spec _ _ _ Hc s). unfold u16_max in Hs. lia.
Qed.

Ltac v4_bytes :=
  repeat match goal with
  | |- context [byte_val ?x] =>
      lazymatch goal with
      | _ : (byte_val x < 256)%N |- _ => fail
      | _ => pose proof (byte_val_lt x)
      end
  end.
Lemma v4_block a b c d n base :
  in_cidr (V4 a b c d) (Cidr base n)
  = match base with
    | V4 _ _ _ _ => (ip_value (V4 a b c d) / 2 ^ (32 - n) =? ip_value base / 2 ^ (32 - n))%N
    | V6 _ => false
    end.
Proof. destruct base; reflexivity. Qed.
Lemma v4_equal a b c d w x y z :
  (w < 256)%N -> (x < 256)%N -> (y < 256)%N -> (z < 256)%N ->
  bool_decide (V4 a b c d = ipv4 w x y z) = in_cidr (V4 a b c d) (Cidr (ipv4 w x y z) 32).
Proof.
  intros Hw Hx Hy Hz. rewrite v4_block. unfold ipv4. cbn [ip_value].
  rewrite !byte_val_of, N.sub_diag, !N.div_1_r by done. v4_bytes.
  apply eq_bool_prop_intro. rewrite bool_decide_spec. split.
  - intros [= -> -> -> ->]. rewrite !byte_val_of by done. by apply Is_true_true, N.eqb_refl.
  - intros He%Is_true_true%N.eqb_eq. f_equal; apply byte_val_inj; rewrite byte_val_of by done; lia.
Qed.

(** A V4 block test is arithmetic on the leading octets. *)
Ltac v4_class :=
  cbn [existsb in_class class_blocks]; rewrite !v4_block;
  unfold ipv4, v6_0; cbn [ip_value]; rewrite !byte_val_of by lia;
  repeat match goal with
  | |- context [(2 ^ (32 - ?n))%N] =>
      let v := eval vm_compute in (2 ^ (32 - n))%N in change (2 ^ (32 - n))%N with v
  end; v4_bytes.
Lemma v4_metadata a b c d : is_metadata (V4 a b c d) = in_class (V4 a b c d) Metadata.
Proof.
  unfold is_metadata, EC2_IPV4_METADATA_ADDRESS, ALIBABA_IPV4_METADATA_ADDRESS.
  rewrite !v4_equal by lia. unfold in_class. cbn [class_blocks existsb].
  unfold EC2_IPV6_METADATA_ADDRESS. rewrite (v4_block _ _ _ _ 128).
  by rewrite !orb_false_r.
Qed.
Lemma bool_eq_iff (a b : bool) : (a = true <-> b = true) -> a = b.
Proof. destruct a, b; naive_solver. Qed.
#[local] Ltac Zify.zify_post_hook ::= Z.to_euclidean_division_equations.
Ltac bool_arith :=
  apply bool_eq_iff; unfold byte_in;
  rewrite ?orb_true_iff, ?andb_true_iff, ?N.eqb_eq, ?N.leb_le; lia.
Lemma v4_loopback a b c d : is_loopback (V4 a b c d) = in_class (V4 a b c d) Loopback.
Proof. v4_class. cbn [is_loopback]. rewrite !orb_false_r. bool_arith. Qed.
Lemma v4_link_local a b c d : is_link_local (V4 a b c d) = in_class (V4 a b c d) LinkLocal.
Proof. v4_class. unfold is_link_local. cbn [is_link_local_std]. rewrite !orb_false_r. bool_arith. Qed.
Lemma v4_private a b c d : is_private (V4 a b c d) = in_class (V4 a b c d) Private.
Proof. v4_class. unfold is_private. cbn [is_private_std]. rewrite !orb_false_r. bool_arith. Qed.
Lemma v4_unroutable a b c d : is_unroutable (V4 a b c d) = in_class (V4 a b c d) Unroutable.
Proof.
  unfold is_unroutable. cbn [is_unspecified is_multicast]. rewrite v4_equal by lia.
  unfold in_class. cbn [existsb class_blocks]. f_equal.
  v4_class. rewrite !orb_false_r. cbn [orb]. bool_arith.
Qed.

(** An IPv6 block is a test of the first segment, or equality for a full prefix. *)
Lemma v6_value_inj (s t : list N) (a b : N) :
  length s = length t -> Forall (fun g => g <= u16_max)%N s -> Forall (fun g => g <= u16_max)%N t ->
  foldl (fun acc g => acc * 65536 + g)%N a s = foldl (fun acc g => acc * 65536 + g)%N b t ->
  a = b /\ s = t.
Proof.
  revert t a b; induction s as [|g s IH]; intros [|h t] a b Hl Hs Ht He; try done.
  apply Forall_cons in Hs as [Hg Hs]. apply Forall_cons in Ht as [Hh Ht].
  cbn [foldl] in He. injection Hl as Hl. destruct (IH t _ _ Hl Hs Ht He) as [Hv ->].
  unfold u16_max in *. assert (a = b) as -> by lia. split; [done|]. f_equal. lia.
Qed.
Lemma v6_full (s t : list N) :
  ip_wf (V6 s) -> ip_wf (V6 t) -> in_cidr (V6 s) (Cidr (V6 t) 128) = bool_decide (s = t).
Proof.
  intros [Hls Hs] [Hlt Ht]. unfold in_cidr. cbn [ip_width base prefix_len].
  rewrite N.sub_diag, !N.div_1_r. cbn [N.eqb andb].
  apply bool_eq_iff. rewrite andb_true_iff, !N.eqb_eq, bool_decide_eq_true. split; [|by intros ->].
  intros [_ Hv]. eapply (v6_value_inj s t 0 0); [congruence|done|done|exact Hv].
Qed.
Lemma v6_value_first (s : list N) (a : N) :
  Forall (fun g => g <= u16_max)%N s ->
  (foldl (fun acc g => acc * 65536 + g) a s / 65536 ^ lenN s = a)%N.
Proof.
  revert a; induction s as [|g s IH]; intros a Hs; cbn [foldl]; [apply N.div_1_r|].
  apply Forall_cons in Hs as [Hg Hs]. unfold lenN. cbn [length].
  rewrite Nat2N.inj_succ, N.pow_succ_r', (N.mul_comm 65536 (_ ^ _)), <- N.Div0.div_div.
  fold (lenN s). rewrite IH by done. unfold u16_max in *. lia.
Qed.
Lemma v6_first (s0 b0 n : N) (s : list N) :
  ip_wf (V6 (s0 :: s)) -> (n <= 16)%N ->
  in_cidr (V6 (s0 :: s)) (Cidr (v6_0 b0) n) = (s0 / 2 ^ (16 - n) =? b0 / 2 ^ (16 - n))%N.
Proof.
  intros [Hl Hs] Hn. apply Forall_cons in Hs as [_ Hs]. injection Hl as Hl.
  assert (H7 : forall a t, length t = 7 -> Forall (fun g => g <= u16_max)%N t ->
    (ip_value (V6 (a :: t)) / 2 ^ (128 - n) = a / 2 ^ (16 - n))%N).
  { intros a t Hlt Ht. cbn [ip_value foldl]. rewrite N.mul_0_l, N.add_0_l.
    replace (128 - n)%N with (112 + (16 - n))%N by lia.
    rewrite N.pow_add_r, <- N.Div0.div_div. f_equal.
    replace (2 ^ 112)%N with (65536 ^ lenN t)%N; [by apply v6_value_first|].
    unfold lenN. by rewrite Hlt. }
  unfold in_cidr, v6_0. cbn [ip_width base prefix_len]. cbn [N.eqb andb].
  rewrite !H7 by (done || (repeat constructor; lia)). reflexivity.
Qed.

Lemma v6_not_v4 s b n : in_cidr (V6 s) (Cidr b n) = match b with V4 _ _ _ _ => false | V6 _ => in_cidr (V6 s) (Cidr b n) end.
Proof. by destruct b. Qed.
Ltac const_wf := split; [reflexivity|repeat (constructor; [apply N.leb_le; reflexivity|]); constructor].
Lemma first_masks (s0 : N) (s : list N) :
  (s0 <= u16_max)%N ->
  (N.land (segment 0 (s0 :: s)) 0xff00 =? 0xff00)%N = (s0 / 2 ^ 8 =? 0xff00 / 2 ^ 8)%N /\
  (N.land (segment 0 (s0 :: s)) 0xffc0 =? 0xfe80)%N = (s0 / 2 ^ 6 =? 0xfe80 / 2 ^ 6)%N /\
  (N.land (segment 0 (s0 :: s)) 0xfe00 =? 0xfc00)%N = (s0 / 2 ^ 9 =? 0xfc00 / 2 ^ 9)%N.
Proof.
  intros Hs. split_and!; (apply mask_check; [vm_compute; reflexivity|exact Hs]).
Qed.
Lemma v6_classes s (c : address_class) :
  ip_wf (V6 s) ->
  in_class (V6 s) c =
  match c with
  | Unroutable => is_unroutable (V6 s)
  | Metadata => is_metadata (V6 s)
  | Loopback => is_loopback (V6 s)
  | LinkLocal => is_link_local (V6 s)
  | Private => is_private (V6 s)
  end.
Proof.
  intros Hwf. pose proof Hwf as [Hl Hs]. destruct s as [|s0 s]; [done|].
  apply Forall_cons in Hs as [H0 _]. destruct (first_masks s0 s H0) as (Hm & Hll & Hp).
  unfold in_class, is_unroutable, is_link_local, is_private. destruct c;
    cbn [class_blocks existsb is_unspecified is_multicast is_metadata is_loopback is_link_local_std
         is_private_std];
    unfold ipv4, EC2_IPV4_METADATA_ADDRESS, ALIBABA_IPV4_METADATA_ADDRESS, ipv4,
      EC2_IPV6_METADATA_ADDRESS; rewrite ?(v6_not_v4 _ (V4 _ _ _ _)), ?orb_false_r, ?orb_false_l.
  - change (v6_0 0) with (V6 (replicate 8 0%N)). rewrite v6_full by (done || const_wf).
    rewrite v6_first by (done || lia).
    by rewrite Hm.
  - rewrite v6_full by (done || const_wf). apply bool_decide_ext. split; congruence.
  - by rewrite v6_full by (done || const_wf).
  - rewrite v6_first by (done || lia). by rewrite Hll.
  - rewrite v6_first by (done || lia). by rewrite Hp.
Qed.
Lemma in_class_code ip c :
  ip_wf ip ->
  in_class ip c =
  match c with
  | Unroutable => is_unroutable ip
  | Metadata => is_metadata ip
  | Loopback => is_loopback ip
  | LinkLocal => is_link_local ip
  | Private => is_private ip
  end.
Proof.
  destruct ip as [a b c' d|s]; [|apply v6_classes]. intros _. symmetry. destruct c.
  - apply v4_unroutable.
  - apply v4_metadata.
  - apply v4_loopback.
  - apply v4_link_local.
  - apply v4_private.
Qed.
Definition compiled `{IpNet} (s : guard_settings) : DestinationGuard.t :=
  DestinationGuard.Make s (class_rule Loopback) (class_rule LinkLocal) (class_rule Private)
    (class_rule Metadata) (class_rule Unroutable).
Lemma guard_new `{IpNet} s : DestinationGuard.new s = Ok (compiled s).
Proof. reflexivity. Qed.

(** * Properties *)
Section Properties.
Context `{IpNet}.

Lemma guard_exact (s : guard_settings) (g : PolicyGeneration.t) (f : resolved_facts) : ip_wf (resolved_ip f) ->
  DestinationGuard.evaluate (compiled s) g f
  = match List.find (fun c => class_protected s c && in_class (resolved_ip f) c) classes with
    | Some c => Some (DestinationGuard.deny_decision g f (class_rule c) (class_name c))
    | None => None
    end.
Proof.
  intros Hwf. cbn [classes List.find].
  rewrite !in_class_code by done.
  unfold DestinationGuard.evaluate, DestinationGuard.evaluate_with_definition,
    DestinationGuard.matched, DestinationGuard.protects.
  cbn [class_protected compiled DestinationGuard.settings].
  rewrite !(andb_comm (bool_decide _)), andb_true_l. repeat case_if; reflexivity.
Qed.
(** What the guard lets pass is in no protected block. *)
Lemma guard_passes (s : guard_settings) (g : PolicyGeneration.t) (f : resolved_facts) (c : address_class) :
  ip_wf (resolved_ip f) -> DestinationGuard.evaluate (compiled s) g f = None -> class_protected s c = true -> in_class (resolved_ip f) c = false.
Proof.
  intros Hwf Hnone Hc. rewrite guard_exact in Hnone by done. destruct (List.find _ classes) eqn:Ef; [done|].
  pose proof (List.find_none _ _ Ef c ltac:(destruct c; cbn; tauto)) as Hf. cbv beta in Hf. by rewrite Hc in Hf.
Qed.
(** C25. The guard always compiles, and denies a resolved destination exactly when its
    address lies in the CIDR blocks of a class that is not opened by the settings;
    the unroutable class cannot be opened. With several such classes the decision
    explains the first of unroutable, metadata, loopback, link-local, private. *)
Theorem guard_denies_protected_blocks (s : guard_settings) (g : PolicyGeneration.t)
    (f : resolved_facts) (Hwf : ip_wf (resolved_ip f)) :
  exists d, DestinationGuard.new s = Ok d /\
  DestinationGuard.evaluate d g f
  = match List.find (fun c => class_protected s c && in_class (resolved_ip f) c) classes with
    | Some c => Some (DestinationGuard.deny_decision g f (class_rule c) (class_name c))
    | None => None
    end.
Proof. exists (compiled s). split; [apply guard_new|by apply guard_exact]. Qed.

(** The guard never fires for an IPv4-mapped IPv6 address: every protected IPv4
    address, metadata and loopback included, passes when it is written in the
    mapped form [::ffff:a.b.c.d], which names the same host. *)
Theorem guard_passes_mapped_addresses (s : guard_settings) (g : PolicyGeneration.t)
    (req : requested_facts) (hi lo : N) :
  exists d, DestinationGuard.new s = Ok d /\
  DestinationGuard.evaluate d g
    (ResolvedTargetFacts req (V6 [0; 0; 0; 0; 0; 0xffff; hi; lo]%N)) = None.
Proof. exists (compiled s). split; [apply guard_new|]. reflexivity. Qed.
End Properties.

Lemma guard_denies_protected_blocks_witness :
  exists d, @DestinationGuard.new default_settings = Ok d /\
  @DestinationGuard.evaluate host_nets d PolicyGeneration.INITIAL
    (ResolvedTargetFacts
       (RequestedTargetFacts (ipv4 192 0 2 1) (Ip EC2_IPV4_METADATA_ADDRESS) (Port.Make 80) Tcp)
       EC2_IPV4_METADATA_ADDRESS)
  = Some (DestinationGuard.deny_decision PolicyGeneration.INITIAL
      (ResolvedTargetFacts
         (RequestedTargetFacts (ipv4 192 0 2 1) (Ip EC2_IPV4_METADATA_ADDRESS) (Port.Make 80) Tcp)
         EC2_IPV4_METADATA_ADDRESS)
      (class_rule Metadata) (bs "metadata-service")).
Proof.
  apply (@guard_denies_protected_blocks host_nets default_settings PolicyGeneration.INITIAL
    (ResolvedTargetFacts
       (RequestedTargetFacts (ipv4 192 0 2 1) (Ip EC2_IPV4_METADATA_ADDRESS) (Port.Make 80) Tcp)
       EC2_IPV4_METADATA_ADDRESS)).
  exact I.
Defined.
