(* ===== verification/Inspection.v ===== *)
(** Streaming inspection (crates/freja-policy/src/inspection.rs): the detector
    program, the per-direction scanner with its carried suffix, and the policy
    decision of a finding. *)
From stdpp Require Import gmap strings.
From stdpp Require Import prelude.
From S2P Require Import Prelude Bytes Net Endpoint Domain PolicyModel.

(** The [sha2] crate's digest, a third-party dependency. *)
Class Sha256 : Type := sha256 : bytes -> bytes.

Module InspectionProgram.
Record t : Type := Make {
  generation : PolicyGeneration.t;
  patterns : list InspectionPattern.t;
  maximum_pattern_bytes : nat }.

(** Loop of [new]: [ids] is the [HashSet] of detector identities. *)
Fixpoint check_patterns (ids : gset bytes) (maximum : nat) (ps : list InspectionPattern.t)
  : result inspection_error nat :=
  match ps with
  | [] => Ok maximum
  | p :: ps =>
      let id := InspectionPattern.detector_id p in
      if decide (DetectorId.as_str id ∈ ids) then Err (DuplicateDetector id)
      else check_patterns ({[ DetectorId.as_str id ]} ∪ ids)
             (Nat.max maximum (length (InspectionPattern.bytes_ p))) ps
  end.
Definition new (g : PolicyGeneration.t) (ps : list InspectionPattern.t)
  : result inspection_error t :=
  maximum ← check_patterns ∅ 0 ps; Ok (Make g ps maximum).
Definition empty (g : PolicyGeneration.t) : t := Make g [] 0.

Section Evaluate.
Context `{IpNet}.
Definition evaluate_with_definition (program : t) (f : finding) (p : protocol)
  : Decision.t * rule_definition :=
  let matched :=
    List.find (fun pattern =>
      bool_decide (InspectionPattern.detector_id pattern = Domain.detector_id f)) (patterns program) in
  let '(rule, action) :=
    match matched with
    | None => (None, RuleAllow)
    | Some pattern => (Some (InspectionPattern.rule_id pattern), InspectionPattern.action pattern)
    end in
  let action :=
    match action, p with
    | RuleAllow, _ | RuleDetour _, _ => Allow
    | RuleDeny, Http => HttpReject Forbidden
    | RuleDeny, Tcp => TcpClose Graceful
    end in
  (Decision.new action (generation program) StageStreaming rule
     [MatchReason (bs "detector-finding") (DetectorId.as_str (Domain.detector_id f))],
   match matched with None => DefInspectionDefault | Some pattern => DefInspection pattern end).
Definition evaluate (program : t) (f : finding) (p : protocol) : Decision.t :=
  (evaluate_with_definition program f p).1.
End Evaluate.
End InspectionProgram.

(** [haystack.windows(needle.len())] filtered by equality; [windows] panics on a
    zero length, which [InspectionPattern::new] excludes. *)
Definition match_offsets (haystack needle : bytes) : list nat := occurrences_from 0 needle haystack.

Section Scanner.
Context `{Sha256}.

Definition scan_finding (p : InspectionPattern.t) (d : direction) (base_offset : N) (start end_ : nat)
  : finding :=
  Finding (InspectionPattern.detector_id p) (InspectionPattern.severity p)
    (InspectionPattern.confidence p) d
    (res_ok (ByteRange.new (sat_add base_offset (N.of_nat start)) (sat_add base_offset (N.of_nat end_))))
    (EvidenceHash (sha256 (InspectionPattern.bytes_ p))) (InspectionPattern.tags p).
End Scanner.

Module StreamScanner.
Record t : Type := Make {
  program : InspectionProgram.t;
  scan_direction : direction;
  carry : bytes;
  processed_bytes : N }.
(** [InspectionProgram::scanner]. *)
Definition scanner (program : InspectionProgram.t) (d : direction) : t := Make program d [] 0.

Section Inspect.
Context `{Sha256}.
(** The loop over one pattern's offsets in [inspect]; lengths of slices are exact. *)
Definition pattern_findings (s : t) (searchable : bytes) (base_offset : N) (p : InspectionPattern.t)
  : list finding :=
  if InspectionPattern.applies_to p (scan_direction s) then
    omap (fun start =>
      let end_ := start + length (InspectionPattern.bytes_ p) in
      if decide (end_ <= length (carry s)) then None
      else Some (scan_finding p (scan_direction s) base_offset start end_))
      (match_offsets searchable (InspectionPattern.bytes_ p))
  else [].
Definition inspect (s : t) (chunk : bytes) : list finding * t :=
  let maximum := InspectionProgram.maximum_pattern_bytes (program s) in
  let processed := sat_add (processed_bytes s) (lenN chunk) in
  if bool_decide (chunk = []) || bool_decide (maximum = 0) then
    ([], Make (program s) (scan_direction s) (carry s) processed)
  else
    let searchable := carry s ++ chunk in
    let base_offset := (processed_bytes s - lenN (carry s))%N in
    let findings :=
      mbind (pattern_findings s searchable base_offset) (InspectionProgram.patterns (program s)) in
    let keep_from := length searchable - (maximum - 1) in
    (findings, Make (program s) (scan_direction s) (drop keep_from searchable) processed).
(** The findings of a stream delivered as a sequence of chunks. *)
Fixpoint inspect_all (s : t) (chunks : list bytes) : list finding * t :=
  match chunks with
  | [] => ([], s)
  | c :: chunks =>
      let '(f, s) := inspect s c in
      let '(fs, s) := inspect_all s chunks in (f ++ fs, s)
  end.
End Inspect.
End StreamScanner.

(** * Occurrences *)

Lemma occurrences_shift i j needle l :
  occurrences_from (i + j) needle l = map (Nat.add i) (occurrences_from j needle l).
Proof.
  revert j; induction l as [|b l IH]; intros j; cbn [occurrences_from].
  - rewrite !app_nil_r. by case_if.
  - rewrite map_app, <- IH, Nat.add_succ_r. by case_if.
Qed.
(** Occurrences are the offsets whose suffix starts with the needle, in order. *)
Definition occurs_at (needle text : bytes) (k : nat) : Prop := starts_with needle (drop k text) = true.
#[export] Instance occurs_at_dec needle text k : Decision (occurs_at needle text k).
Proof. unfold occurs_at. apply _. Defined.
Lemma filter_occurs_cons needle text k l :
  filter (occurs_at needle text) (k :: l)
  = (if starts_with needle (drop k text) then [k] else []) ++ filter (occurs_at needle text) l.
Proof.
  rewrite filter_cons. unfold occurs_at at 1. case_decide as Hs; unfold occurs_at in Hs;
    by destruct (starts_with needle (drop k text)).
Qed.
Lemma occurrences_seq needle text i :
  i <= length text ->
  occurrences_from i needle (drop i text)
  = filter (occurs_at needle text) (seq i (S (length text - i))).
Proof.
  intros Hi. remember (length text - i) as n eqn:Hn. revert i Hi Hn.
  induction n as [|n IH]; intros i Hi Hn; cbn [seq]; rewrite filter_occurs_cons.
  - assert (Hd : drop i text = []) by (apply drop_ge; lia).
    rewrite Hd. cbn [occurrences_from]. by rewrite filter_nil.
  - destruct (lookup_lt_is_Some_2 text i) as [b Hb]; [lia|].
    pose proof (drop_S _ b i Hb) as Hd. rewrite Hd. cbn [occurrences_from].
    by rewrite IH by lia.
Qed.
Lemma filter_seq_ext (P Q : nat -> Prop) `{forall k, Decision (P k), forall k, Decision (Q k)} i n :
  (forall k, i <= k < i + n -> (P k <-> Q k)) -> filter P (seq i n) = filter Q (seq i n).
Proof.
  revert i; induction n as [|n IH]; intros i HP; [done|]. cbn [seq]. rewrite !filter_cons.
  rewrite (IH (S i)) by (intros k Hk; apply HP; lia).
  specialize (HP i ltac:(lia)). repeat case_decide; naive_solver.
Qed.
Lemma filter_seq_none (P : nat -> Prop) `{forall k, Decision (P k)} i n :
  (forall k, i <= k < i + n -> ~ P k) -> filter P (seq i n) = [].
Proof.
  intros HP. rewrite (filter_seq_ext P (fun _ => False)) by (intros k Hk; specialize (HP k Hk); naive_solver).
  induction (seq i n) as [|k l IH]; [done|]. rewrite filter_cons. by case_decide.
Qed.
Lemma occurs_at_app needle s t k :
  k + length needle <= length s -> (occurs_at needle (s ++ t) k <-> occurs_at needle s k).
Proof.
  intros Hk. unfold occurs_at. rewrite !starts_with_spec, drop_app_le by lia. split.
  - intros (r & Hr). exists (drop (length needle) (drop k s)).
    rewrite <- (take_drop (length needle) (drop k s)) in Hr at 1. rewrite <- app_assoc in Hr.
    apply app_inj_1 in Hr as [Hn _]; [|rewrite length_take, length_drop; lia].
    rewrite <- Hn at 1. by rewrite take_drop.
  - intros (r & ->). exists (r ++ t). by rewrite app_assoc.
Qed.
Lemma occurs_at_length needle s k : needle <> [] -> occurs_at needle s k -> k + length needle <= length s.
Proof.
  unfold occurs_at. rewrite starts_with_spec. intros Hne (r & Hr).
  apply (f_equal length) in Hr. rewrite length_drop, length_app in Hr.
  destruct needle; [done|]. cbn in *. lia.
Qed.
(** Occurrences in a stream extended by one chunk: the old ones, then those that end
    inside the chunk, all of which start at or after [from]. *)
Definition new_occurrences (needle s t : bytes) : list nat :=
  let from := S (length s) - length needle in
  filter (occurs_at needle (s ++ t)) (seq from (S (length (s ++ t)) - from)).
Lemma occurrences_app needle s t :
  needle <> [] ->
  occurrences_from 0 needle (s ++ t) = occurrences_from 0 needle s ++ new_occurrences needle s t.
Proof.
  intros Hne. unfold new_occurrences. set (m := S (length s) - length needle).
  assert (Hl : 1 <= length needle) by (destruct needle; [done|cbn; lia]).
  rewrite <- (drop_0 (s ++ t)) at 1. rewrite <- (drop_0 s) at 2.
  rewrite !occurrences_seq, !Nat.sub_0_r by lia.
  assert (Hm : m <= length s) by lia.
  replace (S (length (s ++ t))) with (m + (S (length (s ++ t)) - m)) at 1
    by (rewrite length_app; lia).
  replace (S (length s)) with (m + (S (length s) - m)) by lia.
  rewrite !seq_app, !filter_app. cbn [Nat.add].
  rewrite (filter_seq_none (occurs_at needle s) m).
  2:{ intros k Hk Ho. apply occurs_at_length in Ho; [lia|done]. }
  rewrite app_nil_r. f_equal. apply filter_seq_ext. intros k Hk. apply occurs_at_app. lia.
Qed.
Lemma occurrences_suffix needle s t base :
  needle <> [] -> base <= S (length s) - length needle -> base <= length s ->
  filter (fun k => length s < k + length needle) (occurrences_from base needle (drop base (s ++ t)))
  = new_occurrences needle s t.
Proof.
  intros Hne Hb Hb'. unfold new_occurrences. set (m := S (length s) - length needle).
  assert (Hl : 1 <= length needle) by (destruct needle; [done|cbn; lia]).
  rewrite occurrences_seq by (rewrite length_app; lia).
  replace (S (length (s ++ t) - base)) with ((m - base) + (S (length (s ++ t)) - m))
    by (rewrite length_app; lia).
  rewrite seq_app, filter_app, filter_app.
  replace (base + (m - base)) with m by lia.
  rewrite list_filter_filter.
  rewrite (filter_seq_none _ base) by (intros k Hk [Hlt _]; lia). cbn [app].
  rewrite list_filter_filter. apply filter_seq_ext. intros k Hk.
  split; [by intros [_ ?]|]. intros Ho. split; [lia|done].
Qed.

(** * The scanner follows the stream *)

Lemma check_patterns_Ok ids m ps r :
  InspectionProgram.check_patterns ids m ps = Ok r ->
  NoDup (map InspectionPattern.detector_id ps)
  /\ (forall p, p ∈ ps -> DetectorId.as_str (InspectionPattern.detector_id p) ∉ ids)
  /\ m <= r /\ (forall p, p ∈ ps -> length (InspectionPattern.bytes_ p) <= r).
Proof.
  revert ids m; induction ps as [|p ps IH]; intros ids m; cbn [InspectionProgram.check_patterns map].
  { intros [= <-]. split_and!; [constructor|by intros ? ?%not_elem_of_nil|done|by intros ? ?%not_elem_of_nil]. }
  case_decide as Hin; [done|]. intros (Hnd & Hids & Hm & Hlen)%IH. split_and!.
  - constructor; [|done]. rewrite list_elem_of_In, in_map_iff. setoid_rewrite <- list_elem_of_In.
    intros (q & Hq & Hqin). apply (Hids q Hqin). rewrite Hq. set_solver.
  - intros q [->|Hq]%elem_of_cons; [done|]. specialize (Hids q Hq). set_solver.
  - lia.
  - intros q [->|Hq]%elem_of_cons; [lia|by apply Hlen].
Qed.
(** Programs whose patterns came from [InspectionPattern::new]. *)
Record program_wf (program : InspectionProgram.t) : Prop := {
  wf_distinct : NoDup (map InspectionPattern.detector_id (InspectionProgram.patterns program));
  wf_patterns : forall p, p ∈ InspectionProgram.patterns program ->
    InspectionPattern.bytes_ p <> [] /\
    length (InspectionPattern.bytes_ p) <= InspectionProgram.maximum_pattern_bytes program }.
Lemma inspection_program_new_wf g ps program :
  InspectionProgram.new g ps = Ok program ->
  Forall (fun p => InspectionPattern.bytes_ p <> []) ps ->
  program_wf program /\ InspectionProgram.patterns program = ps.
Proof.
  unfold InspectionProgram.new. intros (m & Hm & [= <-])%bind_Ok Hne.
  apply check_patterns_Ok in Hm as (Hnd & _ & _ & Hlen). rewrite Forall_forall in Hne.
  split; [|done]. split; [done|]. cbn. intros p Hp. split; [by apply Hne|by apply Hlen].
Qed.

Section Theory.
Context `{Sha256}.

(** Findings of one pattern in a whole stream: every occurrence once, in order. *)
Definition stream_finding (d : direction) (p : InspectionPattern.t) (k : nat) : finding :=
  scan_finding p d 0 k (k + length (InspectionPattern.bytes_ p)).
Definition stream_findings (d : direction) (stream : bytes) (p : InspectionPattern.t) : list finding :=
  if InspectionPattern.applies_to p d
  then map (stream_finding d p) (match_offsets stream (InspectionPattern.bytes_ p)) else [].

(** The scanner state after the bytes [stream]. *)
Record scanner_inv (program : InspectionProgram.t) (d : direction) (stream : bytes)
    (s : StreamScanner.t) : Prop := {
  inv_program : StreamScanner.program s = program;
  inv_direction : StreamScanner.scan_direction s = d;
  inv_carry : StreamScanner.carry s
    = drop (length stream - (InspectionProgram.maximum_pattern_bytes program - 1)) stream;
  inv_processed : StreamScanner.processed_bytes s = lenN stream }.

Lemma omap_ext {A B} (f g : A -> option B) (l : list A) : (forall a, f a = g a) -> omap f l = omap g l.
Proof.
  intros Hfg. induction l as [|a l IH]; [done|]. cbn [omap list_omap]. rewrite Hfg.
  fold (@omap list _). destruct (g a); [f_equal|]; exact IH.
Qed.
Lemma omap_new n cl base (F : nat -> finding) l :
  omap (fun start => if decide (start + n <= cl) then None else Some (F (base + start))) l
  = map F (filter (fun k => base + cl < k + n) (map (Nat.add base) l)).
Proof.
  induction l as [|k l IH]; [done|]. cbn [map]. rewrite filter_cons. cbn [omap list_omap].
  fold (@omap list _). repeat case_decide; try lia; cbn [map]; f_equal; exact IH.
Qed.
Lemma scan_finding_shift p d base k e :
  scan_finding p d (N.of_nat base) k e = scan_finding p d 0 (base + k) (base + e).
Proof. unfold scan_finding. rewrite !Nat2N.inj_add. by unfold sat_add; rewrite !N.add_0_l. Qed.

Lemma pattern_findings_new program d stream s chunk p :
  scanner_inv program d stream s -> InspectionPattern.bytes_ p <> [] ->
  length (InspectionPattern.bytes_ p) <= InspectionProgram.maximum_pattern_bytes program ->
  StreamScanner.pattern_findings s (StreamScanner.carry s ++ chunk)
    (StreamScanner.processed_bytes s - lenN (StreamScanner.carry s)) p
  = if InspectionPattern.applies_to p d
    then map (stream_finding d p) (new_occurrences (InspectionPattern.bytes_ p) stream chunk)
    else [].
Proof.
  intros [Hp Hd Hc Hn] Hne Hmax. unfold StreamScanner.pattern_findings. rewrite Hd.
  case_if; [|done]. set (n := length (InspectionPattern.bytes_ p)) in *. set (m := InspectionProgram.maximum_pattern_bytes program) in *.
  assert (Hl : 1 <= n) by (unfold n; destruct (InspectionPattern.bytes_ p); [done|cbn; lia]).
  set (base := length stream - (m - 1)) in *.
  assert (Hcl : length (StreamScanner.carry s) = length stream - base) by (rewrite Hc; apply length_drop).
  replace (StreamScanner.processed_bytes s - lenN (StreamScanner.carry s))%N with (N.of_nat base)
    by (rewrite Hn; unfold lenN; lia).
  rewrite Hcl, Hc. unfold match_offsets.
  rewrite (omap_ext _ (fun k => if decide (k + n <= length stream - base) then None
    else Some (stream_finding d p (base + k)))).
  2:{ intros k. case_decide; [done|]. f_equal.
      unfold stream_finding. rewrite scan_finding_shift. f_equal. fold n. lia. }
  rewrite omap_new.
  f_equal. rewrite <- occurrences_shift, Nat.add_0_r, <- drop_app_le by lia.
  rewrite <- (occurrences_suffix _ stream chunk base) by (fold n; done || lia).
  apply list_filter_iff. intros k. fold n. lia.
Qed.

(** Findings that a chunk adds to a stream, pattern by pattern. *)
Definition new_findings (d : direction) (stream chunk : bytes) (p : InspectionPattern.t) : list finding :=
  if InspectionPattern.applies_to p d
  then map (stream_finding d p) (new_occurrences (InspectionPattern.bytes_ p) stream chunk) else [].
Lemma stream_findings_app d stream chunk p :
  InspectionPattern.bytes_ p <> [] ->
  stream_findings d (stream ++ chunk) p = stream_findings d stream p ++ new_findings d stream chunk p.
Proof.
  intros Hne. unfold stream_findings, new_findings. case_if; [|done].
  unfold match_offsets. by rewrite occurrences_app, map_app.
Qed.
Lemma stream_findings_nil d p : InspectionPattern.bytes_ p <> [] -> stream_findings d [] p = [].
Proof.
  intros Hne. unfold stream_findings, match_offsets. cbn [occurrences_from].
  destruct (starts_with _ []) eqn:E; [|by case_if].
  apply starts_with_spec in E as (r & Hr). symmetry in Hr. apply app_eq_nil in Hr as [? _]. done.
Qed.
Lemma mbind_ext_in {A B} (f g : A -> list B) (l : list A) :
  (forall a, a ∈ l -> f a = g a) -> l ≫= f = l ≫= g.
Proof.
  induction l as [|a l IH]; intros Hfg; [done|]. cbn. f_equal; [apply Hfg; set_solver|].
  apply IH. intros b Hb. apply Hfg. set_solver.
Qed.
Lemma mbind_nil {A B} (l : list A) : l ≫= (fun _ => @nil B) = [].
Proof. by induction l. Qed.
Lemma inspect_step program d stream s chunk :
  program_wf program -> scanner_inv program d stream s ->
  (lenN (stream ++ chunk) <= u64_max)%N ->
  (StreamScanner.inspect s chunk).1 = InspectionProgram.patterns program ≫= new_findings d stream chunk
  /\ scanner_inv program d (stream ++ chunk) (StreamScanner.inspect s chunk).2.
Proof.
  intros [_ Hpats] Hinv Hlen. pose proof Hinv as [Hp Hd Hc Hn].
  set (m := InspectionProgram.maximum_pattern_bytes program) in *.
  assert (Hproc : sat_add (StreamScanner.processed_bytes s) (lenN chunk) = lenN (stream ++ chunk)).
  { rewrite Hn. unfold lenN in *. rewrite length_app in *. unfold sat_add. lia. }
  unfold StreamScanner.inspect. rewrite Hp. fold m.
  destruct (bool_decide (chunk = []) || bool_decide (m = 0)) eqn:E; cbn [fst snd].
  - assert (Hnil : chunk = [] \/ m = 0).
    { apply orb_true_iff in E as [E|E]; [left|right]; by apply bool_decide_eq_true in E. }
    split.
    + rewrite (mbind_ext_in _ (fun _ => [])); [by rewrite mbind_nil|].
      intros p Hp'. destruct (Hpats p Hp') as [Hne Hle]. fold m in Hle.
      destruct Hnil as [->|Hm]; [|destruct (InspectionPattern.bytes_ p); [done|cbn in Hle; lia]].
      pose proof (stream_findings_app d stream [] p Hne) as Ha. rewrite app_nil_r in Ha.
      apply (app_inv_head (stream_findings d stream p)). by rewrite app_nil_r.
    + split; cbn; [done|done| |done]. rewrite Hc. fold m. destruct Hnil as [->|Hm]; [by rewrite app_nil_r|].
      rewrite !drop_ge; [done|lia|lia].
  - split.
    + apply mbind_ext_in. intros p Hp'. destruct (Hpats p Hp') as [Hne Hle].
      by apply (pattern_findings_new program).
    + split; cbn; [done|done| |done]. fold m. rewrite Hc.
      set (base := length stream - (m - 1)). rewrite <- drop_app_le by lia.
      rewrite drop_drop. f_equal. rewrite length_drop, length_app. lia.
Qed.
Lemma inspect_all_inv program d stream s chunks :
  program_wf program -> scanner_inv program d stream s ->
  (lenN (stream ++ concat chunks) <= u64_max)%N ->
  scanner_inv program d (stream ++ concat chunks) (StreamScanner.inspect_all s chunks).2
  /\ ((InspectionProgram.patterns program ≫= stream_findings d stream)
      ++ (StreamScanner.inspect_all s chunks).1
      ≡ₚ InspectionProgram.patterns program ≫= stream_findings d (stream ++ concat chunks)).
Proof.
  intros Hwf. revert stream s; induction chunks as [|c chunks IH]; intros stream s Hinv Hlen.
  { cbn. by rewrite !app_nil_r. }
  cbn [concat] in Hlen. rewrite app_assoc in Hlen.
  destruct (inspect_step program d stream s c Hwf Hinv) as [Hf Hinv'].
  { unfold lenN in *. rewrite length_app in Hlen. lia. }
  cbn [concat StreamScanner.inspect_all]. destruct (StreamScanner.inspect s c) as [f s'].
  cbn [fst snd] in Hf, Hinv'. specialize (IH _ s' Hinv' Hlen).
  destruct (StreamScanner.inspect_all s' chunks) as [fs s'']. cbn [fst snd] in *.
  rewrite app_assoc. destruct IH as [IH1 IH2]. split; [done|]. rewrite <- IH2, app_assoc, Hf.
  apply Permutation_app_tail. rewrite (mbind_ext_in (stream_findings d (stream ++ c))
    (fun p => stream_findings d stream p ++ new_findings d stream c p)).
  2:{ intros p Hp. by apply stream_findings_app, Hwf. }
  generalize (InspectionProgram.patterns program) as ps.
  induction ps as [|p ps IHps]; [done|]. cbn.
  rewrite <- IHps. cbn. rewrite <- !app_assoc. apply Permutation_app_head.
  rewrite !app_assoc. apply Permutation_app_tail, Permutation_app_comm.
Qed.
Lemma scanner_fresh program d : program_wf program -> scanner_inv program d [] (StreamScanner.scanner program d).
Proof. split; cbn; by rewrite ?drop_nil. Qed.

(** ** Order within one detector *)

Definition by_detector (i : DetectorId.t) (fs : list finding) : list finding :=
  filter (fun f => Domain.detector_id f = i) fs.
Definition names_detector (f : InspectionPattern.t -> list finding) : Prop :=
  forall p x, x ∈ f p -> Domain.detector_id x = InspectionPattern.detector_id p.
Lemma by_detector_app i fs gs : by_detector i (fs ++ gs) = by_detector i fs ++ by_detector i gs.
Proof. apply filter_app. Qed.
Lemma by_detector_own f i p :
  names_detector f ->
  by_detector i (f p) = if decide (InspectionPattern.detector_id p = i) then f p else [].
Proof.
  intros Hf. specialize (Hf p). unfold by_detector. induction (f p) as [|x l IH]; [by case_decide|].
  rewrite filter_cons, IH, (Hf x) by set_solver. by case_decide.
Qed.
Lemma by_detector_other f i ps :
  names_detector f -> i ∉ map InspectionPattern.detector_id ps -> by_detector i (ps ≫= f) = [].
Proof.
  intros Hf. induction ps as [|p ps IH]; [done|]. cbn [map]. rewrite not_elem_of_cons. intros [Hi Hn].
  rewrite bind_cons, by_detector_app, by_detector_own, decide_False by done. by apply IH.
Qed.
Lemma by_detector_split f g i ps :
  names_detector f -> names_detector g -> NoDup (map InspectionPattern.detector_id ps) ->
  by_detector i (ps ≫= (fun p => f p ++ g p)) = by_detector i (ps ≫= f) ++ by_detector i (ps ≫= g).
Proof.
  intros Hf Hg. induction ps as [|p ps IH]; [done|]. cbn [map]. intros [Hn Hnd]%NoDup_cons.
  rewrite !bind_cons, !by_detector_app, !by_detector_own, IH by done.
  case_decide as Hi; [|done]. subst i. by rewrite !by_detector_other, !app_nil_r by done.
Qed.
Lemma stream_findings_named d stream : names_detector (stream_findings d stream).
Proof.
  intros p x. unfold stream_findings. case_if; [|by intros ?%not_elem_of_nil].
  intros (k & -> & _)%list_elem_of_fmap_1. done.
Qed.
Lemma new_findings_named d stream c : names_detector (new_findings d stream c).
Proof.
  intros p x. unfold new_findings. case_if; [|by intros ?%not_elem_of_nil].
  intros (k & -> & _)%list_elem_of_fmap_1. done.
Qed.
Lemma inspect_all_detector program d stream s chunks i :
  program_wf program -> scanner_inv program d stream s ->
  (lenN (stream ++ concat chunks) <= u64_max)%N ->
  by_detector i (InspectionProgram.patterns program ≫= stream_findings d stream)
  ++ by_detector i (StreamScanner.inspect_all s chunks).1
  = by_detector i (InspectionProgram.patterns program ≫= stream_findings d (stream ++ concat chunks)).
Proof.
  intros Hwf. revert stream s; induction chunks as [|c chunks IH]; intros stream s Hinv Hlen.
  { cbn. by rewrite !app_nil_r. }
  cbn [concat] in *. rewrite app_assoc in *.
  destruct (inspect_step program d stream s c Hwf Hinv) as [Hf Hinv'].
  { unfold lenN in *. rewrite length_app in Hlen. lia. }
  cbn [StreamScanner.inspect_all]. destruct (StreamScanner.inspect s c) as [f s'].
  cbn [fst snd] in Hf, Hinv'. specialize (IH _ s' Hinv' Hlen).
  destruct (StreamScanner.inspect_all s' chunks) as [fs s'']. cbn [fst snd] in *.
  rewrite <- IH, by_detector_app, app_assoc, Hf. f_equal.
  rewrite <- by_detector_split by (apply stream_findings_named || apply new_findings_named || apply Hwf).
  f_equal. symmetry. apply mbind_ext_in. intros p Hp. by apply stream_findings_app, Hwf.
Qed.

(** * Properties *)

(** C26. Detection is independent of how a stream is cut into chunks: over any chunking
    of at most 2^64-1 bytes a fresh scanner reports every occurrence of every
    applicable pattern in the whole stream exactly once, with its byte range in
    the stream, and each detector's findings in stream order. *)
Theorem scanner_chunking_invariant (g : PolicyGeneration.t) (ps : list InspectionPattern.t)
    (program : InspectionProgram.t) (d : direction) (chunks : list bytes) (i : DetectorId.t)
    (Hnew : InspectionProgram.new g ps = Ok program)
    (Hps : Forall (fun p => InspectionPattern.bytes_ p <> []) ps)
    (Hlen : (lenN (concat chunks) <= u64_max)%N) :
  let found := (StreamScanner.inspect_all (StreamScanner.scanner program d) chunks).1 in
  found ≡ₚ ps ≫= stream_findings d (concat chunks)
  /\ by_detector i found = by_detector i (ps ≫= stream_findings d (concat chunks)).
Proof.
  destruct (inspection_program_new_wf g ps program Hnew Hps) as [Hwf <-].
  pose proof (scanner_fresh program d Hwf) as Hinv.
  assert (Hnil : InspectionProgram.patterns program ≫= stream_findings d [] = []).
  { rewrite (mbind_ext_in _ (fun _ => [])) by (intros p Hp; by apply stream_findings_nil, Hwf).
    apply mbind_nil. }
  destruct (inspect_all_inv program d [] _ chunks Hwf Hinv Hlen) as [_ Hall].
  pose proof (inspect_all_detector program d [] _ chunks i Hwf Hinv Hlen) as Hdet.
  rewrite Hnil in Hall, Hdet. by split.
Qed.

(** A scanner retains less than its longest pattern: after any chunks its carry is
    the last [maximum - 1] bytes of the stream (all of a shorter one). *)
Theorem scanner_carry_bounded (g : PolicyGeneration.t) (ps : list InspectionPattern.t)
    (program : InspectionProgram.t) (d : direction) (chunks : list bytes)
    (Hnew : InspectionProgram.new g ps = Ok program)
    (Hps : Forall (fun p => InspectionPattern.bytes_ p <> []) ps)
    (Hlen : (lenN (concat chunks) <= u64_max)%N) :
  let s := (StreamScanner.inspect_all (StreamScanner.scanner program d) chunks).2 in
  let m := InspectionProgram.maximum_pattern_bytes program in
  StreamScanner.carry s = drop (length (concat chunks) - (m - 1)) (concat chunks)
  /\ length (StreamScanner.carry s) <= m - 1.
Proof.
  destruct (inspection_program_new_wf g ps program Hnew Hps) as [Hwf _].
  destruct (inspect_all_inv program d [] _ chunks Hwf (scanner_fresh program d Hwf) Hlen) as [[_ _ Hc _] _].
  cbn zeta. cbn [app] in Hc. rewrite Hc. split; [done|]. rewrite length_drop. lia.
Qed.
End Theory.

Section Examples.
#[local] Instance identity_digest : Sha256 := fun l => l.
Definition ex_pattern (name pattern : string) : InspectionPattern.t :=
  InspectionPattern.Make (DetectorId.Make (bs name)) (RuleId.Make (bs name)) (bs pattern)
    High Confirmed [ClientToUpstream] RuleDeny [].
Definition ex_patterns : list InspectionPattern.t := [ex_pattern "d1" "abc"; ex_pattern "d2" "c"].
Definition ex_program : InspectionProgram.t := InspectionProgram.Make PolicyGeneration.INITIAL ex_patterns 3.
Definition ex_chunks : list bytes := [bs "xa"; bs "b"; []; bs "cabc"].

Lemma scanner_chunking_invariant_witness :
  by_detector (DetectorId.Make (bs "d1"))
    (StreamScanner.inspect_all (StreamScanner.scanner ex_program ClientToUpstream) ex_chunks).1
  = map (stream_finding ClientToUpstream (ex_pattern "d1" "abc")) [1; 4].
Proof.
  refine (eq_trans (proj2 (scanner_chunking_invariant PolicyGeneration.INITIAL ex_patterns ex_program
    ClientToUpstream ex_chunks (DetectorId.Make (bs "d1")) _ _ _)) _).
  - vm_compute. reflexivity.
  - repeat constructor; discriminate.
  - vm_compute. discriminate.
  - vm_compute. reflexivity.
Defined.
Lemma scanner_carry_bounded_witness :
  length (StreamScanner.carry
    (StreamScanner.inspect_all (StreamScanner.scanner ex_program ClientToUpstream) ex_chunks).2) <= 2.
Proof.
  refine (proj2 (scanner_carry_bounded PolicyGeneration.INITIAL ex_patterns ex_program
    ClientToUpstream ex_chunks _ _ _)).
  - vm_compute. reflexivity.
  - repeat constructor; discriminate.
  - vm_compute. discriminate.
Defined.
End Examples.
