(* ===== verification/Evidence.v ===== *)
(** The evidence shown to the operator with a decision (crates/freja-policy/src/
    evidence.rs, evidence/acl.rs): bounded copies of the definitions a decision was made
    from.  What serde_json writes for a value is a parameter: the pieces it writes, and
    whether it can. *)
From stdpp Require Import gmap strings.
From stdpp Require Import prelude.
From S2P Require Import Prelude Bytes Net Endpoint Domain PolicyModel Acl Guard Inspection.

(** * Definitions and their text *)

Definition MAXIMUM_DEFINITION_BYTES : nat := 16384.
Inductive rule_source : Type := FromAcl | FromAclDefault | FromInspection | FromInspectionDefault | FromDestinationGuard | FromConnectPorts.
#[export] Instance rule_source_eq_dec : EqDecision rule_source.
Proof. solve_decision. Defined.
Module DefinitionText.
Record t : Type := Make { text : bytes; incomplete : bool }.
(** [LimitedWriter::write]: what is held after it, and whether all of it was. *)
Definition write (held b : bytes) : bytes * bool :=
  let retained := Nat.min (length b) (MAXIMUM_DEFINITION_BYTES - length held) in
  (held ++ take retained b, negb (retained <? length b)).
(** [write_all] of each piece, until one is not taken whole. *)
Fixpoint write_pieces (held : bytes) (pieces : list bytes) : bytes * bool :=
  match pieces with
  | [] => (held, true)
  | b :: pieces => match write held b with (held, true) => write_pieces held pieces | (held, false) => (held, false) end
  end.
Definition capture_pieces (pieces : list bytes) (serializes : bool) : t :=
  let '(held, whole) := write_pieces [] pieces in
  Make (if utf8_valid held then held else take (valid_up_to held) held) (negb (whole && serializes)).
End DefinitionText.

Section Evidence.
Context `{IpNet}.
(** The values that are described. *)
Inductive definition_value : Type :=
| MatcherValue (m : match_expression)
| ActionValue (a : rule_action)
| TextValue (t : bytes)
| PatternConditions (p : InspectionPattern.t)
| PortsValue (t : bytes) (ports : gset N)
| DeclarationsValue (l : list (nat * acl_rule_result * acl_rule)).
(** [serde_json::to_writer_pretty]. *)
Class DefinitionJson : Type := { json_pieces : definition_value -> list bytes * bool }.
Context `{DefinitionJson}.
Definition capture (v : definition_value) : DefinitionText.t := DefinitionText.capture_pieces (json_pieces v).1 (json_pieces v).2.
(** [AclEvidence]. *)
Record acl_evidence : Type := AclEvidence {
  rule_count : nat;
  evidence_evaluated : nat;
  evidence_did_not_match : nat;
  evidence_unavailable : nat;
  evidence_ordinal : option nat;
  evidence_default : DefinitionText.t;
  declarations : DefinitionText.t }.
(** Each rule that has a slot for its result, numbered from one. *)
Definition declared (ev : AclEvaluation.t) : list (nat * acl_rule_result * acl_rule) :=
  imap (fun i e => (S i, e.2, e.1)) (zip (AclEvaluation.rules ev) (AclEvaluation.results ev)).
Definition acl_snapshot (ev : AclEvaluation.t) : acl_evidence :=
  AclEvidence (length (AclEvaluation.rules ev)) (AclEvaluation.evaluated ev) (AclEvaluation.did_not_match ev) (AclEvaluation.unavailable ev)
    (AclEvaluation.selected_ordinal ev) (capture (ActionValue (AclEvaluation.default_action ev))) (capture (DeclarationsValue (declared ev))).
(** [RuleEvidence]. *)
Record rule_evidence : Type := RuleEvidence {
  evidence_source : rule_source;
  evidence_conditions : DefinitionText.t;
  evidence_action : DefinitionText.t;
  evidence_enforcement : enforcement_mode;
  evidence_acl : option acl_evidence }.
(** [RuleDefinition::snapshot]. *)
Definition snapshot (d : rule_definition) (enforcement : enforcement_mode) : rule_evidence :=
  let '(source, conditions, action) :=
    match d with
    | DefAcl ev =>
        match AclEvaluation.selected_rule ev with
        | Some r => (FromAcl, capture (MatcherValue (rule_matcher r)), capture (ActionValue (rule_act r)))
        | None => (FromAclDefault, capture (TextValue (bs "No ACL rule selected; see configured ACL and outcomes")),
                   capture (ActionValue (AclEvaluation.default_action ev)))
        end
    | DefInspection p => (FromInspection, capture (PatternConditions p), capture (ActionValue (InspectionPattern.action p)))
    | DefInspectionDefault =>
        (FromInspectionDefault, capture (TextValue (bs "No pattern policy for this detector; no individual rule")), capture (ActionValue RuleAllow))
    | DefDestinationGuard condition => (FromDestinationGuard, capture (TextValue condition), capture (ActionValue RuleDeny))
    | DefConnectPorts ports =>
        (FromConnectPorts, capture (PortsValue (bs "CONNECT destination port NOT IN allowed ports") ports), capture (ActionValue RuleDeny))
    end in
  RuleEvidence source conditions action enforcement match d with DefAcl ev => Some (acl_snapshot ev) | _ => None end.
End Evidence.

(** * What a text holds *)

Module CaptureFacts.
Import DefinitionText.
Lemma write_pieces_spec pieces : forall held, length held <= MAXIMUM_DEFINITION_BYTES ->
  (write_pieces held pieces).1 = take MAXIMUM_DEFINITION_BYTES (held ++ concat pieces) /\
  ((write_pieces held pieces).2 = true <-> length (held ++ concat pieces) <= MAXIMUM_DEFINITION_BYTES).
Proof.
  induction pieces as [|b pieces IH]; intros held Hh; cbn [write_pieces concat].
  { rewrite app_nil_r. split; [by rewrite take_ge|done]. }
  unfold write. set (n := MAXIMUM_DEFINITION_BYTES) in *. destruct (Nat.ltb_spec (Nat.min (length b) (n - length held)) (length b)) as [Hlt|Hle]; cbn [negb].
  - rewrite Nat.min_r by lia. cbn [fst snd]. split.
    + rewrite (take_app_ge held) by lia. f_equal. by rewrite take_app_le by lia.
    + split; [done|]. rewrite !length_app. lia.
  - rewrite Nat.min_l, take_ge by lia. rewrite app_assoc. apply IH. rewrite length_app. lia.
Qed.
(** The text is a valid prefix of what would be written, within the limit; it is marked
    incomplete exactly when it is cut or cannot be written. *)
Lemma capture_spec pieces ok :
  length (text (capture_pieces pieces ok)) <= MAXIMUM_DEFINITION_BYTES /\ utf8_valid (text (capture_pieces pieces ok)) = true /\
  text (capture_pieces pieces ok) `prefix_of` concat pieces /\
  (incomplete (capture_pieces pieces ok) = false <-> ok = true /\ length (concat pieces) <= MAXIMUM_DEFINITION_BYTES) /\
  (incomplete (capture_pieces pieces ok) = false -> utf8_valid (concat pieces) = true -> text (capture_pieces pieces ok) = concat pieces).
Proof.
  unfold capture_pieces. destruct (write_pieces_spec pieces [] ltac:(cbn; lia)) as [Hheld Hwhole]. cbn [app] in *.
  destruct (write_pieces [] pieces) as [held whole]. cbn [fst snd] in *. subst held. set (n := MAXIMUM_DEFINITION_BYTES) in *. cbn [text incomplete].
  assert (Hmark : negb (whole && ok) = false <-> ok = true /\ length (concat pieces) <= n) by (rewrite negb_false_iff, andb_true_iff, Hwhole; tauto).
  split_and!; [| | |exact Hmark|].
  - destruct (utf8_valid _); rewrite ?length_take; lia.
  - destruct (utf8_valid (take n (concat pieces))) eqn:E; [done|]. apply floor_valid_valid.
  - destruct (utf8_valid _); [apply prefix_take|]. etrans; apply prefix_take.
  - intros [_ Hlen]%Hmark Hv. rewrite (take_ge (concat pieces)) by lia. by rewrite Hv.
Qed.
End CaptureFacts.

Section Properties.
Context `{IpNet} {Json : DefinitionJson}.
Definition bounded_text (v : definition_value) (t : DefinitionText.t) : Prop :=
  length (DefinitionText.text t) <= MAXIMUM_DEFINITION_BYTES /\ utf8_valid (DefinitionText.text t) = true /\
  DefinitionText.text t `prefix_of` concat (json_pieces v).1 /\
  (DefinitionText.incomplete t = false <-> (json_pieces v).2 = true /\ length (concat (json_pieces v).1) <= MAXIMUM_DEFINITION_BYTES).
Lemma capture_bounded v : bounded_text v (capture v).
Proof. destruct (CaptureFacts.capture_spec (json_pieces v).1 (json_pieces v).2) as (? & ? & ? & ? & _). done. Qed.
Lemma evaluate_rules_keeps (p : acl_policy) (f : policy_facts) rs ev :
  AclEvaluation.rules (evaluate_rules p f rs ev).2 = AclEvaluation.rules ev /\
  AclEvaluation.default_action (evaluate_rules p f rs ev).2 = AclEvaluation.default_action ev.
Proof.
  revert ev; induction rs as [|r rs IH]; intros ev; cbn [evaluate_rules]; [done|]. destruct (evaluate_expression _ _); [done|apply (IH (AclEvaluation.record _ _))..].
Qed.
Lemma selected_in_range (p : acl_policy) (f : policy_facts) d ev k :
  evaluate_with_definition p f = (d, DefAcl ev) -> AclEvaluation.selected ev = Some k -> k < length (rules p).
Proof.
  unfold evaluate_with_definition. destruct (evaluate_rules p f (rules p) _) as [d' ev'] eqn:He. intros [= <- <-] Hk.
  eapply (evaluate_rules_evidence p f (rules p) []) in He as (seen & rest & Hp & _ & Hm); [|by split|done].
  rewrite Hk in Hm. destruct Hm as (before & r & -> & -> & _). rewrite Hp, !length_app. cbn. lia.
Qed.
Lemma bounded_results_lookup l i : i < MAXIMUM_ACL_EVIDENCE_RULES ->
  bounded_results l !! i = Some (if i <? length l then default ResNotEvaluatedAfterFirstMatch (l !! i) else ResNotEvaluatedAfterFirstMatch).
Proof.
  intros Hi. unfold bounded_results. rewrite lookup_take_lt by done. destruct (Nat.ltb_spec i (length l)) as [Hl|Hl].
  - rewrite lookup_app_l by done. apply lookup_lt_is_Some in Hl as [x ->]. done.
  - rewrite lookup_app_r by lia. apply lookup_replicate_2. lia.
Qed.
Lemma bounded_results_length l : length (bounded_results l) = MAXIMUM_ACL_EVIDENCE_RULES.
Proof. unfold bounded_results. rewrite length_take, length_app, length_replicate. lia. Qed.
Lemma declared_spec (p : acl_policy) (f : policy_facts) ev seen rest :
  AclEvaluation.rules ev = rules p -> rules p = seen ++ rest -> AclEvaluation.results ev = bounded_results (map (outcome f) seen) ->
  length (declared ev) = Nat.min (length (rules p)) MAXIMUM_ACL_EVIDENCE_RULES /\
  forall i n res r, declared ev !! i = Some (n, res, r) -> n = S i /\ rules p !! i = Some r /\
    res = (if i <? length seen then outcome f r else ResNotEvaluatedAfterFirstMatch).
Proof.
  intros Hrules Hp Hres. unfold declared. rewrite Hrules, Hres. split; [by rewrite length_imap, length_zip_with, bounded_results_length|].
  intros i n res r ([r' res'] & Hzip & Heq)%list_lookup_imap_Some. cbn in Heq. simplify_eq.
  apply lookup_zip_with_Some in Hzip as (r0 & res0 & Heq & Hr & Hbr). simplify_eq. split; [done|]. split; [done|].
  assert (Hi : i < MAXIMUM_ACL_EVIDENCE_RULES) by (rewrite <-(bounded_results_length (map (outcome f) seen)); by eapply lookup_lt_Some).
  rewrite bounded_results_lookup, length_map in Hbr by done. injection Hbr as <-. destruct (Nat.ltb_spec i (length seen)); [|done].
  rewrite Hp, lookup_app_l in Hr by done. by rewrite list_lookup_fmap, Hr.
Qed.
(** C33. The evidence kept with a policy decision describes that decision: the counts
    cover the rules evaluated, never more than there are; the selected rule is the one
    the decision names, with its own conditions and action, or the default's; every
    declaration shown is a rule of the policy in its place, with its outcome on these
    facts or as not evaluated; and each text is a valid prefix, of at most 16 KiB, of
    the definition's JSON, marked incomplete exactly when it is cut. *)
Theorem evidence_describes_its_decision (p : acl_policy) (f : policy_facts) (mode : enforcement_mode) :
  let '(d, definition) := evaluate_with_definition p f in
  let e := snapshot definition mode in
  exists a v act, evidence_acl e = Some a /\ evidence_enforcement e = mode /\
    rule_count a = length (rules p) /\ evidence_evaluated a <= rule_count a /\
    evidence_evaluated a = evidence_did_not_match a + evidence_unavailable a + (match evidence_ordinal a with Some _ => 1 | None => 0 end) /\
    match evidence_ordinal a with
    | Some n => evidence_source e = FromAcl /\ n = evidence_evaluated a /\
        exists r, rules p !! (n - 1) = Some r /\ matched_rule (Decision.trace d) = Some (rule_id r) /\ v = MatcherValue (rule_matcher r) /\ act = rule_act r
    | None => evidence_source e = FromAclDefault /\ evidence_evaluated a = rule_count a /\ matched_rule (Decision.trace d) = None /\ act = default_action p
    end /\
    bounded_text v (evidence_conditions e) /\ bounded_text (ActionValue act) (evidence_action e) /\
    bounded_text (ActionValue (default_action p)) (evidence_default a) /\
    exists l, bounded_text (DeclarationsValue l) (declarations a) /\ length l = Nat.min (rule_count a) MAXIMUM_ACL_EVIDENCE_RULES /\
      forall i n res r, l !! i = Some (n, res, r) -> n = S i /\ rules p !! i = Some r /\
        res = (if i <? evidence_evaluated a then outcome f r else ResNotEvaluatedAfterFirstMatch).
Proof.
  destruct (acl_evidence_accounts p f) as (seen & rest & d & ev & Heval & Hp & Hcount & Hres & Hsum & Hsel). rewrite Heval.
  pose proof (fun k => selected_in_range p f d ev k Heval) as Hrange.
  pose proof (evaluate_rules_keeps p f (rules p) (AclEvaluation.new (rules p) (default_action p))) as [Hrules Hdefault].
  unfold evaluate_with_definition in Heval. destruct (evaluate_rules p f (rules p) _) as [d0 ev0]. injection Heval as -> ->. cbn [snd] in Hrules, Hdefault. cbn in Hrules, Hdefault.
  destruct (declared_spec p f ev seen rest Hrules Hp Hres) as [Hlen Hdecl].
  unfold snapshot. destruct (AclEvaluation.selected_rule ev) as [r|] eqn:Er; cbn [evidence_acl evidence_enforcement evidence_conditions evidence_action evidence_source];
    [exists (acl_snapshot ev), (MatcherValue (rule_matcher r)), (rule_act r)|eexists (acl_snapshot ev), _, (default_action p)];
    cbn [acl_snapshot rule_count evidence_evaluated evidence_did_not_match evidence_unavailable evidence_ordinal evidence_default declarations];
    rewrite Hrules, Hdefault, Hcount in *; unfold AclEvaluation.selected_rule, AclEvaluation.selected_ordinal in *.
  - destruct (AclEvaluation.selected ev) as [k|] eqn:Ek; [|done]. destruct Hsel as (Hk & Hlast & Hm). cbn in Er, Hk |- *. rewrite Hrules in Er. injection Hk as Hk.
    split_and!; try done; [rewrite Hp, length_app; lia| |apply capture_bounded..|exists (declared ev); split; [apply capture_bounded|by split]].
    exists r. split; [|done]. by rewrite Nat.sub_0_r.
  - destruct (AclEvaluation.selected ev) as [k|] eqn:Ek; cbn in Er |- *.
    { exfalso. rewrite Hrules in Er. apply lookup_ge_None in Er. specialize (Hrange k eq_refl). lia. }
    destruct Hsel as (-> & Hm). rewrite app_nil_r in Hp.
    split_and!; try done; [by rewrite Hp|by rewrite Hp|apply capture_bounded..|exists (declared ev); split; [apply capture_bounded|by split]].
Qed.
End Properties.
