(* ===== verification/Framing.v ===== *)
(** The HTTP/1 capture framer (crates/freja-proxy/src/http/wire/framing.rs): the
    incremental message-boundary parser with its bounded retention. *)
From stdpp Require Import gmap strings.
From stdpp Require Import prelude.
From S2P Require Import Prelude Bytes.

Definition INFORMATIONAL_STATUS_START : N := 100.
Definition SUCCESS_STATUS_START : N := 200.
Definition REDIRECTION_STATUS_START : N := 300.
Definition SWITCHING_PROTOCOLS_STATUS : N := 101.
Definition NO_CONTENT_STATUS : N := 204.
Definition RESET_CONTENT_STATUS : N := 205.
Definition NOT_MODIFIED_STATUS : N := 304.
Definition HEX_ALPHABETIC_DIGIT_OFFSET : N := 10.
Definition HEX_RADIX : N := 16.

Record response_context : Type := ResponseContext {
  request_was_head : bool; request_was_connect : bool }.
Inductive message_role : Type := RequestRole | ResponseRole (c : response_context).
Record wire_message : Type := WireMessage {
  message_bytes : bytes;
  message_observed : N;
  message_truncated : bool;
  message_informational : bool }.
#[export] Instance wire_message_eq_dec : EqDecision wire_message.
Proof. solve_decision. Defined.
Inductive framing_error : Type :=
| HeadTooLarge (maximum : nat)
| InvalidStartLine
| InvalidHeaderLine
| TransferEncodingWithContentLength
| UnsupportedTransferEncoding
| InvalidContentLength
| ConflictingContentLength
| InvalidChunkSize
| ChunkSizeOverflow
| InvalidChunkTerminator
| TrailersTooLarge (maximum : nat)
| UnexpectedEof.
#[export] Instance framing_error_eq_dec : EqDecision framing_error.
Proof. solve_decision. Defined.
Definition show_framing_error (e : framing_error) : bytes :=
  match e with
  | HeadTooLarge m => bs "HTTP/1 capture head exceeds " ++ show_N (N.of_nat m) ++ bs " bytes"
  | InvalidStartLine => bs "invalid HTTP/1 capture start line"
  | InvalidHeaderLine => bs "invalid HTTP/1 capture header line"
  | TransferEncodingWithContentLength =>
      bs "HTTP/1 capture found both Transfer-Encoding and Content-Length"
  | UnsupportedTransferEncoding =>
      bs "HTTP/1 capture supports only a single chunked Transfer-Encoding"
  | InvalidContentLength => bs "invalid HTTP/1 capture Content-Length"
  | ConflictingContentLength => bs "conflicting HTTP/1 capture Content-Length values"
  | InvalidChunkSize => bs "invalid HTTP/1 chunk size"
  | ChunkSizeOverflow => bs "HTTP/1 chunk size overflow"
  | InvalidChunkTerminator => bs "invalid HTTP/1 chunk data terminator"
  | TrailersTooLarge m => bs "HTTP/1 capture trailers exceed " ++ show_N (N.of_nat m) ++ bs " bytes"
  | UnexpectedEof => bs "incomplete HTTP/1 message at EOF"
  end.
Inductive framer_event : Type :=
| Started (sequence : N)
| Complete (sequence : N) (message : wire_message)
| Failed (sequence : N) (error : framing_error).
#[export] Instance framer_event_eq_dec : EqDecision framer_event.
Proof. solve_decision. Defined.

(** * Head parsing *)

Inductive body_framing : Type :=
| BodyNone (informational : bool)
| BodyFixed (length : N)
| BodyChunked
| BodyCloseDelimited.
#[export] Instance body_framing_eq_dec : EqDecision body_framing.
Proof. solve_decision. Defined.

Definition CRLF : bytes := [CR; LF].
Definition SP : u8 := byte_of 32.
Definition HT : u8 := byte_of 9.
Definition trim_cr (line : bytes) : bytes := default line (strip_suf [CR] line).
Definition is_ows (b : u8) : bool := bool_decide (b = SP) || bool_decide (b = HT).
Definition trim_ows (value : bytes) : bytes := trim is_ows value.

(** Field-name bytes: alphanumerics and the fifteen RFC 9110 token symbols. *)
Definition token_byte (b : u8) : bool :=
  is_alnum b || bool_decide (b ∈ bs "!#$%&'*+-.^_`|~").
Definition split_header (line : bytes) : option (bytes * bytes) :=
  separator ← position (byte_of 58) line;
  let name := take separator line in
  if bool_decide (name = []) || negb (forallb token_byte name) then None
  else Some (name, trim_ows (drop (S separator) line)).
Definition valid_header_line (line : bytes) : bool := bool_decide (is_Some (split_header line)).

Definition parse_status (start : bytes) : result framing_error N :=
  match split_on SP start with
  | version :: status :: _ =>
      if negb (bool_decide (version = bs "HTTP/1.0") || bool_decide (version = bs "HTTP/1.1"))
         || negb (bool_decide (length status = 3)) || negb (forallb is_digit status)
      then Err InvalidStartLine
      else ok_or InvalidStartLine (parse_uint u16_max status)
  | _ => Err InvalidStartLine
  end.
(** [values.iter().flat_map(|v| v.split(',')).map(trim_ows)]. *)
Definition list_members (values : list bytes) : list bytes :=
  map trim_ows (values ≫= split_on (byte_of 44)).
Definition parse_transfer_encoding (values : list bytes) : result framing_error bool :=
  match values with
  | [] => Ok false
  | _ =>
      match List.filter (fun t => negb (bool_decide (t = []))) (list_members values) with
      | [token] =>
          if eq_ignore_ascii_case token (bs "chunked") then Ok true
          else Err UnsupportedTransferEncoding
      | _ => Err UnsupportedTransferEncoding
      end
  end.
(** The loop of [parse_content_length] over the list members. *)
Fixpoint content_length_loop (expected : option N) (values : list bytes)
  : result framing_error (option N) :=
  match values with
  | [] => Ok expected
  | value :: values =>
      if bool_decide (value = []) || negb (forallb is_digit value) then Err InvalidContentLength
      else
        parsed ← ok_or InvalidContentLength (parse_uint u64_max value);
        match expected with
        | Some current =>
            if decide (current = parsed) then content_length_loop (Some parsed) values
            else Err ConflictingContentLength
        | None => content_length_loop (Some parsed) values
        end
  end.
Definition parse_content_length (values : list bytes) : result framing_error (option N) :=
  content_length_loop None (list_members values).

(** The header loop of [parse_head]: values of the two framing fields in order. *)
Fixpoint header_loop (lines : list bytes) (cls tes : list bytes)
  : result framing_error (list bytes * list bytes) :=
  match lines with
  | [] => Ok (cls, tes)
  | raw :: lines =>
      match split_header (trim_cr raw) with
      | None => Err InvalidHeaderLine
      | Some (name, value) =>
          if eq_ignore_ascii_case name (bs "content-length")
          then header_loop lines (cls ++ [value]) tes
          else if eq_ignore_ascii_case name (bs "transfer-encoding")
          then header_loop lines cls (tes ++ [value])
          else header_loop lines cls tes
      end
  end.
Definition no_body_status (status : N) : bool :=
  bool_decide (status ∈ [SWITCHING_PROTOCOLS_STATUS; NO_CONTENT_STATUS; RESET_CONTENT_STATUS;
                         NOT_MODIFIED_STATUS]).
Definition parse_head (head : bytes) (role : message_role) : result framing_error body_framing :=
  content ← ok_or InvalidHeaderLine (strip_suf (CRLF ++ CRLF) head);
  match split_on LF content with
  | [] => Err InvalidStartLine
  | first :: lines =>
      let start := trim_cr first in
      if bool_decide (start = []) then Err InvalidStartLine else
      '(cls, tes) ← header_loop lines [] [];
      if negb (bool_decide (cls = [])) && negb (bool_decide (tes = []))
      then Err TransferEncodingWithContentLength else
      chunked ← parse_transfer_encoding tes;
      content_length ← parse_content_length cls;
      let framed :=
        if chunked : bool then BodyChunked
        else match content_length with
             | Some length => BodyFixed length
             | None => match role with RequestRole => BodyNone false | ResponseRole _ => BodyCloseDelimited end
             end in
      match role with
      | RequestRole => Ok framed
      | ResponseRole context =>
          status ← parse_status start;
          let informational :=
            (INFORMATIONAL_STATUS_START <=? status)%N && (status <? SUCCESS_STATUS_START)%N
            && negb (status =? SWITCHING_PROTOCOLS_STATUS)%N in
          if request_was_head context || informational || no_body_status status
             || (request_was_connect context && (SUCCESS_STATUS_START <=? status)%N
                 && (status <? REDIRECTION_STATUS_START)%N)
          then Ok (BodyNone informational) else Ok framed
      end
  end.

Definition hex_value (digit : u8) : option N :=
  if byte_in 48 57 digit then Some (byte_val digit - 48)%N
  else if byte_in 97 102 digit then Some (byte_val digit - 97 + HEX_ALPHABETIC_DIGIT_OFFSET)%N
  else if byte_in 65 70 digit then Some (byte_val digit - 65 + HEX_ALPHABETIC_DIGIT_OFFSET)%N
  else None.
Fixpoint chunk_size_loop (value : N) (digits : bytes) : result framing_error N :=
  match digits with
  | [] => Ok value
  | digit :: digits =>
      numeric ← ok_or InvalidChunkSize (hex_value digit);
      value ← ok_or ChunkSizeOverflow
                (v ← checked_mul value HEX_RADIX; checked_add v numeric);
      chunk_size_loop value digits
  end.
Definition parse_chunk_size (line : bytes) : result framing_error N :=
  let digits := default [] (hd_error (split_on (byte_of 59) line)) in
  if bool_decide (digits = []) || negb (forallb is_hexdigit digits) then Err InvalidChunkSize
  else chunk_size_loop 0 digits.

(** * The framer *)

Inductive state : Type :=
| Head
| FixedBody (remaining : N) (informational : bool)
| ChunkSize (line : bytes)
| ChunkData (remaining : N)
| ChunkDataTerminator (matched : N)
| Trailers (line : bytes) (observed : nat)
| CloseDelimited
| FailedState.
#[export] Instance state_eq_dec : EqDecision state.
Proof. solve_decision. Defined.

Module Http1Framer.
Record t : Type := Make {
  role : message_role;
  maximum_head_bytes : nat;
  maximum_capture_bytes : nat;
  st : state;
  sequence : N;
  active : bool;
  head : bytes;
  retained : bytes;
  observed : N;
  truncated : bool }.

Definition new (role : message_role) (maximum_head maximum_capture : nat) : t :=
  Make role maximum_head maximum_capture Head 0 false [] [] 0 false.
Definition set_state (s : state) (f : t) : t :=
  Make (role f) (maximum_head_bytes f) (maximum_capture_bytes f) s (sequence f) (active f)
    (head f) (retained f) (observed f) (truncated f).
Definition set_head (h : bytes) (f : t) : t :=
  Make (role f) (maximum_head_bytes f) (maximum_capture_bytes f) (st f) (sequence f) (active f)
    h (retained f) (observed f) (truncated f).
Definition set_active (f : t) : t :=
  Make (role f) (maximum_head_bytes f) (maximum_capture_bytes f) (st f) (sequence f) true
    (head f) (retained f) (observed f) (truncated f).

(** [append_bytes] on the framer's counters. *)
Definition append_bytes (input : bytes) (f : t) : t :=
  let remaining := maximum_capture_bytes f - length (retained f) in
  let count := Nat.min remaining (length input) in
  Make (role f) (maximum_head_bytes f) (maximum_capture_bytes f) (st f) (sequence f) (active f)
    (head f) (retained f ++ take count input) (sat_add (observed f) (lenN input))
    (truncated f || bool_decide (count < length input)).
Definition reset (f : t) : t :=
  Make (role f) (maximum_head_bytes f) (maximum_capture_bytes f) Head (sat_add (sequence f) 1) false
    [] [] 0 false.
Definition complete (informational : bool) (f : t) : t * list framer_event :=
  (reset f, [Complete (sequence f)
     (WireMessage (retained f) (observed f) (truncated f) informational)]).
Definition fail (e : framing_error) (f : t) : t * list framer_event :=
  (set_state FailedState f, [Failed (sequence f) e]).
Definition stay (f : t) : t * list framer_event := (f, []).

(** After one byte of a head. *)
Definition head_step (f : t) : t * list framer_event :=
  if maximum_head_bytes f <? length (head f) then fail (HeadTooLarge (maximum_head_bytes f)) f
  else if ends_with (CRLF ++ CRLF) (head f) then
    match parse_head (head f) (role f) with
    | Ok (BodyNone informational) => complete informational f
    | Ok (BodyFixed remaining) =>
        if (remaining =? 0)%N then complete false f else stay (set_state (FixedBody remaining false) f)
    | Ok BodyChunked => stay (set_state (ChunkSize []) f)
    | Ok BodyCloseDelimited => stay (set_state CloseDelimited f)
    | Err e => fail e f
    end
  else stay f.
Definition chunk_size_step (line : bytes) (f : t) : t * list framer_event :=
  if maximum_head_bytes f <? length line then fail (TrailersTooLarge (maximum_head_bytes f)) f
  else if ends_with CRLF line then
    match parse_chunk_size (take (length line - 2) line) with
    | Ok remaining =>
        stay (set_state (if (remaining =? 0)%N then Trailers [] 0 else ChunkData remaining) f)
    | Err e => fail e f
    end
  else stay (set_state (ChunkSize line) f).
Definition terminator_step (matched : N) (byte : u8) (f : t) : t * list framer_event :=
  let expected := if (matched =? 0)%N then CR else LF in
  if bool_decide (byte <> expected) then fail InvalidChunkTerminator f
  else if (matched =? 0)%N then stay (set_state (ChunkDataTerminator 1) f)
  else stay (set_state (ChunkSize []) f).
Definition trailers_step (line : bytes) (seen : nat) (f : t) : t * list framer_event :=
  if maximum_head_bytes f <? seen then fail (TrailersTooLarge (maximum_head_bytes f)) f
  else if ends_with CRLF line then
    if decide (length line = 2) then complete false f
    else if valid_header_line (take (length line - 2) line) then stay (set_state (Trailers [] seen) f)
    else fail InvalidHeaderLine f
  else stay (set_state (Trailers line seen) f).

(** One iteration of the loop in [push] on a non-empty rest [b :: input] of an active
    framer: the new framer, its events and the rest not yet consumed. *)
Definition iteration (b : u8) (input : bytes) (f : t) : t * list framer_event * bytes :=
  match st f with
  | Head =>
      let f := append_bytes [b] f in
      (head_step (set_head (head f ++ [b]) f), input)
  | FixedBody remaining informational =>
      let count := Nat.min (S (length input)) (N.to_nat remaining) in
      let f := append_bytes (take count (b :: input)) f in
      let left := (remaining - N.of_nat count)%N in
      (if (left =? 0)%N then complete informational f
       else stay (set_state (FixedBody left informational) f), drop count (b :: input))
  | ChunkSize line => (chunk_size_step (line ++ [b]) (append_bytes [b] f), input)
  | ChunkData remaining =>
      let count := Nat.min (S (length input)) (N.to_nat remaining) in
      let f := append_bytes (take count (b :: input)) f in
      let left := (remaining - N.of_nat count)%N in
      (stay (set_state (if (left =? 0)%N then ChunkDataTerminator 0 else ChunkData left) f),
       drop count (b :: input))
  | ChunkDataTerminator matched => (terminator_step matched b (append_bytes [b] f), input)
  | Trailers line seen =>
      (trailers_step (line ++ [b]) (S seen) (append_bytes [b] f), input)
  | CloseDelimited => (stay (append_bytes (b :: input) f), [])
  | FailedState => (stay f, b :: input)
  end.
(** A message starts with the first byte read while none is active. *)
Definition activate (f : t) : t * list framer_event :=
  if active f then stay f else (set_active f, [Started (sequence f)]).

(** The loop of [push]; every iteration consumes input, so [length input] steps are enough. *)
Fixpoint push_loop (fuel : nat) (input : bytes) (f : t) : t * list framer_event :=
  match fuel, input with
  | O, _ | _, [] => (f, [])
  | S fuel, b :: input =>
      if decide (st f = FailedState) then (f, [])
      else
        let '(f, started) := activate f in
        let '(f, events, rest) := iteration b input f in
        let '(f, later) := push_loop fuel rest f in
        (f, started ++ events ++ later)
  end.
Definition push (input : bytes) (f : t) : t * list framer_event :=
  push_loop (length input) input f.
Definition eof (f : t) : t * list framer_event :=
  match st f with
  | Head => if active f then fail UnexpectedEof f else (f, [])
  | CloseDelimited => complete false f
  | FailedState => (f, [])
  | _ => fail UnexpectedEof f
  end.
Definition discard (f : t) : t :=
  Make (role f) (maximum_head_bytes f) (maximum_capture_bytes f) FailedState (sequence f) false
    [] [] 0 false.
End Http1Framer.
Import Http1Framer.

(** * Byte-at-a-time reference *)

(** The framer reading one byte; [run] reads a whole stream byte by byte. *)
Definition push_byte (b : u8) (f : t) : t * list framer_event :=
  if decide (st f = FailedState) then (f, [])
  else
    let '(f, started) := activate f in
    let '(f, events, _) := iteration b [] f in (f, started ++ events).
Fixpoint run (input : bytes) (f : t) : t * list framer_event :=
  match input with
  | [] => (f, [])
  | b :: input =>
      let '(f, events) := push_byte b f in
      let '(f, later) := run input f in (f, events ++ later)
  end.
(** Body states always expect at least one byte. *)
Definition state_wf (s : state) : Prop :=
  match s with FixedBody r _ | ChunkData r => (0 < r)%N | _ => True end.

Lemma append_bytes_app x y f : append_bytes (x ++ y) f = append_bytes y (append_bytes x f).
Proof.
  unfold append_bytes. cbn. set (m := maximum_capture_bytes f). set (r := retained f).
  assert (Hlen : lenN (x ++ y) = (lenN x + lenN y)%N) by (unfold lenN; rewrite length_app; lia).
  rewrite Hlen, sat_add_assoc, !length_app, length_take.
  set (k := m - length r). f_equal.
  - rewrite <- app_assoc. f_equal. rewrite take_app. f_equal.
    + destruct (decide (k <= length x)); [f_equal; lia|]. rewrite !take_ge by lia. done.
    + f_equal. lia.
  - rewrite <- orb_assoc. f_equal.
    destruct (decide (k < length x + length y)) as [Hk|Hk].
    + rewrite bool_decide_true by lia. symmetry. apply orb_true_iff.
      destruct (decide (k < length x)); [left|right]; apply bool_decide_eq_true; lia.
    + rewrite !bool_decide_false by lia. done.
Qed.

Lemma iteration_rest b f : state_wf (st f) -> st f <> FailedState -> (iteration b [] f).2 = [].
Proof.
  unfold iteration. destruct (st f) as [|r i|line|r|m|line seen| |]; intros Hwf Hnf; cbn [state_wf snd length] in *; try done.
  all: by replace (Nat.min 1 (N.to_nat r)) with 1 by lia.
Qed.
Lemma body_count r n :
  (0 < r)%N ->
  Nat.min 1 (N.to_nat r) = 1 /\ (r <> 1%N -> Nat.min (S (S n)) (N.to_nat r) = S (Nat.min (S n) (N.to_nat (r - 1)))).
Proof. lia. Qed.
(** An iteration on a longer rest either consumes just the byte, or is the next
    iteration of the body state left by that byte. *)
Lemma iteration_split b input f f1 e1 r1 :
  state_wf (st f) -> st f <> FailedState -> iteration b [] f = (f1, e1, r1) ->
  iteration b input f = (f1, e1, input)
  \/ (e1 = [] /\ active f1 = active f /\ st f1 <> FailedState
      /\ exists c l, input = c :: l /\ iteration b input f = iteration c l f1).
Proof.
  intros Hwf Hnf Hb. pose proof (iteration_rest b f Hwf Hnf) as Hr. rewrite Hb in Hr. cbn in Hr. subst r1.
  destruct input as [|c l]; [by left|].
  unfold iteration in Hb |- *. destruct (st f) as [|r i|line|r|m|line seen| |] eqn:Est; try done.
  all: try (left; apply (f_equal fst) in Hb; cbn [fst] in Hb; rewrite <- Hb; reflexivity).
  - destruct (body_count r (length l) Hwf) as (Hone & Hmany).
    destruct (N.eqb_spec r 1) as [->|Hr]; [left; apply (f_equal fst) in Hb; cbn [fst] in Hb; rewrite <- Hb; reflexivity|right].
    cbn [length] in Hb. rewrite Hone in Hb. rewrite (proj2 (N.eqb_neq _ _)) in Hb by lia.
    injection Hb as <- <-. split_and!; [done|done|done|]. exists c, l. split; [done|].
    cbn [st set_state length]. rewrite Hmany by done. set (n := Nat.min _ (N.to_nat (r - 1))).
    cbn [take drop]. change (b :: take n (c :: l)) with ([b] ++ take n (c :: l)).
    rewrite append_bytes_app. replace (r - N.of_nat (S n))%N with (r - 1 - N.of_nat n)%N by lia.
    done.
  - destruct (body_count r (length l) Hwf) as (Hone & Hmany).
    destruct (N.eqb_spec r 1) as [->|Hr]; [left; apply (f_equal fst) in Hb; cbn [fst] in Hb; rewrite <- Hb; reflexivity|right].
    cbn [length] in Hb. rewrite Hone in Hb. rewrite (proj2 (N.eqb_neq _ _)) in Hb by lia.
    injection Hb as <- <-. split_and!; [done|done|done|]. exists c, l. split; [done|].
    cbn [st set_state length]. rewrite Hmany by done. set (n := Nat.min _ (N.to_nat (r - 1))).
    cbn [take drop]. change (b :: take n (c :: l)) with ([b] ++ take n (c :: l)).
    rewrite append_bytes_app. replace (r - N.of_nat (S n))%N with (r - 1 - N.of_nat n)%N by lia.
    done.
  - right. injection Hb as <- <-. split_and!; [done|done|cbn; by rewrite Est|]. exists c, l.
    split; [done|]. change (b :: c :: l) with ([b] ++ c :: l). rewrite append_bytes_app.
    change (st (append_bytes [b] f)) with (st f). by rewrite Est.
Qed.

Lemma head_step_wf f : state_wf (st f) -> state_wf (st (head_step f).1).
Proof.
  intros Hwf. unfold head_step. case_if; [done|]. case_if; [|done].
  destruct (parse_head (head f) (role f)) as [[i|n| |]|e]; cbn; try done.
  destruct (N.eqb_spec n 0); cbn; [done|lia].
Qed.
Lemma iteration_wf b f :
  state_wf (st f) -> st f <> FailedState -> state_wf (st (iteration b [] f).1.1).
Proof.
  intros Hwf Hnf. unfold iteration. destruct (st f) as [|r i|line|r|m|line seen| |] eqn:Est; cbn [fst]; try done.
  - apply head_step_wf. cbn. by rewrite Est.
  - case_if; [done|]. apply N.eqb_neq in Heqb0. cbn [stay fst set_state st state_wf]. lia.
  - unfold chunk_size_step. repeat case_if; cbn; try done.
    destruct (parse_chunk_size _) as [n|e]; cbn; [|done]. destruct (N.eqb_spec n 0); cbn; [done|lia].
  - cbn [stay fst set_state st]. case_if; [done|]. apply N.eqb_neq in Heqb0. cbn [state_wf]. lia.
  - unfold terminator_step. repeat case_if; done.
  - unfold trailers_step. repeat case_if; done.
  - cbn. by rewrite Est.
Qed.
Lemma activate_st f : st (activate f).1 = st f /\ active (activate f).1 = true.
Proof. unfold activate. destruct (active f) eqn:E; cbn; by rewrite ?E. Qed.
Lemma activate_active f : active f = true -> activate f = (f, []).
Proof. unfold activate. by intros ->. Qed.
Lemma push_byte_wf b f : state_wf (st f) -> state_wf (st (push_byte b f).1).
Proof.
  intros Hwf. unfold push_byte. case_decide as Hf; [done|].
  destruct (activate_st f) as [Ha _]. destruct (activate f) as [g started]. cbn [fst] in Ha.
  rewrite <- Ha in Hwf, Hf. pose proof (iteration_wf b g Hwf Hf) as Hw.
  by destruct (iteration b [] g) as [[h e] r].
Qed.
Lemma run_wf input f : state_wf (st f) -> state_wf (st (run input f).1).
Proof.
  revert f; induction input as [|b input IH]; intros f Hwf; cbn; [done|].
  pose proof (push_byte_wf b f Hwf) as Hw. destruct (push_byte b f) as [g e]. cbn in Hw.
  specialize (IH g Hw). by destruct (run input g).
Qed.
Lemma run_failed input f : st f = FailedState -> run input f = (f, []).
Proof.
  intros Hf. induction input as [|b input IH]; cbn; [done|].
  unfold push_byte. rewrite decide_True by done. by rewrite IH.
Qed.
Lemma push_loop_failed fuel input f : st f = FailedState -> push_loop fuel input f = (f, []).
Proof. intros Hf. destruct fuel, input; cbn; try done. by rewrite decide_True. Qed.
Lemma run_app a b f :
  run (a ++ b) f = let '(g, e) := run a f in let '(h, e') := run b g in (h, e ++ e').
Proof.
  revert f; induction a as [|x a IH]; intros f; cbn; [by destruct (run b f)|].
  destruct (push_byte x f) as [g e]. rewrite IH. destruct (run a g) as [h e'].
  destruct (run b h) as [k e'']. by rewrite app_assoc.
Qed.

(** The rest of the loop after an iteration, in terms of the bytewise machine. *)
Lemma iteration_run fuel b input f :
  (forall input f, length input <= fuel -> state_wf (st f) -> push_loop fuel input f = run input f) ->
  length input <= fuel -> state_wf (st f) -> st f <> FailedState -> active f = true ->
  (let '(g, e, rest) := iteration b input f in
   let '(h, later) := push_loop fuel rest g in (h, e ++ later))
  = (let '(g, e, _) := iteration b [] f in let '(h, later) := run input g in (h, e ++ later)).
Proof.
  intros Hfuel. revert b f. induction input as [|c input IH]; intros b f Hlen Hwf Hnf Hact.
  all: pose proof (iteration_wf b f Hwf Hnf) as Hw.
  all: destruct (iteration b [] f) as [[f1 e1] r1] eqn:Hb; cbn [fst] in Hw.
  - assert (r1 = []) as -> by (pose proof (iteration_rest b f Hwf Hnf) as Hr; by rewrite Hb in Hr).
    by rewrite Hfuel by done.
  - destruct (iteration_split b (c :: input) f f1 e1 r1 Hwf Hnf Hb)
      as [->|(-> & Ha & Hf1 & c' & l' & [= <- <-] & ->)].
    + by rewrite Hfuel by done.
    + cbn in Hlen. rewrite Hact in Ha. rewrite IH by (done || lia). cbn [run]. unfold push_byte.
      rewrite decide_False, activate_active by done.
      destruct (iteration c [] f1) as [[f2 e2] r2]. cbn. by destruct (run input f2).
Qed.
Lemma push_loop_run fuel input f :
  length input <= fuel -> state_wf (st f) -> push_loop fuel input f = run input f.
Proof.
  revert input f; induction fuel as [|fuel IH]; intros input f Hlen Hwf;
    (destruct input as [|b input]; [done|]); cbn in Hlen; [lia|].
  cbn [push_loop run]. unfold push_byte. case_decide as Hf; [by rewrite run_failed|].
  destruct (activate_st f) as [Hst Hact]. destruct (activate f) as [g started]. cbn [fst] in Hst, Hact.
  rewrite <- Hst in Hwf, Hf.
  pose proof (iteration_run fuel b input g IH ltac:(lia) Hwf Hf Hact) as Hi.
  destruct (iteration b input g) as [[f1 e1] r1]. destruct (iteration b [] g) as [[f2 e2] r2].
  destruct (push_loop fuel r1 f1) as [h later]. destruct (run input f2) as [h' later'].
  injection Hi as -> Hev. by rewrite <- app_assoc, Hev.
Qed.
Lemma push_run input f : state_wf (st f) -> push input f = run input f.
Proof. by apply push_loop_run. Qed.

(** * Message boundaries *)

(** The capture of the message bytes [m]: a bounded prefix with exact counters. *)
Definition captured (maximum : nat) (m : bytes) (informational : bool) : wire_message :=
  WireMessage (take maximum m) (N.min (lenN m) u64_max) (bool_decide (maximum < length m)) informational.
(** The framer's counters describe the bytes [cur] of the message in progress. *)
Record tracks (f : t) (cur : bytes) : Prop := {
  tracks_retained : retained f = take (maximum_capture_bytes f) cur;
  tracks_observed : observed f = N.min (lenN cur) u64_max;
  tracks_truncated : truncated f = bool_decide (maximum_capture_bytes f < length cur) }.
(** Same counters, sequence and limits; state and head may differ. *)
Record same_core (f g : t) : Prop := {
  core_capture : maximum_capture_bytes g = maximum_capture_bytes f;
  core_head : maximum_head_bytes g = maximum_head_bytes f;
  core_role : role g = role f;
  core_sequence : sequence g = sequence f;
  core_active : active g = active f;
  core_retained : retained g = retained f;
  core_observed : observed g = observed f;
  core_truncated : truncated g = truncated f }.
Lemma same_core_refl f : same_core f f.
Proof. by split. Qed.
Lemma tracks_core f g cur : same_core f g -> tracks f cur -> tracks g cur.
Proof. intros [H1 _ _ _ _ H2 H3 H4] [T1 T2 T3]. split; by rewrite ?H1, ?H2, ?H3, ?H4. Qed.
Lemma tracks_append f cur b : tracks f cur -> tracks (append_bytes [b] f) (cur ++ [b]).
Proof.
  intros [T1 T2 T3]. set (m := maximum_capture_bytes f).
  split; cbn [append_bytes retained observed truncated maximum_capture_bytes length]; fold m;
    rewrite ?T1, ?T2, ?T3; fold m.
  - rewrite length_take, take_app. f_equal.
    destruct (decide (m <= length cur)); [f_equal; lia|].
    rewrite !(take_ge [b]); cbn; [done|lia|lia].
  - unfold lenN, sat_add. rewrite length_app. cbn [length]. lia.
  - rewrite length_take, length_app. cbn [length].
    destruct (decide (m < length cur)).
    + rewrite (bool_decide_true (m < length cur)), (bool_decide_true (m < length cur + 1)); [done|lia|lia].
    + rewrite (bool_decide_false (m < length cur)) by lia. cbn [orb]. apply bool_decide_ext. lia.
Qed.

(** Every step of an active framer stays, completes or fails on the appended byte. *)
Inductive outcome (f : t) : t * list framer_event -> Prop :=
| outcome_stay g : same_core f g -> st g <> FailedState -> outcome f (stay g)
| outcome_complete g i : same_core f g -> outcome f (complete i g)
| outcome_fail g e : same_core f g -> outcome f (fail e g).
#[local] Hint Constructors outcome : core.
#[local] Hint Resolve same_core_refl : core.
Lemma iteration_outcome b f :
  state_wf (st f) -> st f <> FailedState -> outcome (append_bytes [b] f) (iteration b [] f).1.
Proof.
  intros Hwf Hnf. unfold iteration. destruct (st f) as [|r i|line|r|m|line seen| |] eqn:Est;
    cbn [fst]; cbn [state_wf] in Hwf; try done.
  - unfold head_step. cbn [maximum_head_bytes set_head append_bytes head role].
    set (h := head f ++ [b]).
    assert (Hc : same_core (append_bytes [b] f) (set_head h (append_bytes [b] f))) by done.
    case_if; [by constructor|]. case_if; [|constructor; [done|cbn; by rewrite Est]].
    destruct (parse_head h (role f)) as [[j|n| |]|e]; try (by constructor). by case_if; constructor.
  - replace (Nat.min (S (length [])) (N.to_nat r)) with 1 by (cbn [length]; lia).
    cbn [take]. case_if; [by constructor|]. by constructor.
  - unfold chunk_size_step. case_if; [by constructor|]. case_if; [|by constructor].
    destruct (parse_chunk_size _); [|by constructor]. constructor; [done|]. by case_if.
  - replace (Nat.min (S (length [])) (N.to_nat r)) with 1 by (cbn [length]; lia).
    cbn [take]. constructor; [done|]. by case_if.
  - unfold terminator_step. repeat case_if; by constructor.
  - unfold trailers_step. case_if; [by constructor|]. case_if; [|by constructor].
    case_decide; [by constructor|]. case_if; by constructor.
  - constructor; [done|]. cbn. by rewrite Est.
Qed.

(** ** Grammar of captured messages *)

Section Grammar.
Variables (mh : nat) (rl : message_role).

(** No prefix of [l] ends with [term]; no proper prefix does. *)
Definition open_line (term l : bytes) : Prop := forall p s, l = p ++ s -> ends_with term p = false.
Definition first_end (term l : bytes) : Prop :=
  exists l' b, l = l' ++ [b] /\ open_line term l' /\ ends_with term l = true.
Definition content (l : bytes) : bytes := take (length l - 2) l.
Definition head_of (h : bytes) (b : body_framing) : Prop :=
  first_end (CRLF ++ CRLF) h /\ length h <= mh /\ parse_head h rl = Ok b.
Definition size_line (l : bytes) (n : N) : Prop :=
  first_end CRLF l /\ length l <= mh /\ parse_chunk_size (content l) = Ok n.
(** Chunks with data, in order; trailer lines, within one limit for all of them. *)
Inductive chunks : bytes -> Prop :=
| chunks_nil : chunks []
| chunks_snoc p l n d :
    chunks p -> size_line l n -> (0 < n)%N -> lenN d = n -> chunks (p ++ l ++ d ++ CRLF).
Inductive trailer_lines : bytes -> Prop :=
| trailers_nil : trailer_lines []
| trailers_snoc t l :
    trailer_lines t -> first_end CRLF l -> length l <> 2 -> valid_header_line (content l) = true ->
    length (t ++ l) <= mh -> trailer_lines (t ++ l).
(** One message and whether it is informational. *)
Inductive message : bytes -> bool -> Prop :=
| message_bodyless h i : head_of h (BodyNone i) -> message h i
| message_fixed h n b : head_of h (BodyFixed n) -> lenN b = n -> message (h ++ b) false
| message_chunked h p l t :
    head_of h BodyChunked -> chunks p -> size_line l 0 -> trailer_lines t -> length t + 2 <= mh ->
    message (h ++ p ++ l ++ t ++ CRLF) false.
(** What a framer state knows of the message in progress: state, head buffer, bytes. *)
Inductive partial : state -> bytes -> bytes -> Prop :=
| partial_head h : open_line (CRLF ++ CRLF) h -> length h <= mh -> partial Head h h
| partial_fixed hd h b n r :
    head_of h (BodyFixed n) -> (lenN b + r)%N = n -> (0 < r)%N -> partial (FixedBody r false) hd (h ++ b)
| partial_size hd h p line :
    head_of h BodyChunked -> chunks p -> open_line CRLF line -> length line <= mh ->
    partial (ChunkSize line) hd (h ++ p ++ line)
| partial_data hd h p l n d r :
    head_of h BodyChunked -> chunks p -> size_line l n -> (lenN d + r)%N = n -> (0 < r)%N ->
    partial (ChunkData r) hd (h ++ p ++ l ++ d)
| partial_cr hd h p l n d :
    head_of h BodyChunked -> chunks p -> size_line l n -> (0 < n)%N -> lenN d = n ->
    partial (ChunkDataTerminator 0) hd (h ++ p ++ l ++ d)
| partial_lf hd h p l n d :
    head_of h BodyChunked -> chunks p -> size_line l n -> (0 < n)%N -> lenN d = n ->
    partial (ChunkDataTerminator 1) hd (h ++ p ++ l ++ d ++ [CR])
| partial_trailers hd h p l t line :
    head_of h BodyChunked -> chunks p -> size_line l 0 -> trailer_lines t -> open_line CRLF line ->
    length t + length line <= mh ->
    partial (Trailers line (length t + length line)) hd (h ++ p ++ l ++ t ++ line)
| partial_close hd h b : head_of h BodyCloseDelimited -> partial CloseDelimited hd (h ++ b).

Lemma open_nil term : term <> [] -> open_line term [].
Proof.
  intros Ht p s Hp. symmetry in Hp. apply app_eq_nil in Hp as [-> ->].
  apply not_true_is_false. rewrite ends_with_spec. intros (r & Hr). symmetry in Hr.
  by apply app_eq_nil in Hr as [_ ?].
Qed.
Lemma open_snoc term l b :
  open_line term l -> ends_with term (l ++ [b]) = false -> open_line term (l ++ [b]).
Proof.
  intros Ho He p s Hp. destruct s as [|x s _] using rev_ind; [by rewrite app_nil_r in Hp; subst p|].
  rewrite app_assoc in Hp. apply app_inj_tail in Hp as [Hp _]. by eapply Ho.
Qed.
Lemma first_end_snoc term l b :
  open_line term l -> ends_with term (l ++ [b]) = true -> first_end term (l ++ [b]).
Proof. intros Ho He. by exists l, b. Qed.
(** A line of two bytes that ends with a line break is the line break. *)
Lemma crlf_only l : ends_with CRLF l = true -> length l = 2 -> l = CRLF.
Proof.
  intros (r & ->)%ends_with_spec. rewrite length_app. cbn. destruct r; cbn; [done|lia].
Qed.
End Grammar.
#[local] Hint Constructors partial message chunks trailer_lines : core.
#[local] Hint Resolve first_end_snoc open_snoc open_nil : core.

(** The three ways a step can follow the grammar. *)
Definition follows (mh : nat) (rl : message_role) (cur : bytes) (r : t * list framer_event) : Prop :=
  (exists g, r = stay g /\ partial mh rl (st g) (head g) cur)
  \/ (exists g i, r = complete i g /\ message mh rl cur i) \/ (exists g e, r = fail e g).
Lemma follows_stay mh rl cur g : partial mh rl (st g) (head g) cur -> follows mh rl cur (stay g).
Proof. intros H. left. by exists g. Qed.
Lemma follows_complete mh rl cur g i : message mh rl cur i -> follows mh rl cur (complete i g).
Proof. intros H. right. left. by exists g, i. Qed.
Lemma framer_follows_fail mh rl cur g e : follows mh rl cur (fail e g).
Proof. right. right. by exists g, e. Qed.
#[local] Hint Resolve follows_stay follows_complete framer_follows_fail : core.

Lemma head_follows mh h b f :
  maximum_head_bytes f = mh -> st f = Head -> head f = h ++ [b] -> open_line (CRLF ++ CRLF) h ->
  follows mh (role f) (h ++ [b]) (head_step f).
Proof.
  intros Hmh Hst Hh Ho. unfold head_step. rewrite Hmh, Hh. set (c := h ++ [b]) in *.
  destruct (Nat.ltb_spec mh (length c)) as [Hlt|Hge]; [auto|].
  destruct (ends_with _ c) eqn:E.
  2:{ apply follows_stay. rewrite Hst, Hh. constructor; [by apply open_snoc|done]. }
  assert (Hf : first_end (CRLF ++ CRLF) c) by (by apply first_end_snoc).
  destruct (parse_head c (role f)) as [[i|n| |]|e] eqn:Ep; [| | | |auto].
  - apply follows_complete. by constructor.
  - assert (Hd : head_of mh (role f) c (BodyFixed n)) by done.
    destruct (N.eqb_spec n 0) as [->|Hn].
    + apply follows_complete. rewrite <- (app_nil_r c). by econstructor.
    + apply follows_stay. rewrite <- (app_nil_r c). econstructor; [done|done|lia].
  - apply follows_stay. rewrite <- (app_nil_r c).
    apply (partial_size _ _ _ _ [] []); [done|constructor|by apply open_nil|cbn; lia].
  - apply follows_stay. rewrite <- (app_nil_r c). by constructor.
Qed.
Lemma lenN_snoc {A} (l : list A) x : lenN (l ++ [x]) = (lenN l + 1)%N.
Proof. unfold lenN. rewrite length_app. cbn. lia. Qed.
Lemma iteration_grammar mh b f cur :
  maximum_head_bytes f = mh -> partial mh (role f) (st f) (head f) cur ->
  follows mh (role f) (cur ++ [b]) (iteration b [] f).1.
Proof.
  intros Hmh Hp. unfold iteration.
  destruct (st f) as [|r i|line|r|m|line seen| |] eqn:Est; cbn [fst]; inversion Hp; subst cur; clear Hp.
  - change (role f) with (role (set_head (head (append_bytes [b] f) ++ [b]) (append_bytes [b] f))).
    by apply head_follows.
  - subst. replace (Nat.min (S (length [])) (N.to_nat r)) with 1 by (cbn [length]; lia).
    cbn [take]. rewrite <- app_assoc. destruct (N.eqb_spec (r - N.of_nat 1) 0).
    + apply follows_complete. eapply message_fixed; [done|]. rewrite lenN_snoc. lia.
    + apply follows_stay. eapply partial_fixed; [done| |lia]. rewrite lenN_snoc. lia.
  - rewrite <- !app_assoc. unfold chunk_size_step. cbn [maximum_head_bytes append_bytes].
    set (l := line ++ [b]). destruct (Nat.ltb_spec (maximum_head_bytes f) (length l)) as [|Hge]; [auto|].
    rewrite Hmh in Hge. destruct (ends_with CRLF l) eqn:E.
    2:{ apply follows_stay. constructor; try done. by apply open_snoc. }
    fold (content l). destruct (parse_chunk_size (content l)) as [n|e] eqn:En; [|auto].
    apply follows_stay. assert (Hl : size_line mh l n) by (split; [by apply first_end_snoc|done]).
    cbn [st set_state]. destruct (N.eqb_spec n 0) as [->|Hn].
    + rewrite <- (app_nil_r l). apply (partial_trailers _ _ _ _ _ _ [] []); try done; try (cbn; lia). by apply open_nil.
    + rewrite <- (app_nil_r l). eapply partial_data; try done. lia.
  - replace (Nat.min (S (length [])) (N.to_nat r)) with 1 by (cbn [length]; lia).
    cbn [take]. rewrite <- !app_assoc. apply follows_stay. cbn [st set_state].
    destruct (N.eqb_spec (r - N.of_nat 1) 0).
    + eapply partial_cr; try done; [|rewrite lenN_snoc; lia]. lia.
    + eapply partial_data; try done; [rewrite lenN_snoc; lia|lia].
  - unfold terminator_step. cbn [N.eqb]. case_if; [auto|]. apply bool_decide_eq_false, dec_stable in Heqb0 as ->.
    apply follows_stay. rewrite <- !app_assoc. by eapply partial_lf.
  - unfold terminator_step. cbn [N.eqb]. case_if; [auto|]. apply bool_decide_eq_false, dec_stable in Heqb0 as ->.
    apply follows_stay. rewrite <- !app_assoc. cbn [app].
    replace (h ++ p ++ l ++ d ++ [CR; LF]) with (h ++ (p ++ l ++ d ++ CRLF) ++ []) by (by rewrite app_nil_r).
    apply partial_size; [done|by econstructor|by apply open_nil|cbn; lia].
  - rewrite <- !app_assoc. unfold trailers_step. cbn [maximum_head_bytes append_bytes].
    set (l' := line ++ [b]).
    assert (Hlen : S (length t0 + length line) = length t0 + length l')
      by (unfold l'; rewrite length_app; cbn; lia).
    destruct (Nat.ltb_spec (maximum_head_bytes f) (S (length t0 + length line))) as [|Hge]; [auto|].
    rewrite Hmh, Hlen in Hge. destruct (ends_with CRLF l') eqn:E.
    2:{ apply follows_stay. cbn [st set_state]. rewrite Hlen. constructor; try done. by apply open_snoc. }
    case_decide as Htwo.
    + apply follows_complete. rewrite (crlf_only l' E Htwo) in *. apply message_chunked; try done.
    + fold (content l'). case_if; [|auto]. apply follows_stay. cbn [st set_state]. rewrite Hlen.
      rewrite <- (length_app t0 l').
      replace (length (t0 ++ l')) with (length (t0 ++ l') + length (@nil u8)) by (cbn; lia).
      replace (h ++ p ++ l ++ t0 ++ l') with (h ++ p ++ l ++ (t0 ++ l') ++ []) by (by rewrite app_nil_r).
      apply partial_trailers; try done.
      * constructor; try done; [by apply first_end_snoc|rewrite length_app; lia].
      * by apply open_nil.
      * rewrite length_app. cbn. lia.
  - apply follows_stay. cbn [st append_bytes]. rewrite Est, <- app_assoc. by constructor.
Qed.
(** Events of completed messages, numbered from [n]. *)
Fixpoint message_events (maximum : nat) (n : N) (ms : list (bytes * bool)) : list framer_event :=
  match ms with
  | [] => []
  | (m, i) :: ms => Started n :: Complete n (captured maximum m i) :: message_events maximum (sat_add n 1) ms
  end.
Fixpoint next_sequence (n : N) (ms : list (bytes * bool)) : N :=
  match ms with [] => n | _ :: ms => next_sequence (sat_add n 1) ms end.
Lemma message_events_snoc maximum n ms m i :
  message_events maximum n (ms ++ [(m, i)])
  = message_events maximum n ms
    ++ [Started (next_sequence n ms); Complete (next_sequence n ms) (captured maximum m i)].
Proof. revert n; induction ms as [|[m' i'] ms IH]; intros n; cbn; [done|]. by rewrite IH. Qed.
Lemma next_sequence_snoc n ms x : next_sequence n (ms ++ [x]) = sat_add (next_sequence n ms) 1.
Proof. revert n; induction ms as [|y ms IH]; intros n; cbn; [done|]. by rewrite IH. Qed.

(** The bytes read so far are the completed messages followed by [rest], the bytes of
    the message in progress (or of the one that failed). *)
Record history (rl : message_role) (mh maximum : nat) (input : bytes) (f : t)
    (events : list framer_event) (ms : list (bytes * bool)) (rest : bytes) : Prop := {
  history_input : input = concat (map fst ms) ++ rest;
  history_messages : Forall (fun m => m.1 <> [] /\ message mh rl m.1 m.2) ms;
  history_limit : maximum_capture_bytes f = maximum;
  history_head : maximum_head_bytes f = mh;
  history_role : role f = rl;
  history_sequence : sequence f = next_sequence 0 ms;
  history_live : st f <> FailedState ->
    state_wf (st f) /\ active f = negb (bool_decide (rest = [])) /\ tracks f rest
    /\ partial mh rl (st f) (head f) rest
    /\ events = message_events maximum 0 ms
                ++ (if bool_decide (rest = []) then [] else [Started (next_sequence 0 ms)]);
  history_failed : st f = FailedState ->
    rest <> [] /\ exists e, events = message_events maximum 0 ms
      ++ [Started (next_sequence 0 ms); Failed (next_sequence 0 ms) e] }.

Lemma activate_core f : active f = true \/ activate f = (set_active f, [Started (sequence f)]).
Proof. unfold activate. destruct (active f); [by left|by right]. Qed.
Lemma history_new role mh mc : history role mh mc [] (new role mh mc) [] [] [].
Proof.
  split; cbn; try done. intros _. split; [done|]. split; [done|].
  split; [split; cbn; by rewrite ?take_nil|]. split; [|done].
  constructor; [by apply open_nil|cbn; lia].
Qed.
Lemma follows_complete_inv mh rl cur g i : follows mh rl cur (complete i g) -> message mh rl cur i.
Proof.
  intros [(h & Heq & _)|[(h & j & Heq & Hm)|(h & e & Heq)]]; unfold complete, stay, fail in Heq; try done.
  apply (f_equal snd) in Heq. cbn [snd] in Heq. assert (i = j) as -> by (by injection Heq). done.
Qed.
Lemma follows_stay_inv mh rl cur g : follows mh rl cur (stay g) -> partial mh rl (st g) (head g) cur.
Proof.
  intros [(h & Heq & Hp)|[(h & j & Heq & _)|(h & e & Heq)]]; unfold complete, stay, fail in Heq; try done.
  by injection Heq as ->.
Qed.
Lemma history_step rl mh maximum input f events ms rest b :
  history rl mh maximum input f events ms rest ->
  let '(g, e) := push_byte b f in exists ms' rest',
  history rl mh maximum (input ++ [b]) g (events ++ e) ms' rest'.
Proof.
  intros [Hin Hne Hmax Hmh Hrl Hseq Hlive Hfail]. unfold push_byte. case_decide as Hf.
  { destruct (Hfail Hf) as (Hr & e & ->). exists ms, (rest ++ [b]). rewrite app_nil_r.
    split; try done; [by rewrite Hin, app_assoc|]. intros _. split; [by destruct rest|by exists e]. }
  destruct (Hlive Hf) as (Hwf & Hact & Htr & Hpart & ->). clear Hlive Hfail.
  set (n := next_sequence 0 ms) in *.
  assert (Hg : exists g s, activate f = (g, s) /\ same_core (set_active f) g /\ st g = st f /\ head g = head f
    /\ (if bool_decide (rest = []) then [] else [Started n]) ++ s = [Started n]).
  { unfold activate. rewrite Hact. destruct (bool_decide (rest = [])) eqn:Er; cbn [negb].
    - exists (set_active f), [Started (sequence f)]. rewrite Hseq.
      split; [done|]. split; [apply same_core_refl|done].
    - exists f, []. split; [done|]. split; [by split|done]. }
  destruct Hg as (g & s & -> & Hcg & Hst & Hhd & Hs). rewrite <- Hst in Hwf, Hf.
  assert (Htr' : tracks (set_active f) rest) by (destruct Htr; by split). clear Htr.
  apply (tracks_core (set_active f) g) in Htr'; [|done].
  destruct Hcg as [Hmaxg Hmhg Hrlg Hseqg Hactg _ _ _]. cbn in Hmaxg, Hmhg, Hrlg, Hseqg, Hactg.
  apply (tracks_append g rest b) in Htr' as Htr.
  pose proof (iteration_wf b g Hwf Hf) as Hw. pose proof (iteration_outcome b g Hwf Hf) as Ho.
  assert (Hfol : follows mh rl (rest ++ [b]) (iteration b [] g).1).
  { rewrite <- Hrl, <- Hrlg. apply iteration_grammar; [by rewrite Hmhg|]. by rewrite Hrlg, Hst, Hhd, Hrl. }
  destruct (iteration b [] g) as [[g' e'] r]. cbn [fst] in Hw, Ho, Hfol.
  assert (Hev : (message_events maximum 0 ms ++ (if bool_decide (rest = []) then [] else [Started n]))
    ++ s ++ e' = message_events maximum 0 ms ++ Started n :: e')
    by (rewrite <- (app_assoc (message_events _ _ _)), (app_assoc _ s), Hs; done).
  rewrite Hev. clear Hev Hs.
  assert (Hsnoc : rest ++ [b] <> []) by (by destruct rest).
  inversion Ho as [h Hcore Hnf Heq|h i Hcore Heq|h e Hcore Heq]; subst g' e';
    apply (tracks_core _ h) in Htr; try done;
    destruct Hcore as [Hc1 Hc2 Hc3 Hc4 Hc5 _ _ _]; cbn in Hc1, Hc2, Hc3, Hc4, Hc5.
  - exists ms, (rest ++ [b]). apply follows_stay_inv in Hfol.
    split; [by rewrite Hin, app_assoc|done|by rewrite Hc1, Hmaxg|by rewrite Hc2, Hmhg|by rewrite Hc3, Hrlg
           |by rewrite Hc4, Hseqg| |done].
    intros _. rewrite bool_decide_false by done.
    split; [done|]. split; [by rewrite Hc5|]. by split.
  - exists (ms ++ [(rest ++ [b], i)]), []. apply follows_complete_inv in Hfol.
    split; [| |cbn; by rewrite Hc1, Hmaxg|cbn; by rewrite Hc2, Hmhg|cbn; by rewrite Hc3, Hrlg| | |done].
    + rewrite Hin, map_app, concat_app, app_nil_r, <- app_assoc. cbn. by rewrite app_nil_r.
    + apply Forall_app. split; [done|]. by constructor.
    + cbn. by rewrite next_sequence_snoc, Hc4, Hseqg, Hseq.
    + intros _. rewrite bool_decide_true, app_nil_r, message_events_snoc by done.
      split; [done|]. split; [done|]. split; [split; cbn; by rewrite ?take_nil|].
      split; [constructor; [by apply open_nil|cbn; lia]|].
      cbn. fold n. rewrite Hc4, Hseqg, Hseq. destruct Htr as [-> -> ->]. by rewrite Hc1, Hmaxg, Hmax.
  - exists ms, (rest ++ [b]).
    split; [by rewrite Hin, app_assoc|done|cbn; by rewrite Hc1, Hmaxg|cbn; by rewrite Hc2, Hmhg
           |cbn; by rewrite Hc3, Hrlg|cbn; by rewrite Hc4, Hseqg|done|].
    intros _. split; [done|]. exists e. cbn. fold n. by rewrite Hc4, Hseqg, Hseq.
Qed.

Lemma run_snoc input b f :
  run (input ++ [b]) f
  = let '(g, e) := run input f in let '(h, e') := push_byte b g in (h, e ++ e').
Proof.
  rewrite run_app. destruct (run input f) as [g e]. cbn.
  destruct (push_byte b g) as [h e']. by rewrite app_nil_r.
Qed.
Lemma run_history role mh mc input :
  let '(f, events) := run input (new role mh mc) in exists ms rest, history role mh mc input f events ms rest.
Proof.
  induction input as [|b input IH] using rev_ind; [exists [], []; apply history_new|].
  rewrite run_snoc. destruct (run input _) as [g e]. destruct IH as (ms & rest & Hh).
  pose proof (history_step role mh mc input g e ms rest b Hh) as Hs. by destruct (push_byte b g).
Qed.

(** [push] on each chunk of a stream in turn. *)
Fixpoint push_all (chunks : list bytes) (f : t) : t * list framer_event :=
  match chunks with
  | [] => (f, [])
  | c :: chunks =>
      let '(f, events) := push c f in
      let '(f, later) := push_all chunks f in (f, events ++ later)
  end.
Lemma push_all_run chunks f : state_wf (st f) -> push_all chunks f = run (concat chunks) f.
Proof.
  revert f; induction chunks as [|c chunks IH]; intros f Hwf; cbn; [done|].
  rewrite push_run, run_app by done. pose proof (run_wf c f Hwf) as Hw.
  destruct (run c f) as [g e]. by rewrite IH.
Qed.

(** ** Memory *)

Definition line_bounded (f : t) : Prop :=
  match st f with
  | Head => length (head f) <= maximum_head_bytes f
  | ChunkSize line => length line <= maximum_head_bytes f
  | Trailers line seen => length line <= seen <= maximum_head_bytes f
  | _ => True
  end.
Record core_bounded (mh mc : nat) (f : t) : Prop := {
  bounded_limits : maximum_head_bytes f = mh /\ maximum_capture_bytes f = mc;
  bounded_head : length (head f) <= S mh;
  bounded_retained : length (retained f) <= mc }.
Definition memory_bounded (mh mc : nat) (f : t) : Prop := core_bounded mh mc f /\ line_bounded f.

Lemma core_bounded_append mh mc x f : core_bounded mh mc f -> core_bounded mh mc (append_bytes x f).
Proof.
  intros [[H1 H2] H3 H4]. split; cbn [append_bytes maximum_head_bytes maximum_capture_bytes head retained];
    [done|done|]. rewrite H2, length_app, length_take. lia.
Qed.
Lemma core_bounded_state mh mc s f : core_bounded mh mc f -> core_bounded mh mc (set_state s f).
Proof. intros [H1 H2 H3]. by split. Qed.
Lemma bounded_reset mh mc f : core_bounded mh mc f -> memory_bounded mh mc (reset f).
Proof. intros [[H1 H2] _ _]. split; [split|]; cbn; try done; lia. Qed.
Lemma bounded_fail mh mc e f : core_bounded mh mc f -> memory_bounded mh mc (fail e f).1.
Proof. intros H. split; [by apply core_bounded_state|done]. Qed.
#[local] Hint Resolve core_bounded_append core_bounded_state bounded_reset bounded_fail : core.

Lemma iteration_bounded mh mc b f :
  memory_bounded mh mc f -> st f <> FailedState -> memory_bounded mh mc (iteration b [] f).1.1.
Proof.
  intros [Hc Hl] Hnf. pose proof Hc as [[Hmh Hmc] _ _].
  assert (Ha : core_bounded mh mc (append_bytes [b] f)) by auto.
  unfold line_bounded in Hl. unfold iteration.
  destruct (st f) as [|r i|line|r|m|line seen| |] eqn:Est; cbn [fst]; try done.
  - unfold head_step. set (g := set_head _ _).
    assert (Hg : core_bounded mh mc g).
    { destruct Ha as [H1 H2 H3]. split; [done| |done]. cbn. rewrite length_app. cbn. lia. }
    destruct (Nat.ltb_spec (maximum_head_bytes g) (length (head g))) as [Hlt|Hge]; [auto|].
    case_if; [|split; [done|unfold line_bounded; cbn in *; by rewrite Est]].
    destruct (parse_head (head g) (role g)) as [[j|n| |]|e]; cbn [fst complete stay]; auto;
      try (split; [cbn [fst stay]; auto|cbn; try done; lia]).
    case_if; cbn [fst complete stay]; auto. split; [cbn [fst stay]; auto|cbn; try done; lia].
  - case_if; cbn [fst complete stay]; auto. split; [cbn [fst stay]; auto|cbn; try done; lia].
  - unfold chunk_size_step. set (l := line ++ [b]).
    destruct (Nat.ltb_spec (maximum_head_bytes (append_bytes [b] f)) (length l)) as [Hlt|Hge]; [auto|].
    case_if; [|split; [cbn [fst stay]; auto|cbn; try done; lia]].
    destruct (parse_chunk_size _) as [n|e]; cbn [fst stay]; auto.
    case_if; (split; [cbn [fst stay]; auto|cbn; try done; lia]).
  - cbn [fst stay]. case_if; (split; [cbn [fst stay]; auto|cbn; try done; lia]).
  - unfold terminator_step. repeat case_if; auto; (split; [cbn [fst stay]; auto|cbn; try done; lia]).
  - unfold trailers_step. cbn in Hmh.
    destruct (Nat.ltb_spec (maximum_head_bytes (append_bytes [b] f)) (S seen)) as [Hlt|Hge]; [auto|].
    case_if; [|split; [cbn [fst stay]; auto|cbn in *; rewrite length_app; cbn; lia]].
    case_decide; [cbn [fst complete]; auto|]. case_if; [|auto]. split; [cbn [fst stay]; auto|]. cbn in *. lia.
  - cbn [fst stay]. split; [auto|]. unfold line_bounded. cbn. by rewrite Est.
Qed.
Lemma push_byte_bounded mh mc b f :
  memory_bounded mh mc f -> memory_bounded mh mc (push_byte b f).1.
Proof.
  intros Hb. unfold push_byte. case_decide as Hf; [done|].
  assert (Hg : memory_bounded mh mc (activate f).1 /\ st (activate f).1 = st f).
  { unfold activate. destruct (active f); [done|]. destruct Hb as [[H1 H2 H3] Hl].
    split; [|done]. split; [by split|done]. }
  destruct (activate f) as [g s]. cbn [fst] in Hg. destruct Hg as [Hg Hst]. rewrite <- Hst in Hf.
  pose proof (iteration_bounded mh mc b g Hg Hf) as Hi. by destruct (iteration b [] g) as [[h e] r].
Qed.
Lemma run_bounded mh mc input f : memory_bounded mh mc f -> memory_bounded mh mc (run input f).1.
Proof.
  revert f; induction input as [|b input IH]; intros f Hb; cbn; [done|].
  pose proof (push_byte_bounded mh mc b f Hb) as Hp. destruct (push_byte b f) as [g e]. cbn in Hp.
  specialize (IH g Hp). by destruct (run input g).
Qed.
Lemma new_bounded role mh mc : memory_bounded mh mc (new role mh mc).
Proof. split; [split|]; cbn; try done; lia. Qed.

(** ** Every message of the grammar is framed *)

Lemma push_byte_active b f :
  active f = true -> st f <> FailedState -> push_byte b f = (iteration b [] f).1.
Proof.
  intros Ha Hf. unfold push_byte. rewrite decide_False, activate_active by done.
  by destruct (iteration b [] f) as [[g e] r].
Qed.
(** Reading [l] only moves the state to [s] and appends [l] to the counters. *)
Definition reads (f : t) (l : bytes) (s : state) : Prop :=
  run l f = (set_state s (append_bytes l f), []).
Lemma reads_app f l1 l2 s1 s2 :
  reads f l1 s1 -> reads (set_state s1 (append_bytes l1 f)) l2 s2 -> reads f (l1 ++ l2) s2.
Proof.
  unfold reads. intros H1 H2. rewrite run_app, H1, H2. by rewrite append_bytes_app.
Qed.
Lemma reads_line f l0 l :
  active f = true -> st f = ChunkSize l0 -> l <> [] -> open_line CRLF (l0 ++ l) ->
  length (l0 ++ l) <= maximum_head_bytes f -> reads f l (ChunkSize (l0 ++ l)).
Proof.
  revert f l0; induction l as [|b l IH]; intros f l0 Ha Hst Hne Ho Hlen; [done|].
  assert (H1 : reads f [b] (ChunkSize (l0 ++ [b]))).
  { unfold reads. cbn [run]. rewrite push_byte_active by (done || by rewrite Hst).
    unfold iteration. rewrite Hst. cbn [fst]. unfold chunk_size_step. cbn [maximum_head_bytes append_bytes].
    rewrite cons_middle, app_assoc, length_app in Hlen.
    destruct (Nat.ltb_spec (maximum_head_bytes f) (length (l0 ++ [b]))) as [|_]; [lia|].
    rewrite (Ho (l0 ++ [b]) l) by (by rewrite <- app_assoc). done. }
  destruct (decide (l = [])) as [->|Hl]; [done|].
  change (b :: l) with ([b] ++ l). rewrite app_assoc. eapply reads_app; [exact H1|].
  apply IH; cbn; try done; by rewrite <- app_assoc.
Qed.
Lemma first_end_crlf l : first_end CRLF l -> exists l' b, l = l' ++ [b] /\ l' <> []
  /\ open_line CRLF l' /\ ends_with CRLF l = true.
Proof.
  intros (l' & b & -> & Ho & He). exists l', b. split_and!; try done. intros ->.
  apply ends_with_spec in He as (r & Hr). apply (f_equal length) in Hr.
  rewrite !length_app in Hr. cbn in Hr. lia.
Qed.
Lemma reads_size f l n :
  active f = true -> st f = ChunkSize [] -> size_line (maximum_head_bytes f) l n ->
  reads f l (if (n =? 0)%N then Trailers [] 0 else ChunkData n).
Proof.
  intros Ha Hst (Hl & Hlen & Hn). apply first_end_crlf in Hl as (l' & b & -> & Hne & Ho & He).
  rewrite length_app in Hlen. cbn in Hlen.
  eapply reads_app; [apply (reads_line f []); try done; cbn; lia|].
  cbn [app]. unfold reads. cbn [run]. rewrite push_byte_active by done.
  unfold iteration. cbn [st set_state fst]. unfold chunk_size_step. cbn [maximum_head_bytes append_bytes set_state].
  destruct (Nat.ltb_spec (maximum_head_bytes f) (length (l' ++ [b]))) as [Hlt|_];
    [rewrite length_app in Hlt; cbn in Hlt; lia|].
  rewrite He. fold (content (l' ++ [b])). by rewrite Hn.
Qed.
Lemma reads_data f d :
  active f = true -> st f = ChunkData (lenN d) -> d <> [] -> reads f d (ChunkDataTerminator 0).
Proof.
  revert f; induction d as [|b d IH]; intros f Ha Hst Hne; [done|].
  assert (H1 : reads f [b] (if (lenN d =? 0)%N then ChunkDataTerminator 0 else ChunkData (lenN d))).
  { unfold reads. cbn [run]. rewrite push_byte_active by (done || by rewrite Hst).
    unfold iteration. rewrite Hst. cbn [fst length].
    replace (Nat.min 1 (N.to_nat (lenN (b :: d)))) with 1 by (unfold lenN; cbn [length]; lia).
    replace (lenN (b :: d) - N.of_nat 1)%N with (lenN d) by (unfold lenN; cbn [length]; lia). done. }
  destruct d as [|c d]; [done|]. change (b :: c :: d) with ([b] ++ c :: d).
  rewrite (proj2 (N.eqb_neq _ _)) in H1 by (unfold lenN; cbn [length]; lia).
  eapply reads_app; [exact H1|]. by apply IH.
Qed.
Lemma reads_terminator f :
  active f = true -> st f = ChunkDataTerminator 0 -> reads f CRLF (ChunkSize []).
Proof.
  intros Ha Hst. unfold reads. cbn [run CRLF]. rewrite push_byte_active by (done || by rewrite Hst).
  unfold iteration at 1. rewrite Hst. cbn [fst]. unfold terminator_step at 1. cbn [N.eqb].
  rewrite bool_decide_false by (intros Hc; by apply Hc). cbn [stay].
  rewrite push_byte_active by done. unfold iteration. cbn [st set_state fst]. unfold terminator_step.
  cbn [N.eqb]. rewrite bool_decide_false by (intros Hc; by apply Hc).
  change (append_bytes CRLF f) with (append_bytes ([CR] ++ [LF]) f). by rewrite append_bytes_app.
Qed.
Lemma reads_chunks f p :
  active f = true -> st f = ChunkSize [] -> chunks (maximum_head_bytes f) p ->
  p = [] \/ reads f p (ChunkSize []).
Proof.
  intros Ha Hst Hp. induction Hp as [|p l n d Hp IH Hl Hn Hd]; [by left|right].
  assert (Hdne : d <> []) by (intros ->; subst n; done).
  assert (Htail : forall g, active g = true -> st g = ChunkSize [] ->
    maximum_head_bytes g = maximum_head_bytes f -> reads g (l ++ d ++ CRLF) (ChunkSize [])).
  { intros g Hag Hsg Hmg. rewrite <- Hmg in Hl. pose proof (reads_size g l n Hag Hsg Hl) as H1.
    rewrite (proj2 (N.eqb_neq _ _)) in H1 by lia.
    eapply reads_app; [exact H1|]. subst n. eapply reads_app; [by apply reads_data|].
    by apply reads_terminator. }
  destruct IH as [->|IH]; [by apply Htail|]. eapply reads_app; [exact IH|]. by apply Htail.
Qed.
Lemma reads_trailer_line f line0 l seen :
  active f = true -> st f = Trailers line0 seen -> l <> [] -> open_line CRLF (line0 ++ l) ->
  seen + length l <= maximum_head_bytes f -> reads f l (Trailers (line0 ++ l) (seen + length l)).
Proof.
  revert f line0 seen; induction l as [|b l IH]; intros f l0 seen Ha Hst Hne Ho Hlen; [done|].
  cbn [length] in Hlen.
  assert (H1 : reads f [b] (Trailers (l0 ++ [b]) (S seen))).
  { unfold reads. cbn [run]. rewrite push_byte_active by (done || by rewrite Hst).
    unfold iteration. rewrite Hst. cbn [fst]. unfold trailers_step. cbn [maximum_head_bytes append_bytes].
    destruct (Nat.ltb_spec (maximum_head_bytes f) (S seen)) as [|_]; [lia|].
    rewrite (Ho (l0 ++ [b]) l) by (by rewrite <- app_assoc). done. }
  cbn [length]. rewrite Nat.add_succ_r.
  destruct (decide (l = [])) as [->|Hl]; [by rewrite Nat.add_0_r|].
  change (b :: l) with ([b] ++ l). rewrite app_assoc. eapply reads_app; [exact H1|].
  apply (IH _ (l0 ++ [b]) (S seen)); cbn; try done; [by rewrite <- app_assoc|lia].
Qed.
Lemma trailer_line_last f l' b seen :
  active f = true -> st f = Trailers [] seen -> l' <> [] -> open_line CRLF l' ->
  ends_with CRLF (l' ++ [b]) = true -> seen + length (l' ++ [b]) <= maximum_head_bytes f ->
  exists g, same_core (append_bytes (l' ++ [b]) f) g /\ head g = head f /\
  run (l' ++ [b]) f
  = if decide (length (l' ++ [b]) = 2) then complete false g
    else if valid_header_line (content (l' ++ [b]))
    then stay (set_state (Trailers [] (seen + length (l' ++ [b]))) (append_bytes (l' ++ [b]) f))
    else fail InvalidHeaderLine g.
Proof.
  intros Ha Hst Hne Ho He Hlen. rewrite length_app in Hlen. cbn in Hlen.
  pose proof (reads_trailer_line f [] l' seen Ha Hst Hne Ho ltac:(lia)) as H1.
  rewrite run_snoc, H1. cbn [app]. rewrite push_byte_active by done.
  unfold iteration. cbn [st set_state fst]. unfold trailers_step. cbn [maximum_head_bytes append_bytes set_state].
  destruct (Nat.ltb_spec (maximum_head_bytes f) (S (seen + length l'))) as [|_]; [lia|].
  rewrite He, append_bytes_app. fold (content (l' ++ [b])).
  replace (seen + length (l' ++ [b])) with (S (seen + length l')) by (rewrite length_app; cbn; lia).
  exists (append_bytes [b] (set_state (Trailers l' (seen + length l')) (append_bytes l' f))).
  split; [by split|]. split; [done|].
  case_decide; [by destruct (complete _ _)|]. case_if; done.
Qed.
(** Silent runs, composed by state only. *)
Definition goes (f : t) (l : bytes) (s : state) : Prop :=
  exists g, run l f = (g, []) /\ st g = s /\ active g = true /\ maximum_head_bytes g = maximum_head_bytes f.
Definition completes (f : t) (l : bytes) (i : bool) : Prop := exists g, run l f = complete i g.
Lemma reads_goes f l s : active f = true -> reads f l s -> goes f l s.
Proof. intros Ha Hr. eexists. by rewrite Hr. Qed.
Lemma goes_nil f s : active f = true -> st f = s -> goes f [] s.
Proof. intros Ha Hs. by exists f. Qed.
Lemma goes_completes f l1 l2 s i :
  goes f l1 s ->
  (forall g, st g = s -> active g = true -> maximum_head_bytes g = maximum_head_bytes f -> completes g l2 i) ->
  completes f (l1 ++ l2) i.
Proof.
  intros (g & Hr & Hs & Ha & Hm) Hc. destruct (Hc g Hs Ha Hm) as [h Hh]. exists h.
  rewrite run_app, Hr, Hh. done.
Qed.
Lemma goes_trailers f t :
  active f = true -> st f = Trailers [] 0 -> trailer_lines (maximum_head_bytes f) t ->
  goes f t (Trailers [] (length t)).
Proof.
  intros Ha Hst Ht. induction Ht as [|t l Ht IH Hl Hne Hv Hlen]; [by apply goes_nil|].
  destruct IH as (g & Hr & Hs & Hag & Hm).
  apply first_end_crlf in Hl as (l' & b & -> & Hne' & Ho & He). rewrite length_app in Hlen.
  destruct (trailer_line_last g l' b (length t) Hag Hs Hne' Ho He ltac:(lia)) as (h & Hc & _ & Hrun).
  rewrite decide_False, Hv in Hrun by done. cbn [stay] in Hrun.
  eexists. rewrite run_app, Hr, Hrun. split; [done|]. cbn. rewrite <- length_app. by split_and!.
Qed.
Lemma completes_fixed f d i :
  active f = true -> st f = FixedBody (lenN d) i -> d <> [] -> completes f d i.
Proof.
  revert f; induction d as [|b d IH]; intros f Ha Hst Hne; [done|].
  assert (H1 : push_byte b f = if (lenN d =? 0)%N then complete i (append_bytes [b] f)
    else stay (set_state (FixedBody (lenN d) i) (append_bytes [b] f))).
  { rewrite push_byte_active by (done || by rewrite Hst).
    unfold iteration. rewrite Hst. cbn [fst length].
    replace (Nat.min 1 (N.to_nat (lenN (b :: d)))) with 1 by (unfold lenN; cbn [length]; lia).
    replace (lenN (b :: d) - N.of_nat 1)%N with (lenN d) by (unfold lenN; cbn [length]; lia). done. }
  destruct d as [|c d].
  - exists (append_bytes [b] f). cbn [run]. by rewrite H1.
  - rewrite (proj2 (N.eqb_neq _ _)) in H1 by (unfold lenN; cbn [length]; lia).
    destruct (IH (set_state (FixedBody (lenN (c :: d)) i) (append_bytes [b] f))) as [g Hg]; try done.
    exists g. change (run (b :: c :: d) f) with (let '(f, events) := push_byte b f in
      let '(f, later) := run (c :: d) f in (f, events ++ later)).
    rewrite H1. cbn [stay]. by rewrite Hg.
Qed.
Lemma run_head f h0 l :
  active f = true -> st f = Head -> head f = h0 -> l <> [] -> open_line (CRLF ++ CRLF) (h0 ++ l) ->
  length (h0 ++ l) <= maximum_head_bytes f -> run l f = (set_head (h0 ++ l) (append_bytes l f), []).
Proof.
  revert f h0; induction l as [|b l IH]; intros f h0 Ha Hst Hh Hne Ho Hlen; [done|].
  assert (H1 : run [b] f = (set_head (h0 ++ [b]) (append_bytes [b] f), [])).
  { cbn [run]. rewrite push_byte_active by (done || by rewrite Hst).
    unfold iteration. rewrite Hst. cbn [fst]. unfold head_step.
    cbn [maximum_head_bytes set_head append_bytes head]. rewrite Hh.
    rewrite cons_middle, app_assoc, length_app in Hlen.
    destruct (Nat.ltb_spec (maximum_head_bytes f) (length (h0 ++ [b]))) as [|_]; [lia|].
    rewrite (Ho (h0 ++ [b]) l) by (by rewrite <- app_assoc). done. }
  destruct (decide (l = [])) as [->|Hl]; [done|].
  change (b :: l) with ([b] ++ l). rewrite app_assoc, run_app, H1.
  rewrite (IH _ (h0 ++ [b])); cbn [set_head st active head maximum_head_bytes append_bytes];
    try done; try (by rewrite <- app_assoc).
  by rewrite append_bytes_app.
Qed.
Lemma first_end_head l : first_end (CRLF ++ CRLF) l -> exists l' b, l = l' ++ [b] /\ l' <> []
  /\ open_line (CRLF ++ CRLF) l' /\ ends_with (CRLF ++ CRLF) l = true.
Proof.
  intros (l' & b & -> & Ho & He). exists l', b. split_and!; try done. intros ->.
  apply ends_with_spec in He as (r & Hr). apply (f_equal length) in Hr.
  rewrite !length_app in Hr. cbn in Hr. lia.
Qed.
(** A head moves the framer to the state of its body framing, or completes. *)
Lemma goes_head f h fr :
  active f = true -> st f = Head -> head f = [] -> head_of (maximum_head_bytes f) (role f) h fr ->
  match fr with
  | BodyNone i => completes f h i
  | BodyFixed n => if (n =? 0)%N then completes f h false else goes f h (FixedBody n false)
  | BodyChunked => goes f h (ChunkSize [])
  | BodyCloseDelimited => goes f h CloseDelimited
  end.
Proof.
  intros Ha Hst Hh (Hf & Hlen & Hp). apply first_end_head in Hf as (h' & b & -> & Hne & Ho & He).
  assert (Hrun : run h' f = (set_head h' (append_bytes h' f), [])).
  { apply (run_head f [] h'); try done. cbn. rewrite length_app in Hlen. cbn in Hlen. lia. }
  set (g := set_head (h' ++ [b]) (append_bytes [b] (set_head h' (append_bytes h' f)))).
  assert (Hstep : run (h' ++ [b]) f = head_step g).
  { rewrite run_snoc, Hrun, push_byte_active by (cbn; by rewrite ?Ha, ?Hst).
    unfold iteration. cbn [st set_head append_bytes]. rewrite Hst. cbn [fst app head set_head append_bytes].
    fold g. by destruct (head_step g). }
  unfold completes, goes. rewrite Hstep. unfold head_step.
  destruct (Nat.ltb_spec (maximum_head_bytes g) (length (head g))) as [Hlt|_].
  { cbn [g set_head head maximum_head_bytes append_bytes] in Hlt. lia. }
  cbn [head g set_head role append_bytes]. rewrite He, Hp. fold g.
  destruct fr as [i|n| |]; [by eexists| | |]; [case_if; [by eexists|]| |];
    (eexists; split; [reflexivity|]; cbn; by rewrite Ha).
Qed.
Lemma message_completes f m i :
  active f = true -> st f = Head -> head f = [] ->
  message (maximum_head_bytes f) (role f) m i -> completes f m i.
Proof.
  intros Ha Hst Hh Hm. destruct Hm as [h i Hd|h n b Hd Hb|h p l t Hd Hp Hl Ht Hlen];
    pose proof (goes_head f h _ Ha Hst Hh Hd) as Hg; cbn beta iota in Hg.
  - done.
  - destruct (N.eqb_spec n 0) as [->|Hn].
    + destruct b; [|unfold lenN in Hb; cbn in Hb; lia]. by rewrite app_nil_r.
    + eapply goes_completes; [exact Hg|]. intros g Hs Hag _. subst n. apply completes_fixed; try done.
      by intros ->.
  - eapply goes_completes; [exact Hg|]. intros g Hs Hag Hmg. rewrite <- Hmg in Hp, Hl, Ht, Hlen. clear Hmg.
    assert (Hgp : goes g p (ChunkSize [])).
    { destruct (reads_chunks g p Hag Hs Hp) as [->|Hr]; [by apply goes_nil|by apply reads_goes]. }
    eapply goes_completes; [exact Hgp|]. intros g' Hs' Hag' Hmg'.
    rewrite <- Hmg' in Hl, Ht, Hlen. clear g Hs Hag Hgp Hp Hmg'.
    eapply goes_completes; [apply reads_goes; [done|exact (reads_size g' l 0 Hag' Hs' Hl)]|].
    cbn [N.eqb]. intros g Hs Hag Hmg. rewrite <- Hmg in Ht, Hlen. clear g' Hs' Hag' Hl Hmg.
    eapply goes_completes; [by apply goes_trailers|]. intros g' Hs' Hag' Hmg.
    rewrite <- Hmg in Hlen.
    destruct (trailer_line_last g' [CR] LF (length t) Hag' Hs' ltac:(done)) as (k & _ & _ & Hrun);
      [by apply (open_snoc CRLF []); [apply open_nil|]|done|done|].
    exists k. exact Hrun.
Qed.

(** ** Chunk sizes *)

Definition hex_digit_value (b : u8) : N := default 0%N (hex_value b).
(** The number a digit string denotes after the value [acc], unbounded. *)
Fixpoint hex_number (acc : N) (digits : bytes) : N :=
  match digits with [] => acc | d :: ds => hex_number (acc * 16 + hex_digit_value d) ds end%N.
Lemma hex_number_ge acc ds : (acc <= hex_number acc ds)%N.
Proof. revert acc; induction ds as [|d ds IH]; intros acc; cbn; [lia|]. specialize (IH (acc * 16 + hex_digit_value d)%N). lia. Qed.
Lemma hex_value_hexdigit b : is_hexdigit b = true -> is_Some (hex_value b).
Proof. byte_cases b; intros H; (eexists; reflexivity) || discriminate H. Qed.
Lemma chunk_size_loop_value acc ds :
  forallb is_hexdigit ds = true -> (acc <= u64_max)%N ->
  chunk_size_loop acc ds
  = if (hex_number acc ds <=? u64_max)%N then Ok (hex_number acc ds) else Err ChunkSizeOverflow.
Proof.
  revert acc; induction ds as [|d ds IH]; intros acc Hd Hacc; cbn [chunk_size_loop hex_number].
  { by rewrite (proj2 (N.leb_le _ _) Hacc). }
  cbn in Hd. apply andb_true_iff in Hd as [Hd Hds].
  destruct (hex_value_hexdigit d Hd) as [v Hv]. unfold hex_digit_value. rewrite Hv. mcbn.
  change (default 0%N (Some v)) with v.
  unfold checked_mul, HEX_RADIX. destruct (N.leb_spec (acc * 16) u64_max) as [Hm|Hm]; mcbn.
  - unfold checked_add. destruct (N.leb_spec (acc * 16 + v) u64_max) as [Ha|Ha]; mcbn; [by apply IH|].
    pose proof (hex_number_ge (acc * 16 + v) ds). by rewrite (proj2 (N.leb_gt _ _)) by lia.
  - pose proof (hex_number_ge (acc * 16 + v) ds). by rewrite (proj2 (N.leb_gt _ _)) by lia.
Qed.

(** ** Ambiguous framing *)
Definition names_field (field : string) (raw : bytes) : Prop :=
  exists name value, split_header (trim_cr raw) = Some (name, value)
    /\ eq_ignore_ascii_case name (bs field) = true.
Lemma header_loop_grows lines cls tes cls' tes' :
  header_loop lines cls tes = Ok (cls', tes') ->
  (cls <> [] \/ Exists (names_field "content-length") lines -> cls' <> [])
  /\ (tes <> [] \/ Exists (names_field "transfer-encoding") lines -> tes' <> []).
Proof.
  revert cls tes; induction lines as [|raw lines IH]; intros cls tes; cbn [header_loop].
  { intros [= <- <-]. split; intros [?|He]; try done; by apply Exists_nil in He. }
  destruct (split_header (trim_cr raw)) as [[name value]|] eqn:Eh; [|done].
  rewrite !Exists_cons. unfold names_field at 1 3. rewrite Eh.
  destruct (eq_ignore_ascii_case name (bs "content-length")) eqn:Ec;
    [|destruct (eq_ignore_ascii_case name (bs "transfer-encoding")) eqn:Et]; intros [Hc Ht]%IH.
  - split; [intros _; apply Hc; left; by destruct cls|].
    intros [Hne|[(n & v & [= <- <-] & Ht')|He]]; [by apply Ht; left| |by apply Ht; right].
    unfold eq_ignore_ascii_case in Ec, Ht'. apply bool_decide_eq_true in Ec, Ht'. rewrite Ec in Ht'. done.
  - split; [|intros _; apply Ht; left; by destruct tes].
    intros [Hne|[(n & v & [= <- <-] & Hc')|He]]; [by apply Hc; left|congruence|by apply Hc; right].
  - split.
    + intros [Hne|[(n & v & [= <- <-] & Hc')|He]]; [by apply Hc; left|congruence|by apply Hc; right].
    + intros [Hne|[(n & v & [= <- <-] & Ht')|He]]; [by apply Ht; left|congruence|by apply Ht; right].
Qed.
Lemma header_loop_error lines cls tes e : header_loop lines cls tes = Err e -> e = InvalidHeaderLine.
Proof.
  revert cls tes; induction lines as [|raw lines IH]; intros cls tes; cbn [header_loop]; [done|].
  destruct (split_header (trim_cr raw)) as [[name value]|]; [|by intros [= <-]].
  repeat case_if; apply IH.
Qed.

Definition second_message (events : list framer_event) : wire_message :=
  match events with _ :: Complete _ m :: _ => m | _ => WireMessage [] 0 false false end.
Definition second_sequence (events : list framer_event) : N :=
  match events with _ :: Complete n _ :: _ => n | _ => 0%N end.

(** * Properties *)

(** Framing does not depend on how the connection delivers its bytes: pushing a
    stream chunk by chunk leaves the same framer and the same events as pushing
    it whole; the fuel of the loop in [push] is always enough. *)
Theorem framer_chunking_invariant (role : message_role) (mh mc : nat) (chunks : list bytes) :
  push_all chunks (new role mh mc) = push (concat chunks) (new role mh mc).
Proof. rewrite push_all_run, push_run by done. done. Qed.

(** The framer partitions the bytes of a connection into messages: whatever was
    pushed is the concatenation of complete messages of the grammar, one
    [Started] and one [Complete] event each in order, followed by the message in
    progress (started, if any byte of it was read) or by the one that failed,
    after which nothing more is reported. A completed message carries the first
    [mc] bytes of its exact image, with its size and whether it was cut. *)
Theorem framer_partitions_stream (role : message_role) (mh mc : nat) (chunks : list bytes) :
  let '(f, events) := push_all chunks (new role mh mc) in
  exists ms rest, concat chunks = concat (map fst ms) ++ rest
  /\ Forall (fun m => m.1 <> [] /\ message mh role m.1 m.2) ms
  /\ if decide (st f = FailedState)
     then rest <> [] /\ exists e, events = message_events mc 0 ms
            ++ [Started (next_sequence 0 ms); Failed (next_sequence 0 ms) e]
     else events = message_events mc 0 ms
            ++ (if bool_decide (rest = []) then [] else [Started (next_sequence 0 ms)]).
Proof.
  rewrite push_all_run by done. pose proof (run_history role mh mc (concat chunks)) as Hh.
  destruct (run (concat chunks) (new role mh mc)) as [f events].
  destruct Hh as (ms & rest & [Hin Hms _ _ _ _ Hlive Hfail]). exists ms, rest.
  split; [done|]. split; [done|]. case_decide as Hf; [by apply Hfail|]. by apply Hlive.
Qed.

Lemma framer_message (role : message_role) (mh mc : nat) (m : bytes) (i : bool) :
  (push m (new role mh mc)).2 = [Started 0; Complete 0 (captured mc m i)] <-> message mh role m i.
Proof.
  rewrite push_run by done. pose proof (run_history role mh mc m) as Hh. split.
  - destruct (run m (new role mh mc)) as [f events]. cbn [snd]. intros ->.
    destruct Hh as (ms & rest & [Hin Hms _ _ _ _ Hlive Hfail]).
    destruct (decide (st f = FailedState)) as [Hf|Hf].
    { destruct (Hfail Hf) as (_ & e & He). by destruct ms as [|[m1 i1] [|[m2 i2] ms]]. }
    destruct (Hlive Hf) as (_ & _ & _ & _ & He). destruct ms as [|[m1 i1] ms]; [by case_if_in He|].
    cbn [message_events app] in He.
    pose proof (f_equal second_message He) as He1. cbn [second_message] in He1.
    apply (f_equal (fun l => tail (tail l))) in He. cbn [tail] in He.
    destruct ms as [|[m2 i2] ms]; [|done]. destruct (bool_decide (rest = [])) eqn:Er; [|done]. apply bool_decide_eq_true in Er as ->.
    cbn in Hin. rewrite !app_nil_r in Hin. subst m1. apply Forall_cons in Hms as [[_ Hm] _]. cbn in Hm.
    by rewrite (f_equal message_informational He1 : i = i1).
  - intros Hm. assert (Hact : completes (set_active (new role mh mc)) m i) by (by apply message_completes).
    destruct Hact as [g Hg]. assert (Hne : m <> []) by (by intros ->).
    assert (Hrun : run m (new role mh mc) = (reset g, [Started 0;
      Complete (sequence g) (WireMessage (retained g) (observed g) (truncated g) i)])).
    { destruct m as [|b m]; [done|]. cbn [run] in Hg |- *.
      unfold push_byte in Hg |- *. rewrite decide_False in Hg |- * by done.
      rewrite (activate_active (set_active _)) in Hg by done. cbn [activate new active stay] in Hg |- *.
      destruct (iteration b [] _) as [[f1 e1] r1]. destruct (run m f1) as [f2 e2].
      cbn [app] in Hg |- *. unfold complete in Hg. injection Hg as -> Hg. by rewrite <- Hg. }
    rewrite Hrun in Hh |- *. cbn [snd].
    destruct Hh as (ms & rest & [Hin Hms _ _ _ _ Hlive _]). destruct Hlive as (_ & _ & _ & _ & He); [done|].
    destruct ms as [|[m1 i1] ms]; [by case_if_in He|]. cbn [message_events app] in He.
    pose proof (f_equal second_message He) as He1. cbn [second_message] in He1.
    pose proof (f_equal second_sequence He) as Hs. cbn [second_sequence] in Hs.
    apply (f_equal (fun l => tail (tail l))) in He. cbn [tail] in He. destruct ms as [|[m2 i2] ms]; [|done]. destruct (bool_decide (rest = [])) eqn:Er; [|done].
    apply bool_decide_eq_true in Er as ->. cbn in Hin. rewrite !app_nil_r in Hin. subst m1.
    by rewrite Hs, He1, (f_equal message_informational He1 : i = i1).
Qed.
(** C4. A fresh framer completes on exactly the byte strings of the message grammar
    (bounded head lines, [Content-Length], chunked with trailers, bodyless by
    status), with the informational flag the grammar gives them. *)
Theorem framer_captures_exactly_messages (role : message_role) (mh mc : nat) (m : bytes) (i : bool) :
  (push m (new role mh mc)).2 = [Started 0; Complete 0 (captured mc m i)] <-> message mh role m i.
Proof. apply framer_message. Qed.

(** Whatever a peer sends, a framer retains at most [mc] bytes of a message, one
    byte more than [mh] of its head and [mh] of a chunk-size or trailer line. *)
Theorem framer_memory_bounded (role : message_role) (mh mc : nat) (chunks : list bytes) :
  let f := (push_all chunks (new role mh mc)).1 in
  length (retained f) <= mc /\ length (head f) <= S mh
  /\ match st f with
     | Head => length (head f) <= mh
     | ChunkSize line | Trailers line _ => length line <= mh
     | _ => True
     end.
Proof.
  cbn zeta. rewrite push_all_run by done.
  pose proof (run_bounded mh mc (concat chunks) _ (new_bounded role mh mc)) as [[[Hmh _] H2 H3] Hl].
  unfold line_bounded in Hl. rewrite Hmh in Hl. split; [done|]. split; [done|].
  destruct (st _); try done. lia.
Qed.

(** A head that names both [Transfer-Encoding] and [Content-Length], in any letter
    case, order or number, never yields a framing. *)
Theorem parse_head_rejects_ambiguous (content_ first : bytes) (lines : list bytes) (role : message_role)
    (Hlines : split_on LF content_ = first :: lines)
    (Hcl : Exists (names_field "content-length") lines)
    (Hte : Exists (names_field "transfer-encoding") lines) :
  exists e, parse_head (content_ ++ CRLF ++ CRLF) role = Err e
  /\ e ∈ [InvalidStartLine; InvalidHeaderLine; TransferEncodingWithContentLength].
Proof.
  unfold parse_head.
  rewrite (proj2 (strip_suf_Some (CRLF ++ CRLF) (content_ ++ CRLF ++ CRLF) content_)) by done. mcbn.
  rewrite Hlines. case_if; [exists InvalidStartLine; split; [done|set_solver]|].
  pose proof (header_loop_grows lines [] []) as Hg. pose proof (header_loop_error lines [] []) as He.
  destruct (header_loop lines [] []) as [[cls tes]|e]; mcbn.
  2:{ rewrite (He e eq_refl). exists InvalidHeaderLine. split; [done|set_solver]. }
  destruct (Hg cls tes eq_refl) as [Hc Ht]. rewrite !bool_decide_false by auto. cbn [negb andb].
  exists TransferEncodingWithContentLength. split; [done|set_solver].
Qed.

(** Chunk sizes are read exactly: on a non-empty run of hexadecimal digits before
    any extension the result is the number they denote when it fits 64 bits and an
    overflow error otherwise, however many leading zeros there are; anything else is
    an invalid size. *)
Theorem parse_chunk_size_exact (line : bytes) :
  let digits := default [] (hd_error (split_on (byte_of 59) line)) in
  parse_chunk_size line
  = if negb (bool_decide (digits = [])) && forallb is_hexdigit digits
    then if (hex_number 0 digits <=? u64_max)%N then Ok (hex_number 0 digits) else Err ChunkSizeOverflow
    else Err InvalidChunkSize.
Proof.
  cbn zeta. unfold parse_chunk_size. set (digits := default [] _).
  destruct (bool_decide (digits = [])); cbn [orb negb andb]; [done|].
  destruct (forallb is_hexdigit digits) eqn:E; cbn [negb]; [|done].
  by apply chunk_size_loop_value.
Qed.

(** * Examples *)

Definition ex_chunked : bytes :=
  bs "HTTP/1.1 200 OK" ++ CRLF ++ bs "Transfer-Encoding: chunked" ++ CRLF ++ CRLF
  ++ bs "4;x=y" ++ CRLF ++ bs "test" ++ CRLF ++ bs "0" ++ CRLF ++ bs "X-End: yes" ++ CRLF ++ CRLF.
Example chunked_response_framed :
  (push_all [take 50 ex_chunked; drop 50 ex_chunked]
     (new (ResponseRole (ResponseContext false false)) 1024 1024)).2
  = [Started 0; Complete 0 (captured 1024 ex_chunked false)].
Proof. vm_compute. reflexivity. Qed.

Definition ex_ambiguous_lines : list bytes :=
  [bs "Content-Length: 1" ++ [CR]; bs "transfer-encoding: chunked"].
Lemma parse_head_rejects_ambiguous_witness :
  exists e, parse_head ((bs "POST / HTTP/1.1" ++ CRLF ++ bs "Content-Length: 1" ++ CRLF
    ++ bs "transfer-encoding: chunked") ++ CRLF ++ CRLF) RequestRole = Err e
  /\ e ∈ [InvalidStartLine; InvalidHeaderLine; TransferEncodingWithContentLength].
Proof.
  apply (parse_head_rejects_ambiguous _ (bs "POST / HTTP/1.1" ++ [CR]) ex_ambiguous_lines).
  - vm_compute. reflexivity.
  - left. exists (bs "Content-Length"), (bs "1"). split; vm_compute; reflexivity.
  - right. left. exists (bs "transfer-encoding"), (bs "chunked"). split; vm_compute; reflexivity.
Defined.
