(* ===== verification/AuditModel.v ===== *)
(** Audit data (crates/freja-audit/src/model.rs, publisher.rs, redaction.rs and the
    checkpoint type of checkpoint.rs): events, contexts, records, the delivery
    policy, the secret redactor, and the data-plane counters fed from events
    (crates/freja-proxy/src/metrics.rs). *)
From stdpp Require Import gmap strings.
From stdpp Require Import prelude.
From S2P Require Import Prelude Bytes Net Endpoint Domain.

(** * Schema *)

Module AuditSchemaVersion.
Record t : Type := FromWire { get : N }.
#[global] Instance eq_dec : EqDecision t.
Proof. solve_decision. Defined.
Definition V1 : t := FromWire 1.
Definition V2 : t := FromWire 2.
Definition CURRENT : t := V2.
Definition is_supported (v : t) : bool := bool_decide (v = V1) || bool_decide (v = V2).
End AuditSchemaVersion.

Inductive authentication_outcome : Type := Accepted | Rejected.
Inductive audit_hook_stage : Type :=
| HookHttpRequestHead | HookHttpRequestBody | HookHttpResponseHead | HookHttpResponseBody
| HookTcpClientChunk | HookTcpUpstreamChunk.
Inductive hook_outcome : Type := HookCompleted | HookFailed.
Inductive manual_action : Type :=
| ManualContinue | ManualReject | ManualEditHeaders | ManualReplaceBody | ManualModifyRequest
| ManualCancelModification | ManualFailed.
Inductive flow_outcome : Type :=
| OutCompleted | OutIdleTimeout | OutShutdown | OutInspectionBlocked | OutPolicyDenied
| OutDetourLoop | OutDnsFailure | OutDnsTimeout | OutConnectFailure | OutConnectTimeout
| OutRelayFailure | OutAuditFailure | OutHookFailure | OutRuntimeFailure
| OutAuthenticationFailed | OutSocksProtocolError | OutConnectionLimit | OutHttpError
| OutTunnelFailure | OutTlsClientRejected | OutTlsClientTimeout | OutTlsUpstreamRejected
| OutTlsAlpnRejected | OutTlsUpstreamTimeout | OutRepeatInvalidRequest | OutRepeatPolicyDenied
| OutRepeatDnsFailed | OutRepeatConnectFailed | OutRepeatTlsFailed | OutRepeatUpstreamFailed
| OutRepeatInspectionFailed | OutRepeatAuditFailed | OutRepeatShutdown | OutRepeatInternalFailure.
Inductive audit_failure_policy : Type := FailOpen | FailClosed.
#[export] Instance authentication_outcome_eq_dec : EqDecision authentication_outcome.
Proof. solve_decision. Defined.
#[export] Instance audit_hook_stage_eq_dec : EqDecision audit_hook_stage.
Proof. solve_decision. Defined.
#[export] Instance hook_outcome_eq_dec : EqDecision hook_outcome.
Proof. solve_decision. Defined.
#[export] Instance manual_action_eq_dec : EqDecision manual_action.
Proof. solve_decision. Defined.
#[export] Instance flow_outcome_eq_dec : EqDecision flow_outcome.
Proof. solve_decision. Defined.
#[export] Instance audit_failure_policy_eq_dec : EqDecision audit_failure_policy.
Proof. solve_decision. Defined.

(** [RecordHash([u8; 32])]. *)
Record record_hash : Type := RecordHash { record_hash_bytes : bytes }.
#[export] Instance record_hash_eq_dec : EqDecision record_hash.
Proof. solve_decision. Defined.
Record signed_checkpoint : Type := SignedCheckpoint {
  covers_sequence : AuditSequence.t;
  checkpoint_hash : record_hash;
  public_key : bytes;
  signature : bytes }.
#[export] Instance signed_checkpoint_eq_dec : EqDecision signed_checkpoint.
Proof. solve_decision. Defined.

(** * Events *)

Inductive audit_event : Type :=
| ConnectionAccepted (client listener : bytes)
| TargetResolved (requested_host : bytes) (resolved_addresses : list ip_addr)
| AclEvaluated (d : Decision.t)
| HttpRequestObserved (method target : bytes) (headers : gmap bytes (list bytes))
| HttpResponseObserved (status : HttpStatusCode.t) (headers : gmap bytes (list bytes))
| ProxyAuthentication_ (outcome : authentication_outcome)
| CheckpointEvent (c : signed_checkpoint)
| FindingDetected (f : finding)
| InspectionEvaluated (d : Decision.t)
| ReplayFactsObserved (facts : replay_facts)
| PayloadPrefixCaptured (d : direction) (p : protocol) (bytes_hex : bytes)
| HookExecuted (stage : audit_hook_stage) (outcome : hook_outcome)
| ManualModification (action : manual_action)
| HttpRepeatStarted (source_session : session_id) (source_transaction : transaction_id)
| TlsCertificateGenerated (hostname : bytes) (cache_hit : bool)
| TlsInterceptionEstablished (hostname : bytes) (alpn : option bytes)
| ActionExecuted (d : Decision.t)
| TunnelClosed (client_to_upstream upstream_to_client : N) (outcome : flow_outcome)
| FlowClosed (client_to_upstream upstream_to_client : N) (outcome : flow_outcome).
#[export] Instance audit_event_eq_dec : EqDecision audit_event.
Proof. unfold session_id, transaction_id. solve_decision. Defined.

(** [AuditContext]; times are Unix milliseconds. *)
Record audit_context : Type := AuditContext {
  occurred_at : N;
  context_session : session_id;
  context_transaction : option transaction_id;
  context_generation : PolicyGeneration.t }.
Definition with_policy_generation (c : audit_context) (g : PolicyGeneration.t) : audit_context :=
  AuditContext (occurred_at c) (context_session c) (context_transaction c) g.
Record audit_envelope : Type := AuditEnvelope {
  envelope_context : audit_context; envelope_event : audit_event }.

(** [UnsignedAuditRecord] and [AuditRecord]. *)
Record unsigned_record : Type := UnsignedAuditRecord {
  schema_version : AuditSchemaVersion.t;
  sequence : AuditSequence.t;
  record_occurred_at : N;
  record_session : session_id;
  record_transaction : option transaction_id;
  record_generation : PolicyGeneration.t;
  record_event : audit_event;
  previous_hash : option record_hash }.
Record audit_record : Type := AuditRecord {
  unsigned : unsigned_record; hash : record_hash }.
#[export] Instance unsigned_record_eq_dec : EqDecision unsigned_record.
Proof. unfold session_id, transaction_id. solve_decision. Defined.
#[export] Instance audit_record_eq_dec : EqDecision audit_record.
Proof. solve_decision. Defined.

(** * Delivery (publisher.rs) *)

Inductive publish_error : Type := ChannelClosed | CapacityExhausted.
#[export] Instance publish_error_eq_dec : EqDecision publish_error.
Proof. solve_decision. Defined.
(** The bounded channel: closed, or open with the envelopes not yet received. *)
Record audit_publisher : Type := AuditPublisher {
  channel_open : bool;
  capacity : nat;
  queued : list audit_envelope;
  failure_policy : audit_failure_policy;
  rejected_events : N }.
Definition channel (capacity : nat) (policy : audit_failure_policy) : option audit_publisher :=
  if decide (capacity = 0) then None else Some (AuditPublisher true capacity [] policy 0).
(** [publish]; a fail-closed sender on a full open channel waits ([None]). *)
Definition publisher_publish (p : audit_publisher) (e : audit_envelope)
  : option (result publish_error unit * audit_publisher) :=
  let accepted := AuditPublisher (channel_open p) (capacity p) (queued p ++ [e]) (failure_policy p)
                    (rejected_events p) in
  let rejected := AuditPublisher (channel_open p) (capacity p) (queued p) (failure_policy p)
                    ((rejected_events p + 1) mod (u64_max + 1))%N in
  match failure_policy p with
  | FailClosed =>
      if negb (channel_open p) then Some (Err ChannelClosed, p)
      else if decide (length (queued p) < capacity p) then Some (Ok tt, accepted) else None
  | FailOpen =>
      if negb (channel_open p) then Some (Err ChannelClosed, rejected)
      else if decide (length (queued p) < capacity p) then Some (Ok tt, accepted)
      else Some (Err CapacityExhausted, rejected)
  end.

(** * Redaction (redaction.rs) *)

(** The [url] crate: parsed absolute URLs and form-encoded queries. *)
Class Urls : Type := {
  url : Type;
  url_parse : bytes -> option url;
  url_username : url -> bytes;
  url_password : url -> option bytes;
  url_redact_userinfo : bytes -> url -> option url;
  url_query_pairs : url -> list (bytes * bytes);
  url_with_query_pairs : list (bytes * bytes) -> url -> url;
  url_text : url -> bytes;
  form_parse : bytes -> list (bytes * bytes);
  form_serialize : list (bytes * bytes) -> bytes }.

Definition REDACTED : bytes := bs "[REDACTED]".
Definition is_secret_header (name : bytes) : bool :=
  bool_decide (to_ascii_lowercase name ∈
    [bs "authorization"; bs "proxy-authorization"; bs "cookie"; bs "set-cookie"]).
Definition redact_headers (headers : gmap bytes (list bytes)) : gmap bytes (list bytes) :=
  map_imap (fun name values => Some (if is_secret_header name then [REDACTED] else values)) headers.
(** Iteration over the map and reconstruction: the keys are already lower-case. *)
Definition redact_sanitized_headers (h : SanitizedHeaders.t) : SanitizedHeaders.t :=
  SanitizedHeaders.new
    (map (fun e => (e.1, if is_secret_header e.1 then [REDACTED] else e.2))
       (map_to_list (SanitizedHeaders.headers_map h))).

Module Redactor.
Record t : Type := Make { query_parameters : gset bytes }.
Definition new (parameters : list bytes) : t :=
  Make (list_to_set (map to_ascii_lowercase parameters)).
Definition is_secret_parameter (r : t) (name : bytes) : bool :=
  bool_decide (to_ascii_lowercase name ∈ query_parameters r).
Definition redact_pair (r : t) (pair : bytes * bytes) : bytes * bytes :=
  (pair.1, if is_secret_parameter r pair.1 then REDACTED else pair.2).

Section Redact.
Context `{Urls}.
Definition redact_origin_form (r : t) (target : bytes) : bytes :=
  let '(without_fragment, fragment) :=
    match split_once (byte_of 35) target with
    | None => (target, None)
    | Some (before, after) => (before, Some after)
    end in
  match split_once (byte_of 63) without_fragment with
  | None => target
  | Some (path, raw_query) =>
      let query := form_serialize (map (redact_pair r) (form_parse raw_query)) in
      match fragment with
      | None => path ++ bs "?" ++ query
      | Some fragment => path ++ bs "?" ++ query ++ bs "#" ++ fragment
      end
  end.
Definition redact_target (r : t) (target : bytes) : bytes :=
  match url_parse target with
  | None => redact_origin_form r target
  | Some u =>
      let has_userinfo :=
        negb (bool_decide (url_username u = [])) || bool_decide (is_Some (url_password u)) in
      match (if has_userinfo then url_redact_userinfo REDACTED u else Some u) with
      | None => bs "[REDACTED URL WITH USERINFO]"
      | Some u =>
          let pairs := url_query_pairs u in
          if bool_decide (pairs = []) && negb has_userinfo then target
          else url_text (if bool_decide (pairs = []) then u
                         else url_with_query_pairs (map (redact_pair r) pairs) u)
      end
  end.
Definition redact_event (r : t) (e : audit_event) : audit_event :=
  match e with
  | HttpRequestObserved method target headers =>
      HttpRequestObserved method (redact_target r target) (redact_headers headers)
  | HttpResponseObserved status headers => HttpResponseObserved status (redact_headers headers)
  | ReplayFactsObserved (ReplayHttpRequest facts) =>
      ReplayFactsObserved (ReplayHttpRequest
        (http_request_facts_new (request_target facts) (request_method facts)
           (redact_target r (request_path facts)) (redact_sanitized_headers (request_headers facts))))
  | ReplayFactsObserved (ReplayHttpResponse facts) =>
      ReplayFactsObserved (ReplayHttpResponse
        (HttpResponseFacts (response_target facts) (response_status facts)
           (redact_sanitized_headers (response_headers facts))))
  | e => e
  end.
End Redact.
End Redactor.

(** * Counters (crates/freja-proxy/src/metrics.rs) *)

Record metric_counters : Type := MetricCounters {
  accepted_flows : N; closed_flows : N; policy_actions : N; findings : N;
  client_to_upstream_bytes : N; upstream_to_client_bytes : N; tls_interceptions : N;
  tls_leaf_cache_hits : N; tls_leaf_cache_misses : N; manual_actions : N }.
(** [AtomicU64::fetch_add] wraps around. *)
Definition wrapping_add (a b : N) : N := ((a + b) mod (u64_max + 1))%N.
Definition observe (m : metric_counters) (e : audit_event) : metric_counters :=
  let '(MetricCounters a c p f u d t h n k) := m in
  match e with
  | ConnectionAccepted _ _ => MetricCounters (wrapping_add a 1) c p f u d t h n k
  | FlowClosed up down _ =>
      MetricCounters a (wrapping_add c 1) p f (wrapping_add u up) (wrapping_add d down) t h n k
  | TunnelClosed up down _ => MetricCounters a c p f (wrapping_add u up) (wrapping_add d down) t h n k
  | ActionExecuted _ => MetricCounters a c (wrapping_add p 1) f u d t h n k
  | FindingDetected _ => MetricCounters a c p (wrapping_add f 1) u d t h n k
  | TlsCertificateGenerated _ true => MetricCounters a c p f u d t (wrapping_add h 1) n k
  | TlsCertificateGenerated _ false => MetricCounters a c p f u d t h (wrapping_add n 1) k
  | TlsInterceptionEstablished _ _ => MetricCounters a c p f u d (wrapping_add t 1) h n k
  | ManualModification _ => MetricCounters a c p f u d t h n (wrapping_add k 1)
  | HttpRepeatStarted _ _ => MetricCounters (wrapping_add a 1) c p f u d t h n (wrapping_add k 1)
  | TargetResolved _ _ | AclEvaluated _ | HttpRequestObserved _ _ _ | HttpResponseObserved _ _
  | ProxyAuthentication_ _ | CheckpointEvent _ | InspectionEvaluated _ | ReplayFactsObserved _
  | PayloadPrefixCaptured _ _ _ | HookExecuted _ _ => m
  end.
Record metrics_snapshot : Type := MetricsSnapshot {
  sampled : metric_counters; active_flows : N; audit_rejected : N; sink_dropped : N }.
Definition snapshot_with_delivery (m : metric_counters) (rejected dropped : N) : metrics_snapshot :=
  MetricsSnapshot m (accepted_flows m - closed_flows m)%N rejected dropped.

(** * Redaction lemmas *)

Definition redacted_values (name : bytes) (values : list bytes) : list bytes :=
  if is_secret_header name then [REDACTED] else values.
Definition lower_keys (m : gmap bytes (list bytes)) : Prop :=
  map_Forall (fun name _ => to_ascii_lowercase name = name) m.

Lemma foldl_add_entry (l : list (bytes * list bytes)) (m : gmap bytes (list bytes)) :
  NoDup l.*1 -> Forall (fun name => to_ascii_lowercase name = name /\ m !! name = None) l.*1 ->
  foldl SanitizedHeaders.add_entry m l = list_to_map l ∪ m.
Proof.
  revert m; induction l as [|[k v] l IH]; intros m; cbn [fmap list_fmap fst foldl list_to_map foldr].
  - intros _ _. by rewrite (left_id_L ∅ (∪)).
  - intros [Hk Hnd]%NoDup_cons [[Hlow Hnone] HF]%Forall_cons.
    unfold SanitizedHeaders.add_entry at 2. cbn [fst snd]. rewrite Hlow, Hnone. cbn [default app].
    rewrite IH; [|done|].
    + cbn. rewrite <- insert_union_l, <- insert_union_r; [done|]. by apply not_elem_of_list_to_map_1.
    + rewrite Forall_forall in HF |- *. intros k' Hk'. destruct (HF k' Hk') as [Hl' Hn'].
      split; [done|]. rewrite lookup_insert_ne; [done|]. by intros ->.
Qed.
Lemma lookup_redact_headers (m : gmap bytes (list bytes)) name :
  redact_headers m !! name = redacted_values name <$> m !! name.
Proof. unfold redact_headers. rewrite map_lookup_imap. by destruct (m !! name). Qed.
Lemma redact_sanitized_map h : lower_keys (SanitizedHeaders.headers_map h) ->
  SanitizedHeaders.headers_map (redact_sanitized_headers h)
  = redact_headers (SanitizedHeaders.headers_map h).
Proof.
  destruct h as [m]. intros Hlow. unfold redact_sanitized_headers, SanitizedHeaders.new.
  cbn [SanitizedHeaders.headers_map] in *.
  set (g := fun e : bytes * list bytes => (e.1, if is_secret_header e.1 then [REDACTED] else e.2)).
  assert (Hfst : (map g (map_to_list m)).*1 = (map_to_list m).*1).
  { change (map g) with (fmap (M := list) g). rewrite <- list_fmap_compose. done. }
  rewrite foldl_add_entry; rewrite ?Hfst; [|apply NoDup_fst_map_to_list|].
  - rewrite (right_id_L ∅ (∪)). apply map_eq. intros name. apply option_eq. intros vs.
    rewrite <- elem_of_list_to_map by (rewrite Hfst; apply NoDup_fst_map_to_list).
    rewrite lookup_redact_headers, fmap_Some.
    change (map g) with (fmap (M := list) g). rewrite list_elem_of_fmap. split.
    + intros ([k v] & [= -> ->] & Hin%elem_of_map_to_list). eauto.
    + intros (v & Hv & ->). exists (name, v). split; [done|]. by apply elem_of_map_to_list.
  - rewrite Forall_forall. intros k Hk. split; [|apply lookup_empty].
    apply list_elem_of_fmap in Hk as ([k' v] & -> & Hin%elem_of_map_to_list). by apply (Hlow k' v).
Qed.

(** The header map an event carries; those of facts come from [SanitizedHeaders]. *)
Definition event_headers (e : audit_event) : option (gmap bytes (list bytes)) :=
  match e with
  | HttpRequestObserved _ _ h | HttpResponseObserved _ h => Some h
  | ReplayFactsObserved (ReplayHttpRequest f) => Some (SanitizedHeaders.headers_map (request_headers f))
  | ReplayFactsObserved (ReplayHttpResponse f) => Some (SanitizedHeaders.headers_map (response_headers f))
  | _ => None
  end.
Definition event_wf (e : audit_event) : Prop :=
  match e with
  | ReplayFactsObserved (ReplayHttpRequest f) => lower_keys (SanitizedHeaders.headers_map (request_headers f))
  | ReplayFactsObserved (ReplayHttpResponse f) => lower_keys (SanitizedHeaders.headers_map (response_headers f))
  | _ => True
  end.

(** * Properties *)

(** No event reaches the audit stream with a credential header: in the headers of
    observed and replayable requests and responses, names that are in any letter
    case Authorization, Proxy-Authorization, Cookie or Set-Cookie keep a single
    redaction marker, and every other header keeps all its values. *)
Theorem redaction_covers_headers `{Urls} (r : Redactor.t) (e : audit_event) (name : bytes) :
  event_wf e ->
  (m ← event_headers (Redactor.redact_event r e); m !! name)
  = (m ← event_headers e; redacted_values name <$> m !! name).
Proof.
  destruct e as [| | |method target h|status h| | | | |[| |f|f|]| | | | | | | | |]; intros Hwf; mcbn; try done.
  - apply lookup_redact_headers.
  - apply lookup_redact_headers.
  - cbn [Redactor.redact_event event_headers http_request_facts_new request_headers mbind option_bind].
    rewrite redact_sanitized_map by done. apply lookup_redact_headers.
  - cbn [Redactor.redact_event event_headers response_headers mbind option_bind].
    rewrite redact_sanitized_map by done. apply lookup_redact_headers.
Qed.

Section Query.
Context `{Urls}.
(** [form_urlencoded] reads back the pairs it writes, and escapes [#]. *)
Context (form_roundtrip : forall pairs, form_parse (form_serialize pairs) = pairs).
Context (form_no_hash : forall pairs, byte_of 35 ∉ form_serialize pairs).

(** In an origin-form target (which is not an absolute URL), redaction keeps the
    path, the fragment and every parameter name; in the query that a reader of the
    audit stream decodes, the configured parameters (in any letter case) have the
    redaction marker as their value and the others are unchanged. *)
Theorem redaction_covers_query (r : Redactor.t) (path query fragment : bytes) :
  byte_of 63 ∉ path -> byte_of 35 ∉ path -> byte_of 35 ∉ query ->
  url_parse (path ++ bs "?" ++ query ++ bs "#" ++ fragment) = None ->
  exists query',
    Redactor.redact_target r (path ++ bs "?" ++ query ++ bs "#" ++ fragment)
      = path ++ bs "?" ++ query' ++ bs "#" ++ fragment /\
    byte_of 35 ∉ query' /\
    form_parse query' = map (Redactor.redact_pair r) (form_parse query).
Proof.
  intros Hp Hph Hq Hu. exists (form_serialize (map (Redactor.redact_pair r) (form_parse query))).
  split; [|auto]. unfold Redactor.redact_target. rewrite Hu. unfold Redactor.redact_origin_form.
  replace (path ++ bs "?" ++ query ++ bs "#" ++ fragment)
    with ((path ++ byte_of 63 :: query) ++ byte_of 35 :: fragment) by (by rewrite <- !app_assoc).
  rewrite split_once_app; [|set_solver]. rewrite split_once_app by done. done.
Qed.
End Query.

(** * A concrete form codec, for the witnesses: pairs by their numbering, in binary *)
Module Example_forms.
Fixpoint bits_of (p : positive) : bytes :=
  match p with xH => [] | xO p => byte_of 48 :: bits_of p | xI p => byte_of 49 :: bits_of p end.
Fixpoint of_bits (l : bytes) : positive :=
  match l with [] => xH | b :: l => if decide (b = byte_of 48) then xO (of_bits l) else xI (of_bits l) end.
Lemma of_bits_of p : of_bits (bits_of p) = p.
Proof. induction p as [p IH|p IH|]; cbn; by rewrite ?IH. Qed.
Lemma hash_bits p : byte_of 35 ∉ bits_of p.
Proof. induction p; cbn; [apply not_elem_of_cons; done..|apply not_elem_of_nil]. Qed.
#[local] Instance binary_forms : Urls := {|
  url := unit; url_parse := fun _ => None; url_username := fun _ => []; url_password := fun _ => None;
  url_redact_userinfo := fun _ u => Some u; url_query_pairs := fun _ => [];
  url_with_query_pairs := fun _ u => u; url_text := fun _ => [];
  form_parse := fun b => default [] (decode (of_bits b));
  form_serialize := fun pairs => bits_of (encode pairs) |}.
Lemma binary_roundtrip pairs : form_parse (form_serialize pairs) = pairs.
Proof. cbn. by rewrite of_bits_of, decode_encode. Qed.

Lemma redaction_covers_query_witness :
  let r := Redactor.new [bs "Token"] in
  let query := form_serialize [(bs "token", bs "s3"); (bs "q", bs "x")] in
  exists query',
    Redactor.redact_target r (bs "/a" ++ bs "?" ++ query ++ bs "#" ++ bs "f")
      = bs "/a" ++ bs "?" ++ query' ++ bs "#" ++ bs "f" /\
    byte_of 35 ∉ query' /\
    form_parse query' = map (Redactor.redact_pair r) (form_parse query).
Proof.
  apply (redaction_covers_query binary_roundtrip (fun pairs => hash_bits (encode pairs))
           (Redactor.new [bs "Token"]) (bs "/a")).
  - apply (bool_decide_unpack (byte_of 63 ∉ bs "/a")). reflexivity.
  - apply (bool_decide_unpack (byte_of 35 ∉ bs "/a")). reflexivity.
  - apply hash_bits.
  - reflexivity.
Defined.
Lemma redaction_covers_headers_witness :
  (m ← event_headers (Redactor.redact_event (Redactor.new [])
          (HttpResponseObserved (HttpStatusCode.Make 200) {[ bs "Set-Cookie" := [bs "id=1"; bs "x=2"] ]}));
   m !! bs "Set-Cookie") = Some [REDACTED].
Proof.
  rewrite (redaction_covers_headers (Redactor.new [])
    (HttpResponseObserved (HttpStatusCode.Make 200) {[ bs "Set-Cookie" := [bs "id=1"; bs "x=2"] ]})
    (bs "Set-Cookie") I).
  vm_compute. reflexivity.
Defined.
End Example_forms.
