(* ===== verification/AuditSink.v ===== *)
(** The audit stream end to end: the hash-chained JSONL sink and its draining loop
    with signed checkpoints (crates/freja-audit/src/sink.rs, checkpoint.rs), and
    the offline replay that verifies and re-evaluates a segment
    (crates/freja/src/replay.rs). *)
From stdpp Require Import gmap strings.
From stdpp Require Import prelude.
From S2P Require Import Prelude Bytes Net Endpoint Domain PolicyModel Acl Guard Inspection AuditModel.

(** * Third-party services *)

(** [serde_json] on the derived serialisations of the two record types.  What is known of
    it is stated where it is used (AuditChain): among others that [TargetHost] is
    written untagged, so that a name that reads as an address has the text of that
    address. *)
Class AuditJson : Type := {
  encode_unsigned : unsigned_record -> option bytes;
  encode_record : audit_record -> option bytes;
  decode_record : bytes -> option audit_record }.
(** [ed25519_dalek]: keys from a 32-byte seed, signing, strict verification. *)
Class Ed25519 : Type := {
  verifying_key : bytes -> bytes;
  ed_sign : bytes -> bytes -> bytes;
  verify_strict : bytes -> bytes -> bytes -> bool }.
(** The [hex] crate. *)
Class Hex : Type := { hex_encode : bytes -> bytes; hex_decode : bytes -> option bytes }.
(** The operating system's answer to writing [line] after [out]: everything was
    written, or an error came after a number of bytes; and to a flush. *)
Class Writer : Type := {
  write_fault : bytes -> bytes -> option nat;
  flush_fault : bytes -> bool }.

(** * Checkpoints (checkpoint.rs) *)

(** [u64::to_be_bytes]. *)
Definition be_bytes (width : nat) (n : N) : bytes :=
  map (fun i => byte_of (N.shiftr n (8 * N.of_nat (width - 1 - i)) mod 256)) (seq 0 width).
Definition NUL : u8 := byte_of 0.
Definition checkpoint_message (s : AuditSequence.t) (h : record_hash) : bytes :=
  bs "freja-audit-checkpoint-v1" ++ NUL :: be_bytes 8 (AuditSequence.get s) ++ record_hash_bytes h.

Section Checkpoints.
Context `{Ed25519}.
Definition checkpoint_verifies (c : signed_checkpoint) : bool :=
  verify_strict (public_key c) (checkpoint_message (covers_sequence c) (checkpoint_hash c)) (signature c).
(** [CheckpointSigner(SigningKey)], by its seed. *)
Definition sign_checkpoint (seed : bytes) (s : AuditSequence.t) (h : record_hash) : signed_checkpoint :=
  SignedCheckpoint s h (verifying_key seed) (ed_sign seed (checkpoint_message s h)).
End Checkpoints.
Record checkpoint_schedule : Type := CheckpointSchedule { signer : bytes; interval : N }.
Definition checkpoint_schedule_new (seed : bytes) (interval : N) : option checkpoint_schedule :=
  if (interval =? 0)%N then None else Some (CheckpointSchedule seed interval).

(** * The sink (sink.rs) *)

Inductive audit_error : Type := SerializeError | WriteError | SinkPoisoned | SequenceExhausted.
#[export] Instance audit_error_eq_dec : EqDecision audit_error.
Proof. solve_decision. Defined.

Module JsonlAuditSink.
Record t : Type := Make {
  writer : bytes;
  redactor : Redactor.t;
  next_sequence : option AuditSequence.t;
  prior_hash : option record_hash;
  poisoned : bool }.
Definition new (r : Redactor.t) : t := Make [] r (Some AuditSequence.FIRST) None false.

Section Sink.
Context `{Urls, Sha256, AuditJson, Writer}.
(** [write_event]: every early return leaves the sink as it was at that point. *)
Definition write_event (s : t) (c : audit_context) (e : audit_event)
  : result audit_error audit_record * t :=
  if poisoned s then (Err SinkPoisoned, s) else
  let e := Redactor.redact_event (redactor s) e in
  match next_sequence s with
  | None => (Err SequenceExhausted, s)
  | Some sequence =>
      let unsigned :=
        UnsignedAuditRecord AuditSchemaVersion.CURRENT sequence (occurred_at c) (context_session c)
          (context_transaction c) (context_generation c) e (prior_hash s) in
      match encode_unsigned unsigned with
      | None => (Err SerializeError, s)
      | Some canonical =>
          let h := RecordHash (sha256 canonical) in
          let record := AuditRecord unsigned h in
          match encode_record record with
          | None => (Err SerializeError, s)
          | Some line =>
              let line := line ++ [LF] in
              match write_fault (writer s) line with
              | Some k =>
                  (Err WriteError,
                   Make (writer s ++ take k line) (redactor s) (next_sequence s) (prior_hash s) true)
              | None =>
                  (Ok record,
                   Make (writer s ++ line) (redactor s) (AuditSequence.checked_next sequence) (Some h) false)
              end
          end
      end
  end.
Definition flush (s : t) : result audit_error unit :=
  if poisoned s then Err SinkPoisoned else if flush_fault (writer s) then Err WriteError else Ok tt.

(** One envelope in the loop of [drain_jsonl_with_checkpoints]. *)
Definition drain_one `{Ed25519} (schedule : option checkpoint_schedule) (ordinary : N) (s : t)
    (e : audit_envelope) : result audit_error N * t :=
  match write_event s (envelope_context e) (envelope_event e) with
  | (Err err, s) => (Err err, s)
  | (Ok record, s) =>
      let ordinary := sat_add ordinary 1 in
      match flush s with
      | Err err => (Err err, s)
      | Ok _ =>
          match schedule with
          | Some schedule =>
              if (ordinary mod interval schedule =? 0)%N then
                let c := sign_checkpoint (signer schedule) (sequence (unsigned record)) (hash record) in
                match write_event s (envelope_context e) (CheckpointEvent c) with
                | (Err err, s) => (Err err, s)
                | (Ok _, s) =>
                    match flush s with Err err => (Err err, s) | Ok _ => (Ok ordinary, s) end
                end
              else (Ok ordinary, s)
          | None => (Ok ordinary, s)
          end
      end
  end.
(** The envelopes received until the channel closes. *)
Fixpoint drain_loop `{Ed25519} (schedule : option checkpoint_schedule) (ordinary : N) (s : t)
    (envelopes : list audit_envelope) : result audit_error unit * t :=
  match envelopes with
  | [] => (Ok tt, s)
  | e :: envelopes =>
      match drain_one schedule ordinary s e with
      | (Err err, s) => (Err err, s)
      | (Ok ordinary, s) => drain_loop schedule ordinary s envelopes
      end
  end.
Definition drain_jsonl_with_checkpoints `{Ed25519} (schedule : option checkpoint_schedule)
    (r : Redactor.t) (envelopes : list audit_envelope) : result audit_error unit * t :=
  drain_loop schedule 0 (new r) envelopes.
End Sink.
End JsonlAuditSink.

(** * Offline replay (freja/src/replay.rs) *)

Definition MAXIMUM_REPLAY_LINE_BYTES : N := 16 * 1024 * 1024.
Inductive replay_error : Type :=
| LineTooLong (maximum : N)
| NotUtf8
| InvalidJson (line : N)
| UnsupportedSchema (version : AuditSchemaVersion.t) (line : N)
| RepeatInSchemaOne (line : N)
| IntegrityFailed (line : N)
| CheckpointFailed (line : N)
| InvalidCapture (sequence : AuditSequence.t)
| CaptureTooLong (sequence : AuditSequence.t)
| NoCheckpoint
| PublicKeyNotHex
| PublicKeyLength.
#[export] Instance replay_error_eq_dec : EqDecision replay_error.
Proof. solve_decision. Defined.

#[export] Instance direction_countable : Countable direction.
Proof.
  refine (inj_countable'
    (fun d => match d with ClientToUpstream => 0 | UpstreamToClient => 1 | HttpRequestBody => 2 | HttpResponseBody => 3 end)
    (fun n => match n with 0 => ClientToUpstream | 1 => UpstreamToClient | 2 => HttpRequestBody | _ => HttpResponseBody end) _).
  by intros [].
Defined.
#[export] Instance protocol_countable : Countable protocol.
Proof.
  refine (inj_countable' (fun p => match p with Tcp => true | Http => false end)
    (fun b : bool => if b then Tcp else Http) _).
  by intros [].
Defined.

(** [read_until(b'\n')] on a reader limited to [limit] bytes. *)
Fixpoint read_until (limit : N) (input : bytes) : bytes * bytes :=
  match input with
  | [] => ([], [])
  | b :: rest =>
      if (limit =? 0)%N then ([], input)
      else if decide (b = LF) then ([b], rest)
      else let '(line, rest) := read_until (limit - 1) rest in (b :: line, rest)
  end.
(** The line without its ending, [None] at the end of the input, and the rest. *)
Definition read_bounded_replay_line (input : bytes) (maximum : N)
  : result replay_error (option bytes * bytes) :=
  let '(line, rest) := read_until (sat_add maximum 2) input in
  if bool_decide (line = []) then Ok (None, rest)
  else
    let line :=
      match strip_suf [LF] line with
      | Some line => default line (strip_suf [CR] line)
      | None => line
      end in
    if (maximum <? lenN line)%N then Err (LineTooLong maximum)
    else if utf8_valid line then Ok (Some line, rest) else Err NotUtf8.

Definition validate_replay_schema (v : AuditSchemaVersion.t) (line : N) : result replay_error unit :=
  if AuditSchemaVersion.is_supported v then Ok tt else Err (UnsupportedSchema v line).
Definition validate_replay_event_schema (v : AuditSchemaVersion.t) (e : audit_event) (line : N)
  : result replay_error unit :=
  match e with
  | HttpRepeatStarted _ _ =>
      if decide (v = AuditSchemaVersion.V1) then Err (RepeatInSchemaOne line) else Ok tt
  | _ => Ok tt
  end.

Section Replay.
Context `{IpNet, Sha256, AuditJson, Ed25519, Hex}.

(** [AuditRecord::verifies_hash]. *)
Definition verifies_hash (r : audit_record) : bool :=
  match encode_unsigned (unsigned r) with
  | Some canonical => bool_decide (RecordHash (sha256 canonical) = hash r)
  | None => false
  end.
Definition parse_checkpoint_public_key (value : bytes) : result replay_error bytes :=
  decoded ← ok_or PublicKeyNotHex (hex_decode value);
  if decide (length decoded = 32) then Ok decoded else Err PublicKeyLength.

(** What replay uses of the compiled configuration. *)
Record replay_config : Type := ReplayConfig {
  replay_policy : acl_policy;
  replay_guard : DestinationGuard.t;
  replay_inspection : InspectionProgram.t;
  replay_body_prefix_bytes : nat }.
Definition stream_key : Type := session_id * option transaction_id * direction * protocol.
#[local] Instance stream_key_eq_dec : EqDecision stream_key.
Proof. unfold stream_key, session_id, transaction_id. apply _. Defined.
#[local] Instance stream_key_countable : Countable stream_key.
Proof. unfold stream_key, session_id, transaction_id. apply _. Defined.

Definition replay_facts_decisions (c : replay_config) (facts : replay_facts) : list Decision.t :=
  match facts with
  | ReplayRequested f => [Acl.evaluate (replay_policy c) (Requested f)]
  | ReplayResolved f =>
      match DestinationGuard.evaluate (replay_guard c) (Acl.generation (replay_policy c)) f with
      | Some d => [d]
      | None => []
      end ++ [Acl.evaluate (replay_policy c) (Resolved f)]
  | ReplayHttpRequest f => [Acl.evaluate (replay_policy c) (HttpRequest f)]
  | ReplayHttpResponse f => [Acl.evaluate (replay_policy c) (HttpResponse f)]
  | ReplayFinding f p => [InspectionProgram.evaluate (replay_inspection c) f p]
  end.
(** Decisions printed for one record, and the scanners of captured streams. *)
Definition replay_record (c : replay_config) (r : audit_record)
    (scanners : gmap stream_key StreamScanner.t)
  : result replay_error (list Decision.t * gmap stream_key StreamScanner.t) :=
  match record_event (unsigned r) with
  | ReplayFactsObserved facts => Ok (replay_facts_decisions c facts, scanners)
  | PayloadPrefixCaptured d p bytes_hex =>
      captured ← ok_or (InvalidCapture (sequence (unsigned r))) (hex_decode bytes_hex);
      if decide (replay_body_prefix_bytes c < length captured)
      then Err (CaptureTooLong (sequence (unsigned r)))
      else
        let key := (record_session (unsigned r), record_transaction (unsigned r), d, p) in
        let scanner := default (StreamScanner.scanner (replay_inspection c) d) (scanners !! key) in
        let '(findings, scanner) := StreamScanner.inspect scanner captured in
        Ok (map (fun f => InspectionProgram.evaluate (replay_inspection c) f p) findings,
            <[key := scanner]> scanners)
  | _ => Ok ([], scanners)
  end.

Record replay_state : Type := ReplayState {
  expected_sequence : N;
  replay_previous : option record_hash;
  printed : list Decision.t;
  verified_checkpoints : N;
  replay_scanners : gmap stream_key StreamScanner.t;
  line_number : N }.
Definition replay_init : replay_state := ReplayState 1 None [] 0 ∅ 0.

(** [covers_chain] and the key and signature checks of one checkpoint. *)
Definition checkpoint_accepted (expected_key : option bytes) (st : replay_state) (c : signed_checkpoint)
  : bool :=
  checkpoint_verifies c
  && match expected_key with None => true | Some key => bool_decide (public_key c = key) end
  && match replay_previous st with
     | None => false
     | Some h =>
         (AuditSequence.get (covers_sequence c) =? expected_sequence st - 1)%N
         && bool_decide (checkpoint_hash c = h)
     end.
(** The checks that chain one record to its predecessor. *)
Definition chain_accepted (st : replay_state) (r : audit_record) : bool :=
  (AuditSequence.get (sequence (unsigned r)) =? expected_sequence st)%N
  && bool_decide (previous_hash (unsigned r) = replay_previous st)
  && verifies_hash r.
Definition replay_line (c : replay_config) (expected_key : option bytes) (st : replay_state) (line : bytes)
  : result replay_error replay_state :=
  let number := (line_number st + 1)%N in
  r ← ok_or (InvalidJson number) (decode_record line);
  _ ← validate_replay_schema (schema_version (unsigned r)) number;
  _ ← validate_replay_event_schema (schema_version (unsigned r)) (record_event (unsigned r)) number;
  if negb (chain_accepted st r) then Err (IntegrityFailed number) else
  verified ←
    match record_event (unsigned r) with
    | CheckpointEvent cp =>
        if checkpoint_accepted expected_key st cp then Ok (sat_add (verified_checkpoints st) 1)
        else Err (CheckpointFailed number)
    | _ => Ok (verified_checkpoints st)
    end;
  '(decisions, scanners) ← replay_record c r (replay_scanners st);
  Ok (ReplayState (sat_add (expected_sequence st) 1) (Some (hash r)) (printed st ++ decisions) verified
        scanners number).
(** The line loop; a line takes at least one byte of the input. *)
Fixpoint replay_loop (fuel : nat) (c : replay_config) (expected_key : option bytes) (maximum : N)
    (st : replay_state) (input : bytes) : result replay_error replay_state :=
  match fuel with
  | O => Ok st
  | S fuel =>
      '(line, rest) ← read_bounded_replay_line input maximum;
      match line with
      | None => Ok st
      | Some line =>
          st ← replay_line c expected_key st line;
          replay_loop fuel c expected_key maximum st rest
      end
  end.
Definition replay_audit (c : replay_config) (checkpoint_public_key : option bytes) (segment : bytes)
  : result replay_error replay_state :=
  expected_key ←
    match checkpoint_public_key with
    | None => Ok None
    | Some value => Some <$> parse_checkpoint_public_key value
    end;
  st ← replay_loop (S (length segment)) c expected_key MAXIMUM_REPLAY_LINE_BYTES replay_init segment;
  if bool_decide (is_Some expected_key) && (verified_checkpoints st =? 0)%N then Err NoCheckpoint
  else Ok st.
End Replay.
