(* ===== verification/AuditChain.v ===== *)
(** What the audit stream promises: the abstract specification of a hash-chained
    segment, that the sink (AuditSink.JsonlAuditSink) writes exactly such a segment
    whatever its writer does, that offline replay accepts every segment the drain
    loop completes, and that replay's acceptance leaves no room for rewriting a
    record that a later hash commits to. *)
From stdpp Require Import gmap strings.
From stdpp Require Import prelude.
From S2P Require Import Prelude Bytes Net Endpoint Domain PolicyModel Acl Guard Inspection AuditModel AuditSink.
#[local] Ltac Zify.zify_post_hook ::= Z.to_euclidean_division_equations.

(** * What a line of JSON says

    [TargetHost] is written untagged, as the text of the address or of the name, and a
    text that reads as an address is read back as one.  A name that reads as an
    address, such as the one of ["127.0.0.1."], therefore has the JSON of that address,
    and a record is determined by its JSON up to such names. *)
Definition canonical_host (h : target_host) : target_host :=
  match h with
  | Name n => match parse_ip (HostName.as_str n) with Some a => Ip a | None => h end
  | Ip _ => h
  end.
Definition canonical_endpoint (e : UpstreamEndpoint.t) : UpstreamEndpoint.t :=
  UpstreamEndpoint.Make (canonical_host (UpstreamEndpoint.host e)) (UpstreamEndpoint.port e).
Definition canonical_decision (d : Decision.t) : Decision.t :=
  Decision.Make
    match Decision.action d with TcpDetour e => TcpDetour (canonical_endpoint e) | a => a end (Decision.trace d).
Definition canonical_requested (f : requested_facts) : requested_facts :=
  RequestedTargetFacts (source_ip f) (canonical_host (requested_host f)) (destination_port f) (facts_protocol f).
Definition canonical_resolved (f : resolved_facts) : resolved_facts :=
  ResolvedTargetFacts (canonical_requested (resolved_requested f)) (resolved_ip f).
Definition canonical_facts (f : replay_facts) : replay_facts :=
  match f with
  | ReplayRequested f => ReplayRequested (canonical_requested f)
  | ReplayResolved f => ReplayResolved (canonical_resolved f)
  | ReplayHttpRequest f =>
      ReplayHttpRequest (HttpRequestFacts (canonical_resolved (request_target f)) (request_method f) (request_path f) (request_headers f))
  | ReplayHttpResponse f =>
      ReplayHttpResponse (HttpResponseFacts (canonical_resolved (response_target f)) (response_status f) (response_headers f))
  | ReplayFinding _ _ => f
  end.
Definition canonical_event (e : audit_event) : audit_event :=
  match e with
  | AclEvaluated d => AclEvaluated (canonical_decision d)
  | InspectionEvaluated d => InspectionEvaluated (canonical_decision d)
  | ActionExecuted d => ActionExecuted (canonical_decision d)
  | ReplayFactsObserved f => ReplayFactsObserved (canonical_facts f)
  | e => e
  end.
Definition canonical_unsigned (u : unsigned_record) : unsigned_record :=
  UnsignedAuditRecord (schema_version u) (sequence u) (record_occurred_at u) (record_session u) (record_transaction u)
    (record_generation u) (canonical_event (record_event u)) (previous_hash u).
Definition canonical_record (r : audit_record) : audit_record := AuditRecord (canonical_unsigned (unsigned r)) (hash r).

(** * Specification: a chained segment *)

Definition record_sequence (r : audit_record) : N := AuditSequence.get (sequence (unsigned r)).
(** Consecutive numbering from [n]. *)
Fixpoint numbered (n : N) (rs : list audit_record) : Prop :=
  match rs with [] => True | r :: rs => record_sequence r = n /\ numbered (n + 1) rs end.
Definition last_hash (prev : option record_hash) (rs : list audit_record) : option record_hash :=
  foldl (fun _ r => Some (hash r)) prev rs.
(** The bytes of a list of lines. *)
Definition terminated (lines : list bytes) : bytes := concat (map (fun l => l ++ [LF]) lines).

Section Spec.
Context `{Sha256, AuditJson}.
(** Every record carries its own hash and the hash of its predecessor. *)
Fixpoint linked (prev : option record_hash) (rs : list audit_record) : Prop :=
  match rs with
  | [] => True
  | r :: rs => previous_hash (unsigned r) = prev /\ verifies_hash r = true /\ linked (Some (hash r)) rs
  end.
Definition encodes (r : audit_record) (line : bytes) : Prop := encode_record r = Some line.
End Spec.

Lemma terminated_app a b : terminated (a ++ b) = terminated a ++ terminated b.
Proof. unfold terminated. by rewrite map_app, concat_app. Qed.
Lemma last_hash_app p a b : last_hash p (a ++ b) = last_hash (last_hash p a) b.
Proof. apply foldl_app. Qed.

Section LinkedLemmas.
Context `{Sha256, AuditJson}.
Lemma linked_app p a b : linked p (a ++ b) <-> linked p a /\ linked (last_hash p a) b.
Proof.
  revert p; induction a as [|r a IH]; intros p; cbn; [tauto|].
  rewrite IH. unfold last_hash. tauto.
Qed.
Lemma verifies_hash_inv r : verifies_hash r = true ->
  exists canonical, encode_unsigned (unsigned r) = Some canonical /\ hash r = RecordHash (sha256 canonical).
Proof.
  unfold verifies_hash. destruct (encode_unsigned (unsigned r)) as [canonical|]; [|done].
  intros Hb%bool_decide_eq_true. eauto.
Qed.
End LinkedLemmas.

(** * The sink writes a chained segment *)

Section SinkRun.
Context `{Urls, Sha256, AuditJson, Writer}.
Import JsonlAuditSink.

(** A sequence of calls, with what each returned. *)
Fixpoint sink_run (s : t) (calls : list (audit_context * audit_event))
  : list (result audit_error audit_record) * t :=
  match calls with
  | [] => ([], s)
  | (c, e) :: calls =>
      let '(r, s) := write_event s c e in
      let '(rs, s) := sink_run s calls in (r :: rs, s)
  end.

Lemma write_event_Ok s c e r s' : write_event s c e = (Ok r, s') ->
  poisoned s = false /\
  exists q line,
    next_sequence s = Some q /\
    unsigned r = UnsignedAuditRecord AuditSchemaVersion.CURRENT q (occurred_at c) (context_session c)
                   (context_transaction c) (context_generation c)
                   (Redactor.redact_event (redactor s) e) (prior_hash s) /\
    verifies_hash r = true /\ encode_record r = Some line /\
    s' = Make (writer s ++ line ++ [LF]) (redactor s) (AuditSequence.checked_next q) (Some (hash r)) false.
Proof.
  unfold write_event. destruct (poisoned s) eqn:Hp; [done|].
  destruct (next_sequence s) as [q|] eqn:Hq; [|done].
  destruct (encode_unsigned _) as [canonical|] eqn:Hc; [|done].
  destruct (encode_record _) as [line|] eqn:Hl; [|done].
  destruct (write_fault _ _) eqn:Hw; [done|].
  intros [= <- <-]. split; [done|]. exists q, line. split; [done|]. split; [done|].
  split; [|done]. unfold verifies_hash. cbn [unsigned hash]. rewrite Hc.
  by apply bool_decide_eq_true.
Qed.
Lemma write_event_Err s c e err s' : write_event s c e = (Err err, s') ->
  (err <> WriteError /\ s' = s) \/
  (err = WriteError /\ poisoned s = false /\
   exists r line k, encode_record r = Some line /\
     s' = Make (writer s ++ take k (line ++ [LF])) (redactor s) (next_sequence s) (prior_hash s) true).
Proof.
  unfold write_event. destruct (poisoned s) eqn:Hp; [intros [= <- <-]; by left|].
  destruct (next_sequence s) as [q|] eqn:Hq; [|intros [= <- <-]; by left].
  destruct (encode_unsigned _) as [canonical|] eqn:Hc; [|intros [= <- <-]; by left].
  destruct (encode_record _) as [line|] eqn:Hl; [|intros [= <- <-]; by left].
  destruct (write_fault _ _) as [k|] eqn:Hw; [|done].
  intros [= <- <-]. right. split; [done|]. split; [done|]. eauto.
Qed.
Lemma checked_next_get q q' : AuditSequence.checked_next q = Some q' ->
  AuditSequence.get q' = (AuditSequence.get q + 1)%N /\ (AuditSequence.get q + 1 <= u64_max)%N.
Proof.
  unfold AuditSequence.checked_next. destruct (checked_add _ _) as [v|] eqn:E; [|done].
  apply checked_add_Some in E as [-> Hle]. case_if; [done|]. by intros [= <-].
Qed.

Lemma sink_run_poisoned s calls : poisoned s = true ->
  sink_run s calls = (map (fun _ => Err SinkPoisoned) calls, s).
Proof.
  intros Hp. induction calls as [|[c e] calls IH]; cbn [sink_run map]; [done|].
  unfold write_event. rewrite Hp. by rewrite IH.
Qed.

(** What a run from state [s] leaves: complete lines of the records returned, then
    nothing, or one torn line after which every call failed. *)
Definition run_log (s : t) (results : list (result audit_error audit_record)) (s' : t) : Prop :=
  exists lines tail,
    Forall2 encodes (omap res_ok results) lines /\
    writer s' = writer s ++ terminated lines ++ tail /\
    if poisoned s' then
      exists before after r line k,
        results = before ++ Err WriteError :: after /\ Forall (eq (Err SinkPoisoned)) after /\
        encodes r line /\ tail = take k (line ++ [LF])
    else tail = [].
Lemma sink_run_log s calls results s' :
  poisoned s = false -> sink_run s calls = (results, s') -> run_log s results s'.
Proof.
  revert s results s'. induction calls as [|[c e] calls IH]; intros s results s' Hp; cbn [sink_run].
  { intros [= <- <-]. exists [], []. cbn. rewrite Hp, !app_nil_r. auto using Forall2_nil. }
  destruct (write_event s c e) as [r s1] eqn:Hw.
  destruct (sink_run s1 calls) as [rs s2] eqn:Hrun. intros [= <- <-].
  destruct r as [r|err].
  - apply write_event_Ok in Hw as (_ & q & line & Hq & Hu & Hv & Hl & ->).
    apply IH in Hrun as (lines & tail & HF & HW & HT); [|done].
    exists (line :: lines), tail. split; [by constructor|]. cbn [writer] in HW. split.
    + rewrite HW. unfold terminated; cbn. by rewrite <- !app_assoc.
    + destruct (poisoned s2); [|done].
      destruct HT as (before & after & r' & l' & k & -> & HA & HE & ->).
      exists (Ok r :: before), after, r', l', k. done.
  - apply write_event_Err in Hw as [[Hne ->] | (-> & _ & r & line & k & Hl & ->)].
    + apply IH in Hrun as (lines & tail & HF & HW & HT); [|done].
      exists lines, tail. split; [done|]. split; [done|].
      destruct (poisoned s2); [|done].
      destruct HT as (before & after & r' & l' & k & -> & HA & HE & ->).
      exists (Err err :: before), after, r', l', k. done.
    + rewrite sink_run_poisoned in Hrun by done. injection Hrun as <- <-.
      assert (Hmap : omap res_ok (map (fun _ => Err SinkPoisoned) calls : list (result audit_error audit_record)) = []).
      { clear. by induction calls as [|[] ? IH]. }
      exists [], (take k (line ++ [LF])). split; [|split; [done|]].
      * change (Forall2 encodes
          (omap res_ok (map (fun _ => Err SinkPoisoned) calls : list (result audit_error audit_record))) []).
        rewrite Hmap. constructor.
      * cbn [poisoned]. exists [], (map (fun _ => Err SinkPoisoned) calls), r, line, k.
        split; [done|]. split; [|done]. apply Forall_map, Forall_true. done.
Qed.
Lemma sink_run_chain s calls results s' : sink_run s calls = (results, s') ->
  let rs := omap res_ok results in
  linked (prior_hash s) rs /\
  match next_sequence s with
  | Some q => numbered (AuditSequence.get q) rs /\
              (AuditSequence.get q <= u64_max -> AuditSequence.get q + lenN rs <= u64_max + 1)%N
  | None => rs = []
  end.
Proof.
  revert s results s'. induction calls as [|[c e] calls IH]; intros s results s'; cbn [sink_run].
  { intros [= <- <-]. split; [done|]. destruct (next_sequence s); [|done]. split; [done|]. change (lenN (omap res_ok [])) with 0%N. lia. }
  destruct (write_event s c e) as [r s1] eqn:Hw.
  destruct (sink_run s1 calls) as [rs s2] eqn:Hrun. intros [= <- <-].
  apply IH in Hrun as [HL HN].
  destruct r as [r|err].
  - apply write_event_Ok in Hw as (_ & q & line & Hq & Hu & Hv & Hl & ->).
    cbn [prior_hash next_sequence] in HL, HN. rewrite Hq.
    split; [cbn; rewrite Hu; done|].
    assert (Hseq : record_sequence r = AuditSequence.get q) by (unfold record_sequence; by rewrite Hu).
    change (omap res_ok (Ok r :: rs)) with (r :: omap res_ok rs). cbn [numbered lenN length].
    destruct (AuditSequence.checked_next q) as [q'|] eqn:Hn.
    + apply checked_next_get in Hn as [Hg Hle]. rewrite Hg in HN. destruct HN as [HN Hb].
      split; [done|]. unfold lenN in *. cbn [length]. lia.
    + rewrite HN. split; [done|]. change (lenN [r]) with 1%N. lia.
  - change (omap res_ok (Err err :: rs)) with (omap res_ok rs).
    apply write_event_Err in Hw as [[Hne ->] | (-> & _ & r & line & k & Hl & ->)]; done.
Qed.

(** Whatever the calls and however the writer fails, the bytes a new sink has
    written are exactly the lines of the records it returned, in order, each
    linked to its predecessor's hash and numbered 1, 2, 3, ... without gap or
    repetition within 64 bits; the only exception is a single torn line after a
    write error, and from that error on every call is refused as poisoned. *)
Theorem sink_writes_one_chain (r : Redactor.t) (calls : list (audit_context * audit_event)) :
  let '(results, s) := sink_run (JsonlAuditSink.new r) calls in
  let records := omap res_ok results in
  linked None records /\ numbered 1 records /\ (lenN records <= u64_max)%N /\
  run_log (JsonlAuditSink.new r) results s.
Proof.
  destruct (sink_run _ calls) as [results s] eqn:Hrun. cbn zeta.
  pose proof (sink_run_chain _ _ _ _ Hrun) as [HL [HN Hb]]. cbn in HL, HN, Hb.
  split; [done|]. split; [done|]. split; [|by eapply sink_run_log]. unfold u64_max in *. lia.
Qed.
End SinkRun.

(** * Reading lines back *)

Lemma read_until_line limit l rest : LF ∉ l -> (lenN l < limit)%N ->
  read_until limit (l ++ LF :: rest) = (l ++ [LF], rest).
Proof.
  revert limit; induction l as [|b l IH]; intros limit Hl Hlen; cbn [app read_until].
  - case_if; [apply N.eqb_eq in Heqb; unfold lenN in Hlen; cbn in Hlen; lia|].
    by rewrite decide_True.
  - apply not_elem_of_cons in Hl as [Hb Hl].
    unfold lenN in Hlen; cbn [length] in Hlen.
    rewrite (proj2 (N.eqb_neq limit 0)) by lia. rewrite decide_False by done.
    rewrite IH; [done|done|]. unfold lenN. lia.
Qed.
Lemma read_until_split limit input line rest :
  read_until limit input = (line, rest) -> input = line ++ rest.
Proof.
  revert limit line rest; induction input as [|b input IH]; intros limit line rest; cbn [read_until].
  - by intros [= <- <-].
  - case_if; [by intros [= <- <-]|]. case_decide; [by intros [= <- <-]|].
    destruct (read_until _ input) as [l r] eqn:E. intros [= <- <-].
    cbn. f_equal. by eapply IH.
Qed.
(** A line the writer side promises to be readable: no line feed inside, no
    carriage return at its end, UTF-8, non-empty input. *)
Definition readable (l : bytes) : Prop :=
  LF ∉ l /\ strip_suf [CR] l = None /\ utf8_valid l = true.
Lemma read_bounded_line l rest maximum :
  readable l -> (lenN l <= maximum)%N -> (maximum + 2 <= u64_max)%N ->
  read_bounded_replay_line (l ++ LF :: rest) maximum = Ok (Some l, rest).
Proof.
  intros (Hl & Hcr & Hu) Hlen Hmax. unfold read_bounded_replay_line.
  rewrite sat_add_small by done. rewrite read_until_line by (done || lia).
  rewrite bool_decide_false by (by destruct l).
  rewrite (proj2 (strip_suf_Some [LF] (l ++ [LF]) l)) by done.
  rewrite Hcr; cbn [default]. rewrite (proj2 (N.ltb_ge _ _)) by done. by rewrite Hu.
Qed.
Lemma read_bounded_shrinks input maximum line rest :
  read_bounded_replay_line input maximum = Ok (Some line, rest) -> length rest < length input.
Proof.
  unfold read_bounded_replay_line. destruct (read_until _ input) as [l r] eqn:E.
  apply read_until_split in E as ->. case_bool_decide as Hl; [done|].
  case_if; [done|]. case_if; [|done]. intros [= _ <-]. rewrite length_app.
  destruct l; [done|cbn; lia].
Qed.

Section ReplayLemmas.
Context `{IpNet, Sha256, AuditJson, Ed25519, Hex}.

(** The loop without its reader. *)
Fixpoint replay_lines (c : replay_config) (key : option bytes) (st : replay_state) (lines : list bytes)
  : result replay_error replay_state :=
  match lines with
  | [] => Ok st
  | l :: lines => st ← replay_line c key st l; replay_lines c key st lines
  end.
Lemma replay_lines_app c key st a b :
  replay_lines c key st (a ++ b) = (st ← replay_lines c key st a; replay_lines c key st b).
Proof.
  revert st; induction a as [|l a IH]; intros st; cbn [app replay_lines]; [done|].
  destruct (replay_line c key st l); mcbn; [apply IH|done].
Qed.
Lemma replay_loop_lines fuel c key maximum st lines :
  Forall (fun l => readable l /\ (lenN l <= maximum)%N) lines -> (maximum + 2 <= u64_max)%N ->
  length lines < fuel ->
  replay_loop fuel c key maximum st (terminated lines) = replay_lines c key st lines.
Proof.
  intros HF Hmax. revert fuel st. induction HF as [|l lines [Hr Hlen] HF IH]; intros fuel st Hfuel.
  - destruct fuel; [done|]. done.
  - destruct fuel as [|fuel]; [cbn in Hfuel; lia|]. cbn [replay_loop replay_lines].
    change (terminated (l :: lines)) with ((l ++ [LF]) ++ terminated lines).
    rewrite <- app_assoc. cbn [app].
    rewrite read_bounded_line by done. mcbn.
    destruct (replay_line c key st l) as [st'|]; mcbn; [|done].
    apply IH. cbn in Hfuel. lia.
Qed.
(** Fuel beyond the length of the input changes nothing. *)
Lemma replay_loop_fuel fuel fuel' c key maximum st input :
  length input < fuel -> length input < fuel' ->
  replay_loop fuel c key maximum st input = replay_loop fuel' c key maximum st input.
Proof.
  revert fuel' st input; induction fuel as [|fuel IH]; intros fuel' st input Hf Hf'; [lia|].
  destruct fuel' as [|fuel']; [lia|]. cbn [replay_loop].
  destruct (read_bounded_replay_line input maximum) as [[[line|] rest]|] eqn:E; mcbn; [|done|done].
  destruct (replay_line c key st line); mcbn; [|done].
  apply read_bounded_shrinks in E. apply IH; lia.
Qed.

(** What one accepted line establishes. *)
Lemma replay_line_Ok c key st line st' : replay_line c key st line = Ok st' ->
  exists r, decode_record line = Some r /\
    record_sequence r = expected_sequence st /\ previous_hash (unsigned r) = replay_previous st /\
    verifies_hash r = true /\ replay_previous st' = Some (hash r) /\
    expected_sequence st' = sat_add (expected_sequence st) 1.
Proof.
  unfold replay_line. intros H'. cbn zeta in H'.
  apply bind_Ok in H' as (r & Hr & H').
  apply bind_Ok in H' as ([] & _ & H'). apply bind_Ok in H' as ([] & _ & H').
  destruct (chain_accepted st r) eqn:Hc; [|done]. cbn [negb] in H'.
  apply bind_Ok in H' as (v & _ & H'). apply bind_Ok in H' as ([ds sc] & _ & [= <-]).
  exists r. destruct (decode_record line); [|done]. injection Hr as ->.
  unfold chain_accepted in Hc. apply andb_prop in Hc as [[Hs Hp]%andb_prop Hv].
  apply N.eqb_eq in Hs. apply bool_decide_eq_true in Hp. done.
Qed.

(** The records of a segment, read as replay reads it. *)
Fixpoint segment_records (fuel : nat) (input : bytes) : list audit_record :=
  match fuel with
  | O => []
  | S fuel =>
      match read_bounded_replay_line input MAXIMUM_REPLAY_LINE_BYTES with
      | Ok (Some line, rest) => option_list (decode_record line) ++ segment_records fuel rest
      | _ => []
      end
  end.
Lemma replay_loop_linked fuel c key st input st' :
  replay_loop fuel c key MAXIMUM_REPLAY_LINE_BYTES st input = Ok st' ->
  linked (replay_previous st) (segment_records fuel input) /\
  replay_previous st' = last_hash (replay_previous st) (segment_records fuel input).
Proof.
  revert st input; induction fuel as [|fuel IH]; intros st input; cbn [replay_loop segment_records].
  { by intros [= <-]. }
  destruct (read_bounded_replay_line input _) as [[[line|] rest]|] eqn:E; mcbn;
    [|by intros [= <-]|done].
  intros (st1 & Hl & Hrest)%bind_Ok.
  apply replay_line_Ok in Hl as (r & -> & _ & Hp & Hv & Hh & _).
  apply IH in Hrest as [HL HL']. rewrite Hh in HL, HL'. cbn. rewrite Hp. done.
Qed.
End ReplayLemmas.

(** * Tamper evidence *)

Section Tamper.
Context `{IpNet, Sha256, AuditJson, Ed25519, Hex}.
(** [serde_json] writes different unsigned records differently, up to names that read
    as addresses. *)
Context (encode_unsigned_inj : forall u v b,
  encode_unsigned u = Some b -> encode_unsigned v = Some b -> canonical_unsigned u = canonical_unsigned v).

(** Two records, one of each segment, whose different encodings have one digest. *)
Definition sha256_collision (rs rs' : list audit_record) : Prop :=
  exists r r' a b, r ∈ rs /\ r' ∈ rs' /\
    encode_unsigned (unsigned r) = Some a /\ encode_unsigned (unsigned r') = Some b /\
    a <> b /\ sha256 a = sha256 b.

Lemma sha256_collision_weaken rs rs' qs qs' :
  rs ⊆ qs -> rs' ⊆ qs' -> sha256_collision rs rs' -> sha256_collision qs qs'.
Proof. intros Hs Hs' (r & r' & a & b & Hr & Hr' & ?). exists r, r', a, b. auto. Qed.
Lemma equal_hash_records rs rs' r r' : r ∈ rs -> r' ∈ rs' ->
  verifies_hash r = true -> verifies_hash r' = true ->
  hash r = hash r' -> canonical_record r = canonical_record r' \/ sha256_collision rs rs'.
Proof.
  intros Hr Hr' (a & Ha & Hha)%verifies_hash_inv (b & Hb & Hhb)%verifies_hash_inv Hh.
  destruct (decide (a = b)) as [->|Hab].
  - left. pose proof (encode_unsigned_inj _ _ _ Ha Hb) as Hu.
    unfold canonical_record. congruence.
  - right. exists r, r', a, b. rewrite Hha, Hhb in Hh. injection Hh as Hh. done.
Qed.
Lemma last_hash_snoc p rs r : last_hash p (rs ++ [r]) = Some (hash r).
Proof. by rewrite last_hash_app. Qed.
(** Two chains from the empty one with the same last hash say the same. *)
Lemma linked_unique a b : linked None a -> linked None b -> last_hash None a = last_hash None b ->
  map canonical_record a = map canonical_record b \/ sha256_collision a b.
Proof.
  revert b; induction a as [|r a IH] using rev_ind; intros b.
  - destruct b as [|r' b] using rev_ind; [by left|]. by rewrite last_hash_snoc.
  - rewrite last_hash_snoc. destruct b as [|r' b _] using rev_ind; [done|].
    rewrite last_hash_snoc, !linked_app. cbn [linked].
    intros (La & Hpa & Hva & _) (Lb & Hpb & Hvb & _) [= Hh].
    destruct (equal_hash_records (a ++ [r]) (b ++ [r']) r r') as [Hr|]; try done; [set_solver|set_solver| |by right].
    assert (Hp : previous_hash (unsigned r) = previous_hash (unsigned r'))
      by exact (f_equal (fun x => previous_hash (unsigned x)) Hr).
    destruct (IH b La Lb) as [Hab|Hc]; [congruence|left; rewrite !map_app, Hab; cbn; by rewrite Hr|right].
    revert Hc. apply sha256_collision_weaken; set_solver.
Qed.
Lemma last_hash_take rs i r : rs !! i = Some r -> last_hash None (take (S i) rs) = Some (hash r).
Proof. intros Hi. rewrite (take_S_r _ _ r) by done. apply last_hash_snoc. Qed.

(** C19. Tamper evidence: if two segments pass offline replay and some record of one
    has the same hash as some record of the other (for example the hash a signed
    checkpoint covers), then everything up to that record says the same in both, or the
    two segments themselves exhibit a SHA-256 collision between the encodings of two of
    their records.  Only a host name that reads as an address and that address are not
    told apart, because their JSON is not. *)
Theorem replay_detects_tampering (c c' : replay_config) (key key' : option bytes)
    (segment segment' : bytes) (st st' : replay_state) (i j : nat) (r r' : audit_record) :
  replay_audit c key segment = Ok st -> replay_audit c' key' segment' = Ok st' ->
  let records := segment_records (S (length segment)) segment in
  let records' := segment_records (S (length segment')) segment' in
  records !! i = Some r -> records' !! j = Some r' -> hash r = hash r' ->
  map canonical_record (take (S i) records) = map canonical_record (take (S j) records') \/
  sha256_collision (take (S i) records) (take (S j) records').
Proof.
  assert (Hlinked : forall c k seg st, replay_audit c k seg = Ok st ->
    linked None (segment_records (S (length seg)) seg)).
  { clear. intros c k seg st. unfold replay_audit.
    intros (k' & _ & (st1 & Hl & _)%bind_Ok)%bind_Ok. by apply replay_loop_linked in Hl as [? _]. }
  intros L%Hlinked L'%Hlinked records records' Hi Hj Hh. unfold records, records' in *.
  apply linked_unique.
  - rewrite <- (take_drop (S i)) in L. by apply linked_app in L as [? _].
  - rewrite <- (take_drop (S j)) in L'. by apply linked_app in L' as [? _].
  - rewrite (last_hash_take _ i r), (last_hash_take _ j r') by done. by rewrite Hh.
Qed.
End Tamper.

(** * Replay accepts what the drain loop completes *)

Section DrainReplay.
Context `{IpNet, Urls, Sha256, AuditJson, Writer, Ed25519, Hex}.
(** [serde_json] reads back what a record says, which it writes on one line of UTF-8
    text, and writes a name that reads as an address like that address. *)
Context (decode_encode : forall r l, encode_record r = Some l -> decode_record l = Some (canonical_record r)).
Context (encode_canonical : forall u b, encode_unsigned u = Some b -> encode_unsigned (canonical_unsigned u) = Some b).
Context (encode_readable : forall r l, encode_record r = Some l -> readable l).
(** Ed25519 verifies its own signatures. *)
Context (verify_sign : forall seed m, verify_strict (verifying_key seed) m (ed_sign seed m) = true).
Import JsonlAuditSink.

(** An ordinary event whose capture, if it is one, the replay configuration takes. *)
Definition replayable (c : replay_config) (e : audit_event) : Prop :=
  match e with
  | CheckpointEvent _ => False
  | PayloadPrefixCaptured _ _ bytes_hex =>
      exists captured, hex_decode bytes_hex = Some captured /\ length captured <= replay_body_prefix_bytes c
  | _ => True
  end.
Lemma redact_replayable c r e : replayable c e -> replayable c (Redactor.redact_event r e).
Proof. destruct e; try done. by destruct facts. Qed.
Lemma replayable_record c r sc : replayable c (record_event (unsigned r)) \/
    (exists cp, record_event (unsigned r) = CheckpointEvent cp) ->
  exists ds sc', replay_record c r sc = Ok (ds, sc').
Proof.
  unfold replay_record. intros [Hr | [cp ->]]; [|eauto].
  destruct (record_event (unsigned r)) as [| | | | | | | | | |d p h| | | | | | | |]; eauto.
  destruct Hr as (b & -> & Hle). mcbn. rewrite decide_False by lia.
  destruct (StreamScanner.inspect _ b) as [fs sc']. eauto.
Qed.

(** Replay has read exactly what the sink wrote so far. *)
Definition in_step (st : replay_state) (s : t) : Prop :=
  poisoned s = false /\ replay_previous st = prior_hash s /\
  forall q, next_sequence s = Some q ->
    AuditSequence.get q = expected_sequence st /\ (expected_sequence st <= u64_max)%N.
(** Which events replay takes in state [st], and its checkpoint counter after one. *)
Definition acceptable (c : replay_config) (key : option bytes) (st : replay_state) (e : audit_event) : Prop :=
  match e with
  | CheckpointEvent cp => checkpoint_accepted key st cp = true
  | e => replayable c e
  end.
Definition count_checkpoint (e : audit_event) (n : N) : N :=
  match e with CheckpointEvent _ => sat_add n 1 | _ => n end.
Lemma replayable_acceptable c key st e : replayable c e ->
  acceptable c key st e /\ forall n, count_checkpoint e n = n.
Proof. by destruct e. Qed.

Lemma verifies_canonical r : verifies_hash r = true -> verifies_hash (canonical_record r) = true.
Proof.
  intros (b & Hb & Hh)%verifies_hash_inv. unfold verifies_hash. cbn [unsigned canonical_record hash].
  rewrite (encode_canonical _ _ Hb). by apply bool_decide_eq_true.
Qed.
Lemma acceptable_canonical c key st e : acceptable c key st e -> acceptable c key st (canonical_event e).
Proof. by destruct e. Qed.
Lemma count_canonical e n : count_checkpoint (canonical_event e) n = count_checkpoint e n.
Proof. by destruct e. Qed.
Lemma replay_line_accepts c key st r line :
  encode_record r = Some line -> schema_version (unsigned r) = AuditSchemaVersion.CURRENT ->
  chain_accepted st r = true -> acceptable c key st (record_event (unsigned r)) ->
  exists st', replay_line c key st line = Ok st' /\ replay_previous st' = Some (hash r) /\
    expected_sequence st' = sat_add (expected_sequence st) 1 /\
    verified_checkpoints st' = count_checkpoint (record_event (unsigned r)) (verified_checkpoints st).
Proof.
  intros Hl Hs [[Hseq Hprev]%andb_prop Hv]%andb_prop He%acceptable_canonical.
  rewrite <- count_canonical. set (e := canonical_event (record_event (unsigned r))) in *.
  assert (exists ds sc, replay_record c (canonical_record r) (replay_scanners st) = Ok (ds, sc)) as (ds & sc & Hrec).
  { apply replayable_record. change (record_event (unsigned (canonical_record r))) with e. destruct e; eauto. }
  exists (ReplayState (sat_add (expected_sequence st) 1) (Some (hash r)) (printed st ++ ds)
            (count_checkpoint e (verified_checkpoints st)) sc (line_number st + 1)).
  split; [|done]. unfold replay_line. cbn zeta. rewrite (decode_encode _ _ Hl). mcbn.
  change (schema_version (unsigned (canonical_record r))) with (schema_version (unsigned r)). rewrite Hs.
  change (validate_replay_schema AuditSchemaVersion.CURRENT (line_number st + 1))
    with (Ok tt : result replay_error unit). mcbn.
  change (record_event (unsigned (canonical_record r))) with e.
  replace (validate_replay_event_schema _ _ _) with (Ok tt : result replay_error unit) by (by destruct e). mcbn.
  assert (chain_accepted st (canonical_record r) = true) as ->.
  { unfold chain_accepted. rewrite (verifies_canonical r Hv), andb_true_r. by apply andb_true_intro. }
  cbn [negb]. rewrite Hrec. change (hash (canonical_record r)) with (hash r).
  destruct e; try done. cbn in He. by rewrite He.
Qed.
(** One written record is accepted by one line of replay. *)
Lemma write_event_replayed c key st s ctx e r s' :
  in_step st s -> write_event s ctx e = (Ok r, s') ->
  acceptable c key st (Redactor.redact_event (redactor s) e) ->
  exists line st', writer s' = writer s ++ terminated [line] /\ redactor s' = redactor s /\
    readable line /\ replay_line c key st line = Ok st' /\ in_step st' s' /\
    replay_previous st' = Some (hash r) /\
    record_sequence r = expected_sequence st /\ (expected_sequence st <= u64_max)%N /\
    (forall q, next_sequence s' = Some q -> expected_sequence st' = expected_sequence st + 1)%N /\
    verified_checkpoints st' =
      count_checkpoint (Redactor.redact_event (redactor s) e) (verified_checkpoints st).
Proof.
  intros (Hp & Hprev & Hq) Hw He. apply write_event_Ok in Hw as (_ & q & line & Hn & Hu & Hv & Hl & ->).
  destruct (Hq q Hn) as [Hq1 Hq2].
  destruct (replay_line_accepts c key st r line) as (st' & Hline & Hh & Hx & Hver); [done|by rewrite Hu| |by rewrite Hu|].
  { unfold chain_accepted. rewrite Hv, Hu; cbn. rewrite Hq1, N.eqb_refl, Hprev. by rewrite bool_decide_true. }
  exists line, st'. rewrite Hu in Hver.
  assert (Hnext : forall q', AuditSequence.checked_next q = Some q' ->
    AuditSequence.get q' = expected_sequence st' /\ expected_sequence st' = (expected_sequence st + 1)%N /\
    (expected_sequence st' <= u64_max)%N).
  { intros q' [-> Hle]%checked_next_get. rewrite Hx, sat_add_small; lia. }
  split; [by rewrite <- (app_nil_r (line ++ [LF]))|]. split; [done|]. split; [by eapply encode_readable|].
  split; [done|]. split.
  { split; [done|]. split; [done|]. intros q' (? & ? & ?)%Hnext. done. }
  split; [done|]. split; [unfold record_sequence; by rewrite Hu|]. split; [done|].
  split; [|done]. intros q' (? & ? & ?)%Hnext. done.
Qed.

(** A checkpoint signed over the record just written is accepted next. *)
Lemma signed_checkpoint_accepted key st r seed :
  (forall k, key = Some k -> k = verifying_key seed) ->
  replay_previous st = Some (hash r) -> expected_sequence st = (record_sequence r + 1)%N ->
  checkpoint_accepted key st (sign_checkpoint seed (sequence (unsigned r)) (hash r)) = true.
Proof.
  intros Hk Hp Hx. unfold checkpoint_accepted, checkpoint_verifies, sign_checkpoint. cbn.
  rewrite verify_sign, Hp, Hx. fold (record_sequence r).
  replace (record_sequence r + 1 - 1)%N with (record_sequence r) by lia.
  rewrite N.eqb_refl, (bool_decide_true (hash r = hash r)) by done.
  destruct key as [k|]; [|done]. by rewrite bool_decide_true by (symmetry; auto).
Qed.

Definition checkpoints_due (schedule : option checkpoint_schedule) (n : N) : N :=
  match schedule with Some sc => (n / interval sc)%N | None => 0%N end.
(** The drain loop after [n] ordinary events, and replay of its output. *)
Definition drained (schedule : option checkpoint_schedule) (n : N) (s : t) (st : replay_state) : Prop :=
  in_step st s /\ (n <= u64_max)%N /\
  (forall q, next_sequence s = Some q -> n < expected_sequence st)%N /\
  verified_checkpoints st = checkpoints_due schedule n.
Definition trusts (key : option bytes) (schedule : option checkpoint_schedule) : Prop :=
  forall k, key = Some k -> exists sc, schedule = Some sc /\ k = verifying_key (signer sc).
Definition schedule_wf (schedule : option checkpoint_schedule) : Prop :=
  forall sc, schedule = Some sc -> interval sc <> 0%N.

Lemma checkpoints_due_step sc n : interval sc <> 0%N ->
  checkpoints_due (Some sc) (n + 1) =
    (checkpoints_due (Some sc) n + if ((n + 1) mod interval sc =? 0)%N then 1 else 0)%N.
Proof.
  intros Hi. unfold checkpoints_due. set (i := interval sc) in *.
  pose proof (N.div_mod n i Hi). pose proof (N.div_mod (n + 1) i Hi).
  pose proof (N.mod_lt n i Hi). pose proof (N.mod_lt (n + 1) i Hi).
  set (a := (n / i)%N) in *. set (b := ((n + 1) / i)%N) in *.
  set (x := (n mod i)%N) in *. set (y := ((n + 1) mod i)%N) in *. clearbody a b x y.
  destruct (N.eqb_spec y 0); nia.
Qed.
Lemma drain_one_replayed c key schedule n s e n' s' st :
  schedule_wf schedule -> trusts key schedule -> replayable c (envelope_event e) ->
  drained schedule n s st -> drain_one schedule n s e = (Ok n', s') ->
  exists lines st', writer s' = writer s ++ terminated lines /\ Forall readable lines /\
    replay_lines c key st lines = Ok st' /\ drained schedule n' s' st' /\ n' = (n + 1)%N.
Proof.
  intros Hwf Hkey He (Hstep & Hn & Hlt & Hver). unfold drain_one.
  destruct (write_event s _ _) as [[r|] s1] eqn:Hw; [|done].
  destruct (replayable_acceptable c key st _ (redact_replayable c (redactor s) _ He)) as [Hacc Hcount].
  pose proof Hw as Hw'. apply write_event_Ok in Hw' as (_ & q & _ & Hq & _).
  destruct (write_event_replayed c key st s _ _ r s1 Hstep Hw Hacc)
    as (line & st1 & Hout & Hred & Hread & Hline & Hstep1 & Hp1 & Hr & Hle & Hx1 & Hv1).
  rewrite Hcount in Hv1. specialize (Hlt q Hq).
  rewrite sat_add_small by lia. destruct (flush s1); [|done].
  assert (Hone : forall m, checkpoints_due schedule (n + 1) = checkpoints_due schedule n ->
    m = (n + 1)%N -> drained schedule m s1 st1).
  { intros m Hdue ->. split; [done|]. split; [lia|]. rewrite Hv1, Hdue. split; [|done].
    intros q' Hq'. rewrite (Hx1 q' Hq'). lia. }
  destruct schedule as [sc|]; cycle 1.
  { intros [= <- <-]. exists [line], st1. cbn [replay_lines]. rewrite Hline. mcbn. eauto 8. }
  specialize (Hwf sc eq_refl).
  destruct ((n + 1) mod interval sc =? 0)%N eqn:Hmod; cycle 1.
  { intros [= <- <-]. exists [line], st1. cbn [replay_lines]. rewrite Hline. mcbn.
    split; [done|]. split; [auto|]. split; [done|]. split; [|done]. apply Hone; [|done].
    rewrite checkpoints_due_step, Hmod by done. lia. }
  destruct (write_event s1 _ _) as [[r2|] s2] eqn:Hw2; [|done].
  pose proof Hw2 as Hw2'. apply write_event_Ok in Hw2' as (_ & q2 & _ & Hq2 & _).
  destruct (write_event_replayed c key st1 s1 _ _ r2 s2 Hstep1 Hw2)
    as (line2 & st2 & Hout2 & _ & Hread2 & Hline2 & Hstep2 & _ & _ & Hle2 & Hx2 & Hv2).
  { apply signed_checkpoint_accepted; [|done|rewrite Hr; eauto].
    intros k Hk. by destruct (Hkey k Hk) as (sc' & [= <-] & ->). }
  destruct (flush s2); [|done]. intros [= <- <-].
  exists [line; line2], st2. cbn [replay_lines]. rewrite Hline. mcbn. rewrite Hline2. mcbn.
  split; [rewrite Hout2, Hout, <- app_assoc, <- terminated_app; done|].
  split; [auto|]. split; [done|]. split; [|done]. split; [done|].
  rewrite (Hx1 q2 Hq2) in Hx2, Hle2. split; [lia|]. split.
  - intros q' Hq'. rewrite (Hx2 q' Hq'). lia.
  - rewrite Hv2. cbn [count_checkpoint Redactor.redact_event]. rewrite Hv1, Hver.
    rewrite checkpoints_due_step, Hmod by done. apply sat_add_small.
    pose proof (N.Div0.div_le_upper_bound n (interval sc) n). cbn. nia.
Qed.

Lemma drain_loop_replayed c key schedule n s envelopes s' st :
  schedule_wf schedule -> trusts key schedule ->
  Forall (fun e => replayable c (envelope_event e)) envelopes ->
  drained schedule n s st -> drain_loop schedule n s envelopes = (Ok tt, s') ->
  exists lines st', writer s' = writer s ++ terminated lines /\ Forall readable lines /\
    replay_lines c key st lines = Ok st' /\ drained schedule (n + lenN envelopes) s' st'.
Proof.
  intros Hwf Hkey HF. revert n s st. induction HF as [|e envelopes He HF IH]; intros n s st Hd; cbn [drain_loop].
  { intros [= <-]. exists [], st. rewrite N.add_0_r. cbn. by rewrite app_nil_r. }
  destruct (drain_one schedule n s e) as [[n1|] s1] eqn:Hone; [|done]. intros Hloop.
  destruct (drain_one_replayed c key schedule n s e n1 s1 st Hwf Hkey He Hd Hone)
    as (l1 & st1 & Hw1 & Hr1 & Hl1 & Hd1 & ->).
  destruct (IH _ _ _ Hd1 Hloop) as (l2 & st2 & Hw2 & Hr2 & Hl2 & Hd2).
  exists (l1 ++ l2), st2. split; [by rewrite Hw2, Hw1, terminated_app, app_assoc|].
  split; [by apply Forall_app|]. split.
  - rewrite replay_lines_app, Hl1. mcbn. done.
  - replace (n + lenN (e :: envelopes))%N with (n + 1 + lenN envelopes)%N; [done|].
    unfold lenN. cbn [length]. lia.
Qed.
Lemma drained_new schedule r : drained schedule 0 (new r) replay_init.
Proof.
  split; [|split; [done|split]].
  - split; [done|]. split; [done|]. intros q [= <-]. done.
  - intros q [= <-]. done.
  - by destruct schedule.
Qed.
Lemma split_terminated lines : Forall readable lines ->
  split_on LF (terminated lines) = lines ++ [[]].
Proof.
  induction 1 as [|l lines [Hl _] HF IH]; [done|].
  change (terminated (l :: lines)) with ((l ++ [LF]) ++ terminated lines).
  rewrite <- app_assoc. cbn [app]. by rewrite split_on_app, IH.
Qed.
Lemma length_terminated lines : length lines <= length (terminated lines).
Proof.
  induction lines as [|l lines IH]; [done|].
  change (terminated (l :: lines)) with ((l ++ [LF]) ++ terminated lines).
  rewrite !length_app. cbn. lia.
Qed.

(** C20. End to end: a segment that the drain loop completed (with or without periodic
    checkpoints) passes offline replay, as long as its lines are within the 16 MiB that
    replay reads, under any configuration that decodes its captures within the prefix
    it keeps, and under the signer's public key as soon as one checkpoint was due;
    replay then verifies exactly one checkpoint per full interval of events.  This holds
    although replay reads back a host name that reads as an address as that address. *)
Theorem drained_segment_replays (c : replay_config) (schedule : option checkpoint_schedule)
    (r : Redactor.t) (envelopes : list audit_envelope) (s : t) (key : option bytes) :
  schedule_wf schedule ->
  Forall (fun e => replayable c (envelope_event e)) envelopes ->
  drain_jsonl_with_checkpoints schedule r envelopes = (Ok tt, s) ->
  (forall line, line ∈ split_on LF (writer s) -> (lenN line <= MAXIMUM_REPLAY_LINE_BYTES)%N) ->
  (forall value, key = Some value -> exists sc, schedule = Some sc /\
     hex_decode value = Some (verifying_key (signer sc)) /\ length (verifying_key (signer sc)) = 32 /\
     (interval sc <= lenN envelopes)%N) ->
  exists st, replay_audit c key (writer s) = Ok st /\
    verified_checkpoints st = checkpoints_due schedule (lenN envelopes).
Proof.
  intros Hwf HF Hdrain Hfit Hkey. unfold replay_audit.
  assert (exists expected,
    match key with None => Ok None | Some v => Some <$> parse_checkpoint_public_key v end = Ok expected
    /\ trusts expected schedule
    /\ (is_Some expected -> checkpoints_due schedule (lenN envelopes) <> 0%N))
    as (expected & -> & Htrust & Hdue).
  { destruct key as [v|]; [|exists None; split; [done|split; [done|by intros []]]].
    destruct (Hkey v eq_refl) as (sc & -> & Hv & Hlen & Hint).
    exists (Some (verifying_key (signer sc))). unfold parse_checkpoint_public_key. rewrite Hv. mcbn.
    rewrite decide_True by done. mcbn. split; [done|]. split; [intros k [= <-]; eauto|].
    intros _. cbn. specialize (Hwf sc eq_refl). pose proof (N.div_le_mono (interval sc) (lenN envelopes) (interval sc)).
    rewrite N.div_same in * by done. lia. }
  destruct (drain_loop_replayed c expected schedule 0 (new r) envelopes s replay_init)
    as (lines & st & Hw & Hr & Hl & _ & _ & _ & Hver); try done; [apply drained_new|].
  change (writer (new r)) with ([] : bytes) in Hw. cbn [app] in Hw. rewrite Hw in Hfit |- *.
  rewrite split_terminated in Hfit by done. mcbn.
  rewrite replay_loop_lines, Hl; [|..|done|].
  - mcbn. rewrite N.add_0_l in Hver. exists st. rewrite Hver.
    destruct (bool_decide (is_Some expected)) eqn:Hs; [|done]. apply bool_decide_eq_true, Hdue in Hs.
    apply N.eqb_neq in Hs. by rewrite Hs.
  - rewrite Forall_forall in Hr |- *. intros l Hin. split; [auto|]. apply Hfit. set_solver.
  - pose proof (length_terminated lines). lia.
Qed.
End DrainReplay.

(** * A concrete stream

    An accepted connection and the target it asks for, with a checkpoint after every
    second event; a codec that knows the three records of this stream, and one more
    line for the second: the one whose host is written with a dot at its end. *)
Module Example_stream.
#[local] Instance no_urls : Urls := {|
  url := unit; url_parse := fun _ => None; url_username := fun _ => []; url_password := fun _ => None;
  url_redact_userinfo := fun _ u => Some u; url_query_pairs := fun _ => [];
  url_with_query_pairs := fun _ u => u; url_text := fun _ => []; form_parse := fun _ => [];
  form_serialize := fun _ => [] |}.
#[local] Instance plain_sha : Sha256 := fun b => b.
#[local] Instance plain_ed : Ed25519 := {|
  verifying_key := fun seed => seed; ed_sign := fun seed m => seed ++ m;
  verify_strict := fun key m s => bool_decide (s = key ++ m) |}.
#[local] Instance plain_hex : Hex := {| hex_encode := fun b => b; hex_decode := Some |}.
#[local] Instance no_fault : Writer := {| write_fault := fun _ _ => None; flush_fault := fun _ => false |}.
#[local] Existing Instance host_nets.

Definition seed : bytes := replicate 32 (byte_of 7).
Definition schedule : option checkpoint_schedule := Some (CheckpointSchedule seed 2).
Definition context (at_ms : N) : audit_context := AuditContext at_ms 5%N None PolicyGeneration.INITIAL.
Definition accepted : audit_event := ConnectionAccepted (bs "192.0.2.1:40000") (bs "127.0.0.1:8080").
Definition asked (h : target_host) : audit_event :=
  ReplayFactsObserved (ReplayRequested (RequestedTargetFacts (ipv4 192 0 2 1) h (Port.Make 80) Tcp)).
Definition envelopes : list audit_envelope :=
  [AuditEnvelope (context 10) accepted; AuditEnvelope (context 20) (asked (Ip (ipv4 127 0 0 1)))].
Definition record (n at_ms : N) (e : audit_event) (prev : option record_hash) (h : bytes) : audit_record :=
  AuditRecord (UnsignedAuditRecord AuditSchemaVersion.CURRENT (AuditSequence.Make n) at_ms 5%N None
                 PolicyGeneration.INITIAL e prev) (RecordHash h).
Definition r1 : audit_record := record 1 10 accepted None (bs "a").
Definition r2_of (h : target_host) : audit_record := record 2 20 (asked h) (Some (hash r1)) (bs "b").
Definition r2 : audit_record := r2_of (Ip (ipv4 127 0 0 1)).
Definition dotted : target_host := Name (HostName.Make (bs "127.0.0.1")).
Definition r3 : audit_record :=
  record 3 20 (CheckpointEvent (sign_checkpoint seed (AuditSequence.Make 2) (hash r2))) (Some (hash r2)) (bs "c").
#[local] Instance table_json : AuditJson := {|
  encode_unsigned := fun u =>
    let u := canonical_unsigned u in
    if decide (u = unsigned r1) then Some (bs "a") else if decide (u = unsigned r2) then Some (bs "b")
    else if decide (u = unsigned r3) then Some (bs "c") else None;
  encode_record := fun r =>
    let r := canonical_record r in
    if decide (r = r1) then Some (bs "a") else if decide (r = r2) then Some (bs "b")
    else if decide (r = r3) then Some (bs "c") else None;
  decode_record := fun l =>
    if decide (l = bs "a") then Some r1 else if decide (l = bs "b") then Some r2
    else if decide (l = bs "B") then Some (r2_of dotted) else if decide (l = bs "c") then Some r3 else None |}.
Definition config : replay_config :=
  ReplayConfig (AclPolicy PolicyGeneration.INITIAL [] RuleAllow)
    (compiled default_settings) (InspectionProgram.empty PolicyGeneration.INITIAL) 64.

Lemma table_decode r l : encode_record r = Some l -> decode_record l = Some (canonical_record r).
Proof.
  unfold encode_record, table_json. generalize (canonical_record r). intros q.
  repeat case_decide; intros [= <-] || intros [=]; subst q; vm_compute; reflexivity.
Qed.
Lemma table_readable r l : encode_record r = Some l -> readable l.
Proof.
  unfold encode_record, table_json. generalize (canonical_record r). intros q.
  repeat case_decide; intros [= <-] || intros [=]; (split; [|done]); by apply (bool_decide_unpack (LF ∉ _)).
Qed.
Lemma canonical_twice u : canonical_unsigned (canonical_unsigned u) = canonical_unsigned u.
Proof.
  assert (Hh : forall h, canonical_host (canonical_host h) = canonical_host h).
  { intros [a|n]; [done|]. cbn. destruct (parse_ip (HostName.as_str n)) eqn:E; [done|]. cbn. by rewrite E. }
  assert (Hd : forall d, canonical_decision (canonical_decision d) = canonical_decision d).
  { intros [[| | |[h q]] tr]; try done. unfold canonical_decision, canonical_endpoint. cbn. by rewrite Hh. }
  assert (Hq : forall f, canonical_requested (canonical_requested f) = canonical_requested f).
  { intros [ip h q pr]. unfold canonical_requested. cbn. by rewrite Hh. }
  unfold canonical_unsigned. cbn [record_event schema_version sequence record_occurred_at record_session record_transaction
    record_generation previous_hash]. f_equal.
  destruct (record_event u) as [| |d| | | | | |d|[f|[f ?]|[[f ?] ? ? ?]|[[f ?] ? ?]|]| | | | | | |d| | ]; cbn; rewrite ?Hd; try done;
    unfold canonical_resolved; cbn; by rewrite Hq.
Qed.
Lemma table_canonical u b : encode_unsigned u = Some b -> encode_unsigned (canonical_unsigned u) = Some b.
Proof. unfold encode_unsigned, table_json. by rewrite canonical_twice. Qed.
Lemma table_unsigned_inj u v b : encode_unsigned u = Some b -> encode_unsigned v = Some b -> canonical_unsigned u = canonical_unsigned v.
Proof.
  unfold encode_unsigned, table_json. generalize (canonical_unsigned u), (canonical_unsigned v). intros x y.
  repeat case_decide; intros Hu Hv; subst; first [done | rewrite <- Hu in Hv; discriminate Hv].
Qed.
Lemma plain_verify s m : verify_strict (verifying_key s) m (ed_sign s m) = true.
Proof. by apply bool_decide_eq_true. Qed.

Lemma drained_segment_replays_witness :
  exists st, replay_audit config (Some seed)
               (JsonlAuditSink.writer (JsonlAuditSink.drain_jsonl_with_checkpoints schedule (Redactor.new []) envelopes).2)
             = Ok st /\ verified_checkpoints st = 1%N.
Proof.
  apply (drained_segment_replays table_decode table_canonical table_readable plain_verify config schedule
           (Redactor.new []) envelopes
           (JsonlAuditSink.drain_jsonl_with_checkpoints schedule (Redactor.new []) envelopes).2 (Some seed)).
  - intros sc [= <-]. done.
  - repeat constructor.
  - vm_compute. reflexivity.
  - intros line Hl. vm_compute in Hl. repeat (apply elem_of_cons in Hl as [-> | Hl]; [by vm_compute|]).
    by apply not_elem_of_nil in Hl.
  - intros v [= <-]. exists (CheckpointSchedule seed 2). split; [done|]. split; [done|]. split; [done|]. by vm_compute.
Defined.
Definition long_segment : bytes := terminated [bs "a"; bs "b"; bs "c"].
(** The host with the dot is a name whose text is that of the address: a segment that
    says it instead passes replay under the same checkpoint, and is judged otherwise by
    a policy that refuses the name. *)
Definition changed_segment : bytes := terminated [bs "a"; bs "B"; bs "c"].
Definition refusing : replay_config :=
  ReplayConfig (AclPolicy PolicyGeneration.INITIAL
      [AclRule (RuleId.Make (bs "by-name")) (DestinationHost (Exact (HostName.Make (bs "127.0.0.1")))) RuleDeny] RuleAllow)
    (compiled default_settings) (InspectionProgram.empty PolicyGeneration.INITIAL) 64.
Definition judged (segment : bytes) : option (list enforcement_action * N) :=
  match replay_audit refusing (Some seed) segment with
  | Ok st => Some (map Decision.action (printed st), verified_checkpoints st)
  | Err _ => None
  end.
Example dotted_host_is_not_detected :
  TargetHost.parse (bs "127.0.0.1.") = Ok dotted /\
  TargetHost.as_host_text dotted = TargetHost.as_host_text (Ip (ipv4 127 0 0 1)) /\
  judged long_segment = Some ([Allow], 1%N) /\ judged changed_segment = Some ([TcpClose Graceful], 1%N).
Proof. repeat split; vm_compute; reflexivity. Qed.
Lemma replay_detects_tampering_witness :
  let records := segment_records (S (length long_segment)) long_segment in
  let records' := segment_records (S (length changed_segment)) changed_segment in
  map canonical_record (take 3 records) = map canonical_record (take 3 records') \/ sha256_collision (take 3 records) (take 3 records').
Proof.
  apply (replay_detects_tampering table_unsigned_inj config config None (Some seed) long_segment changed_segment
           (default replay_init (res_ok (replay_audit config None long_segment)))
           (default replay_init (res_ok (replay_audit config (Some seed) changed_segment))) 2 2 r3 r3);
    vm_compute; reflexivity.
Defined.
End Example_stream.
