(* ===== verification/Hooks.v ===== *)
(** In-process hooks (crates/freja-policy/src/hook/{contract,mutation,runner,interactive}.rs):
    mutation plans and their application to a message, the runner that executes a
    registry under its failure policy, and the broker that pauses a request for an
    operator.  The [http] crate's [HeaderMap] is the interface [HeaderMap]; hooks and
    the operator are answers. *)
From stdpp Require Import gmap strings.
From stdpp Require Import prelude.
From S2P Require Import Prelude Bytes Domain.

(** * [http::HeaderMap]: a multimap from (lower-case) names to values *)

Class HeaderMap : Type := {
  header_map : Type;
  get_all : header_map -> bytes -> list bytes;
  hm_insert : bytes -> bytes -> header_map -> header_map;
  hm_append : bytes -> bytes -> header_map -> header_map;
  hm_remove : bytes -> header_map -> header_map }.
(** What the crate documents of them. *)
Class HeaderMapLaws `{HeaderMap} : Prop := {
  get_insert n n' v m : get_all (hm_insert n v m) n' = if decide (n = n') then [v] else get_all m n';
  get_append n n' v m :
    get_all (hm_append n v m) n' = if decide (n = n') then get_all m n' ++ [v] else get_all m n';
  get_remove n n' m : get_all (hm_remove n m) n' = if decide (n = n') then [] else get_all m n' }.

(** * Plans (contract.rs) *)

Inductive header_mutation : Type :=
| SetHeader (name value : bytes)
| AppendHeader (name value : bytes)
| RemoveHeader (name : bytes).
(** [HeadMutationPlan { headers }]; [WireBody] and [DecodedBody] are their bytes. *)
Definition head_plan : Type := list header_mutation.
Inductive body_plan : Type := KeepBody | ReplaceBody (replacement : bytes).
Inductive chunk_plan : Type := KeepChunk | ReplaceChunk (replacement : bytes) | DropChunk.
Record request_plan : Type := HttpRequestMutationPlan { plan_head : head_plan; plan_body : body_plan }.
#[export] Instance header_mutation_eq_dec : EqDecision header_mutation.
Proof. solve_decision. Defined.
#[export] Instance body_plan_eq_dec : EqDecision body_plan.
Proof. solve_decision. Defined.
#[export] Instance chunk_plan_eq_dec : EqDecision chunk_plan.
Proof. solve_decision. Defined.
Definition mutated_name (m : header_mutation) : bytes :=
  match m with SetHeader n _ | AppendHeader n _ | RemoveHeader n => n end.

(** Message heads as hooks see them; method and URI by their text. *)
Section Heads.
Context `{HeaderMap}.
Record http_request_head : Type := HttpRequestHead {
  head_method : bytes; head_uri : bytes; head_headers : header_map }.
Record http_response_head : Type := HttpResponseHead {
  head_status : N; response_head_headers : header_map }.
End Heads.

(** * Application (mutation.rs) *)

Inductive mutation_error : Type :=
| ProtectedHeader (name : bytes)
| BodyTooLarge (actual maximum : N)
| EncodedBodyReplacement.
#[export] Instance mutation_error_eq_dec : EqDecision mutation_error.
Proof. solve_decision. Defined.

Definition protected_headers : list bytes :=
  map bs ["connection"; "host"; "keep-alive"; "proxy-authenticate"; "proxy-authorization";
          "proxy-connection"; "content-length"; "te"; "trailer"; "transfer-encoding"; "upgrade"]%string.
Definition validate_mutable_header (name : bytes) : result mutation_error unit :=
  if bool_decide (name ∈ protected_headers) then Err (ProtectedHeader name) else Ok tt.

Section Apply.
Context `{HeaderMap}.
Definition apply_one (m : header_mutation) (headers : header_map) : header_map :=
  match m with
  | SetHeader n v => hm_insert n v headers
  | AppendHeader n v => hm_append n v headers
  | RemoveHeader n => hm_remove n headers
  end.
(** The header map is changed in place: what was applied before a rejected
    mutation stays applied. *)
Fixpoint apply_head_mutation (headers : header_map) (head : head_plan)
  : result mutation_error unit * header_map :=
  match head with
  | [] => (Ok tt, headers)
  | m :: head =>
      match validate_mutable_header (mutated_name m) with
      | Err e => (Err e, headers)
      | Ok _ => apply_head_mutation (apply_one m headers) head
      end
  end.
Definition apply_body_mutation (body : bytes) (plan : body_plan) (maximum : N)
  : result mutation_error bytes :=
  match plan with
  | KeepBody => Ok body
  | ReplaceBody replacement =>
      if (maximum <? lenN replacement)%N then Err (BodyTooLarge (lenN replacement) maximum)
      else Ok replacement
  end.
Definition representation_headers : list bytes :=
  map bs ["content-encoding"; "content-range"; "etag"; "content-md5"; "digest"]%string.
Definition normalize_replaced_body_headers (headers : header_map) : header_map :=
  foldl (fun h n => hm_remove n h) headers representation_headers.
(** The decimal length is always a valid header value. *)
Definition apply_http_mutation (headers : header_map) (body : bytes) (head : head_plan)
    (plan : body_plan) (maximum : N) : result mutation_error bytes * header_map :=
  match apply_head_mutation headers head with
  | (Err e, headers) => (Err e, headers)
  | (Ok _, headers) =>
      match apply_body_mutation body plan maximum with
      | Err e => (Err e, headers)
      | Ok output =>
          let headers :=
            match plan with ReplaceBody _ => normalize_replaced_body_headers headers | KeepBody => headers end in
          let headers := hm_remove (bs "trailer") (hm_remove (bs "transfer-encoding") headers) in
          (Ok output, hm_insert (bs "content-length") (show_N (lenN output)) headers)
      end
  end.
End Apply.

(** * The runner (runner.rs) *)

Inductive hook_failure_policy : Type := HookFailOpen | HookFailClosed.
Inductive hook_run_error : Type := HookErrored (message : bytes) | HookTimedOut.
#[export] Instance hook_failure_policy_eq_dec : EqDecision hook_failure_policy.
Proof. solve_decision. Defined.
#[export] Instance hook_run_error_eq_dec : EqDecision hook_run_error.
Proof. solve_decision. Defined.
(** What a hook future yields within its budget: [None] when the budget passed. *)
Definition hook_answer (T : Type) : Type := option (result bytes T).
Definition hook (I T : Type) : Type := I -> hook_answer T.

Module HookRunner.
Section Runner.
Context {RequestHead ResponseHead : Type}.
Record registry : Type := Registry {
  request_head_hooks : list (hook RequestHead head_plan);
  request_body_hooks : list (hook bytes body_plan);
  response_head_hooks : list (hook ResponseHead head_plan);
  response_body_hooks : list (hook bytes body_plan);
  tcp_client_hooks : list (hook bytes chunk_plan);
  tcp_upstream_hooks : list (hook bytes chunk_plan) }.
Record t : Type := Make { mode : hook_mode; hooks : registry; failure_policy : hook_failure_policy }.

Definition may_mutate_request_body (r : t) : bool :=
  bool_decide (mode r = Interactive)
  || (bool_decide (mode r = Automatic) && match request_body_hooks (hooks r) with [] => false | _ => true end).
Definition may_mutate_response_body (r : t) : bool :=
  negb (bool_decide (mode r = Disabled)) && match response_body_hooks (hooks r) with [] => false | _ => true end.

Definition invoke {T} (r : t) (answer : hook_answer T) : result hook_run_error (option T) :=
  match answer with
  | Some (Ok value) => Ok (Some value)
  | Some (Err message) => if decide (failure_policy r = HookFailOpen) then Ok None else Err (HookErrored message)
  | None => if decide (failure_policy r = HookFailOpen) then Ok None else Err HookTimedOut
  end.
(** The loops over one list of the registry: head plans accumulate, the last
    body or chunk plan stands. *)
Fixpoint run_heads {I} (r : t) (hs : list (hook I head_plan)) (input : I) (combined : head_plan)
  : result hook_run_error head_plan :=
  match hs with
  | [] => Ok combined
  | h :: hs =>
      plan ← invoke r (h input);
      run_heads r hs input (match plan with Some plan => combined ++ plan | None => combined end)
  end.
Fixpoint run_last {I T} (r : t) (hs : list (hook I T)) (input : I) (mutation : T)
  : result hook_run_error T :=
  match hs with
  | [] => Ok mutation
  | h :: hs =>
      plan ← invoke r (h input);
      run_last r hs input (match plan with Some plan => plan | None => mutation end)
  end.
Definition request_head (r : t) (input : RequestHead) : result hook_run_error head_plan :=
  if decide (mode r = Disabled) then Ok [] else run_heads r (request_head_hooks (hooks r)) input [].
Definition request_body (r : t) (input : bytes) : result hook_run_error body_plan :=
  if decide (mode r = Disabled) then Ok KeepBody else run_last r (request_body_hooks (hooks r)) input KeepBody.
Definition response_head (r : t) (input : ResponseHead) : result hook_run_error head_plan :=
  if decide (mode r = Disabled) then Ok [] else run_heads r (response_head_hooks (hooks r)) input [].
Definition response_body (r : t) (input : bytes) : result hook_run_error body_plan :=
  if decide (mode r = Disabled) then Ok KeepBody else run_last r (response_body_hooks (hooks r)) input KeepBody.
Definition tcp_client_chunk (r : t) (input : bytes) : result hook_run_error chunk_plan :=
  if decide (mode r = Disabled) then Ok KeepChunk else run_last r (tcp_client_hooks (hooks r)) input KeepChunk.
Definition tcp_upstream_chunk (r : t) (input : bytes) : result hook_run_error chunk_plan :=
  if decide (mode r = Disabled) then Ok KeepChunk else run_last r (tcp_upstream_hooks (hooks r)) input KeepChunk.
End Runner.
Arguments registry : clear implicits.
Arguments t : clear implicits.
End HookRunner.

(** * The interactive broker (interactive.rs) *)

Inductive interactive_decision : Type :=
| Continue | Reject | EditHeaders (plan : head_plan) | OperatorReplaceBody (body : bytes)
| ModifyRequest (plan : request_plan) | CancelModification.
Inductive intercept_timeout_policy : Type := InterceptFailOpen | InterceptFailClosed.
Inductive intercept_error : Type :=
| Saturated | InterceptChannelClosed | InterceptTimedOut | ResponderDropped.
#[export] Instance intercept_error_eq_dec : EqDecision intercept_error.
Proof. solve_decision. Defined.
#[export] Instance intercept_timeout_policy_eq_dec : EqDecision intercept_timeout_policy.
Proof. solve_decision. Defined.
(** What the operator's end did with the request before the timeout. *)
Inductive operator_answer : Type := Answered (d : interactive_decision) | DroppedResponder | NoAnswer.

Module InteractiveBroker.
(** Requests waiting in the bounded channel, and the permits left. *)
Record t (Request : Type) : Type := Make {
  channel_open : bool;
  capacity : nat;
  waiting : list Request;
  permits : nat;
  timeout_policy : intercept_timeout_policy }.
Arguments Make {_}.
Arguments channel_open {_}. Arguments capacity {_}. Arguments waiting {_}.
Arguments permits {_}. Arguments timeout_policy {_}.
Definition channel {Request} (capacity maximum_paused_flows : nat) (policy : intercept_timeout_policy)
  : result intercept_error (t Request) :=
  if decide (capacity = 0 \/ maximum_paused_flows = 0) then Err Saturated
  else Ok (Make true capacity [] maximum_paused_flows policy).
(** Up to the wait: take a permit and hand the request over; a permit taken by a
    call that then fails is returned with it. *)
Definition submit {Request} (b : t Request) (request : Request) : result intercept_error (t Request) :=
  if decide (permits b = 0) then Err Saturated
  else if negb (channel_open b) then Err InterceptChannelClosed
  else if decide (length (waiting b) < capacity b)
  then Ok (Make true (capacity b) (waiting b ++ [request]) (permits b - 1) (timeout_policy b))
  else Err Saturated.
(** After the wait: the permit is dropped with the call. *)
Definition conclude {Request} (b : t Request) (answer : operator_answer)
  : result intercept_error interactive_decision * t Request :=
  (match answer with
   | Answered d => Ok d
   | DroppedResponder => Err ResponderDropped
   | NoAnswer => if decide (timeout_policy b = InterceptFailOpen) then Ok Continue else Err InterceptTimedOut
   end,
   Make (channel_open b) (capacity b) (waiting b) (S (permits b)) (timeout_policy b)).
(** The whole call, as its caller sees it. *)
Definition intercept_http_request {Request} (b : t Request) (request : Request) (answer : operator_answer)
  : result intercept_error interactive_decision :=
  b ← submit b request; (conclude b answer).1.
End InteractiveBroker.

(** * Lemmas *)

Section ApplyLemmas.
Context `{HeaderMapLaws}.
Lemma get_apply_one m headers n : mutated_name m <> n -> get_all (apply_one m headers) n = get_all headers n.
Proof.
  destruct m; cbn; intros Hn; [rewrite get_insert|rewrite get_append|rewrite get_remove];
    by rewrite decide_False.
Qed.
(** A plan is applied completely exactly when it names no protected header; other
    plans fail on the first one they name. *)
Lemma apply_head_mutation_result headers head :
  (apply_head_mutation headers head).1
  = match List.find (fun m => bool_decide (mutated_name m ∈ protected_headers)) head with
    | Some m => Err (ProtectedHeader (mutated_name m))
    | None => Ok tt
    end.
Proof.
  revert headers; induction head as [|m head IH]; intros headers; cbn [apply_head_mutation List.find]; [done|].
  unfold validate_mutable_header. case_bool_decide; [done|apply IH].
Qed.
Lemma apply_head_mutation_get headers head n :
  n ∈ protected_headers -> get_all (apply_head_mutation headers head).2 n = get_all headers n.
Proof.
  intros Hn. revert headers; induction head as [|m head IH]; intros headers; cbn [apply_head_mutation]; [done|].
  unfold validate_mutable_header. case_bool_decide as Hm; [done|].
  rewrite IH. apply get_apply_one. by intros <-.
Qed.
Lemma get_normalized headers n :
  get_all (normalize_replaced_body_headers headers) n
  = if bool_decide (n ∈ representation_headers) then [] else get_all headers n.
Proof.
  unfold normalize_replaced_body_headers. generalize representation_headers as names.
  intros names. revert headers; induction names as [|x names IH]; intros headers; cbn [foldl]; [done|].
  rewrite IH, get_remove. destruct (decide (x = n)) as [->|Hx].
  - rewrite (bool_decide_true (n ∈ n :: names)) by set_solver. by case_bool_decide.
  - rewrite (bool_decide_ext (n ∈ x :: names) (n ∈ names)) by set_solver. done.
Qed.
Lemma not_representation n : n ∈ protected_headers -> n ∉ representation_headers.
Proof.
  assert (Hall : Forall (fun x => x ∉ representation_headers) protected_headers)
    by (apply (bool_decide_unpack _); vm_compute; exact I).
  rewrite Forall_forall in Hall. apply Hall.
Qed.
End ApplyLemmas.

Section RunnerLemmas.
Context {RequestHead ResponseHead : Type}.
(** The plans of the hooks that answered, in order. *)
Definition plans {I T} (hs : list (hook I T)) (input : I) : list T :=
  omap (fun h => match h input with Some (Ok v) => Some v | _ => None end) hs.
(** The first failure, if any. *)
Fixpoint first_failure {I T} (hs : list (hook I T)) (input : I) : option hook_run_error :=
  match hs with
  | [] => None
  | h :: hs =>
      match h input with
      | Some (Ok _) => first_failure hs input
      | Some (Err m) => Some (HookErrored m)
      | None => Some HookTimedOut
      end
  end.
Definition under_policy {A} (policy : hook_failure_policy) (failure : option hook_run_error) (value : A)
  : result hook_run_error A :=
  match policy, failure with
  | HookFailClosed, Some e => Err e
  | _, _ => Ok value
  end.
Lemma run_last_spec {I T} (r : HookRunner.t RequestHead ResponseHead) (hs : list (hook I T)) input keep :
  HookRunner.run_last r hs input keep
  = under_policy (HookRunner.failure_policy r) (first_failure hs input) (default keep (last (plans hs input))).
Proof.
  unfold under_policy. revert keep; induction hs as [|h hs IH]; intros keep; cbn [HookRunner.run_last first_failure].
  { by destruct (HookRunner.failure_policy r). }
  unfold plans, HookRunner.invoke. cbn. fold (plans hs input).
  destruct (h input) as [[v|m]|]; destruct (HookRunner.failure_policy r) eqn:Hp; mcbn;
    rewrite ?decide_True, ?decide_False by done; mcbn; rewrite ?IH, ?Hp; try done.
  - by destruct (plans hs input) as [|? ?] using rev_ind; rewrite ?last_snoc, ?app_comm_cons, ?last_snoc.
  - destruct (first_failure hs input); [done|].
    by destruct (plans hs input) as [|? ?] using rev_ind; rewrite ?last_snoc, ?app_comm_cons, ?last_snoc.
Qed.
Lemma run_heads_spec {I} (r : HookRunner.t RequestHead ResponseHead) (hs : list (hook I head_plan)) input acc :
  HookRunner.run_heads r hs input acc
  = under_policy (HookRunner.failure_policy r) (first_failure hs input) (acc ++ concat (plans hs input)).
Proof.
  unfold under_policy. revert acc; induction hs as [|h hs IH]; intros acc; cbn [HookRunner.run_heads first_failure].
  { cbn. rewrite app_nil_r. by destruct (HookRunner.failure_policy r). }
  unfold plans, HookRunner.invoke. cbn. fold (plans hs input).
  destruct (h input) as [[v|m]|]; destruct (HookRunner.failure_policy r) eqn:Hp; mcbn;
    rewrite ?decide_True, ?decide_False by done; mcbn; rewrite ?IH, ?Hp; try done.
  all: cbn; by rewrite <- app_assoc.
Qed.
End RunnerLemmas.

(** * Properties *)

(** Hooks cannot touch framing or routing: whatever the plan, an applied mutation
    leaves every proxy-controlled header as received except that the message ends up
    with exactly one Content-Length, the length of the body returned, and with no
    Transfer-Encoding or Trailer; a replacement body is within its bound and loses
    the metadata of the old representation, a kept body is returned as it is. *)
Theorem mutation_rebuilds_framing `{HeaderMapLaws} (headers headers' : header_map) (body output : bytes)
    (head : head_plan) (plan : body_plan) (maximum : N) :
  apply_http_mutation headers body head plan maximum = (Ok output, headers') ->
  (forall n, n ∈ protected_headers -> n ∉ map bs ["content-length"; "transfer-encoding"; "trailer"]%string ->
     get_all headers' n = get_all headers n) /\
  get_all headers' (bs "content-length") = [show_N (lenN output)] /\
  get_all headers' (bs "transfer-encoding") = [] /\ get_all headers' (bs "trailer") = [] /\
  Forall (fun m => mutated_name m ∉ protected_headers) head /\
  match plan with
  | KeepBody => output = body
  | ReplaceBody replacement =>
      output = replacement /\ (lenN output <= maximum)%N /\
      forall n, n ∈ representation_headers -> get_all headers' n = []
  end.
Proof.
  unfold apply_http_mutation. pose proof (apply_head_mutation_result headers head) as Hres.
  pose proof (fun n => apply_head_mutation_get headers head n) as Hget.
  destruct (apply_head_mutation headers head) as [[[]|] h1]; [|done]. cbn [fst snd] in *.
  destruct (apply_body_mutation body plan maximum) as [out|] eqn:Hbody; [|done].
  intros [= <- <-]. rewrite !get_insert, !get_remove.
  split; [|split; [|split; [|split; [|split]]]]; try (by vm_compute).
  - intros n Hn Hne. rewrite get_insert, !get_remove.
    rewrite !decide_False by (intros <-; apply Hne; set_solver).
    destruct plan; [by apply Hget|]. rewrite get_normalized, bool_decide_false by by apply not_representation.
    by apply Hget.
  - rewrite Forall_forall. intros m Hm Hp.
    destruct (List.find _ head) eqn:Hf; [done|].
    apply list_elem_of_In, (List.find_none _ _ Hf) in Hm. by apply bool_decide_eq_false in Hm.
  - destruct plan as [|replacement]; cbn in Hbody; [by injection Hbody|].
    destruct (N.ltb_spec maximum (lenN replacement)); [done|]. injection Hbody as <-.
    split; [done|]. split; [done|]. intros n Hn. rewrite get_insert, !get_remove, get_normalized.
    rewrite (bool_decide_true (n ∈ representation_headers)) by done.
    rewrite decide_False; [by repeat case_decide|]. intros <-.
    revert Hn. apply not_representation, (bool_decide_unpack _). by vm_compute.
Qed.

(** The runner under its failure policy, at every stage: disabled hooks are never
    consulted; a fail-open runner returns the plans of the hooks that answered (head
    plans appended in registration order, the last body or chunk plan standing) and
    never fails; a fail-closed runner returns that same value only when every hook
    answered, and otherwise the first hook's failure. *)
Theorem hook_runner_follows_policy {RequestHead ResponseHead : Type}
    (r : HookRunner.t RequestHead ResponseHead) (request : RequestHead) (response : ResponseHead) (b : bytes) :
  let hs := HookRunner.hooks r in
  let policy := HookRunner.failure_policy r in
  let head {I} (l : list (hook I head_plan)) (input : I) :=
    under_policy policy (first_failure l input) (concat (plans l input)) in
  let final {T} (l : list (hook bytes T)) (keep : T) :=
    under_policy policy (first_failure l b) (default keep (last (plans l b))) in
  if decide (HookRunner.mode r = Disabled) then
    HookRunner.request_head r request = Ok [] /\ HookRunner.response_head r response = Ok [] /\
    HookRunner.request_body r b = Ok KeepBody /\ HookRunner.response_body r b = Ok KeepBody /\
    HookRunner.tcp_client_chunk r b = Ok KeepChunk /\ HookRunner.tcp_upstream_chunk r b = Ok KeepChunk
  else
    HookRunner.request_head r request = head (HookRunner.request_head_hooks hs) request /\
    HookRunner.response_head r response = head (HookRunner.response_head_hooks hs) response /\
    HookRunner.request_body r b = final (HookRunner.request_body_hooks hs) KeepBody /\
    HookRunner.response_body r b = final (HookRunner.response_body_hooks hs) KeepBody /\
    HookRunner.tcp_client_chunk r b = final (HookRunner.tcp_client_hooks hs) KeepChunk /\
    HookRunner.tcp_upstream_chunk r b = final (HookRunner.tcp_upstream_hooks hs) KeepChunk.
Proof.
  cbn zeta beta. unfold HookRunner.request_head, HookRunner.response_head, HookRunner.request_body,
    HookRunner.response_body, HookRunner.tcp_client_chunk, HookRunner.tcp_upstream_chunk.
  case_decide; [done|]. by rewrite !run_heads_spec, !run_last_spec.
Qed.

(** * A concrete header map *)
Module Example_headers.
#[local] Instance gmap_headers : HeaderMap := {|
  header_map := gmap bytes (list bytes);
  get_all := fun m n => default [] (m !! n);
  hm_insert := fun n v m => <[n := [v]]> m;
  hm_append := fun n v m => <[n := default [] (m !! n) ++ [v]]> m;
  hm_remove := fun n m => delete n m |}.
#[local] Instance gmap_header_laws : HeaderMapLaws.
Proof.
  split; intros; cbn; case_decide; subst;
    rewrite ?lookup_insert_eq, ?lookup_delete_eq, ?lookup_insert_ne, ?lookup_delete_ne by done; done.
Qed.
Definition received : header_map :=
  ({[ bs "host" := [bs "a.example"]; bs "etag" := [bs "x"]; bs "transfer-encoding" := [bs "chunked"] ]} : gmap bytes (list bytes)).
Lemma mutation_rebuilds_framing_witness :
  get_all (apply_http_mutation received (bs "old") [SetHeader (bs "x-a") (bs "1")]
             (ReplaceBody (bs "new body")) 64).2 (bs "host") = [bs "a.example"].
Proof.
  rewrite (proj1 (mutation_rebuilds_framing received
    (apply_http_mutation received (bs "old") [SetHeader (bs "x-a") (bs "1")] (ReplaceBody (bs "new body")) 64).2
    (bs "old") (bs "new body") [SetHeader (bs "x-a") (bs "1")] (ReplaceBody (bs "new body")) 64 eq_refl)
    (bs "host")).
  - vm_compute. reflexivity.
  - apply (bool_decide_unpack _). by vm_compute.
  - apply (bool_decide_unpack _). by vm_compute.
Defined.
End Example_headers.
