(* ===== verification/Runtime.v ===== *)
(** The data plane's shared runtime (crates/freja-proxy/src/{event,error,runtime}.rs and
    runtime/{snapshot,publication,hooks}.rs): what a flow task can do to the world, the
    policy snapshot it decides with, and the publication of audit events and observer
    events.

    A flow is a computation over the world: the history of its effects, the shared
    counters, and the bytes its peers have yet to send.  What other tasks, the clock,
    the resolver, the network and the operator answer is an environment that may
    depend on the whole history. *)
From stdpp Require Import gmap strings.
From stdpp Require Import prelude.
From S2P Require Import Prelude Bytes Net Endpoint Domain PolicyModel Acl Guard Inspection AuditModel AuditSink Hooks.

(** * Errors (error.rs, socks/protocol.rs); the I/O sources of errors are left out *)

Inductive socks_error : Type :=
| SocksIo (stage : bytes)
| SocksTimedOut (stage : bytes)
| UnsupportedVersion
| NoAcceptableAuthentication
| AuthenticationFailed
| UnsupportedCommand
| UnsupportedAddressType
| MalformedRequest
| InvalidDomainEncoding
| InvalidTarget (source : endpoint_error).
(** [TlsError] (tls/error.rs), without the errors of loading key material. *)
Inductive tls_error : Type :=
| InvalidServerName (host : bytes)
| UnsupportedApplicationProtocol (protocol : bytes)
| ApplicationProtocolMismatch (downstream upstream : option bytes)
| UpstreamHandshake (host : bytes)
| DownstreamHandshake
| DownstreamHandshakeTimedOut
| LeafCertificate
| ServerConfiguration
| CachePoisoned.
Inductive proxy_error : Type :=
| Bind (bind : socket_addr)
| LocalAddress
| AcceptFailed
| Dns (host : bytes)
| DnsTimedOut (host : bytes)
| NoResolvedAddresses (host : bytes)
| PolicyDenied (d : Decision.t)
| DetourLoop (d : Decision.t)
| ConnectFailed (target : socket_addr)
| ConnectTimedOut (target : socket_addr)
| HttpConnection
| UpstreamHttp (stage : bytes)
| InvalidHttpStatus
| UpstreamResponseTimedOut
| HttpUpgrade
| TunnelRegistration
| InternalPolicy (source : id_error)
| RelayRead (direction : bytes)
| RelayWrite (direction : bytes)
| Audit (source : publish_error)
| HookError (source : hook_run_error)
| HookMutation (source : mutation_error)
| InteractiveError (source : intercept_error)
| InteractiveRejected
| Socks (source : socks_error)
| Tls (source : tls_error)
| ConcurrencyClosed
| ShutdownError
| Join.

(** * The world *)

(** The two ends of a flow. *)
Inductive peer : Type := ClientEnd | UpstreamEnd.
#[export] Instance peer_eq_dec : EqDecision peer.
Proof. solve_decision. Defined.

Section Runtime.
Context `{IpNet, HeaderMap}.

(** [DataPlaneEvent]; the evidence of a decision is the rule definition and the
    enforcement mode it is computed from. *)
Inductive data_plane_event : Type :=
| UiFlowOpened (s : session_id) (client target : bytes)
| UiHttpObserved (s : session_id) (t : transaction_id) (method target version : bytes)
    (headers : list (bytes * bytes))
| UiHttpResponseObserved (s : session_id) (t : transaction_id) (status : HttpStatusCode.t) (version : bytes)
    (headers : list (bytes * bytes))
| UiDecisionMade (s : session_id) (t : option transaction_id) (trace : decision_trace)
    (evidence : option (rule_definition * enforcement_mode)) (target : option evaluation_target)
| UiFindingDetected (s : session_id) (t : option transaction_id) (f : finding)
| UiBodyPrefix (s : session_id) (t : option transaction_id) (d : direction) (b : bytes)
    (offset observed_bytes : N) (truncated : bool)
| UiWireCaptured (s : session_id) (t : transaction_id) (d : direction) (b : bytes) (observed_bytes : N)
    (truncated : bool)
| UiWireCaptureFailed (s : session_id) (t : transaction_id) (d : direction) (reason : bytes)
| UiWireCaptureUnavailable (s : session_id) (t : transaction_id) (d : direction) (reason : bytes)
| UiFlowClosed (s : session_id) (client_to_upstream_bytes upstream_to_client_bytes : N).
(** A definition an evaluator gives with its decision. *)
Definition evaluated_definition (d : rule_definition) : Prop :=
  match d with DefAcl ev => exists p f, (Acl.evaluate_with_definition p f).2 = DefAcl ev | _ => True end.
(** The evidence shown with a decision is such a definition. *)
Definition vouches (e : data_plane_event) : Prop :=
  match e with UiDecisionMade _ _ _ (Some evidence) _ => evaluated_definition evidence.1 | _ => True end.
Lemma evaluated_acl p f d def : Acl.evaluate_with_definition p f = (d, def) -> evaluated_definition def.
Proof. intros E. destruct def; try exact I. exists p, f. by rewrite E. Qed.
Lemma evaluated_guard guard g f d def : DestinationGuard.evaluate_with_definition guard g f = Some (d, def) -> evaluated_definition def.
Proof.
  unfold DestinationGuard.evaluate_with_definition. destruct (DestinationGuard.matched _ _) as [[[rule class] condition]|]; [|done]. by intros [= _ <-].
Qed.
Lemma evaluated_inspection program f p d def : InspectionProgram.evaluate_with_definition program f p = (d, def) -> evaluated_definition def.
Proof.
  unfold InspectionProgram.evaluate_with_definition. destruct (List.find _ _) as [pattern|]; intros [= _ <-]; exact I.
Qed.

(** A frame of an HTTP body, trailers by their entries, and what ends one early
    (http/body.rs). *)
Inductive body_frame : Type := DataFrame (b : bytes) | TrailersFrame (trailers : list (bytes * bytes)).
Inductive body_error : Type :=
| BodyHyper | BodyReadTimedOut | BodyInspection (source : proxy_error) | BodyInspectionBlocked.

(** One effect of a flow, in the order they happen.  [RequestSent]: an HTTP request is
    handed to the upstream connection, with the entries of its headers, and its body when
    the proxy holds all of it;
    [FrameDelivered]: a body frame is handed to the other side of the message. *)
Inductive step : Type :=
| Audited (e : audit_envelope) (answer : result publish_error unit)
| Observed (e : data_plane_event)
| LookedUp (host : bytes) (port : N)
| Connected (address : socket_addr)
| Sent (p : peer) (b : bytes)
| Closed (p : peer)
| RequestSent (method target version : bytes) (headers : list (bytes * bytes)) (body : option bytes)
| FrameDelivered (f : result body_error body_frame).
Record world : Type := World {
  history : list step;
  metrics : metric_counters;
  client_input : bytes;
  upstream_input : bytes }.
Definition input_of (w : world) (p : peer) : bytes :=
  match p with ClientEnd => client_input w | UpstreamEnd => upstream_input w end.
Definition with_input (w : world) (p : peer) (b : bytes) : world :=
  match p with
  | ClientEnd => World (history w) (metrics w) b (upstream_input w)
  | UpstreamEnd => World (history w) (metrics w) (client_input w) b
  end.
Definition log (s : step) (w : world) : world :=
  World (history w ++ [s]) (metrics w) (client_input w) (upstream_input w).

(** [PolicySnapshot] (runtime/snapshot.rs). *)
Record policy_snapshot : Type := PolicySnapshot {
  snapshot_policy : acl_policy;
  destination_guard : DestinationGuard.t;
  enforcement : enforcement_mode;
  snapshot_inspection_mode : inspection_mode;
  snapshot_inspection : InspectionProgram.t }.

(** Tokio's semaphores and bounded channels panic above this number of permits. *)
Definition MAX_PERMITS : N := N.shiftr u64_max 3.

Inductive lookup_outcome : Type :=
| LookupAddresses (l : list socket_addr) | LookupFailed | LookupTimedOut | LookupShutdown.
Inductive connect_outcome : Type := ConnectOk | ConnectError | ConnectTimeout | ConnectShutdown.
(** At most one more than [k] bytes arrive at once; or the read fails or times out. *)
Inductive read_outcome : Type := ReadUpTo (k : nat) | ReadFailed | ReadTimedOut.
(** Only the first [k] bytes of a failed write went out. *)
Inductive write_outcome : Type :=
| WriteDone | WriteFailed (k : nat) | WriteTimedOut (k : nat) | WriteShutdown (k : nat).
End Runtime.

(** What the flow cannot decide: other tasks' policy reloads, the clock, delivery,
    the network, hooks. *)
Class Environment `{IpNet, HeaderMap} : Type := {
  audit_policy : audit_failure_policy;
  audit_answer : list step -> audit_envelope -> result publish_error unit;
  events_enabled : bool;
  current_snapshot : list step -> policy_snapshot;
  hook_runner : list step -> HookRunner.t http_request_head http_response_head;
  capture_prefix_bytes : option N;
  ui_content_bytes : option N;
  now : list step -> N;
  lookup_host : list step -> bytes -> N -> lookup_outcome;
  connect : list step -> socket_addr -> connect_outcome;
  local_addr : list step -> option socket_addr;
  read_answer : list step -> peer -> read_outcome;
  write_answer : list step -> peer -> bytes -> write_outcome;
  shutdown_answer : list step -> peer -> bool }.

(** * Flows *)

Definition flow `{IpNet, HeaderMap} (A : Type) : Type := world -> result proxy_error A * world.
#[export] Instance flow_ret `{IpNet, HeaderMap} : MRet flow := fun A a w => (Ok a, w).
#[export] Instance flow_bind `{IpNet, HeaderMap} : MBind flow :=
  fun A B f m w => match m w with (Ok a, w) => f a w | (Err e, w) => (Err e, w) end.

Section Services.
Context `{Environment}.
Definition fail {A} (e : proxy_error) : flow A := fun w => (Err e, w).
Definition lift {A} (r : result proxy_error A) : flow A := fun w => (r, w).
(** The outcome of a computation as a value. *)
Definition attempt {A} (m : flow A) : flow (result proxy_error A) :=
  fun w => let '(r, w) := m w in (Ok r, w).
(** [match m { Ok(a) => a, Err(error) => h(error) }]. *)
Definition catch {A} (m : flow A) (h : proxy_error -> flow A) : flow A :=
  fun w => match m w with (Ok a, w) => (Ok a, w) | (Err e, w) => h e w end.

(** [DataPlaneServices::publish]. *)
Definition publish (e : audit_envelope) : flow unit := fun w =>
  let answer := audit_answer (history w) e in
  let w := World (history w ++ [Audited e answer]) (observe (metrics w) (envelope_event e))
             (client_input w) (upstream_input w) in
  match answer with
  | Ok _ => (Ok tt, w)
  | Err error => if decide (audit_policy = FailOpen) then (Ok tt, w) else (Err (Audit error), w)
  end.
(** [if let Some(events) = &self.events { events.try_publish(..) }]. *)
Definition try_publish (e : data_plane_event) : flow unit := fun w =>
  (Ok tt, if events_enabled then log (Observed e) w else w).

(** [DataPlaneServices::decision_snapshot] and the accessors of the snapshot. *)
Definition decision_snapshot : flow policy_snapshot := fun w => (Ok (current_snapshot (history w)), w).
Definition permits (s : policy_snapshot) (d : Decision.t) : bool :=
  bool_decide (enforcement s = Observe) || bool_decide (Decision.action d = Allow).
(** [destination::audit_context]. *)
Definition audit_context_ (s : session_id) (t : option transaction_id) : flow audit_context := fun w =>
  (Ok (AuditContext (now (history w)) s t (Acl.generation (snapshot_policy (current_snapshot (history w))))), w).
Definition publish_event (s : session_id) (t : option transaction_id) (e : audit_event) : flow unit :=
  c ← audit_context_ s t; publish (AuditEnvelope c e).

Definition publish_decision (c : audit_context) (d : Decision.t)
    (definition : rule_definition * enforcement_mode) (target : evaluation_target) : flow unit :=
  let c := with_policy_generation c (policy_generation (Decision.trace d)) in
  _ ← publish (AuditEnvelope c (AclEvaluated d));
  try_publish (UiDecisionMade (context_session c) (context_transaction c) (Decision.trace d)
                 (Some definition) (Some target)).
Definition publish_finding (c : audit_context) (f : finding) : flow unit :=
  _ ← publish (AuditEnvelope c (FindingDetected f));
  try_publish (UiFindingDetected (context_session c) (context_transaction c) f).
Definition publish_replay_facts (c : audit_context) (facts : replay_facts) : flow unit :=
  publish (AuditEnvelope c (ReplayFactsObserved facts)).
Definition publish_capture `{Hex} (c : audit_context) (d : direction) (p : protocol) (b : bytes) : flow unit :=
  publish (AuditEnvelope c (PayloadPrefixCaptured d p (hex_encode b))).
Definition publish_inspection_decision (c : audit_context) (d : Decision.t)
    (definition : rule_definition * enforcement_mode) (target : option resolved_facts) : flow unit :=
  let c := with_policy_generation c (policy_generation (Decision.trace d)) in
  _ ← publish (AuditEnvelope c (InspectionEvaluated d));
  try_publish (UiDecisionMade (context_session c) (context_transaction c) (Decision.trace d)
                 (Some definition) (EvaluatedResolved <$> target)).
Definition publish_http_event s t method target version headers : flow unit :=
  try_publish (UiHttpObserved s t method target version headers).
Definition publish_http_response_event s t status version headers : flow unit :=
  try_publish (UiHttpResponseObserved s t status version headers).
Definition publish_flow_opened s client target : flow unit := try_publish (UiFlowOpened s client target).
Definition publish_flow_closed s up down : flow unit := try_publish (UiFlowClosed s up down).
Definition publish_body_prefix s t d b offset observed_bytes truncated : flow unit :=
  try_publish (UiBodyPrefix s t d b offset observed_bytes truncated).
Definition publish_wire_capture s t d b observed_bytes truncated : flow unit :=
  try_publish (UiWireCaptured s t d b observed_bytes truncated).
Definition publish_wire_capture_failure s t d reason : flow unit :=
  try_publish (UiWireCaptureFailed s t d reason).
Definition publish_wire_capture_unavailable s t d reason : flow unit :=
  try_publish (UiWireCaptureUnavailable s t d reason).

(** [run_tcp_hook] and [publish_hook_outcome] (runtime/hooks.rs). *)
Definition hook_outcome_of {E A} (r : result E A) : hook_outcome :=
  match r with Ok _ => HookCompleted | Err _ => HookFailed end.
Definition publish_hook_outcome (c : audit_context) (stage : audit_hook_stage) (succeeded : bool) : flow unit :=
  publish (AuditEnvelope c (HookExecuted stage (if succeeded then HookCompleted else HookFailed))).
Definition run_tcp_hook (c : audit_context) (d : direction) (b : bytes) : flow chunk_plan := fun w =>
  let runner := hook_runner (history w) in
  if decide (HookRunner.mode runner = Disabled) then (Ok KeepChunk, w)
  else
    match (match d with
           | ClientToUpstream => Some (HookTcpClientChunk, HookRunner.tcp_client_chunk runner b)
           | UpstreamToClient => Some (HookTcpUpstreamChunk, HookRunner.tcp_upstream_chunk runner b)
           | HttpRequestBody | HttpResponseBody => None
           end) with
    | None => (Ok KeepChunk, w)
    | Some (stage, r) =>
        (_ ← publish (AuditEnvelope c (HookExecuted stage (hook_outcome_of r)));
         lift (map_err HookError r)) w
    end.
End Services.

(** * Scripts: what a publishing computation does, whatever the environment

    [follows m script outcome]: [m] audits the events of [script] in order and returns
    [outcome], with observer events interleaved and nothing else done; a fail-closed
    audit channel may interrupt it after any event, which is the only other result. *)
Definition published_event `{IpNet, HeaderMap} (s : step) : option audit_event :=
  match s with Audited e _ => Some (envelope_event e) | _ => None end.
Definition audited `{IpNet, HeaderMap} (l : list step) : list audit_event := omap published_event l.
Definition publishing `{IpNet, HeaderMap} (s : step) : Prop :=
  match s with Audited _ _ | Observed _ => True | _ => False end.
Definition emits `{IpNet, HeaderMap} (w w' : world) (events : list audit_event) : Prop :=
  client_input w' = client_input w /\ upstream_input w' = upstream_input w /\
  exists l, history w' = history w ++ l /\ audited l = events /\ Forall publishing l.

Section Scripts.
Context `{Environment}.
Definition follows {A} (m : flow A) (script : list audit_event) (outcome : result proxy_error A) : Prop :=
  forall w, let '(r, w') := m w in exists l, emits w w' l /\
    ((r = outcome /\ l = script) \/
     (audit_policy = FailClosed /\ (exists e, r = Err (Audit e)) /\ l <> [] /\ l `prefix_of` script)).

Lemma audited_app a b : audited (a ++ b) = audited a ++ audited b.
Proof. apply omap_app. Qed.
Lemma emits_nil w : emits w w [].
Proof. split; [done|]. split; [done|]. exists []. by rewrite app_nil_r. Qed.
Lemma emits_trans w1 w2 w3 a b : emits w1 w2 a -> emits w2 w3 b -> emits w1 w3 (a ++ b).
Proof.
  intros (C1 & U1 & l1 & H1' & <- & F1) (C2 & U2 & l2 & H2' & <- & F2).
  split; [congruence|]. split; [congruence|]. exists (l1 ++ l2).
  rewrite H2', H1', app_assoc, audited_app. split; [done|]. split; [done|]. by apply Forall_app.
Qed.

Lemma follows_ret {A} (a : A) : follows (mret a) [] (Ok a).
Proof. intros w. exists []. split; [apply emits_nil|]. by left. Qed.
Lemma follows_fail {A} e : follows (fail e : flow A) [] (Err e).
Proof. intros w. exists []. split; [apply emits_nil|]. by left. Qed.
Lemma follows_lift {A} (r : result proxy_error A) : follows (lift r) [] r.
Proof. intros w. exists []. split; [apply emits_nil|]. by left. Qed.
Lemma follows_publish e : follows (publish e) [envelope_event e] (Ok tt).
Proof.
  intros w. unfold publish. destruct (audit_answer (history w) e) as [[]|err] eqn:E.
  - eexists. split; [|by left]. split; [done|]. split; [done|]. eexists. split; [done|].
    split; [done|]. by constructor.
  - assert (Hem : forall m, emits w (World (history w ++ [Audited e (Err err)]) m (client_input w) (upstream_input w))
                   [envelope_event e]).
    { intros m. split; [done|]. split; [done|]. eexists. split; [done|]. split; [done|]. by constructor. }
    case_decide as Hp; (eexists; split; [apply Hem|]); [by left|right].
    split; [by destruct audit_policy|]. split; [eauto|]. done.
Qed.
Lemma follows_try_publish e : follows (try_publish e) [] (Ok tt).
Proof.
  intros w. unfold try_publish. exists []. split; [|by left]. destruct events_enabled; [|apply emits_nil].
  split; [done|]. split; [done|]. exists [Observed e]. split; [done|]. split; [done|]. by constructor.
Qed.
Lemma follows_bind {A B} (m : flow A) (f : A -> flow B) s s' a o :
  follows m s (Ok a) -> follows (f a) s' o -> follows (m ≫= f) (s ++ s') o.
Proof.
  intros Hm Hf w. specialize (Hm w). unfold mbind, flow_bind.
  destruct (m w) as [r w1]. destruct Hm as (l & Hl & [[-> ->] | (Hp & [e ->] & Hne & Hpre)]).
  - specialize (Hf w1). destruct (f a w1) as [r' w2].
    destruct Hf as (l' & Hl' & Hcase). exists (s ++ l'). split; [by eapply emits_trans|].
    destruct Hcase as [[-> ->] | (Hp & He & Hne & Hpre)]; [by left|right].
    split; [done|]. split; [done|]. split; [by destruct s|]. by apply prefix_app.
  - exists l. split; [done|]. right. split; [done|]. split; [eauto|]. split; [done|].
    by apply prefix_app_r.
Qed.
Lemma follows_bind_err {A B} (m : flow A) (f : A -> flow B) s e :
  follows m s (Err e) -> follows (m ≫= f) s (Err e).
Proof.
  intros Hm w. specialize (Hm w). unfold mbind, flow_bind. destruct (m w) as [r w1].
  destruct Hm as (l & Hl & [[-> ->] | (Hp & [e' ->] & Hne & Hpre)]).
  - exists s. split; [done|]. by left.
  - exists l. split; [done|]. right. eauto.
Qed.
(** Reading the clock and the current generation has no effect. *)
Lemma follows_context {A} s t (f : audit_context -> flow A) script o :
  (forall c, follows (f c) script o) -> follows (audit_context_ s t ≫= f) script o.
Proof. intros Hf w. apply (Hf _ w). Qed.
Lemma follows_publish_event s t e : follows (publish_event s t e) [e] (Ok tt).
Proof. apply follows_context. intros c. apply follows_publish. Qed.
Lemma follows_publish_facts c facts : follows (publish_replay_facts c facts) [ReplayFactsObserved facts] (Ok tt).
Proof. apply follows_publish. Qed.
Lemma follows_publish_decision c d def target : follows (publish_decision c d def target) [AclEvaluated d] (Ok tt).
Proof.
  change [AclEvaluated d] with ([AclEvaluated d] ++ []).
  eapply follows_bind; [apply follows_publish|apply follows_try_publish].
Qed.
Lemma follows_publish_inspection c d def target :
  follows (publish_inspection_decision c d def target) [InspectionEvaluated d] (Ok tt).
Proof.
  change [InspectionEvaluated d] with ([InspectionEvaluated d] ++ []).
  eapply follows_bind; [apply follows_publish|apply follows_try_publish].
Qed.
Lemma follows_publish_finding c f : follows (publish_finding c f) [FindingDetected f] (Ok tt).
Proof.
  change [FindingDetected f] with ([FindingDetected f] ++ []).
  eapply follows_bind; [apply follows_publish|apply follows_try_publish].
Qed.
End Scripts.

(** The scripts of publishing computations are found by their structure. *)
Create HintDb scripts.
#[export] Hint Resolve follows_ret follows_fail follows_lift follows_publish follows_try_publish
  follows_publish_event follows_publish_facts follows_publish_decision follows_publish_inspection follows_publish_finding : scripts.
(** One step of a script: a bind whose first part emits one event or none. *)
Ltac script_step :=
  lazymatch goal with
  | |- follows (audit_context_ _ _ ≫= _) _ _ => apply follows_context; intros ?
  | |- follows (_ ≫= _) (?e :: ?s) _ => apply (follows_bind _ _ [e] s tt); [solve [eauto with scripts]|]
  | |- follows (_ ≫= _) _ _ => eapply (follows_bind _ _ []); [solve [eauto with scripts]|]
  end.

(** * Bounds on what a computation does

    [only P m]: whatever the environment answers, every step [m] adds satisfies [P]. *)
Definition only `{IpNet, HeaderMap} (P : step -> Prop) {A} (m : flow A) : Prop :=
  forall w, exists l, history (m w).2 = history w ++ l /\ Forall P l.

Section Only.
Context `{Environment} (P : step -> Prop).
Lemma only_pure {A} (m : flow A) : (forall w, (m w).2 = w) -> only P m.
Proof. intros Hm w. exists []. by rewrite Hm, app_nil_r. Qed.
Lemma only_ret {A} (a : A) : only P (mret a).
Proof. by apply only_pure. Qed.
Lemma only_fail {A} e : only P (fail e : flow A).
Proof. by apply only_pure. Qed.
Lemma only_lift {A} (r : result proxy_error A) : only P (lift r).
Proof. by apply only_pure. Qed.
Lemma only_context s t : only P (audit_context_ s t).
Proof. by apply only_pure. Qed.
Lemma only_snapshot : only P decision_snapshot.
Proof. by apply only_pure. Qed.
Lemma only_bind {A B} (m : flow A) (f : A -> flow B) : only P m -> (forall a, only P (f a)) -> only P (m ≫= f).
Proof.
  intros Hm Hf w. unfold mbind, flow_bind. destruct (Hm w) as (l & Hl & HF).
  destruct (m w) as [[a|e] w1]; cbn in Hl; [|by exists l].
  destruct (Hf a w1) as (l' & Hl' & HF'). exists (l ++ l'). rewrite Hl', Hl, app_assoc. split; [done|].
  by apply Forall_app.
Qed.
Lemma only_state {A} (f : world -> flow A) : (forall w, only P (f w)) -> only P (fun w => f w w).
Proof. intros Hf w. apply Hf. Qed.
Lemma only_publish e : (forall answer, P (Audited e answer)) -> only P (publish e).
Proof.
  intros HP w. exists [Audited e (audit_answer (history w) e)]. split; [|by constructor].
  unfold publish. destruct (audit_answer _ _); [done|]. by case_decide.
Qed.
Lemma only_try_publish e : P (Observed e) -> only P (try_publish e).
Proof.
  intros HP w. unfold try_publish. destruct events_enabled; cbn; [|exists []; by rewrite app_nil_r].
  exists [Observed e]. split; [done|]. by constructor.
Qed.
End Only.
Lemma only_impl `{IpNet, HeaderMap} (P Q : step -> Prop) {A} (m : flow A) :
  (forall s, P s -> Q s) -> only P m -> only Q m.
Proof. intros HPQ Hm w. destruct (Hm w) as (l & ? & ?). exists l. split; [done|]. by eapply Forall_impl. Qed.

(** [yields P Q m]: besides, what [m] returns satisfies [Q]. *)
Definition yields `{IpNet, HeaderMap} (P : step -> Prop) {A} (Q : A -> Prop) (m : flow A) : Prop :=
  forall w, (exists l, history (m w).2 = history w ++ l /\ Forall P l) /\ forall a, (m w).1 = Ok a -> Q a.
Section Yields.
Context `{Environment} (P : step -> Prop).
Lemma yields_only {A} (m : flow A) : only P m -> yields P (fun _ => True) m.
Proof. intros Hm w. by split. Qed.
Lemma only_yields {A} (Q : A -> Prop) (m : flow A) : yields P Q m -> only P m.
Proof. intros Hm w. apply Hm. Qed.
Lemma yields_ret {A} (Q : A -> Prop) a : Q a -> yields P Q (mret a).
Proof. intros Ha w. split; [by apply only_ret|]. by intros b [= <-]. Qed.
Lemma yields_fail {A} (Q : A -> Prop) e : yields P Q (fail e : flow A).
Proof. intros w. by split; [apply only_fail|]. Qed.
Lemma yields_lift {A} (Q : A -> Prop) (r : result proxy_error A) : (forall a, r = Ok a -> Q a) -> yields P Q (lift r).
Proof. intros Hr w. by split; [apply only_lift|]. Qed.
Lemma yields_bind {A B} (Q : A -> Prop) (R : B -> Prop) (m : flow A) (f : A -> flow B) :
  yields P Q m -> (forall a, Q a -> yields P R (f a)) -> yields P R (m ≫= f).
Proof.
  intros Hm Hf w. unfold mbind, flow_bind. destruct (Hm w) as [(l & Hl & HF) HQ].
  destruct (m w) as [[a|e] w1]; cbn [fst snd] in *; [|split; [by exists l|done]].
  destruct (Hf a (HQ a eq_refl) w1) as [(l' & Hl' & HF') HR]. split; [|done].
  exists (l ++ l'). rewrite Hl', Hl, app_assoc. split; [done|]. by apply Forall_app.
Qed.
Lemma yields_then {A B} (R : B -> Prop) (m : flow A) (f : A -> flow B) :
  only P m -> (forall a, yields P R (f a)) -> yields P R (m ≫= f).
Proof. intros Hm Hf. apply (yields_bind (fun _ => True)); [by apply yields_only|auto]. Qed.
Lemma yields_state {A} (Q : A -> Prop) (f : world -> flow A) : (forall w, yields P Q (f w)) -> yields P Q (fun w => f w w).
Proof. intros Hf w. apply Hf. Qed.
Lemma yields_attempt {A} (Q : A -> Prop) (m : flow A) :
  yields P Q m -> yields P (fun r => forall a, r = Ok a -> Q a) (attempt m).
Proof.
  intros Hm w. destruct (Hm w) as [Ho HQ]. unfold attempt. destruct (m w) as [r w1]. split; [done|].
  cbn [fst snd] in *. intros ? [= <-]. exact HQ.
Qed.
Lemma yields_weaken {A} (Q R : A -> Prop) (m : flow A) : (forall a, Q a -> R a) -> yields P Q m -> yields P R m.
Proof. intros HQR Hm w. destruct (Hm w) as [Ho HQ]. split; auto. Qed.
End Yields.
Lemma only_attempt `{Environment} (P : step -> Prop) {A} (m : flow A) : only P m -> only P (attempt m).
Proof. intros Hm w. destruct (Hm w) as (l & Hl & HF). exists l. unfold attempt. by destruct (m w). Qed.

Create HintDb only.
(** The evidence at hand comes from the evaluation that was just made. *)
#[export] Hint Extern 1 (vouches _) =>
  first [exact I | eapply evaluated_acl; eassumption | eapply evaluated_guard; eassumption | eapply evaluated_inspection; eassumption] : only.
#[export] Hint Resolve only_attempt only_ret only_fail only_lift only_context only_snapshot only_publish only_try_publish : only.
(** Split a computation along its binds and branches. *)
Ltac only_step :=
  match goal with
  | |- only _ (_ ≫= _) => apply only_bind; [|intros ?]
  | |- only _ (match ?x with _ => _ end) => first [is_var x; destruct x | destruct x eqn:?]
  | |- only _ (if ?x then _ else _) => destruct x
  | |- only _ (let '_ := ?x in _) => first [is_var x; destruct x | destruct x eqn:?]
  | |- only _ _ => solve [eauto with only]
  end.
Ltac only_auto := repeat (cbv zeta beta; only_step).
