(* ===== verification/WireCapture.v ===== *)
(** Wire capture (crates/freja-proxy/src/http/wire/capture.rs, http/wire.rs): the adapters
    that watch the bytes of a connection beside the HTTP engine, and the correlation of
    the messages they cut out with the transactions the engine hands over. *)
From stdpp Require Import gmap strings.
From stdpp Require Import prelude.
From S2P Require Import Prelude Bytes Net Endpoint Domain PolicyModel Acl Guard Inspection Framing AuditModel AuditSink Hooks Runtime.

(** * Requests ([RequestCaptureState]) *)

Record request_record : Type := RequestRecord {
  record_sequence : N;
  record_transaction : option transaction_id;
  record_result : option (result bytes wire_message) }.
Inductive bound_capture : Type :=
| CaptureComplete (t : transaction_id) (m : wire_message)
| CaptureFailed (t : transaction_id) (reason : bytes).
Definition bound_record (r : request_record) : option bound_capture :=
  t ← record_transaction r;
  Some (match record_result r with
        | Some (Ok m) => CaptureComplete t m
        | Some (Err reason) => CaptureFailed t reason
        | None => CaptureFailed t (bs "HTTP/1 capture completed without a result")
        end).

Module RequestCaptureState.
Record t : Type := Make {
  framer : Http1Framer.t;
  records : list request_record;
  dropped_tail : N;
  maximum_records : nat;
  enabled : bool;
  at_eof : bool }.
Definition with_records (l : list request_record) (s : t) : t :=
  Make (framer s) l (dropped_tail s) (maximum_records s) (enabled s) (at_eof s).
Definition with_dropped (d : N) (s : t) : t :=
  Make (framer s) (records s) d (maximum_records s) (enabled s) (at_eof s).
(** [records.remove(index)] of a record that is settled. *)
Definition take_bound (index : nat) (r : request_record) (s : t) : t * list bound_capture :=
  (with_records (delete index (records s)) s, from_option (fun c => [c]) [] (bound_record r)).
Definition set_result (sequence : N) (r : result bytes wire_message) (s : t) : t * list bound_capture :=
  match list_find (fun record => record_sequence record = sequence) (records s) with
  | None => (s, [])
  | Some (index, record) =>
      let record := RequestRecord (record_sequence record) (record_transaction record) (Some r) in
      match record_transaction record with
      | Some _ => take_bound index record s
      | None => (with_records (<[index:=record]> (records s)) s, [])
      end
  end.
Definition apply_event (e : framer_event) (s : t) : t * list bound_capture :=
  match e with
  | Started sequence =>
      (if (0 <? dropped_tail s)%N || (length (records s) =? maximum_records s)
       then with_dropped (sat_add (dropped_tail s) 1) s
       else with_records (records s ++ [RequestRecord sequence None None]) s, [])
  | Complete sequence message => set_result sequence (Ok message) s
  | Failed sequence error => set_result sequence (Err (show_framing_error error)) s
  end.
Fixpoint apply_events (events : list framer_event) (s : t) : t * list bound_capture :=
  match events with
  | [] => (s, [])
  | e :: events =>
      let '(s, captures) := apply_event e s in
      let '(s, later) := apply_events events s in (s, captures ++ later)
  end.
Definition observe (input : bytes) (eof : bool) (s : t) : t * list bound_capture :=
  if negb (enabled s) || at_eof s then (s, [])
  else
    let '(f, events) := Http1Framer.push input (framer s) in
    let '(f, more) := if eof then Http1Framer.eof f else (f, []) in
    apply_events (events ++ more) (Make f (records s) (dropped_tail s) (maximum_records s) (enabled s) (at_eof s || eof)).
Definition limit_exceeded : bytes := bs "HTTP/1 capture correlation limit exceeded".
Definition head_not_observed : bytes := bs "HTTP/1 capture did not observe a request head".
Definition ended_early : bytes := bs "HTTP/1 request capture ended before message completion".
Definition bind (transaction : transaction_id) (s : t) : t * list bound_capture :=
  match list_find (fun record => record_transaction record = None) (records s) with
  | Some (index, record) =>
      let record := RequestRecord (record_sequence record) (Some transaction) (record_result record) in
      match record_result record with
      | Some _ => take_bound index record s
      | None => (with_records (<[index:=record]> (records s)) s, [])
      end
  | None =>
      if (0 <? dropped_tail s)%N
      then (with_dropped (dropped_tail s - 1) s, [CaptureFailed transaction limit_exceeded])
      else (s, [CaptureFailed transaction head_not_observed])
  end.
Definition abort (s : t) : t * list bound_capture :=
  (Make (Http1Framer.discard (framer s)) [] (dropped_tail s) (maximum_records s) false true,
   omap (fun r => (fun transaction => CaptureFailed transaction ended_early) <$> record_transaction r) (records s)).
Definition new (maximum_head_bytes maximum_content_bytes maximum_records : nat) : t :=
  Make (Http1Framer.new RequestRole maximum_head_bytes (maximum_head_bytes + maximum_content_bytes))
    [] 0 maximum_records true false.
End RequestCaptureState.
Import RequestCaptureState.

(** What befalls the capture of a connection: a completed read (an empty one is the end
    of the stream), a request handed over by the engine, the end of its use, by
    [disable] or by dropping the adapter. *)
Inductive capture_step : Type :=
| CaptureRead (input : bytes)
| CaptureBind (transaction : transaction_id)
| CaptureAbort.
Definition capture (step : capture_step) (s : RequestCaptureState.t) : RequestCaptureState.t * list bound_capture :=
  match step with
  | CaptureRead input => observe input (bool_decide (input = [])) s
  | CaptureBind transaction => RequestCaptureState.bind transaction s
  | CaptureAbort => abort s
  end.
Fixpoint capture_all (steps : list capture_step) (s : RequestCaptureState.t) : RequestCaptureState.t * list bound_capture :=
  match steps with
  | [] => (s, [])
  | step :: steps =>
      let '(s, captures) := capture step s in
      let '(s, later) := capture_all steps s in (s, captures ++ later)
  end.

(** * Responses ([ResponseCapture]) *)

Inductive wire_report : Type :=
| WireCaptured (retained : bytes) (observed : N) (truncated : bool)
| WireFailed (reason : bytes).
Module ResponseCapture.
Record t : Type := Make {
  framer : Http1Framer.t;
  maximum_capture_bytes : nat;
  retained : bytes;
  observed : N;
  truncated : bool;
  terminal : bool }.
Definition append (m : wire_message) (c : t) : t :=
  let count := Nat.min (maximum_capture_bytes c - length (retained c)) (length (message_bytes m)) in
  Make (framer c) (maximum_capture_bytes c) (retained c ++ take count (message_bytes m))
    (sat_add (observed c) (message_observed m))
    (truncated c || (message_truncated m || bool_decide (count < length (message_bytes m)))) (terminal c).
Definition finish (retained : bytes) (c : t) : t :=
  Make (framer c) (maximum_capture_bytes c) retained (observed c) (truncated c) true.
(** Publication takes the retained bytes away; the loop over the events goes on. *)
Definition apply_event (e : framer_event) (c : t) : t * list wire_report :=
  match e with
  | Started _ => (c, [])
  | Complete _ m =>
      let c := append m c in
      if message_informational m then (c, [])
      else (finish [] c, [WireCaptured (retained c) (observed c) (truncated c)])
  | Failed _ error => (finish (retained c) c, [WireFailed (show_framing_error error)])
  end.
Fixpoint apply_events (events : list framer_event) (c : t) : t * list wire_report :=
  match events with
  | [] => (c, [])
  | e :: events =>
      let '(c, reports) := apply_event e c in
      let '(c, later) := apply_events events c in (c, reports ++ later)
  end.
Definition observe (input : bytes) (eof : bool) (c : t) : t * list wire_report :=
  if terminal c then (c, [])
  else
    let '(f, events) := Http1Framer.push input (framer c) in
    let '(f, more) := if eof then Http1Framer.eof f else (f, []) in
    apply_events (events ++ more) (Make f (maximum_capture_bytes c) (retained c) (observed c) (truncated c) (terminal c)).
Definition ended_early : bytes := bs "HTTP/1 response capture ended before message completion".
Definition abort (c : t) : t * list wire_report :=
  if terminal c then (c, []) else (finish (retained c) c, [WireFailed ended_early]).
Definition new (maximum_head_bytes maximum_content_bytes : nat) (was_head was_connect : bool) : t :=
  let maximum := maximum_head_bytes + maximum_content_bytes in
  Make (Http1Framer.new (ResponseRole (ResponseContext was_head was_connect)) maximum_head_bytes maximum) maximum [] 0 false false.
(** The reads of a connection in order, and then the end of its use. *)
Fixpoint observe_all (reads : list bytes) (c : t) : t * list wire_report :=
  match reads with
  | [] => abort c
  | input :: reads =>
      let '(c, reports) := observe input (bool_decide (input = [])) c in
      let '(c, later) := observe_all reads c in (c, reports ++ later)
  end.
End ResponseCapture.

(** * Publication *)

Section Publication.
Context `{Environment}.
Definition publish_bound s (c : bound_capture) : flow unit :=
  match c with
  | CaptureComplete t m =>
      publish_wire_capture s t HttpRequestBody (message_bytes m) (message_observed m) (message_truncated m)
  | CaptureFailed t reason => publish_wire_capture_failure s t HttpRequestBody reason
  end.
Fixpoint publish_captures s (captures : list bound_capture) : flow unit :=
  match captures with
  | [] => mret tt
  | c :: captures => _ ← publish_bound s c; publish_captures s captures
  end.
(** The operations of the handle: the state changes under its lock, then the captures
    are published. *)
Definition handle_capture s (step : capture_step) (c : RequestCaptureState.t) : flow RequestCaptureState.t :=
  let '(c, captures) := capture step c in _ ← publish_captures s captures; mret c.
Definition publish_report s t (r : wire_report) : flow unit :=
  match r with
  | WireCaptured b observed truncated => publish_wire_capture s t HttpResponseBody b observed truncated
  | WireFailed reason => publish_wire_capture_failure s t HttpResponseBody reason
  end.
End Publication.

(** * The framer as a validity check (http/wire.rs) *)

Definition FUZZ_MAXIMUM_HEAD_BYTES : N := 65536.
Definition FUZZ_MAXIMUM_MESSAGE_BYTES : N := 131072.
Definition framing_succeeds (role : message_role) (input : bytes) : bool :=
  let f := Http1Framer.new role (N.to_nat FUZZ_MAXIMUM_HEAD_BYTES) (N.to_nat FUZZ_MAXIMUM_MESSAGE_BYTES) in
  let split := length input `div` 2 in
  let '(f, first) := Http1Framer.push (take split input) f in
  let '(f, second) := Http1Framer.push (drop split input) f in
  let '(f, last) := Http1Framer.eof f in
  forallb (fun e => match e with Failed _ _ => false | _ => true end) (first ++ second ++ last).
Definition is_valid_capture_framing (input : bytes) : bool :=
  let response was_head was_connect := ResponseRole (ResponseContext was_head was_connect) in
  framing_succeeds RequestRole input && framing_succeeds (response false false) input
  && framing_succeeds (response true false) input && framing_succeeds (response false true) input.
