(* ===== verification/WireSafety.v ===== *)
(** The captures of a connection belong to the transactions they are published for
    (crates/freja-proxy/src/http/wire/capture.rs, over the framer of Framing.v). *)
From stdpp Require Import gmap strings.
From stdpp Require Import prelude.
From S2P Require Import Prelude Bytes Net Endpoint Domain Framing AuditModel Runtime WireCapture.
Import Http1Framer.
(** * The messages of a stream *)

Section Messages.
Context (mh mc : nat) (role : message_role).
(** The [i]-th message of a stream. *)
Definition message_at (stream : bytes) (i : nat) (m : bytes) (informational : bool) : Prop :=
  exists before rest, stream = concat (map fst before) ++ m ++ rest /\ length before = i /\
    Forall (fun x => message mh role x.1 x.2) before /\ message mh role m informational.
Lemma run_starts f input : active f = false -> st f = Head -> input <> [] -> (run input f).2 <> [].
Proof.
  intros Ha Hs Hne. destruct input as [|b input]; [done|]. cbn [run]. unfold push_byte.
  rewrite decide_False by (by rewrite Hs). unfold activate. rewrite Ha.
  destruct (Http1Framer.iteration b [] _) as [[g e] r]. by destruct (run input g).
Qed.
(** No message begins with another one. *)
Lemma message_prefix_free m1 i1 m2 i2 x y :
  message mh role m1 i1 -> message mh role m2 i2 -> m1 ++ x = m2 ++ y -> m1 = m2 /\ i1 = i2.
Proof.
  set (f := Http1Framer.set_active (Http1Framer.new role mh mc)).
  assert (Hwlog : forall m1 i1 m2 i2 z, message mh role m1 i1 -> message mh role m2 i2 -> m2 = m1 ++ z -> m1 = m2 /\ i1 = i2).
  { intros n1 j1 n2 j2 z H1 H2 ->. apply (message_completes f) in H1 as [g1 H1], H2 as [g2 H2]; [|done..].
    rewrite run_app, H1 in H2. pose proof (run_starts (Http1Framer.reset g1) z) as Hs.
    unfold Http1Framer.complete in H2. destruct (run z (Http1Framer.reset g1)) as [h e].
    destruct z as [|b z].
    - rewrite app_nil_r. split; [done|]. cbn in H2. congruence.
    - exfalso. cbn in H2. destruct e; [|congruence]. by apply Hs. }
  intros H1 H2 Heq. apply app_eq_inv in Heq as [(z & Hz & _)|(z & Hz & _)].
  - destruct (Hwlog _ _ _ _ _ H2 H1 Hz) as [-> ->]. done.
  - by apply (Hwlog _ _ _ _ z).
Qed.
Lemma messages_agree ms ns x y :
  Forall (fun m => message mh role m.1 m.2) ms -> Forall (fun m => message mh role m.1 m.2) ns ->
  concat (map fst ms) ++ x = concat (map fst ns) ++ y -> prefix ms ns \/ prefix ns ms.
Proof.
  intros Hms; revert ns; induction Hms as [|[m i] ms Hm _ IH]; intros ns Hns Heq; [left; apply prefix_nil|].
  destruct Hns as [|[n j] ns Hn Hns]; [right; apply prefix_nil|]. cbn in Heq, Hm, Hn. rewrite <- !app_assoc in Heq.
  destruct (message_prefix_free _ _ _ _ _ _ Hm Hn Heq) as [-> ->]. apply app_inv_head in Heq.
  destruct (IH ns Hns Heq); [left|right]; by apply prefix_cons.
Qed.
Lemma run_activates f input :
  active f = false -> st f <> FailedState -> input <> [] ->
  run input f = let '(g, e) := run input (set_active f) in (g, Started (sequence f) :: e).
Proof.
  intros Ha Hs Hne. destruct input as [|b input]; [done|]. cbn [run]. unfold push_byte.
  rewrite !decide_False by done. rewrite (activate_active (set_active f)) by done. unfold activate. rewrite Ha.
  destruct (iteration b [] (set_active f)) as [[g e] r]. by destruct (run input g).
Qed.
Definition is_complete (e : framer_event) : bool := match e with Complete _ _ => true | _ => false end.
Lemma filter_message_events maximum n ms : length (List.filter is_complete (message_events maximum n ms)) = length ms.
Proof. revert n; induction ms as [|[m i] ms IH]; intros n; cbn; [done|]. by rewrite IH. Qed.
Lemma message_nonempty m i : message mh role m i -> m <> [].
Proof.
  intros Hm ->. destruct (message_completes (set_active (new role mh mc)) [] i) as [g Hg]; [done..|]. done.
Qed.
(** Reading whole messages completes each of them and leaves the framer between two. *)
Lemma run_messages ms :
  Forall (fun m => message mh role m.1 m.2) ms ->
  let '(f, events) := run (concat (map fst ms)) (new role mh mc) in
  active f = false /\ st f = Head /\ head f = [] /\ length (List.filter is_complete events) = length ms.
Proof.
  induction ms as [|[m i] ms IH] using rev_ind; [done|]. intros [Hms Hm]%Forall_app. apply Forall_inv in Hm. cbn in Hm.
  rewrite map_app, concat_app. cbn [map concat fst]. rewrite app_nil_r, run_app.
  pose proof (run_history role mh mc (concat (map fst ms))) as Hh. specialize (IH Hms).
  destruct (run (concat (map fst ms)) (new role mh mc)) as [f events].
  destruct IH as (Ha & Hs & Hhead & Hlen). destruct Hh as (ms0 & rest & Hh).
  pose proof (history_head _ _ _ _ _ _ _ _ Hh) as Hmh. pose proof (history_role _ _ _ _ _ _ _ _ Hh) as Hr.
  pose proof (message_nonempty m i Hm) as Hne. rewrite (run_activates f m); [|done|by rewrite Hs|done].
  destruct (message_completes (set_active f) m i) as [g ->]; [done..|by cbn; rewrite Hmh, Hr|].
  unfold complete. cbn. split; [done|]. split; [done|]. split; [done|].
  rewrite List.filter_app, !length_app, Hlen. done.
Qed.
(** The messages that a stream begins with are the ones the framer completes on it. *)
Lemma history_begins ms rest ns rest' f events :
  Forall (fun m => message mh role m.1 m.2) ms -> run (concat (map fst ms) ++ rest) (new role mh mc) = (f, events) ->
  Framing.history role mh mc (concat (map fst ms) ++ rest) f events ns rest' -> prefix ms ns.
Proof.
  intros Hms Heq Hh.
  pose proof (run_messages ms Hms) as Hrun. rewrite run_app in Heq.
  destruct (run (concat (map fst ms)) (new role mh mc)) as [f0 first]. destruct Hrun as (_ & _ & _ & Hlen).
  destruct (run rest f0) as [g more]. injection Heq as -> <-.
  destruct Hh as [Hin Hns _ _ _ _ Hlive Hfail].
  assert (Hns' : Forall (fun m => message mh role m.1 m.2) ns) by (eapply Forall_impl; [exact Hns|]; by intros ? []).
  assert (Hcount : length (List.filter is_complete (first ++ more)) = length ns).
  { destruct (decide (st f = FailedState)) as [Hf|Hf].
    - destruct (Hfail Hf) as (_ & e & ->). rewrite List.filter_app, length_app, filter_message_events. cbn. lia.
    - destruct (Hlive Hf) as (_ & _ & _ & _ & ->). rewrite List.filter_app, length_app, filter_message_events. case_if; cbn; lia. }
  rewrite List.filter_app, length_app in Hcount.
  destruct (messages_agree ms ns rest rest' Hms Hns' Hin) as [?|Hp]; [done|].
  pose proof (prefix_length_eq ns ms Hp ltac:(lia)) as ->. done.
Qed.
End Messages.

Import RequestCaptureState.

(** * Events and bindings in one sequence *)

Inductive traced : Type := Seen (e : framer_event) | BoundTo (t : transaction_id).
Definition trace_one (x : traced) (s : RequestCaptureState.t) : RequestCaptureState.t * list bound_capture :=
  match x with Seen e => apply_event e s | BoundTo t => bind t s end.
Fixpoint trace_all (l : list traced) (s : RequestCaptureState.t) : RequestCaptureState.t * list bound_capture :=
  match l with
  | [] => (s, [])
  | x :: l => let '(s, c) := trace_one x s in let '(s, later) := trace_all l s in (s, c ++ later)
  end.
Definition is_binding (x : traced) : Prop := match x with BoundTo _ => True | Seen _ => False end.
(** How the messages of a trace ended, and its transactions, in order. *)
Definition result_of (e : framer_event) : option (result bytes wire_message) :=
  match e with
  | Started _ => None
  | Complete _ m => Some (Ok m)
  | Failed _ error => Some (Err (show_framing_error error))
  end.
Definition results_of (l : list traced) : list (result bytes wire_message) :=
  omap (fun x => match x with Seen e => result_of e | BoundTo _ => None end) l.
Definition bindings_of (l : list traced) : list transaction_id :=
  omap (fun x => match x with Seen _ => None | BoundTo t => Some t end) l.

Section Correlation.
Context (maximum : nat) (over : Prop).
Implicit Types (finished : list (result bytes wire_message)) (bound : list transaction_id) (out : list bound_capture).

(** The [k]-th message is the current one, begun if [open]; [b] transactions are bound. *)
Fixpoint ordered (k : nat) (open : bool) (b : nat) (l : list traced) : Prop :=
  match l with
  | [] => True
  | Seen (Started n) :: l =>
      n = N.of_nat k /\ open = false /\ (maximum < S k - b -> over) /\ (N.of_nat (S k) <= u64_max)%N /\ ordered k true b l
  | Seen (Complete n _) :: l | Seen (Failed n _) :: l => n = N.of_nat k /\ open = true /\ ordered (S k) false b l
  | BoundTo _ :: l => (b < k + Nat.b2n open \/ open = false /\ Forall is_binding l) /\ ordered k open (S b) l
  end.
Definition unbound finished (i : nat) : request_record := RequestRecord (N.of_nat i) None (finished !! i).
(** The queue: the messages no transaction is bound to, the first of them recorded and
    the others counted; or the bound message whose end is awaited; or nothing at all, when
    there are more transactions than messages.  The last number counts what is settled. *)
Inductive queued finished (open : bool) bound : list request_record -> N -> nat -> Prop :=
| queued_waiting u d :
    length bound + u + d = length finished + Nat.b2n open -> u <= maximum -> (0 < d -> over) ->
    queued finished open bound (map (unbound finished) (seq (length bound) u)) (N.of_nat d) (length bound)
| queued_pending before t :
    open = true -> bound = before ++ [t] -> length before = length finished ->
    queued finished open bound [RequestRecord (N.of_nat (length finished)) (Some t) None] 0 (length finished)
| queued_beyond :
    length finished + Nat.b2n open < length bound -> queued finished open bound [] 0 (length bound).
Definition reports finished (started i : nat) (t : transaction_id) (c : bound_capture) : Prop :=
  match c with
  | CaptureComplete t' m => t' = t /\ finished !! i = Some (Ok m)
  | CaptureFailed t' reason =>
      t' = t /\ (finished !! i = Some (Err reason) \/ reason = limit_exceeded /\ over \/
                 reason = head_not_observed /\ started <= i)
  end.
Record correlated finished open bound (out : list bound_capture) (s : RequestCaptureState.t) (l : list traced) : Prop := {
  correlated_limit : maximum_records s = maximum;
  correlated_queue : queued finished open bound (records s) (dropped_tail s) (length out);
  correlated_order : ordered (length finished) open (length bound) l;
  correlated_tail : length finished + Nat.b2n open < length bound -> Forall is_binding l;
  correlated_reports : forall (i : nat) (t : transaction_id) (c : bound_capture), out !! i = Some c -> bound !! i = Some t ->
    reports finished (length finished + Nat.b2n open) i t c }.

Lemma find_sequence finished b u k :
  list_find (fun record => record_sequence record = N.of_nat k) (map (unbound finished) (seq b u))
  = if decide (b <= k < b + u) then Some (k - b, unbound finished k) else None.
Proof.
  revert b; induction u as [|u IH]; intros b; cbn [seq map list_find]; [by rewrite decide_False by lia|].
  destruct (decide (record_sequence (unbound finished b) = N.of_nat k)) as [Heq|Hne]; cbn [unbound record_sequence] in *.
  - apply Nat2N.inj in Heq as ->. rewrite decide_True by lia. by rewrite Nat.sub_diag.
  - assert (b <> k) by congruence. rewrite IH. case_decide; case_decide; cbn; try lia; [|done]. do 2 f_equal. lia.
Qed.
Lemma unbound_finish finished r b u :
  u = 0 \/ b + u <= length finished -> map (unbound finished) (seq b u) = map (unbound (finished ++ [r])) (seq b u).
Proof.
  intros Hle. apply map_ext_in. intros i Hi%in_seq. unfold unbound. by rewrite lookup_app_l by lia.
Qed.
Lemma reports_mono finished r started started' i t c :
  i < started -> reports finished started i t c -> reports (finished ++ [r]) started' i t c.
Proof.
  intros Hlt. destruct c as [t' m|t' reason]; cbn [reports].
  - intros [-> Hm]. split; [done|]. by apply lookup_app_l_Some.
  - intros [-> [He|[Ho|[_ Hi]]]]; (split; [done|]); [left; by apply lookup_app_l_Some|by right; left|lia].
Qed.
Lemma queued_settled finished open bound recs d n : queued finished open bound recs d n -> n <= length bound.
Proof. intros [u d'| |]; subst; rewrite ?length_app; cbn; lia. Qed.
Lemma out_bound finished open bound out recs d i c :
  queued finished open bound recs d (length out) -> out !! i = Some c -> exists t, bound !! i = Some t.
Proof. intros Hq Hi%lookup_lt_Some. apply queued_settled in Hq. apply lookup_lt_is_Some_2. lia. Qed.

Definition settled (t : transaction_id) (r : result bytes wire_message) : bound_capture :=
  match r with Ok m => CaptureComplete t m | Err reason => CaptureFailed t reason end.
Lemma take_bound_settled index n t r s :
  take_bound index (RequestRecord n (Some t) (Some r)) s = (with_records (delete index (records s)) s, [settled t r]).
Proof. done. Qed.
Lemma reports_settled finished started i t r : finished !! i = Some r -> reports finished started i t (settled t r).
Proof. destruct r; cbn; auto. Qed.
Lemma correlated_started finished open bound out s n l :
  correlated finished open bound out s (Seen (Started n) :: l) ->
  correlated finished true bound out (apply_event (Started n) s).1 l /\ (apply_event (Started n) s).2 = [] /\ open = false.
Proof.
  intros [Hmax Hq Hord Htail Hrep]. destruct Hord as (-> & -> & Hover & Hsmall & Hord). split; [|done].
  assert (Hb : length bound <= length finished).
  { destruct (decide (length finished < length bound)) as [Hlt|]; [|lia]. cbn in Htail. rewrite Nat.add_0_r in Htail.
    specialize (Htail Hlt). by apply Forall_cons in Htail as [[] _]. }
  inversion Hq as [u d Hsum Hu Hd Hrecs Hdrop Hn| |]; [|done|cbn in *; lia]. cbn in Hsum.
  cbn [apply_event fst]. rewrite <- Hrecs, <- Hdrop, length_map, length_seq, Hmax.
  split.
  - by case_if.
  - destruct ((0 <? N.of_nat d)%N || (u =? maximum)) eqn:Hfull; cbn [with_dropped with_records records dropped_tail].
    + replace (sat_add (N.of_nat d) 1) with (N.of_nat (S d)) by (unfold sat_add; lia).
      rewrite <- Hn, <- Hrecs. apply queued_waiting; cbn; [lia|done|]. intros _.
      apply orb_true_iff in Hfull as [Hd0%N.ltb_lt|Hu0%Nat.eqb_eq]; [apply Hd; lia|].
      destruct d; [|apply Hd; lia]. apply Hover. lia.
    + apply orb_false_iff in Hfull as [Hd0%N.ltb_ge Hu0%Nat.eqb_neq]. assert (d = 0) as -> by lia.
      rewrite <- Hn, <- Hdrop. replace (map _ _ ++ _) with (map (unbound finished) (seq (length bound) (S u))).
      { change 0%N with (N.of_nat 0). apply queued_waiting; cbn; [lia|lia|done]. }
      rewrite seq_S, map_app. f_equal. cbn [map]. unfold unbound. rewrite lookup_ge_None_2 by lia.
      do 2 f_equal. lia.
  - done.
  - cbn. lia.
  - intros i t c Hi Ht. specialize (Hrep i t c Hi Ht). apply lookup_lt_Some in Ht.
    destruct c as [t' m|t' reason]; cbn in *; [done|]. destruct Hrep as [-> [?|[?|[_ ?]]]]; [by auto|by auto|lia].
Qed.
Lemma correlated_result finished open bound out s e r n l :
  result_of e = Some r -> (e = Started n -> False) ->
  apply_event e s = set_result n r s ->
  n = N.of_nat (length finished) -> open = true ->
  ordered (S (length finished)) false (length bound) l ->
  correlated finished open bound out s (Seen e :: l) ->
  correlated (finished ++ [r]) false bound (out ++ (apply_event e s).2) (apply_event e s).1 l.
Proof.
  intros _ _ -> -> -> Hord' [Hmax Hq _ Htail Hrep].
  assert (Hb : length bound <= S (length finished)).
  { destruct (decide (S (length finished) < length bound)) as [Hlt|]; [|lia]. cbn in Htail.
    rewrite Nat.add_1_r in Htail. specialize (Htail Hlt). by apply Forall_cons in Htail as [[] _]. }
  assert (Hlen : length (finished ++ [r]) = S (length finished)) by (rewrite length_app; cbn; lia).
  assert (Hkeep : forall (i : nat) (t : transaction_id) (c : bound_capture), out !! i = Some c -> bound !! i = Some t ->
    reports (finished ++ [r]) (length (finished ++ [r]) + Nat.b2n false) i t c).
  { intros i t c Hi Ht. eapply reports_mono; [|by apply (Hrep i t c)]. apply lookup_lt_Some in Ht. cbn. lia. }
  inversion Hq as [u d Hsum Hu Hd Hrecs Hdrop Hn|before t _ -> Hbefore Hrecs Hdrop Hn|]; [| |cbn in *; lia]; cbn [Nat.b2n] in *.
  - assert (Hquiet : exists recs, set_result (N.of_nat (length finished)) r s = (with_records recs s, []) /\
      recs = map (unbound (finished ++ [r])) (seq (length bound) u)).
    { unfold set_result. rewrite <- Hrecs, find_sequence. case_decide as Hin.
      - cbn [unbound record_transaction record_sequence]. eexists. split; [done|].
        assert (u = S (length finished - length bound)) as -> by lia.
        set (v := length finished - length bound).
        rewrite seq_S, !map_app. rewrite insert_app_r_alt by (rewrite length_map, length_seq; lia).
        rewrite length_map, length_seq, Nat.sub_diag. rewrite (unbound_finish finished r) by lia. f_equal.
        replace (length bound + v) with (length finished) by lia. cbn. unfold unbound. by rewrite list_lookup_middle.
      - exists (records s). split; [by destruct s|]. rewrite <- Hrecs. apply unbound_finish. lia. }
    destruct Hquiet as (recs & -> & ->). cbn [fst snd]. rewrite app_nil_r. split; [done| |by rewrite Hlen|cbn; lia|done].
    cbn [with_records records dropped_tail]. rewrite <- Hn, <- Hdrop. apply queued_waiting; [cbn; lia|done|done].
  - rewrite length_app in Hb. unfold set_result. rewrite <- Hrecs. cbn [list_find record_sequence].
    rewrite decide_True by done. cbn [record_transaction record_sequence]. rewrite take_bound_settled, <- Hrecs.
    cbn [fst snd delete list_delete]. split; [done| |by rewrite Hlen| |].
    + cbn [with_records records dropped_tail]. rewrite <- Hdrop.
      replace (length (out ++ _)) with (length (before ++ [t])) by (rewrite !length_app; cbn; lia).
      apply (queued_waiting _ _ _ 0 0); rewrite ?length_app; cbn; [lia|lia|lia].
    + rewrite !length_app. cbn. lia.
    + intros i t' c. destruct (decide (i < length out)) as [Hi|Hi].
      * rewrite (lookup_app_l out) by done. apply Hkeep.
      * rewrite lookup_app_r by lia. intros [Hic <-]%list_lookup_singleton_Some. rewrite lookup_app_r by lia.
        intros [_ <-]%list_lookup_singleton_Some.
        apply reports_settled. by rewrite list_lookup_middle by lia.
Qed.
Lemma find_unbound finished b u :
  list_find (fun record => record_transaction record = None) (map (unbound finished) (seq b u))
  = match u with 0 => None | S _ => Some (0, unbound finished b) end.
Proof. destruct u; [done|]. cbn. by rewrite decide_True. Qed.
Lemma correlated_bound finished open bound out s t l :
  correlated finished open bound out s (BoundTo t :: l) ->
  correlated finished open (bound ++ [t]) (out ++ (bind t s).2) (bind t s).1 l.
Proof.
  intros [Hmax Hq [Hroom Hord] Htail Hrep].
  assert (Hlen : length (bound ++ [t]) = S (length bound)) by (rewrite length_app; cbn; lia).
  assert (Htail' : length finished + Nat.b2n open < length (bound ++ [t]) -> Forall is_binding l).
  { intros Hlt. destruct Hroom as [?|[_ Hl]]; [lia|done]. }
  assert (Hlast : forall c, length out = length bound -> reports finished (length finished + Nat.b2n open) (length bound) t c ->
    forall (i : nat) t' c', (out ++ [c]) !! i = Some c' -> (bound ++ [t]) !! i = Some t' -> reports finished (length finished + Nat.b2n open) i t' c').
  { intros c Hout Hc i t' c' Hi Ht. destruct (decide (i < length out)) as [Hlt|Hge].
    - rewrite (lookup_app_l out) in Hi by lia. rewrite (lookup_app_l bound) in Ht by lia. by eapply Hrep.
    - rewrite (lookup_app_r out) in Hi by lia. rewrite (lookup_app_r bound) in Ht by lia. apply list_lookup_singleton_Some in Hi as [Hi <-], Ht as [_ <-].
      by replace i with (length bound) by lia. }
  inversion Hq as [u d Hsum Hu Hd Hrecs Hdrop Hn|before t' -> -> Hbefore Hrecs Hdrop Hn|Hbeyond Hrecs Hdrop Hn].
  - unfold bind. rewrite <- Hrecs, find_unbound. destruct u as [|u].
    + rewrite <- Hdrop. destruct d as [|d]; [change (0 <? N.of_nat 0)%N with false|change (0 <? N.of_nat (S d))%N with true]; cbn iota.
      * destruct Hroom as [?|[-> Hl]]; [lia|]. split; [done| |by rewrite Hlen|done|].
        -- rewrite length_app, <- Hn. cbn [length fst]. rewrite <- Hrecs, <- Hdrop, Nat.add_1_r, <- Hlen.
           apply queued_beyond. cbn in Hsum |- *. lia.
        -- apply Hlast; [done|]. cbn. split; [done|]. right. right. split; [done|]. cbn in Hsum. lia.
      * split; [done| |by rewrite Hlen|done|].
        -- rewrite length_app, <- Hn. cbn [length fst with_dropped records dropped_tail].
           rewrite <- Hrecs, Nat.add_1_r, <- Hlen. replace (N.of_nat (S d) - 1)%N with (N.of_nat d) by lia.
           apply (queued_waiting finished open (bound ++ [t]) 0 d); rewrite ?Hlen; [lia|lia|intros; apply Hd; lia].
        -- apply Hlast; [done|]. cbn. split; [done|]. right. left. split; [done|]. apply Hd. lia.
    + cbn [unbound record_transaction record_sequence record_result].
      destruct (finished !! length bound) as [r|] eqn:Er.
      * rewrite take_bound_settled, <- Hrecs. cbn [fst snd delete list_delete seq map].
        split; [done| |by rewrite Hlen|done|apply Hlast; [done|by apply reports_settled]].
        rewrite length_app, <- Hn. cbn [length with_records records dropped_tail].
        rewrite <- Hdrop, Nat.add_1_r, <- Hlen. apply queued_waiting; [lia|lia|done].
      * apply lookup_ge_None in Er. destruct open; cbn in Hsum; [|lia].
        assert (u = 0 /\ d = 0) as [-> ->] by lia. cbn [fst snd with_records seq map].
        rewrite app_nil_r. split; [done| |by rewrite Hlen|done|].
        -- cbn [records dropped_tail with_records insert list_insert fst]. rewrite <- Hdrop, <- Hn.
           replace (length bound) with (length finished) by lia. apply (queued_pending _ _ _ bound t); [done|done|lia].
        -- intros i t' c Hi Ht. rewrite lookup_app_l in Ht by (apply lookup_lt_Some in Hi; lia). by eapply Hrep.
  - rewrite length_app in Hroom. cbn in Hroom. destruct Hroom as [?|[? _]]; [lia|done].
  - unfold bind. rewrite <- Hrecs, <- Hdrop. change (0 <? 0)%N with false. cbn [list_find fst snd].
    split; [done| |by rewrite Hlen|done|].
    + rewrite length_app, <- Hn. cbn [length]. rewrite <- Hrecs, <- Hdrop, Nat.add_1_r, <- Hlen. apply queued_beyond. lia.
    + apply Hlast; [done|]. cbn. split; [done|]. right. right. split; [done|]. lia.
Qed.
Lemma trace_correlated l finished open bound out s :
  correlated finished open bound out s l ->
  let '(s', captures) := trace_all l s in
  exists open', correlated (finished ++ results_of l) open' (bound ++ bindings_of l) (out ++ captures) s' [].
Proof.
  revert finished open bound out s; induction l as [|x l IH]; intros finished open bound out s Hc; cbn [trace_all].
  { exists open. by rewrite !app_nil_r. }
  destruct (trace_one x s) as [s1 c1] eqn:Ex.
  assert (Hnext : exists open1, correlated (finished ++ results_of [x]) open1 (bound ++ bindings_of [x]) (out ++ c1) s1 l).
  { destruct x as [[n|n m|n e]|t]; cbn [trace_one] in Ex; cbn [results_of bindings_of omap result_of].
    - apply correlated_started in Hc as (Hc & Hnone & _). rewrite Ex in Hc, Hnone. cbn in Hnone. subst c1.
      rewrite !app_nil_r. by exists true.
    - pose proof (correlated_order _ _ _ _ _ _ Hc) as (-> & -> & Hord). rewrite app_nil_r.
      eapply (correlated_result _ _ _ _ _ _ (Ok m)) in Hc; [|done|done|done|done|done|done].
      rewrite Ex in Hc. by exists false.
    - pose proof (correlated_order _ _ _ _ _ _ Hc) as (-> & -> & Hord). rewrite app_nil_r.
      eapply (correlated_result _ _ _ _ _ _ (Err (show_framing_error e))) in Hc; [|done|done|done|done|done|done].
      rewrite Ex in Hc. by exists false.
    - apply correlated_bound in Hc. rewrite Ex in Hc. rewrite app_nil_r. by exists open. }
  destruct Hnext as (open1 & Hnext). specialize (IH _ _ _ _ _ Hnext). destruct (trace_all l s1) as [s2 c2].
  destruct IH as (open2 & Hfinal). exists open2. revert Hfinal. rewrite <- !app_assoc.
  change (x :: l) with ([x] ++ l). unfold results_of, bindings_of. by rewrite !omap_app.
Qed.
(** What [abort] adds settles every transaction that is bound. *)
Lemma abort_settles finished open bound out s :
  correlated finished open bound out s [] ->
  exists last, (abort s).2 = last /\ length (out ++ last) = length bound /\
    forall (i : nat) t c, (out ++ last) !! i = Some c -> bound !! i = Some t ->
      reports finished (length finished + Nat.b2n open) i t c \/
      c = CaptureFailed t ended_early /\ finished !! i = None.
Proof.
  intros [_ Hq _ _ Hrep]. eexists. split; [done|].
  inversion Hq as [u d Hsum Hu Hd Hrecs Hdrop Hn|before t Ho -> Hbefore Hrecs Hdrop Hn|Hb Hrecs Hdrop Hn]; cbn [abort snd]; rewrite <- Hrecs.
  - assert (omap (fun r => (fun transaction => CaptureFailed transaction ended_early) <$> record_transaction r)
      (map (unbound finished) (seq (length bound) u)) = []) as ->.
    { generalize (length bound). clear. induction u as [|u IH]; intros b; cbn; [done|apply IH]. }
    rewrite app_nil_r. split; [done|]. intros i t c Hi Ht. left. by apply Hrep.
  - cbn [omap list_omap record_transaction fmap option_fmap option_map]. rewrite !length_app. cbn [length].
    split; [lia|]. intros i t' c Hi Ht. destruct (decide (i < length out)) as [Hlt|Hge].
    + left. rewrite lookup_app_l in Hi by done. by apply Hrep.
    + right. rewrite lookup_app_r in Hi by lia. rewrite lookup_app_r in Ht by lia.
      apply list_lookup_singleton_Some in Hi as [_ <-], Ht as [_ <-]. split; [done|]. apply lookup_ge_None_2. lia.
  - cbn. rewrite app_nil_r. split; [done|]. intros i t c Hi Ht. left. by apply Hrep.
Qed.
Lemma correlated_new l s :
  ordered 0 false 0 l -> maximum_records s = maximum -> records s = [] -> dropped_tail s = 0%N -> correlated [] false [] [] s l.
Proof.
  intros Ho Hm Hr Hd. split; [done| |done|cbn; lia|done]. rewrite Hr, Hd.
  apply (queued_waiting _ _ [] 0 0); cbn; lia.
Qed.
End Correlation.

(** * The framer under the reads of a connection *)

Definition is_started (e : framer_event) : bool := match e with Started _ => true | _ => false end.
Definition begun (events : list framer_event) : nat := length (List.filter is_started events).
Lemma begun_app e e' : begun (e ++ e') = begun e + begun e'.
Proof. unfold begun. by rewrite List.filter_app, length_app. Qed.
(** A framer that has not failed, reading its [k]-th message if [open]. *)
Record live (f : Http1Framer.t) (k : nat) (open : bool) : Prop := {
  live_state : st f <> FailedState;
  live_wf : state_wf (st f);
  live_sequence : Http1Framer.sequence f = N.of_nat k;
  live_active : active f = open;
  live_head : open = false -> st f = Head }.
Section Framed.
Context (maximum : nat) (over : Prop).
(** What a piece of the stream does to a framer and to the order of its events. *)
Definition extends (k : nat) (open : bool) (b : nat) (f : Http1Framer.t) (events : list framer_event) : Prop :=
  exists k' open', (live f k' open' \/ st f = FailedState /\ open' = false) /\
    k' + Nat.b2n open' = k + Nat.b2n open + begun events /\
    forall rest, ordered maximum over k' open' b rest -> ordered maximum over k open b (map Seen events ++ rest).
Lemma push_byte_extends b f k open n :
  live f k open ->
  let '(g, events) := push_byte b f in
  (maximum < k + Nat.b2n open + begun events - n -> over) -> (N.of_nat (k + Nat.b2n open + begun events) <= u64_max)%N ->
  extends k open n g events.
Proof.
  intros [Hst Hwf Hseq Hact Hhead]. unfold push_byte. rewrite decide_False by done.
  assert (Hg : exists g s, activate f = (g, s) /\ st g = st f /\ active g = true /\ Http1Framer.sequence g = N.of_nat k /\
    s = if open then [] else [Started (N.of_nat k)]).
  { unfold activate. rewrite Hact. destruct open; (do 2 eexists); (split; [done|]); [done|]. cbn. by rewrite Hseq. }
  destruct Hg as (g & s & -> & Hsg & Hag & Hqg & Hs). rewrite <- Hsg in Hst, Hwf.
  pose proof (iteration_wf b g Hwf Hst) as Hw. pose proof (iteration_outcome b g Hwf Hst) as Ho.
  destruct (iteration b [] g) as [[g' e'] r]. cbn [fst] in Hw, Ho. intros Hover Hsmall.
  assert (Hpre : (maximum < S k - n -> over) -> (N.of_nat (S k) <= u64_max)%N ->
    forall rest, ordered maximum over k true n rest -> ordered maximum over k open n (map Seen s ++ rest)).
  { intros Hov Hsm rest Hrest. subst s. by destruct open. }
  assert (Hs1 : begun s + Nat.b2n open = 1) by (subst s; by destruct open).
  inversion Ho as [h Hcore Hnf Heq|h i Hcore Heq|h e Hcore Heq]; subst g' e'; destruct Hcore as [_ _ _ Hcs Hca _ _ _];
    cbn in Hcs, Hca, Hw; rewrite Hqg in Hcs; rewrite Hag in Hca; rewrite begun_app in Hover, Hsmall; cbn [stay complete fail snd fst] in *.
  - change (begun []) with 0 in Hover, Hsmall. rewrite app_nil_r. exists k, true.
    split; [left; by split|]. split; [cbn; lia|]. apply Hpre; [intros; apply Hover|]; lia.
  - change (begun [_]) with 0 in Hover, Hsmall. exists (S k), false. split; [left; split; try done|].
    + cbn. rewrite Hcs, sat_add_small by lia. lia.
    + split; [rewrite begun_app; cbn; lia|]. intros rest Hrest. rewrite map_app, <- app_assoc.
      apply Hpre; [intros; apply Hover; lia|lia|]. cbn. by rewrite Hcs.
  - change (begun [_]) with 0 in Hover, Hsmall. exists (S k), false. split; [by right|].
    split; [rewrite begun_app; cbn; lia|]. intros rest Hrest. rewrite map_app, <- app_assoc.
    apply Hpre; [intros; apply Hover; lia|lia|]. cbn. by rewrite Hcs.
Qed.
Lemma extends_trans k open n events g more k' open' :
  (forall rest, ordered maximum over k' open' n rest -> ordered maximum over k open n (map Seen events ++ rest)) ->
  k' + Nat.b2n open' = k + Nat.b2n open + begun events ->
  extends k' open' n g more -> extends k open n g (events ++ more).
Proof.
  intros Hfirst Hcount (k2 & open2 & Hlive & Hcount2 & Hmore). exists k2, open2. split; [done|].
  split; [rewrite begun_app; lia|]. intros rest Hrest. rewrite map_app, <- app_assoc. by apply Hfirst, Hmore.
Qed.
Lemma run_extends input f k open n :
  live f k open ->
  let '(g, events) := run input f in
  (maximum < k + Nat.b2n open + begun events - n -> over) -> (N.of_nat (k + Nat.b2n open + begun events) <= u64_max)%N ->
  extends k open n g events.
Proof.
  revert f k open; induction input as [|b input IH]; intros f k open Hl; cbn [run].
  { intros _ _. exists k, open. split; [by left|]. split; [cbn; lia|done]. }
  pose proof (push_byte_extends b f k open n Hl) as Hb. destruct (push_byte b f) as [g1 e1].
  destruct (run input g1) as [g2 e2] eqn:Erun. intros Hover Hsmall. rewrite begun_app in Hover, Hsmall.
  destruct Hb as (k1 & open1 & Hl1 & Hc1 & Ho1); [intros; apply Hover; lia|lia|].
  apply (extends_trans _ _ _ _ _ _ k1 open1); [done|done|].
  destruct Hl1 as [Hl1|[Hf ->]].
  - specialize (IH g1 k1 open1 Hl1). rewrite Erun in IH. apply IH; [intros; apply Hover; lia|lia].
  - rewrite run_failed in Erun by done. injection Erun as <- <-. exists k1, false. split; [by right|]. split; [cbn; lia|done].
Qed.
Lemma eof_extends f k open n :
  live f k open -> let '(g, events) := Http1Framer.eof f in
  begun events = 0 /\ exists k', k' = k + Nat.b2n open /\
    forall rest, ordered maximum over k' false n rest -> ordered maximum over k open n (map Seen events ++ rest).
Proof.
  intros [Hst _ Hseq Hact Hhead].
  assert (Hclosed : forall events, length events = 1 -> Forall (fun e => exists m, e = Complete (N.of_nat k) m) events \/
      Forall (fun e => exists r, e = Failed (N.of_nat k) r) events -> open = true ->
    begun events = 0 /\ exists k', k' = k + Nat.b2n open /\
    forall rest, ordered maximum over k' false n rest -> ordered maximum over k open n (map Seen events ++ rest)).
  { intros [|e [|]] Hlen He ->; try done. split.
    - destruct He as [[[m ->] _]%Forall_cons|[[r ->] _]%Forall_cons]; done.
    - eexists. split; [done|]. intros rest. cbn [Nat.b2n]. rewrite Nat.add_1_r. intros Hrest.
      destruct He as [[[m ->] _]%Forall_cons|[[r ->] _]%Forall_cons]; done. }
  destruct open.
  - unfold Http1Framer.eof, complete, fail. rewrite Hact, Hseq.
    destruct (st f); cbn -[begun]; try (apply Hclosed; [done|right; repeat constructor; by eexists|done]).
    apply Hclosed; [done|left; repeat constructor; by eexists|done].
  - unfold Http1Framer.eof. rewrite (Hhead eq_refl), Hact. split; [done|]. exists k. split; [cbn; lia|done].
Qed.
End Framed.

(** * The steps of a connection *)

(** The bytes of the reads up to the empty one that ends the stream, and the
    transactions bound, in order. *)
Fixpoint read_stream (steps : list capture_step) : bytes :=
  match steps with
  | [] | CaptureRead [] :: _ | CaptureAbort :: _ => []
  | CaptureRead input :: steps => input ++ read_stream steps
  | CaptureBind _ :: steps => read_stream steps
  end.
Fixpoint stream_ended (steps : list capture_step) : bool :=
  match steps with
  | [] => false
  | CaptureRead [] :: _ | CaptureAbort :: _ => true
  | _ :: steps => stream_ended steps
  end.
Definition bound_by (steps : list capture_step) : list transaction_id :=
  omap (fun x => match x with CaptureBind t => Some t | _ => None end) steps.
Section Steps.
Context (mh mc mr : nat).
Abbreviation fresh := (Http1Framer.new RequestRole mh (mh + mc)).
(** The requests whose first byte is in the bytes read, and whether none can follow. *)
Definition requests_begun (stream : bytes) : nat := begun (Http1Framer.push stream fresh).2.
Definition stopped (steps : list capture_step) : Prop :=
  stream_ended steps = true \/ st (Http1Framer.push (read_stream steps) fresh).1 = FailedState.
(** The engine hands a request over after bytes of it were read. *)
Definition heads_first (steps : list capture_step) : Prop :=
  forall before t after, steps = before ++ CaptureBind t :: after ->
    length (bound_by before) < requests_begun (read_stream before) \/ stopped before.
(** At some point more requests wait for a transaction than the capture keeps. *)
Definition overrun (steps : list capture_step) : Prop :=
  exists before after, steps = before ++ after /\
    mr < requests_begun (read_stream before) - length (bound_by before).

(** The events of the framer and the bindings of some steps, in one sequence. *)
Fixpoint trace_of (f : Http1Framer.t) (ended : bool) (steps : list capture_step) : list traced :=
  match steps with
  | [] => []
  | CaptureRead input :: steps =>
      if ended then trace_of f true steps
      else
        let '(f, events) := Http1Framer.push input f in
        let '(f, more) := if bool_decide (input = []) then Http1Framer.eof f else (f, []) in
        map Seen (events ++ more) ++ trace_of f (bool_decide (input = [])) steps
  | CaptureBind t :: steps => BoundTo t :: trace_of f ended steps
  | CaptureAbort :: steps => trace_of f ended steps
  end.
Definition reframed (f : Http1Framer.t) (ended : bool) (s : RequestCaptureState.t) : RequestCaptureState.t :=
  Make f (records s) (dropped_tail s) (maximum_records s) (enabled s) ended.
Lemma trace_one_reframed f ended x s :
  trace_one x (reframed f ended s) = (reframed f ended (trace_one x s).1, (trace_one x s).2) /\
  enabled (trace_one x s).1 = enabled s.
Proof.
  destruct x as [[n|n m|n e]|t]; cbn [trace_one apply_event]; unfold set_result, bind; cbn [records dropped_tail maximum_records reframed].
  - by destruct (_ || _).
  - destruct (list_find _ _) as [[i r]|]; [|done]. cbn. by destruct (record_transaction r).
  - destruct (list_find _ _) as [[i r]|]; [|done]. cbn. by destruct (record_transaction r).
  - destruct (list_find _ _) as [[i r]|]; [cbn; by destruct (record_result r)|]. by destruct (0 <? _)%N.
Qed.
Lemma apply_events_trace events s : apply_events events s = trace_all (map Seen events) s.
Proof.
  revert s; induction events as [|e events IH]; intros s; cbn; [done|]. destruct (apply_event e s). by rewrite IH.
Qed.
Lemma trace_all_app l l' s :
  trace_all (l ++ l') s = let '(s1, c1) := trace_all l s in let '(s2, c2) := trace_all l' s1 in (s2, c1 ++ c2).
Proof.
  revert s; induction l as [|x l IH]; intros s; cbn; [by destruct (trace_all l' s)|].
  destruct (trace_one x s) as [s1 c1]. rewrite IH. destruct (trace_all l s1) as [s2 c2].
  destruct (trace_all l' s2) as [s3 c3]. by rewrite app_assoc.
Qed.
Lemma trace_all_reframed f ended l s :
  trace_all l (reframed f ended s) = (reframed f ended (trace_all l s).1, (trace_all l s).2).
Proof.
  revert s; induction l as [|x l IH]; intros s; cbn; [done|]. rewrite (proj1 (trace_one_reframed f ended x s)).
  destruct (trace_one x s) as [s1 c1]. cbn. rewrite IH. by destruct (trace_all l s1).
Qed.
Lemma trace_all_enabled l s : enabled (trace_all l s).1 = enabled s.
Proof.
  revert s; induction l as [|x l IH]; intros s; cbn; [done|]. pose proof (proj2 (trace_one_reframed (framer s) true x s)) as Hx.
  destruct (trace_one x s) as [s1 c1]. specialize (IH s1). destruct (trace_all l s1). cbn in *. congruence.
Qed.
Lemma capture_all_trace steps s :
  enabled s = true -> Forall (fun x => x <> CaptureAbort) steps ->
  let '(s', captures) := capture_all steps s in
  exists f ended, (s', captures) = (reframed f ended (trace_all (trace_of (framer s) (at_eof s) steps) s).1,
                                   (trace_all (trace_of (framer s) (at_eof s) steps) s).2).
Proof.
  revert s; induction steps as [|x steps IH]; intros s Hon Hab; cbn [capture_all trace_of].
  { exists (framer s), (at_eof s). by destruct s. }
  apply Forall_cons in Hab as [Hx Hab]. destruct x as [input|t|]; [| |done]; cbn [capture].
  - unfold observe. rewrite Hon. cbn [negb orb]. destruct (at_eof s) eqn:Hend.
    { specialize (IH s Hon Hab). rewrite Hend in IH. by destruct (capture_all steps s). }
    destruct (Http1Framer.push input (framer s)) as [f events]. set (eof := bool_decide (input = [])).
    destruct (if eof then _ else _) as [g more]. cbn [orb].
    replace (Make g _ _ _ _ _) with (reframed g eof s) by (unfold reframed; by rewrite Hon).
    rewrite apply_events_trace, trace_all_reframed, trace_all_app.
    pose proof (trace_all_enabled (map Seen (events ++ more)) s) as Hon1.
    destruct (trace_all (map Seen (events ++ more)) s) as [s1 c1]. cbn [fst snd] in *.
    specialize (IH (reframed g eof s1)). cbn [enabled framer at_eof reframed] in IH. rewrite Hon1 in IH. specialize (IH Hon Hab).
    rewrite trace_all_reframed in IH. destruct (capture_all steps _) as [s2 c2]. destruct IH as (h & ended & Heq).
    injection Heq as -> ->. destruct (trace_all _ s1) as [s3 c3]. by exists h, ended.
  - change (bind t s) with (trace_one (BoundTo t) s). cbn [trace_all].
    pose proof (trace_one_reframed (framer s) (at_eof s) (BoundTo t) s) as [Hre Hon1].
    assert (Hs : reframed (framer s) (at_eof s) s = s) by (by destruct s). rewrite Hs in Hre.
    destruct (trace_one (BoundTo t) s) as [s1 c1]. cbn [fst snd] in *. apply (f_equal fst) in Hre. cbn [fst] in Hre.
    specialize (IH s1). rewrite Hon1 in IH. specialize (IH Hon Hab).
    rewrite (f_equal framer Hre : framer s1 = framer s), (f_equal at_eof Hre : at_eof s1 = at_eof s) in IH.
    destruct (capture_all steps s1) as [s2 c2]. destruct IH as (h & ended & Heq).
    injection Heq as -> ->. destruct (trace_all _ s1) as [s3 c3]. by exists h, ended.
Qed.

Abbreviation no_abort := (Forall (fun x => x <> CaptureAbort)).
Lemma read_stream_app a b :
  no_abort a -> read_stream (a ++ b) = read_stream a ++ (if stream_ended a then [] else read_stream b) /\
    stream_ended (a ++ b) = stream_ended a || stream_ended b.
Proof.
  induction 1 as [|x a Hx _ IH]; [done|]. destruct IH as [IH1 IH2].
  destruct x as [[|c input]|t|]; cbn; [done| |by rewrite IH1, IH2|done]. by rewrite IH1, IH2, app_assoc.
Qed.
Lemma bound_by_app a b : bound_by (a ++ b) = bound_by a ++ bound_by b.
Proof. apply omap_app. Qed.
Lemma run_begun_le role maximum input : begun (run input (Http1Framer.new role mh maximum)).2 <= length input.
Proof.
  pose proof (run_history role mh maximum input) as Hh. destruct (run input _) as [f events].
  destruct Hh as (ms & rest & [Hin Hms _ _ _ _ Hlive Hfail]). cbn [snd].
  assert (Hcount : forall n, begun (message_events maximum n ms) = length ms).
  { clear. induction ms as [|[m i] ms IH]; intros n; [done|]. cbn in *. unfold begun in *. cbn. by rewrite IH. }
  assert (Hlen : length ms <= length (concat (map fst ms))).
  { clear -Hms. induction Hms as [|[m i] ms [Hm _] _ IH]; cbn in *; [done|]. rewrite length_app. destruct m; [done|cbn; lia]. }
  rewrite Hin, length_app. destruct (decide (st f = FailedState)) as [Hf|Hf].
  - destruct (Hfail Hf) as (Hr & e & ->). rewrite begun_app, Hcount. change (begun [_; _]) with 1. destruct rest; [done|cbn; lia].
  - destruct (Hlive Hf) as (_ & _ & _ & _ & ->). rewrite begun_app, Hcount. destruct rest; cbn; lia.
Qed.
Lemma trace_of_bindings f ended steps : ended = true \/ st f = FailedState -> Forall is_binding (trace_of f ended steps).
Proof.
  revert f ended; induction steps as [|x steps IH]; intros f ended Hs; cbn [trace_of]; [done|].
  destruct x as [input|t|]; [|constructor; [done|by apply IH]|by apply IH].
  destruct ended; [by apply IH; left|]. destruct Hs as [?|Hs]; [done|].
  rewrite push_run, run_failed by (done || by rewrite Hs). unfold Http1Framer.eof. rewrite Hs.
  case_bool_decide; cbn; apply IH; by right.
Qed.
(** The framer after some steps, and where its events stand. *)
Record framed (before : list capture_step) (f : Http1Framer.t) (ended : bool) (k : nat) (open : bool) : Prop := {
  framed_ended : stream_ended before = ended;
  framed_closed : ended = true -> open = false;
  framed_run : ended = false -> f = (run (read_stream before) fresh).1 /\
    (live f k open \/ st f = FailedState /\ open = false) /\
    k + Nat.b2n open = requests_begun (read_stream before) }.
Lemma requests_begun_app a b :
  requests_begun (a ++ b) = requests_begun a + begun (run b (run a fresh).1).2.
Proof.
  unfold requests_begun. rewrite !push_run by done. rewrite run_app. destruct (run a fresh) as [f e]. cbn [fst snd].
  destruct (run b f). cbn [fst snd]. by rewrite begun_app.
Qed.
Lemma trace_ordered steps : forall before f ended k open,
  framed before f ended k open -> no_abort (before ++ steps) -> heads_first (before ++ steps) ->
  (lenN (read_stream (before ++ steps)) <= u64_max)%N ->
  ordered mr (overrun (before ++ steps)) k open (length (bound_by before)) (trace_of f ended steps).
Proof.
  induction steps as [|x steps IH]; intros before f ended k open [Hend Hclosed Hrun] Hab Hheads Hsmall; [done|].
  pose proof Hab as [Hbefore Hx]%Forall_app. apply Forall_cons in Hx as [Hx _].
  assert (Happ : before ++ x :: steps = (before ++ [x]) ++ steps) by (by rewrite <- app_assoc).
  assert (Hb1 : no_abort (before ++ [x])) by (apply Forall_app; split; [done|by apply Forall_singleton]).
  cbn [trace_of]. destruct x as [input|t|]; [| |done].
  - assert (Hbound : bound_by (before ++ [CaptureRead input]) = bound_by before) by (rewrite bound_by_app; apply app_nil_r).
    destruct ended.
    { rewrite Happ in *. rewrite <- Hbound. apply IH; [|done..]. destruct (read_stream_app before [CaptureRead input] Hbefore) as [_ He].
      rewrite Hend in He. split; [done|by intros _; apply Hclosed|done]. }
    destruct (Hrun eq_refl) as (Hf & Hlive & Hk). clear Hrun Hclosed.
    destruct (read_stream_app before [CaptureRead input] Hbefore) as [Hr1 He1].
    assert (Hread : read_stream [CaptureRead input] = input) by (destruct input; [done|cbn; by rewrite app_nil_r]).
    rewrite Hend, Hread in Hr1. cbn [orb] in He1. rewrite Hend in He1.
    assert (Hwf : state_wf (st f)) by (destruct Hlive as [[] |[-> _]]; done).
    rewrite push_run by done. destruct (run input f) as [g events] eqn:Erun.
    assert (Hg : g = (run (read_stream (before ++ [CaptureRead input])) fresh).1).
    { rewrite Hr1, run_app. rewrite Hf in Erun. destruct (run (read_stream before) fresh). cbn in Erun. by rewrite Erun. }
    assert (Hb : requests_begun (read_stream (before ++ [CaptureRead input])) = k + Nat.b2n open + begun events).
    { rewrite Hr1, requests_begun_app, <- Hf, Erun, Hk. done. }
    assert (Hext : extends mr (overrun (before ++ CaptureRead input :: steps)) k open (length (bound_by before)) g events).
    { destruct Hlive as [Hlive|[Hfail ->]].
      - pose proof (run_extends mr (overrun (before ++ CaptureRead input :: steps)) input f k open (length (bound_by before)) Hlive) as He.
        rewrite Erun, <- Hb in He. apply He.
        + intros Hover. exists (before ++ [CaptureRead input]), steps. by rewrite Hbound.
        + pose proof (run_begun_le RequestRole (mh + mc) (read_stream (before ++ [CaptureRead input]))) as Hle.
          unfold requests_begun. rewrite push_run by done. rewrite Happ in Hsmall. rewrite (proj1 (read_stream_app _ steps Hb1)) in Hsmall.
          unfold lenN in Hsmall. rewrite length_app in Hsmall. lia.
      - rewrite run_failed in Erun by done. injection Erun as <- <-. exists k, false. split; [by right|]. split; [cbn; lia|done]. }
    destruct Hext as (k1 & open1 & Hlive1 & Hk1 & Hord). rewrite Happ in *. case_bool_decide as Hempty.
    + subst input. cbn in Erun. injection Erun as <- <-. cbn [app].
      assert (Heof : exists h more k2, Http1Framer.eof f = (h, more) /\ k2 = k + Nat.b2n open /\
        forall rest, ordered mr (overrun ((before ++ [CaptureRead []]) ++ steps)) k2 false (length (bound_by before)) rest ->
          ordered mr (overrun ((before ++ [CaptureRead []]) ++ steps)) k open (length (bound_by before)) (map Seen more ++ rest)).
      { destruct Hlive as [Hlive|[Hfail ->]].
        - pose proof (eof_extends mr (overrun ((before ++ [CaptureRead []]) ++ steps)) f k open (length (bound_by before)) Hlive) as He.
          destruct (Http1Framer.eof f) as [h more]. destruct He as (_ & k2 & He). by exists h, more, k2.
        - unfold Http1Framer.eof. rewrite Hfail. exists f, [], k. split; [done|]. split; [cbn; lia|done]. }
      destruct Heof as (h & more & k2 & -> & _ & Hmore). apply Hmore. rewrite <- Hbound. apply IH; [|done..].
      split; [by rewrite He1|done|done].
    + rewrite app_nil_r. apply Hord. rewrite <- Hbound. apply IH; [|done..]. split; [|done|].
      * rewrite He1. by destruct input.
      * intros _. split; [done|]. split; [done|]. by rewrite Hb, Hk1.
  - assert (Hbound : bound_by (before ++ [CaptureBind t]) = bound_by before ++ [t]) by apply bound_by_app.
    destruct (read_stream_app before [CaptureBind t] Hbefore) as [Hr1 He1].
    replace (if stream_ended before then _ else _) with (@nil u8) in Hr1 by (by destruct (stream_ended before)).
    rewrite app_nil_r in Hr1. cbn [stream_ended] in He1. rewrite orb_false_r in He1.
    split.
    + pose proof (Hheads before t steps eq_refl) as Ht. destruct ended.
      { right. split; [by apply Hclosed|]. apply trace_of_bindings. by left. }
      destruct (Hrun eq_refl) as (Hf & Hlive & Hk). destruct Ht as [Ht|[Ht|Ht]]; [left; lia|congruence|].
      rewrite push_run, <- Hf in Ht by done. right. split; [|by apply trace_of_bindings; right].
      by destruct Hlive as [[] |[_ ->]].
    + rewrite Happ in *. replace (S (length (bound_by before))) with (length (bound_by (before ++ [CaptureBind t])))
        by (rewrite Hbound, length_app; cbn; lia).
      apply IH; [|done..]. split; [by rewrite He1|done|]. by rewrite Hr1.
Qed.
Lemma bindings_of_app l l' : bindings_of (l ++ l') = bindings_of l ++ bindings_of l'.
Proof. apply omap_app. Qed.
Lemma bindings_of_events events : bindings_of (map Seen events) = [].
Proof. induction events; [done|]. done. Qed.
Lemma results_of_app l l' : results_of (l ++ l') = results_of l ++ results_of l'.
Proof. apply omap_app. Qed.
Lemma results_of_events events : results_of (map Seen events) = omap result_of events.
Proof. induction events as [|e events IH]; [done|]. cbn. destruct (result_of e); cbn; by rewrite <- IH. Qed.
Lemma results_of_bindings l : Forall is_binding l -> results_of l = [].
Proof. induction 1 as [|[e|t] l Hx _ IH]; done. Qed.
Lemma trace_of_bound f ended steps : bindings_of (trace_of f ended steps) = bound_by steps.
Proof.
  revert f ended; induction steps as [|x steps IH]; intros f ended; [done|]. cbn [trace_of].
  destruct x as [input|t|]; [|exact (f_equal (cons t) (IH f ended))|apply IH].
  destruct ended; [apply IH|]. destruct (Http1Framer.push input f) as [g events].
  destruct (if bool_decide _ then _ else _) as [h more]. by rewrite bindings_of_app, bindings_of_events, IH.
Qed.
Lemma trace_of_results f steps :
  state_wf (st f) -> no_abort steps ->
  results_of (trace_of f false steps)
  = omap result_of ((run (read_stream steps) f).2 ++
                    if stream_ended steps then (Http1Framer.eof (run (read_stream steps) f).1).2 else []).
Proof.
  intros Hwf Hab; revert f Hwf; induction Hab as [|x steps Hx _ IH]; intros f Hwf; [done|].
  destruct x as [input|t|]; [|by apply IH|done]. cbn [trace_of]. rewrite push_run by done.
  pose proof (run_wf input f Hwf) as Hwf1. destruct input as [|b input].
  - cbn [run]. rewrite bool_decide_true by done. cbn [read_stream stream_ended run fst snd app].
    destruct (Http1Framer.eof f) as [h more]. rewrite results_of_app, results_of_events.
    rewrite (results_of_bindings (trace_of _ _ _)) by (apply trace_of_bindings; by left). apply app_nil_r.
  - rewrite bool_decide_false by done. cbn [read_stream stream_ended]. rewrite run_app.
    destruct (run (b :: input) f) as [g events]. cbn [fst] in Hwf1. rewrite app_nil_r, results_of_app, results_of_events, IH by done.
    destruct (run (read_stream steps) g) as [h later]. cbn [fst snd]. rewrite <- app_assoc. by rewrite (omap_app _ events).
Qed.
Lemma omap_message_events maximum n ms :
  omap result_of (message_events maximum n ms) = map (fun m => Ok (captured maximum m.1 m.2)) ms.
Proof. revert n; induction ms as [|[m i] ms IH]; intros n; [done|]. cbn. by rewrite <- (IH (sat_add n 1)). Qed.
(** A request never ends with its connection. *)
Lemma request_not_close_delimited h : parse_head h RequestRole <> Ok BodyCloseDelimited.
Proof.
  unfold parse_head. intros H. apply bind_Ok in H as (c & _ & H).
  destruct (split_on LF c); [done|]. case_bool_decide; [done|].
  apply bind_Ok in H as ([cls tes] & _ & H). case_match; [done|].
  apply bind_Ok in H as (chunked & _ & H). apply bind_Ok in H as (length & _ & H).
  by destruct chunked, length.
Qed.
Lemma stream_results steps :
  no_abort steps -> exists ms rest tail, read_stream steps = concat (map fst ms) ++ rest /\
    Forall (fun m => message mh RequestRole m.1 m.2) ms /\
    (forall i m informational, message_at mh RequestRole (read_stream steps) i m informational -> ms !! i = Some (m, informational)) /\
    results_of (trace_of fresh false steps) = map (fun m => Ok (captured (mh + mc) m.1 m.2)) ms ++ tail /\
    Forall (fun r => exists reason, r = Err reason) tail.
Proof.
  intros Hab. rewrite trace_of_results by done. pose proof (run_history RequestRole mh (mh + mc) (read_stream steps)) as Hh.
  destruct (run (read_stream steps) fresh) as [f events] eqn:Erun. destruct Hh as (ms & rest & Hh).
  pose proof Hh as [Hin Hms _ _ _ _ Hlive Hfail]. exists ms, rest.
  assert (Htail : exists tail, omap result_of (events ++ if stream_ended steps then (Http1Framer.eof f).2 else [])
      = map (fun m => Ok (captured (mh + mc) m.1 m.2)) ms ++ tail /\ Forall (fun r => exists reason, r = Err reason) tail).
  { destruct (decide (st f = FailedState)) as [Hf|Hf].
    - destruct (Hfail Hf) as (_ & e & ->). exists [Err (show_framing_error e)]. split; [|repeat constructor; by eexists].
      unfold Http1Framer.eof. rewrite Hf. replace (if stream_ended steps then _ else _) with (@nil framer_event) by (by destruct (stream_ended steps)).
      rewrite app_nil_r, omap_app, omap_message_events. done.
    - destruct (Hlive Hf) as (_ & Ha & _ & Hp & ->). destruct (stream_ended steps).
      + assert (Heof : exists tail, omap result_of (Http1Framer.eof f).2 = tail /\ Forall (fun r => exists reason, r = Err reason) tail).
        { eexists. split; [done|]. unfold Http1Framer.eof. destruct (st f); cbn; try (repeat constructor; by eexists).
          - destruct (active f); repeat constructor. by eexists.
          - inversion Hp as [| | | | | | |hd h b (_ & _ & Hd)]. by apply request_not_close_delimited in Hd. }
        destruct Heof as (tail & He & Ht). exists tail. split; [|done]. rewrite !omap_app, omap_message_events, He. by destruct (bool_decide _); cbn; rewrite app_nil_r.
      + exists []. rewrite !app_nil_r, omap_app, omap_message_events. split; [|done]. destruct (bool_decide _); apply app_nil_r. }
  destruct Htail as (tail & Htail & Herr). exists tail. split; [done|].
  split; [eapply Forall_impl; [exact Hms|]; by intros ? []|]. split; [|done].
  intros i m informational (before & rest' & Heq & Hi & Hbefore & Hm).
  assert (Hp : prefix (before ++ [(m, informational)]) ms).
  { eapply (history_begins mh (mh + mc) RequestRole _ rest'); [apply Forall_app; split; [done|by apply Forall_singleton]| |].
    - rewrite map_app, concat_app. cbn. rewrite app_nil_r, <- app_assoc, <- Heq. exact Erun.
    - rewrite map_app, concat_app. cbn. rewrite app_nil_r, <- app_assoc, <- Heq. exact Hh. }
  destruct Hp as [later ->]. rewrite <- app_assoc, <- Hi. by apply list_lookup_middle.
Qed.
Lemma capture_all_app a b s :
  capture_all (a ++ b) s = let '(s1, c1) := capture_all a s in let '(s2, c2) := capture_all b s1 in (s2, c1 ++ c2).
Proof.
  revert s; induction a as [|x a IH]; intros s; cbn; [by destruct (capture_all b s)|].
  destruct (capture x s) as [s1 c1]. rewrite IH. destruct (capture_all a s1) as [s2 c2].
  destruct (capture_all b s2) as [s3 c3]. by rewrite app_assoc.
Qed.
(** C32. What the wire capture publishes for a request is that request.  Whatever the
    reads of a connection cut its bytes into and however the transactions of its
    requests are interleaved with them, when the engine hands a request over after bytes
    of it were read: once the capture ends, every transaction has one capture, in the
    order they were bound; if the [i]-th message of the bytes read is complete then the
    [i]-th capture is the bounded prefix of its bytes with its size, unless more
    requests were waiting than the capture keeps, which it reports as such; and a
    capture with bytes is nothing else than that. *)
Theorem captures_follow_their_requests (steps : list capture_step) :
  no_abort steps -> heads_first steps -> (lenN (read_stream steps) <= u64_max)%N ->
  let captures := (capture_all (steps ++ [CaptureAbort]) (RequestCaptureState.new mh mc mr)).2 in
  length captures = length (bound_by steps) /\
  forall i t, bound_by steps !! i = Some t -> exists c, captures !! i = Some c /\
    (forall m informational, message_at mh RequestRole (read_stream steps) i m informational ->
       c = CaptureComplete t (captured (mh + mc) m informational) \/ overrun steps /\ c = CaptureFailed t limit_exceeded) /\
    match c with
    | CaptureComplete t' w => t' = t /\ exists m informational,
        message_at mh RequestRole (read_stream steps) i m informational /\ w = captured (mh + mc) m informational
    | CaptureFailed t' _ => t' = t
    end.
Proof.
  intros Hab Hheads Hsmall. cbv zeta. rewrite capture_all_app.
  pose proof (capture_all_trace steps (RequestCaptureState.new mh mc mr) eq_refl Hab) as Hcap.
  destruct (capture_all steps _) as [s1 c1]. destruct Hcap as (g & ended & [= -> ->]). cbn [framer at_eof RequestCaptureState.new].
  assert (Hord : ordered mr (overrun steps) 0 false 0 (trace_of fresh false steps)).
  { apply (trace_ordered steps [] fresh false 0 false); [|done..]. split; [done|done|]. intros _. split; [done|].
    split; [|done]. left. by split. }
  apply (correlated_new mr _ _ (RequestCaptureState.new mh mc mr)) in Hord; [|done..].
  apply trace_correlated in Hord. destruct (trace_all _ _) as [s captures]. destruct Hord as (open & Hc).
  rewrite trace_of_bound in Hc. cbn [app] in Hc. destruct (abort_settles _ _ _ _ _ _ _ Hc) as (last & Hlast & Hlen & Hall).
  cbn [fst snd capture_all capture]. change (abort (reframed g ended s)).2 with (abort s).2.
  destruct (abort (reframed g ended s)) as [s2 c2] eqn:Eab.
  assert (c2 = last) as -> by (rewrite <- Hlast; change (abort s).2 with (abort (reframed g ended s)).2; by rewrite Eab).
  cbn [snd]. rewrite app_nil_r. split; [done|]. intros i t Ht.
  destruct (lookup_lt_is_Some_2 (captures ++ last) i) as [c Hi]; [rewrite Hlen; by eapply lookup_lt_Some|].
  exists c. split; [done|]. specialize (Hall i t c Hi Ht).
  destruct (stream_results steps Hab) as (ms & rest & tail & Hin & Hms & Hat & Hres & Herr). rewrite Hres in Hall.
  split.
  - intros m informational Hm%Hat.
    assert (Hok : (map (fun m => Ok (captured (mh + mc) m.1 m.2)) ms ++ tail) !! i = Some (Ok (captured (mh + mc) m informational) : result bytes wire_message)).
    { apply lookup_app_l_Some. rewrite (list_lookup_fmap (fun m => Ok (captured (mh + mc) m.1 m.2)) ms i). by rewrite Hm. }
    destruct c as [t' w|t' reason]; cbn [reports] in Hall.
    + left. destruct Hall as [[-> Hw]|[? _]]; [|done]. rewrite Hok in Hw. by injection Hw as ->.
    + right. destruct Hall as [[-> [He|[[-> Hover]|[_ Hge]]]]|[_ Hnone]]; [congruence|done| |congruence].
      apply lookup_lt_Some in Hok. lia.
  - destruct c as [t' w|t' reason]; [|by destruct Hall as [[-> _]|[[= -> _] _]]].
    destruct Hall as [[-> Hw]|[? _]]; [|done]. split; [done|].
    apply lookup_app_Some in Hw as [Hw|[_ Hw]].
    + apply (list_lookup_fmap_Some (fun m => Ok (captured (mh + mc) m.1 m.2)) ms i) in Hw as ([m informational] & [= ->] & Hm).
      exists m, informational. split; [|done]. exists (take i ms), (concat (map fst (drop (S i) ms)) ++ rest).
      rewrite <- (take_drop_middle ms i (m, informational) Hm), map_app, concat_app in Hin. cbn in Hin.
      rewrite <- !app_assoc in Hin. split; [done|]. split; [rewrite length_take; apply lookup_lt_Some in Hm; lia|].
      split; [by apply Forall_take|]. exact (Forall_lookup_1 _ ms i _ Hms Hm).
    + eapply Forall_lookup_1 in Hw; [|done]. by destruct Hw.
Qed.
End Steps.

(** * Responses *)

Section Responses.
Context (mh mc : nat) (was_head was_connect : bool).
Abbreviation role := (ResponseRole (ResponseContext was_head was_connect)).
Abbreviation maximum := (mh + mc).
Abbreviation fresh := (Http1Framer.new role mh maximum).
Abbreviation informational := (Forall (fun m : bytes * bool => m.2 = true)).
(** The report on a response whose bytes, those of the interim responses before it
    included, are [p]. *)
Definition whole (p : bytes) : wire_report :=
  WireCaptured (take maximum p) (N.min (lenN p) u64_max) (bool_decide (maximum < length p)).
Record gathered (c : ResponseCapture.t) (cur : bytes) : Prop := {
  gathered_limit : ResponseCapture.maximum_capture_bytes c = maximum;
  gathered_retained : ResponseCapture.retained c = take maximum cur;
  gathered_observed : ResponseCapture.observed c = N.min (lenN cur) u64_max;
  gathered_truncated : ResponseCapture.truncated c = bool_decide (maximum < length cur);
  gathered_open : ResponseCapture.terminal c = false }.
Lemma gathered_whole c cur :
  gathered c cur ->
  WireCaptured (ResponseCapture.retained c) (ResponseCapture.observed c) (ResponseCapture.truncated c) = whole cur.
Proof. by intros [_ -> -> -> _]. Qed.
Lemma append_gathered c cur m i : gathered c cur -> gathered (ResponseCapture.append (captured maximum m i) c) (cur ++ m).
Proof.
  intros [Hm Hr Ho Ht Hopen]. unfold ResponseCapture.append, captured. cbn [message_bytes message_observed message_truncated].
  rewrite Hm, Hr, Ho, Ht, !length_take. split; cbn [ResponseCapture.maximum_capture_bytes ResponseCapture.retained
    ResponseCapture.observed ResponseCapture.truncated ResponseCapture.terminal]; [done| | | |done].
  - rewrite take_app, take_take. f_equal. destruct (decide (maximum - length cur <= length m)); [f_equal; lia|by rewrite !take_ge by lia].
  - unfold sat_add, lenN. rewrite length_app. lia.
  - rewrite length_app. apply eq_bool_prop_intro. rewrite !orb_True, !bool_decide_spec. lia.
Qed.
Lemma apply_events_app e e' c :
  ResponseCapture.apply_events (e ++ e') c
  = let '(c1, r1) := ResponseCapture.apply_events e c in
    let '(c2, r2) := ResponseCapture.apply_events e' c1 in (c2, r1 ++ r2).
Proof.
  revert c; induction e as [|x e IH]; intros c; cbn; [by destruct (ResponseCapture.apply_events e' c)|].
  destruct (ResponseCapture.apply_event x c) as [c1 r1]. rewrite IH.
  destruct (ResponseCapture.apply_events e c1) as [c2 r2]. destruct (ResponseCapture.apply_events e' c2). by rewrite app_assoc.
Qed.
Lemma terminal_stays events c :
  ResponseCapture.terminal c = true -> ResponseCapture.terminal (ResponseCapture.apply_events events c).1 = true.
Proof.
  revert c; induction events as [|e events IH]; intros c Hc; cbn; [done|].
  assert (Hnext : ResponseCapture.terminal (ResponseCapture.apply_event e c).1 = true).
  { destruct e as [n|n m|n e]; cbn; [done| |done]. by destruct (message_informational m). }
  destruct (ResponseCapture.apply_event e c) as [c1 r1]. specialize (IH c1 Hnext). by destruct (ResponseCapture.apply_events events c1).
Qed.
Lemma apply_interim n ms c cur :
  gathered c cur -> informational ms ->
  exists c', ResponseCapture.apply_events (message_events maximum n ms) c = (c', []) /\ gathered c' (cur ++ concat (map fst ms)).
Proof.
  intros Hc Hms; revert n c cur Hc; induction Hms as [|[m i] ms Hi _ IH]; intros n c cur Hc; cbn.
  { exists c. by rewrite app_nil_r. }
  cbn in Hi. subst i. cbn. apply (append_gathered c cur m true) in Hc. destruct (IH (sat_add n 1) _ _ Hc) as (c' & -> & Hc').
  exists c'. split; [done|]. by rewrite app_assoc.
Qed.
Lemma split_informational (ms : list (bytes * bool)) :
  informational ms \/ exists interim m later, ms = interim ++ (m, false) :: later /\ informational interim.
Proof.
  induction ms as [|[m []] ms [IH|(interim & m' & later & -> & IH)]]; [by left|left|right|right|right].
  - by constructor.
  - exists ((m, true) :: interim), m', later. split; [done|by constructor].
  - by exists [], m, ms.
  - by exists [], m, (interim ++ (m', false) :: later).
Qed.
Lemma message_events_app n ms ns :
  message_events maximum n (ms ++ ns) = message_events maximum n ms ++ message_events maximum (next_sequence n ms) ns.
Proof. revert n; induction ms as [|[m i] ms IH]; intros n; cbn; [done|]. by rewrite IH. Qed.
(** The reports on the events of the bytes [p]. *)
Lemma apply_history p f events ms rest c :
  Framing.history role mh maximum p f events ms rest -> gathered c [] ->
  let '(c', reports) := ResponseCapture.apply_events events c in
  (gathered c' (concat (map fst ms)) /\ reports = [] /\ informational ms /\ st f <> FailedState) \/
  (ResponseCapture.terminal c' = true /\ exists interim m later more, ms = interim ++ (m, false) :: later /\ informational interim /\
     reports = whole (concat (map fst interim) ++ m) :: more /\ (later = [] -> rest = [] -> more = [])) \/
  (ResponseCapture.terminal c' = true /\ informational ms /\ st f = FailedState /\ exists reason, reports = [WireFailed reason]).
Proof.
  intros [_ _ _ _ _ _ Hlive Hfail] Hc.
  assert (Hev : exists tail, events = message_events maximum 0 ms ++ tail /\
    (st f = FailedState /\ (exists e, tail = [Started (next_sequence 0 ms); Failed (next_sequence 0 ms) e]) /\ rest <> [] \/
     st f <> FailedState /\ (tail = [] \/ rest <> [] /\ tail = [Started (next_sequence 0 ms)]))).
  { destruct (decide (st f = FailedState)) as [Hf|Hf].
    - destruct (Hfail Hf) as (Hr & e & ->). eexists. split; [done|]. left. split; [done|]. split; [by exists e|done].
    - destruct (Hlive Hf) as (_ & _ & _ & _ & ->). eexists. split; [done|]. right. split; [done|]. case_bool_decide; [by left|by right]. }
  destruct Hev as (tail & -> & Htail). rewrite apply_events_app.
  destruct (split_informational ms) as [Hms|(interim & m & later & -> & Hms)].
  - destruct (apply_interim 0 ms c [] Hc Hms) as (c1 & -> & Hc1). cbn [app].
    destruct Htail as [(Hf & [e ->] & _)|(Hf & [->|(_ & ->)])]; cbn; [right; right|by left..].
    split; [done|]. split; [done|]. split; [done|]. by eexists.
  - rewrite message_events_app, apply_events_app. destruct (apply_interim 0 interim c [] Hc Hms) as (c1 & -> & Hc1).
    apply (append_gathered _ _ m false) in Hc1. cbn [message_events ResponseCapture.apply_events ResponseCapture.apply_event].
    cbn [captured message_informational]. rewrite (gathered_whole _ _ Hc1).
    set (c2 := ResponseCapture.finish [] _). assert (Hterm : ResponseCapture.terminal c2 = true) by done.
    apply (terminal_stays (message_events maximum (sat_add (next_sequence 0 interim) 1) later)) in Hterm.
    assert (Hnone : later = [] -> ResponseCapture.apply_events (message_events maximum (sat_add (next_sequence 0 interim) 1) later) c2 = (c2, []))
      by (by intros ->).
    destruct (ResponseCapture.apply_events (message_events _ _ later) c2) as [c3 r3]. cbn [fst] in Hterm.
    apply (terminal_stays tail) in Hterm. destruct (ResponseCapture.apply_events tail c3) as [c4 r4] eqn:E4. cbn [fst] in Hterm.
    right. left. split; [done|]. exists interim, m, later, (r3 ++ r4). split; [done|]. split; [done|]. split; [done|].
    intros Hl Hr. specialize (Hnone Hl). injection Hnone as -> ->.
    destruct Htail as [(_ & _ & ?)|(_ & [->|(? & _)])]; [done| |done]. by injection E4 as _ <-.
Qed.
Definition refit (f : Http1Framer.t) (c : ResponseCapture.t) : ResponseCapture.t :=
  ResponseCapture.Make f (ResponseCapture.maximum_capture_bytes c) (ResponseCapture.retained c) (ResponseCapture.observed c)
    (ResponseCapture.truncated c) (ResponseCapture.terminal c).
Lemma apply_events_refit f events c :
  ResponseCapture.apply_events events (refit f c)
  = (refit f (ResponseCapture.apply_events events c).1, (ResponseCapture.apply_events events c).2).
Proof.
  revert c; induction events as [|e events IH]; intros c; cbn; [done|].
  assert (Hone : ResponseCapture.apply_event e (refit f c)
    = (refit f (ResponseCapture.apply_event e c).1, (ResponseCapture.apply_event e c).2)).
  { destruct e as [n|n m|n e]; cbn; [done| |done]. by destruct (message_informational m). }
  rewrite Hone. destruct (ResponseCapture.apply_event e c) as [c1 r1]. cbn. rewrite IH. by destruct (ResponseCapture.apply_events events c1).
Qed.
Lemma observe_terminal reads c : ResponseCapture.terminal c = true -> ResponseCapture.observe_all reads c = (c, []).
Proof.
  intros Hc. induction reads as [|x reads IH]; cbn.
  - unfold ResponseCapture.abort. by rewrite Hc.
  - unfold ResponseCapture.observe. by rewrite Hc, IH.
Qed.
Abbreviation start := (ResponseCapture.new mh mc was_head was_connect).
Lemma start_gathered : gathered start [].
Proof. split; cbn; rewrite ?take_nil; done. Qed.
(** The reads up to the one that settles the capture, or all of them. *)
Lemma observe_chunks chunks last p f events c :
  Forall (fun x => x <> []) chunks -> run p fresh = (f, events) -> ResponseCapture.apply_events events start = (c, []) ->
  ResponseCapture.terminal c = false ->
  let reports := (ResponseCapture.observe_all (chunks ++ last) (refit f c)).2 in
  exists p' q f' events' c' r, p ++ concat chunks = p' ++ q /\ run p' fresh = (f', events') /\
    ResponseCapture.apply_events events' start = (c', r) /\
    ((ResponseCapture.terminal c' = true /\ reports = r) \/
     (ResponseCapture.terminal c' = false /\ q = [] /\ r = [] /\ reports = (ResponseCapture.observe_all last (refit f' c')).2)).
Proof.
  intros Hne; revert p f events c; induction Hne as [|x chunks Hx _ IH]; intros p f events c Hrun Happ Hopen; cbv zeta.
  { exists p, [], f, events, c, []. split; [done|]. split; [done|]. split; [done|]. by right. }
  cbn [app ResponseCapture.observe_all concat]. rewrite bool_decide_false by done. unfold ResponseCapture.observe.
  cbn [refit ResponseCapture.terminal ResponseCapture.framer]. rewrite Hopen.
  assert (Hwf : state_wf (st f)) by (pose proof (run_wf p fresh I) as Hw; by rewrite Hrun in Hw).
  rewrite push_run by done. destruct (run x f) as [g e] eqn:Ex.
  assert (Hrun' : run (p ++ x) fresh = (g, events ++ e)) by (by rewrite run_app, Hrun, Ex).
  pose proof (run_history role mh maximum (p ++ x)) as Hh. rewrite Hrun' in Hh. destruct Hh as (ms & rest & Hh).
  pose proof (apply_history _ _ _ _ _ start Hh start_gathered) as Hnext.
  assert (Happ' : ResponseCapture.apply_events (events ++ e) start
    = ((ResponseCapture.apply_events e c).1, (ResponseCapture.apply_events e c).2)).
  { rewrite apply_events_app, Happ. by destruct (ResponseCapture.apply_events e c). }
  rewrite Happ' in Hnext.
  match goal with |- context [ResponseCapture.apply_events (e ++ []) ?c0] =>
    replace c0 with (refit g c) by (unfold refit; by rewrite Hopen) end.
  rewrite app_nil_r, apply_events_refit. destruct (ResponseCapture.apply_events e c) as [c1 r1]. cbn [fst snd] in *.
  assert (Hcase : ResponseCapture.terminal c1 = false /\ r1 = [] \/ ResponseCapture.terminal c1 = true).
  { destruct Hnext as [([] & -> & _)|[[? _]|[? _]]]; [by left|by right..]. }
  destruct Hcase as [[Hc1 ->]|Hc1].
  - specialize (IH (p ++ x) g (events ++ e) c1 Hrun' Happ' Hc1). cbv zeta in IH. rewrite <- app_assoc in IH.
    by destruct (ResponseCapture.observe_all (chunks ++ last) (refit g c1)).
  - rewrite observe_terminal by done. exists (p ++ x), (concat chunks), g, (events ++ e), c1, r1.
    rewrite <- app_assoc. split; [done|]. split; [done|]. split; [done|]. left. cbn. by rewrite app_nil_r.
Qed.
(** The interim responses and the final one that a stream begins with. *)
Definition tag (interim : list bytes) : list (bytes * bool) := map (fun m => (m, true)) interim.
Definition responds (stream : bytes) (interim : list bytes) (final rest : bytes) : Prop :=
  stream = concat interim ++ final ++ rest /\ Forall (fun m => message mh role m true) interim /\ message mh role final false.
Lemma tag_spec interim : map fst (tag interim) = interim /\ informational (tag interim) /\
  (Forall (fun m => message mh role m true) interim <-> Forall (fun m => message mh role m.1 m.2) (tag interim)).
Proof.
  induction interim as [|m interim (IH1 & IH2 & IH3)]; [done|]. unfold tag in *. cbn. rewrite IH1. split; [done|].
  split; [by constructor|]. rewrite !Forall_cons, IH3. done.
Qed.
Lemma informational_tag ms : informational ms -> ms = tag (map fst ms).
Proof. induction 1 as [|[m i] ms Hi _ IH]; [done|]. cbn in *. unfold tag in *. by rewrite Hi, <- IH. Qed.
Lemma prefix_tag l l' a b : prefix (tag l ++ [(a, false)]) (tag l' ++ [(b, false)]) -> l = l' /\ a = b.
Proof.
  revert l'; induction l as [|z l IH]; intros [|z' l'] Hp; cbn in Hp; pose proof (prefix_cons_inv_1 _ _ _ _ Hp) as Hz; try done.
  - by injection Hz as ->.
  - injection Hz as ->. apply prefix_cons_inv_2 in Hp. by destruct (IH l' Hp) as [-> ->].
Qed.
Lemma responds_messages stream interim final rest :
  responds stream interim final rest ->
  stream = concat (map fst (tag interim ++ [(final, false)])) ++ rest /\ Forall (fun m => message mh role m.1 m.2) (tag interim ++ [(final, false)]).
Proof.
  intros (-> & Hi & Hf). destruct (tag_spec interim) as (H1 & _ & H3). rewrite map_app, H1, concat_app. cbn.
  rewrite app_nil_r, <- app_assoc. split; [done|]. apply Forall_app. split; [by apply H3|by apply Forall_singleton].
Qed.
Lemma responds_unique stream interim final rest interim' final' rest' :
  responds stream interim final rest -> responds stream interim' final' rest' -> interim = interim' /\ final = final' /\ rest = rest'.
Proof.
  intros H1 H2. pose proof (responds_messages _ _ _ _ H1) as [He1 Hm1]. pose proof (responds_messages _ _ _ _ H2) as [He2 Hm2].
  rewrite He1 in He2. assert (interim = interim' /\ final = final') as [-> ->].
  { destruct (messages_agree mh maximum role _ _ _ _ Hm1 Hm2 He2) as [Hp|Hp]; apply prefix_tag in Hp as [-> ->]; done. }
  by apply app_inv_head in He2.
Qed.
(** A stream that fails or stays open after interim responses alone has no final one. *)
Lemma no_final stream f events ms rest interim final rest' :
  run stream fresh = (f, events) -> Framing.history role mh maximum stream f events ms rest -> informational ms ->
  responds stream interim final rest' -> False.
Proof.
  intros Hrun Hh Hms Hr. pose proof (responds_messages _ _ _ _ Hr) as [He Hm]. rewrite He in Hrun, Hh.
  destruct (history_begins mh maximum role _ rest' ms rest f events Hm Hrun Hh) as [later ->].
  apply Forall_app in Hms as [[_ Hms]%Forall_app _]. by apply Forall_inv in Hms.
Qed.
(** The end of the stream, when nothing settled the capture before. *)
Lemma observe_end f c p events ms rest :
  run p fresh = (f, events) -> Framing.history role mh maximum p f events ms rest -> st f <> FailedState ->
  gathered c (concat (map fst ms)) -> informational ms ->
  exists r, (ResponseCapture.observe_all [[]] (refit f c)).2 = [r] /\
    ((exists reason, r = WireFailed reason) \/
     r = whole (concat (map fst ms) ++ rest) /\ exists h b, rest = h ++ b /\ head_of mh role h BodyCloseDelimited).
Proof.
  intros Hrun Hh Hf Hc Hms. destruct Hh as [_ _ Hlim _ _ _ Hlive _]. destruct (Hlive Hf) as (Hwf & Hact & Htr & Hp & _).
  cbn [ResponseCapture.observe_all]. rewrite bool_decide_true by done. unfold ResponseCapture.observe.
  cbn [refit ResponseCapture.terminal ResponseCapture.framer]. rewrite (gathered_open _ _ Hc). cbn [Http1Framer.push Http1Framer.push_loop length].
  assert (Hopen : ResponseCapture.terminal c = false) by apply (gathered_open _ _ Hc).
  assert (Hend : (exists e, Http1Framer.eof f = fail e f) \/ Http1Framer.eof f = (f, []) \/
    (Http1Framer.eof f = complete false f /\ exists h b, rest = h ++ b /\ head_of mh role h BodyCloseDelimited)).
  { unfold Http1Framer.eof. destruct (st f) eqn:Est; try done; try (by left; eexists).
    - destruct (active f); [by left; eexists|by right; left].
    - right. right. split; [done|]. inversion Hp as [| | | | | | |hd h b Hd]. by exists h, b. }
  destruct Hend as [[e ->]|[->|[-> Hclose]]]; cbn [fail complete app ResponseCapture.apply_events ResponseCapture.apply_event].
  - eexists. split; [done|]. left. by eexists.
  - eexists. split; [done|]. left. by eexists.
  - destruct Htr as [T1 T2 T3]. rewrite T1, T2, T3, Hlim.
    change (WireMessage _ _ _ false) with (captured maximum rest false). cbn [captured message_informational].
    match goal with |- context [ResponseCapture.append _ ?c0] => assert (Hc0 : gathered c0 (concat (map fst ms))) by (by destruct Hc) end.
    rewrite (gathered_whole _ _ (append_gathered _ _ rest false Hc0)). eexists. split; [done|]. by right.
Qed.
(** C34. What the wire capture publishes for a response is a prefix of the bytes read,
    whatever the reads cut them into.  Something is published.  If the bytes read begin
    with interim responses and a final one, the first publication is the bounded prefix
    of those responses with their size, and the only one if nothing was read beyond
    them.  And bytes are first published of nothing else, except of a response that the
    end of the stream delimits. *)
Theorem response_captures_are_prefixes (chunks : list bytes) (ended : bool) :
  Forall (fun x => x <> []) chunks ->
  let stream := concat chunks in
  exists r more, (ResponseCapture.observe_all (chunks ++ if ended then [[]] else []) (ResponseCapture.new mh mc was_head was_connect)).2 = r :: more /\
    (forall interim final rest, responds stream interim final rest ->
       r = whole (concat interim ++ final) /\ (rest = [] -> more = [])) /\
    ((exists reason, r = WireFailed reason) \/
     (exists interim final rest, responds stream interim final rest /\ r = whole (concat interim ++ final)) \/
     (ended = true /\ more = [] /\ r = whole stream /\ exists interim h b, stream = concat interim ++ h ++ b /\
        Forall (fun m => message mh role m true) interim /\ head_of mh role h BodyCloseDelimited)).
Proof.
  intros Hne. cbv zeta. set (last := if ended then _ else _).
  destruct (observe_chunks chunks last [] fresh [] start Hne eq_refl eq_refl eq_refl)
    as (p & q & f & events & c & reports & Heq & Hrun & Happ & Hcase). cbn [app] in Heq. rewrite Heq.
  assert (Hrefit : refit fresh start = start) by done. rewrite Hrefit in Hcase.
  pose proof (run_history role mh maximum p) as Hh. rewrite Hrun in Hh. destruct Hh as (ms & rest & Hh).
  pose proof (apply_history _ _ _ _ _ start Hh start_gathered) as Hreports. rewrite Happ in Hreports.
  assert (Hin : p = concat (map fst ms) ++ rest /\ Forall (fun m => message mh role m.1 m.2) ms).
  { destruct Hh as [Hin Hms _ _ _ _ _ _]. split; [done|]. eapply Forall_impl; [exact Hms|]. by intros ? []. }
  destruct Hin as [Hin Hmsg].
  destruct Hreports as [(Hc & -> & Hms & Hf)|[(Hterm & interim & m & later & more & -> & Hms & -> & Hlast)|(Hterm & Hms & Hf & reason & ->)]].
  - rewrite (gathered_open _ _ Hc) in Hcase. destruct Hcase as [[? _]|(_ & -> & _ & ->)]; [done|]. rewrite app_nil_r.
    assert (Hnone : forall interim final rest', ~ responds p interim final rest') by (intros ? ? ? ?; by eapply no_final).
    subst last. destruct ended.
    + destruct (observe_end f c p events ms rest Hrun Hh Hf Hc Hms) as (r & -> & Hr). exists r, []. split; [done|].
      split; [intros ? ? ? Hresp; by apply Hnone in Hresp|]. destruct Hr as [Hr|(-> & h & b & -> & Hd)]; [by left|]. right. right.
      split; [done|]. split; [done|]. split; [by rewrite Hin|]. exists (map fst ms), h, b. split; [done|]. split; [|done].
      apply tag_spec. by rewrite <- informational_tag.
    + cbn. unfold ResponseCapture.abort. cbn [refit ResponseCapture.terminal]. rewrite (gathered_open _ _ Hc). eexists _, []. split; [done|].
      split; [intros ? ? ? Hresp; by apply Hnone in Hresp|]. left. by eexists.
  - rewrite Hterm in Hcase. destruct Hcase as [[_ ->]|[? _]]; [|done]. eexists _, more. split; [done|].
    apply Forall_app in Hmsg as [Hinterim [Hm _]%Forall_cons]. rewrite map_app, concat_app in Hin. cbn in Hin, Hm.
    assert (Hresp : responds (p ++ q) (map fst interim) m ((concat (map fst later) ++ rest) ++ q)).
    { split; [rewrite Hin, <- !app_assoc; done|]. split; [|done]. apply tag_spec. by rewrite <- informational_tag. }
    split; [|right; left; by exists (map fst interim), m, ((concat (map fst later) ++ rest) ++ q)].
    intros interim' final rest' Hresp'. destruct (responds_unique _ _ _ _ _ _ _ Hresp Hresp') as (<- & <- & <-).
    split; [done|]. intros [[Hl Hr]%app_eq_nil _]%app_eq_nil. apply Hlast; [|done].
    destruct Hh as [_ Hms' _ _ _ _ _ _]. apply Forall_app in Hms' as [_ [_ Hlater]%Forall_cons].
    destruct later as [|[l i] later]; [done|]. apply Forall_cons in Hlater as [[Hl' _] _]. cbn in Hl, Hl'. by apply app_eq_nil in Hl as [-> _].
  - rewrite Hterm in Hcase. destruct Hcase as [[_ ->]|[? _]]; [|done]. exists (WireFailed reason), []. split; [done|].
    split; [|left; by exists reason]. intros interim final rest' Hresp. exfalso.
    assert (Hrun2 : run (p ++ q) fresh = (f, events)) by (by rewrite run_app, Hrun, run_failed, app_nil_r).
    refine (no_final (p ++ q) f events ms (rest ++ q) interim final rest' Hrun2 _ Hms Hresp).
    destruct Hh as [H1 H2 H3 H4 H5 H6 H7 H8]. split; try done; [by rewrite H1, app_assoc|].
    intros _. destruct (H8 Hf) as (Hr & He). split; [by destruct rest|done].
Qed.
End Responses.

(** * A connection *)

Module Example_wire.
Definition line (s : bytes) : bytes := s ++ CRLF.
Definition first : bytes := line (bs "GET /a HTTP/1.1") ++ CRLF.
Definition second : bytes := line (bs "GET /b HTTP/1.1") ++ CRLF.
(** Two requests, the second of them cut; the engine hands each over after its head. *)
Definition steps : list capture_step :=
  [CaptureRead (first ++ take 5 second); CaptureBind 1%N; CaptureRead (drop 5 second); CaptureBind 2%N].
Example both_captured :
  (capture_all (steps ++ [CaptureAbort]) (RequestCaptureState.new 64 0 4)).2
  = [CaptureComplete 1%N (WireMessage first 19 false false); CaptureComplete 2%N (WireMessage second 19 false false)].
Proof. vm_compute. reflexivity. Qed.
(** A queue of one: the second request is not kept, and its transaction is told so. *)
Example second_dropped :
  (capture_all (steps ++ [CaptureAbort]) (RequestCaptureState.new 64 0 1)).2
  = [CaptureComplete 1%N (WireMessage first 19 false false); CaptureFailed 2%N limit_exceeded].
Proof. vm_compute. reflexivity. Qed.
Lemma steps_heads_first : heads_first 64 0 steps.
Proof.
  intros before t after Heq.
  do 4 (destruct before as [|x before]; [try discriminate Heq; left; vm_compute; repeat constructor|injection Heq as <- Heq]).
  by destruct before.
Qed.
Lemma second_message : message_at 64 RequestRole (read_stream steps) 1 second false.
Proof.
  assert (Hm : forall m, (push m (Http1Framer.new RequestRole 64 0)).2 = [Started 0; Complete 0 (captured 0 m false)] -> message 64 RequestRole m false)
    by (intros m; apply framer_message).
  exists [(first, false)], []. split; [vm_compute; reflexivity|]. split; [reflexivity|].
  split; [apply Forall_singleton; apply Hm; vm_compute; reflexivity|apply Hm; vm_compute; reflexivity].
Qed.
Lemma captures_follow_their_requests_witness :
  length (capture_all (steps ++ [CaptureAbort]) (RequestCaptureState.new 64 0 1)).2 = 2 /\
  exists c, (capture_all (steps ++ [CaptureAbort]) (RequestCaptureState.new 64 0 1)).2 !! 1 = Some c /\
    (c = CaptureComplete 2%N (captured 64 second false) \/ overrun 64 0 1 steps /\ c = CaptureFailed 2%N limit_exceeded).
Proof.
  destruct (captures_follow_their_requests 64 0 1 steps) as [Hlen Hall].
  - repeat constructor; discriminate.
  - exact steps_heads_first.
  - vm_compute. discriminate.
  - split; [exact Hlen|]. destruct (Hall 1 2%N eq_refl) as (c & Hc & Hm & _). exists c. split; [exact Hc|].
    exact (Hm second false second_message).
Defined.
Definition interim : bytes := line (bs "HTTP/1.1 100 Continue") ++ CRLF.
Definition reply : bytes := line (bs "HTTP/1.1 204 No Content") ++ CRLF.
(** What is read beyond a response with its last bytes is published for it too. *)
Example published_twice :
  (ResponseCapture.observe_all [interim ++ reply ++ reply] (ResponseCapture.new 64 64 false false)).2
  = [WireCaptured (interim ++ reply) 52 false; WireCaptured reply 79 false].
Proof. vm_compute. reflexivity. Qed.
Lemma response_captures_are_prefixes_witness :
  exists r more, (ResponseCapture.observe_all [interim; reply; reply] (ResponseCapture.new 64 64 false false)).2 = r :: more /\
    r = whole 64 64 (concat [interim] ++ reply).
Proof.
  destruct (response_captures_are_prefixes 64 64 false false [interim; reply; reply] false) as (r & more & Hr & Hall & _).
  - repeat constructor; discriminate.
  - exists r, more. split; [exact Hr|].
    assert (Hm : forall m i, (push m (Http1Framer.new (ResponseRole (ResponseContext false false)) 64 0)).2 = [Started 0; Complete 0 (captured 0 m i)]
      -> message 64 (ResponseRole (ResponseContext false false)) m i) by (intros m i; apply framer_message).
    apply (Hall [interim] reply reply). split; [vm_compute; reflexivity|].
    split; [apply Forall_singleton; apply Hm; vm_compute; reflexivity|apply Hm; vm_compute; reflexivity].
Defined.
End Example_wire.
