(* ===== verification/Destination.v ===== *)
(** Destination authorisation (crates/freja-proxy/src/destination.rs): the decision on
    the requested target with its single detour, name resolution, the decision on
    every resolved address, and the connection to the first address that answers. *)
From stdpp Require Import gmap strings sorting.
From stdpp Require Import prelude.
From S2P Require Import Prelude Bytes Net Endpoint Domain PolicyModel Acl Guard Inspection AuditModel AuditSink Hooks Runtime.

(** * [BTreeSet<SocketAddr>]

    Addresses order by family, then address, port and scope; no flow labels occur. *)
Definition sa_key (a : socket_addr) : list N :=
  match sa_ip a with
  | V4 a b c d => 0%N :: map byte_val [a; b; c; d]
  | V6 s => 1%N :: s
  end ++ [sa_port a; sa_scope a].
Fixpoint lex_compare (a b : list N) : comparison :=
  match a, b with
  | [], [] => Eq
  | [], _ :: _ => Lt
  | _ :: _, [] => Gt
  | x :: a, y :: b => match (x ?= y)%N with Eq => lex_compare a b | c => c end
  end.
Fixpoint btree_insert (a : socket_addr) (l : list socket_addr) : list socket_addr :=
  match l with
  | [] => [a]
  | b :: l' =>
      match lex_compare (sa_key a) (sa_key b) with
      | Eq => l
      | Lt => a :: l
      | Gt => b :: btree_insert a l'
      end
  end.
(** [collect::<BTreeSet<_>>()] and its iteration. *)
Definition btree_collect (l : list socket_addr) : list socket_addr := foldl (fun s a => btree_insert a s) [] l.

Section Destination.
Context `{Environment}.

Definition record_action (s : session_id) (t : option transaction_id) (d : Decision.t) : flow unit :=
  publish_event s t (ActionExecuted d).

(** The loop of [authorize_requested_target]; [detours] is one until the target was
    replaced ([!detoured]). *)
Fixpoint authorize_requested (detours : nat) (snapshot : policy_snapshot) (s : session_id)
    (t : option transaction_id) (selected : requested_facts) : flow requested_facts :=
  c ← audit_context_ s t;
  _ ← publish_replay_facts c (ReplayRequested selected);
  let '(decision, definition) := Acl.evaluate_with_definition (snapshot_policy snapshot) (Requested selected) in
  c ← audit_context_ s t;
  _ ← publish_decision c decision (definition, enforcement snapshot) (EvaluatedRequested selected);
  match Decision.action decision with
  | TcpDetour destination =>
      if permits snapshot decision then mret selected
      else
        _ ← record_action s t decision;
        match detours with
        | O => fail (DetourLoop decision)
        | S detours =>
            authorize_requested detours snapshot s t
              (RequestedTargetFacts (source_ip selected) (UpstreamEndpoint.host destination)
                 (UpstreamEndpoint.port destination) (facts_protocol selected))
        end
  | _ =>
      if permits snapshot decision then mret selected
      else _ ← record_action s t decision; fail (PolicyDenied decision)
  end.
Definition authorize_requested_target := authorize_requested 1.

Definition remember_denial (snapshot : policy_snapshot) (d : Decision.t) (first_denial : option Decision.t)
  : option Decision.t :=
  if permits snapshot d then first_denial
  else match first_denial with None => Some d | Some _ => first_denial end.
(** The guard's part of one iteration. *)
Definition guard_address (snapshot : policy_snapshot) (s : session_id) (t : option transaction_id)
    (resolved : resolved_facts) (first_denial : option Decision.t) : flow (option Decision.t) :=
  match DestinationGuard.evaluate_with_definition (destination_guard snapshot)
          (Acl.generation (snapshot_policy snapshot)) resolved with
  | None => mret first_denial
  | Some (decision, definition) =>
      c ← audit_context_ s t;
      _ ← publish_decision c decision (definition, enforcement snapshot) (EvaluatedResolved resolved);
      mret (remember_denial snapshot decision first_denial)
  end.
Fixpoint authorize_addresses (snapshot : policy_snapshot) (s : session_id) (t : option transaction_id)
    (selected : requested_facts) (addresses : list socket_addr) (first_denial : option Decision.t)
  : flow (option Decision.t) :=
  match addresses with
  | [] => mret first_denial
  | address :: addresses =>
      let resolved := ResolvedTargetFacts selected (sa_ip address) in
      c ← audit_context_ s t;
      _ ← publish_replay_facts c (ReplayResolved resolved);
      first_denial ← guard_address snapshot s t resolved first_denial;
      let '(decision, definition) :=
        Acl.evaluate_with_definition (snapshot_policy snapshot) (Resolved resolved) in
      c ← audit_context_ s t;
      _ ← publish_decision c decision (definition, enforcement snapshot) (EvaluatedResolved resolved);
      match Decision.action decision, permits snapshot decision with
      | TcpDetour _, false => _ ← record_action s t decision; fail (DetourLoop decision)
      | _, _ =>
          authorize_addresses snapshot s t selected addresses (remember_denial snapshot decision first_denial)
      end
  end.
Definition authorize_resolved_targets (snapshot : policy_snapshot) (s : session_id) (t : option transaction_id)
    (selected : requested_facts) (addresses : list socket_addr) : flow unit :=
  first_denial ← authorize_addresses snapshot s t selected addresses None;
  match first_denial with
  | Some decision => _ ← record_action s t decision; fail (PolicyDenied decision)
  | None => mret tt
  end.

Definition resolve (requested : requested_facts) : flow (list socket_addr) :=
  let port := Port.get (destination_port requested) in
  addresses ←
    match requested_host requested with
    | Ip address => mret [SocketAddr address port 0]
    | Name host => fun w =>
        let answer := lookup_host (history w) (HostName.as_str host) port in
        let w := log (LookedUp (HostName.as_str host) port) w in
        match answer with
        | LookupAddresses l => (Ok l, w)
        | LookupFailed => (Err (Dns (HostName.as_str host)), w)
        | LookupTimedOut => (Err (DnsTimedOut (HostName.as_str host)), w)
        | LookupShutdown => (Err ShutdownError, w)
        end
    end;
  let addresses := btree_collect addresses in
  match addresses with
  | [] => fail (NoResolvedAddresses (TargetHost.as_host_text (requested_host requested)))
  | _ => mret addresses
  end.

Definition authorize_and_resolve (requested : requested_facts) (s : session_id) (t : option transaction_id)
  : flow (list socket_addr) :=
  snapshot ← decision_snapshot;
  selected ← authorize_requested_target snapshot s t requested;
  addresses ← resolve selected;
  _ ← publish_event s t (TargetResolved (TargetHost.as_host_text (requested_host selected)) (map sa_ip addresses));
  _ ← authorize_resolved_targets snapshot s t selected addresses;
  mret addresses.

(** [connect_any]; the stream is the upstream end of the world. *)
Fixpoint connect_loop (addresses : list socket_addr) (last_error : option proxy_error) : flow socket_addr :=
  match addresses with
  | [] => fail (default (NoResolvedAddresses (bs "<empty address set>")) last_error)
  | address :: addresses => fun w =>
      let answer := connect (history w) address in
      let w := log (Connected address) w in
      match answer with
      | ConnectOk => (Ok address, w)
      | ConnectError => connect_loop addresses (Some (ConnectFailed address)) w
      | ConnectTimeout => connect_loop addresses (Some (ConnectTimedOut address)) w
      | ConnectShutdown => (Err ShutdownError, w)
      end
  end.
Definition connect_any (addresses : list socket_addr) : flow socket_addr := connect_loop addresses None.
End Destination.

(** * Reference: authorisation as a pure function of the snapshot *)

Section Reference.
Context `{IpNet, HeaderMap}.
(** A replay configuration with the snapshot's policy, guard and patterns. *)
Definition snapshot_config (snapshot : policy_snapshot) : replay_config :=
  ReplayConfig (snapshot_policy snapshot) (destination_guard snapshot) (snapshot_inspection snapshot) 0.
Definition facts_events (snapshot : policy_snapshot) (facts : replay_facts) : list audit_event :=
  ReplayFactsObserved facts :: map AclEvaluated (replay_facts_decisions (snapshot_config snapshot) facts).
Definition redirected (selected : requested_facts) (destination : UpstreamEndpoint.t) : requested_facts :=
  RequestedTargetFacts (source_ip selected) (UpstreamEndpoint.host destination)
    (UpstreamEndpoint.port destination) (facts_protocol selected).
(** The events audited, and the target selected or the refusal. *)
Fixpoint requested_run (detours : nat) (snapshot : policy_snapshot) (selected : requested_facts)
  : list audit_event * result proxy_error requested_facts :=
  let d := Acl.evaluate (snapshot_policy snapshot) (Requested selected) in
  let events := facts_events snapshot (ReplayRequested selected) in
  if permits snapshot d then (events, Ok selected)
  else match Decision.action d, detours with
       | TcpDetour destination, S detours =>
           let '(rest, outcome) := requested_run detours snapshot (redirected selected destination) in
           (events ++ ActionExecuted d :: rest, outcome)
       | TcpDetour _, O => (events ++ [ActionExecuted d], Err (DetourLoop d))
       | _, _ => (events ++ [ActionExecuted d], Err (PolicyDenied d))
       end.
Definition resolved_of (selected : requested_facts) (a : socket_addr) : resolved_facts :=
  ResolvedTargetFacts selected (sa_ip a).
Fixpoint addresses_run (snapshot : policy_snapshot) (selected : requested_facts)
    (addresses : list socket_addr) (denial : option Decision.t)
  : list audit_event * result proxy_error (option Decision.t) :=
  match addresses with
  | [] => ([], Ok denial)
  | a :: addresses =>
      let facts := ReplayResolved (resolved_of selected a) in
      let d := Acl.evaluate (snapshot_policy snapshot) (Resolved (resolved_of selected a)) in
      let events := facts_events snapshot facts in
      match Decision.action d, permits snapshot d with
      | TcpDetour _, false => (events ++ [ActionExecuted d], Err (DetourLoop d))
      | _, _ =>
          let '(rest, outcome) :=
            addresses_run snapshot selected addresses
              (foldl (fun den d => remember_denial snapshot d den) denial
                 (replay_facts_decisions (snapshot_config snapshot) facts)) in
          (events ++ rest, outcome)
      end
  end.
Definition resolved_run (snapshot : policy_snapshot) (selected : requested_facts)
    (addresses : list socket_addr) : list audit_event * result proxy_error unit :=
  match addresses_run snapshot selected addresses None with
  | (events, Err e) => (events, Err e)
  | (events, Ok (Some d)) => (events ++ [ActionExecuted d], Err (PolicyDenied d))
  | (events, Ok None) => (events, Ok tt)
  end.
End Reference.

Lemma follows_record_action `{Environment} s t d : follows (record_action s t d) [ActionExecuted d] (Ok tt).
Proof. apply follows_publish_event. Qed.
#[export] Hint Resolve follows_record_action : scripts.

Section Refinement.
Context `{Environment}.
Lemma requested_follows detours snapshot s t selected :
  let '(events, outcome) := requested_run detours snapshot selected in
  follows (authorize_requested detours snapshot s t selected) events outcome.
Proof.
  revert selected; induction detours as [|detours IH]; intros selected;
    cbn [requested_run authorize_requested]; unfold facts_events; cbn [replay_facts_decisions map app snapshot_config replay_policy];
    unfold Acl.evaluate; destruct (Acl.evaluate_with_definition _ _) as [d def]; cbn [fst].
  - destruct (permits snapshot d); destruct (Decision.action d);
      repeat script_step; auto with scripts.
  - destruct (permits snapshot d) eqn:Hp; destruct (Decision.action d) as [| | |destination];
      try (solve [repeat script_step; auto with scripts]).
    specialize (IH (redirected selected destination)).
    destruct (requested_run detours snapshot _) as [rest outcome].
    repeat script_step. exact IH.
Qed.
Lemma guard_follows snapshot s t resolved denial :
  let ds := match DestinationGuard.evaluate (destination_guard snapshot)
                    (Acl.generation (snapshot_policy snapshot)) resolved with Some d => [d] | None => [] end in
  follows (guard_address snapshot s t resolved denial) (map AclEvaluated ds)
    (Ok (foldl (fun den d => remember_denial snapshot d den) denial ds)).
Proof.
  cbn zeta. unfold guard_address, DestinationGuard.evaluate.
  destruct (DestinationGuard.evaluate_with_definition _ _ resolved) as [[d def]|]; cbn; [|auto with scripts].
  script_step. script_step. auto with scripts.
Qed.
Lemma addresses_follow snapshot s t selected addresses denial :
  let '(events, outcome) := addresses_run snapshot selected addresses denial in
  follows (authorize_addresses snapshot s t selected addresses denial) events outcome.
Proof.
  revert denial; induction addresses as [|a addresses IH]; intros denial;
    cbn [addresses_run authorize_addresses]; [auto with scripts|].
  unfold facts_events; cbn [replay_facts_decisions snapshot_config replay_policy replay_guard].
  change (ResolvedTargetFacts selected (sa_ip a)) with (resolved_of selected a).
  pose proof (guard_follows snapshot s t (resolved_of selected a) denial) as Hguard. cbn zeta in Hguard.
  set (ds := match DestinationGuard.evaluate _ _ _ with Some d => [d] | None => [] end) in *.
  unfold Acl.evaluate. destruct (Acl.evaluate_with_definition _ _) as [d def]; cbn [fst].
  rewrite map_app, foldl_app. cbn [map foldl].
  specialize (IH (remember_denial snapshot d (foldl (fun den d => remember_denial snapshot d den) denial ds))).
  destruct (addresses_run snapshot selected addresses _) as [rest outcome].
  assert (Hgo : forall tail o (k : option Decision.t -> flow (option Decision.t)),
    follows (k (foldl (fun den d => remember_denial snapshot d den) denial ds)) tail o ->
    follows (c ← audit_context_ s t; _ ← publish_replay_facts c (ReplayResolved (resolved_of selected a));
             first_denial ← guard_address snapshot s t (resolved_of selected a) denial;
             c ← audit_context_ s t;
             _ ← publish_decision c d (def, enforcement snapshot) (EvaluatedResolved (resolved_of selected a));
             k first_denial)
      ((ReplayFactsObserved (ReplayResolved (resolved_of selected a)) :: map AclEvaluated ds ++ [AclEvaluated d]) ++ tail) o).
  { clear -Hguard. intros tail o k Hk. cbn [app]. script_step. script_step. rewrite <- app_assoc.
    eapply follows_bind; [exact Hguard|]. cbn [app]. script_step. script_step. exact Hk. }
  destruct (Decision.action d); [by apply Hgo..|]. destruct (permits snapshot d); [by apply Hgo|].
  apply Hgo. script_step. auto with scripts.
Qed.
Lemma resolved_follows snapshot s t selected addresses :
  let '(events, outcome) := resolved_run snapshot selected addresses in
  follows (authorize_resolved_targets snapshot s t selected addresses) events outcome.
Proof.
  unfold resolved_run, authorize_resolved_targets.
  pose proof (addresses_follow snapshot s t selected addresses None) as Hrun.
  destruct (addresses_run snapshot selected addresses None) as [events [[d|]|e]].
  - eapply follows_bind; [exact Hrun|]. cbv iota beta. script_step. auto with scripts.
  - rewrite <- (app_nil_r events). eapply follows_bind; [exact Hrun|]. cbv iota beta. auto with scripts.
  - by apply follows_bind_err.
Qed.

(** Name resolution, by what it does to the history. *)
Definition lookup_steps (selected : requested_facts) : list step :=
  match requested_host selected with
  | Ip _ => []
  | Name host => [LookedUp (HostName.as_str host) (Port.get (destination_port selected))]
  end.
Definition resolution (l : list step) (selected : requested_facts) : result proxy_error (list socket_addr) :=
  let port := Port.get (destination_port selected) in
  match requested_host selected with
  | Ip address => Ok [SocketAddr address port 0]
  | Name host =>
      match lookup_host l (HostName.as_str host) port with
      | LookupAddresses [] => Err (NoResolvedAddresses (HostName.as_str host))
      | LookupAddresses answers => Ok (btree_collect answers)
      | LookupFailed => Err (Dns (HostName.as_str host))
      | LookupTimedOut => Err (DnsTimedOut (HostName.as_str host))
      | LookupShutdown => Err ShutdownError
      end
  end.
Lemma btree_insert_nonempty a l : btree_insert a l <> [].
Proof. destruct l as [|b l]; cbn; [done|]. by destruct (lex_compare _ _). Qed.
Lemma foldl_insert_nonempty l acc : acc <> [] -> foldl (fun s a => btree_insert a s) acc l <> [].
Proof. revert acc; induction l as [|a l IH]; intros acc; [done|]. intros _. apply IH, btree_insert_nonempty. Qed.
Lemma btree_collect_nonempty a l : btree_collect (a :: l) <> [].
Proof. unfold btree_collect. cbn [foldl]. by apply foldl_insert_nonempty. Qed.
Lemma resolve_spec selected w :
  let '(r, w') := resolve selected w in
  r = resolution (history w) selected /\ history w' = history w ++ lookup_steps selected /\
  client_input w' = client_input w /\ upstream_input w' = upstream_input w.
Proof.
  unfold resolve, resolution, lookup_steps, mbind, flow_bind.
  destruct (requested_host selected) as [ip|host]; cbn.
  - by rewrite app_nil_r.
  - destruct (lookup_host _ _ _) as [[|a l]| | |]; cbn [btree_collect foldl]; try done.
    pose proof (btree_collect_nonempty a l) as Hne. unfold btree_collect in Hne. cbn [foldl] in Hne.
    destruct (foldl _ _ l) eqn:E; [done|]. done.
Qed.

(** What authorisation adds to the history, and why it ends as it does. *)
Inductive authorization (requested : requested_facts) (before : list step)
  : list step -> result proxy_error (list socket_addr) -> Prop :=
| auth_audit l e :
    audit_policy = FailClosed ->
    (forall p, p ∈ l -> publishing p \/ exists host port, p = LookedUp host port) ->
    authorization requested before l (Err (Audit e))
| auth_refused l1 events e :
    requested_run 1 (current_snapshot before) requested = (events, Err e) ->
    Forall publishing l1 -> audited l1 = events ->
    authorization requested before l1 (Err e)
| auth_unresolved l1 events selected e :
    requested_run 1 (current_snapshot before) requested = (events, Ok selected) ->
    Forall publishing l1 -> audited l1 = events ->
    resolution (before ++ l1) selected = Err e ->
    authorization requested before (l1 ++ lookup_steps selected) (Err e)
| auth_resolved l1 l3 events selected addresses events' outcome :
    requested_run 1 (current_snapshot before) requested = (events, Ok selected) ->
    Forall publishing l1 -> audited l1 = events ->
    resolution (before ++ l1) selected = Ok addresses ->
    resolved_run (current_snapshot before) selected addresses = (events', outcome) ->
    Forall publishing l3 ->
    audited l3 = TargetResolved (TargetHost.as_host_text (requested_host selected)) (map sa_ip addresses) :: events' ->
    authorization requested before (l1 ++ lookup_steps selected ++ l3)
      (match outcome with Ok _ => Ok addresses | Err e => Err e end).

Lemma emits_steps w w' events : emits w w' events ->
  exists l, history w' = history w ++ l /\ audited l = events /\ Forall publishing l.
Proof. by intros (_ & _ & ?). Qed.
Lemma authorize_and_resolve_spec requested s t w :
  let '(r, w') := authorize_and_resolve requested s t w in
  exists l, history w' = history w ++ l /\ authorization requested (history w) l r.
Proof.
  unfold authorize_and_resolve. set (snapshot := current_snapshot (history w)).
  change ((decision_snapshot ≫= ?f) w) with (f snapshot w). cbv beta.
  unfold mbind at 1, flow_bind at 1. unfold authorize_requested_target.
  pose proof (requested_follows 1 snapshot s t requested) as Hreq.
  destruct (requested_run 1 snapshot requested) as [events o1] eqn:Hrun. specialize (Hreq w).
  destruct (authorize_requested 1 snapshot s t requested w) as [r1 w1].
  destruct Hreq as (le & He & Hcase). apply emits_steps in He as (l1 & Hh1 & Ha1 & Hp1).
  assert (Hpub : forall l, Forall publishing l -> forall p, p ∈ l -> publishing p \/ exists host port, p = LookedUp host port).
  { intros l HF p Hin. left. rewrite Forall_forall in HF. auto. }
  destruct Hcase as [[-> ->] | (Hfc & [e ->] & _)]; [|exists l1; split; [done|]; by apply auth_audit; [|apply Hpub]].
  destruct o1 as [selected|e]; [|exists l1; split; [done|]; by eapply auth_refused].
  unfold mbind at 1, flow_bind at 1.
  pose proof (resolve_spec selected w1) as Hres. destruct (resolve selected w1) as [r2 w2].
  destruct Hres as (-> & Hh2 & _). rewrite Hh1 in Hh2.
  destruct (resolution (history w1) selected) as [addresses|e] eqn:Hresolution; rewrite Hh1 in Hresolution; cycle 1.
  { exists (l1 ++ lookup_steps selected). rewrite Hh2, app_assoc. split; [done|]. by eapply auth_unresolved. }
  pose proof (resolved_follows snapshot s t selected addresses) as Hrf.
  destruct (resolved_run snapshot selected addresses) as [events' outcome] eqn:Hrun'.
  set (target := TargetResolved _ _).
  assert (Hfollow : follows (_ ← publish_event s t target;
      _ ← authorize_resolved_targets snapshot s t selected addresses; mret addresses) (target :: events')
      (match outcome with Ok _ => Ok addresses | Err e => Err e end)).
  { script_step. destruct outcome as [[]|e].
    - rewrite <- (app_nil_r events'). eapply follows_bind; [exact Hrf|]. auto with scripts.
    - by apply follows_bind_err. }
  specialize (Hfollow w2). destruct (@mbind flow _ _ _ _ _ w2) as [r3 w3].
  destruct Hfollow as (le & He & Hcase). apply emits_steps in He as (l3 & Hh3 & Ha3 & Hp3).
  exists (l1 ++ lookup_steps selected ++ l3).
  split; [by rewrite Hh3, Hh2, <- !app_assoc|].
  destruct Hcase as [[-> ->] | (Hfc & [e ->] & _)].
  - by eapply auth_resolved.
  - apply auth_audit; [done|]. intros p. rewrite !elem_of_app. intros [?|[Hin|?]]; [eauto| |eauto].
    unfold lookup_steps in Hin. destruct (requested_host selected); [by apply not_elem_of_nil in Hin|].
    apply list_elem_of_singleton in Hin as ->. eauto.
Qed.
End Refinement.

(** * Lemmas on the reference *)

Section ReferenceLemmas.
Context `{IpNet, HeaderMap}.
Definition requested_decision (snapshot : policy_snapshot) (f : requested_facts) : Decision.t :=
  Acl.evaluate (snapshot_policy snapshot) (Requested f).
Definition address_decisions (snapshot : policy_snapshot) (selected : requested_facts) (a : socket_addr)
  : list Decision.t :=
  replay_facts_decisions (snapshot_config snapshot) (ReplayResolved (resolved_of selected a)).

Lemma permits_enforced snapshot d : enforcement snapshot = Enforce ->
  permits snapshot d = true <-> Decision.action d = Allow.
Proof.
  intros He. unfold permits. rewrite He, orb_true_iff, !bool_decide_eq_true. naive_solver.
Qed.
Lemma permits_observed snapshot d : enforcement snapshot = Observe -> permits snapshot d = true.
Proof. intros He. unfold permits. by rewrite He. Qed.
Lemma refused_enforces snapshot d : permits snapshot d = false ->
  enforcement snapshot = Enforce /\ Decision.action d <> Allow.
Proof.
  unfold permits. rewrite orb_false_iff, !bool_decide_eq_false. intros [He Ha].
  by destruct (enforcement snapshot).
Qed.
Lemma guard_never_allows guard g f d : DestinationGuard.evaluate guard g f = Some d -> Decision.action d <> Allow.
Proof.
  unfold DestinationGuard.evaluate, DestinationGuard.evaluate_with_definition.
  destruct (DestinationGuard.matched _ _) as [[[rule class] cond]|]; [|done].
  mcbn. intros [= <-]. unfold DestinationGuard.deny_decision. cbn. by destruct (facts_protocol _).
Qed.

(** Requested stage. *)
Lemma requested_run_selected snapshot requested events selected :
  requested_run 1 snapshot requested = (events, Ok selected) ->
  permits snapshot (requested_decision snapshot selected) = true /\
  (selected = requested \/
   exists destination, Decision.action (requested_decision snapshot requested) = TcpDetour destination /\
     enforcement snapshot = Enforce /\ selected = redirected requested destination).
Proof.
  unfold requested_decision. cbn [requested_run].
  destruct (permits snapshot (Acl.evaluate _ (Requested requested))) eqn:Hp; [intros [= <- <-]; auto|].
  apply refused_enforces in Hp as [He _].
  destruct (Decision.action (Acl.evaluate _ (Requested requested))) as [| | |destination] eqn:Ha; try done.
  destruct (permits snapshot (Acl.evaluate _ (Requested (redirected _ _)))) eqn:Hp2.
  - intros [= <- <-]. eauto 6.
  - by destruct (Decision.action (Acl.evaluate _ (Requested (redirected _ _)))).
Qed.
Definition refusal (snapshot : policy_snapshot) (events : list audit_event) (e : proxy_error) : Prop :=
  exists d, (e = PolicyDenied d \/ e = DetourLoop d) /\ permits snapshot d = false /\
    last events = Some (ActionExecuted d).
Lemma refusal_recorded snapshot events d e : e = PolicyDenied d \/ e = DetourLoop d ->
  permits snapshot d = false -> refusal snapshot (events ++ [ActionExecuted d]) e.
Proof. intros He Hp. exists d. by rewrite last_snoc. Qed.
Lemma requested_run_refusal n snapshot requested events e :
  requested_run n snapshot requested = (events, Err e) -> refusal snapshot events e.
Proof.
  revert requested events; induction n as [|n IH]; intros requested events; cbn [requested_run];
    destruct (permits snapshot (Acl.evaluate _ _)) eqn:Hp; try done;
    destruct (Decision.action (Acl.evaluate _ _)) as [| | |destination];
    try (intros E; apply pair_equal_spec in E as [<- [= <-]]; apply refusal_recorded; auto; fail).
  destruct (requested_run n snapshot _) as [rest outcome] eqn:E.
  intros E'. apply pair_equal_spec in E' as [<- ->].
  apply IH in E as (d & He & Hd & Hl). exists d. split; [done|]. split; [done|].
  rewrite last_app, last_cons, Hl. done.
Qed.
Lemma requested_run_loop snapshot requested events d :
  requested_run 1 snapshot requested = (events, Err (DetourLoop d)) ->
  exists first second, Decision.action (requested_decision snapshot requested) = TcpDetour first /\
    d = requested_decision snapshot (redirected requested first) /\ Decision.action d = TcpDetour second.
Proof.
  unfold requested_decision. cbn [requested_run].
  destruct (permits snapshot (Acl.evaluate _ (Requested requested))); [done|].
  destruct (Decision.action (Acl.evaluate _ (Requested requested))) as [| | |first] eqn:Ha; try done.
  destruct (permits snapshot (Acl.evaluate _ (Requested (redirected _ _)))); [done|].
  destruct (Decision.action (Acl.evaluate _ (Requested (redirected _ _)))) as [| | |second] eqn:Hb; try done.
  intros [= <- <-]. eauto.
Qed.

(** Resolved stage. *)
Lemma remember_denials_None snapshot ds den :
  foldl (fun den d => remember_denial snapshot d den) den ds = None <->
  den = None /\ Forall (fun d => permits snapshot d = true) ds.
Proof.
  revert den; induction ds as [|d ds IH]; intros den; cbn [foldl].
  - split; [intros ->; auto using Forall_nil|by intros [-> _]].
  - rewrite IH, Forall_cons. unfold remember_denial. destruct (permits snapshot d); [tauto|].
    destruct den; naive_solver.
Qed.
Lemma remember_denials_Some snapshot ds den d :
  (forall x, den = Some x -> permits snapshot x = false) ->
  foldl (fun den d => remember_denial snapshot d den) den ds = Some d -> permits snapshot d = false.
Proof.
  revert den; induction ds as [|x ds IH]; intros den Hden; cbn [foldl]; [auto|].
  apply IH. unfold remember_denial. destruct (permits snapshot x) eqn:Hx; [done|].
  destruct den; [auto|]. by intros y [= <-].
Qed.
Lemma addresses_run_Ok snapshot selected addresses den events o :
  addresses_run snapshot selected addresses den = (events, Ok o) ->
  o = foldl (fun den d => remember_denial snapshot d den) den
        (concat (map (address_decisions snapshot selected) addresses)).
Proof.
  revert den events; induction addresses as [|a addresses IH]; intros den events; cbn [addresses_run map concat].
  { by intros [= _ <-]. }
  rewrite foldl_app. fold (address_decisions snapshot selected a).
  specialize (IH (foldl (fun den d => remember_denial snapshot d den) den (address_decisions snapshot selected a))).
  destruct (addresses_run snapshot selected addresses _) as [rest outcome].
  destruct (Decision.action _); [..|destruct (permits snapshot _)]; intros [= _ ->]; by eapply IH.
Qed.
Lemma resolved_run_permitted snapshot selected addresses events :
  resolved_run snapshot selected addresses = (events, Ok tt) ->
  Forall (fun a => Forall (fun d => permits snapshot d = true) (address_decisions snapshot selected a)) addresses.
Proof.
  unfold resolved_run. destruct (addresses_run _ _ _ _) as [evs [[d|]|e]] eqn:E; try done. intros _.
  apply addresses_run_Ok in E. symmetry in E. apply remember_denials_None in E as [_ HF].
  rewrite Forall_concat in HF. rewrite List.Forall_map in HF. exact HF.
Qed.
Lemma addresses_run_refusal snapshot selected addresses den events e :
  addresses_run snapshot selected addresses den = (events, Err e) ->
  exists d a, e = DetourLoop d /\ permits snapshot d = false /\ last events = Some (ActionExecuted d) /\
    d = Acl.evaluate (snapshot_policy snapshot) (Resolved (resolved_of selected a)) /\
    exists destination, Decision.action d = TcpDetour destination.
Proof.
  revert den events; induction addresses as [|a addresses IH]; intros den events; cbn [addresses_run]; [done|].
  specialize (IH (foldl (fun den d => remember_denial snapshot d den) den (address_decisions snapshot selected a))).
  fold (address_decisions snapshot selected a).
  destruct (addresses_run snapshot selected addresses _) as [rest outcome].
  set (d := Acl.evaluate _ _).
  destruct (Decision.action d) as [| | |destination] eqn:Ha; destruct (permits snapshot d) eqn:Hp;
    try (intros E; apply pair_equal_spec in E as [<- ->];
         destruct (IH _ eq_refl) as (d' & a' & -> & Hd & Hl & Heq & Hx);
         exists d', a'; rewrite last_app, Hl; done).
  intros E. apply pair_equal_spec in E as [<- [= <-]]. exists d, a. rewrite last_snoc. eauto 8.
Qed.
Lemma resolved_run_refusal snapshot selected addresses events e :
  resolved_run snapshot selected addresses = (events, Err e) -> refusal snapshot events e.
Proof.
  unfold resolved_run. destruct (addresses_run _ _ _ _) as [evs [[d|]|e']] eqn:E; intros [= <- <-].
  - apply refusal_recorded; [by left|].
    apply addresses_run_Ok in E. eapply (remember_denials_Some _ _ None); [done|by symmetry].
  - apply addresses_run_refusal in E as (d & a & -> & Hp & Hl & _). exists d. auto.
Qed.
(** With a validated policy the loop error of this stage cannot happen. *)
Lemma resolved_run_no_loop snapshot selected addresses events d :
  policy_wf (snapshot_policy snapshot) -> permits snapshot (requested_decision snapshot selected) = true ->
  resolved_run snapshot selected addresses <> (events, Err (DetourLoop d)).
Proof.
  intros Hwf Hperm. unfold resolved_run.
  destruct (addresses_run _ _ _ _) as [evs [[d'|]|e']] eqn:E; intros [= <- ->].
  apply addresses_run_refusal in E as (d' & a & [= <-] & Hp & _ & -> & destination & Ha).
  apply refused_enforces in Hp as [He _].
  apply (detour_settled _ _ _ _ Hwf (extends_resolved (resolved_of selected a))) in Ha.
  apply (permits_enforced _ _ He) in Hperm. unfold requested_decision in Hperm.
  change (resolved_requested (resolved_of selected a)) with selected in Ha. congruence.
Qed.

(** What offline replay recomputes from the events of a run. *)
Definition evaluated (l : list audit_event) : list Decision.t :=
  omap (fun e => match e with AclEvaluated d => Some d | _ => None end) l.
Definition observed_facts (l : list audit_event) : list replay_facts :=
  omap (fun e => match e with ReplayFactsObserved f => Some f | _ => None end) l.
Definition replays (snapshot : policy_snapshot) (l : list audit_event) : Prop :=
  evaluated l = concat (map (replay_facts_decisions (snapshot_config snapshot)) (observed_facts l)).
Lemma replays_app snapshot a b : replays snapshot a -> replays snapshot b -> replays snapshot (a ++ b).
Proof.
  unfold replays, evaluated, observed_facts. rewrite !omap_app, map_app, concat_app. by intros -> ->.
Qed.
Lemma replays_nil snapshot : replays snapshot [].
Proof. done. Qed.
Lemma replays_action snapshot d : replays snapshot [ActionExecuted d].
Proof. done. Qed.
Lemma evaluated_map ds : evaluated (map AclEvaluated ds) = ds.
Proof. induction ds as [|d ds IH]; cbn; [done|]. f_equal. exact IH. Qed.
Lemma observed_facts_map ds : observed_facts (map AclEvaluated ds) = [].
Proof. by induction ds. Qed.
Lemma replays_facts snapshot facts : replays snapshot (facts_events snapshot facts).
Proof.
  unfold replays, facts_events. set (ds := replay_facts_decisions _ facts).
  change (evaluated (ReplayFactsObserved facts :: map AclEvaluated ds)) with (evaluated (map AclEvaluated ds)).
  change (observed_facts (ReplayFactsObserved facts :: map AclEvaluated ds))
    with (facts :: observed_facts (map AclEvaluated ds)).
  rewrite evaluated_map, observed_facts_map. cbn. by rewrite app_nil_r.
Qed.
Lemma replays_requested n snapshot requested : replays snapshot (requested_run n snapshot requested).1.
Proof.
  revert requested; induction n as [|n IH]; intros requested; cbn [requested_run];
    destruct (permits snapshot _); try apply replays_facts;
    destruct (Decision.action _) as [| | |destination];
    try (apply replays_app; [apply replays_facts|apply replays_action]).
  specialize (IH (redirected requested destination)).
  destruct (requested_run n snapshot _) as [rest outcome]. cbn [fst] in *.
  apply replays_app; [apply replays_facts|]. apply (replays_app _ [_]); [apply replays_action|done].
Qed.
Lemma replays_addresses snapshot selected addresses den : replays snapshot (addresses_run snapshot selected addresses den).1.
Proof.
  revert den; induction addresses as [|a addresses IH]; intros den; cbn [addresses_run]; [apply replays_nil|].
  specialize (IH (foldl (fun den d => remember_denial snapshot d den) den
     (replay_facts_decisions (snapshot_config snapshot) (ReplayResolved (resolved_of selected a))))).
  destruct (addresses_run snapshot selected addresses _) as [rest outcome]. cbn [fst] in *.
  destruct (Decision.action _); [..|destruct (permits snapshot _)];
    (apply replays_app; [apply replays_facts|]); done || apply replays_action.
Qed.
Lemma replays_resolved snapshot selected addresses : replays snapshot (resolved_run snapshot selected addresses).1.
Proof.
  pose proof (replays_addresses snapshot selected addresses None) as Hr. unfold resolved_run.
  destruct (addresses_run _ _ _ _) as [evs [[d|]|e]]; cbn [fst] in *; try done.
  apply replays_app; [done|apply replays_action].
Qed.
End ReferenceLemmas.

(** * The address set *)

Definition sa_lt (a b : socket_addr) : Prop := lex_compare (sa_key a) (sa_key b) = Lt.
Lemma lex_compare_eq a b : lex_compare a b = Eq <-> a = b.
Proof.
  revert b; induction a as [|x a IH]; intros [|y b]; cbn; try done.
  destruct (N.compare_spec x y) as [->|Hlt|Hlt]; [rewrite IH; split; [by intros ->|by intros [= ->]]|..];
    (split; [done|]; intros [= -> ->]; lia).
Qed.
Lemma lex_compare_flip a b : lex_compare b a = CompOpp (lex_compare a b).
Proof.
  revert b; induction a as [|x a IH]; intros [|y b]; cbn; try done.
  rewrite (N.compare_antisym x y). destruct (x ?= y)%N; cbn; auto.
Qed.
Lemma lex_compare_trans a b c : lex_compare a b = Lt -> lex_compare b c = Lt -> lex_compare a c = Lt.
Proof.
  revert b c; induction a as [|x a IH]; intros [|y b] [|z c]; cbn; try done.
  destruct (N.compare_spec x y) as [->|Hxy|Hxy], (N.compare_spec y z) as [->|Hyz|Hyz]; try done.
  1: rewrite ?N.compare_refl; apply IH.
  all: intros _ _;
    match goal with |- context [(?p ?= ?q)%N] => by rewrite (proj2 (N.compare_lt_iff p q)) by lia end.
Qed.
Lemma sa_key_inj a b : sa_key a = sa_key b -> a = b.
Proof.
  destruct a as [ia pa ca], b as [ib pb cb]. unfold sa_key. cbn [sa_ip sa_port sa_scope].
  intros E. apply app_inj_2 in E as [Hip [= -> ->]]; [|done]. f_equal.
  destruct ia as [a1 a2 a3 a4|s], ib as [b1 b2 b3 b4|s']; try done.
  - injection Hip as H1 H2 H3 H4. by rewrite (byte_val_inj _ _ H1), (byte_val_inj _ _ H2), (byte_val_inj _ _ H3), (byte_val_inj _ _ H4).
  - by injection Hip as ->.
Qed.
Lemma elem_of_btree_insert x a l : x ∈ btree_insert a l <-> x = a \/ x ∈ l.
Proof.
  induction l as [|b l IH]; cbn [btree_insert]; [set_solver|].
  destruct (lex_compare (sa_key a) (sa_key b)) eqn:E; [|set_solver|rewrite elem_of_cons, IH; set_solver].
  apply lex_compare_eq, sa_key_inj in E as ->. set_solver.
Qed.
Lemma btree_insert_sorted a l : StronglySorted sa_lt l -> StronglySorted sa_lt (btree_insert a l).
Proof.
  induction 1 as [|b l Hl IH HF]; cbn [btree_insert]; [repeat constructor|].
  destruct (lex_compare (sa_key a) (sa_key b)) eqn:E.
  - by constructor.
  - constructor; [by constructor|]. constructor; [done|].
    eapply Forall_impl; [exact HF|]. intros x. by apply lex_compare_trans.
  - constructor; [done|]. rewrite Forall_forall in HF |- *. intros x. rewrite elem_of_btree_insert.
    intros [-> |Hx]; [|auto]. unfold sa_lt. by rewrite lex_compare_flip, E.
Qed.
Lemma btree_fold l acc : StronglySorted sa_lt acc ->
  StronglySorted sa_lt (foldl (fun s a => btree_insert a s) acc l) /\
  forall x, x ∈ foldl (fun s a => btree_insert a s) acc l <-> x ∈ acc \/ x ∈ l.
Proof.
  revert acc; induction l as [|a l IH]; intros acc Hacc; cbn [foldl].
  - split; [done|]. set_solver.
  - destruct (IH (btree_insert a acc) (btree_insert_sorted a acc Hacc)) as [Hs Hx]. split; [done|].
    intros x. rewrite Hx, elem_of_btree_insert. set_solver.
Qed.
(** Attempts that fail, one after the other. *)
Fixpoint attempts_fail `{Environment} (before : list step) (tried : list socket_addr) : Prop :=
  match tried with
  | [] => True
  | a :: tried =>
      (connect before a = ConnectError \/ connect before a = ConnectTimeout) /\
      attempts_fail (before ++ [Connected a]) tried
  end.
(** The attempts are a prefix of the addresses in order; all but the last failed, and
    so did the last unless its address is returned. *)
Definition attempted `{Environment} (addresses : list socket_addr) (last_error : option proxy_error)
    (before after : list step) (r : result proxy_error socket_addr) : Prop :=
  exists failed, attempts_fail before failed /\
    match r with
    | Ok a =>
        after = before ++ map Connected (failed ++ [a]) /\ failed ++ [a] `prefix_of` addresses /\
        connect (before ++ map Connected failed) a = ConnectOk
    | Err e =>
        (exists a, e = ShutdownError /\ after = before ++ map Connected (failed ++ [a]) /\
           failed ++ [a] `prefix_of` addresses) \/
        (failed = addresses /\ after = before ++ map Connected addresses /\
         match last addresses with
         | Some a => e = ConnectFailed a \/ e = ConnectTimedOut a
         | None => e = default (NoResolvedAddresses (bs "<empty address set>")) last_error
         end)
    end.
Lemma attempted_next `{Environment} a addresses e last_error before after r :
  e = ConnectFailed a \/ e = ConnectTimedOut a ->
  connect before a = ConnectError \/ connect before a = ConnectTimeout ->
  attempted addresses (Some e) (before ++ [Connected a]) after r ->
  attempted (a :: addresses) last_error before after r.
Proof.
  intros He Hc (failed & Hf & Hr). exists (a :: failed). split; [done|].
  destruct r as [x|e'].
  - destruct Hr as (-> & Hpre & Hx). cbn. rewrite <- app_assoc in Hx |- *. cbn.
    split; [done|]. split; [by apply prefix_cons|done].
  - destruct Hr as [(x & -> & -> & Hpre) | (-> & -> & Hlast)].
    + left. exists x. cbn. rewrite <- app_assoc. split; [done|]. split; [done|]. by apply prefix_cons.
    + right. split; [done|]. split; [cbn; by rewrite <- app_assoc|]. rewrite last_cons.
      destruct (last addresses); [exact Hlast|]. cbn [default] in Hlast. rewrite Hlast. exact He.
Qed.
Lemma connect_loop_spec `{Environment} addresses last_error w :
  let '(r, w') := connect_loop addresses last_error w in
  attempted addresses last_error (history w) (history w') r.
Proof.
  revert last_error w; induction addresses as [|a addresses IH]; intros last_error w; cbn [connect_loop].
  - exists []. split; [done|]. right. cbn. by rewrite app_nil_r.
  - assert (Hone : [] ++ [a] `prefix_of` a :: addresses) by apply prefix_cons, prefix_nil.
    pose proof (fun e => IH (Some e) (log (Connected a) w)) as Hgo.
    destruct (connect (history w) a) eqn:Hc.
    + exists []. cbn. rewrite app_nil_r. done.
    + specialize (Hgo (ConnectFailed a)). destruct (connect_loop _ _ _).
      eapply attempted_next; [by left|by left|exact Hgo].
    + specialize (Hgo (ConnectTimedOut a)). destruct (connect_loop _ _ _).
      eapply attempted_next; [by right|by right|exact Hgo].
    + exists []. split; [done|]. left. by exists a.
Qed.

(** * Properties *)

Section Properties.
Context `{Environment}.

Lemma resolution_nonempty l selected addresses : resolution l selected = Ok addresses -> addresses <> [].
Proof.
  unfold resolution. destruct (requested_host selected); [by intros [= <-]|].
  destruct (lookup_host _ _ _) as [[|a answers]| | |]; try done. intros [= <-]. apply btree_collect_nonempty.
Qed.
(** What name resolution answers for a target: the address itself with the target's
    port, or the addresses the resolver gives for the target's name and port, each
    once and in increasing order. *)
Definition resolves (h : list step) (selected : requested_facts) (addresses : list socket_addr) : Prop :=
  let port := Port.get (destination_port selected) in
  addresses <> [] /\ StronglySorted sa_lt addresses /\
  match requested_host selected with
  | Ip ip => addresses = [SocketAddr ip port 0]
  | Name host =>
      exists answers, lookup_host h (HostName.as_str host) port = LookupAddresses answers /\
        forall a, a ∈ addresses <-> a ∈ answers
  end.
Lemma resolution_resolves h selected addresses : resolution h selected = Ok addresses -> resolves h selected addresses.
Proof.
  intros Hr. pose proof (resolution_nonempty _ _ _ Hr) as Hne. unfold resolution in Hr. unfold resolves.
  destruct (requested_host selected) as [ip|host]; [injection Hr as <-; by repeat constructor|].
  destruct (lookup_host _ _ _) as [[|a answers]| | |]; try done. injection Hr as <-.
  destruct (btree_fold (a :: answers) [] (SSorted_nil _)) as [Hs Hx].
  split; [done|]. split; [done|]. eexists. split; [done|]. intros x. unfold btree_collect. rewrite Hx. set_solver.
Qed.

(** The target a request is resolved as: itself, or under enforcement the destination
    of the detour the policy decided for it. *)
Definition selected_target (snapshot : policy_snapshot) (requested selected : requested_facts) : Prop :=
  selected = requested \/
  enforcement snapshot = Enforce /\
  exists destination, Decision.action (requested_decision snapshot requested) = TcpDetour destination /\
    selected = redirected requested destination.
(** The target was allowed as requested, and each of the addresses by the destination
    guard and by the access-control policy. *)
Definition allowed_addresses (snapshot : policy_snapshot) (selected : requested_facts)
    (addresses : list socket_addr) : Prop :=
  Decision.action (requested_decision snapshot selected) = Allow /\
  Forall (fun a =>
    DestinationGuard.evaluate (destination_guard snapshot) (Acl.generation (snapshot_policy snapshot))
      (resolved_of selected a) = None /\
    Decision.action (Acl.evaluate (snapshot_policy snapshot) (Resolved (resolved_of selected a))) = Allow)
    addresses.
(** Authorisation of [requested], begun after [before] and over at [after], gave
    [addresses]: the selected target was looked up, and nothing else, once in between. *)
Definition authorized (before after : list step) (requested : requested_facts) (addresses : list socket_addr) : Prop :=
  let snapshot := current_snapshot before in
  exists selected l1 l2,
    after = before ++ l1 ++ lookup_steps selected ++ l2 /\ Forall publishing l1 /\ Forall publishing l2 /\
    selected_target snapshot requested selected /\
    resolves (before ++ l1) selected addresses /\
    (enforcement snapshot = Enforce -> allowed_addresses snapshot selected addresses).
Lemma authorize_and_resolve_authorized requested s t w w' addresses :
  authorize_and_resolve requested s t w = (Ok addresses, w') ->
  authorized (history w) (history w') requested addresses.
Proof.
  intros Hrun. pose proof (authorize_and_resolve_spec requested s t w) as Hspec.
  rewrite Hrun in Hspec. destruct Hspec as (l & Hh & Hauth). inversion Hauth as
    [| | |l1 l3 events selected addrs events' outcome Hreq Hp1 _ Hres Hrr Hp3 _ Hl Ho]; subst.
  destruct outcome as [[]|]; [|done]. injection Ho as ->.
  apply requested_run_selected in Hreq as [Hp Hsel]. exists selected, l1, l3.
  split; [done|]. split; [done|]. split; [done|].
  split; [destruct Hsel as [|(d & ? & ? & ?)]; [by left|right; eauto]|].
  split; [by apply resolution_resolves|]. intros He. split; [by apply (permits_enforced _ _ He)|].
  eapply Forall_impl; [exact (resolved_run_permitted _ _ _ _ Hrr)|]. cbn beta. intros a.
  unfold address_decisions. cbn [replay_facts_decisions]. rewrite Forall_app, Forall_singleton.
  intros [Hg Ha]. split; [|by apply (permits_enforced _ _ He)].
  cbn [snapshot_config replay_guard replay_policy] in Hg.
  destruct (DestinationGuard.evaluate _ _ _) as [d|] eqn:Hd; [|done].
  apply Forall_singleton, (permits_enforced _ _ He) in Hg. by apply guard_never_allows in Hd.
Qed.

(** C1. Destination safety: the addresses authorisation returns are those of one target,
    the request or, under enforcement, the destination of the detour the policy
    decided for the request.  They are the literal address with that target's port,
    or exactly the addresses the resolver answered for that target's name and port;
    that lookup is the only thing done besides writing the audit trail.  Under
    enforcement the access-control policy allowed that target, and the destination
    guard and the policy allowed every single address, all under the one snapshot
    taken at the start, whatever is reloaded meanwhile. *)
Theorem authorized_addresses_safe (requested : requested_facts) (s : session_id) (t : option transaction_id)
    (w w' : world) (addresses : list socket_addr) :
  authorize_and_resolve requested s t w = (Ok addresses, w') ->
  let snapshot := current_snapshot (history w) in
  exists selected l1 l2,
    history w' = history w ++ l1 ++ lookup_steps selected ++ l2 /\ Forall publishing l1 /\ Forall publishing l2 /\
    selected_target snapshot requested selected /\
    resolves (history w ++ l1) selected addresses /\
    (enforcement snapshot = Enforce -> allowed_addresses snapshot selected addresses).
Proof. intros. by eapply authorize_and_resolve_authorized. Qed.

Lemma lookup_steps_benign selected p : p ∈ lookup_steps selected -> exists host port, p = LookedUp host port.
Proof.
  unfold lookup_steps. destruct (requested_host selected); [by intros ?%not_elem_of_nil|].
  intros ->%list_elem_of_singleton. eauto.
Qed.
Lemma authorization_benign requested before l r : authorization requested before l r ->
  forall p, p ∈ l -> publishing p \/ exists host port, p = LookedUp host port.
Proof.
  intros Ha p. destruct Ha as [l e _ Hl|l1 events e _ HF _|l1 events selected e _ HF _ _|
    l1 l3 events selected addresses events' outcome _ HF _ _ _ HF3 _]; rewrite ?Forall_forall in *;
    rewrite ?elem_of_app; naive_solver eauto using lookup_steps_benign.
Qed.
Lemma resolution_not_refusal l selected e d : resolution l selected = Err e -> ~ (e = PolicyDenied d \/ e = DetourLoop d).
Proof.
  unfold resolution. destruct (requested_host selected); [done|].
  destruct (lookup_host _ _ _) as [[|a answers]| | |]; intros [= <-]; by intros [?|?].
Qed.

(** Refusals are accounted for: authorisation refuses only under enforcement, with a
    decision that is not an allow, and only after auditing that decision as executed;
    it never connects, sends or closes anything, and when the request itself is denied
    it does not even resolve the name. *)
Theorem refusals_are_audited (requested : requested_facts) (s : session_id) (t : option transaction_id)
    (w w' : world) (e : proxy_error) (d : Decision.t) :
  authorize_and_resolve requested s t w = (Err e, w') -> e = PolicyDenied d \/ e = DetourLoop d ->
  let snapshot := current_snapshot (history w) in
  enforcement snapshot = Enforce /\ Decision.action d <> Allow /\
  exists l, history w' = history w ++ l /\ last (audited l) = Some (ActionExecuted d) /\
    (forall p, p ∈ l -> publishing p \/ exists host port, p = LookedUp host port) /\
    (permits snapshot (requested_decision snapshot requested) = false ->
     (forall x, Decision.action (requested_decision snapshot requested) <> TcpDetour x) ->
     Forall publishing l).
Proof.
  intros Hrun Hed snapshot. pose proof (authorize_and_resolve_spec requested s t w) as Hspec.
  rewrite Hrun in Hspec. destruct Hspec as (l & Hh & Hauth).
  pose proof (authorization_benign _ _ _ _ Hauth) as Hbenign.
  assert (Hrefusal : forall events, refusal snapshot events e ->
    enforcement snapshot = Enforce /\ Decision.action d <> Allow /\ last events = Some (ActionExecuted d)).
  { intros events (d' & Hd' & Hp & Hl). apply refused_enforces in Hp as [He Ha].
    assert (d' = d) as -> by (destruct Hed, Hd'; congruence). done. }
  inversion Hauth as [? e' Hfc _ Hl He|? events e' Hreq HF Ha Hl He|? ? selected e' _ _ _ Hres Hl He|
    l1 l3 events selected addrs events' outcome Hreq HF1 _ _ Hrr HF3 Ha Hl Ho]; subst.
  - by destruct Hed.
  - destruct (Hrefusal _ (requested_run_refusal _ _ _ _ _ Hreq)) as (? & ? & ?). eauto 8.
  - by apply resolution_not_refusal with (d := d) in Hres.
  - destruct outcome; [done|]. injection Ho as ->.
    destruct (Hrefusal _ (resolved_run_refusal _ _ _ _ _ Hrr)) as (? & ? & Hlast).
    split; [done|]. split; [done|]. eexists. split; [done|]. split.
    { rewrite !audited_app, Ha, !last_app, last_cons, Hlast. done. }
    split; [done|]. intros Hp Hnd. exfalso. apply requested_run_selected in Hreq as [Hperm [-> |(x & Hx & _)]].
    + unfold snapshot in Hp. by rewrite Hp in Hperm.
    + by apply Hnd in Hx.
Qed.

(** C24. The audit trail is replayable: unless a fail-closed audit channel interrupted it,
    re-evaluating offline the facts that one authorisation recorded, with the policy and
    guard it used, gives exactly the list of decisions it recorded, in order. *)
Theorem authorization_replays (requested : requested_facts) (s : session_id) (t : option transaction_id)
    (w w' : world) (r : result proxy_error (list socket_addr)) :
  authorize_and_resolve requested s t w = (r, w') -> (forall e, r <> Err (Audit e)) ->
  exists l, history w' = history w ++ l /\
    evaluated (audited l) =
      concat (map (replay_facts_decisions (snapshot_config (current_snapshot (history w))))
                (observed_facts (audited l))).
Proof.
  intros Hrun Hna. pose proof (authorize_and_resolve_spec requested s t w) as Hspec.
  rewrite Hrun in Hspec. destruct Hspec as (l & Hh & Hauth). exists l. split; [done|].
  set (snapshot := current_snapshot (history w)). fold (replays snapshot (audited l)).
  assert (Hlook : forall selected, audited (lookup_steps selected) = []).
  { intros selected. unfold lookup_steps. by destruct (requested_host selected). }
  pose proof (replays_requested 1 snapshot requested) as Hr1.
  inversion Hauth as [? e' Hfc _ Hl He|? events e' Hreq HF Ha Hl He|? ? selected e' Hreq _ Ha Hres Hl He|
    l1 l3 events selected addrs events' outcome Hreq HF1 Ha1 _ Hrr HF3 Ha Hl Ho]; subst.
  - by destruct (Hna e').
  - fold snapshot in Hreq. by rewrite Hreq in Hr1.
  - fold snapshot in Hreq. rewrite Hreq in Hr1. rewrite audited_app, Hlook, app_nil_r. done.
  - fold snapshot in Hreq, Hrr. rewrite Hreq in Hr1. rewrite !audited_app, Hlook, Ha. cbn [app].
    apply replays_app; [done|]. pose proof (replays_resolved snapshot selected addrs) as Hr2.
    rewrite Hrr in Hr2. by apply (replays_app _ [_]).
Qed.

(** With a policy that passed validation, the detour-loop error has one cause: the
    request was detoured and the detour destination is itself detoured.  Addresses
    found by resolution can never trigger it. *)
Theorem detour_loop_cause (g : PolicyGeneration.t) (rs : list acl_rule) (dflt : rule_action)
    (requested : requested_facts) (s : session_id) (t : option transaction_id) (w w' : world) (d : Decision.t) :
  acl_policy_new g rs dflt = Ok (snapshot_policy (current_snapshot (history w))) ->
  authorize_and_resolve requested s t w = (Err (DetourLoop d), w') ->
  let snapshot := current_snapshot (history w) in
  exists first second, Decision.action (requested_decision snapshot requested) = TcpDetour first /\
    d = requested_decision snapshot (redirected requested first) /\ Decision.action d = TcpDetour second.
Proof.
  intros Hwf%acl_policy_new_Ok Hrun snapshot. pose proof (authorize_and_resolve_spec requested s t w) as Hspec.
  rewrite Hrun in Hspec. destruct Hspec as (l & Hh & Hauth).
  inversion Hauth as [|? events e' Hreq HF Ha Hl He|? ? selected e' _ _ _ Hres Hl He|
    l1 l3 events selected addrs events' outcome Hreq HF1 Ha1 _ Hrr HF3 Ha Hl Ho]; subst.
  - by eapply requested_run_loop.
  - apply resolution_not_refusal with (d := d) in Hres. destruct Hres. by right.
  - destruct outcome; [done|]. injection Ho as ->.
    apply requested_run_selected in Hreq as [Hperm _].
    by apply (resolved_run_no_loop _ _ _ _ _ (proj2 Hwf) Hperm) in Hrr.
Qed.

(** Resolution keeps each answer once, in increasing order: the addresses tried do
    not depend on the order or multiplicity in which the resolver returned them. *)
Theorem resolved_addresses_are_a_set (answers : list socket_addr) :
  StronglySorted sa_lt (btree_collect answers) /\ forall a, a ∈ btree_collect answers <-> a ∈ answers.
Proof.
  destruct (btree_fold answers [] (SSorted_nil _)) as [Hs Hx]. split; [done|].
  intros a. unfold btree_collect. rewrite Hx. set_solver.
Qed.

(** Connecting tries the given addresses in order and nothing else: it returns the
    address of its last attempt, all earlier ones having failed; it gives up only after
    trying every address, with the error of the last one, or on shutdown. *)
Theorem connect_any_tries_in_order (addresses : list socket_addr) (w : world) :
  let '(r, w') := connect_any addresses w in
  attempted addresses None (history w) (history w') r.
Proof. apply connect_loop_spec. Qed.
End Properties.

(** * A concrete environment: enforcement, an audit channel that accepts, a resolver
    that answers with repeated addresses *)
Module Example_flow.
#[local] Existing Instance host_nets.
#[local] Existing Instance Example_headers.gmap_headers.
Definition public : ip_addr := ipv4 203 0 113 5.
Definition trap : UpstreamEndpoint.t := UpstreamEndpoint.Make (Ip (ipv4 203 0 113 9)) (Port.Make 2222).
Definition decoy : UpstreamEndpoint.t := UpstreamEndpoint.Make (Ip (ipv4 203 0 113 7)) (Port.Make 2223).
Definition tcp_from (source : ip_addr) : match_expression := All [MatchProtocol Tcp; SourceIp source].
(** [192.0.2.1] is detoured wherever it goes, [192.0.2.2] refused, [192.0.2.3] detoured
    from port 443, everything else allowed. *)
Definition rules : list acl_rule :=
  [AclRule (RuleId.Make (bs "trap")) (tcp_from (ipv4 192 0 2 1)) (RuleDetour trap);
   AclRule (RuleId.Make (bs "no")) (tcp_from (ipv4 192 0 2 2)) RuleDeny;
   AclRule (RuleId.Make (bs "decoy")) (All [tcp_from (ipv4 192 0 2 3); DestinationPort (PortRange.Make (Port.Make 443) (Port.Make 443))])
     (RuleDetour decoy)].
Definition policy : acl_policy := AclPolicy PolicyGeneration.INITIAL rules RuleAllow.
Definition snapshot : policy_snapshot :=
  PolicySnapshot policy (compiled default_settings) Enforce Streaming (InspectionProgram.empty PolicyGeneration.INITIAL).
#[local] Instance environment : Environment := {|
  audit_policy := FailClosed; audit_answer := fun _ _ => Ok tt; events_enabled := true;
  current_snapshot := fun _ => snapshot;
  hook_runner := fun _ => HookRunner.Make Disabled (HookRunner.Registry [] [] [] [] [] []) HookFailClosed;
  capture_prefix_bytes := None; ui_content_bytes := None; now := fun l => N.of_nat (length l);
  lookup_host := fun _ _ port => LookupAddresses [SocketAddr public port 0; SocketAddr public port 0];
  connect := fun _ _ => ConnectOk; local_addr := fun _ => None; read_answer := fun _ _ => ReadUpTo 1023;
  write_answer := fun _ _ _ => WriteDone; shutdown_answer := fun _ _ => true |}.
Definition start : world := World [] (MetricCounters 0 0 0 0 0 0 0 0 0 0) [] [].
Definition request (source : ip_addr) : requested_facts :=
  RequestedTargetFacts source (Name (HostName.Make (bs "a.example"))) (Port.Make 443) Tcp.
Definition run (source : ip_addr) : result proxy_error (list socket_addr) * world :=
  authorize_and_resolve (request source) 1%N None start.

(** The detoured client: the addresses are the trap's, not the requested host's. *)
Definition inside (source : ip_addr) (addresses : list socket_addr) (w' : world) : Prop :=
  let snapshot := current_snapshot (history start) in
  exists selected l1 l2,
    history w' = history start ++ l1 ++ lookup_steps selected ++ l2 /\ Forall publishing l1 /\ Forall publishing l2 /\
    selected_target snapshot (request source) selected /\
    resolves (history start ++ l1) selected addresses /\
    (enforcement snapshot = Enforce -> allowed_addresses snapshot selected addresses).
Lemma authorized_addresses_safe_witness :
  inside (ipv4 198 51 100 1) [SocketAddr public 443 0] (run (ipv4 198 51 100 1)).2 /\
  inside (ipv4 192 0 2 3) [SocketAddr (ipv4 203 0 113 7) 2223 0] (run (ipv4 192 0 2 3)).2.
Proof.
  split.
  - apply (authorized_addresses_safe (request (ipv4 198 51 100 1)) 1%N None start
             (run (ipv4 198 51 100 1)).2 [SocketAddr public 443 0]).
    vm_compute. reflexivity.
  - apply (authorized_addresses_safe (request (ipv4 192 0 2 3)) 1%N None start
             (run (ipv4 192 0 2 3)).2 [SocketAddr (ipv4 203 0 113 7) 2223 0]).
    vm_compute. reflexivity.
Defined.
Definition refused : Decision.t := requested_decision snapshot (request (ipv4 192 0 2 2)).
Lemma refusals_are_audited_witness :
  exists l, history (run (ipv4 192 0 2 2)).2 = [] ++ l /\ last (audited l) = Some (ActionExecuted refused).
Proof.
  destruct (refusals_are_audited (request (ipv4 192 0 2 2)) 1%N None start (run (ipv4 192 0 2 2)).2
              (PolicyDenied refused) refused) as (_ & _ & l & Hh & Hl & _).
  - vm_compute. reflexivity.
  - left. reflexivity.
  - exists l. split; [exact Hh|exact Hl].
Defined.
Lemma authorization_replays_witness :
  exists l, history (run (ipv4 192 0 2 1)).2 = history start ++ l /\
    evaluated (audited l)
    = concat (map (replay_facts_decisions (snapshot_config (current_snapshot (history start)))) (observed_facts (audited l))).
Proof.
  apply (authorization_replays (request (ipv4 192 0 2 1)) 1%N None start (run (ipv4 192 0 2 1)).2
           (run (ipv4 192 0 2 1)).1).
  - vm_compute. reflexivity.
  - intros e. vm_compute. discriminate.
Defined.
Definition loop_decision : Decision.t := requested_decision snapshot (redirected (request (ipv4 192 0 2 1)) trap).
Lemma detour_loop_cause_witness :
  let snapshot := current_snapshot (history start) in
  exists first second, Decision.action (requested_decision snapshot (request (ipv4 192 0 2 1))) = TcpDetour first /\
    loop_decision = requested_decision snapshot (redirected (request (ipv4 192 0 2 1)) first) /\
    Decision.action loop_decision = TcpDetour second.
Proof.
  apply (detour_loop_cause PolicyGeneration.INITIAL rules RuleAllow (request (ipv4 192 0 2 1)) 1%N None start
           (run (ipv4 192 0 2 1)).2 loop_decision).
  - vm_compute. reflexivity.
  - vm_compute. reflexivity.
Defined.
End Example_flow.
