(* ===== verification/FlowInspect.v ===== *)
(** Per-flow inspection (crates/freja-proxy/src/inspection.rs): bounded scanning of each
    direction, bounded capture for the audit stream and for observers, and hook
    transformations of chunks and bodies. *)
From stdpp Require Import gmap strings.
From stdpp Require Import prelude.
From S2P Require Import Prelude Bytes Net Endpoint Domain PolicyModel Acl Guard Inspection AuditModel AuditSink Hooks Runtime Destination.

Definition direction_index (d : direction) : nat :=
  match d with ClientToUpstream => 0 | UpstreamToClient => 1 | HttpRequestBody => 2 | HttpResponseBody => 3 end.
(** The [[T; 4]] arrays, by direction. *)
Definition array_get {A} (d : A) (arr : list A) (i : nat) : A := default d (arr !! i).

Section FlowInspector.
Context `{Environment, Sha256, Hex}.

Record flow_inspector : Type := FlowInspector {
  inspector_decision : policy_snapshot;
  inspector_session : session_id;
  inspector_transaction : option transaction_id;
  inspector_protocol : protocol;
  inspector_target : option resolved_facts;
  inspector_mode : inspection_mode;
  client_to_upstream : StreamScanner.t;
  upstream_to_client : StreamScanner.t;
  http_request_body : StreamScanner.t;
  http_response_body : StreamScanner.t;
  captured_bytes : list N;
  ui_observed_bytes : list N;
  ui_retained_bytes : list N;
  ui_truncation_reported : list bool;
  maximum_inspected_bytes : N;
  inspected_bytes : list N }.

(** [FlowInspector::new] from a snapshot; [inspector_new] takes the current one. *)
Definition inspector_of (snapshot : policy_snapshot) (s : session_id) (t : option transaction_id)
    (p : protocol) (maximum : N) : flow_inspector :=
  let scanner := StreamScanner.scanner (snapshot_inspection snapshot) in
  FlowInspector snapshot s t p None (snapshot_inspection_mode snapshot)
    (scanner ClientToUpstream) (scanner UpstreamToClient) (scanner HttpRequestBody) (scanner HttpResponseBody)
    (replicate 4 0%N) (replicate 4 0%N) (replicate 4 0%N) (replicate 4 false) maximum (replicate 4 0%N).
Definition inspector_new (s : session_id) (t : option transaction_id) (p : protocol) (maximum : N)
  : flow flow_inspector :=
  snapshot ← decision_snapshot; mret (inspector_of snapshot s t p maximum).
Definition uses_preflight (i : flow_inspector) : bool := bool_decide (inspector_mode i = Preflight).
Definition with_target (i : flow_inspector) (target : resolved_facts) : flow_inspector :=
  FlowInspector (inspector_decision i) (inspector_session i) (inspector_transaction i) (inspector_protocol i)
    (Some target) (inspector_mode i) (client_to_upstream i) (upstream_to_client i) (http_request_body i)
    (http_response_body i) (captured_bytes i) (ui_observed_bytes i) (ui_retained_bytes i)
    (ui_truncation_reported i) (maximum_inspected_bytes i) (inspected_bytes i).

Definition scanner_of (i : flow_inspector) (d : direction) : StreamScanner.t :=
  match d with
  | ClientToUpstream => client_to_upstream i
  | UpstreamToClient => upstream_to_client i
  | HttpRequestBody => http_request_body i
  | HttpResponseBody => http_response_body i
  end.
Definition with_scanner (i : flow_inspector) (d : direction) (sc : StreamScanner.t) (inspected : list N)
  : flow_inspector :=
  let pick (x : direction) (old : StreamScanner.t) := if decide (d = x) then sc else old in
  FlowInspector (inspector_decision i) (inspector_session i) (inspector_transaction i) (inspector_protocol i)
    (inspector_target i) (inspector_mode i)
    (pick ClientToUpstream (client_to_upstream i)) (pick UpstreamToClient (upstream_to_client i))
    (pick HttpRequestBody (http_request_body i)) (pick HttpResponseBody (http_response_body i))
    (captured_bytes i) (ui_observed_bytes i) (ui_retained_bytes i) (ui_truncation_reported i)
    (maximum_inspected_bytes i) inspected.
Definition with_ui (i : flow_inspector) (observed retained : list N) (reported : list bool) : flow_inspector :=
  FlowInspector (inspector_decision i) (inspector_session i) (inspector_transaction i) (inspector_protocol i)
    (inspector_target i) (inspector_mode i) (client_to_upstream i) (upstream_to_client i)
    (http_request_body i) (http_response_body i) (captured_bytes i) observed retained reported
    (maximum_inspected_bytes i) (inspected_bytes i).
Definition with_captured (i : flow_inspector) (captured : list N) : flow_inspector :=
  FlowInspector (inspector_decision i) (inspector_session i) (inspector_transaction i) (inspector_protocol i)
    (inspector_target i) (inspector_mode i) (client_to_upstream i) (upstream_to_client i)
    (http_request_body i) (http_response_body i) captured (ui_observed_bytes i) (ui_retained_bytes i)
    (ui_truncation_reported i) (maximum_inspected_bytes i) (inspected_bytes i).

Definition publish_ui_prefix (i : flow_inspector) (d : direction) (b : bytes) : flow flow_inspector :=
  let index := direction_index d in
  let offset := array_get 0%N (ui_observed_bytes i) index in
  let observed := sat_add offset (lenN b) in
  let i := with_ui i (<[index := observed]> (ui_observed_bytes i)) (ui_retained_bytes i) (ui_truncation_reported i) in
  match ui_content_bytes with
  | None => mret i
  | Some content_bytes =>
      let remaining := (content_bytes - array_get 0%N (ui_retained_bytes i) index)%N in
      let retained := N.min remaining (lenN b) in
      let i := with_ui i (ui_observed_bytes i)
                 (<[index := sat_add (array_get 0%N (ui_retained_bytes i) index) retained]> (ui_retained_bytes i))
                 (ui_truncation_reported i) in
      let truncated := (retained <? lenN b)%N in
      if (retained =? 0)%N && (negb truncated || array_get false (ui_truncation_reported i) index)
      then mret i
      else
        let i := with_ui i (ui_observed_bytes i) (ui_retained_bytes i)
                   (if truncated then <[index := true]> (ui_truncation_reported i) else ui_truncation_reported i) in
        _ ← publish_body_prefix (inspector_session i) (inspector_transaction i) d (takeN retained b) offset
              observed truncated;
        mret i
  end.
Definition capture (i : flow_inspector) (d : direction) (b : bytes) : flow flow_inspector :=
  match capture_prefix_bytes with
  | None => mret i
  | Some maximum =>
      let index := direction_index d in
      let remaining := (maximum - array_get 0%N (captured_bytes i) index)%N in
      let count := N.min remaining (lenN b) in
      if (count =? 0)%N then mret i
      else
        let i := with_captured i (<[index := sat_add (array_get 0%N (captured_bytes i) index) count]> (captured_bytes i)) in
        c ← audit_context_ (inspector_session i) (inspector_transaction i);
        _ ← publish_capture c d (inspector_protocol i) (takeN count b);
        mret i
  end.
(** The loop over findings: [false] at the first one the policy does not permit. *)
Fixpoint judge_findings (i : flow_inspector) (c : audit_context) (findings : list finding) : flow bool :=
  match findings with
  | [] => mret true
  | f :: findings =>
      _ ← publish_finding c f;
      _ ← publish_replay_facts c (ReplayFinding f (inspector_protocol i));
      let '(decision, definition) :=
        InspectionProgram.evaluate_with_definition (snapshot_inspection (inspector_decision i)) f (inspector_protocol i) in
      _ ← publish_inspection_decision c decision (definition, enforcement (inspector_decision i)) (inspector_target i);
      if permits (inspector_decision i) decision then judge_findings i c findings
      else _ ← record_action (inspector_session i) (inspector_transaction i) decision; mret false
  end.
(** The scanning part of [permits], on the bytes within the budget. *)
Definition scan_step (i : flow_inspector) (d : direction) (b : bytes) : option (list finding) * flow_inspector :=
  let index := direction_index d in
  let inspected := array_get 0%N (inspected_bytes i) index in
  let remaining := (maximum_inspected_bytes i - inspected)%N in
  let count := N.min remaining (lenN b) in
  if (count =? 0)%N then (None, i)
  else
    let inspected :=
      if uses_preflight i then maximum_inspected_bytes i else sat_add inspected count in
    let '(findings, sc) := StreamScanner.inspect (scanner_of i d) (takeN count b) in
    (Some findings, with_scanner i d sc (<[index := inspected]> (inspected_bytes i))).
(** [FlowInspector::permits]. *)
Definition inspector_permits (i : flow_inspector) (d : direction) (b : bytes) : flow (bool * flow_inspector) :=
  i ← publish_ui_prefix i d b;
  i ← capture i d b;
  match scan_step i d b with
  | (None, i) => mret (true, i)
  | (Some findings, i) =>
      c ← audit_context_ (inspector_session i) (inspector_transaction i);
      ok ← judge_findings i c findings;
      mret (ok, i)
  end.

Definition transform_tcp_chunk (i : flow_inspector) (d : direction) (b : bytes) (maximum : N)
  : flow (option bytes) :=
  c ← audit_context_ (inspector_session i) (inspector_transaction i);
  plan ← run_tcp_hook c d b;
  match plan with
  | KeepChunk => mret (Some b)
  | ReplaceChunk replacement =>
      if (maximum <? lenN replacement)%N then fail (HookMutation (BodyTooLarge (lenN replacement) maximum))
      else mret (Some replacement)
  | DropChunk => mret None
  end.
(** [BodyTransform { bytes, replaced }]. *)
Definition transform_http_body (i : flow_inspector) (d : direction) (b : bytes) (maximum : N)
    (decoded_replacement_allowed : bool) : flow (bytes * bool) := fun w =>
  let runner := hook_runner (history w) in
  if decide (HookRunner.mode runner = Disabled) then (Ok (b, false), w)
  else
    match (match d with
           | HttpRequestBody => Some (HookHttpRequestBody, HookRunner.request_body runner b)
           | HttpResponseBody => Some (HookHttpResponseBody, HookRunner.response_body runner b)
           | ClientToUpstream | UpstreamToClient => None
           end) with
    | None => (Ok (b, false), w)
    | Some (stage, r) =>
        (c ← audit_context_ (inspector_session i) (inspector_transaction i);
         _ ← publish_hook_outcome c stage (is_ok r);
         plan ← lift (map_err HookError r);
         let replaced := match plan with ReplaceBody _ => true | KeepBody => false end in
         if replaced && negb decoded_replacement_allowed then fail (HookMutation EncodedBodyReplacement)
         else
           output ← lift (map_err HookMutation (apply_body_mutation b plan maximum));
           mret (output, replaced)) w
    end.
End FlowInspector.

(** * Reference: inspection as a pure function *)

Section Reference.
Context `{Environment, Sha256, Hex}.

Definition finding_decision (i : flow_inspector) (f : finding) : Decision.t :=
  InspectionProgram.evaluate (snapshot_inspection (inspector_decision i)) f (inspector_protocol i).
Fixpoint judge_run (i : flow_inspector) (findings : list finding) : list audit_event * bool :=
  match findings with
  | [] => ([], true)
  | f :: findings =>
      let d := finding_decision i f in
      let events := [FindingDetected f; ReplayFactsObserved (ReplayFinding f (inspector_protocol i)); InspectionEvaluated d] in
      if permits (inspector_decision i) d
      then let '(rest, ok) := judge_run i findings in (events ++ rest, ok)
      else (events ++ [ActionExecuted d], false)
  end.
(** The state after [publish_ui_prefix]. *)
Definition ui_next (i : flow_inspector) (d : direction) (b : bytes) : flow_inspector :=
  match publish_ui_prefix i d b (World [] (MetricCounters 0 0 0 0 0 0 0 0 0 0) [] []) with
  | (Ok i, _) => i
  | _ => i
  end.
Definition capture_count (i : flow_inspector) (d : direction) (b : bytes) : N :=
  match capture_prefix_bytes with
  | None => 0
  | Some maximum => N.min (maximum - array_get 0%N (captured_bytes i) (direction_index d)) (lenN b)
  end.
Definition capture_next (i : flow_inspector) (d : direction) (b : bytes) : list audit_event * flow_inspector :=
  let count := capture_count i d b in
  if (count =? 0)%N then ([], i)
  else ([PayloadPrefixCaptured d (inspector_protocol i) (hex_encode (takeN count b))],
        with_captured i (<[direction_index d := sat_add (array_get 0%N (captured_bytes i) (direction_index d)) count]>
                           (captured_bytes i))).
Definition permits_run (i : flow_inspector) (d : direction) (b : bytes) : list audit_event * (bool * flow_inspector) :=
  let '(events, i) := capture_next (ui_next i d b) d b in
  match scan_step i d b with
  | (None, i) => (events, (true, i))
  | (Some findings, i) => let '(rest, ok) := judge_run i findings in (events ++ rest, (ok, i))
  end.
(** A sequence of chunks of both directions, up to the first one refused. *)
Fixpoint feed (i : flow_inspector) (chunks : list (direction * bytes)) : flow (bool * flow_inspector) :=
  match chunks with
  | [] => mret (true, i)
  | (d, b) :: chunks =>
      '(ok, i) ← inspector_permits i d b;
      if (ok : bool) then feed i chunks else mret (false, i)
  end.
Fixpoint feed_run (i : flow_inspector) (chunks : list (direction * bytes)) : list audit_event * (bool * flow_inspector) :=
  match chunks with
  | [] => ([], (true, i))
  | (d, b) :: chunks =>
      let '(events, (ok, i)) := permits_run i d b in
      if ok then let '(rest, r) := feed_run i chunks in (events ++ rest, r) else (events, (false, i))
  end.

Lemma judge_follows i c findings :
  let '(events, ok) := judge_run i findings in follows (judge_findings i c findings) events (Ok ok).
Proof.
  induction findings as [|f findings IH]; cbn [judge_run judge_findings]; [auto with scripts|].
  unfold finding_decision, InspectionProgram.evaluate.
  destruct (InspectionProgram.evaluate_with_definition _ f _) as [d def]; cbn [fst].
  destruct (permits (inspector_decision i) d); [destruct (judge_run i findings) as [rest ok]|];
    cbn [app]; repeat script_step.
  - exact IH.
  - auto with scripts.
Qed.
Lemma ui_follows i d b : follows (publish_ui_prefix i d b) [] (Ok (ui_next i d b)).
Proof.
  unfold ui_next, publish_ui_prefix. destruct ui_content_bytes as [content|]; [|auto with scripts].
  destruct (_ && _); [auto with scripts|]. unfold publish_body_prefix. script_step.
  unfold mbind, flow_bind, try_publish. auto with scripts.
Qed.
Lemma capture_follows i d b :
  follows (capture i d b) (capture_next i d b).1 (Ok (capture_next i d b).2).
Proof.
  unfold capture, capture_next, capture_count. destruct capture_prefix_bytes as [maximum|]; [|auto with scripts].
  destruct (_ =? 0)%N; cbn [fst snd]; [auto with scripts|]. unfold publish_capture. repeat script_step. auto with scripts.
Qed.
Definition scan_run (i : flow_inspector) (d : direction) (b : bytes) : list audit_event * (bool * flow_inspector) :=
  match scan_step i d b with
  | (None, i) => ([], (true, i))
  | (Some findings, i) => let '(rest, ok) := judge_run i findings in (rest, (ok, i))
  end.
Lemma permits_run_scan i d b :
  let '(events, i2) := capture_next (ui_next i d b) d b in
  permits_run i d b = (events ++ (scan_run i2 d b).1, (scan_run i2 d b).2).
Proof.
  unfold permits_run, scan_run. destruct (capture_next _ d b) as [events i2].
  destruct (scan_step i2 d b) as [[findings|] i3]; cbn; [by destruct (judge_run i3 findings)|by rewrite app_nil_r].
Qed.
Lemma permits_follow i d b : follows (inspector_permits i d b) (permits_run i d b).1 (Ok (permits_run i d b).2).
Proof.
  pose proof (permits_run_scan i d b) as Hrun. pose proof (capture_follows (ui_next i d b) d b) as Hc.
  destruct (capture_next _ d b) as [events i2]. rewrite Hrun. cbn [fst snd] in *.
  unfold inspector_permits. rewrite <- (app_nil_l (events ++ _)).
  eapply follows_bind; [apply ui_follows|]. eapply follows_bind; [exact Hc|]. cbv beta. unfold scan_run.
  destruct (scan_step i2 d b) as [[findings|] i3]; [|cbn; auto with scripts].
  destruct (judge_run i3 findings) as [rest ok] eqn:Hj. cbn [fst snd].
  apply follows_context. intros c. rewrite <- (app_nil_r rest).
  eapply follows_bind; [|auto with scripts]. pose proof (judge_follows i3 c findings) as Hf. by rewrite Hj in Hf.
Qed.
Lemma feed_follows i chunks : follows (feed i chunks) (feed_run i chunks).1 (Ok (feed_run i chunks).2).
Proof.
  revert i; induction chunks as [|[d b] chunks IH]; intros i; cbn [feed feed_run]; [apply follows_ret|].
  pose proof (permits_follow i d b) as Hp. destruct (permits_run i d b) as [events [ok i2]]. cbn [fst snd] in Hp.
  destruct ok.
  - specialize (IH i2). destruct (feed_run i2 chunks) as [rest r]. cbn [fst snd] in *.
    eapply follows_bind; [exact Hp|]. exact IH.
  - cbn [fst snd]. rewrite <- (app_nil_r events). eapply follows_bind; [exact Hp|]. apply follows_ret.
Qed.
End Reference.

(** * What a permitted stream cannot contain *)

Definition stream_of (d : direction) (chunks : list (direction * bytes)) : bytes :=
  concat (map snd (filter (fun c => c.1 = d) chunks)).

Section Streams.
Context `{Environment, Sha256, Hex}.

(** The part of the inspector that decides. *)
Definition scan_view (i : flow_inspector) :=
  (inspector_decision i, inspector_protocol i, inspector_mode i, maximum_inspected_bytes i,
   inspected_bytes i, fun d => scanner_of i d).
Lemma ui_next_view i d b : scan_view (ui_next i d b) = scan_view i.
Proof.
  unfold ui_next, publish_ui_prefix. destruct ui_content_bytes; [|done].
  destruct (_ && _); [done|]. unfold mbind, flow_bind, publish_body_prefix, try_publish. done.
Qed.
Lemma capture_next_view i d b : scan_view (capture_next i d b).2 = scan_view i.
Proof. unfold capture_next. by destruct (_ =? 0)%N. Qed.

(** The inspector after the bytes [streams] of each direction, in streaming mode. *)
Record tracks (snapshot : policy_snapshot) (p : protocol) (maximum : N) (streams : direction -> bytes)
    (i : flow_inspector) : Prop := {
  tr_decision : inspector_decision i = snapshot;
  tr_protocol : inspector_protocol i = p;
  tr_mode : inspector_mode i = Streaming;
  tr_maximum : maximum_inspected_bytes i = maximum;
  tr_length : length (inspected_bytes i) = 4;
  tr_scanner : forall d, scanner_inv (snapshot_inspection snapshot) d (takeN maximum (streams d)) (scanner_of i d);
  tr_inspected : forall d, array_get 0%N (inspected_bytes i) (direction_index d) = N.min maximum (lenN (streams d)) }.
Lemma tracks_view snapshot p maximum streams i i' :
  scan_view i' = scan_view i -> tracks snapshot p maximum streams i -> tracks snapshot p maximum streams i'.
Proof.
  unfold scan_view. intros E. injection E as E1 E2 E3 E4 E5 E6. intros [T1 T2 T3 T4 T5 T6 T7].
  split; rewrite ?E1, ?E2, ?E3, ?E4, ?E5; try done.
  intros d. pose proof (f_equal (fun g => g d) E6) as Ed. cbv beta in Ed. rewrite Ed. apply T6.
Qed.
Definition extend (streams : direction -> bytes) (d : direction) (b : bytes) : direction -> bytes :=
  fun x => if decide (x = d) then streams x ++ b else streams x.
Lemma takeN_app_within m (a b : bytes) :
  takeN m (a ++ b) = takeN m a ++ takeN (N.min (m - N.min m (lenN a)) (lenN b)) b.
Proof.
  unfold takeN, lenN. rewrite take_app. f_equal.
  replace (N.to_nat (N.min (m - N.min m (N.of_nat (length a))) (N.of_nat (length b))))
    with (Nat.min (N.to_nat m - length a) (length b)) by lia.
  destruct (decide (N.to_nat m - length a <= length b)).
  - by rewrite Nat.min_l by lia.
  - rewrite Nat.min_r by lia. rewrite (take_ge b (length b)), take_ge by lia. done.
Qed.
Lemma direction_index_lt d : direction_index d < 4.
Proof. destruct d; cbn; lia. Qed.
Lemma direction_index_inj d d' : direction_index d = direction_index d' -> d = d'.
Proof. by destruct d, d'. Qed.
Lemma array_insert (l : list N) d x v : length l = 4 ->
  array_get 0%N (<[direction_index d := v]> l) (direction_index x)
  = if decide (x = d) then v else array_get 0%N l (direction_index x).
Proof.
  intros Hl. unfold array_get. case_decide as Hx.
  - subst x. rewrite list_lookup_insert_eq by (rewrite Hl; apply direction_index_lt). done.
  - rewrite list_lookup_insert_ne; [done|]. intros E%direction_index_inj. done.
Qed.

Lemma scan_step_tracks snapshot p maximum streams i d b :
  program_wf (snapshot_inspection snapshot) -> (maximum <= u64_max)%N ->
  tracks snapshot p maximum streams i ->
  let chunk := takeN (N.min (maximum - N.min maximum (lenN (streams d))) (lenN b)) b in
  default [] (scan_step i d b).1
    = InspectionProgram.patterns (snapshot_inspection snapshot) ≫= new_findings d (takeN maximum (streams d)) chunk /\
  tracks snapshot p maximum (extend streams d b) (scan_step i d b).2.
Proof.
  intros Hwf Hmax [T1 T2 T3 T4 T5 T6 T7] chunk. unfold scan_step. rewrite T4, (T7 d).
  set (count := N.min (maximum - N.min maximum (lenN (streams d))) (lenN b)) in *.
  assert (Htake : takeN maximum (streams d ++ b) = takeN maximum (streams d) ++ chunk) by apply takeN_app_within.
  assert (Hext : forall x, takeN maximum (extend streams d b x)
     = if decide (x = d) then takeN maximum (streams d) ++ chunk else takeN maximum (streams x)).
  { intros x. unfold extend. case_decide; [by subst|done]. }
  assert (Hlen : (lenN (takeN maximum (streams d) ++ chunk) <= u64_max)%N).
  { rewrite <- Htake. unfold lenN, takeN. rewrite length_take. lia. }
  destruct (inspect_step _ d _ _ chunk Hwf (T6 d) Hlen) as [Hf Hs].
  destruct (N.eqb_spec count 0) as [Hz|Hz]; cbn [fst snd default].
  - assert (Hnil : chunk = []) by (unfold chunk; rewrite Hz; done). rewrite Hnil in Hf, Hext |- *.
    split.
    + rewrite <- Hf. unfold StreamScanner.inspect. by rewrite bool_decide_true by done.
    + split; try done.
      * intros x. rewrite Hext. case_decide; [subst x; rewrite app_nil_r|]; apply T6.
      * intros x. rewrite T7. unfold extend. case_decide; [subst x|done].
        unfold count in Hz. unfold lenN in *. rewrite length_app. lia.
  - replace (uses_preflight i) with false by (unfold uses_preflight; by rewrite T3).
    change (takeN count b) with chunk. destruct (StreamScanner.inspect (scanner_of i d) chunk) as [findings sc].
    cbn [fst snd default] in *. split; [done|]. split; try done.
    + cbn. by rewrite length_insert.
    + intros x. rewrite Hext. unfold with_scanner, scanner_of. cbn.
      case_decide as Hx; [subst x|].
      * destruct d; exact Hs.
      * specialize (T6 x). destruct x, d; try done; exact T6.
    + intros x. cbn. rewrite array_insert by done. unfold extend. rewrite T7. case_decide; [subst x|done].
      rewrite sat_add_small; unfold count, lenN in *; rewrite ?length_app; lia.
Qed.

(** No refusing pattern occurs in a text of direction [d]. *)
Definition clean (program : InspectionProgram.t) (d : direction) (text : bytes) : Prop :=
  forall p, p ∈ InspectionProgram.patterns program -> InspectionPattern.action p = RuleDeny ->
    InspectionPattern.applies_to p d = true -> match_offsets text (InspectionPattern.bytes_ p) = [].
Lemma clean_app program d s t : program_wf program ->
  clean program d (s ++ t) <->
  clean program d s /\
  forall p, p ∈ InspectionProgram.patterns program -> InspectionPattern.action p = RuleDeny ->
    new_findings d s t p = [].
Proof.
  intros Hwf.
  assert (Hsplit : forall p, p ∈ InspectionProgram.patterns program -> InspectionPattern.applies_to p d = true ->
    match_offsets (s ++ t) (InspectionPattern.bytes_ p) = [] <->
    match_offsets s (InspectionPattern.bytes_ p) = [] /\ new_findings d s t p = []).
  { intros p Hp Happ. unfold match_offsets, new_findings. rewrite Happ.
    rewrite occurrences_app by by apply Hwf. rewrite app_nil.
    split; (intros [-> Hn]; split; [done|]); [by rewrite Hn|by apply map_eq_nil in Hn]. }
  split.
  - intros Hc. split; [intros p Hp Ha Happ|intros p Hp Ha].
    + by apply (Hsplit p Hp Happ), Hc.
    + destruct (InspectionPattern.applies_to p d) eqn:Happ; [by apply (Hsplit p Hp Happ), Hc|].
      unfold new_findings. by rewrite Happ.
  - intros [Hs Hn] p Hp Ha Happ. apply (Hsplit p Hp Happ). auto.
Qed.
Lemma judge_run_ok i findings :
  (judge_run i findings).2 = true <->
  Forall (fun f => permits (inspector_decision i) (finding_decision i f) = true) findings.
Proof.
  induction findings as [|f findings IH]; cbn [judge_run]; [split; [constructor|done]|].
  rewrite Forall_cons. destruct (permits _ _) eqn:Hp; [|split; [done|by intros [? _]]].
  destruct (judge_run i findings) as [rest ok]. cbn [snd] in *. tauto.
Qed.

Lemma find_detector (ps : list InspectionPattern.t) p :
  NoDup (map InspectionPattern.detector_id ps) -> p ∈ ps ->
  List.find (fun q => bool_decide (InspectionPattern.detector_id q = InspectionPattern.detector_id p)) ps = Some p.
Proof.
  induction ps as [|q ps IH]; [by intros _ ?%not_elem_of_nil|].
  cbn [map List.find]. intros [Hn Hnd]%NoDup_cons [-> |Hp]%elem_of_cons; [by rewrite bool_decide_true|].
  rewrite bool_decide_false; [by apply IH|]. intros E. apply Hn. rewrite E. by apply list_elem_of_fmap_2.
Qed.
Lemma finding_permitted snapshot program proto p f :
  enforcement snapshot = Enforce -> program_wf program -> p ∈ InspectionProgram.patterns program ->
  Domain.detector_id f = InspectionPattern.detector_id p ->
  permits snapshot (InspectionProgram.evaluate program f proto) = true <-> InspectionPattern.action p <> RuleDeny.
Proof.
  intros He Hwf Hp Hf. rewrite (permits_enforced _ _ He).
  unfold InspectionProgram.evaluate, InspectionProgram.evaluate_with_definition.
  rewrite Hf, (find_detector _ _ (wf_distinct _ Hwf) Hp). cbn.
  destruct (InspectionPattern.action p), proto; naive_solver.
Qed.
Lemma judged_clean snapshot proto d s t :
  let program := snapshot_inspection snapshot in
  enforcement snapshot = Enforce -> program_wf program ->
  Forall (fun f => permits snapshot (InspectionProgram.evaluate program f proto) = true)
    (InspectionProgram.patterns program ≫= new_findings d s t) <->
  forall p, p ∈ InspectionProgram.patterns program -> InspectionPattern.action p = RuleDeny ->
    new_findings d s t p = [].
Proof.
  intros program He Hwf. rewrite Forall_forall. split.
  - intros Hall p Hp Ha. destruct (new_findings d s t p) as [|f fs] eqn:Hn; [done|]. exfalso.
    assert (Hf : f ∈ new_findings d s t p) by (rewrite Hn; set_solver).
    apply (finding_permitted snapshot program proto p f He Hwf Hp (new_findings_named d s t p f Hf)); [|done].
    apply Hall, list_elem_of_bind. eauto.
  - intros Hnone f (p & Hf & Hp)%list_elem_of_bind.
    apply (finding_permitted snapshot program proto p f He Hwf Hp (new_findings_named d s t p f Hf)).
    intros Ha. rewrite (Hnone p Hp Ha) in Hf. by apply not_elem_of_nil in Hf.
Qed.

Lemma permits_run_clean snapshot p maximum streams i d b :
  enforcement snapshot = Enforce -> program_wf (snapshot_inspection snapshot) -> (maximum <= u64_max)%N ->
  tracks snapshot p maximum streams i ->
  clean (snapshot_inspection snapshot) d (takeN maximum (streams d)) ->
  let '(_, (ok, i')) := permits_run i d b in
  tracks snapshot p maximum (extend streams d b) i' /\
  (ok = true <-> clean (snapshot_inspection snapshot) d (takeN maximum (streams d ++ b))).
Proof.
  intros He Hwf Hmax Htr Hclean. pose proof (permits_run_scan i d b) as Hrun.
  pose proof (capture_next_view (ui_next i d b) d b) as Hv. rewrite ui_next_view in Hv.
  destruct (capture_next (ui_next i d b) d b) as [events i2]. rewrite Hrun. cbn [snd] in Hv.
  apply (tracks_view _ _ _ _ _ _ Hv) in Htr.
  destruct (scan_step_tracks snapshot p maximum streams i2 d b Hwf Hmax Htr) as [Hf Htr'].
  pose proof (judged_clean snapshot p d (takeN maximum (streams d))
    (takeN (N.min (maximum - N.min maximum (lenN (streams d))) (lenN b)) b) He Hwf) as Hjudge.
  rewrite <- Hf in Hjudge.
  pose proof (clean_app (snapshot_inspection snapshot) d (takeN maximum (streams d))
    (takeN (N.min (maximum - N.min maximum (lenN (streams d))) (lenN b)) b) Hwf) as Happ.
  rewrite <- takeN_app_within in Happ.
  unfold scan_run. destruct (scan_step i2 d b) as [[findings|] i3]; cbn [fst snd default] in *.
  - pose proof (judge_run_ok i3 findings) as Hj. destruct (judge_run i3 findings) as [rest ok]. cbn [fst snd] in *.
    split; [done|]. rewrite Hj. unfold finding_decision.
    rewrite (tr_decision _ _ _ _ _ Htr'), (tr_protocol _ _ _ _ _ Htr'). tauto.
  - split; [done|]. split; [|done]. intros _. apply Happ. split; [done|]. apply Hjudge. constructor.
Qed.
Lemma clean_prefix program d maximum (a b : bytes) : program_wf program ->
  clean program d (takeN maximum (a ++ b)) -> clean program d (takeN maximum a).
Proof. intros Hwf. rewrite takeN_app_within, clean_app by done. by intros [? _]. Qed.
Lemma stream_of_cons d x b chunks :
  stream_of d ((x, b) :: chunks) = (if decide (x = d) then b else []) ++ stream_of d chunks.
Proof. unfold stream_of. rewrite filter_cons. cbn [fst]. by case_decide. Qed.
Lemma feed_run_clean snapshot p maximum streams i chunks :
  let program := snapshot_inspection snapshot in
  enforcement snapshot = Enforce -> program_wf program -> (maximum <= u64_max)%N ->
  tracks snapshot p maximum streams i ->
  (forall d, clean program d (takeN maximum (streams d))) ->
  (feed_run i chunks).2.1 = true <->
  forall d, clean program d (takeN maximum (streams d ++ stream_of d chunks)).
Proof.
  intros program He Hwf Hmax. revert streams i.
  induction chunks as [|[x b] chunks IH]; intros streams i Htr Hclean; cbn [feed_run].
  { split; [intros _ d; cbn; rewrite app_nil_r; apply Hclean|done]. }
  pose proof (permits_run_clean snapshot p maximum streams i x b He Hwf Hmax Htr (Hclean x)) as Hstep.
  destruct (permits_run i x b) as [events [ok i2]]. destruct Hstep as [Htr2 Hok].
  assert (Hext : forall d, streams d ++ stream_of d ((x, b) :: chunks) = extend streams x b d ++ stream_of d chunks).
  { intros d. rewrite stream_of_cons. unfold extend. rewrite app_assoc. f_equal.
    destruct (decide (x = d)), (decide (d = x)); subst; try done. by rewrite app_nil_r. }
  destruct ok.
  - specialize (IH (extend streams x b) i2 Htr2). destruct (feed_run i2 chunks) as [rest r]. cbn [fst snd] in *.
    rewrite IH.
    + split; intros Hc d; specialize (Hc d); rewrite Hext in *; done.
    + intros d. unfold extend. case_decide; [subst d; by apply Hok|apply Hclean].
  - cbn [fst snd]. split; [done|]. intros Hc. specialize (Hc x). rewrite Hext in Hc.
    apply clean_prefix in Hc; [|done]. unfold extend in Hc. rewrite decide_True in Hc by done.
    by apply Hok.
Qed.
Lemma tracks_new snapshot s t p maximum :
  snapshot_inspection_mode snapshot = Streaming -> program_wf (snapshot_inspection snapshot) ->
  tracks snapshot p maximum (fun _ => []) (inspector_of snapshot s t p maximum).
Proof.
  intros Hm Hwf. split; try done.
  - intros d. unfold takeN. rewrite take_nil. destruct d; by apply scanner_fresh.
  - intros d. rewrite N.min_0_r. by destruct d.
Qed.

(** Inspection in streaming mode under enforcement is exact: over any interleaving of
    chunks of the two directions and of HTTP bodies, a fresh inspector permits all of
    them if and only if no refusing pattern of the program occurs in the inspected
    prefix (the first [maximum] bytes) of any direction, however the bytes were cut. *)
Theorem permitted_streams_are_clean (g : PolicyGeneration.t) (ps : list InspectionPattern.t)
    (snapshot : policy_snapshot) (s : session_id) (t : option transaction_id) (p : protocol) (maximum : N)
    (chunks : list (direction * bytes)) (w w' : world) (ok : bool) (i' : flow_inspector) :
  InspectionProgram.new g ps = Ok (snapshot_inspection snapshot) ->
  Forall (fun q => InspectionPattern.bytes_ q <> []) ps ->
  enforcement snapshot = Enforce -> snapshot_inspection_mode snapshot = Streaming -> (maximum <= u64_max)%N ->
  feed (inspector_of snapshot s t p maximum) chunks w = (Ok (ok, i'), w') ->
  ok = true <->
  forall d q, q ∈ ps -> InspectionPattern.action q = RuleDeny -> InspectionPattern.applies_to q d = true ->
    match_offsets (takeN maximum (stream_of d chunks)) (InspectionPattern.bytes_ q) = [].
Proof.
  intros Hnew Hne He Hm Hmax Hfeed. destruct (inspection_program_new_wf g ps _ Hnew Hne) as [Hwf Hps].
  pose proof (feed_follows (inspector_of snapshot s t p maximum) chunks w) as Hf. rewrite Hfeed in Hf.
  destruct Hf as (l & _ & [[E _] | (_ & [e E] & _)]); [|done]. injection E as E.
  pose proof (feed_run_clean snapshot p maximum (fun _ => []) _ chunks He Hwf Hmax
    (tracks_new snapshot s t p maximum Hm Hwf)) as Hrun.
  rewrite <- E in Hrun. cbn [fst app] in Hrun. rewrite Hrun.
  - unfold clean. rewrite Hps. done.
  - intros d q Hq Ha Happ. unfold takeN. rewrite take_nil. unfold match_offsets. cbn.
    destruct (starts_with _ []) eqn:Es; [|done]. apply starts_with_spec in Es as (r & Hr).
    symmetry in Hr. apply app_eq_nil in Hr as [Hb _]. by apply Hwf in Hq as [? _].
Qed.
End Streams.

(** * What a stream leaves in the audit record *)

Section Captures.
Context `{Environment, Sha256, Hex}.
Context (hex_roundtrip : forall b, hex_decode (hex_encode b) = Some b).

(** The bytes of the captures of one direction, in order. *)
Definition captured_in (d : direction) (events : list audit_event) : bytes :=
  concat (omap (fun e => match e with
    | PayloadPrefixCaptured x _ h => if decide (x = d) then hex_decode h else None
    | _ => None end) events).
Lemma captured_in_app d a b : captured_in d (a ++ b) = captured_in d a ++ captured_in d b.
Proof. unfold captured_in. by rewrite omap_app, concat_app. Qed.
Lemma captured_in_judge d i findings : captured_in d (judge_run i findings).1 = [].
Proof.
  induction findings as [|f findings IH]; cbn [judge_run]; [done|].
  destruct (permits _ _); [|done]. destruct (judge_run i findings) as [rest ok]. cbn [fst] in *.
  by rewrite captured_in_app.
Qed.
Lemma captured_in_scan d i x b : captured_in d (scan_run i x b).1 = [].
Proof.
  unfold scan_run. destruct (scan_step i x b) as [[findings|] i3]; [|done].
  pose proof (captured_in_judge d i3 findings). by destruct (judge_run i3 findings).
Qed.
Lemma ui_next_captured i d b : captured_bytes (ui_next i d b) = captured_bytes i.
Proof.
  unfold ui_next, publish_ui_prefix. destruct ui_content_bytes; [|done].
  destruct (_ && _); [done|]. unfold mbind, flow_bind, publish_body_prefix, try_publish. done.
Qed.
Lemma scan_run_captured i d b : captured_bytes (scan_run i d b).2.2 = captured_bytes i.
Proof.
  unfold scan_run, scan_step. destruct (_ =? 0)%N; [done|].
  destruct (StreamScanner.inspect _ _) as [findings sc]. by destruct (judge_run _ findings).
Qed.
Definition counts (maximum : N) (streams : direction -> bytes) (l : list N) : Prop :=
  length l = 4 /\ forall d, array_get 0%N l (direction_index d) = N.min maximum (lenN (streams d)).
Lemma capture_next_counts maximum streams i x b :
  capture_prefix_bytes = Some maximum -> (maximum <= u64_max)%N ->
  counts maximum streams (captured_bytes i) ->
  counts maximum (extend streams x b) (captured_bytes (capture_next i x b).2) /\
  forall d, takeN maximum (extend streams x b d)
            = takeN maximum (streams d) ++ captured_in d (capture_next i x b).1.
Proof.
  intros Hcap Hmax [Hl Hc]. unfold capture_next, capture_count. rewrite Hcap, (Hc x).
  set (count := N.min _ _).
  assert (Htake : takeN maximum (streams x ++ b) = takeN maximum (streams x) ++ takeN count b) by apply takeN_app_within.
  destruct (N.eqb_spec count 0) as [Hz|Hz]; cbn [fst snd].
  - rewrite Hz in Htake. split.
    + split; [done|]. intros d. rewrite Hc. unfold extend. case_decide; [subst d|done].
      unfold count, lenN in *. rewrite length_app. lia.
    + intros d. cbn. rewrite app_nil_r. unfold extend. case_decide; [subst d|done]. by rewrite Htake, app_nil_r.
  - split.
    + split; [cbn; by rewrite length_insert|]. intros d. cbn. rewrite array_insert by done. rewrite Hc.
      unfold extend. case_decide; [subst d|done].
      rewrite sat_add_small; unfold count, lenN in *; rewrite ?length_app; lia.
    + intros d. unfold captured_in. cbn. unfold extend. destruct (decide (x = d)) as [->|Hd].
      * rewrite decide_True by done. rewrite hex_roundtrip, Htake. cbn. by rewrite app_nil_r.
      * rewrite decide_False by done. cbn. by rewrite app_nil_r.
Qed.
Lemma feed_run_captures maximum streams i chunks :
  capture_prefix_bytes = Some maximum -> (maximum <= u64_max)%N ->
  counts maximum streams (captured_bytes i) -> (feed_run i chunks).2.1 = true ->
  forall d, takeN maximum (streams d ++ stream_of d chunks)
            = takeN maximum (streams d) ++ captured_in d (feed_run i chunks).1.
Proof.
  intros Hcap Hmax. revert streams i. induction chunks as [|[x b] chunks IH]; intros streams i Hc; cbn [feed_run].
  { intros _ d. cbn. by rewrite !app_nil_r. }
  pose proof (permits_run_scan i x b) as Hrun. rewrite <- (ui_next_captured i x b) in Hc.
  destruct (capture_next_counts maximum streams _ x b Hcap Hmax Hc) as [Hc2 Hd2].
  destruct (capture_next (ui_next i x b) x b) as [events i2]. rewrite Hrun. cbn [fst snd] in *.
  rewrite <- (scan_run_captured i2 x b) in Hc2. pose proof (fun d => captured_in_scan d i2 x b) as Hs.
  destruct (scan_run i2 x b) as [rest [ok i3]]. cbn [fst snd] in *. destruct ok; [|done].
  specialize (IH (extend streams x b) i3 Hc2). destruct (feed_run i3 chunks) as [rest' r]. cbn [fst snd] in *.
  intros Hok d. rewrite !captured_in_app, Hs, app_nil_r, app_assoc, <- (Hd2 d), <- (IH Hok d). f_equal.
  rewrite stream_of_cons. unfold extend. rewrite app_assoc. f_equal.
  destruct (decide (x = d)), (decide (d = x)); subst; try done. by rewrite app_nil_r.
Qed.

(** Payload capture is exactly a bounded prefix: when every chunk was permitted, the
    captures audited for a direction decode, in order, to the first [maximum] bytes of
    that direction's stream, so that replaying them scans what was scanned live. *)
Theorem captures_are_the_prefix (snapshot : policy_snapshot) (s : session_id) (t : option transaction_id)
    (p : protocol) (maximum limit : N) (chunks : list (direction * bytes)) (w w' : world) (i' : flow_inspector)
    (d : direction) :
  capture_prefix_bytes = Some maximum -> (maximum <= u64_max)%N ->
  feed (inspector_of snapshot s t p limit) chunks w = (Ok (true, i'), w') ->
  exists l, history w' = history w ++ l /\
    captured_in d (audited l) = takeN maximum (stream_of d chunks).
Proof.
  intros Hcap Hmax Hfeed.
  pose proof (feed_follows (inspector_of snapshot s t p limit) chunks w) as Hf. rewrite Hfeed in Hf.
  destruct Hf as (events & (_ & _ & l & Hh & Ha & _) & [[E ->] | (_ & [e E] & _)]); [|done]. injection E as E.
  exists l. split; [done|]. rewrite Ha. symmetry.
  pose proof (feed_run_captures maximum (fun _ => []) (inspector_of snapshot s t p limit) chunks Hcap Hmax) as Hrun.
  cbn [app] in Hrun. rewrite Hrun.
  - unfold takeN. by rewrite take_nil.
  - split; [done|]. intros x. rewrite N.min_0_r. by destruct x.
  - by rewrite <- E.
Qed.
End Captures.

(** * A concrete inspection: two patterns, a pattern cut across chunks *)
Module Example_inspection.
#[local] Existing Instance host_nets.
#[local] Existing Instance Example_headers.gmap_headers.
#[local] Existing Instance identity_digest.
#[local] Instance plain_hex : Hex := {| hex_encode := fun b => b; hex_decode := Some |}.
Definition snapshot : policy_snapshot :=
  PolicySnapshot Example_flow.policy (compiled default_settings) Enforce Streaming ex_program.
#[local] Instance environment : Environment := {|
  audit_policy := FailOpen; audit_answer := fun _ _ => Err CapacityExhausted; events_enabled := true;
  current_snapshot := fun _ => snapshot;
  hook_runner := fun _ => HookRunner.Make Disabled (HookRunner.Registry [] [] [] [] [] []) HookFailClosed;
  capture_prefix_bytes := Some 4%N; ui_content_bytes := Some 2%N; now := fun _ => 7%N;
  lookup_host := fun _ _ _ => LookupFailed; connect := fun _ _ => ConnectOk; local_addr := fun _ => None;
  read_answer := fun _ _ => ReadUpTo 1023; write_answer := fun _ _ _ => WriteDone;
  shutdown_answer := fun _ _ => true |}.
Definition start : world := World [] (MetricCounters 0 0 0 0 0 0 0 0 0 0) [] [].
Definition inspector : flow_inspector := inspector_of snapshot 1%N None Tcp 8%N.
Definition bad : list (direction * bytes) :=
  [(ClientToUpstream, bs "xa"); (UpstreamToClient, bs "abc"); (ClientToUpstream, bs "bc")].
Definition good : list (direction * bytes) :=
  [(ClientToUpstream, bs "xa"); (UpstreamToClient, bs "abc"); (ClientToUpstream, bs "by")].
Definition result_of (chunks : list (direction * bytes)) : bool * flow_inspector :=
  default (true, inspector) (res_ok (feed inspector chunks start).1).

Lemma permitted_streams_are_clean_witness :
  (result_of bad).1 = true <->
  forall d q, q ∈ ex_patterns -> InspectionPattern.action q = RuleDeny -> InspectionPattern.applies_to q d = true ->
    match_offsets (takeN 8 (stream_of d bad)) (InspectionPattern.bytes_ q) = [].
Proof.
  apply (permitted_streams_are_clean PolicyGeneration.INITIAL ex_patterns snapshot 1%N None Tcp 8%N bad start
           (feed inspector bad start).2 (result_of bad).1 (result_of bad).2).
  - vm_compute. reflexivity.
  - repeat constructor; discriminate.
  - reflexivity.
  - reflexivity.
  - vm_compute. discriminate.
  - vm_compute. reflexivity.
Defined.
Lemma plain_roundtrip b : hex_decode (hex_encode b) = Some b.
Proof. reflexivity. Qed.
Lemma captures_are_the_prefix_witness :
  exists l, history (feed inspector good start).2 = history start ++ l /\
    captured_in ClientToUpstream (audited l) = takeN 4 (stream_of ClientToUpstream good).
Proof.
  apply (captures_are_the_prefix plain_roundtrip snapshot 1%N None Tcp 4%N 8%N good start
           (feed inspector good start).2 (result_of good).2 ClientToUpstream).
  - reflexivity.
  - vm_compute. discriminate.
  - vm_compute. reflexivity.
Defined.
End Example_inspection.
