(* ===== verification/Relay.v ===== *)
(** The bidirectional relay (crates/freja-proxy/src/tcp/relay.rs): preflight buffering,
    inspection and hooks before every write, half-close, idle and shutdown termination.

    [tokio::select!] polls its branches in random order and takes one that is ready, so
    a run is driven by a schedule: the list of branches taken, an entry whose guard is
    false being one that [select!] would not have taken.  The two directional copies of
    each branch in the source are one definition with the direction as argument. *)
From stdpp Require Import gmap strings.
From stdpp Require Import prelude.
From S2P Require Import Prelude Bytes Net Endpoint Domain PolicyModel Acl Guard Inspection AuditModel AuditSink Hooks Runtime Destination FlowInspect.

Definition RELAY_READ_BUFFER_BYTES : N := 16 * 1024.
Record relay_limits : Type := RelayLimits { idle_timeout : N; preflight_bytes : N; preflight_timeout : N }.
Record relay_stats : Type := RelayStats { up_bytes : N; down_bytes : N }.
Definition relay_stats_default : relay_stats := RelayStats 0 0.
Inductive relay_termination : Type := Completed | IdleTimeout | Shutdown | InspectionBlocked.
#[export] Instance relay_termination_eq_dec : EqDecision relay_termination.
Proof. solve_decision. Defined.
Record relay_result : Type := RelayResult { stats : relay_stats; termination : relay_termination }.
Inductive controlled_write : Type := Written | WriteIdle | WriteStopped.
Inductive forward_result : Type :=
| Forwarded (count : N) | Dropped | Blocked | Stopped (t : relay_termination).
Inductive chunk_process : Type := ChunkBlocked | ChunkDropped | ChunkForward (b : bytes).

Module PreflightBuffer.
Inductive t : Type := Pending (bytes_ : bytes) (deadline : option N) | Released.
Definition new (enabled : bool) : t := if enabled then Pending [] None else Released.
Definition read_size (b : t) (buffer_size maximum : N) : N :=
  match b with
  | Pending bytes_ _ => N.min (maximum - lenN bytes_) buffer_size
  | Released => buffer_size
  end.
(** What is released, if anything, and the buffer left. *)
Definition release (b : t) : bytes * t :=
  match b with Pending bytes_ _ => (bytes_, Released) | Released => ([], Released) end.
Definition push (b : t) (input : bytes) (maximum budget at_ : N) : option bytes * t :=
  match b with
  | Released => (Some input, Released)
  | Pending bytes_ deadline =>
      let deadline := match deadline with None => Some (at_ + budget)%N | Some d => Some d end in
      let bytes_ := bytes_ ++ input in
      if (lenN bytes_ <? maximum)%N then (None, Pending bytes_ deadline)
      else let '(released, b) := release (Pending bytes_ deadline) in (Some released, b)
  end.
Definition deadline_of (b : t) : option N := match b with Pending _ d => d | Released => None end.
Definition has_deadline (b : t) : bool := bool_decide (is_Some (deadline_of b)).
Definition held (b : t) : bytes := match b with Pending bytes_ _ => bytes_ | Released => [] end.
End PreflightBuffer.

(** A direction of the relay: [true] is client to upstream. *)
Definition relay_direction (up : bool) : direction := if up then ClientToUpstream else UpstreamToClient.
Definition reader (up : bool) : peer := if up then ClientEnd else UpstreamEnd.
Definition writer (up : bool) : peer := if up then UpstreamEnd else ClientEnd.
Definition direction_name (up : bool) : bytes := if up then bs "client-to-upstream" else bs "upstream-to-client".

Inductive branch : Type :=
| OnShutdown | OnIdle | OnPreflight (up : bool) | OnRead (up : bool).

Section Relay.
Context `{Environment, Sha256, Hex}.

(** [read] into a buffer of [size] bytes; no bytes at the end of the input.  The relay
    puts no deadline of its own on a read: that answer counts as a failure. *)
Definition peer_read (up : bool) (size : N) : flow bytes := fun w =>
  match read_answer (history w) (reader up) with
  | ReadUpTo k =>
      let input := input_of w (reader up) in
      let count := Nat.min (S k) (N.to_nat size) in
      (Ok (take count input), with_input w (reader up) (drop count input))
  | ReadFailed | ReadTimedOut => (Err (RelayRead (direction_name up)), w)
  end.
Definition peer_shutdown (up : bool) : flow unit := fun w =>
  let ok := shutdown_answer (history w) (writer up) in
  let w := log (Closed (writer up)) w in
  if ok then (Ok tt, w) else (Err (RelayWrite (direction_name up ++ bs "-shutdown")), w).
Definition write_with_controls (up : bool) (b : bytes) : flow controlled_write := fun w =>
  match write_answer (history w) (writer up) b with
  | WriteDone => (Ok Written, log (Sent (writer up) b) w)
  | WriteFailed k => (Err (RelayWrite (direction_name up)), log (Sent (writer up) (take k b)) w)
  | WriteTimedOut k => (Ok WriteIdle, log (Sent (writer up) (take k b)) w)
  | WriteShutdown k => (Ok WriteStopped, log (Sent (writer up) (take k b)) w)
  end.

Definition process_chunk (inspection : option flow_inspector) (up : bool) (b : bytes) (maximum : N)
  : flow (chunk_process * option flow_inspector) :=
  match inspection with
  | None => mret (ChunkForward b, None)
  | Some i =>
      '(ok, i) ← inspector_permits i (relay_direction up) b;
      if (ok : bool) then
        out ← transform_tcp_chunk i (relay_direction up) b maximum;
        mret (match out with Some b => ChunkForward b | None => ChunkDropped end, Some i)
      else mret (ChunkBlocked, Some i)
  end.
Definition forward_chunk (inspection : option flow_inspector) (up : bool) (b : bytes) (maximum : N)
  : flow (forward_result * option flow_inspector) :=
  '(process, inspection) ← process_chunk inspection up b maximum;
  match process with
  | ChunkBlocked => mret (Blocked, inspection)
  | ChunkDropped => mret (Dropped, inspection)
  | ChunkForward b =>
      written ← write_with_controls up b;
      mret (match written with
            | Written => Forwarded (lenN b)
            | WriteIdle => Stopped IdleTimeout
            | WriteStopped => Stopped Shutdown
            end, inspection)
  end.

Record relay_state : Type := RelayState {
  relayed : relay_stats;
  client_open : bool;
  upstream_open : bool;
  client_preflight : PreflightBuffer.t;
  upstream_preflight : PreflightBuffer.t;
  deadline : N;
  inspection : option flow_inspector }.
Definition is_open (st : relay_state) (up : bool) : bool := if up then client_open st else upstream_open st.
Definition preflight (st : relay_state) (up : bool) : PreflightBuffer.t :=
  if up then client_preflight st else upstream_preflight st.
Definition with_preflight (st : relay_state) (up : bool) (b : PreflightBuffer.t) : relay_state :=
  RelayState (relayed st) (client_open st) (upstream_open st)
    (if up then b else client_preflight st) (if up then upstream_preflight st else b) (deadline st) (inspection st).
Definition with_inspection (st : relay_state) (i : option flow_inspector) : relay_state :=
  RelayState (relayed st) (client_open st) (upstream_open st) (client_preflight st) (upstream_preflight st)
    (deadline st) i.
Definition with_deadline (st : relay_state) (d : N) : relay_state :=
  RelayState (relayed st) (client_open st) (upstream_open st) (client_preflight st) (upstream_preflight st)
    d (inspection st).
Definition close (st : relay_state) (up : bool) : relay_state :=
  RelayState (relayed st) (if up then false else client_open st) (if up then upstream_open st else false)
    (client_preflight st) (upstream_preflight st) (deadline st) (inspection st).
Definition count_forwarded (st : relay_state) (up : bool) (count : N) : relay_state :=
  let s := relayed st in
  RelayState (if up then RelayStats (sat_add (up_bytes s) count) (down_bytes s)
              else RelayStats (up_bytes s) (sat_add (down_bytes s) count))
    (client_open st) (upstream_open st) (client_preflight st) (upstream_preflight st) (deadline st) (inspection st).

(** A turn either goes on ([inl]) or ends the relay ([inr]). *)
Definition turn : Type := flow (relay_state + relay_result).
Definition forward_and (limits : relay_limits) (st : relay_state) (up : bool) (b : bytes)
    (k : relay_state -> turn) : turn :=
  '(outcome, i) ← forward_chunk (inspection st) up b (preflight_bytes limits);
  let st := with_inspection st i in
  match outcome with
  | Forwarded count => k (count_forwarded st up count)
  | Dropped => k st
  | Blocked => mret (inr (RelayResult (relayed st) InspectionBlocked))
  | Stopped t => mret (inr (RelayResult (relayed st) t))
  end.
Definition go_on (st : relay_state) : turn := mret (inl st).
Definition close_after (up : bool) (st : relay_state) : turn :=
  let st := close st up in
  _ ← peer_shutdown up; mret (inl st).
Definition enabled (st : relay_state) (b : branch) : bool :=
  match b with
  | OnShutdown | OnIdle => true
  | OnPreflight up => PreflightBuffer.has_deadline (preflight st up)
  | OnRead up => is_open st up
  end.
Definition relay_turn (limits : relay_limits) (st : relay_state) (b : branch) : turn :=
  match b with
  | OnShutdown => mret (inr (RelayResult (relayed st) Shutdown))
  | OnIdle => mret (inr (RelayResult (relayed st) IdleTimeout))
  | OnPreflight up =>
      let '(released, buffer) := PreflightBuffer.release (preflight st up) in
      forward_and limits (with_preflight st up buffer) up released go_on
  | OnRead up =>
      input ← peer_read up (PreflightBuffer.read_size (preflight st up) RELAY_READ_BUFFER_BYTES (preflight_bytes limits));
      match input with
      | [] =>
          let '(released, buffer) := PreflightBuffer.release (preflight st up) in
          let st := with_preflight st up buffer in
          match released with
          | [] => close_after up st
          | _ => forward_and limits st up released (close_after up)
          end
      | _ => fun w =>
          let st := with_deadline st (now (history w) + idle_timeout limits)%N in
          let '(released, buffer) :=
            PreflightBuffer.push (preflight st up) input (preflight_bytes limits) (preflight_timeout limits)
              (now (history w)) in
          let st := with_preflight st up buffer in
          match released with
          | None => go_on st w
          | Some released => forward_and limits st up released go_on w
          end
      end
  end.
(** The loop: [None] when the schedule ends before the relay does. *)
Fixpoint relay_loop (limits : relay_limits) (st : relay_state) (schedule : list branch) : flow (option relay_result) :=
  if negb (client_open st) && negb (upstream_open st)
  then mret (Some (RelayResult (relayed st) Completed))
  else
    match schedule with
    | [] => mret None
    | b :: schedule =>
        if enabled st b then
          next ← relay_turn limits st b;
          match next with
          | inl st => relay_loop limits st schedule
          | inr r => mret (Some r)
          end
        else relay_loop limits st schedule
    end.
Definition relay_start (inspection : option flow_inspector) (limits : relay_limits) (at_ : N) : relay_state :=
  let preflight := match inspection with Some i => uses_preflight i | None => false end in
  RelayState relay_stats_default true true (PreflightBuffer.new preflight) (PreflightBuffer.new preflight)
    (at_ + idle_timeout limits)%N inspection.
Definition relay (limits : relay_limits) (inspection : option flow_inspector) (schedule : list branch)
  : flow (option relay_result) := fun w =>
  relay_loop limits (relay_start inspection limits (now (history w))) schedule w.
End Relay.

(** * What a relay sends *)

Definition sent_to `{IpNet, HeaderMap} (p : peer) (l : list step) : bytes :=
  concat (omap (fun s => match s with Sent q b => if decide (q = p) then Some b else None | _ => None end) l).
Lemma sent_to_app `{IpNet, HeaderMap} p a b : sent_to p (a ++ b) = sent_to p a ++ sent_to p b.
Proof. unfold sent_to. by rewrite omap_app, concat_app. Qed.
Lemma sent_to_publishing `{IpNet, HeaderMap} p l : Forall publishing l -> sent_to p l = [].
Proof. induction 1 as [|s l Hs HF IH]; [done|]. by destruct s. Qed.
Lemma sent_to_one `{IpNet, HeaderMap} up x b :
  sent_to (writer x) [Sent (writer up) b] = if decide (x = up) then b else [].
Proof.
  unfold sent_to. cbn [omap list_omap]. destruct (decide (x = up)) as [->|Hn].
  - rewrite decide_True by done. cbn. apply app_nil_r.
  - rewrite decide_False by (destruct x, up; done). done.
Qed.
Lemma relay_direction_inj x y : relay_direction x = relay_direction y -> x = y.
Proof. by destruct x, y. Qed.

Section Invariant.
Context `{Environment, Sha256, Hex}.
(** No registered hooks rewrite the stream. *)
Context (hooks_disabled : forall l, HookRunner.mode (hook_runner l) = Disabled).
(** What is known of the inspector after the forwarded [streams], and what that says of
    a forwarded text. *)
Context (Good : (direction -> bytes) -> option flow_inspector -> Prop) (Safe : direction -> bytes -> Prop).
Context (good_none : forall streams d b, Good streams None -> Good (extend streams d b) None).
Context (good_permits : forall streams i d b w i' w', Good streams (Some i) ->
  inspector_permits i d b w = (Ok (true, i'), w') -> Good (extend streams d b) (Some i')).
Context (safe_good : forall streams i d, Good streams i -> Safe d (streams d)).
Context (safe_prefix : forall d a b, Safe d (a ++ b) -> Safe d a).

Lemma transform_disabled i d b maximum w : transform_tcp_chunk i d b maximum w = (Ok (Some b), w).
Proof.
  unfold transform_tcp_chunk, mbind, flow_bind, audit_context_, run_tcp_hook.
  by rewrite decide_True by apply hooks_disabled.
Qed.
Definition same_input (w w' : world) : Prop := forall up, input_of w' (reader up) = input_of w (reader up).
(** Processing publishes and decides; a forwarded chunk is the chunk. *)
Lemma process_chunk_spec streams i up b maximum w : Good streams i ->
  let '(r, w') := process_chunk i up b maximum w in
  same_input w w' /\ exists steps, history w' = history w ++ steps /\ Forall publishing steps /\
  match r with
  | Ok (ChunkForward b', i') => b' = b /\ Good (extend streams (relay_direction up) b) i'
  | Ok (ChunkDropped, _) => False
  | Ok (ChunkBlocked, _) | Err _ => True
  end.
Proof.
  intros Hgood. destruct i as [i|]; cbn [process_chunk]; cycle 1.
  { split; [done|]. exists []. rewrite app_nil_r. auto. }
  unfold mbind, flow_bind. pose proof (permits_follow i (relay_direction up) b w) as Hp.
  destruct (inspector_permits i (relay_direction up) b w) as [r w1] eqn:Hrun.
  destruct Hp as (events & (Hc & Hu & steps & Hh & _ & HF) & _).
  assert (Hin : same_input w w1) by (intros []; done).
  destruct r as [[[|] i']|e]; [|split; [done|]; exists steps; done..].
  rewrite transform_disabled. split; [done|]. exists steps. split; [done|]. split; [done|].
  split; [done|]. by eapply good_permits.
Qed.
Lemma forward_chunk_spec streams i up b maximum w : Good streams i ->
  let '(r, w') := forward_chunk i up b maximum w in
  same_input w w' /\ exists steps, history w' = history w ++ steps /\
  (forall x, x <> up -> sent_to (writer x) steps = []) /\
  match r with
  | Ok (Forwarded n, i') => n = lenN b /\ sent_to (writer up) steps = b /\ Good (extend streams (relay_direction up) b) i'
  | Ok (Dropped, _) => False
  | Ok (Blocked, _) => sent_to (writer up) steps = []
  | Ok (Stopped t, _) => t <> Completed /\ exists i' k, sent_to (writer up) steps = take k b /\
                           Good (extend streams (relay_direction up) b) i'
  | Err _ => exists i' k, sent_to (writer up) steps = take k b /\
               (Good (extend streams (relay_direction up) b) i' \/ k = 0)
  end.
Proof.
  intros Hgood. unfold forward_chunk, mbind, flow_bind.
  pose proof (process_chunk_spec streams i up b maximum w Hgood) as Hp.
  destruct (process_chunk i up b maximum w) as [r w1]. destruct Hp as (Hin & steps & Hh & HF & Hr).
  pose proof (fun p => sent_to_publishing p steps HF) as Hs.
  destruct r as [[[| |b'] i']|e]; [| |destruct Hr as [-> Hg]|].
  - split; [done|]. exists steps. auto.
  - done.
  - unfold write_with_controls.
    assert (Hone : forall y c, history w1 ++ [Sent (writer up) y] = history w ++ (steps ++ [Sent (writer up) y]) /\
      (forall x, x <> up -> sent_to (writer x) (steps ++ [Sent (writer up) y]) = []) /\
      sent_to (writer up) (steps ++ [Sent (writer up) y]) = y /\ same_input w (log c w1)).
    { intros y c. split; [by rewrite Hh, app_assoc|]. split; [|split].
      - intros x Hx. rewrite sent_to_app, Hs, sent_to_one. by rewrite decide_False.
      - rewrite sent_to_app, Hs, sent_to_one. by rewrite decide_True.
      - intros []; [apply (Hin true)|apply (Hin false)]. }
    destruct (write_answer (history w1) (writer up) b) as [|k|k|k];
      (eassert (Hw := Hone _ _); destruct Hw as (E & Ho & Es & Hin2);
       split; [exact Hin2|]; eexists; split; [exact E|]; split; [exact Ho|]); rewrite Es; eauto 8.
  - split; [done|]. exists steps. split; [done|]. split; [auto|]. exists i, 0. auto.
Qed.

Context (limits : relay_limits) (limit_positive : preflight_bytes limits <> 0%N).
Definition counted (st : relay_state) (up : bool) : N :=
  if up then up_bytes (relayed st) else down_bytes (relayed st).
(** One direction of a running relay: everything read was sent or is held back, the
    counter is the number of bytes sent, less than the preflight bound is held, and a
    closed direction has delivered all its input. *)
Record side_inv (start : bytes) (st : relay_state) (up : bool) (sent : bytes) (left_ : bytes) : Prop := {
  si_input : start = sent ++ PreflightBuffer.held (preflight st up) ++ left_;
  si_counted : counted st up = N.min (lenN sent) u64_max;
  si_held : preflight st up = PreflightBuffer.Released \/
            (lenN (PreflightBuffer.held (preflight st up)) < preflight_bytes limits)%N;
  si_closed : is_open st up = false -> preflight st up = PreflightBuffer.Released /\ left_ = [] }.
Definition relay_inv (w0 : world) (st : relay_state) (w : world) : Prop :=
  exists steps streams, history w = history w0 ++ steps /\ Good streams (inspection st) /\
    forall up, streams (relay_direction up) = sent_to (writer up) steps /\
      side_inv (input_of w0 (reader up)) st up (sent_to (writer up) steps) (input_of w (reader up)).
(** Any world a relay can stop in. *)
Definition relay_safe (w0 w : world) : Prop :=
  exists steps, history w = history w0 ++ steps /\
    forall up, sent_to (writer up) steps `prefix_of` input_of w0 (reader up) /\
      Safe (relay_direction up) (sent_to (writer up) steps).
Definition turn_ok (w0 : world) (r : result proxy_error (relay_state + relay_result)) (w : world) : Prop :=
  match r with
  | Ok (inl st) => relay_inv w0 st w
  | Ok (inr res) => relay_safe w0 w /\ termination res <> Completed
  | Err _ => relay_safe w0 w
  end.
Lemma relay_inv_safe w0 st w : relay_inv w0 st w -> relay_safe w0 w.
Proof.
  intros (steps & streams & Hh & Hg & Hside). exists steps. split; [done|]. intros up.
  destruct (Hside up) as [Hs [Hin _ _ _]]. split; [rewrite Hin; by apply prefix_app_r|].
  rewrite <- Hs. by eapply safe_good.
Qed.
Lemma extend_direction streams x up b :
  extend streams (relay_direction up) b (relay_direction x)
  = if decide (x = up) then streams (relay_direction x) ++ b else streams (relay_direction x).
Proof. unfold extend. by destruct x, up. Qed.

(** The state before a chunk [b], taken off the input or the buffer of one direction,
    is forwarded. *)
Definition before_forward (w0 : world) (st : relay_state) (up : bool) (b : bytes) (w : world) : Prop :=
  exists steps streams, history w = history w0 ++ steps /\ Good streams (inspection st) /\
    forall x, streams (relay_direction x) = sent_to (writer x) steps /\
      if decide (x = up) then
        input_of w0 (reader x) = sent_to (writer x) steps ++ b ++ input_of w (reader x) /\
        counted st x = N.min (lenN (sent_to (writer x) steps)) u64_max /\
        PreflightBuffer.held (preflight st x) = [] /\ is_open st x = true /\
        preflight st x = PreflightBuffer.Released
      else side_inv (input_of w0 (reader x)) st x (sent_to (writer x) steps) (input_of w (reader x)).
Lemma forward_and_ok w0 st up b k w :
  before_forward w0 st up b w ->
  (forall st' w', input_of w' (reader up) = input_of w (reader up) -> is_open st' up = true ->
     preflight st' up = PreflightBuffer.Released -> relay_inv w0 st' w' ->
     let '(r, w'') := k st' w' in turn_ok w0 r w'') ->
  let '(r, w') := forward_and limits st up b k w in turn_ok w0 r w'.
Proof.
  intros (steps & streams & Hh & Hg & Hside) Hk. unfold forward_and, mbind, flow_bind.
  pose proof (forward_chunk_spec streams (inspection st) up b (preflight_bytes limits) w Hg) as Hf.
  destruct (forward_chunk (inspection st) up b (preflight_bytes limits) w) as [r w1].
  destruct Hf as (Hin & more & Hh1 & Hother & Hr). rewrite Hh, <- app_assoc in Hh1.
  assert (Hpartial : forall n i', sent_to (writer up) more = take n b ->
    Good (extend streams (relay_direction up) b) i' \/ n = 0 -> relay_safe w0 w1).
  { intros n i' Hn Hgood. exists (steps ++ more). split; [done|]. intros x. rewrite sent_to_app.
    destruct (Hside x) as [Hsx Hx]. case_decide as Hxu.
    - subst x. destruct Hx as (Hin0 & _). rewrite Hn. split.
      + rewrite Hin0. apply prefix_app, prefix_app_r, prefix_take.
      + rewrite <- Hsx. destruct Hgood as [Hgood| ->]; [|rewrite take_0, app_nil_r; by eapply safe_good].
        apply (safe_prefix _ _ (drop n b)). rewrite <- app_assoc, take_drop.
        pose proof (safe_good _ _ (relay_direction up) Hgood) as Hs.
        rewrite extend_direction, decide_True in Hs by done. exact Hs.
    - rewrite (Hother x Hxu), app_nil_r. destruct Hx as [Hin0 _ _ _].
      split; [rewrite Hin0; by apply prefix_app_r|]. rewrite <- Hsx. by eapply safe_good. }
  destruct r as [[[n| | |t] i']|e].
  - destruct Hr as (-> & Hsent & Hgood). apply Hk.
    + apply Hin.
    + destruct (Hside up) as [_ Hx]. rewrite decide_True in Hx by done. destruct Hx as (_ & _ & _ & Ho & _).
      by destruct up.
    + destruct (Hside up) as [_ Hx]. rewrite decide_True in Hx by done. destruct Hx as (_ & _ & _ & _ & Hp).
      by destruct up.
    + exists (steps ++ more), (extend streams (relay_direction up) b). split; [done|]. split; [by destruct up|].
      intros x. rewrite extend_direction, sent_to_app. destruct (Hside x) as [Hsx Hx]. case_decide as Hxu.
      * subst x. destruct Hx as (Hin0 & Hc & Hheld & Ho & Hp). rewrite Hsent, Hsx. split; [done|].
        assert (Hp' : preflight (count_forwarded (with_inspection st i') up (lenN b)) up = PreflightBuffer.Released)
          by (by destruct up).
        split.
        -- rewrite Hp'. cbn. rewrite (Hin up), <- app_assoc. exact Hin0.
        -- assert (Hc' : counted (count_forwarded (with_inspection st i') up (lenN b)) up = sat_add (counted st up) (lenN b))
             by (by destruct up).
           rewrite Hc', Hc. unfold sat_add, lenN. rewrite length_app. lia.
        -- by left.
        -- intros Hclosed. exfalso. destruct up; cbn in *; congruence.
      * rewrite (Hother x Hxu), app_nil_r. split; [done|]. destruct Hx as [Hin0 Hc Hheld Hcl].
        rewrite (Hin x). split; destruct x, up; try done.
  - done.
  - split; [|done]. apply (Hpartial 0 i'); [by rewrite take_0|by right].
  - destruct Hr as (Ht & i2 & n & Hn & Hgood). split; [|done]. by apply (Hpartial n i2); [|left].
  - destruct Hr as (i2 & n & Hn & Hgood). by apply (Hpartial n i2).
Qed.

Lemma side_inv_view start st st' x sent left_ :
  preflight st' x = preflight st x -> is_open st' x = is_open st x -> counted st' x = counted st x ->
  side_inv start st x sent left_ -> side_inv start st' x sent left_.
Proof. intros Hp Ho Hc [? ? ? ?]. split; by rewrite ?Hp, ?Ho, ?Hc. Qed.
(** Reading moves bytes from the input to the caller. *)
Lemma peer_read_spec up size w :
  let '(r, w') := peer_read up size w in
  history w' = history w /\ (forall x, x <> up -> input_of w' (reader x) = input_of w (reader x)) /\
  match r with
  | Ok b => input_of w (reader up) = b ++ input_of w' (reader up) /\ (lenN b <= size)%N /\
            (size <> 0%N -> b = [] -> input_of w (reader up) = [])
  | Err _ => w' = w
  end.
Proof.
  unfold peer_read. destruct (read_answer _ _) as [k| |]; [|done..].
  set (input := input_of w (reader up)). set (count := Nat.min (S k) (N.to_nat size)).
  split; [by destruct up|]. split; [by intros x Hx; destruct x, up|].
  assert (E : input_of (with_input w (reader up) (drop count input)) (reader up) = drop count input) by (by destruct up).
  rewrite E, take_drop. split; [done|]. split; [unfold lenN, count; rewrite length_take; lia|].
  intros Hs Hb. destruct input as [|x input]; [done|]. unfold count in Hb.
  destruct (N.to_nat size) eqn:En; [lia|]. done.
Qed.
Lemma read_size_positive st up :
  preflight st up = PreflightBuffer.Released \/
    (lenN (PreflightBuffer.held (preflight st up)) < preflight_bytes limits)%N ->
  PreflightBuffer.read_size (preflight st up) RELAY_READ_BUFFER_BYTES (preflight_bytes limits) <> 0%N.
Proof.
  unfold PreflightBuffer.read_size, RELAY_READ_BUFFER_BYTES. destruct (preflight st up); cbn; [|done].
  intros [?|?]; [done|]. lia.
Qed.
Lemma go_on_ok w0 st w : relay_inv w0 st w -> let '(r, w') := go_on st w in turn_ok w0 r w'.
Proof. done. Qed.
Lemma close_after_ok w0 st up w : relay_inv w0 st w -> input_of w (reader up) = [] ->
  preflight st up = PreflightBuffer.Released ->
  let '(r, w') := close_after up st w in turn_ok w0 r w'.
Proof.
  intros (steps & streams & Hh & Hg & Hside) Hin Hp. unfold close_after, mbind, flow_bind, peer_shutdown.
  assert (Hinv : relay_inv w0 (close st up) (log (Closed (writer up)) w)).
  { exists (steps ++ [Closed (writer up)]), streams. split; [cbn; by rewrite Hh, app_assoc|].
    split; [by destruct up|]. intros x. rewrite sent_to_app. change (sent_to (writer x) [Closed (writer up)]) with ([] : bytes).
    rewrite app_nil_r. destruct (Hside x) as [Hs [H1' H2' H3' H4']]. split; [done|].
    change (input_of (log (Closed (writer up)) w) (reader x)) with (input_of w (reader x)).
    assert (Ev : preflight (close st up) x = preflight st x /\ counted (close st up) x = counted st x) by (by destruct up, x).
    destruct Ev as [Ep Ec]. split; rewrite ?Ep, ?Ec; try done.
    intros Hclosed. destruct (decide (x = up)) as [->|Hx]; [done|]. apply H4'. by destruct x, up. }
  destruct (shutdown_answer _ _); [exact Hinv|]. by apply relay_inv_safe in Hinv.
Qed.
(** [st'] is [st] with the buffer of one direction replaced. *)
Definition rebuffered (st st' : relay_state) (up : bool) (buffer : PreflightBuffer.t) : Prop :=
  inspection st' = inspection st /\ preflight st' up = buffer /\
  forall x, counted st' x = counted st x /\ is_open st' x = is_open st x /\ (x <> up -> preflight st' x = preflight st x).
Lemma rebuffered_with st up buffer : rebuffered st (with_preflight st up buffer) up buffer.
Proof. split; [done|]. split; [by destruct up|]. intros []; by destruct up. Qed.
Lemma rebuffered_deadline st up buffer d :
  rebuffered st (with_preflight (with_deadline st d) up buffer) up buffer.
Proof. split; [done|]. split; [by destruct up|]. intros []; by destruct up. Qed.
Lemma before_forward_intro w0 st st' up b w w1 :
  relay_inv w0 st w -> rebuffered st st' up PreflightBuffer.Released -> is_open st up = true ->
  history w1 = history w -> (forall x, x <> up -> input_of w1 (reader x) = input_of w (reader x)) ->
  PreflightBuffer.held (preflight st up) ++ input_of w (reader up) = b ++ input_of w1 (reader up) ->
  before_forward w0 st' up b w1.
Proof.
  intros (steps & streams & Hh & Hg & Hside) (Ei & Ep & Ex) Ho Hh1 Hin1 Hb.
  exists steps, streams. split; [congruence|]. split; [by rewrite Ei|].
  intros x. destruct (Hside x) as [Hs Hx]. split; [done|]. destruct (Ex x) as (Ec & Eo & Epx). case_decide as Hxu.
  - subst x. destruct Hx as [Hin Hc _ _]. rewrite Ep, Ec, Eo. split; [|done]. by rewrite Hin, Hb.
  - rewrite (Hin1 x Hxu). eapply side_inv_view; [..|exact Hx]; auto.
Qed.
Lemma relay_inv_rebuffer w0 st st' up buffer w w1 :
  relay_inv w0 st w -> rebuffered st st' up buffer ->
  history w1 = history w -> (forall x, x <> up -> input_of w1 (reader x) = input_of w (reader x)) ->
  PreflightBuffer.held (preflight st up) ++ input_of w (reader up)
    = PreflightBuffer.held buffer ++ input_of w1 (reader up) ->
  buffer = PreflightBuffer.Released \/ (lenN (PreflightBuffer.held buffer) < preflight_bytes limits)%N ->
  (is_open st up = false -> buffer = PreflightBuffer.Released /\ input_of w1 (reader up) = []) ->
  relay_inv w0 st' w1.
Proof.
  intros (steps & streams & Hh & Hg & Hside) (Ei & Ep & Ex) Hh1 Hin1 Hb Hheld Hcl.
  exists steps, streams. split; [congruence|]. split; [by rewrite Ei|].
  intros x. destruct (Hside x) as [Hs Hx]. split; [done|]. destruct (Ex x) as (Ec & Eo & Epx).
  destruct (decide (x = up)) as [->|Hxu].
  - destruct Hx as [Hin Hc _ _]. split; rewrite ?Ep, ?Ec, ?Eo; try done. by rewrite Hin, Hb.
  - rewrite (Hin1 x Hxu). eapply side_inv_view; [..|exact Hx]; auto.
Qed.
Lemma relay_inv_side w0 st w up : relay_inv w0 st w ->
  (preflight st up = PreflightBuffer.Released \/
   (lenN (PreflightBuffer.held (preflight st up)) < preflight_bytes limits)%N) /\
  (is_open st up = false -> preflight st up = PreflightBuffer.Released).
Proof. intros (steps & streams & _ & _ & Hside). destruct (Hside up) as [_ [? ? ? Hcl]]. split; [done|]. by intros []%Hcl. Qed.

Lemma end_of_input_ok w0 st up w w1 : relay_inv w0 st w -> is_open st up = true ->
  history w1 = history w -> (forall x, x <> up -> input_of w1 (reader x) = input_of w (reader x)) ->
  input_of w (reader up) = [] -> input_of w1 (reader up) = [] ->
  let '(r, w') :=
    (let '(released, buffer) := PreflightBuffer.release (preflight st up) in
     let st := with_preflight st up buffer in
     match released with [] => close_after up st | _ => forward_and limits st up released (close_after up) end) w1 in
  turn_ok w0 r w'.
Proof.
  intros Hinv Ho Hh1 Hin1 Hw Hw1.
  assert (Hrel : PreflightBuffer.release (preflight st up) = (PreflightBuffer.held (preflight st up), PreflightBuffer.Released))
    by (by destruct (preflight st up)).
  rewrite Hrel. pose proof (rebuffered_with st up PreflightBuffer.Released) as Hre.
  destruct (PreflightBuffer.held (preflight st up)) as [|h held] eqn:Hheld.
  - apply close_after_ok; [|done|by destruct up]. eapply relay_inv_rebuffer; try done.
    + rewrite Hheld, Hw, Hw1. done.
    + by left.
  - apply forward_and_ok.
    + eapply before_forward_intro; try done. rewrite Hheld, Hw, Hw1. done.
    + intros st' w' Hin' _ Hp' Hinv'. apply close_after_ok; [done| |done]. by rewrite Hin'.
Qed.
Lemma relay_read_ok w0 st up w : relay_inv w0 st w -> is_open st up = true ->
  let '(r, w') := relay_turn limits st (OnRead up) w in turn_ok w0 r w'.
Proof.
  intros Hinv Ho. cbn [relay_turn]. unfold mbind, flow_bind.
  destruct (relay_inv_side _ _ _ up Hinv) as [Hheld _]. pose proof (read_size_positive st up Hheld) as Hsize.
  pose proof (peer_read_spec up (PreflightBuffer.read_size (preflight st up) RELAY_READ_BUFFER_BYTES (preflight_bytes limits)) w) as Hread.
  destruct (peer_read _ _ w) as [[input|e] w1]; destruct Hread as (Hh1 & Hin1 & Hr); cycle 1.
  { subst w1. by apply relay_inv_safe in Hinv. }
  destruct Hr as (Hin & Hlen & Hempty). destruct input as [|x input].
  { specialize (Hempty Hsize eq_refl). apply (end_of_input_ok w0 st up w w1); try done. by rewrite Hin in Hempty. }
  set (st1 := with_deadline st _).
  assert (Hp1 : preflight st1 up = preflight st up) by (by destruct up). rewrite Hp1.
  destruct (preflight st up) as [held d|] eqn:Hp; cbn [PreflightBuffer.push PreflightBuffer.release].
  - case_if.
    + apply go_on_ok. eapply (relay_inv_rebuffer w0 st _ up); [done|apply rebuffered_deadline|done|done| | |].
      * rewrite Hp, Hin. cbn. by rewrite <- app_assoc.
      * right. cbn. by apply N.ltb_lt.
      * congruence.
    + apply forward_and_ok; [|intros; by apply go_on_ok].
      eapply (before_forward_intro w0 st); [done|apply rebuffered_deadline|done|done|done|].
      rewrite Hp, Hin. cbn. by rewrite <- app_assoc.
  - apply forward_and_ok; [|intros; by apply go_on_ok].
    eapply (before_forward_intro w0 st); [done|apply rebuffered_deadline|done|done|done|]. by rewrite Hp, Hin.
Qed.
Lemma relay_turn_ok w0 st b w : relay_inv w0 st w -> enabled st b = true ->
  let '(r, w') := relay_turn limits st b w in turn_ok w0 r w'.
Proof.
  intros Hinv Hen. pose proof (relay_inv_safe _ _ _ Hinv) as Hsafe.
  destruct b as [| |up|up]; [done|done| |by apply relay_read_ok].
  cbn [relay_turn]. cbn [enabled] in Hen. destruct (relay_inv_side _ _ _ up Hinv) as [_ Hcl].
  destruct (preflight st up) as [held d|] eqn:Hp; [|done]. cbn [PreflightBuffer.release].
  apply forward_and_ok; [|intros; by apply go_on_ok].
  eapply before_forward_intro; [done|apply rebuffered_with| |done|done|by rewrite Hp].
  destruct (is_open st up); [done|]. by specialize (Hcl eq_refl).
Qed.
(** The loop keeps the invariant; it completes only when both inputs are delivered. *)
Lemma relay_loop_ok w0 st schedule w : relay_inv w0 st w ->
  let '(r, w') := relay_loop limits st schedule w in
  relay_safe w0 w' /\
  match r with
  | Ok (Some (RelayResult s Completed)) =>
      exists steps, history w' = history w0 ++ steps /\
      forall up, sent_to (writer up) steps = input_of w0 (reader up) /\
        (if up then up_bytes s else down_bytes s) = N.min (lenN (input_of w0 (reader up))) u64_max
  | _ => True
  end.
Proof.
  revert st w; induction schedule as [|b schedule IH]; intros st w Hinv; pose proof (relay_inv_safe _ _ _ Hinv) as Hsafe;
    cbn [relay_loop]; destruct (negb (client_open st) && negb (upstream_open st)) eqn:Hdone.
  2: done.
  3:{ destruct (enabled st b) eqn:Hen; [|by apply IH]. unfold mbind, flow_bind.
      pose proof (relay_turn_ok w0 st b w Hinv Hen) as Hturn.
      destruct (relay_turn limits st b w) as [[[st'|[s t]]|e] w1]; cbn in Hturn.
      - by apply IH.
      - destruct Hturn as [Hs Ht]. split; [done|]. by destruct t.
      - done. }
  all: apply andb_prop in Hdone as [Hc Hu]; apply negb_true_iff in Hc, Hu; split; [done|];
    destruct Hinv as (steps & streams & Hh & _ & Hside); exists steps; split; [done|];
    intros up; destruct (Hside up) as [_ [Hin Hcount _ Hcl]];
    (destruct (Hcl ltac:(by destruct up)) as [Hp Hl]); rewrite Hp, Hl in Hin; cbn in Hin; rewrite app_nil_r in Hin;
    rewrite <- Hin in Hcount; (split; [done|]); by destruct up.
Qed.
End Invariant.

Section Properties.
Context `{Environment, Sha256, Hex}.

Lemma relay_start_inv (Good : (direction -> bytes) -> option flow_inspector -> Prop) limits i at_ w :
  preflight_bytes limits <> 0%N -> Good (fun _ => []) i ->
  relay_inv Good limits w (relay_start i limits at_) w.
Proof.
  intros Hpos Hg. exists [], (fun _ => []). rewrite app_nil_r. split; [done|]. split; [done|].
  intros up. split; [done|].
  assert (Hp : preflight (relay_start i limits at_) up = PreflightBuffer.new
    (match i with Some i => uses_preflight i | None => false end)) by (by destruct up).
  split.
  - rewrite Hp. by destruct (match i with Some i => uses_preflight i | None => false end).
  - by destruct up.
  - rewrite Hp. destruct (match i with Some i => uses_preflight i | None => false end); [right|by left].
    change (lenN (PreflightBuffer.held (PreflightBuffer.new true))) with 0%N. lia.
  - by destruct up.
Qed.

(** C16. The relay is transparent: with hooks disabled, under any schedule of its branches,
    any read sizes, faults, preflight buffering and inspection, what it has sent to one
    peer is at every end an in-order prefix of what the other peer sent; and when it
    reports completion, each peer has received everything the other sent, and the
    reported counts are those lengths. *)
Theorem relay_delivers_in_order (limits : relay_limits) (i : option flow_inspector) (schedule : list branch)
    (w w' : world) (r : result proxy_error (option relay_result)) :
  (forall l, HookRunner.mode (hook_runner l) = Disabled) -> preflight_bytes limits <> 0%N ->
  relay limits i schedule w = (r, w') ->
  exists steps, history w' = history w ++ steps /\
    forall up, sent_to (writer up) steps `prefix_of` input_of w (reader up) /\
      forall s, r = Ok (Some (RelayResult s Completed)) ->
        sent_to (writer up) steps = input_of w (reader up) /\
        (if up then up_bytes s else down_bytes s) = N.min (lenN (input_of w (reader up))) u64_max.
Proof.
  intros Hhooks Hpos Hrun. unfold relay in Hrun.
  pose proof (relay_loop_ok Hhooks (fun _ _ => True) (fun _ _ => True) ltac:(done) ltac:(done) ltac:(done) ltac:(done)
    limits Hpos w _ schedule w (relay_start_inv _ limits i (now (history w)) w Hpos I)) as Hloop.
  rewrite Hrun in Hloop. destruct Hloop as [(steps & Hh & Hsent) Hr]. exists steps. split; [done|].
  intros up. split; [by apply Hsent|]. intros s ->. destruct Hr as (steps' & Hh' & Hdone).
  rewrite Hh in Hh'. apply app_inv_head in Hh' as ->. apply Hdone.
Qed.

(** C17. Nothing that inspection refuses gets through: in streaming mode under
    enforcement, with hooks disabled, whatever the relay does and however it ends
    (blocked, timed out, failed halfway through a write), the inspected prefix of what
    it has sent in either direction contains no refusing pattern. *)
Theorem relay_sends_only_clean (g : PolicyGeneration.t) (ps : list InspectionPattern.t)
    (snapshot : policy_snapshot) (s : session_id) (t : option transaction_id) (limits : relay_limits)
    (maximum : N) (schedule : list branch) (w w' : world) (r : result proxy_error (option relay_result)) :
  (forall l, HookRunner.mode (hook_runner l) = Disabled) -> preflight_bytes limits <> 0%N ->
  InspectionProgram.new g ps = Ok (snapshot_inspection snapshot) ->
  Forall (fun q => InspectionPattern.bytes_ q <> []) ps ->
  enforcement snapshot = Enforce -> snapshot_inspection_mode snapshot = Streaming -> (maximum <= u64_max)%N ->
  relay limits (Some (inspector_of snapshot s t Tcp maximum)) schedule w = (r, w') ->
  exists steps, history w' = history w ++ steps /\
    forall up q, q ∈ ps -> InspectionPattern.action q = RuleDeny ->
      InspectionPattern.applies_to q (relay_direction up) = true ->
      match_offsets (takeN maximum (sent_to (writer up) steps)) (InspectionPattern.bytes_ q) = [].
Proof.
  intros Hhooks Hpos Hnew Hne He Hm Hmax Hrun. destruct (inspection_program_new_wf g ps _ Hnew Hne) as [Hwf Hps].
  set (program := snapshot_inspection snapshot) in *.
  set (Good := fun streams (i : option flow_inspector) =>
    match i with
    | Some i => tracks snapshot Tcp maximum streams i /\ forall d, clean program d (takeN maximum (streams d))
    | None => False
    end).
  set (Safe := fun d text => clean program d (takeN maximum text)).
  assert (Hpermits : forall streams i d b w i' w', Good streams (Some i) ->
    inspector_permits i d b w = (Ok (true, i'), w') -> Good (extend streams d b) (Some i')).
  { intros streams i d b w1 i' w1' [Htr Hcl] Hp.
    pose proof (permits_follow i d b w1) as Hf. rewrite Hp in Hf.
    destruct Hf as (l & _ & [[E _] | (_ & [e E] & _)]); [|done]. injection E as E.
    pose proof (permits_run_clean snapshot Tcp maximum streams i d b He Hwf Hmax Htr (Hcl d)) as Hc.
    destruct (permits_run i d b) as [events [ok i2]]. cbn [snd] in E. injection E as <- <-.
    destruct Hc as [Htr' Hok]. split; [done|]. intros x. unfold extend. case_decide; [subst x|done]. by apply Hok. }
  assert (Hstart : Good (fun _ => []) (Some (inspector_of snapshot s t Tcp maximum))).
  { split; [by apply tracks_new|]. intros d q Hq Ha Happ. unfold takeN. rewrite take_nil. unfold match_offsets. cbn.
    destruct (starts_with _ []) eqn:Es; [|done]. apply starts_with_spec in Es as (x & Hx).
    symmetry in Hx. apply app_eq_nil in Hx as [Hb _]. by apply Hwf in Hq as [? _]. }
  pose proof (relay_loop_ok Hhooks Good Safe ltac:(done) Hpermits
    ltac:(intros streams [i|] d Hg; [apply Hg|destruct Hg]) (fun d a b => clean_prefix program d maximum a b Hwf)
    limits Hpos w _ schedule w (relay_start_inv Good limits _ (now (history w)) w Hpos Hstart)) as Hloop.
  unfold relay in Hrun. rewrite Hrun in Hloop. destruct Hloop as [(steps & Hh & Hsent) _].
  exists steps. split; [done|]. intros up q Hq. rewrite <- Hps in Hq. destruct (Hsent up) as [_ Hsafe]. apply Hsafe. done.
Qed.
End Properties.

(** * Progress *)

Section Progress.
Context `{Environment, Sha256, Hex}.
(** Nothing fails, nothing is interrupted, and no hook rewrites. *)
Context (hooks_disabled : forall l, HookRunner.mode (hook_runner l) = Disabled).
Context (audit_goes_on : audit_policy = FailOpen \/ forall l e, audit_answer l e = Ok tt).
Context (reads_succeed : forall l p, exists k, read_answer l p = ReadUpTo k).
Context (writes_succeed : forall l p b, write_answer l p b = WriteDone).
Context (shutdowns_succeed : forall l p, shutdown_answer l p = true).
Context (limits : relay_limits) (limit_positive : preflight_bytes limits <> 0%N).
Notation relay_inv := (relay_inv (fun _ _ => True) limits).

(** Publications of such a flow do not end it. *)
Definition uninterrupted {A} (m : flow A) : Prop := forall w e, (m w).1 <> Err (Audit e).
Lemma uninterrupted_bind {A B} (m : flow A) (k : A -> flow B) :
  uninterrupted m -> (forall a, uninterrupted (k a)) -> uninterrupted (m ≫= k).
Proof.
  intros Hm Hk w e. unfold mbind, flow_bind. specialize (Hm w e). destruct (m w) as [[a|e'] w1]; [apply Hk|].
  intros He. apply Hm. cbn in *. congruence.
Qed.
Lemma uninterrupted_publish e : uninterrupted (publish e).
Proof.
  intros w x. unfold publish. destruct (audit_answer (history w) e) eqn:E; [done|].
  destruct audit_goes_on as [Ho|Ha]; [by rewrite decide_True|by rewrite Ha in E].
Qed.
Lemma uninterrupted_ret {A} (a : A) : uninterrupted (mret a).
Proof. done. Qed.
Lemma uninterrupted_context s t : uninterrupted (audit_context_ s t).
Proof. done. Qed.
Lemma uninterrupted_observe e : uninterrupted (try_publish e).
Proof. done. Qed.
#[local] Hint Resolve uninterrupted_publish uninterrupted_ret uninterrupted_context uninterrupted_observe : core.
Ltac goes_on :=
  unfold publish_finding, publish_replay_facts, publish_inspection_decision, publish_capture, publish_body_prefix,
    record_action, publish_event;
  repeat match goal with |- uninterrupted (_ ≫= _) => apply uninterrupted_bind; [|intros ?] end; auto.
Lemma uninterrupted_judge i c findings : uninterrupted (judge_findings i c findings).
Proof.
  induction findings as [|f findings IH]; cbn [judge_findings]; [done|].
  do 2 (apply uninterrupted_bind; [goes_on|intros _]).
  destruct (InspectionProgram.evaluate_with_definition (snapshot_inspection (inspector_decision i)) f (inspector_protocol i)).
  apply uninterrupted_bind; [goes_on|intros _]. destruct (permits _ _); [done|]. goes_on.
Qed.
Lemma uninterrupted_permits i d b : uninterrupted (inspector_permits i d b).
Proof.
  unfold inspector_permits. apply uninterrupted_bind.
  { unfold publish_ui_prefix. destruct ui_content_bytes; [|done]. cbv zeta. destruct (_ && _); [done|]. goes_on. }
  intros i1. apply uninterrupted_bind.
  { unfold capture. destruct capture_prefix_bytes; [|done]. cbv zeta. destruct (_ =? 0)%N; [done|]. goes_on. }
  intros i2. destruct (scan_step i2 d b) as [[findings|] i3]; [|done].
  apply uninterrupted_bind; [done|intros c]. apply uninterrupted_bind; [apply uninterrupted_judge|done].
Qed.

Lemma forward_chunk_live i up b maximum w :
  exists w', same_input w w' /\
    ((exists i', forward_chunk i up b maximum w = (Ok (Blocked, i'), w')) \/
     (exists i', forward_chunk i up b maximum w = (Ok (Forwarded (lenN b), i'), w'))).
Proof.
  pose proof (forward_chunk_spec hooks_disabled (fun _ _ => True) ltac:(done) ltac:(done) (fun _ => []) i up b maximum w I) as Hspec.
  destruct (forward_chunk i up b maximum w) as [r w'] eqn:Hrun. destruct Hspec as [Hin _].
  exists w'. split; [done|]. revert Hrun. unfold forward_chunk, process_chunk, mbind, flow_bind.
  destruct i as [i|]; cycle 1.
  { cbn. unfold write_with_controls. rewrite writes_succeed. intros [= <- <-]. right. by eexists. }
  pose proof (permits_follow i (relay_direction up) b w) as Hp.
  pose proof (uninterrupted_permits i (relay_direction up) b w) as Hgo.
  destruct (inspector_permits i (relay_direction up) b w) as [r1 w1].
  destruct Hp as (events & _ & [[-> _] | (_ & [e ->] & _)]); [|by destruct (Hgo e)].
  destruct (permits_run i (relay_direction up) b) as [? [ok i']]; cbn [snd].
  destruct ok; cycle 1.
  { intros [= <- <-]. left. by eexists. }
  rewrite (transform_disabled hooks_disabled). cbn. unfold write_with_controls. rewrite writes_succeed.
  intros [= <- <-]. right. by eexists.
Qed.
Lemma forward_and_live st up b k w :
  exists w', same_input w w' /\
    ((exists r, forward_and limits st up b k w = (Ok (inr r), w') /\ termination r = InspectionBlocked) \/
     (exists i, forward_and limits st up b k w = k (count_forwarded (with_inspection st i) up (lenN b)) w')).
Proof.
  destruct (forward_chunk_live (inspection st) up b (preflight_bytes limits) w) as (w' & Hin & Hcase).
  exists w'. split; [done|]. unfold forward_and, mbind, flow_bind.
  destruct Hcase as [[i ->] | [i ->]]; [left|right]; by eexists.
Qed.

(** A read turn closes its direction or consumes input of it, and leaves the other alone. *)
Definition advances (st : relay_state) (w : world) (up : bool)
    (r : result proxy_error (relay_state + relay_result)) (w' : world) : Prop :=
  match r with
  | Ok (inr res) => termination res = InspectionBlocked
  | Ok (inl st') =>
      is_open st' (negb up) = is_open st (negb up) /\
      input_of w' (reader (negb up)) = input_of w (reader (negb up)) /\
      (is_open st' up = false \/ length (input_of w' (reader up)) < length (input_of w (reader up)))
  | Err _ => False
  end.
Lemma close_after_live st0 w0 up st w :
  is_open st (negb up) = is_open st0 (negb up) -> same_input w0 w ->
  let '(r, w') := close_after up st w in advances st0 w0 up r w'.
Proof.
  intros Ho Hin. unfold close_after, mbind, flow_bind, peer_shutdown. rewrite shutdowns_succeed. cbn.
  split; [rewrite <- Ho; by destruct up|]. split; [rewrite <- (Hin (negb up)); by destruct up|].
  left. by destruct up.
Qed.
Lemma read_turn_advances st w0 w up : relay_inv w0 st w ->
  let '(r, w') := relay_turn limits st (OnRead up) w in advances st w up r w'.
Proof.
  intros (steps & streams & _ & _ & Hside). destruct (Hside up) as [_ [_ _ Hheld _]].
  set (size := PreflightBuffer.read_size (preflight st up) RELAY_READ_BUFFER_BYTES (preflight_bytes limits)).
  assert (Hsize : (0 < N.to_nat size)).
  { subst size. unfold PreflightBuffer.read_size, RELAY_READ_BUFFER_BYTES.
    destruct (preflight st up); [destruct Hheld as [?|Hheld]; [done|]; cbn [PreflightBuffer.held] in Hheld|]; lia. }
  cbn [relay_turn]. fold size. unfold mbind, flow_bind, peer_read. destruct (reads_succeed (history w) (reader up)) as [k ->].
  set (count := Nat.min (S k) (N.to_nat size)). assert (Hc : 0 < count) by (subst count; lia).
  set (w1 := with_input w (reader up) (drop count (input_of w (reader up)))).
  assert (Hother : input_of w1 (reader (negb up)) = input_of w (reader (negb up))) by (by destruct up).
  assert (Hsame : input_of w1 (reader up) = drop count (input_of w (reader up))) by (by destruct up).
  destruct (input_of w (reader up)) as [|c rest] eqn:Einput.
  { rewrite take_nil. assert (Hw1 : same_input w w1).
    { intros x. destruct (bool_decide (x = up)) eqn:Ex; [apply bool_decide_eq_true in Ex as ->; by rewrite Hsame, Einput, drop_nil|].
      apply bool_decide_eq_false in Ex. assert (x = negb up) as -> by (by destruct x, up). done. }
    destruct (PreflightBuffer.release (preflight st up)) as [released buffer].
    destruct released as [|y released]; [apply close_after_live; [by destruct up|done]|].
    destruct (forward_and_live (with_preflight st up buffer) up (y :: released) (close_after up) w1)
      as (w2 & Hin & [(r & -> & Hr) | (i & ->)]); [done|].
    apply close_after_live; [by destruct up|]. intros x. by rewrite (Hin x). }
  destruct count as [|count]; [lia|]. cbn [take].
  assert (Hlen : length (input_of w1 (reader up)) < length (c :: rest)).
  { rewrite Hsame. cbn. rewrite length_drop. lia. }
  destruct (PreflightBuffer.push _ _ _ _ _) as [[released|] buffer]; cycle 1.
  { cbn [go_on mret flow_ret advances]. split; [by destruct up|]. split; [done|]. right. by rewrite Einput. }
  match goal with |- context [forward_and limits ?st up released go_on w1] =>
    destruct (forward_and_live st up released go_on w1) as (w2 & Hin & [(r & -> & Hr) | (i & ->)]); [done|] end.
  cbn [go_on mret flow_ret advances]. split; [by destruct up|]. split; [by rewrite (Hin (negb up))|].
  right. by rewrite (Hin up), Einput.
Qed.

(** Turns left to read all the input of the open directions. *)
Definition enough (schedule : list bool) (st : relay_state) (w : world) : Prop :=
  forall up, is_open st up = true -> length (input_of w (reader up)) < count_occ Bool.bool_dec schedule up.
Lemma relay_loop_finishes w0 st schedule w : relay_inv w0 st w -> enough schedule st w ->
  exists s t w', relay_loop limits st (OnRead <$> schedule) w = (Ok (Some (RelayResult s t)), w') /\
    (t = Completed \/ t = InspectionBlocked).
Proof.
  revert st w; induction schedule as [|up schedule IH]; intros st w Hinv Hen;
    change (OnRead <$> ?x :: ?l) with (OnRead x :: (OnRead <$> l)); cbn [relay_loop fmap list_fmap];
    destruct (negb (client_open st) && negb (upstream_open st)) eqn:Hdone; [by eauto 8| |by eauto 8|].
  { apply andb_false_iff in Hdone as [Hd|Hd]; apply negb_false_iff in Hd;
      [specialize (Hen true Hd)|specialize (Hen false Hd)]; cbn in Hen; lia. }
  cbn [enabled]. destruct (is_open st up) eqn:Hup; cycle 1.
  { apply IH; [done|]. intros x Hx. specialize (Hen x Hx). cbn in Hen. destruct (Bool.bool_dec up x); [congruence|done]. }
  pose proof (read_turn_advances st w0 w up Hinv) as Hadv. unfold mbind, flow_bind.
  pose proof (relay_turn_ok hooks_disabled (fun _ _ => True) (fun _ _ => True) ltac:(done) ltac:(done) ltac:(done)
    ltac:(done) limits limit_positive w0 st (OnRead up) w Hinv Hup) as Hok.
  destruct (relay_turn limits st (OnRead up) w) as [[[st'|[s t]]|e] w1]; cbn [advances] in Hadv; [| |done].
  - destruct Hadv as (Ho & Hi & Hadv). apply IH; [done|]. intros x Hx. destruct (decide (x = up)) as [->|Hne].
    + destruct Hadv as [Hcl|Hlt]; [congruence|]. specialize (Hen up Hup). cbn in Hen.
      destruct (Bool.bool_dec up up); [lia|done].
    + assert (x = negb up) as -> by (by destruct x, up). rewrite Hi. rewrite Ho in Hx.
      specialize (Hen _ Hx). cbn in Hen. destruct (Bool.bool_dec up (negb up)); [by destruct up|done].
  - cbn in Hadv. eauto 8.
Qed.
End Progress.

(** C37. The relay ends: with hooks disabled, an audit channel that accepts every event
    or a policy that carries on without it, and peers whose reads, writes and
    half-closes succeed, a schedule that polls each direction once more than its peer
    has bytes to send brings the relay to completion (everything delivered) or to an
    inspection block; it neither errors nor hangs. *)
Theorem relay_terminates `{Environment, Sha256, Hex} (limits : relay_limits) (i : option flow_inspector)
    (schedule : list bool) (w : world) :
  (forall l, HookRunner.mode (hook_runner l) = Disabled) ->
  audit_policy = FailOpen \/ (forall l e, audit_answer l e = Ok tt) ->
  (forall l p, exists k, read_answer l p = ReadUpTo k) -> (forall l p b, write_answer l p b = WriteDone) ->
  (forall l p, shutdown_answer l p = true) -> preflight_bytes limits <> 0%N ->
  (forall up, length (input_of w (reader up)) < count_occ Bool.bool_dec schedule up) ->
  exists s t w', relay limits i (OnRead <$> schedule) w = (Ok (Some (RelayResult s t)), w') /\
    (t = Completed \/ t = InspectionBlocked).
Proof.
  intros Hh Ho Hr Hw Hs Hpos Hlen.
  destruct (relay_loop_finishes Hh Ho Hr Hw Hs limits Hpos w _ schedule w
    (relay_start_inv _ limits i (now (history w)) w Hpos I)) as (s & t & w' & Hrun & Ht).
  { intros up _. apply Hlen. }
  by exists s, t, w'.
Qed.

(** * Witnesses *)

Module Example_relay.
#[local] Existing Instance host_nets.
#[local] Existing Instance Example_headers.gmap_headers.
#[local] Existing Instance identity_digest.
#[local] Instance plain_hex : Hex := {| hex_encode := fun b => b; hex_decode := Some |}.
#[local] Existing Instance Example_inspection.environment.
Definition limits : relay_limits := RelayLimits 60 8 5.
Definition start : world :=
  World [] (MetricCounters 0 0 0 0 0 0 0 0 0 0) (bs "xxabcyy") (bs "reply").
Definition allowed : world := World [] (MetricCounters 0 0 0 0 0 0 0 0 0 0) (bs "xxabyy") (bs "reply").
Definition polls (n : nat) : list bool := concat (replicate n [true; false]).
Definition inspector : option flow_inspector := Some (inspector_of Example_inspection.snapshot 1%N None Tcp 64%N).
Lemma hooks_off l : HookRunner.mode (hook_runner l) = Disabled.
Proof. reflexivity. Qed.

Lemma relay_delivers_in_order_witness :
  exists steps, history (relay limits inspector (OnRead <$> polls 3) allowed).2 = history allowed ++ steps /\
    sent_to UpstreamEnd steps = bs "xxabyy" /\ sent_to ClientEnd steps = bs "reply".
Proof.
  destruct (relay_delivers_in_order limits inspector (OnRead <$> polls 3) allowed
    (relay limits inspector (OnRead <$> polls 3) allowed).2
    (Ok (Some (RelayResult (RelayStats 6 5) Completed)))) as (steps & Hh & Hsent).
  - apply hooks_off.
  - discriminate.
  - vm_compute. reflexivity.
  - exists steps. split; [exact Hh|].
    split; [exact (proj1 (proj2 (Hsent true) _ eq_refl))|exact (proj1 (proj2 (Hsent false) _ eq_refl))].
Defined.
(** The request carries the refused [abc]: it is blocked before a byte of it is sent. *)
Lemma relay_sends_only_clean_witness :
  (exists s, (relay limits inspector (OnRead <$> polls 3) start).1 = Ok (Some (RelayResult s InspectionBlocked))) /\
  exists steps, history (relay limits inspector (OnRead <$> polls 3) start).2 = history start ++ steps /\
    forall up q, q ∈ ex_patterns -> InspectionPattern.action q = RuleDeny ->
      InspectionPattern.applies_to q (relay_direction up) = true ->
      match_offsets (takeN 64 (sent_to (writer up) steps)) (InspectionPattern.bytes_ q) = [].
Proof.
  split; [eexists; vm_compute; reflexivity|].
  apply (relay_sends_only_clean PolicyGeneration.INITIAL ex_patterns Example_inspection.snapshot 1%N None limits 64%N
    (OnRead <$> polls 3) start (relay limits inspector (OnRead <$> polls 3) start).2
    (relay limits inspector (OnRead <$> polls 3) start).1).
  - apply hooks_off.
  - discriminate.
  - vm_compute. reflexivity.
  - repeat constructor; discriminate.
  - reflexivity.
  - reflexivity.
  - vm_compute. discriminate.
  - apply surjective_pairing.
Defined.
(** With an audit channel that refuses every event under a policy that carries on, and
    with one that accepts under a policy that does not. *)
Lemma relay_terminates_witness :
  (exists s t w', relay limits inspector (OnRead <$> polls 10) start = (Ok (Some (RelayResult s t)), w') /\
    (t = Completed \/ t = InspectionBlocked)) /\
  exists s t w', relay (H1 := Example_flow.environment) limits inspector (OnRead <$> polls 10) start
      = (Ok (Some (RelayResult s t)), w') /\
    (t = Completed \/ t = InspectionBlocked).
Proof.
  split.
  - apply relay_terminates; [apply hooks_off|left; reflexivity|intros l p; by exists 1023|reflexivity|reflexivity|discriminate|].
    intros []; vm_compute; lia.
  - apply relay_terminates; [reflexivity|right; reflexivity|intros l p; by exists 1023|reflexivity|reflexivity|discriminate|].
    intros []; vm_compute; lia.
Defined.
End Example_relay.
