(* ===== verification/Settings.v ===== *)
(** Validated settings of the data plane (crates/freja-proxy/src/settings.rs): limits,
    capture bounds and the inputs of TLS interception.  Durations are whole numbers of
    an unspecified unit; only whether they are zero matters here. *)
From stdpp Require Import strings.
From stdpp Require Import prelude.
From S2P Require Import Prelude Bytes PolicyModel.

Inductive settings_error : Type := ZeroLimit (name : bytes) | EmptyInterceptionAllowlist.
#[export] Instance settings_error_eq_dec : EqDecision settings_error.
Proof. solve_decision. Defined.
Definition show_settings_error (e : settings_error) : bytes :=
  match e with
  | ZeroLimit name => bs "proxy limit " ++ name ++ bs " must be non-zero"
  | EmptyInterceptionAllowlist => bs "TLS interception requires a non-empty host allowlist"
  end.

(** * Limits *)

Record proxy_limits : Type := ProxyLimits {
  connections : N;
  header_bytes : N;
  body_prefix_bytes : N;
  limit_connect_timeout : N;
  limit_read_timeout : N;
  limit_idle_timeout : N }.
(** The loops over the named bounds, sizes before durations. *)
Definition nonzero_limits (l : list (bytes * N)) : result settings_error unit :=
  match List.find (fun v => bool_decide (v.2 = 0%N)) l with
  | Some (name, _) => Err (ZeroLimit name)
  | None => Ok tt
  end.
Definition proxy_limits_new (connections header_bytes body_prefix_bytes connect_timeout read_timeout idle_timeout : N)
  : result settings_error proxy_limits :=
  _ ← nonzero_limits [(bs "connections", connections); (bs "header_bytes", header_bytes);
                      (bs "body_prefix_bytes", body_prefix_bytes)];
  _ ← nonzero_limits [(bs "connect_timeout", connect_timeout); (bs "read_timeout", read_timeout);
                      (bs "idle_timeout", idle_timeout)];
  Ok (ProxyLimits connections header_bytes body_prefix_bytes connect_timeout read_timeout idle_timeout).
Definition with_connections (l : proxy_limits) (v : N) : result settings_error proxy_limits :=
  proxy_limits_new v (header_bytes l) (body_prefix_bytes l) (limit_connect_timeout l) (limit_read_timeout l) (limit_idle_timeout l).
Definition with_header_bytes (l : proxy_limits) (v : N) : result settings_error proxy_limits :=
  proxy_limits_new (connections l) v (body_prefix_bytes l) (limit_connect_timeout l) (limit_read_timeout l) (limit_idle_timeout l).
Definition with_body_prefix_bytes (l : proxy_limits) (v : N) : result settings_error proxy_limits :=
  proxy_limits_new (connections l) (header_bytes l) v (limit_connect_timeout l) (limit_read_timeout l) (limit_idle_timeout l).
Definition with_connect_timeout (l : proxy_limits) (v : N) : result settings_error proxy_limits :=
  proxy_limits_new (connections l) (header_bytes l) (body_prefix_bytes l) v (limit_read_timeout l) (limit_idle_timeout l).
Definition with_read_timeout (l : proxy_limits) (v : N) : result settings_error proxy_limits :=
  proxy_limits_new (connections l) (header_bytes l) (body_prefix_bytes l) (limit_connect_timeout l) v (limit_idle_timeout l).
Definition with_idle_timeout (l : proxy_limits) (v : N) : result settings_error proxy_limits :=
  proxy_limits_new (connections l) (header_bytes l) (body_prefix_bytes l) (limit_connect_timeout l) (limit_read_timeout l) v.

(** * Capture *)

(** [NonZeroUsize::new(value).ok_or(ZeroLimit { name })]. *)
Definition non_zero (name : bytes) (v : N) : result settings_error N :=
  if decide (v = 0%N) then Err (ZeroLimit name) else Ok v.
Module CaptureSettings.
Record t : Type := Make { maximum_prefix_bytes : option N }.
Definition metadata_only : t := Make None.
Definition prefix (maximum : N) : result settings_error t :=
  v ← non_zero (bs "capture_prefix_bytes") maximum; Ok (Make (Some v)).
End CaptureSettings.
Module UiCaptureSettings.
Record t : Type := Make { content_bytes : N; retained_rows : N }.
Definition new (content_bytes retained_rows : N) : result settings_error t :=
  content ← non_zero (bs "ui_content_bytes") content_bytes;
  rows ← non_zero (bs "ui_retained_rows") retained_rows;
  Ok (Make content rows).
End UiCaptureSettings.

(** * TLS interception *)

Module TlsInterceptionConfig.
(** Paths are their text. *)
Record t : Type := Make {
  ca_certificate : bytes; ca_private_key : bytes; intercept_hosts : list host_pattern; leaf_cache_entries : N }.
Definition new (ca_certificate ca_private_key : bytes) (intercept_hosts : list host_pattern) (leaf_cache_entries : N)
  : result settings_error t :=
  match intercept_hosts with
  | [] => Err EmptyInterceptionAllowlist
  | _ =>
      entries ← non_zero (bs "tls_leaf_cache_entries") leaf_cache_entries;
      Ok (Make ca_certificate ca_private_key intercept_hosts entries)
  end.
End TlsInterceptionConfig.

(** * Values the API can build *)

Definition limits_wf (l : proxy_limits) : Prop :=
  Forall (fun v => (0 < v)%N)
    [connections l; header_bytes l; body_prefix_bytes l; limit_connect_timeout l; limit_read_timeout l; limit_idle_timeout l].
(** From the constructor, through any sequence of setters. *)
Inductive built : proxy_limits -> Prop :=
| built_new c h b ct rt it l : proxy_limits_new c h b ct rt it = Ok l -> built l
| built_with l (set : proxy_limits -> N -> result settings_error proxy_limits) v l' :
    set ∈ [with_connections; with_header_bytes; with_body_prefix_bytes; with_connect_timeout; with_read_timeout; with_idle_timeout] ->
    built l -> set l v = Ok l' -> built l'.

Lemma nonzero_limits_spec l :
  match nonzero_limits l with
  | Ok _ => Forall (fun v => (0 < v.2)%N) l
  | Err e => exists name, e = ZeroLimit name /\ (name, 0%N) ∈ l
  end.
Proof.
  unfold nonzero_limits. destruct (List.find _ l) as [[name v]|] eqn:E.
  - apply find_some in E as [Hin Hv]. apply bool_decide_eq_true in Hv. cbn in Hv. subst v.
    exists name. split; [done|]. by apply list_elem_of_In.
  - apply Forall_forall. intros v Hin. apply list_elem_of_In in Hin. pose proof (find_none _ _ E v Hin) as Hv.
    apply bool_decide_eq_false in Hv. lia.
Qed.
Lemma proxy_limits_new_ok c h b ct rt it l :
  proxy_limits_new c h b ct rt it = Ok l <-> l = ProxyLimits c h b ct rt it /\ limits_wf l.
Proof.
  unfold proxy_limits_new, limits_wf.
  pose proof (nonzero_limits_spec [(bs "connections", c); (bs "header_bytes", h); (bs "body_prefix_bytes", b)]) as H1.
  pose proof (nonzero_limits_spec [(bs "connect_timeout", ct); (bs "read_timeout", rt); (bs "idle_timeout", it)]) as H2.
  destruct (nonzero_limits [(bs "connections", c); _; _]) as [[]|e1]; mcbn.
  - destruct (nonzero_limits _) as [[]|e2]; mcbn.
    + rewrite !Forall_cons in *. cbn in *. split; [intros [= <-]; naive_solver|]. by intros [-> _].
    + destruct H2 as (name & -> & Hin). split; [done|]. intros [-> Hwf]. rewrite !Forall_cons in Hwf.
      cbn in Hwf. rewrite !elem_of_cons in Hin. exfalso.
      destruct Hin as [[= _ <-]|[[= _ <-]|[[= _ <-]|Hin%elem_of_nil]]]; lia || done.
  - destruct H1 as (name & -> & Hin). split; [done|]. intros [-> Hwf]. rewrite !Forall_cons in Hwf.
    cbn in Hwf. rewrite !elem_of_cons in Hin. exfalso.
    destruct Hin as [[= _ <-]|[[= _ <-]|[[= _ <-]|Hin%elem_of_nil]]]; lia || done.
Qed.

(** C40. A limit is never zero: the values of the limits type that the constructor and any
    sequence of setters can build are exactly those whose six bounds are all positive,
    and the constructor refuses a zero bound with the name of one that is zero. *)
Theorem limits_are_positive (l : proxy_limits) :
  (built l <-> limits_wf l) /\
  forall c h b ct rt it, match proxy_limits_new c h b ct rt it with
    | Ok l => l = ProxyLimits c h b ct rt it /\ limits_wf l
    | Err e => exists name, e = ZeroLimit name /\
        (name, 0%N) ∈ [(bs "connections", c); (bs "header_bytes", h); (bs "body_prefix_bytes", b);
                       (bs "connect_timeout", ct); (bs "read_timeout", rt); (bs "idle_timeout", it)]
    end.
Proof.
  split.
  - split.
    + induction 1 as [c h b ct rt it l Hl|l set v l' Hset _ _ Hl]; [by apply proxy_limits_new_ok in Hl as [_ ?]|].
      rewrite !elem_of_cons, elem_of_nil in Hset.
      by destruct Hset as [->|[->|[->|[->|[->|[->|[]]]]]]]; apply (proj1 (proxy_limits_new_ok _ _ _ _ _ _ _)) in Hl as [_ ?].
    + intros Hwf. destruct l as [c h b ct rt it]. eapply built_new, proxy_limits_new_ok. eauto.
  - intros c h b ct rt it. destruct (proxy_limits_new c h b ct rt it) as [l'|e] eqn:E; [by apply proxy_limits_new_ok|].
    revert E. unfold proxy_limits_new.
    pose proof (nonzero_limits_spec [(bs "connections", c); (bs "header_bytes", h); (bs "body_prefix_bytes", b)]) as H1.
    pose proof (nonzero_limits_spec [(bs "connect_timeout", ct); (bs "read_timeout", rt); (bs "idle_timeout", it)]) as H2.
    destruct (nonzero_limits [(bs "connections", c); _; _]) as [[]|e1]; mcbn.
    + destruct (nonzero_limits _) as [[]|e2]; mcbn; [done|]. intros [= <-]. set_solver.
    + intros [= <-]. set_solver.
Qed.
