(* ===== verification/TcpSession.v ===== *)
(** Static TCP sessions (crates/freja-proxy/src/tcp/session.rs) under the limits of
    settings.rs: authorise, connect, relay, and the audit events that open and
    close the flow. *)
From stdpp Require Import gmap strings.
From stdpp Require Import prelude.
From S2P Require Import Prelude Bytes Net Endpoint Domain PolicyModel Acl Guard Inspection AuditModel AuditSink Hooks Runtime Destination FlowInspect Relay Settings.

(** [RelayLimits::new(limits.idle_timeout, limits.body_prefix_bytes, limits.read_timeout)]. *)
Definition relay_limits_of (l : proxy_limits) : relay_limits :=
  RelayLimits (limit_idle_timeout l) (body_prefix_bytes l) (limit_read_timeout l).

(** * The session *)

Definition termination_outcome (t : relay_termination) : flow_outcome :=
  match t with
  | Completed => OutCompleted
  | IdleTimeout => OutIdleTimeout
  | Shutdown => OutShutdown
  | InspectionBlocked => OutInspectionBlocked
  end.
Definition error_outcome (e : proxy_error) : flow_outcome :=
  match e with
  | PolicyDenied _ => OutPolicyDenied
  | DetourLoop _ => OutDetourLoop
  | Dns _ | NoResolvedAddresses _ => OutDnsFailure
  | DnsTimedOut _ => OutDnsTimeout
  | ConnectFailed _ => OutConnectFailure
  | ConnectTimedOut _ => OutConnectTimeout
  | RelayRead _ | RelayWrite _ => OutRelayFailure
  | Audit _ => OutAuditFailure
  | HookError _ | HookMutation _ | InteractiveError _ | InteractiveRejected => OutHookFailure
  | ShutdownError => OutShutdown
  | Bind _ | LocalAddress | AcceptFailed | HttpConnection | UpstreamHttp _ | InvalidHttpStatus
  | UpstreamResponseTimedOut | HttpUpgrade | TunnelRegistration | InternalPolicy _ | ConcurrencyClosed
  | Join | Socks _ | Tls _ => OutRuntimeFailure
  end.

Section Session.
Context `{Environment, Sha256, Hex}.

(** [None]: the schedule ended before the relay did. *)
Definition run_session_inner (client : socket_addr) (upstream : UpstreamEndpoint.t) (s : session_id)
    (limits : proxy_limits) (schedule : list branch) : flow (option relay_result) :=
  let requested := RequestedTargetFacts (sa_ip client) (UpstreamEndpoint.host upstream)
                     (UpstreamEndpoint.port upstream) Tcp in
  addresses ← authorize_and_resolve requested s None;
  _ ← connect_any addresses;
  i ← inspector_new s None Tcp (body_prefix_bytes limits);
  relay (relay_limits_of limits) (Some i) schedule.
(** What both kinds of session do with the result of their body. *)
Definition close_session (s : session_id) (outcome_of : proxy_error -> flow_outcome)
    (r : result proxy_error (option relay_result)) : flow (option unit) :=
  match r with
  | Ok None => mret None
  | Ok (Some r) =>
      let '(up, down) := (up_bytes (stats r), down_bytes (stats r)) in
      _ ← publish_event s None (FlowClosed up down (termination_outcome (termination r)));
      _ ← publish_flow_closed s up down;
      mret (Some tt)
  | Err e =>
      _ ← publish_event s None (FlowClosed 0 0 (outcome_of e));
      _ ← publish_flow_closed s 0%N 0%N;
      fail e
  end.
Definition run_static_session (client listener : socket_addr) (upstream : UpstreamEndpoint.t) (s : session_id)
    (limits : proxy_limits) (schedule : list branch) : flow (option unit) :=
  _ ← publish_event s None (ConnectionAccepted (show_socket_addr client) (show_socket_addr listener));
  _ ← publish_flow_opened s (show_socket_addr client) (UpstreamEndpoint.show upstream);
  r ← attempt (run_session_inner client upstream s limits schedule);
  close_session s error_outcome r.
End Session.

(** * What the parts of a session can do *)

(** Events that open or close a flow, a tunnel or an HTTP transaction, or authenticate a
    client. *)
Definition lifecycle (e : audit_event) : bool :=
  match e with
  | ConnectionAccepted _ _ | FlowClosed _ _ _ | TunnelClosed _ _ _ | ProxyAuthentication_ _
  | HttpRequestObserved _ _ _ | HttpResponseObserved _ _ | HttpRepeatStarted _ _ => true
  | _ => false
  end.

Section Parts.
Context `{Environment, Sha256, Hex} (P : step -> Prop).
Context (P_audited : forall e answer, lifecycle (envelope_event e) = false -> P (Audited e answer)).
Context (P_observed : forall e, vouches e -> P (Observed e)).

Lemma only_quiet e : lifecycle (envelope_event e) = false -> only P (publish e).
Proof. intros. apply only_publish. auto. Qed.
Lemma only_observe e : vouches e -> only P (try_publish e).
Proof. intros. by apply only_try_publish, P_observed. Qed.
#[local] Hint Resolve only_quiet only_observe : only.
Ltac quiet := unfold record_action, publish_event, publish_decision, publish_finding, publish_replay_facts,
  publish_capture, publish_inspection_decision; only_auto.

Lemma only_authorize_requested n snapshot s t selected : only P (authorize_requested n snapshot s t selected).
Proof. revert selected; induction n as [|n IH]; intros selected; cbn [authorize_requested]; quiet; try apply IH. Qed.
Lemma only_authorize_addresses snapshot s t selected addresses denial :
  only P (authorize_addresses snapshot s t selected addresses denial).
Proof.
  revert denial; induction addresses as [|a addresses IH]; intros denial; cbn [authorize_addresses];
    unfold guard_address; quiet; try apply IH.
Qed.
Lemma only_authorize_resolved snapshot s t selected addresses :
  only P (authorize_resolved_targets snapshot s t selected addresses).
Proof. unfold authorize_resolved_targets. apply only_bind; [apply only_authorize_addresses|intros]. quiet. Qed.
Lemma only_resolve selected : (forall host port, P (LookedUp host port)) -> only P (resolve selected).
Proof.
  intros Hl. unfold resolve. only_auto. intros w. eexists [_]. split; [|constructor; [apply Hl|done]].
  by destruct (lookup_host _ _ _).
Qed.
Lemma only_authorize_and_resolve requested s t : (forall host port, P (LookedUp host port)) ->
  only P (authorize_and_resolve requested s t).
Proof.
  intros Hl. unfold authorize_and_resolve. apply only_bind; [apply only_snapshot|intros snapshot].
  apply only_bind; [apply only_authorize_requested|intros selected].
  apply only_bind; [by apply only_resolve|intros addresses].
  apply only_bind; [quiet|intros _]. apply only_bind; [apply only_authorize_resolved|intros _]. apply only_ret.
Qed.
Lemma only_connect_any addresses : (forall a, a ∈ addresses -> P (Connected a)) -> only P (connect_any addresses).
Proof.
  unfold connect_any. generalize (@None proxy_error).
  induction addresses as [|a addresses IH]; intros last_error Ha; cbn [connect_loop]; [apply only_fail|].
  intros w. assert (Hrest : forall b, b ∈ addresses -> P (Connected b)) by (intros b Hb; apply Ha; set_solver).
  assert (Hpa : P (Connected a)) by (apply Ha; set_solver).
  assert (Hgo : forall e, exists l, history (connect_loop addresses e (log (Connected a) w)).2 = history w ++ l /\ Forall P l).
  { intros e. destruct (IH e Hrest (log (Connected a) w)) as (l & Hl & HF). exists (Connected a :: l).
    rewrite Hl. cbn. rewrite <- app_assoc. split; [done|]. by constructor. }
  destruct (connect (history w) a); try apply Hgo; exists [Connected a]; (split; [done|]); by constructor.
Qed.
Lemma only_permits i d b : only P (inspector_permits i d b).
Proof.
  unfold inspector_permits. apply only_bind; [|intros i1; apply only_bind; [|intros i2]].
  - unfold publish_ui_prefix, publish_body_prefix. quiet.
  - unfold capture. quiet.
  - destruct (scan_step i2 d b) as [[findings|] i3]; [|apply only_ret].
    apply only_bind; [apply only_context|intros c]. apply only_bind; [|intros; apply only_ret].
    induction findings as [|f findings IH]; cbn [judge_findings]; quiet; try apply IH.
Qed.
Lemma only_transform i d b maximum : only P (transform_tcp_chunk i d b maximum).
Proof.
  unfold transform_tcp_chunk, run_tcp_hook. only_auto. intros w. case_decide; [by apply only_ret|].
  destruct d; try (by apply only_ret); apply only_bind; intros; quiet.
Qed.

Context (P_sent : forall p b, P (Sent p b)) (P_closed : forall p, P (Closed p)).
Lemma only_log {A} (m : flow A) s : P s -> (forall w, (m w).2 = log s w) -> only P m.
Proof. intros Hs Hm w. exists [s]. rewrite Hm. split; [done|]. by constructor. Qed.
Lemma only_forward_chunk i up b maximum : only P (forward_chunk i up b maximum).
Proof.
  unfold forward_chunk. apply only_bind.
  - destruct i as [i|]; cbn [process_chunk]; [|apply only_ret].
    apply only_bind; [apply only_permits|intros [ok i']]. destruct ok; [|apply only_ret].
    apply only_bind; [apply only_transform|intros; apply only_ret].
  - intros [process i']. destruct process; try apply only_ret. apply only_bind; [|intros; apply only_ret].
    intros w. unfold write_with_controls.
    destruct (write_answer _ _ _); eexists [_]; (split; [reflexivity|]); by constructor.
Qed.
Lemma only_forward_and limits st up b k : (forall st, only P (k st)) -> only P (forward_and limits st up b k).
Proof.
  intros Hk. unfold forward_and. apply only_bind; [apply only_forward_chunk|intros [outcome i]].
  destruct outcome; auto with only.
Qed.
Lemma only_close_after up st : only P (close_after up st).
Proof.
  unfold close_after. cbv zeta. apply only_bind; [|intros; apply only_ret].
  apply (only_log _ (Closed (writer up))); [done|]. intros w. unfold peer_shutdown. by destruct (shutdown_answer _ _).
Qed.
Lemma only_relay_turn limits st b : only P (relay_turn limits st b).
Proof.
  destruct b as [| |up|up]; cbn [relay_turn]; try apply only_ret.
  - destruct (PreflightBuffer.release _). apply only_forward_and. intros. apply only_ret.
  - apply only_bind.
    { intros w. exists []. rewrite app_nil_r. split; [|done]. unfold peer_read.
      destruct (read_answer _ _); [by destruct up|done|done]. }
    intros [|c input].
    + destruct (PreflightBuffer.release _) as [[|x released] buffer]; cbv zeta; [apply only_close_after|].
      apply only_forward_and. apply only_close_after.
    + match goal with |- only P (fun w => @?f w) => intros w end.
      destruct (PreflightBuffer.push _ _ _ _ _) as [[released|] buffer]; cbv zeta;
        [apply (only_forward_and limits)|apply only_ret]. intros. apply only_ret.
Qed.
Lemma only_relay limits i schedule : only P (relay limits i schedule).
Proof.
  intros w. unfold relay. generalize (relay_start i limits (now (history w))) as st. revert w.
  induction schedule as [|b schedule IH]; intros w st; cbn [relay_loop];
    destruct (negb (client_open st) && negb (upstream_open st)); try by apply only_ret.
  destruct (enabled st b); [|apply IH]. apply only_bind; [apply only_relay_turn|].
  intros [st'|r]; [|apply only_ret]. intros w'. apply IH.
Qed.
End Parts.

(** * Traces of sessions *)

Section Traces.
Context `{Environment, Sha256, Hex}.
(** Steps that reach the upstream side. *)
Definition reaches_upstream (s : step) : bool :=
  match s with Connected _ | Sent UpstreamEnd _ | Closed UpstreamEnd | RequestSent _ _ _ _ _ => true | _ => false end.
Definition client_side (s : step) : Prop := reaches_upstream s = false.
Definition no_connection (s : step) : Prop := match s with Connected _ => False | _ => True end.
(** The steps [l] added to [before] leave the upstream side alone, or reach it only by
    trying, in order, addresses that one authorisation of [requested], begun and over
    before the first attempt, returned. *)
Definition contacts (requested : requested_facts) (before l : list step) : Prop :=
  Forall client_side l \/
  exists l1 tried l2 addresses h h',
    l = l1 ++ map Connected tried ++ l2 /\ Forall client_side l1 /\ Forall no_connection l2 /\
    tried <> [] /\ tried `prefix_of` addresses /\
    before `prefix_of` h /\ h' `prefix_of` before ++ l1 /\ authorized h h' requested addresses.
Lemma client_side_no_connection l : Forall client_side l -> Forall no_connection l.
Proof. intros HF. eapply Forall_impl; [exact HF|]. by intros []. Qed.
Lemma contacts_before requested before l l' :
  Forall client_side l -> contacts requested (before ++ l) l' -> contacts requested before (l ++ l').
Proof.
  intros Hl [HF|(l1 & tried & l2 & addresses & h & h' & -> & F1 & F2 & Hne & Hpre & Hb & Hh & Hauth)].
  - left. by apply Forall_app.
  - right. exists (l ++ l1), tried, l2, addresses, h, h'. rewrite <- app_assoc. split; [done|].
    split; [by apply Forall_app|]. split; [done|]. split; [done|]. split; [done|].
    split; [by eapply prefix_app_l|]. by rewrite app_assoc.
Qed.
Lemma contacts_after requested before l l' :
  contacts requested before l -> Forall client_side l' -> contacts requested before (l ++ l').
Proof.
  intros [HF|(l1 & tried & l2 & addresses & h & h' & -> & F1 & F2 & Hc)] Hl'.
  - left. by apply Forall_app.
  - right. exists l1, tried, (l2 ++ l'), addresses, h, h'. rewrite <- !app_assoc. split; [done|].
    split; [done|]. split; [|done]. apply Forall_app. split; [done|]. by apply client_side_no_connection.
Qed.

Lemma client_side_audited e answer : client_side (Audited e answer).
Proof. done. Qed.
Lemma attempted_tried addresses last_error before after r : attempted addresses last_error before after r ->
  exists tried, after = before ++ map Connected tried /\ tried `prefix_of` addresses /\ (is_ok r = true -> tried <> []).
Proof.
  intros (failed & _ & Hr). destruct r as [a|e].
  - destruct Hr as (-> & Hpre & _). exists (failed ++ [a]). split; [done|]. split; [done|]. by destruct failed.
  - destruct Hr as [(a & -> & -> & Hpre)|(-> & -> & _)]; eexists; (split; [done|]); done.
Qed.
(** Authorise, connect, go on, with a handler that gives up after either failure. *)
Lemma session_contacts {A} requested s t h1 h2 (k : socket_addr -> flow A) w :
  (forall e, only client_side (h1 e)) -> (forall e w, is_ok (h1 e w).1 = false) ->
  (forall e, only client_side (h2 e)) -> (forall e w, is_ok (h2 e w).1 = false) ->
  (forall a, only no_connection (k a)) ->
  exists l, history ((addresses ← catch (authorize_and_resolve requested s t) h1;
                      a ← catch (connect_any addresses) h2; k a) w).2 = history w ++ l /\
    contacts requested (history w) l.
Proof.
  intros O1 F1 O2 F2 Ok. unfold mbind, flow_bind, catch.
  pose proof (authorize_and_resolve_authorized requested s t w) as Hauth.
  destruct (only_authorize_and_resolve client_side ltac:(done) ltac:(done) requested s t ltac:(done) w) as (l1 & Hl1 & HF1).
  destruct (authorize_and_resolve requested s t w) as [[addresses|e] w1]; cbn [snd] in Hl1; cycle 1.
  { destruct (O1 e w1) as (l & Hl & HF). specialize (F1 e w1). destruct (h1 e w1) as [[?|?] w2]; [done|].
    exists (l1 ++ l). cbn in Hl |- *. rewrite Hl, Hl1, app_assoc. split; [done|]. left. by apply Forall_app. }
  pose proof (connect_loop_spec addresses None w1) as Hc. fold (connect_any addresses) in Hc.
  destruct (connect_any addresses w1) as [r w2]. apply attempted_tried in Hc as (tried & Hh2 & Hpre & Hok).
  assert (Hcontact : forall l2, tried <> [] -> Forall no_connection l2 ->
    contacts requested (history w) (l1 ++ map Connected tried ++ l2)).
  { intros l2 Hne HF2. right. exists l1, tried, l2, addresses, (history w), (history w1).
    do 6 (split; [done|]). split; [by rewrite Hl1|]. by apply Hauth. }
  destruct r as [a|e].
  - destruct (Ok a w2) as (l2 & Hl2 & HF2). exists (l1 ++ map Connected tried ++ l2).
    rewrite Hl2, Hh2, Hl1, <- !app_assoc. split; [done|]. by apply Hcontact; [apply Hok|].
  - destruct (O2 e w2) as (l2 & Hl2 & HF2). specialize (F2 e w2). destruct (h2 e w2) as [[?|?] w3]; [done|].
    cbn in Hl2 |- *. exists (l1 ++ map Connected tried ++ l2). rewrite Hl2, Hh2, Hl1, <- !app_assoc. split; [done|].
    destruct (decide (tried = [])) as [->|Hne]; [left; by apply Forall_app|].
    apply Hcontact; [done|]. by apply client_side_no_connection.
Qed.
End Traces.

(** * The audit trail of a session *)

Section Trail.
Context `{Environment, Sha256, Hex}.
(** A session records its acceptance first; unless the audit channel failed closed on
    that, everything else it records is [inside], and once it is over exactly one
    closing event follows, which carries the outcome of the session. *)
Definition trail (accepted : audit_event) (inside : audit_event -> Prop) (outcome_of : proxy_error -> flow_outcome)
    (r : result proxy_error (option unit)) (events : list audit_event) : Prop :=
  (audit_policy = FailClosed /\ (exists e, r = Err (Audit e)) /\ events = [accepted]) \/
  exists middle, Forall inside middle /\
    match r with
    | Ok None => events = accepted :: middle
    | Ok (Some _) => exists up down t, events = accepted :: middle ++ [FlowClosed up down (termination_outcome t)]
    | Err e =>
        events = accepted :: middle ++ [FlowClosed 0 0 (outcome_of e)] \/
        (audit_policy = FailClosed /\ (exists e', e = Audit e') /\
         exists up down o, events = accepted :: middle ++ [FlowClosed up down o])
    end.
Definition audits (P : audit_event -> Prop) (s : step) : Prop :=
  match s with Audited e _ => P (envelope_event e) | _ => True end.
Lemma audits_audited P l : Forall (audits P) l -> Forall P (audited l).
Proof.
  induction 1 as [|s l Hs HF IH]; [constructor|]. destruct s; cbn; auto.
Qed.

Lemma close_follows s outcome_of r :
  follows (close_session s outcome_of r)
    (match r with
     | Ok None => []
     | Ok (Some r) => [FlowClosed (up_bytes (stats r)) (down_bytes (stats r)) (termination_outcome (termination r))]
     | Err e => [FlowClosed 0 0 (outcome_of e)]
     end)
    (match r with Ok None => Ok None | Ok (Some _) => Ok (Some tt) | Err e => Err e end).
Proof.
  destruct r as [[r|]|e]; cbn [close_session]; [|auto with scripts|]; unfold publish_flow_closed; script_step;
    rewrite <- (app_nil_l []); (eapply follows_bind; [eauto with scripts|]); auto with scripts.
Qed.
Lemma session_trail s accepted opened (inside : audit_event -> Prop) outcome_of body w :
  only (audits inside) body ->
  let '(r, w') := (_ ← publish_event s None accepted; _ ← try_publish opened;
                   r ← attempt body; close_session s outcome_of r) w in
  exists l, history w' = history w ++ l /\ trail accepted inside outcome_of r (audited l).
Proof.
  intros Hbody. unfold mbind at 1, flow_bind at 1.
  pose proof (follows_publish_event s None accepted w) as H0a.
  destruct (publish_event s None accepted w) as [r0 w0].
  destruct H0a as (le & (_ & _ & l0 & Hh0 & Ha0 & _) & [[-> ->]|(Hfc & [e ->] & Hne & Hpre)]); cycle 1.
  { exists l0. split; [done|]. left. split; [done|]. split; [by exists e|]. rewrite Ha0.
    destruct le as [|x [|y le]]; [done| |]; destruct Hpre as [k Hk]; by injection Hk as <-. }
  unfold mbind at 1, flow_bind at 1. pose proof (follows_try_publish opened w0) as H1a.
  destruct (try_publish opened w0) as [r1 w1].
  destruct H1a as (le & (_ & _ & l1 & Hh1 & Ha1 & _) & [[-> ->]|(_ & _ & Hne & Hpre)]);
    [|by apply prefix_nil_inv in Hpre].
  unfold mbind at 1, flow_bind at 1, attempt. destruct (Hbody w1) as (l2 & Hh2 & HF).
  apply audits_audited in HF. destruct (body w1) as [r2 w2]. cbn [snd] in Hh2.
  pose proof (close_follows s outcome_of r2 w2) as Hclose.
  destruct (close_session s outcome_of r2 w2) as [r3 w3].
  destruct Hclose as (le & (_ & _ & l3 & Hh3 & Ha3 & _) & Hcase).
  exists (l0 ++ l1 ++ l2 ++ l3). rewrite Hh3, Hh2, Hh1, Hh0, !app_assoc. split; [done|].
  right. exists (audited l2). split; [done|]. rewrite !audited_app, Ha0, Ha1, Ha3. cbn [app].
  destruct Hcase as [[-> ->]|(Hfc & [e ->] & Hne & Hpre)].
  - destruct r2 as [[r2|]|e]; [eauto 6| |by left]. by rewrite app_nil_r.
  - right. split; [done|]. split; [by eexists|].
    destruct r2 as [[r2|]|e2]; [|by apply prefix_nil_inv in Hpre|];
      (destruct le as [|x [|y le]]; [done| |]; destruct Hpre as [k Hk]; cbn in Hk; simplify_eq; eauto).
Qed.
(** A trace property of the body that the steps around it ([C]) preserve. *)
Lemma session_wrap (C : step -> Prop) (Q : list step -> list step -> Prop) s accepted opened outcome_of body w :
  (forall e answer, lifecycle (envelope_event e) = true -> C (Audited e answer)) -> (forall e, C (Observed e)) ->
  lifecycle accepted = true ->
  (forall before l l', Forall C l -> Q (before ++ l) l' -> Q before (l ++ l')) ->
  (forall before l l', Q before l -> Forall C l' -> Q before (l ++ l')) ->
  (forall before l, Forall C l -> Q before l) ->
  (forall w1, same_input w w1 -> exists l, history (body w1).2 = history w1 ++ l /\ Q (history w1) l) ->
  let '(r, w') := (_ ← publish_event s None accepted; _ ← try_publish opened;
                   r ← attempt body; close_session s outcome_of r) w in
  exists l, history w' = history w ++ l /\ Q (history w) l.
Proof.
  intros Ca Co Hacc Qb Qa Q0 Hbody.
  assert (Hevent : forall e, lifecycle e = true -> only C (publish_event s None e)).
  { intros e He. unfold publish_event. apply only_bind; [apply only_context|intros; apply only_publish; auto]. }
  assert (Hpre : only C (_ ← publish_event s None accepted; try_publish opened)).
  { apply only_bind; [by apply Hevent|intros; by apply only_try_publish]. }
  assert (Hclose : forall r, only C (close_session s outcome_of r)).
  { intros r. unfold close_session, publish_flow_closed. only_auto; by (apply only_try_publish || apply Hevent). }
  specialize (Hpre w). revert Hpre. unfold mbind at 1 2 3, flow_bind at 1 2 3.
  pose proof (follows_publish_event s None accepted w) as Hi0.
  destruct (publish_event s None accepted w) as [[[]|e] w0]; cycle 1.
  { intros (l & Hl & HF). exists l. split; [done|]. by apply Q0. }
  destruct Hi0 as (? & (Hc0 & Hu0 & _) & _).
  pose proof (follows_try_publish opened w0) as Hi1. destruct (try_publish opened w0) as [[[]|e] w1]; cycle 1.
  { intros (l & Hl & HF). exists l. split; [done|]. by apply Q0. }
  destruct Hi1 as (? & (Hc1 & Hu1 & _) & _).
  intros (l0 & Hl0 & HF0). unfold mbind, flow_bind, attempt.
  destruct (Hbody w1) as (l1 & Hl1 & HQ). { intros []; cbn; congruence. }
  destruct (body w1) as [r w2]. destruct (Hclose r w2) as (l2 & Hl2 & HF2).
  destruct (close_session s outcome_of r w2) as [r3 w3]. cbn in Hl0, Hl1, Hl2.
  exists (l0 ++ l1 ++ l2). rewrite Hl2, Hl1, Hl0, !app_assoc. split; [done|].
  rewrite <- app_assoc. apply Qb; [done|]. rewrite <- Hl0. by apply Qa.
Qed.
End Trail.

(** * Properties *)

Section Properties.
Context `{Environment, Sha256, Hex}.

(** The audit trail of a static session: whatever the network, the policy, hooks and
    inspection do, the first event recorded is the acceptance; the events in between
    open or close no flow; and when the session is over, exactly one closing event
    comes last, with the outcome that classifies the result the session returns.  Only
    an audit channel that fails closed cuts the trail short or replaces the result. *)
Theorem static_session_trail (client listener : socket_addr) (upstream : UpstreamEndpoint.t) (s : session_id)
    (limits : proxy_limits) (schedule : list branch) (w : world) :
  let '(r, w') := run_static_session client listener upstream s limits schedule w in
  exists l, history w' = history w ++ l /\
    trail (ConnectionAccepted (show_socket_addr client) (show_socket_addr listener))
      (fun e => lifecycle e = false) error_outcome r (audited l).
Proof.
  apply session_trail. unfold run_session_inner. cbv zeta.
  apply only_bind; [by apply only_authorize_and_resolve|intros addresses].
  apply only_bind; [by apply only_connect_any|intros a].
  apply only_bind; [by apply only_pure|intros i]. by apply only_relay.
Qed.

(** A static session reaches the network only as authorised: either it never
    connects or sends anything upstream, or the addresses it tries to connect to are,
    in order, ones that authorisation returned for this client and this configured
    upstream, no other connection is ever attempted, and nothing goes upstream before. *)
Theorem static_session_contacts (client listener : socket_addr) (upstream : UpstreamEndpoint.t) (s : session_id)
    (limits : proxy_limits) (schedule : list branch) (w : world) :
  let '(r, w') := run_static_session client listener upstream s limits schedule w in
  exists l, history w' = history w ++ l /\
    contacts (RequestedTargetFacts (sa_ip client) (UpstreamEndpoint.host upstream) (UpstreamEndpoint.port upstream) Tcp)
      (history w) l.
Proof.
  pose proof (session_contacts
    (RequestedTargetFacts (sa_ip client) (UpstreamEndpoint.host upstream) (UpstreamEndpoint.port upstream) Tcp)
    s None fail fail
    (fun _ => i ← inspector_new s None Tcp (body_prefix_bytes limits); relay (relay_limits_of limits) (Some i) schedule))
    as Hinner.
  apply (session_wrap client_side);
    [done|done|done|by intros; apply contacts_before|by intros; apply contacts_after|by left|].
  intros w1 _. edestruct (Hinner w1) as (l & Hl & Hc); [intros; apply only_fail|done|intros; apply only_fail|done| |].
  { intros a. apply only_bind; [by apply only_pure|intros i]. by apply only_relay. }
  exists l. split; [|done]. rewrite <- Hl. unfold run_session_inner, mbind, flow_bind, catch.
  destruct (authorize_and_resolve _ _ _ _) as [[?|?] ?]; [|done]. by destruct (connect_any _ _) as [[?|?] ?].
Qed.
End Properties.
