(* ===== verification/Socks.v ===== *)
(** The SOCKS5 listener's protocol and sessions (crates/freja-proxy/src/socks.rs,
    socks/protocol.rs, socks/session.rs): method negotiation, username and password
    authentication, the CONNECT request, replies, and the session around them.

    An exact read is answered once by the environment: when it succeeds it yields the
    wanted bytes, or fails at the end of the input.  After a failed read the session
    reads nothing more, so what a failure consumed is left open. *)
From stdpp Require Import gmap strings.
From stdpp Require Import prelude.
From S2P Require Import Prelude Bytes Net Endpoint Domain PolicyModel Acl Guard Inspection AuditModel AuditSink Hooks Runtime Destination FlowInspect Relay Settings TcpSession.

(** * Constants and replies *)

Definition SOCKS_VERSION : u8 := byte_of 5.
Definition AUTH_VERSION : u8 := byte_of 1.
Definition AUTH_NONE : u8 := byte_of 0.
Definition AUTH_USERNAME_PASSWORD : u8 := byte_of 2.
Definition AUTH_UNACCEPTABLE : u8 := byte_of 255.
Definition AUTH_SUCCESS : u8 := byte_of 0.
Definition AUTH_FAILURE : u8 := byte_of 1.
Definition SOCKS_COMMAND_CONNECT : u8 := byte_of 1.
Definition SOCKS_RESERVED : u8 := byte_of 0.
Definition ADDRESS_TYPE_IPV4 : u8 := byte_of 1.
Definition ADDRESS_TYPE_DOMAIN : u8 := byte_of 3.
Definition ADDRESS_TYPE_IPV6 : u8 := byte_of 4.

Inductive socks_reply : Type :=
| Succeeded | GeneralFailure | ConnectionNotAllowed | HostUnreachable | ConnectionRefused | TtlExpired
| CommandNotSupported | AddressTypeNotSupported.
Definition reply_code (r : socks_reply) : u8 :=
  byte_of
    match r with
    | Succeeded => 0 | GeneralFailure => 1 | ConnectionNotAllowed => 2 | HostUnreachable => 4
    | ConnectionRefused => 5 | TtlExpired => 6 | CommandNotSupported => 7 | AddressTypeNotSupported => 8
    end.

(** Octets and 16-bit groups, most significant first. *)
Definition u16_of (hi lo : u8) : N := (byte_val hi * 256 + byte_val lo)%N.
Definition u16_bytes (n : N) : bytes := [byte_of (n / 256); byte_of (n mod 256)].
Definition ip_octets (ip : ip_addr) : bytes :=
  match ip with V4 a b c d => [a; b; c; d] | V6 segments => concat (map u16_bytes segments) end.
Fixpoint pair_segments (l : bytes) : list N :=
  match l with hi :: lo :: l => u16_of hi lo :: pair_segments l | _ => [] end.
Definition byte_at (l : bytes) (i : nat) : u8 := default NUL (l !! i).

Definition constant_time_equal (left_ right_ : bytes) : bool :=
  if negb (lenN left_ =? lenN right_)%N then false
  else (foldl (fun difference '(l, r) => N.lor difference (N.lxor (byte_val l) (byte_val r))) 0
          (zip left_ right_) =? 0)%N.

Definition reply_for_proxy_error (e : proxy_error) : socks_reply :=
  match e with
  | ConnectTimedOut _ => TtlExpired
  | ConnectFailed _ => ConnectionRefused
  | Dns _ | DnsTimedOut _ | NoResolvedAddresses _ => HostUnreachable
  | _ => GeneralFailure
  end.

Section Socks.
Context `{Environment, Sha256, Hex}.

Definition read_exact (count : nat) (stage : bytes) : flow bytes := fun w =>
  if decide (count = 0) then (Ok [], w)
  else
    match read_answer (history w) ClientEnd with
    | ReadUpTo _ =>
        if decide (count <= length (client_input w))
        then (Ok (take count (client_input w)), with_input w ClientEnd (drop count (client_input w)))
        else (Err (Socks (SocksIo stage)), w)
    | ReadFailed => (Err (Socks (SocksIo stage)), w)
    | ReadTimedOut => (Err (Socks (SocksTimedOut stage)), w)
    end.
(** No shutdown interrupts these writes: that answer is read as a failure. *)
Definition write_all (b : bytes) (stage : bytes) : flow unit := fun w =>
  match write_answer (history w) ClientEnd b with
  | WriteDone => (Ok tt, log (Sent ClientEnd b) w)
  | WriteFailed k | WriteShutdown k => (Err (Socks (SocksIo stage)), log (Sent ClientEnd (take k b)) w)
  | WriteTimedOut k => (Err (Socks (SocksTimedOut stage)), log (Sent ClientEnd (take k b)) w)
  end.

Definition send_reply (status : socks_reply) (bound : option socket_addr) : flow unit :=
  let bound := default (SocketAddr (ipv4 0 0 0 0) 0 0) bound in
  let response := [SOCKS_VERSION; reply_code status; SOCKS_RESERVED] in
  let response :=
    match sa_ip bound with
    | V4 _ _ _ _ => response ++ [ADDRESS_TYPE_IPV4] ++ ip_octets (sa_ip bound) ++ u16_bytes (sa_port bound)
    | V6 _ => response ++ [ADDRESS_TYPE_IPV6] ++ ip_octets (sa_ip bound) ++ u16_bytes (sa_port bound)
    end in
  write_all response (bs "CONNECT reply").

Definition authenticate_username_password (expected : credential_hash) : flow bool :=
  header ← read_exact 2 (bs "authentication username");
  if negb (bool_decide (byte_at header 0 = AUTH_VERSION)) || bool_decide (byte_at header 1 = NUL) then mret false
  else
    credential ← read_exact (N.to_nat (byte_val (byte_at header 1))) (bs "authentication username");
    password_length ← read_exact 1 (bs "authentication password length");
    if bool_decide (byte_at password_length 0 = NUL) then mret false
    else
      password ← read_exact (N.to_nat (byte_val (byte_at password_length 0))) (bs "authentication password");
      let credential := credential ++ [COLON] ++ password in
      mret (constant_time_equal (sha256 credential) (credential_bytes expected)).

Definition negotiate_authentication (authentication : option credential_hash) (s : session_id) : flow unit :=
  greeting ← read_exact 2 (bs "greeting");
  if negb (bool_decide (byte_at greeting 0 = SOCKS_VERSION)) then fail (Socks UnsupportedVersion)
  else
    methods ← read_exact (N.to_nat (byte_val (byte_at greeting 1))) (bs "authentication methods");
    let desired := match authentication with Some _ => AUTH_USERNAME_PASSWORD | None => AUTH_NONE end in
    if negb (bool_decide (desired ∈ methods)) then
      _ ← write_all [SOCKS_VERSION; AUTH_UNACCEPTABLE] (bs "method rejection");
      fail (Socks NoAcceptableAuthentication)
    else
      _ ← write_all [SOCKS_VERSION; desired] (bs "method selection");
      match authentication with
      | None => mret tt
      | Some expected =>
          authenticated ← authenticate_username_password expected;
          _ ← publish_event s None (ProxyAuthentication_ (if (authenticated : bool) then Accepted else Rejected));
          _ ← write_all [AUTH_VERSION; if (authenticated : bool) then AUTH_SUCCESS else AUTH_FAILURE]
                (bs "authentication response");
          if negb authenticated then fail (Socks AuthenticationFailed) else mret tt
      end.

Definition read_host (address_type : u8) : flow target_host :=
  if bool_decide (address_type = ADDRESS_TYPE_IPV4) then
    octets ← read_exact 4 (bs "IPv4 address");
    mret (Ip (V4 (byte_at octets 0) (byte_at octets 1) (byte_at octets 2) (byte_at octets 3)))
  else if bool_decide (address_type = ADDRESS_TYPE_DOMAIN) then
    length_ ← read_exact 1 (bs "domain length");
    if bool_decide (byte_at length_ 0 = NUL) then fail (Socks MalformedRequest)
    else
      name ← read_exact (N.to_nat (byte_val (byte_at length_ 0))) (bs "domain");
      if utf8_valid name then lift (map_err (fun e => Socks (InvalidTarget e)) (TargetHost.parse name))
      else fail (Socks InvalidDomainEncoding)
  else if bool_decide (address_type = ADDRESS_TYPE_IPV6) then
    octets ← read_exact 16 (bs "IPv6 address");
    mret (Ip (V6 (pair_segments octets)))
  else
    _ ← send_reply AddressTypeNotSupported None;
    fail (Socks UnsupportedAddressType).
Definition read_request : flow (target_host * Port.t) :=
  header ← read_exact 4 (bs "request header");
  if negb (bool_decide (byte_at header 0 = SOCKS_VERSION)) || negb (bool_decide (byte_at header 2 = SOCKS_RESERVED))
  then fail (Socks MalformedRequest)
  else if negb (bool_decide (byte_at header 1 = SOCKS_COMMAND_CONNECT)) then
    _ ← send_reply CommandNotSupported None;
    fail (Socks UnsupportedCommand)
  else
    host ← read_host (byte_at header 3);
    port ← read_exact 2 (bs "destination port");
    port ← lift (map_err (fun e => Socks (InvalidTarget e)) (Port.new (u16_of (byte_at port 0) (byte_at port 1))));
    mret (host, port).

(** * Sessions *)

Record session_context : Type := SessionContext {
  context_peer : socket_addr;
  context_listener : socket_addr;
  authentication : option credential_hash;
  context_limits : proxy_limits }.
Definition socks_error_outcome (e : proxy_error) : flow_outcome :=
  match e with
  | PolicyDenied _ => OutPolicyDenied
  | DetourLoop _ => OutDetourLoop
  | Socks AuthenticationFailed => OutAuthenticationFailed
  | Socks _ => OutSocksProtocolError
  | ConnectTimedOut _ => OutConnectTimeout
  | ConnectFailed _ => OutConnectFailure
  | Dns _ | NoResolvedAddresses _ => OutDnsFailure
  | DnsTimedOut _ => OutDnsTimeout
  | ShutdownError => OutShutdown
  | _ => OutRuntimeFailure
  end.
Definition socks_request (c : session_context) (host : target_host) (port : Port.t) : requested_facts :=
  RequestedTargetFacts (sa_ip (context_peer c)) host port Tcp.
(** From the request on. *)
Definition connect_and_relay (c : session_context) (s : session_id) (requested : requested_facts)
    (schedule : list branch) : flow (option relay_result) :=
  addresses ← catch (authorize_and_resolve requested s None)
    (fun e => _ ← send_reply ConnectionNotAllowed None; fail e);
  _ ← catch (connect_any addresses)
    (fun e => _ ← send_reply (reply_for_proxy_error e) None; fail e);
  _ ← (fun w => send_reply Succeeded (local_addr (history w)) w);
  i ← inspector_new s None Tcp (body_prefix_bytes (context_limits c));
  relay (relay_limits_of (context_limits c)) (Some i) schedule.
Definition run_socks_session (c : session_context) (s : session_id) (schedule : list branch)
  : flow (option relay_result) :=
  _ ← negotiate_authentication (authentication c) s;
  '(host, port) ← read_request;
  _ ← publish_flow_opened s (show_socket_addr (context_peer c))
        (TargetHost.show host ++ [COLON] ++ Port.show port);
  connect_and_relay c s (socks_request c host port) schedule.
Definition serve_session (c : session_context) (s : session_id) (schedule : list branch) : flow (option unit) :=
  _ ← publish_event s None
        (ConnectionAccepted (show_socket_addr (context_peer c)) (show_socket_addr (context_listener c)));
  _ ← publish_flow_opened s (show_socket_addr (context_peer c)) (bs "socks5-handshake");
  r ← attempt (run_socks_session c s schedule);
  close_session s socks_error_outcome r.
End Socks.

(** * The wire format *)

Definition offers (methods : bytes) : bytes := SOCKS_VERSION :: byte_of (lenN methods) :: methods.
Definition credentials (user password : bytes) : bytes :=
  AUTH_VERSION :: byte_of (lenN user) :: user ++ byte_of (lenN password) :: password.
(** The address part of a request and the host it stands for. *)
Inductive encodes_host : bytes -> target_host -> Prop :=
| encodes_v4 a b c d : encodes_host [ADDRESS_TYPE_IPV4; a; b; c; d] (Ip (V4 a b c d))
| encodes_v6 octets : length octets = 16 ->
    encodes_host (ADDRESS_TYPE_IPV6 :: octets) (Ip (V6 (pair_segments octets)))
| encodes_name name host : name <> [] -> utf8_valid name = true -> TargetHost.parse name = Ok host ->
    encodes_host (ADDRESS_TYPE_DOMAIN :: byte_of (lenN name) :: name) host.
Definition encodes_request (b : bytes) (host : target_host) (port : Port.t) : Prop :=
  exists address hi lo, b = [SOCKS_VERSION; SOCKS_COMMAND_CONNECT; SOCKS_RESERVED] ++ address ++ [hi; lo] /\
    encodes_host address host /\ Port.new (u16_of hi lo) = Ok port.

Section Reading.
Context `{Environment, Sha256, Hex}.
Lemma flow_bind_Ok {A B} (m : flow A) (f : A -> flow B) w b w' :
  (m ≫= f) w = (Ok b, w') -> exists a w1, m w = (Ok a, w1) /\ f a w1 = (Ok b, w').
Proof. unfold mbind, flow_bind. destruct (m w) as [[a|e] w1]; [eauto|done]. Qed.
Lemma read_exact_Ok n stage w b w' : read_exact n stage w = (Ok b, w') ->
  client_input w = b ++ client_input w' /\ length b = n.
Proof.
  unfold read_exact. case_decide as Hn; [by intros [= <- <-]|].
  destruct (read_answer _ _); [|done|done]. case_decide as Hl; [|done]. intros [= <- <-]. cbn.
  rewrite take_drop, length_take. split; [done|lia].
Qed.
Lemma write_all_Ok b stage w u w' : write_all b stage w = (Ok u, w') -> client_input w' = client_input w.
Proof. unfold write_all. by destruct (write_answer _ _ _); intros [= _ <-]. Qed.
Lemma publish_event_input s t e w u w' : publish_event s t e w = (Ok u, w') -> client_input w' = client_input w.
Proof.
  intros Hp. pose proof (follows_publish_event s t e w) as Hf. rewrite Hp in Hf. by destruct Hf as (? & (? & _) & _).
Qed.
Lemma length_byte (b : bytes) (c : u8) : length b = N.to_nat (byte_val c) -> c = byte_of (lenN b).
Proof. intros Hl. unfold lenN. by rewrite Hl, N2Nat.id, byte_of_val. Qed.
Lemma byte_nonzero (b : bytes) (c : u8) : length b = N.to_nat (byte_val c) -> c <> NUL -> b <> [].
Proof. intros Hl Hc ->. apply Hc. rewrite (length_byte [] c Hl). done. Qed.

(** A successful read of a fixed number of bytes, as bytes. *)
Ltac read_bytes H :=
  let a := fresh "read" in let w := fresh "w" in let Hr := fresh "Hread" in
  apply flow_bind_Ok in H as (a & w & Hr & H); apply read_exact_Ok in Hr.
Lemma authenticate_Ok expected w w' : authenticate_username_password expected w = (Ok true, w') ->
  exists user password, client_input w = credentials user password ++ client_input w' /\
    user <> [] /\ password <> [] /\ constant_time_equal (sha256 (user ++ [COLON] ++ password)) (credential_bytes expected) = true.
Proof.
  intros Hrun. unfold authenticate_username_password in Hrun. read_bytes Hrun. destruct Hread as [Hin Hlen].
  destruct read as [|v [|n [|? ?]]]; try done. cbn [byte_at lookup list_lookup default from_option] in Hrun.
  destruct (negb _ || _) eqn:Hg; [done|]. apply orb_false_iff in Hg as [Hv Hn].
  apply negb_false_iff, bool_decide_eq_true in Hv. apply bool_decide_eq_false in Hn.
  read_bytes Hrun. destruct Hread as [Hin1 Hlen1]. read_bytes Hrun. destruct Hread as [Hin2 Hlen2].
  destruct read0 as [|m [|? ?]]; try done.
  destruct (bool_decide _) eqn:Hm; [done|]. apply bool_decide_eq_false in Hm.
  read_bytes Hrun. destruct Hread as [Hin3 Hlen3]. injection Hrun as Heq <-.
  exists read, read0. rewrite Hin, Hin1, Hin2, Hin3. unfold credentials.
  cbn in Hv, Hn, Hm, Hlen1, Hlen3. rewrite <- (length_byte _ _ Hlen1), <- (length_byte _ _ Hlen3), Hv.
  split; [cbn; by rewrite <- !app_assoc|]. split; [by eapply byte_nonzero|]. split; [by eapply byte_nonzero|done].
Qed.
(** The preamble a session with or without authentication has read. *)
Definition preamble (authentication : option credential_hash) (b : bytes) : Prop :=
  match authentication with
  | None => exists methods, AUTH_NONE ∈ methods /\ b = offers methods
  | Some expected => exists methods user password, AUTH_USERNAME_PASSWORD ∈ methods /\
      b = offers methods ++ credentials user password /\ user <> [] /\ password <> [] /\
      constant_time_equal (sha256 (user ++ [COLON] ++ password)) (credential_bytes expected) = true
  end.
Lemma negotiate_Ok authentication s w w' : negotiate_authentication authentication s w = (Ok tt, w') ->
  exists b, client_input w = b ++ client_input w' /\ preamble authentication b.
Proof.
  intros Hrun. unfold negotiate_authentication in Hrun. read_bytes Hrun. destruct Hread as [Hin Hlen].
  destruct read as [|v [|n [|? ?]]]; try done.
  destruct (negb _) eqn:Hv; [done|]. apply negb_false_iff, bool_decide_eq_true in Hv. cbn in Hv. subst v.
  read_bytes Hrun. destruct Hread as [Hin1 Hlen1]. cbn in Hlen1. apply length_byte in Hlen1. subst n.
  cbv zeta in Hrun. destruct (negb _) eqn:Hd.
  { apply flow_bind_Ok in Hrun as (? & ? & _ & Hrun). done. }
  apply negb_false_iff, bool_decide_eq_true in Hd.
  apply flow_bind_Ok in Hrun as (? & w3 & Hw & Hrun). apply write_all_Ok in Hw.
  rewrite Hin, Hin1. destruct authentication as [expected|]; cycle 1.
  { injection Hrun as <-. exists (offers read). rewrite Hw. split; [done|]. by exists read. }
  apply flow_bind_Ok in Hrun as ([|] & w4 & Ha & Hrun); cycle 1.
  { apply flow_bind_Ok in Hrun as (? & ? & _ & Hrun). apply flow_bind_Ok in Hrun as (? & ? & _ & Hrun). done. }
  apply authenticate_Ok in Ha as (user & password & Hin2 & Hu & Hp & Heq).
  apply flow_bind_Ok in Hrun as (? & w5 & Hpub & Hrun). apply publish_event_input in Hpub.
  apply flow_bind_Ok in Hrun as (? & w6 & Hw2 & Hrun). apply write_all_Ok in Hw2. injection Hrun as <-.
  exists (offers read ++ credentials user password). rewrite Hw2, Hpub, <- Hw, Hin2.
  split; [unfold offers; cbn [app]; by rewrite <- app_assoc|]. by exists read, user, password.
Qed.
Lemma read_host_Ok t host w w' : read_host t w = (Ok host, w') ->
  exists b, client_input w = b ++ client_input w' /\ encodes_host (t :: b) host.
Proof.
  intros Hrun. unfold read_host in Hrun.
  destruct (bool_decide (t = ADDRESS_TYPE_IPV4)) eqn:E4; [apply bool_decide_eq_true in E4 as ->|clear E4].
  { read_bytes Hrun. destruct Hread as [Hin Hlen]. injection Hrun as <- <-.
    destruct read as [|a [|b [|c [|d [|? ?]]]]]; try done. eexists. split; [exact Hin|]. constructor. }
  destruct (bool_decide (t = ADDRESS_TYPE_DOMAIN)) eqn:Ed; [apply bool_decide_eq_true in Ed as ->|clear Ed].
  { read_bytes Hrun. destruct Hread as [Hin Hlen]. destruct read as [|n [|? ?]]; try done.
    destruct (bool_decide _) eqn:Hn; [done|]. apply bool_decide_eq_false in Hn. cbn in Hn.
    read_bytes Hrun. destruct Hread as [Hin1 Hlen1]. cbn in Hlen1.
    destruct (utf8_valid read) eqn:Hu; [|done]. unfold lift in Hrun. apply pair_equal_spec in Hrun as [Hrun <-].
    destruct (TargetHost.parse read) as [h|] eqn:Hp; [|done]. injection Hrun as <-.
    exists (n :: read). rewrite Hin, Hin1. split; [done|]. pose proof (byte_nonzero _ _ Hlen1 Hn).
    apply length_byte in Hlen1 as ->. by constructor. }
  destruct (bool_decide (t = ADDRESS_TYPE_IPV6)) eqn:E6; [apply bool_decide_eq_true in E6 as ->|clear E6].
  { read_bytes Hrun. destruct Hread as [Hin Hlen]. injection Hrun as <- <-. exists read. split; [done|]. by constructor. }
  by apply flow_bind_Ok in Hrun as (? & ? & _ & Hrun).
Qed.
Lemma read_request_Ok host port w w' : read_request w = (Ok (host, port), w') ->
  exists b, client_input w = b ++ client_input w' /\ encodes_request b host port.
Proof.
  intros Hrun. unfold read_request in Hrun. read_bytes Hrun. destruct Hread as [Hin Hlen].
  destruct read as [|v [|c [|r [|t [|? ?]]]]]; try done.
  destruct (negb _ || negb _) eqn:Hg; [done|]. apply orb_false_iff in Hg as [Hv Hr].
  apply negb_false_iff, bool_decide_eq_true in Hv, Hr. cbn in Hv, Hr. subst v r.
  destruct (negb _) eqn:Hc; [by apply flow_bind_Ok in Hrun as (? & ? & _ & Hrun)|].
  apply negb_false_iff, bool_decide_eq_true in Hc. cbn in Hc. subst c.
  apply flow_bind_Ok in Hrun as (host' & w1 & Hh & Hrun). apply read_host_Ok in Hh as (b & Hin1 & Henc).
  read_bytes Hrun. destruct Hread as [Hin2 Hlen2]. destruct read as [|hi [|lo [|? ?]]]; try done.
  apply flow_bind_Ok in Hrun as (port' & w3 & Hp & Hrun). unfold lift in Hp. apply pair_equal_spec in Hp as [Hp ->].
  injection Hrun as -> -> ->. change (byte_at [hi; lo] 0) with hi in Hp. change (byte_at [hi; lo] 1) with lo in Hp.
  destruct (Port.new _) as [q|] eqn:Hq; [|done]. injection Hp as ->.
  exists ([SOCKS_VERSION; SOCKS_COMMAND_CONNECT; SOCKS_RESERVED] ++ (t :: b) ++ [hi; lo]).
  rewrite Hin, Hin1, Hin2. split; [cbn; by rewrite <- app_assoc|]. exists (t :: b), hi, lo. done.
Qed.
End Reading.

Lemma fold_differences acc (l : list (u8 * u8)) :
  foldl (fun difference '(l, r) => N.lor difference (N.lxor (byte_val l) (byte_val r))) acc l = 0%N <->
  acc = 0%N /\ Forall (fun p => p.1 = p.2) l.
Proof.
  revert acc; induction l as [|[x y] l IH]; intros acc; cbn; [naive_solver|].
  rewrite IH, N.lor_eq_0_iff, N.lxor_eq_0_iff, Forall_cons. cbn.
  split; [intros [[-> Hv] HF]; split; [done|]; split; [by apply byte_val_inj|done]|].
  by intros (-> & -> & HF).
Qed.
(** Comparing without early exit is comparing. *)
Lemma constant_time_equal_eq a b : constant_time_equal a b = true <-> a = b.
Proof.
  unfold constant_time_equal, lenN. destruct (N.eqb_spec (N.of_nat (length a)) (N.of_nat (length b))) as [Hl|Hl];
    cbn [negb]; cycle 1.
  { split; [done|]. by intros ->. }
  rewrite N.eqb_eq, fold_differences. split; [|intros ->; split; [done|]].
  - intros [_ HF]. assert (Hlen : length a = length b) by lia. clear Hl. revert b HF Hlen.
    induction a as [|x a IH]; intros [|y b] HF Hlen; try done. cbn in HF, Hlen.
    apply Forall_cons in HF as [Hxy HF]. cbn in Hxy. subst y. f_equal. apply IH; [done|lia].
  - clear Hl. induction b; cbn; constructor; done.
Qed.

(** * What the parts of a session can do *)

Section Parts.
Context `{Environment, Sha256, Hex} (P : step -> Prop).
Context (P_replied : forall b, P (Sent ClientEnd b)).
Lemma only_read_exact n stage : only P (read_exact n stage).
Proof.
  intros w. unfold read_exact. exists []. rewrite app_nil_r. split; [|done].
  case_decide; [done|]. destruct (read_answer _ _); [|done|done]. by case_decide.
Qed.
Lemma only_write_all b stage : only P (write_all b stage).
Proof.
  intros w. unfold write_all. destruct (write_answer _ _ _); eexists [_]; (split; [reflexivity|]); by constructor.
Qed.
#[local] Hint Resolve only_read_exact only_write_all : only.
Lemma only_send_reply status bound : only P (send_reply status bound).
Proof. unfold send_reply. auto with only. Qed.
#[local] Hint Resolve only_send_reply : only.
Lemma only_read_request : only P read_request.
Proof. unfold read_request, read_host. only_auto. Qed.
Lemma only_negotiate authentication s :
  (forall o answer c, P (Audited (AuditEnvelope c (ProxyAuthentication_ o)) answer)) ->
  only P (negotiate_authentication authentication s).
Proof.
  intros Ha. unfold negotiate_authentication, authenticate_username_password, publish_event. only_auto.
Qed.
Lemma only_give_up {A} status e : only P (_ ← send_reply status None; fail e : flow A).
Proof. only_auto. Qed.
End Parts.

Section Traces.
Context `{Environment, Sha256, Hex}.
Lemma give_up_fails {A} status e w : is_ok ((_ ← send_reply status None; fail e : flow A) w).1 = false.
Proof. unfold mbind, flow_bind. by destruct (send_reply status None w) as [[?|?] ?]. Qed.
Lemma catch_only (P : step -> Prop) {A} (m : flow A) h : only P m -> (forall e, only P (h e)) -> only P (catch m h).
Proof.
  intros Hm Hh w. unfold catch. destruct (Hm w) as (l & Hl & HF). destruct (m w) as [[a|e] w1]; [by exists l|].
  destruct (Hh e w1) as (l' & Hl' & HF'). exists (l ++ l'). cbn in Hl. rewrite Hl', Hl, app_assoc.
  split; [done|]. by apply Forall_app.
Qed.
Lemma connect_and_relay_contacts c s requested schedule w :
  exists l, history (connect_and_relay c s requested schedule w).2 = history w ++ l /\ contacts requested (history w) l.
Proof.
  apply session_contacts; try (intros; apply give_up_fails); try (intros; by apply only_give_up).
  intros a. apply only_bind; [intros w'; by apply only_send_reply|intros _].
  apply only_bind; [by apply only_pure|intros i]. by apply only_relay.
Qed.
(** What a session records between its opening and its closing. *)
Definition inside_socks (e : audit_event) : Prop := lifecycle e = false \/ exists o, e = ProxyAuthentication_ o.
Lemma only_socks_session (P : step -> Prop) c s schedule :
  (forall e answer, inside_socks (envelope_event e) -> P (Audited e answer)) -> (forall e, vouches e -> P (Observed e)) ->
  (forall host port, P (LookedUp host port)) -> (forall a, P (Connected a)) -> (forall p b, P (Sent p b)) -> (forall p, P (Closed p)) ->
  only P (run_socks_session c s schedule).
Proof.
  intros Pa Po Pl Pc Ps Px.
  assert (Hq : forall (e : audit_envelope) (answer : result publish_error ()), lifecycle (envelope_event e) = false -> P (Audited e answer)) by (intros; apply Pa; by left).
  unfold run_socks_session. apply only_bind; [apply only_negotiate; [done|]; intros; apply Pa; right; by eexists|intros _].
  apply only_bind; [by apply only_read_request|intros [host port]].
  apply only_bind; [by apply only_try_publish, Po|intros _]. unfold connect_and_relay.
  apply only_bind; [apply catch_only; [by apply only_authorize_and_resolve|intros; by apply only_give_up]|intros addresses].
  apply only_bind; [apply catch_only; [by apply only_connect_any|intros; by apply only_give_up]|intros a].
  apply only_bind; [intros w'; by apply only_send_reply|intros _].
  apply only_bind; [by apply only_pure|intros i]. by apply only_relay.
Qed.
Lemma only_run_socks c s schedule : only (audits inside_socks) (run_socks_session c s schedule).
Proof. by apply only_socks_session. Qed.
Lemma negotiate_accepts expected s w w' l :
  negotiate_authentication (Some expected) s w = (Ok tt, w') -> history w' = history w ++ l ->
  ProxyAuthentication_ Accepted ∈ audited l.
Proof.
  set (any := fun _ : step => True). assert (Hgrow : forall A (m : flow A) w a w', only any m -> m w = (a, w') ->
    exists l, history w' = history w ++ l).
  { intros A m w1 a w2 Hm Hrun. destruct (Hm w1) as (l' & Hl & _). rewrite Hrun in Hl. by exists l'. }
  intros Hrun Hl. unfold negotiate_authentication in Hrun.
  apply flow_bind_Ok in Hrun as (g & w1 & H1r & Hrun). apply Hgrow in H1r as [l1 E1]; [|by apply only_read_exact].
  destruct (negb _); [done|]. apply flow_bind_Ok in Hrun as (ms & w2 & H2r & Hrun).
  apply Hgrow in H2r as [l2 E2]; [|by apply only_read_exact]. cbv zeta in Hrun.
  destruct (negb _); [by apply flow_bind_Ok in Hrun as (? & ? & _ & Hrun)|].
  apply flow_bind_Ok in Hrun as (? & w3 & H3r & Hrun). apply Hgrow in H3r as [l3 E3]; [|by apply only_write_all].
  apply flow_bind_Ok in Hrun as (ok & w4 & H4r & Hrun).
  apply Hgrow in H4r as [l4 E4]; [|unfold authenticate_username_password; only_auto; by apply only_read_exact].
  apply flow_bind_Ok in Hrun as (? & w5 & H5r & Hrun).
  pose proof (follows_publish_event s None (ProxyAuthentication_ (if ok then Accepted else Rejected)) w4) as Hf.
  rewrite H5r in Hf. destruct Hf as (? & (_ & _ & l5 & E5 & Ha & _) & [[_ ->]|(_ & [? ?] & _)]); [|done].
  apply flow_bind_Ok in Hrun as (? & w6 & H6r & Hrun). apply Hgrow in H6r as [l6 E6]; [|by apply only_write_all].
  destruct ok; [|done]. injection Hrun as <-. rewrite E6, E5, E4, E3, E2, E1, <- !app_assoc in Hl.
  apply app_inv_head in Hl as <-. rewrite !audited_app, Ha. set_solver.
Qed.

(** Steps of a client nobody has vouched for: answers to it, and the events that open
    and close its flow or judge its credentials. *)
Definition anonymous (s : step) : Prop :=
  match s with
  | Audited e _ => lifecycle (envelope_event e) = true
  | Observed _ | Sent ClientEnd _ => True
  | _ => False
  end.
(** The steps [l] stay anonymous, or go further after credentials were read from the
    [input] and accepted. *)
Definition gated (expected : credential_hash) (input : bytes) (l : list step) : Prop :=
  Forall anonymous l \/
  exists l1 l2 methods user password rest,
    l = l1 ++ l2 /\ Forall anonymous l1 /\ ProxyAuthentication_ Accepted ∈ audited l1 /\
    input = offers methods ++ credentials user password ++ rest /\
    AUTH_USERNAME_PASSWORD ∈ methods /\ user <> [] /\ password <> [] /\
    sha256 (user ++ [COLON] ++ password) = credential_bytes expected.
End Traces.

(** * Properties *)

Section Properties.
Context `{Environment, Sha256, Hex}.

(** The audit trail of a SOCKS5 session: its first event is the acceptance, in between
    it records only authentication outcomes and the decisions and observations of the
    flow, and when it is over exactly one closing event comes last, with the outcome that
    classifies the result; only an audit channel that fails closed interferes. *)
Theorem socks_session_trail (c : session_context) (s : session_id) (schedule : list branch) (w : world) :
  let '(r, w') := serve_session c s schedule w in
  exists l, history w' = history w ++ l /\
    trail (ConnectionAccepted (show_socket_addr (context_peer c)) (show_socket_addr (context_listener c)))
      inside_socks socks_error_outcome r (audited l).
Proof. apply session_trail. apply only_run_socks. Qed.

(** C5. The authentication gate of SOCKS5: on a listener that requires credentials, all a
    session does before the credentials are accepted is to answer the client and record
    the opening, the verdict and the closing of the flow (no policy decision, lookup,
    connection or byte upstream); and it goes further only after recording acceptance,
    having read from the client a greeting that offers username and password, and a
    username and password whose digest is the configured one. *)
Theorem socks_authentication_gate (client listener : socket_addr) (expected : credential_hash)
    (limits : proxy_limits) (s : session_id) (schedule : list branch) (w : world) :
  let '(r, w') := serve_session (SessionContext client listener (Some expected) limits) s schedule w in
  exists l, history w' = history w ++ l /\
    gated expected (client_input w) l.
Proof.
  apply (session_wrap anonymous (fun _ => gated expected (client_input w))); try done.
  - intros before l l' HF [?|(l1 & l2 & m & u & p & rest & -> & HF1 & Ha & Hr)]; [left; by apply Forall_app|right].
    exists (l ++ l1), l2, m, u, p, rest. rewrite app_assoc, audited_app. split; [done|].
    split; [by apply Forall_app|]. split; [set_solver|done].
  - intros before l l' [?|(l1 & l2 & m & u & p & rest & -> & HF1 & Ha & Hr)] HF; [left; by apply Forall_app|right].
    exists l1, (l2 ++ l'), m, u, p, rest. by rewrite app_assoc.
  - by left.
  - intros w1 Hsame. unfold run_socks_session, mbind at 1, flow_bind at 1. cbn [authentication].
    destruct (only_negotiate anonymous ltac:(done) (Some expected) s ltac:(done) w1) as (l1 & Hl1 & HF1).
    pose proof (negotiate_Ok (Some expected) s w1) as Hok. pose proof (negotiate_accepts expected s w1) as Hacc.
    destruct (negotiate_authentication (Some expected) s w1) as [[[]|e] w2]; cycle 1.
    { exists l1. split; [done|]. by left. }
    cbn in Hl1. destruct (Hok w2 eq_refl) as (b & Hin & m & u & p & Hm & -> & Hu & Hp & Heq).
    specialize (Hacc w2 l1 eq_refl Hl1). apply constant_time_equal_eq in Heq.
    match goal with |- context [history (?m w2).2] => assert (Hgrow : only (fun _ => True) m) end.
    { apply only_bind; [by apply only_read_request|intros [host port]].
      apply only_bind; [by apply only_try_publish|intros _]. intros w3.
      destruct (connect_and_relay_contacts (SessionContext client listener (Some expected) limits) s
        (socks_request (SessionContext client listener (Some expected) limits) host port) schedule w3) as (l & Hl & _).
      exists l. split; [done|]. by apply Forall_true. }
    destruct (Hgrow w2) as (l2 & Hl2 & _). exists (l1 ++ l2). rewrite Hl2, Hl1, app_assoc. split; [done|]. right.
    specialize (Hsame true). change (client_input w1 = client_input w) in Hsame.
    exists l1, l2, m, u, p, (client_input w2). rewrite <- Hsame, Hin, <- app_assoc. done.
Qed.

Lemma socks_session_reaches (c : session_context) (s : session_id) (schedule : list branch) (w : world) :
  let '(r, w') := serve_session c s schedule w in
  exists l, history w' = history w ++ l /\
    (Forall client_side l \/
     exists pre request rest host port,
       client_input w = pre ++ request ++ rest /\ preamble (authentication c) pre /\
       encodes_request request host port /\ contacts (socks_request c host port) (history w) l).
Proof.
  apply (session_wrap client_side (fun before l => Forall client_side l \/
     exists pre request rest host port,
       client_input w = pre ++ request ++ rest /\ preamble (authentication c) pre /\
       encodes_request request host port /\ contacts (socks_request c host port) before l)); try done.
  - intros before l l' HF [?|(p & q & rest & h & n & Hin & Hp & Hq & Hc)]; [left; by apply Forall_app|right].
    exists p, q, rest, h, n. split; [done|]. split; [done|]. split; [done|]. by apply contacts_before.
  - intros before l l' [?|(p & q & rest & h & n & Hin & Hp & Hq & Hc)] HF; [left; by apply Forall_app|right].
    exists p, q, rest, h, n. split; [done|]. split; [done|]. split; [done|]. by apply contacts_after.
  - by left.
  - intros w1 Hsame. specialize (Hsame true). change (client_input w1 = client_input w) in Hsame.
    unfold run_socks_session, mbind at 1, flow_bind at 1.
    destruct (only_negotiate client_side ltac:(done) (authentication c) s ltac:(done) w1) as (l1 & Hl1 & HF1).
    pose proof (negotiate_Ok (authentication c) s w1) as Hpre.
    destruct (negotiate_authentication (authentication c) s w1) as [[[]|e] w2]; [|by exists l1; auto].
    cbn in Hl1. destruct (Hpre w2 eq_refl) as (pre & Hin1 & Hp). unfold mbind at 1, flow_bind at 1.
    destruct (only_read_request client_side ltac:(done) w2) as (l2 & Hl2 & HF2).
    pose proof (fun host port => read_request_Ok host port w2) as Hreq.
    destruct (read_request w2) as [[[host port]|e] w3]; cbn in Hl2; cycle 1.
    { exists (l1 ++ l2). cbn [snd]. rewrite Hl2, Hl1, app_assoc. split; [done|]. left. by apply Forall_app. }
    destruct (Hreq host port w3 eq_refl) as (request & Hin2 & Henc). unfold mbind at 1, flow_bind at 1.
    destruct (only_try_publish client_side (UiFlowOpened s (show_socket_addr (context_peer c))
      (TargetHost.show host ++ [COLON] ++ Port.show port)) ltac:(done) w3) as (l3 & Hl3 & HF3).
    unfold publish_flow_opened, try_publish in *. cbn [snd] in Hl3.
    match goal with |- context [connect_and_relay c s _ schedule ?w4] => set (w4' := w4) in * end.
    destruct (connect_and_relay_contacts c s (socks_request c host port) schedule w4') as (l4 & Hl4 & Hc).
    exists ((l1 ++ l2 ++ l3) ++ l4). rewrite Hl4, Hl3, Hl2, Hl1, <- !app_assoc. split; [done|]. right.
    exists pre, request, (client_input w3), host, port. rewrite <- Hsame, Hin1, Hin2.
    split; [done|]. split; [done|]. split; [done|]. rewrite (app_assoc l2), (app_assoc l1).
    apply contacts_before; [by rewrite !Forall_app|]. by rewrite !app_assoc, <- Hl1, <- Hl2, <- Hl3.
Qed.
(** C6. A SOCKS5 session reaches the network only for what its client asked for and was
    granted: either it leaves the upstream side alone, or it has read from the client an
    acceptable preamble and the wire form of a CONNECT request for some host and port,
    and it connects only to addresses that one authorisation of that host and port on
    behalf of this client returned, in order, before anything goes upstream: the
    addresses of that host, or of the one detour the policy decides for it under
    enforcement, as they resolved then, with that target's port; under enforcement the
    guard and the policy of one snapshot passed each of them. *)
Theorem socks_session_contacts (c : session_context) (s : session_id) (schedule : list branch) (w : world) :
  let '(r, w') := serve_session c s schedule w in
  exists l, history w' = history w ++ l /\
    (Forall client_side l \/
     exists pre request rest host port,
       client_input w = pre ++ request ++ rest /\ preamble (authentication c) pre /\
       encodes_request request host port /\ contacts (socks_request c host port) (history w) l).
Proof. apply socks_session_reaches. Qed.
End Properties.

(** * Round trip of requests, and replies *)

Definition encode_host (host : target_host) : bytes :=
  match host with
  | Ip (V4 a b c d) => [ADDRESS_TYPE_IPV4; a; b; c; d]
  | Ip (V6 segments) => ADDRESS_TYPE_IPV6 :: ip_octets (V6 segments)
  | Name name => ADDRESS_TYPE_DOMAIN :: byte_of (lenN (HostName.as_str name)) :: HostName.as_str name
  end.
Definition encode_request (host : target_host) (port : Port.t) : bytes :=
  [SOCKS_VERSION; SOCKS_COMMAND_CONNECT; SOCKS_RESERVED] ++ encode_host host ++ u16_bytes (Port.get port).
Definition encodable (host : target_host) : Prop :=
  match host with
  | Ip ip => ip_wf ip
  | Name name => host_name_wf name /\ parse_ip (HostName.as_str name) = None
  end.
Lemma u16_roundtrip n : (n <= u16_max)%N -> exists hi lo, u16_bytes n = [hi; lo] /\ u16_of hi lo = n.
Proof.
  unfold u16_max. intros Hn. eexists _, _. split; [done|]. unfold u16_of.
  rewrite !byte_val_of by (try apply N.Div0.div_lt_upper_bound; try apply N.mod_lt; lia).
  rewrite N.mul_comm. symmetry. apply N.div_mod. lia.
Qed.
Lemma pair_segments_octets segments : Forall (fun g => g <= u16_max)%N segments ->
  pair_segments (concat (map u16_bytes segments)) = segments /\
  length (concat (map u16_bytes segments)) = 2 * length segments.
Proof.
  induction 1 as [|g segments Hg HF [IH IHl]]; [done|]. destruct (u16_roundtrip g Hg) as (hi & lo & E & Ev).
  cbn [map concat]. rewrite E. cbn. rewrite IH, Ev, IHl. split; [done|lia].
Qed.

Section RoundTrip.
Context `{Environment, Sha256, Hex}.
Context (reads_succeed : forall l p, exists k, read_answer l p = ReadUpTo k).
Lemma read_exact_app b rest n stage w : b <> [] -> n = length b -> client_input w = b ++ rest ->
  read_exact n stage w = (Ok b, with_input w ClientEnd rest).
Proof.
  intros Hb -> Hin. unfold read_exact. rewrite decide_False by (by destruct b).
  destruct (reads_succeed (history w) ClientEnd) as [k ->].
  rewrite decide_True by (rewrite Hin, length_app; lia). by rewrite Hin, take_app_length, drop_app_length.
Qed.
(** Read a known prefix of the input. *)
Lemma bind_read {A} b rest n stage (f : bytes -> flow A) w : b <> [] -> n = length b -> client_input w = b ++ rest ->
  (read_exact n stage ≫= f) w = f b (with_input w ClientEnd rest).
Proof. intros Hb Hn Hin. unfold mbind, flow_bind. by rewrite (read_exact_app b rest). Qed.
Lemma name_bytes_ascii name : host_name_wf name -> utf8_valid (HostName.as_str name) = true.
Proof.
  intros [Hv _]. apply utf8_ascii, Forall_forall. intros b Hb.
  destruct (valid_name_bytes _ b Hv Hb) as [->|[Ha| ->]]; [done| |done].
  unfold is_alnum, is_digit, is_upper, is_lower, byte_in in Ha.
  rewrite !orb_true_iff, !andb_true_iff, !N.leb_le in Ha. lia.
Qed.
Lemma read_host_roundtrip host rest w : encodable host -> client_input w = drop 1 (encode_host host) ++ rest ->
  read_host (byte_at (encode_host host) 0) w = (Ok host, with_input w ClientEnd rest).
Proof.
  destruct host as [[a b c d|segments]|name]; intros Hok Hin.
  - unfold read_host. rewrite bool_decide_eq_true_2 by done. by rewrite (bind_read [a; b; c; d] rest).
  - destruct Hok as [Hlen HF]. apply pair_segments_octets in HF as [Hp Hl]. unfold read_host.
    rewrite bool_decide_eq_false_2, bool_decide_eq_false_2, bool_decide_eq_true_2 by done.
    rewrite (bind_read (ip_octets (V6 segments)) rest); [|by intros E; cbn in E; rewrite E in Hl; cbn in Hl; lia|
      cbn [ip_octets]; lia|done]. cbn [ip_octets]. by rewrite Hp.
  - destruct Hok as [Hwf Hip]. pose proof Hwf as [(Hne & Hmax & _) _]. unfold read_host.
    rewrite bool_decide_eq_false_2, bool_decide_eq_true_2 by done.
    set (text := HostName.as_str name) in *. set (n := byte_of (lenN text)).
    assert (Hn : byte_val n = lenN text) by (apply byte_val_of; unfold lenN; lia).
    rewrite (bind_read [n] (text ++ rest)) by done. change (byte_at [n] 0) with n.
    rewrite bool_decide_eq_false_2; cycle 1.
    { intros E. rewrite E in Hn. change (byte_val NUL) with 0%N in Hn. unfold lenN in Hn.
      destruct text; [done|]. cbn in Hn. lia. }
    rewrite (bind_read text rest); [|done|rewrite Hn; unfold lenN; lia|done].
    unfold text. rewrite name_bytes_ascii by done. unfold lift. by rewrite target_host_parse_name.
Qed.
End RoundTrip.

Section Replies.
Context `{Environment, Sha256, Hex}.

(** Requests round-trip: for a client whose reads succeed, the wire form of a CONNECT
    request for any IPv4 or IPv6 address, or any valid host name that is not the text of
    an address, and any port, is read back as that host and port, and exactly the bytes
    of the request are consumed. *)
Theorem socks_request_roundtrip (host : target_host) (port : Port.t) (rest : bytes) (w : world) :
  (forall l p, exists k, read_answer l p = ReadUpTo k) -> encodable host -> Port.wf port ->
  client_input w = encode_request host port ++ rest ->
  read_request w = (Ok (host, port), with_input w ClientEnd rest).
Proof.
  intros Hreads Hhost Hport Hin. destruct (u16_roundtrip (Port.get port)) as (hi & lo & Eport & Hvalue).
  { by destruct Hport. }
  assert (Hhead : exists t, encode_host host = t :: drop 1 (encode_host host)) by (destruct host as [[]|]; by eexists).
  destruct Hhead as [t Ht]. unfold read_request.
  rewrite (bind_read Hreads [SOCKS_VERSION; SOCKS_COMMAND_CONNECT; SOCKS_RESERVED; t]
    (drop 1 (encode_host host) ++ [hi; lo] ++ rest)) by
    (done || (unfold encode_request in Hin; rewrite Ht, Eport, <- !app_assoc in Hin; exact Hin)).
  change (byte_at [SOCKS_VERSION; SOCKS_COMMAND_CONNECT; SOCKS_RESERVED; t] 3) with t.
  replace t with (byte_at (encode_host host) 0) by (by rewrite Ht).
  do 3 (rewrite bool_decide_eq_true_2 by done). cbn [negb orb].
  unfold mbind at 1, flow_bind at 1. rewrite (read_host_roundtrip Hreads host ([hi; lo] ++ rest)) by done.
  rewrite (bind_read Hreads [hi; lo] rest) by done.
  change (byte_at [hi; lo] 0) with hi. change (byte_at [hi; lo] 1) with lo. rewrite Hvalue.
  unfold mbind, flow_bind, lift. by rewrite (port_new_get port Hport).
Qed.

(** A reply, by its code and the address it reports. *)
Definition reply_of (code : N) (bound : socket_addr) : bytes :=
  map byte_of [5; code; 0]%N ++ encode_host (Ip (sa_ip bound)) ++ u16_bytes (sa_port bound).
Definition refusal_reply (code : N) : bytes := reply_of code (SocketAddr (ipv4 0 0 0 0) 0 0).
(** Steps that reach neither peer. *)
Definition silent (st : step) : Prop :=
  match st with Audited _ _ | Observed _ | LookedUp _ _ => True | _ => False end.
(** After [before], the addresses [tried] failed in turn; the attempt on [a] follows, and
    its answer is the last one of the request. *)
Definition last_attempt (before : list step) (addresses tried : list socket_addr) (a : socket_addr) : Prop :=
  tried ++ [a] `prefix_of` addresses /\ attempts_fail before tried /\
  match connect (before ++ map Connected tried) a with
  | ConnectError | ConnectTimeout => tried ++ [a] = addresses
  | _ => True
  end.
(** What the answer of the last attempt makes of the session: its result, and what is
    sent to the client next. *)
Definition answered_by (answer : connect_outcome) (a : socket_addr) (before after : list step)
    (r : result proxy_error (option relay_result)) : Prop :=
  match answer with
  | ConnectOk =>
      exists rest, after = before ++ Sent ClientEnd
        (reply_of 0 (default (SocketAddr (ipv4 0 0 0 0) 0 0) (local_addr before))) :: rest
  | ConnectError => r = Err (ConnectFailed a) /\ after = before ++ [Sent ClientEnd (refusal_reply 5)]
  | ConnectTimeout => r = Err (ConnectTimedOut a) /\ after = before ++ [Sent ClientEnd (refusal_reply 6)]
  | ConnectShutdown => r = Err ShutdownError /\ after = before ++ [Sent ClientEnd (refusal_reply 1)]
  end.
Lemma connect_loop_last addresses last_error w : addresses <> [] ->
  exists tried a, last_attempt (history w) addresses tried a /\
    history (connect_loop addresses last_error w).2 = history w ++ map Connected (tried ++ [a]) /\
    (connect_loop addresses last_error w).1 =
      match connect (history w ++ map Connected tried) a with
      | ConnectOk => Ok a | ConnectError => Err (ConnectFailed a)
      | ConnectTimeout => Err (ConnectTimedOut a) | ConnectShutdown => Err ShutdownError
      end.
Proof.
  revert last_error w; induction addresses as [|a [|b addresses] IH]; intros last_error w Hne; [done| |].
  - exists [], a. unfold last_attempt. cbn [connect_loop map app attempts_fail]. rewrite app_nil_r.
    destruct (connect (history w) a); repeat split; done.
  - destruct (connect (history w) a) eqn:Hc; try (exists [], a; unfold last_attempt;
      cbn [connect_loop map app attempts_fail]; rewrite app_nil_r, Hc; repeat split; [by apply prefix_cons, prefix_nil]).
    all: set (w1 := log (Connected a) w);
      edestruct (fun e => IH (Some e) w1) as (tried & x & (Hpre & Hfail & Hlast) & Hh & Hr); [done|];
      change (history w1) with (history w ++ [Connected a]) in *; rewrite <- app_assoc in *; cbn [app] in *;
      exists (a :: tried), x; unfold last_attempt; cbn [map app attempts_fail].
    all: change (connect_loop (a :: b :: addresses) last_error w) with
      (match connect (history w) a with
       | ConnectOk => (Ok a, w1)
       | ConnectError => connect_loop (b :: addresses) (Some (ConnectFailed a)) w1
       | ConnectTimeout => connect_loop (b :: addresses) (Some (ConnectTimedOut a)) w1
       | ConnectShutdown => (Err ShutdownError, w1)
       end); rewrite Hc.
    all: split; [split; [by apply prefix_cons|]; split; [split; [auto|exact Hfail]|]|split; [exact Hh|exact Hr]].
    all: by destruct (connect (history w ++ Connected a :: map Connected tried) x); rewrite ?Hlast.
Qed.

(** C38. What a client is told of its request, when replies can be written.  Whatever the
    policy, the resolver and the network do, nothing reaches either peer before the
    request is authorised.  Any failure of that, a failed lookup like a policy refusal,
    is answered with reply code 2 (connection not allowed by ruleset).  Otherwise the
    answer of the last address tried decides: code 0 with the local address once one
    accepts, 5 when the last one refuses, 6 when it times out, 1 at shutdown.  A
    failure is answered with that one reply and nothing else, so the code for an
    unreachable host, which the mapping of errors has for lookups, is never sent. *)
Theorem socks_failure_replies (c : session_context) (s : session_id) (requested : requested_facts)
    (schedule : list branch) (w w' : world) (r : result proxy_error (option relay_result)) :
  (forall l p b, write_answer l p b = WriteDone) ->
  connect_and_relay c s requested schedule w = (r, w') ->
  exists quiet, Forall silent quiet /\
    ((exists e, (authorize_and_resolve requested s None w).1 = Err e /\ r = Err e /\
        history w' = history w ++ quiet ++ [Sent ClientEnd (refusal_reply 2)]) \/
     exists addresses tried a,
       authorized (history w) (history w ++ quiet) requested addresses /\
       last_attempt (history w ++ quiet) addresses tried a /\
       answered_by (connect (history w ++ quiet ++ map Connected tried) a) a
         (history w ++ quiet ++ map Connected (tried ++ [a])) (history w') r).
Proof.
  intros Hw Hrun. pose proof (authorize_and_resolve_spec requested s None w) as Hspec.
  pose proof (authorize_and_resolve_authorized requested s None w) as Hauth.
  assert (Hreply : forall status bound w0, send_reply status bound w0
    = (Ok tt, log (Sent ClientEnd (reply_of (byte_val (reply_code status)) (default (SocketAddr (ipv4 0 0 0 0) 0 0) bound))) w0)).
  { intros status bound w0. unfold send_reply, write_all. rewrite Hw. unfold reply_of.
    destruct (default _ bound) as [[? ? ? ?|?] ? ?]; by destruct status. }
  unfold connect_and_relay, mbind at 1, flow_bind at 1, catch at 1 in Hrun.
  destruct (authorize_and_resolve requested s None w) as [r1 w1]. destruct Hspec as (l & Hl & Hben).
  assert (Hq : Forall silent l).
  { apply Forall_forall. intros p Hp. apply (authorization_benign _ _ _ _ Hben) in Hp as [Hp|(h & n & ->)]; [|done].
    by destruct p. }
  exists l. split; [done|]. destruct r1 as [addresses|e]; cycle 1.
  { left. exists e. split; [done|]. unfold mbind, flow_bind in Hrun. rewrite Hreply in Hrun.
    injection Hrun as <- <-. cbn. by rewrite Hl, <- app_assoc. }
  right. specialize (Hauth w1 addresses eq_refl). rewrite Hl in Hauth.
  assert (Hne : addresses <> []) by (by destruct Hauth as (? & ? & ? & _ & _ & _ & _ & (? & _) & _)).
  destruct (connect_loop_last addresses None w1 Hne) as (tried & a & Hlast & Hh & Hr).
  rewrite Hl in Hlast, Hh, Hr. rewrite <- app_assoc in Hh, Hr. exists addresses, tried, a. split; [done|]. split; [done|].
  unfold mbind at 1, flow_bind at 1, catch, connect_any in Hrun.
  destruct (connect_loop addresses None w1) as [r2 w2]. cbn [fst snd] in Hh, Hr. subst r2. rewrite <- Hh.
  destruct (connect _ a); cbn [answered_by];
    try (unfold mbind, flow_bind in Hrun; rewrite Hreply in Hrun; by injection Hrun as <- <-).
  unfold mbind at 1, flow_bind at 1 in Hrun. rewrite Hreply in Hrun. change (byte_val (reply_code Succeeded)) with 0%N in Hrun.
  set (w3 := log _ w2) in Hrun.
  assert (Hgrow : only (fun _ => True) (i ← inspector_new s None Tcp (body_prefix_bytes (context_limits c));
      relay (relay_limits_of (context_limits c)) (Some i) schedule)).
  { apply only_bind; [by apply only_pure|intros i]. by apply only_relay. }
  destruct (Hgrow w3) as (rest & Hrest & _). rewrite Hrun in Hrest. exists rest. cbn [snd] in Hrest. rewrite Hrest.
  cbn. by rewrite <- app_assoc.
Qed.
End Replies.

(** * Witnesses *)

Module Example_socks.
#[local] Existing Instance host_nets.
#[local] Existing Instance Example_headers.gmap_headers.
#[local] Existing Instance identity_digest.
#[local] Instance plain_hex : Hex := {| hex_encode := fun b => b; hex_decode := Some |}.
(** No name resolves, no address answers. *)
#[local] Instance unreachable : Environment := {|
  audit_policy := FailClosed; audit_answer := fun _ _ => Ok tt; events_enabled := false;
  current_snapshot := fun _ => Example_flow.snapshot; hook_runner := fun _ => HookRunner.Make Disabled (HookRunner.Registry [] [] [] [] [] []) HookFailClosed;
  capture_prefix_bytes := None; ui_content_bytes := None; now := fun l => N.of_nat (length l);
  lookup_host := fun _ _ _ => LookupFailed; connect := fun _ _ => ConnectError; local_addr := fun _ => None;
  read_answer := fun _ _ => ReadUpTo 0; write_answer := fun _ _ _ => WriteDone; shutdown_answer := fun _ _ => true |}.
Definition host : target_host := Name (HostName.Make (bs "a.example")).
Definition port : Port.t := Port.Make 443.
Definition client (input : bytes) : world := World [] (MetricCounters 0 0 0 0 0 0 0 0 0 0) input [].
Definition limits : proxy_limits := ProxyLimits 8 1024 1024 5 5 60.
Definition context : session_context :=
  SessionContext (SocketAddr (ipv4 198 51 100 1) 4000 0) (SocketAddr (ipv4 127 0 0 1) 1080 0)
    (Some (ProxyCredentialHash (bs "user:pass"))) limits.

Lemma socks_request_roundtrip_witness :
  read_request (client (encode_request host port ++ bs "hello")) = (Ok (host, port), client (bs "hello")).
Proof.
  apply (socks_request_roundtrip host port (bs "hello") (client (encode_request host port ++ bs "hello"))).
  - intros l p. by exists 0.
  - split; [|vm_compute; reflexivity]. apply (host_name_new_wf (bs "a.example")). vm_compute. reflexivity.
  - split; vm_compute; discriminate.
  - reflexivity.
Defined.
Definition by_name : requested_facts := socks_request context host port.
Definition by_address : requested_facts := socks_request context (Ip Example_flow.public) port.
(** What the client of a request for [requested] is told, with the result. *)
Definition told (requested : requested_facts) : Prop :=
  let r := (connect_and_relay context 1%N requested [] (client [])).1 in
  let w' := (connect_and_relay context 1%N requested [] (client [])).2 in
  exists quiet, Forall silent quiet /\
    ((exists e, (authorize_and_resolve requested 1%N None (client [])).1 = Err e /\ r = Err e /\
        history w' = quiet ++ [Sent ClientEnd (refusal_reply 2)]) \/
     exists addresses tried a,
       authorized [] quiet requested addresses /\ last_attempt quiet addresses tried a /\
       answered_by (connect (quiet ++ map Connected tried) a) a (quiet ++ map Connected (tried ++ [a])) (history w') r).
Lemma socks_failure_replies_witness :
  told by_name /\ told by_address /\
  (connect_and_relay context 1%N by_name [] (client [])).1 = Err (Dns (bs "a.example")) /\
  last (history (connect_and_relay context 1%N by_name [] (client [])).2) = Some (Sent ClientEnd (refusal_reply 2)) /\
  last (history (connect_and_relay context 1%N by_address [] (client [])).2) = Some (Sent ClientEnd (refusal_reply 5)).
Proof.
  split; [|split; [|split; [|split]]].
  - apply (socks_failure_replies context 1%N by_name [] (client [])
      (connect_and_relay context 1%N by_name [] (client [])).2 (connect_and_relay context 1%N by_name [] (client [])).1).
    + reflexivity.
    + apply surjective_pairing.
  - apply (socks_failure_replies context 1%N by_address [] (client [])
      (connect_and_relay context 1%N by_address [] (client [])).2 (connect_and_relay context 1%N by_address [] (client [])).1).
    + reflexivity.
    + apply surjective_pairing.
  - vm_compute. reflexivity.
  - vm_compute. reflexivity.
  - vm_compute. reflexivity.
Defined.
(** A complete session that authenticates, and one whose password is wrong. *)
Definition session (password : bytes) : result proxy_error (option unit) * world :=
  serve_session context 1%N [] (client (offers [AUTH_USERNAME_PASSWORD] ++ credentials (bs "user") password
    ++ encode_request (Ip Example_flow.public) port)).
Example session_runs :
  (session (bs "pass")).1 = Err (ConnectFailed (SocketAddr Example_flow.public 443 0)) /\
  (session (bs "nope")).1 = Err (Socks AuthenticationFailed) /\
  last (audited (history (session (bs "nope")).2)) = Some (FlowClosed 0 0 OutAuthenticationFailed).
Proof. vm_compute. auto. Qed.
End Example_socks.
