(* ===== verification/Server.v ===== *)
(** The accept loops of the static TCP and SOCKS5 listeners
    (crates/freja-proxy/src/tcp/server.rs, socks/server.rs; the two loops are the same):
    admission under a connection limit, joining of finished sessions, draining at
    shutdown.

    The loop reacts to events: what [select!] finds ready, and sessions that end on
    their own and give their permit back.  The semaphore is never closed, so the
    [Closed] arm of [try_acquire_owned] has no event. *)
From stdpp Require Import gmap strings.
From stdpp Require Import prelude.
From S2P Require Import Prelude Bytes Net Endpoint Domain PolicyModel Acl Guard Inspection AuditModel AuditSink Hooks Runtime Destination FlowInspect Relay Settings TcpSession.

(** A task of the [JoinSet]. *)
Inductive task : Type := Running | Ended (r : result proxy_error unit) | Panicked.
Inductive server_phase : Type := Accepting | Draining.
#[export] Instance server_phase_eq_dec : EqDecision server_phase.
Proof. solve_decision. Defined.
Record server : Type := Server { server_permits : nat; sessions : list task; phase : server_phase }.
Inductive server_event : Type :=
| ShutdownRequested
| JoinReady (i : nat)
| AcceptReady (accepted : result unit (socket_addr * session_id))
| SessionEnds (i : nat) (r : result proxy_error unit)
| SessionPanics (i : nat).

Definition handle_join (t : option task) : result proxy_error unit :=
  match t with
  | Some Panicked => Err Join
  | Some (Ended _) | Some Running | None => Ok tt
  end.
Definition is_running (t : task) : bool := match t with Running => true | _ => false end.
Definition running (sv : server) : nat := length (List.filter is_running (sessions sv)).
(** The loop starts with its semaphore full; [None] when it panics. *)
Definition server_start (limits : proxy_limits) : option server :=
  if (MAX_PERMITS <? connections limits)%N then None else Some (Server (N.to_nat (connections limits)) [] Accepting).
(** [run] has returned. *)
Definition finished (sv : server) : bool := bool_decide (phase sv = Draining) && bool_decide (length (sessions sv) = 0).

Section Server.
Context `{Environment}.
Definition audit_capacity_rejection (client listener : socket_addr) (s : session_id) : flow unit :=
  _ ← publish_event s None (ConnectionAccepted (show_socket_addr client) (show_socket_addr listener));
  publish_event s None (FlowClosed 0 0 OutConnectionLimit).
(** The permit a session holds is dropped when its task ends. *)
Definition end_session (sv : server) (i : nat) (t : task) : server :=
  match sessions sv !! i with
  | Some Running => Server (S (server_permits sv)) (<[i := t]> (sessions sv)) (phase sv)
  | _ => sv
  end.
Definition join_session (sv : server) (i : nat) : flow server :=
  match sessions sv !! i with
  | Some Running | None => mret sv
  | Some t =>
      _ ← lift (handle_join (Some t));
      mret (Server (server_permits sv) (delete i (sessions sv)) (phase sv))
  end.
Definition server_step (listener : socket_addr) (sv : server) (e : server_event) : flow server :=
  match e with
  | SessionEnds i r => mret (end_session sv i (Ended r))
  | SessionPanics i => mret (end_session sv i Panicked)
  | JoinReady i => join_session sv i
  | ShutdownRequested => mret (Server (server_permits sv) (sessions sv) Draining)
  | AcceptReady accepted =>
      if decide (phase sv = Draining) then mret sv
      else
        match accepted with
        | Err _ => fail AcceptFailed
        | Ok (client, s) =>
            match server_permits sv with
            | O => _ ← audit_capacity_rejection client listener s; mret sv
            | S permits => mret (Server permits (sessions sv ++ [Running]) (phase sv))
            end
        end
  end.
Fixpoint run_server (listener : socket_addr) (sv : server) (events : list server_event) : flow server :=
  if finished sv then mret sv
  else
    match events with
    | [] => mret sv
    | e :: events => sv ← server_step listener sv e; run_server listener sv events
    end.
(** [run], which panics before it accepts anything when the semaphore does. *)
Definition run_listener (limits : proxy_limits) (listener : socket_addr) (events : list server_event) : option (flow server) :=
  sv ← server_start limits; Some (run_server listener sv events).
End Server.

(** * Reachable servers *)

Inductive reachable `{Environment} (limits : proxy_limits) (listener : socket_addr) : server -> Prop :=
| reach_start sv : server_start limits = Some sv -> reachable limits listener sv
| reach_step sv e w sv' w' : reachable limits listener sv ->
    server_step listener sv e w = (Ok sv', w') -> reachable limits listener sv'.

Lemma running_insert (l : list task) i t : l !! i = Some Running -> is_running t = false ->
  S (length (List.filter is_running (<[i := t]> l))) = length (List.filter is_running l).
Proof.
  revert i; induction l as [|x l IH]; intros [|i] Hi Ht; try done; cbn in Hi |- *.
  - injection Hi as ->. cbn. by rewrite Ht.
  - specialize (IH i Hi Ht). destruct (is_running x); [by apply (f_equal S)|exact IH].
Qed.
Lemma running_delete (l : list task) i t : l !! i = Some t -> is_running t = false ->
  length (List.filter is_running (delete i l)) = length (List.filter is_running l).
Proof.
  revert i; induction l as [|x l IH]; intros [|i] Hi Ht; try done; cbn in Hi |- *.
  - injection Hi as ->. by rewrite Ht.
  - specialize (IH i Hi Ht). destruct (is_running x); [by apply (f_equal S)|exact IH].
Qed.
Definition balanced (limits : proxy_limits) (sv : server) : Prop :=
  running sv + server_permits sv = N.to_nat (connections limits).
Lemma end_session_balanced limits sv i t : is_running t = false -> balanced limits sv -> balanced limits (end_session sv i t).
Proof.
  unfold balanced, running, end_session. intros Ht Hb. destruct (sessions sv !! i) as [[]|] eqn:Hi; try done.
  cbn. rewrite <- Hb, <- (running_insert _ _ t Hi Ht). lia.
Qed.
Lemma server_step_balanced `{Environment} limits listener sv e w sv' w' :
  balanced limits sv -> server_step listener sv e w = (Ok sv', w') -> balanced limits sv'.
Proof.
  intros Hb. destruct e as [|i|accepted|i r|i]; cbn [server_step].
  - by intros [= <- _].
  - unfold join_session. destruct (sessions sv !! i) as [[|r|]|] eqn:Hi; try by intros [= <- _].
    intros [= <- _]. unfold balanced, running in *. cbn. by rewrite (running_delete _ _ _ Hi).
  - case_decide; [by intros [= <- _]|]. destruct accepted as [[client s]|]; [|done].
    destruct (server_permits sv) as [|n] eqn:Hn.
    + unfold mbind, flow_bind. destruct (audit_capacity_rejection _ _ _ _) as [[]]; [by intros [= <- _]|done].
    + intros [= <- _]. unfold balanced, running in *. cbn. rewrite List.filter_app, length_app. cbn. lia.
  - intros [= <- _]. by apply end_session_balanced.
  - intros [= <- _]. by apply end_session_balanced.
Qed.
Lemma reachable_balanced `{Environment} limits listener sv : reachable limits listener sv -> balanced limits sv.
Proof.
  induction 1 as [sv Hs|sv e w sv' w' _ IH Hstep]; [|by eapply server_step_balanced].
  unfold server_start in Hs. destruct (_ <? _)%N; [done|]. by injection Hs as <-.
Qed.

(** What it takes to wind the sessions down: the first one ends and is joined, in turn. *)
Definition wind_down (l : list task) : list server_event :=
  concat (map (fun _ => [SessionEnds 0 (Ok tt); JoinReady 0]) l).
Lemma run_server_wind_down `{Environment} listener l permits w :
  Forall (fun t => t <> Panicked) l ->
  exists sv, run_server listener (Server permits l Draining) (wind_down l) w = (Ok sv, w) /\ finished sv = true /\
    server_permits sv = permits + length (List.filter is_running l).
Proof.
  intros HF; revert permits; induction HF as [|t l Ht HF IH]; intros permits; cbn [wind_down map concat app run_server].
  - exists (Server permits [] Draining). cbn. auto.
  - unfold finished at 1. rewrite bool_decide_eq_true_2, bool_decide_eq_false_2 by done. cbn [andb].
    set (sv := end_session (Server permits (t :: l) Draining) 0 (Ended (Ok tt))).
    assert (Hsv : exists r, sv = Server (if is_running t then S permits else permits) (Ended r :: l) Draining).
    { subst sv. destruct t as [|r|]; [by eexists|by eexists|done]. }
    destruct Hsv as [r Hsv]. unfold mbind at 1, flow_bind at 1. cbn [server_step mret flow_ret]. fold sv. rewrite Hsv.
    unfold finished at 1. rewrite bool_decide_eq_true_2, bool_decide_eq_false_2 by done. cbn [andb].
    destruct (IH (if is_running t then S permits else permits)) as (sv' & Hrun & Hfin & Hp).
    exists sv'. split; [exact Hrun|]. split; [done|]. rewrite Hp. cbn. destruct (is_running t); cbn; lia.
Qed.

(** * Properties *)

Section Properties.
Context `{Environment}.

(** The connection limit: however connections arrive and sessions end, panic and are
    joined, never more sessions run than the limit; while it accepts, a connection below
    the limit starts a session and does nothing else, and a connection at the limit
    leaves the server as it was and records, in this order, its acceptance and a
    closing with the connection-limit outcome. *)
Theorem server_respects_limit (limits : proxy_limits) (listener : socket_addr) (sv : server) :
  reachable limits listener sv ->
  running sv <= N.to_nat (connections limits) /\
  (phase sv = Accepting -> forall client s,
     if decide (running sv < N.to_nat (connections limits))
     then exists permits, forall w, server_step listener sv (AcceptReady (Ok (client, s))) w
       = (Ok (Server permits (sessions sv ++ [Running]) Accepting), w)
     else follows (server_step listener sv (AcceptReady (Ok (client, s))))
       [ConnectionAccepted (show_socket_addr client) (show_socket_addr listener); FlowClosed 0 0 OutConnectionLimit]
       (Ok sv)).
Proof.
  intros Hr. apply reachable_balanced in Hr. unfold balanced in Hr. split; [lia|]. intros Hp client s.
  cbn [server_step]. rewrite (decide_False (P := phase sv = Draining)) by (by rewrite Hp).
  destruct (server_permits sv) as [|n] eqn:Hn; case_decide; try lia.
  - change [ConnectionAccepted (show_socket_addr client) (show_socket_addr listener); FlowClosed 0 0 OutConnectionLimit]
      with ([ConnectionAccepted (show_socket_addr client) (show_socket_addr listener); FlowClosed 0 0 OutConnectionLimit] ++ []).
    eapply follows_bind; [|apply follows_ret]. unfold audit_capacity_rejection. script_step. auto with scripts.
  - exists n. intros w. by rewrite Hp.
Qed.

(** C39. Draining: from any reachable server without a panicked session, once shutdown is
    requested, each remaining session ending and being joined brings the accept loop to
    its return; by then every permit is back, no session is left and nothing else has
    happened. *)
Theorem server_drains (limits : proxy_limits) (listener : socket_addr) (sv : server) (w : world) :
  reachable limits listener sv -> Forall (fun t => t <> Panicked) (sessions sv) -> phase sv = Accepting ->
  exists sv', run_server listener sv (ShutdownRequested :: wind_down (sessions sv)) w = (Ok sv', w) /\
    finished sv' = true /\ server_permits sv' = N.to_nat (connections limits) /\ sessions sv' = [].
Proof.
  intros Hr HF Hp. apply reachable_balanced in Hr. unfold balanced, running in Hr. cbn [run_server].
  unfold finished at 1. rewrite bool_decide_eq_false_2 by (by rewrite Hp). cbn [andb server_step].
  destruct (run_server_wind_down listener (sessions sv) (server_permits sv) w HF) as (sv' & Hrun & Hfin & Hperm).
  exists sv'. split; [exact Hrun|]. split; [done|]. split; [lia|].
  unfold finished in Hfin. apply andb_prop in Hfin as [_ Hl]. apply bool_decide_eq_true in Hl. by apply length_zero_iff_nil.
Qed.
End Properties.

Module Example_server.
#[local] Existing Instance host_nets.
#[local] Existing Instance Example_headers.gmap_headers.
#[local] Existing Instance Example_flow.environment.
Definition limits : proxy_limits := ProxyLimits 1 1024 1024 5 5 60.
Definition listener : socket_addr := SocketAddr (ipv4 127 0 0 1) 1080 0.
Definition client : socket_addr := SocketAddr (ipv4 198 51 100 1) 4000 0.
Definition full : server := Server 0 [Running] Accepting.
Lemma full_reachable : reachable limits listener full.
Proof.
  apply (reach_step limits listener (Server 1 [] Accepting) (AcceptReady (Ok (client, 1%N))) Example_flow.start full
    Example_flow.start); [constructor|]; vm_compute; reflexivity.
Qed.
Lemma server_respects_limit_witness :
  running full <= 1 /\
  follows (server_step listener full (AcceptReady (Ok (client, 2%N))))
    [ConnectionAccepted (show_socket_addr client) (show_socket_addr listener); FlowClosed 0 0 OutConnectionLimit]
    (Ok full).
Proof.
  destruct (server_respects_limit limits listener full full_reachable) as [Hle Hstep].
  split; [exact Hle|exact (Hstep eq_refl client 2%N)].
Defined.
Lemma server_drains_witness :
  exists sv', run_server listener full (ShutdownRequested :: wind_down (sessions full)) Example_flow.start
    = (Ok sv', Example_flow.start) /\
    finished sv' = true /\ server_permits sv' = 1 /\ sessions sv' = [].
Proof.
  apply (server_drains limits listener full Example_flow.start full_reachable).
  - constructor; [discriminate|constructor].
  - reflexivity.
Defined.
End Example_server.
