(* ===== verification/HttpHeaders.v ===== *)
(** Header handling of the HTTP listener (crates/freja-proxy/src/http/headers.rs), the
    request targets it accepts (http/target.rs) and its proxy authentication
    (http/service/response.rs).

    The [http] and [base64] crates are the classes [HeaderIter] and [HttpLibrary]; a URI
    is the record of what its accessors return. *)
From stdpp Require Import gmap strings.
From stdpp Require Import prelude.
From S2P Require Import Prelude Bytes Net Endpoint Domain Guard Inspection Framing AuditModel Hooks Socks.

(** Iteration over a header map yields the values of each name in their order;
    [hm_empty] is [HeaderMap::new]. *)
Class HeaderIter `{HeaderMap} : Type := {
  hm_iter : header_map -> list (bytes * bytes);
  hm_empty : header_map }.
Class HeaderIterLaws `{HeaderIter} : Prop := {
  get_empty n : get_all hm_empty n = [];
  get_iter m n : get_all m n = (filter (fun e => e.1 = n) (hm_iter m)).*2 }.
(** What every name of a received header map is: in lower case. *)
Definition lower_names `{HeaderIter} (m : header_map) : Prop :=
  Forall (fun e => to_ascii_lowercase e.1 = e.1) (hm_iter m).
(** [HeaderName::from_bytes], [HeaderValue::from_str], [HeaderValue::to_str],
    [STANDARD.decode], [str::parse::<Uri>] and [Uri::builder] with a scheme, an authority
    and a path; [uri_text] is what the URI is displayed as. *)
Record authority : Type := Authority { authority_str : bytes; authority_host : bytes; port_u16 : option N }.
Record uri : Type := Uri {
  uri_text : bytes; scheme_str : option bytes; uri_authority : option authority; path_and_query : option bytes }.
Class HttpLibrary : Type := {
  header_name : bytes -> option bytes;
  header_value : bytes -> bool;
  to_str : bytes -> option bytes;
  base64_decode : bytes -> option bytes;
  parse_uri : bytes -> option uri;
  build_uri : bytes -> bytes -> bytes -> option uri }.

(** * Headers (headers.rs) *)

Inductive header_error : Type :=
| BudgetExceeded (observed maximum : N)
| HdrTransferEncodingWithContentLength
| HdrUnsupportedTransferEncoding
| HdrInvalidContentLength
| HdrConflictingContentLength
| InvalidConnectionToken.
#[export] Instance header_error_eq_dec : EqDecision header_error.
Proof. solve_decision. Defined.

Definition show_header_error (e : header_error) : bytes :=
  match e with
  | BudgetExceeded observed maximum =>
      bs "header bytes " ++ show_N observed ++ bs " exceed configured limit " ++ show_N maximum
  | HdrTransferEncodingWithContentLength => bs "Transfer-Encoding and Content-Length must not appear together"
  | HdrUnsupportedTransferEncoding => bs "only a single chunked Transfer-Encoding is supported"
  | HdrInvalidContentLength => bs "invalid Content-Length value"
  | HdrConflictingContentLength => bs "conflicting Content-Length values"
  | InvalidConnectionToken => bs "Connection header contains an invalid header name"
  end.

Definition CONTENT_LENGTH : bytes := bs "content-length".
Definition TRANSFER_ENCODING : bytes := bs "transfer-encoding".
Definition CONNECTION : bytes := bs "connection".
Definition trim_ascii (value : bytes) : bytes := trim is_whitespace value.
(** [flat_map(|value| value.split(',')).map(trim_ascii)]. *)
Definition value_members (values : list bytes) : list bytes :=
  map trim_ascii (values ≫= split_on (byte_of 44)).
Definition nonempty (l : list bytes) : list bytes := List.filter (fun t => negb (bool_decide (t = []))) l.

Section Headers.
Context `{HeaderIter, HttpLibrary}.
Definition contains_key (m : header_map) (n : bytes) : bool := negb (bool_decide (get_all m n = [])).
Definition header_size (m : header_map) : N :=
  foldl (fun total e => sat_add (sat_add (sat_add total (lenN e.1)) (lenN e.2)) 4) 0%N (hm_iter m).
Definition validate_transfer_encoding (m : header_map) : result header_error unit :=
  match nonempty (value_members (get_all m TRANSFER_ENCODING)) with
  | [token] => if eq_ignore_ascii_case token (bs "chunked") then Ok tt else Err HdrUnsupportedTransferEncoding
  | _ => Err HdrUnsupportedTransferEncoding
  end.
(** The loop over the members, [expected] from the earlier ones. *)
Fixpoint check_lengths (expected : option N) (values : list bytes) : result header_error unit :=
  match values with
  | [] => Ok tt
  | value :: values =>
      if bool_decide (value = []) || negb (forallb is_digit value) then Err HdrInvalidContentLength
      else
        parsed ← ok_or HdrInvalidContentLength (parse_uint u64_max value);
        if match expected with Some e => negb (e =? parsed)%N | None => false end
        then Err HdrConflictingContentLength
        else check_lengths (Some parsed) values
  end.
Definition validate_content_length (m : header_map) : result header_error unit :=
  check_lengths None (value_members (get_all m CONTENT_LENGTH)).
Definition validate (m : header_map) (maximum : N) : result header_error unit :=
  let observed := header_size m in
  if (maximum <? observed)%N then Err (BudgetExceeded observed maximum)
  else
    let has_transfer_encoding := contains_key m TRANSFER_ENCODING in
    let has_content_length := contains_key m CONTENT_LENGTH in
    if has_transfer_encoding && has_content_length then Err HdrTransferEncodingWithContentLength
    else
      _ ← (if has_transfer_encoding then validate_transfer_encoding m else Ok tt);
      if has_content_length then validate_content_length m else Ok tt.

Definition hop_by_hop : list bytes :=
  map bs ["connection"; "keep-alive"; "proxy-authenticate"; "proxy-authorization"; "proxy-connection"; "te";
          "trailer"; "transfer-encoding"; "upgrade"]%string.
Definition connection_tokens (m : header_map) : result header_error (list bytes) :=
  collect (fun token => ok_or InvalidConnectionToken (header_name token)) (nonempty (value_members (get_all m CONNECTION))).
Definition remove_all (names : list bytes) (m : header_map) : header_map := foldl (fun m n => hm_remove n m) m names.
Definition strip_hop_by_hop (m : header_map) : result header_error header_map :=
  tokens ← connection_tokens m; Ok (remove_all hop_by_hop (remove_all tokens m)).

(** Header names are in lower case, so the match on [as_str] is [AuditModel]'s. *)
Definition hdr_is_secret (name : bytes) : bool :=
  bool_decide (name ∈ map bs ["authorization"; "proxy-authorization"; "cookie"; "set-cookie"]%string).
Definition push_value (values : gmap bytes (list bytes)) (e : bytes * bytes) : gmap bytes (list bytes) :=
  <[e.1 := default [] (values !! e.1) ++ [e.2]]> values.
(** The order in which the map yields its entries does not matter to [SanitizedHeaders::new],
    since they have different names. *)
Definition policy_headers (m : header_map) : SanitizedHeaders.t :=
  SanitizedHeaders.new (map_to_list (foldl push_value ∅
    (map (fun e => (e.1, if hdr_is_secret e.1 then REDACTED else e.2)) (hm_iter m)))).
Definition audit_headers (m : header_map) : gmap bytes (list bytes) :=
  foldl push_value ∅ (map (fun e => (e.1, utf8_lossy e.2)) (hm_iter m)).
Definition presentation_headers (m : header_map) : list (bytes * bytes) := hm_iter m.

(** * Request targets (target.rs) *)

Inductive forward_scheme : Type := SchemeHttp | SchemeHttps.
#[local] Instance forward_scheme_eq_dec : EqDecision forward_scheme.
Proof. solve_decision. Defined.
Inductive target_error : Type :=
| UnsupportedScheme | MissingAuthority | UserInfoNotAllowed | ConnectNotAuthorityForm | MissingConnectPort
| TargetEndpoint (source : endpoint_error) | OriginUri.
Definition show_target_error (e : target_error) : bytes :=
  match e with
  | UnsupportedScheme => bs "plain forwarding requires an http absolute-form target"
  | MissingAuthority => bs "request target has no authority"
  | UserInfoNotAllowed => bs "request-target user information is not allowed"
  | ConnectNotAuthorityForm => bs "CONNECT target must use authority-form"
  | MissingConnectPort => bs "CONNECT authority must include an explicit port"
  | TargetEndpoint _ => bs "request target contains an invalid endpoint"
  | OriginUri => bs "request target has an invalid path/query"
  end.
Record forward_target : Type := ForwardTarget {
  forward_host : target_host; forward_port : Port.t; forward_authority : bytes; origin_uri : option uri }.
Definition reject_userinfo (a : bytes) : result target_error unit :=
  if bool_decide (byte_of 64 ∈ a) then Err UserInfoNotAllowed else Ok tt.
Definition from_repeat (u : uri) : result target_error (forward_target * forward_scheme) :=
  scheme ← (if decide (scheme_str u = Some (bs "http")) then Ok SchemeHttp
            else if decide (scheme_str u = Some (bs "https")) then Ok SchemeHttps
            else Err UnsupportedScheme);
  a ← ok_or MissingAuthority (uri_authority u);
  _ ← reject_userinfo (authority_str a);
  host ← map_err TargetEndpoint (TargetHost.parse (authority_host a));
  port ← match port_u16 a with
         | Some port => map_err TargetEndpoint (Port.new port)
         | None => Ok match scheme with SchemeHttp => Port.HTTP | SchemeHttps => Port.HTTPS end
         end;
  origin ← ok_or OriginUri (parse_uri (default (bs "/") (path_and_query u)));
  Ok (ForwardTarget host port (authority_str a) (Some origin), scheme).
Definition from_absolute (u : uri) : result target_error forward_target :=
  '(target, scheme) ← from_repeat u;
  if decide (scheme = SchemeHttp) then Ok target else Err UnsupportedScheme.
Definition from_connect (u : uri) : result target_error forward_target :=
  if decide (is_Some (scheme_str u)) then Err ConnectNotAuthorityForm
  else
    a ← ok_or MissingAuthority (uri_authority u);
    _ ← reject_userinfo (authority_str a);
    port ← ok_or MissingConnectPort (port_u16 a);
    host ← map_err TargetEndpoint (TargetHost.parse (authority_host a));
    port ← map_err TargetEndpoint (Port.new port);
    Ok (ForwardTarget host port (authority_str a) None).

(** * Proxy authentication (service/response.rs) *)

Definition authenticate_proxy_request `{Sha256} (m : header_map) (a : ProxyAuthentication.t) : bool :=
  match get_all m (bs "proxy-authorization") with
  | [value] =>
      match to_str value with
      | None => false
      | Some text =>
          match split_once SP text with
          | None => false
          | Some (scheme, encoded) =>
              if negb (eq_ignore_ascii_case scheme (bs "basic")) || bool_decide (encoded = []) then false
              else
                match base64_decode encoded with
                | None => false
                | Some credential =>
                    constant_time_equal (sha256 credential) (credential_bytes (ProxyAuthentication.hash a))
                end
          end
      end
  | _ => false
  end.
End Headers.

(** * Lemmas on lists of values *)

Lemma split_by_within p l f b : f ∈ split_by p l -> b ∈ f -> b ∈ l.
Proof.
  revert f; induction l as [|c l IH]; intros f; cbn.
  - intros ->%list_elem_of_singleton. by intros ?%elem_of_nil.
  - destruct (p c).
    + intros [->|Hf]%elem_of_cons; [by intros ?%elem_of_nil|]. intros Hb. right. by eapply IH.
    + destruct (split_by p l) as [|g gs] eqn:E; [by apply split_by_nonempty in E|].
      intros [->|Hf]%elem_of_cons; [intros [->|Hb]%elem_of_cons|intros Hb].
      * left.
      * right. eapply IH; [left|done].
      * right. eapply IH; [right; exact Hf|done].
Qed.
Lemma trim_start_ext p q l : (forall b, b ∈ l -> p b = q b) -> trim_start p l = trim_start q l.
Proof.
  induction l as [|b l IH]; intros Hpq; cbn; [done|]. rewrite (Hpq b) by left.
  destruct (q b); [apply IH; intros c Hc; apply Hpq; by right|done].
Qed.
Lemma trim_start_within p l b : b ∈ trim_start p l -> b ∈ l.
Proof. induction l as [|c l IH]; cbn; [done|]. destruct (p c); [intros ?; right; auto|done]. Qed.
Lemma trim_ext p q l : (forall b, b ∈ l -> p b = q b) -> trim p l = trim q l.
Proof.
  intros Hpq. unfold trim, trim_end. rewrite (trim_start_ext p q l Hpq). f_equal. apply trim_start_ext.
  intros b Hb. apply Hpq, (trim_start_within q). apply list_elem_of_In, in_rev, list_elem_of_In. exact Hb.
Qed.
(** Bytes a header value can contain: no line feed, form feed or carriage return. *)
Definition value_byte (b : u8) : Prop := b ∉ [byte_of 10; byte_of 12; byte_of 13].
Definition plain (values : list bytes) : Prop := Forall (Forall value_byte) values.
Lemma whitespace_ows b : value_byte b -> is_whitespace b = is_ows b.
Proof.
  unfold value_byte, is_whitespace, is_ows, SP, HT. intros Hb.
  apply bool_eq_iff. rewrite orb_true_iff, !bool_decide_eq_true. set_solver.
Qed.
Lemma value_members_list values : plain values -> value_members values = list_members values.
Proof.
  intros Hp. unfold value_members, list_members. apply map_ext_in. intros f Hf%list_elem_of_In.
  apply trim_ext. intros b Hb. apply whitespace_ows. apply list_elem_of_bind in Hf as (v & Hf & Hv).
  unfold plain in Hp. rewrite Forall_forall in Hp. specialize (Hp v Hv). rewrite Forall_forall in Hp.
  apply Hp. by eapply split_by_within.
Qed.

(** * Agreement with the framer *)

Definition as_header_error (e : framing_error) : header_error :=
  match e with
  | TransferEncodingWithContentLength => HdrTransferEncodingWithContentLength
  | UnsupportedTransferEncoding => HdrUnsupportedTransferEncoding
  | ConflictingContentLength => HdrConflictingContentLength
  | _ => HdrInvalidContentLength
  end.
Lemma check_lengths_loop expected values :
  check_lengths expected values
  = match content_length_loop expected values with Ok _ => Ok tt | Err e => Err (as_header_error e) end.
Proof.
  revert expected; induction values as [|v values IH]; intros expected; cbn [check_lengths content_length_loop]; [done|].
  destruct (bool_decide _ || _); [done|]. destruct (parse_uint u64_max v) as [n|]; [|done]. mcbn.
  destruct expected as [e|]; [|apply IH]. destruct (N.eqb_spec e n) as [->|Hn]; cbn [negb].
  - rewrite decide_True by done. apply IH.
  - by rewrite decide_False.
Qed.

Section Agreement.
Context `{HeaderIter, HttpLibrary}.
Lemma validate_framing m maximum : (header_size m <= maximum)%N ->
  plain (get_all m TRANSFER_ENCODING) -> plain (get_all m CONTENT_LENGTH) ->
  validate m maximum =
  match (if negb (bool_decide (get_all m CONTENT_LENGTH = [])) && negb (bool_decide (get_all m TRANSFER_ENCODING = []))
         then Err TransferEncodingWithContentLength
         else chunked ← parse_transfer_encoding (get_all m TRANSFER_ENCODING);
              length ← parse_content_length (get_all m CONTENT_LENGTH); Ok (chunked, length)) with
  | Ok _ => Ok tt
  | Err e => Err (as_header_error e)
  end.
Proof.
  intros Hsize Hte Hcl. unfold validate. rewrite (proj2 (N.ltb_ge _ _)) by done. cbv zeta.
  unfold contains_key. rewrite andb_comm. destruct (_ && _) eqn:Hboth; [done|].
  unfold validate_transfer_encoding, validate_content_length, parse_transfer_encoding, parse_content_length.
  rewrite check_lengths_loop, !value_members_list by done.
  destruct (get_all m TRANSFER_ENCODING) as [|te tes].
  - rewrite (bool_decide_eq_true_2 (@nil bytes = [])) by done. cbn [negb]. mcbn.
    destruct (get_all m CONTENT_LENGTH) as [|cl cls]; [by rewrite bool_decide_eq_true_2|].
    rewrite bool_decide_eq_false_2 by done. cbn [negb].
    by destruct (content_length_loop None _).
  - rewrite (bool_decide_eq_false_2 (te :: tes = [])) in Hboth |- * by done. cbn [negb] in Hboth |- *. rewrite andb_true_r in Hboth.
    rewrite Hboth. apply negb_false_iff, bool_decide_eq_true in Hboth. rewrite Hboth. unfold nonempty.
    destruct (List.filter _ _) as [|token [|? ?]]; [done| |done]. by destruct (eq_ignore_ascii_case token _).
Qed.

Context `{!HeaderMapLaws}.
Lemma get_remove_all names m n :
  get_all (remove_all names m) n = if decide (n ∈ names) then [] else get_all m n.
Proof.
  revert m; induction names as [|x names IH]; intros m; cbn [remove_all foldl].
  - by rewrite decide_False by apply not_elem_of_nil.
  - fold (remove_all names (hm_remove x m)). rewrite IH, get_remove.
    destruct (decide (x = n)) as [->|Hx]; repeat case_decide; set_solver.
Qed.
End Agreement.

(** * Grouping entries by name *)

Definition values_of (n : bytes) (l : list (bytes * bytes)) : list bytes := (filter (fun e => e.1 = n) l).*2.
Lemma values_of_snoc n l e : values_of n (l ++ [e]) = values_of n l ++ (if decide (e.1 = n) then [e.2] else []).
Proof.
  unfold values_of. rewrite filter_app, fmap_app. f_equal. by rewrite filter_cons, filter_nil; case_decide.
Qed.
Lemma grouped_lookup l n :
  foldl push_value ∅ l !! n = match values_of n l with [] => None | vs => Some vs end.
Proof.
  induction l as [|e l IH] using rev_ind; [done|]. rewrite foldl_app, values_of_snoc. cbn [foldl].
  unfold push_value at 1. destruct (decide (e.1 = n)) as [->|Hn].
  - rewrite lookup_insert_eq, IH. by destruct (values_of n l).
  - by rewrite lookup_insert_ne, IH, app_nil_r.
Qed.

(** * Properties *)

Section Properties.
Context `{HeaderIter, HttpLibrary, !HeaderMapLaws}.

(** Two parsers, one framing: take a request head whose field lines carry the
    Transfer-Encoding and Content-Length values that the HTTP engine put into the header
    map, within the header budget.  The listener's validation admits the request exactly
    when the capture framer can frame the same head, and otherwise both give the same
    reason; so no request is forwarded whose body the capture would delimit
    differently. *)
Theorem headers_agree_with_framer (m : header_map) (maximum : N) (head content first : bytes) (lines : list bytes) :
  strip_suf (CRLF ++ CRLF) head = Some content -> split_on LF content = first :: lines -> trim_cr first <> [] ->
  header_loop lines [] [] = Ok (get_all m CONTENT_LENGTH, get_all m TRANSFER_ENCODING) ->
  plain (get_all m TRANSFER_ENCODING) -> plain (get_all m CONTENT_LENGTH) -> (header_size m <= maximum)%N ->
  validate m maximum = match parse_head head RequestRole with
                       | Ok _ => Ok tt
                       | Err e => Err (as_header_error e)
                       end.
Proof.
  intros Hstrip Hsplit Hstart Hloop Hte Hcl Hsize. rewrite validate_framing by done.
  unfold parse_head. rewrite Hstrip. mcbn. rewrite Hsplit. cbv zeta.
  rewrite (bool_decide_eq_false_2 (trim_cr first = [])) by done.
  rewrite Hloop. mcbn. destruct (_ && _); [done|].
  destruct (parse_transfer_encoding _) as [chunked|]; [|done]. mcbn.
  by destruct (parse_content_length _) as [length|].
Qed.

(** Hop-by-hop headers end at the proxy: stripping fails exactly when some member of
    a Connection header is not a header name; otherwise every hop-by-hop header (proxy
    credentials among them) and every header a Connection member names is gone, in
    all its values, and every other header keeps all its values in order. *)
Theorem strip_removes_hop_by_hop (m : header_map) :
  let nominated := nonempty (value_members (get_all m CONNECTION)) in
  match strip_hop_by_hop m with
  | Ok m' =>
      Forall (fun token => is_Some (header_name token)) nominated /\
      forall n, get_all m' n =
        if decide (n ∈ hop_by_hop \/ n ∈ omap header_name nominated) then [] else get_all m n
  | Err e => e = InvalidConnectionToken /\ exists token, token ∈ nominated /\ header_name token = None
  end.
Proof.
  intros nominated. unfold strip_hop_by_hop, connection_tokens. fold nominated. clearbody nominated.
  set (f := fun token => ok_or InvalidConnectionToken (header_name token)).
  assert (Hf : forall token, f token = ok_or InvalidConnectionToken (header_name token)) by done. clearbody f.
  assert (Hcollect : match collect f nominated with
    | Ok tokens => Forall (fun token => is_Some (header_name token)) nominated /\ tokens = omap header_name nominated
    | Err e => e = InvalidConnectionToken /\ exists token, token ∈ nominated /\ header_name token = None
    end).
  { induction nominated as [|t nominated IH]; cbn; [done|]. rewrite Hf.
    destruct (header_name t) as [n|] eqn:Ht; cbn [ok_or]; mcbn.
    - revert IH. destruct (collect f nominated) as [tokens|e]; mcbn; intros IH.
      + destruct IH as [HF ->]. split; [|done]. constructor; [by rewrite Ht|done].
      + destruct IH as (-> & t' & Hin & Ht'). split; [done|]. exists t'. split; [by right|done].
    - split; [done|]. exists t. split; [by left|done]. }
  revert Hcollect. destruct (collect f nominated) as [tokens|e]; mcbn; [|done]. intros [HF ->]. split; [done|].
  intros n. rewrite !get_remove_all. repeat case_decide; naive_solver.
Qed.

(** The policy sees headers without their secrets: for every lower-case name, the facts
    handed to the policy (and recorded for replay) hold exactly the values of that
    header, in order, with every value of a credential header replaced by the
    redaction marker. *)
Theorem policy_headers_redacted `{!HeaderIterLaws} (m : header_map) (name : bytes) :
  to_ascii_lowercase name = name -> lower_names m ->
  SanitizedHeaders.values (policy_headers m) name
  = match get_all m name with
    | [] => None
    | vs => Some (if hdr_is_secret name then map (fun _ => REDACTED) vs else vs)
    end.
Proof.
  intros Hlow Hnames. unfold SanitizedHeaders.values, policy_headers, SanitizedHeaders.new. rewrite Hlow.
  set (l := map _ (hm_iter m)).
  assert (Hlower : map_Forall (fun n _ => to_ascii_lowercase n = n) (foldl push_value ∅ l)).
  { intros n vs. rewrite grouped_lookup. destruct (values_of n l) as [|v vs'] eqn:Ev; [done|]. intros _.
    assert (Hin : v ∈ values_of n l) by (rewrite Ev; left).
    unfold values_of in Hin. apply list_elem_of_fmap in Hin as (e & _ & He). apply list_elem_of_filter in He as [<- He].
    subst l. change (map ?g ?x) with (g <$> x) in He. apply list_elem_of_fmap in He as (e' & -> & He). cbn [fst].
    unfold lower_names in Hnames. rewrite Forall_forall in Hnames. by apply Hnames. }
  rewrite foldl_add_entry; [|apply NoDup_fst_map_to_list|].
  2: { apply Forall_forall. intros n Hn. split; [|apply lookup_empty].
       apply list_elem_of_fmap in Hn as ([n' vs] & -> & Hn%elem_of_map_to_list). by apply (Hlower n' vs). }
  cbn [SanitizedHeaders.headers_map]. rewrite (right_id_L ∅ (∪)), list_to_map_to_list, grouped_lookup, get_iter.
  assert (Hvalues : values_of name l = (fun v => if hdr_is_secret name then REDACTED else v) <$> values_of name (hm_iter m)).
  { subst l. clear. unfold values_of. induction (hm_iter m) as [|e es IH]; [done|]. cbn [map]. rewrite !filter_cons.
    cbn [fst]. destruct (decide (e.1 = name)) as [He|He]; [|exact IH]. rewrite !fmap_cons, IH. cbn [snd]. by rewrite He. }
  rewrite Hvalues. unfold values_of. destruct (filter _ (hm_iter m)).*2 as [|v vs]; [done|]. rewrite fmap_cons.
  destruct (hdr_is_secret name); [done|]. f_equal. f_equal. by rewrite list_fmap_id.
Qed.
End Properties.

(** * Witnesses *)

Module Example_http.
#[local] Existing Instance Example_headers.gmap_headers.
#[local] Existing Instance Example_headers.gmap_header_laws.
(** Entries in the order of the names, each name's values together. *)
#[local] Instance gmap_iter : HeaderIter := {|
  hm_iter := fun m => map_to_list (m : gmap bytes (list bytes)) ≫= fun e => map (pair e.1) e.2;
  hm_empty := (∅ : gmap bytes (list bytes)) |}.
#[local] Instance library : HttpLibrary := {|
  header_name := fun t => if forallb token_byte t then Some (to_ascii_lowercase t) else None;
  header_value := fun _ => true; to_str := Some; base64_decode := Some;
  parse_uri := fun p => Some (Uri p None None (Some p));
  build_uri := fun scheme a p => Some (Uri (scheme ++ bs "://" ++ a ++ p) (Some scheme) (Some (Authority a a None)) (Some p)) |}.
Definition message : bytes := bs "POST / HTTP/1.1" ++ CRLF ++ bs "Content-Length: 4" ++ CRLF ++ CRLF.
Definition parsed : header_map := ({[ CONTENT_LENGTH := [bs "4"] ]} : gmap bytes (list bytes)).
Lemma headers_agree_with_framer_witness :
  validate parsed 64 = match parse_head message RequestRole with
                       | Ok _ => Ok tt
                       | Err e => Err (as_header_error e)
                       end.
Proof.
  apply (headers_agree_with_framer parsed 64 message (bs "POST / HTTP/1.1" ++ CRLF ++ bs "Content-Length: 4")
    (bs "POST / HTTP/1.1" ++ [CR]) [bs "Content-Length: 4"]).
  - vm_compute. reflexivity.
  - vm_compute. reflexivity.
  - vm_compute. discriminate.
  - vm_compute. reflexivity.
  - vm_compute. constructor.
  - apply (bool_decide_unpack _). by vm_compute.
  - vm_compute. discriminate.
Defined.

(** Header maps as lists of entries. *)
Definition list_headers : HeaderMap := {|
  header_map := list (bytes * bytes);
  get_all := fun m n => values_of n m;
  hm_insert := fun n v m => List.filter (fun e => negb (bool_decide (e.1 = n))) m ++ [(n, v)];
  hm_append := fun n v m => m ++ [(n, v)];
  hm_remove := fun n m => List.filter (fun e => negb (bool_decide (e.1 = n))) m |}.
Definition list_iter : @HeaderIter list_headers :=
  @Build_HeaderIter list_headers (fun m : list (bytes * bytes) => m) (@nil (bytes * bytes)).
Lemma values_of_removed n n' l :
  values_of n' (List.filter (fun e => negb (bool_decide (e.1 = n))) l) = if decide (n = n') then [] else values_of n' l.
Proof.
  unfold values_of. induction l as [|e l IH]; cbn [List.filter]; [by case_decide|].
  rewrite filter_cons. destruct (decide (e.1 = n)) as [He|He].
  - rewrite (bool_decide_eq_true_2 (e.1 = n)) by done. cbn [negb]. rewrite IH. repeat case_decide; congruence.
  - rewrite (bool_decide_eq_false_2 (e.1 = n)) by done. cbn [negb]. rewrite filter_cons.
    destruct (decide (e.1 = n')) as [He'|He']; [|exact IH]. rewrite !fmap_cons, IH. case_decide; congruence.
Qed.
Lemma list_header_laws : @HeaderMapLaws list_headers.
Proof.
  split; intros; cbn [get_all hm_insert hm_append hm_remove list_headers];
    rewrite ?values_of_snoc, ?values_of_removed; cbn [fst snd]; repeat case_decide;
    by rewrite ?app_nil_r.
Qed.
Lemma list_iter_laws : @HeaderIterLaws list_headers list_iter.
Proof. by split. Qed.

(** A map with one credential header and one other. *)
Definition entries : list (bytes * bytes) :=
  [(bs "cookie", bs "secret"); (bs "accept", bs "text/html"); (bs "accept", bs "*/*")].
Lemma policy_headers_redacted_witness :
  SanitizedHeaders.values (@policy_headers list_headers list_iter entries) (bs "cookie") = Some [REDACTED] /\
  SanitizedHeaders.values (@policy_headers list_headers list_iter entries) (bs "accept") = Some [bs "text/html"; bs "*/*"].
Proof.
  assert (Hl : @lower_names list_headers list_iter entries) by (apply (bool_decide_unpack _); by vm_compute).
  split.
  - apply (@policy_headers_redacted list_headers list_iter list_iter_laws entries (bs "cookie")); [vm_compute; reflexivity|exact Hl].
  - apply (@policy_headers_redacted list_headers list_iter list_iter_laws entries (bs "accept")); [vm_compute; reflexivity|exact Hl].
Defined.
Definition hopping : header_map :=
  ({[ bs "connection" := [bs "close, X-Hop"]; bs "x-hop" := [bs "1"]; bs "te" := [bs "trailers"];
      bs "accept" := [bs "*/*"] ]} : gmap bytes (list bytes)).
Definition stripped : header_map := match strip_hop_by_hop hopping with Ok m => m | Err _ => hopping end.
Lemma strip_removes_hop_by_hop_witness :
  get_all stripped (bs "x-hop") = [] /\ get_all stripped (bs "te") = [] /\ get_all stripped (bs "accept") = [bs "*/*"].
Proof.
  pose proof (strip_removes_hop_by_hop hopping) as Hs. cbv zeta in Hs.
  replace (strip_hop_by_hop hopping) with (Ok (E := header_error) stripped) in Hs by (vm_compute; reflexivity).
  destruct Hs as [_ Hs]. rewrite !Hs. vm_compute. auto.
Defined.
End Example_http.
