(* ===== verification/Tls.v ===== *)
(** TLS interception (crates/freja-proxy/src/tls/{cache,interceptor,material}.rs): which
    hosts are intercepted, the bounded cache of generated server configurations, the
    acceptor a CONNECT tunnel is given, and the protocols offered upstream.

    Issuing a certificate and the check of a key against a chain are rcgen's and
    rustls's; two calls may give different certificates for one host, so an answer has
    a serial number. *)
From stdpp Require Import gmap strings.
From stdpp Require Import prelude.
From S2P Require Import Prelude Bytes Net Endpoint Domain PolicyModel Acl Guard Inspection AuditModel AuditSink Hooks Runtime Settings.

Definition ALPN_HTTP_2 : bytes := bs "h2".
Definition ALPN_HTTP_1_1 : bytes := bs "http/1.1".

(** * The leaf cache (cache.rs) *)

(** [LeafCacheKey { host, alpn }]. *)
Definition leaf_cache_key : Type := bytes * option bytes.
Definition key_of (host : target_host) (alpn : option bytes) : leaf_cache_key := (TargetHost.as_host_text host, alpn).

Module LeafCache.
Section Cache.
Context {Config : Type}.
Record t : Type := Make { capacity : nat; entries : gmap leaf_cache_key Config; recency : list leaf_cache_key }.
Definition new (capacity : nat) : t := Make capacity ∅ [].
Definition get (key : leaf_cache_key) (c : t) : option Config * t :=
  match entries c !! key with
  | None => (None, c)
  | Some config =>
      (Some config,
       Make (capacity c) (entries c)
         (List.filter (fun candidate => negb (bool_decide (candidate = key))) (recency c) ++ [key]))
  end.
Definition insert (key : leaf_cache_key) (value : Config) (c : t) : t :=
  if decide (capacity c = 0) then c
  else
    let '(es, recent) :=
      if decide (size (entries c) = capacity c) then
        match recency c with
        | oldest :: recent => (delete oldest (entries c), recent)
        | [] => (entries c, recency c)
        end
      else (entries c, recency c) in
    Make (capacity c) (<[key := value]> es) (recent ++ [key]).
End Cache.
Arguments t : clear implicits.
End LeafCache.

(** * The interceptor (interceptor.rs) *)

Class CertificateAuthority : Type := {
  certificate : Type;
  issue : N -> bytes -> result tls_error certificate;
  accepts_chain : list certificate -> bool }.

Section Interceptor.
Context `{CertificateAuthority}.
Record server_config : Type := ServerConfig { chain : list certificate; alpn_protocols : list bytes }.
Record tls_interceptor : Type := TlsInterceptor { ca_chain : list certificate; intercept_hosts : list host_pattern }.

Definition should_intercept (i : tls_interceptor) (host : target_host) : bool :=
  existsb (fun pattern => matches_target pattern host) (intercept_hosts i).
(** The application protocols offered to the upstream, whose name is the tunnel's host;
    [valid] is whether rustls accepts it as a server name. *)
Definition upstream_protocols (valid : bool) (host : target_host) (downstream_alpn : option bytes)
  : result tls_error (list bytes) :=
  if negb valid then Err (InvalidServerName (TargetHost.as_host_text host))
  else
    match downstream_alpn with
    | None => Ok [ALPN_HTTP_1_1]
    | Some alpn =>
        if decide (alpn = ALPN_HTTP_2) then Ok [ALPN_HTTP_2]
        else if decide (alpn = ALPN_HTTP_1_1) then Ok [ALPN_HTTP_1_1]
        else Err (UnsupportedApplicationProtocol (utf8_lossy alpn))
    end.
Definition generate_server_config (i : tls_interceptor) (serial : N) (key : leaf_cache_key) : result tls_error server_config :=
  leaf ← issue serial key.1;
  let chain := leaf :: ca_chain i in
  if accepts_chain chain
  then Ok (ServerConfig chain (match key.2 with None => [ALPN_HTTP_2; ALPN_HTTP_1_1] | Some alpn => [alpn] end))
  else Err ServerConfiguration.

(** The two sections of [downstream_acceptor] that hold the lock; [false]: the mutex
    was poisoned. *)
Definition lookup_locked (lock : bool) (key : leaf_cache_key) (c : LeafCache.t server_config)
  : result tls_error (option server_config) * LeafCache.t server_config :=
  if lock then let '(config, c) := LeafCache.get key c in (Ok config, c) else (Err CachePoisoned, c).
Definition publish_locked (lock : bool) (key : leaf_cache_key) (config : server_config) (c : LeafCache.t server_config)
  : result tls_error (server_config * bool) * LeafCache.t server_config :=
  if lock then
    match LeafCache.get key c with
    | (Some existing, c) => (Ok (existing, true), c)
    | (None, c) => (Ok (config, false), LeafCache.insert key config c)
    end
  else (Err CachePoisoned, c).
(** What other tasks do with the cache while this one generates: their locked sections. *)
Inductive locked_section : Type :=
| LookupSection (key : leaf_cache_key)
| PublishSection (key : leaf_cache_key) (serial : N).
Definition run_section (i : tls_interceptor) (c : LeafCache.t server_config) (s : locked_section) : LeafCache.t server_config :=
  match s with
  | LookupSection key => (lookup_locked true key c).2
  | PublishSection key serial =>
      match generate_server_config i serial key with
      | Ok config => (publish_locked true key config c).2
      | Err _ => c
      end
  end.
(** [downstream_acceptor], and whether the cache was hit; [others] run between the two
    sections. *)
Definition downstream_acceptor (i : tls_interceptor) (locks : bool * bool) (others : list locked_section) (serial : N)
    (host : target_host) (alpn : option bytes) (c : LeafCache.t server_config)
  : result tls_error (server_config * bool) * LeafCache.t server_config :=
  let key := key_of host alpn in
  match lookup_locked locks.1 key c with
  | (Err e, c) => (Err e, c)
  | (Ok (Some config), c) => (Ok (config, true), c)
  | (Ok None, c) =>
      let c := foldl (run_section i) c others in
      match generate_server_config i serial key with
      | Err e => (Err e, c)
      | Ok config => publish_locked locks.2 key config c
      end
  end.
End Interceptor.

(** * Specification: a list of at most [capacity] entries, the least recently used first *)

Module Lru.
Section Lru.
Context {Config : Type}.
Definition t : Type := list (leaf_cache_key * Config).
Definition without (key : leaf_cache_key) (l : t) : t := List.filter (fun e => negb (bool_decide (e.1 = key))) l.
Definition get (key : leaf_cache_key) (l : t) : option Config * t :=
  match List.find (fun e => bool_decide (e.1 = key)) l with
  | None => (None, l)
  | Some (_, config) => (Some config, without key l ++ [(key, config)])
  end.
Definition insert (capacity : nat) (key : leaf_cache_key) (config : Config) (l : t) : t :=
  if decide (capacity = 0) then l
  else (if decide (length l = capacity) then tail l else l) ++ [(key, config)].
(** A use of the cache: look a key up and insert it when it is absent. *)
Definition use (capacity : nat) (l : t) (u : leaf_cache_key * Config) : (Config * bool) * t :=
  match get u.1 l with
  | (Some existing, l) => ((existing, true), l)
  | (None, l) => ((u.2, false), insert capacity u.1 u.2 l)
  end.
End Lru.
Arguments t : clear implicits.
End Lru.

Section Refinement.
Context {Config : Type}.
Implicit Types (c : LeafCache.t Config) (l : Lru.t Config).
(** The same use, of the implementation. *)
Definition cache_use c (u : leaf_cache_key * Config) : (Config * bool) * LeafCache.t Config :=
  match LeafCache.get u.1 c with
  | (Some existing, c) => ((existing, true), c)
  | (None, c) => ((u.2, false), LeafCache.insert u.1 u.2 c)
  end.
Fixpoint run_uses {S : Type} (step : S -> leaf_cache_key * Config -> (Config * bool) * S) (s : S)
    (us : list (leaf_cache_key * Config)) : list (Config * bool) * S :=
  match us with
  | [] => ([], s)
  | u :: us => let '(r, s) := step s u in let '(rs, s) := run_uses step s us in (r :: rs, s)
  end.
(** The implementation state represents the list. *)
Record represents c l : Prop := {
  rep_recency : LeafCache.recency c = l.*1;
  rep_entries : LeafCache.entries c = list_to_map l;
  rep_nodup : NoDup l.*1;
  rep_bounded : length l <= LeafCache.capacity c }.

Lemma find_key key l :
  List.find (fun e => bool_decide (e.1 = key)) l = (pair key) <$> ((list_to_map l : gmap leaf_cache_key Config) !! key).
Proof.
  induction l as [|[k v] l IH]; cbn [List.find list_to_map foldr fst]; [by rewrite lookup_empty|].
  case_bool_decide as Hk; cbn in Hk.
  - subst. by rewrite lookup_insert_eq.
  - by rewrite lookup_insert_ne.
Qed.
Lemma without_fst key l :
  (Lru.without key l).*1 = List.filter (fun k => negb (bool_decide (k = key))) l.*1.
Proof.
  induction l as [|[k v] l IH]; cbn; [done|]. case_bool_decide; cbn; [exact IH|by rewrite <- IH].
Qed.
Lemma without_keys key l k : k ∈ (Lru.without key l).*1 <-> k ∈ l.*1 /\ k <> key.
Proof.
  rewrite without_fst, !list_elem_of_In, filter_In. rewrite negb_true_iff, bool_decide_eq_false. done.
Qed.
Lemma without_nodup key l : NoDup l.*1 -> NoDup (Lru.without key l).*1.
Proof. rewrite without_fst, !NoDup_ListNoDup. apply List.NoDup_filter. Qed.
Lemma without_map key l :
  NoDup l.*1 -> (list_to_map (Lru.without key l) : gmap leaf_cache_key Config) = delete key (list_to_map l).
Proof.
  intros Hnd. unfold Lru.without. induction l as [|[k v] l IH]; cbn [List.filter list_to_map foldr fst snd].
  { by rewrite delete_empty. }
  apply NoDup_cons in Hnd as [Hk Hnd]. case_bool_decide as Hkey; cbn [negb].
  - subst k. rewrite delete_insert_id by by apply not_elem_of_list_to_map_1.
    rewrite IH by done. apply delete_id. by apply not_elem_of_list_to_map_1.
  - rewrite delete_insert_ne by done. rewrite <- IH by done. done.
Qed.
Lemma size_list_map l : NoDup l.*1 -> size (list_to_map l : gmap leaf_cache_key Config) = length l.
Proof.
  induction l as [|[k v] l IH]; cbn; [done|]. intros [Hk Hl]%NoDup_cons.
  rewrite map_size_insert_None; [by rewrite IH|]. by apply not_elem_of_list_to_map_1.
Qed.
Lemma list_map_snoc k v l : k ∉ l.*1 ->
  (list_to_map (l ++ [(k, v)]) : gmap leaf_cache_key Config) = <[k := v]> (list_to_map l).
Proof.
  intros Hk. rewrite list_to_map_app. cbn. rewrite insert_empty. symmetry.
  rewrite insert_union_singleton_l. apply map_union_comm.
  apply map_disjoint_singleton_l. by apply not_elem_of_list_to_map_1.
Qed.
Lemma without_length key l v : NoDup l.*1 -> (list_to_map l : gmap leaf_cache_key Config) !! key = Some v ->
  S (length (Lru.without key l)) = length l.
Proof.
  intros Hnd Hk. rewrite <- (size_list_map l) by done. rewrite <- (size_list_map (Lru.without key l)) by by apply without_nodup.
  rewrite without_map by done. rewrite map_size_delete_Some by done.
  assert (size (list_to_map l : gmap leaf_cache_key Config) <> 0); [|lia].
  rewrite map_size_non_empty_iff. intros He. by rewrite He, lookup_empty in Hk.
Qed.

Lemma new_represents capacity : represents (LeafCache.new capacity) [].
Proof. split; cbn; [done|done|constructor|lia]. Qed.
Lemma get_represents c l key : represents c l ->
  (LeafCache.get key c).1 = (Lru.get key l).1 /\ represents (LeafCache.get key c).2 (Lru.get key l).2 /\
  LeafCache.capacity (LeafCache.get key c).2 = LeafCache.capacity c.
Proof.
  intros [Hr He Hn Hb]. unfold LeafCache.get, Lru.get. rewrite He, find_key.
  destruct (list_to_map l !! key) as [v|] eqn:Hk; cbn [fmap option_fmap option_map]; [|by repeat split].
  split; [done|]. split; [|done]. cbn [fst snd].
  assert (Hkey : key ∉ (Lru.without key l).*1) by (rewrite without_keys; naive_solver).
  split; cbn [LeafCache.recency LeafCache.entries LeafCache.capacity].
  - rewrite fmap_app, without_fst, Hr. done.
  - rewrite list_map_snoc, without_map by done. by rewrite insert_delete_id.
  - rewrite fmap_app. apply NoDup_app. split; [by apply without_nodup|]. split; [|apply NoDup_singleton].
    cbn. intros x Hx ->%list_elem_of_singleton. done.
  - rewrite length_app. cbn. pose proof (without_length key l v Hn Hk). lia.
Qed.
Lemma insert_represents c l key v : represents c l -> key ∉ l.*1 ->
  represents (LeafCache.insert key v c) (Lru.insert (LeafCache.capacity c) key v l).
Proof.
  intros [Hr He Hn Hb] Hkey. unfold LeafCache.insert, Lru.insert. case_decide as Hz; [done|].
  rewrite He, size_list_map by done. rewrite Hr.
  case_decide as Hfull.
  - destruct l as [|[k w] l]; [by cbn in Hfull|]. cbn in Hn, Hkey, Hfull, Hb |- *.
    apply NoDup_cons in Hn as [Hk Hn]. apply not_elem_of_cons in Hkey as [Hne Hkey].
    split; cbn [LeafCache.recency LeafCache.entries LeafCache.capacity].
    + by rewrite fmap_app.
    + rewrite delete_insert_id by by apply not_elem_of_list_to_map_1. by rewrite list_map_snoc.
    + rewrite fmap_app. apply NoDup_app. split; [done|]. split; [|apply NoDup_singleton].
      cbn. intros x Hx ->%list_elem_of_singleton. done.
    + rewrite length_app. cbn. lia.
  - split; cbn [LeafCache.recency LeafCache.entries LeafCache.capacity].
    + by rewrite fmap_app.
    + by rewrite list_map_snoc.
    + rewrite fmap_app. apply NoDup_app. split; [done|]. split; [|apply NoDup_singleton].
      cbn. intros x Hx ->%list_elem_of_singleton. done.
    + rewrite length_app. cbn. lia.
Qed.
Lemma use_represents c l u : represents c l ->
  (cache_use c u).1 = (Lru.use (LeafCache.capacity c) l u).1 /\
  represents (cache_use c u).2 (Lru.use (LeafCache.capacity c) l u).2 /\
  LeafCache.capacity (cache_use c u).2 = LeafCache.capacity c.
Proof.
  intros Hrep. unfold cache_use, Lru.use. destruct (get_represents c l u.1 Hrep) as (Hg & Hrep' & Hcap).
  assert (Hmiss : (Lru.get u.1 l).1 = None -> (Lru.get u.1 l).2 = l /\ u.1 ∉ l.*1).
  { unfold Lru.get. rewrite find_key. destruct (list_to_map l !! u.1) eqn:E; cbn; [done|].
    intros _. split; [done|]. by apply not_elem_of_list_to_map_2 in E. }
  destruct (LeafCache.get u.1 c) as [[existing|] c'], (Lru.get u.1 l) as [[existing'|] l'];
    cbn [fst snd] in *; simplify_eq; [done|].
  destruct (Hmiss eq_refl) as [-> Hkey]. split; [done|]. split.
  - rewrite <- Hcap. by apply insert_represents.
  - unfold LeafCache.insert. case_decide; [done|]. by repeat case_match; simplify_eq.
Qed.

(** C36. The leaf cache refines a least-recently-used cache: for every capacity and every
    sequence of uses, it gives the same configurations and the same hits as a list that
    keeps the most recently used entries and drops the oldest one when full; so it never
    holds more than its capacity, and its recency queue lists its keys exactly once. *)
Theorem leaf_cache_refines_lru (capacity : nat) (us : list (leaf_cache_key * Config)) :
  let '(results, c) := run_uses cache_use (LeafCache.new capacity) us in
  let '(results', l) := run_uses (Lru.use capacity) [] us in
  results = results' /\ represents c l /\ size (LeafCache.entries c) <= capacity.
Proof.
  assert (Hrun : forall c l, represents c l -> LeafCache.capacity c = capacity ->
    (run_uses cache_use c us).1 = (run_uses (Lru.use capacity) l us).1 /\
    represents (run_uses cache_use c us).2 (run_uses (Lru.use capacity) l us).2 /\
    LeafCache.capacity (run_uses cache_use c us).2 = capacity).
  { induction us as [|u us IH]; intros c l Hrep <-; cbn [run_uses]; [done|].
    destruct (use_represents c l u Hrep) as (Hr & Hrep' & Hcap).
    destruct (cache_use c u) as [r c'], (Lru.use _ l u) as [r' l']. cbn [fst snd] in *. subst r'.
    specialize (IH c' l' Hrep' Hcap).
    destruct (run_uses cache_use c' us), (run_uses _ l' us). cbn [fst snd] in *. naive_solver. }
  destruct (Hrun _ _ (new_represents capacity) eq_refl) as (Hr & Hrep & Hcap).
  destruct (run_uses cache_use _ us) as [results c], (run_uses _ _ us) as [results' l]. cbn [fst snd] in *.
  split; [done|]. split; [done|]. destruct Hrep as [_ -> Hn Hb]. rewrite size_list_map by done. lia.
Qed.
End Refinement.

Section Acceptors.
Context `{CertificateAuthority}.
(** A configuration made for this key. *)
Definition serves (i : tls_interceptor) (key : leaf_cache_key) (config : server_config) : Prop :=
  exists serial leaf, issue serial key.1 = Ok leaf /\ accepts_chain (leaf :: ca_chain i) = true /\
    chain config = leaf :: ca_chain i /\
    alpn_protocols config = match key.2 with None => [ALPN_HTTP_2; ALPN_HTTP_1_1] | Some alpn => [alpn] end.
Definition all_serve (i : tls_interceptor) (c : LeafCache.t server_config) : Prop :=
  map_Forall (serves i) (LeafCache.entries c).

Lemma generated_serves i serial key config : generate_server_config i serial key = Ok config -> serves i key config.
Proof.
  unfold generate_server_config. destruct (issue serial key.1) as [leaf|e] eqn:Hi; mcbn; [|done].
  destruct (accepts_chain _) eqn:Ha; intros [= <-]. by exists serial, leaf.
Qed.
Lemma get_all_serve i key c : all_serve i c ->
  all_serve i (LeafCache.get key c).2 /\ forall config, (LeafCache.get key c).1 = Some config -> serves i key config.
Proof.
  intros Hc. unfold LeafCache.get. destruct (LeafCache.entries c !! key) as [config|] eqn:E; cbn; [|done].
  split; [done|]. intros ? [= <-]. by apply (Hc key).
Qed.
Lemma insert_all_serve i key config c : all_serve i c -> serves i key config -> all_serve i (LeafCache.insert key config c).
Proof.
  intros Hc Hs. unfold LeafCache.insert. repeat case_match; try done; simplify_eq; apply map_Forall_insert_2; try done.
  by apply map_Forall_delete.
Qed.
Lemma publish_all_serve i lock key config c : all_serve i c -> serves i key config ->
  all_serve i (publish_locked lock key config c).2 /\
  forall r, (publish_locked lock key config c).1 = Ok r -> serves i key r.1 /\ (r.2 = false -> r.1 = config).
Proof.
  intros Hc Hs. unfold publish_locked. destruct lock; [|by split].
  destruct (get_all_serve i key c Hc) as [Hc' Hg]. destruct (LeafCache.get key c) as [[existing|] c']; cbn [fst snd] in *.
  - split; [done|]. intros r [= <-]. split; [by apply Hg|done].
  - split; [by apply insert_all_serve|]. by intros r [= <-].
Qed.
Lemma sections_all_serve i c others : all_serve i c -> all_serve i (foldl (run_section i) c others).
Proof.
  revert c; induction others as [|s others IH]; intros c Hc; [done|]. apply IH. destruct s as [key|key serial]; cbn [run_section].
  - cbn [lookup_locked]. pose proof (get_all_serve i key c Hc) as [Hg _]. by destruct (LeafCache.get key c).
  - destruct (generate_server_config i serial key) as [config|] eqn:E; [|done].
    apply publish_all_serve; [done|]. by eapply generated_serves.
Qed.

(** A tunnel is given its own host's certificate: whatever the other tunnels did with
    the shared cache before and meanwhile, the acceptor returned for a host presents a
    chain whose leaf was issued for exactly this host, followed by the configured
    authority, and offers exactly the protocols asked for; when the cache was not hit it
    is the one just generated. *)
Theorem acceptor_serves_its_host (i : tls_interceptor) (capacity : nat) (before others : list locked_section)
    (locks : bool * bool) (serial : N) (host : target_host) (alpn : option bytes) :
  match (downstream_acceptor i locks others serial host alpn (foldl (run_section i) (LeafCache.new capacity) before)).1 with
  | Ok (config, hit) =>
      serves i (key_of host alpn) config /\
      (hit = false -> generate_server_config i serial (key_of host alpn) = Ok config)
  | Err e =>
      (e = CachePoisoned /\ locks <> (true, true)) \/ generate_server_config i serial (key_of host alpn) = Err e
  end.
Proof.
  assert (Hc : all_serve i (foldl (run_section i) (LeafCache.new capacity) before)).
  { apply sections_all_serve. apply map_Forall_empty. }
  revert Hc. generalize (foldl (run_section i) (LeafCache.new capacity) before) as c. intros c Hc.
  unfold downstream_acceptor. destruct locks as [[] lock2]; cbn [lookup_locked fst snd]; [|by left].
  destruct (get_all_serve i (key_of host alpn) c Hc) as [Hc' Hg].
  destruct (LeafCache.get _ c) as [[config|] c']; cbn [fst snd] in *; [by split; [apply Hg|]|].
  apply sections_all_serve with (others := others) in Hc'.
  destruct (generate_server_config i serial _) as [config|e] eqn:E; [|by right].
  destruct (publish_all_serve i lock2 (key_of host alpn) config _ Hc' (generated_serves _ _ _ _ E)) as [_ Hp].
  revert Hp. destruct (publish_locked _ _ _ _) as [[[config' hit]|e] c3] eqn:Ep; cbn [fst snd]; intros Hp.
  - destruct (Hp _ eq_refl) as [Hs Hmiss]. split; [done|]. cbn in Hmiss. intros ->. by rewrite Hmiss.
  - left. destruct lock2; cbn in Ep; [by destruct (LeafCache.get _ _) as [[]]|]. by injection Ep as <-.
Qed.
End Acceptors.
