(* ===== verification/Keys.v ===== *)
(** Key material (crates/freja-proxy/src/tls/material.rs, tls/interceptor.rs,
    crates/freja-audit/src/checkpoint.rs): the checks of the files that hold private
    keys, the loading of the interception authority and of the checkpoint signer, and
    the hexadecimal text of keys, signatures and digests. *)
From stdpp Require Import gmap strings.
From stdpp Require Import prelude.
From S2P Require Import Prelude Bytes Text Net Endpoint Domain PolicyModel Acl Guard Inspection AuditModel AuditSink Hooks Runtime Settings.

(** * Permissions *)

(** The mode of a file as its owner, group and others see it; access by anyone but the
    owner is refused. *)
Definition permission_bits (mode : N) : N := N.land mode 511.
Definition shared_bits (mode : N) : N := N.land mode 63.
(** [{mode:o}]. *)
Fixpoint show_octal_fuel (fuel : nat) (n : N) (acc : bytes) : bytes :=
  let acc := digit_byte (n mod 8) :: acc in
  match fuel with
  | 0 => acc
  | S fuel => if (n <? 8)%N then acc else show_octal_fuel fuel (n / 8) acc
  end.
Definition show_octal (n : N) : bytes := show_octal_fuel (N.size_nat n) n [].

(** * The interception authority *)

(** The part of [TlsError] that start-up gives. *)
Inductive tls_setup_error : Type :=
| ReadInput (input path : bytes)
| InsecurePrivateKeyPermissions (path : bytes) (mode : N)
| CaPrivateKey
| CaCertificate
| CaCertificatePem
| MissingCaCertificate.
Definition show_tls_setup_error (e : tls_setup_error) : bytes :=
  match e with
  | ReadInput input path => bs "failed to read " ++ input ++ bs " " ++ path
  | InsecurePrivateKeyPermissions path mode =>
      bs "CA private key " ++ path ++ bs " has insecure permissions " ++ show_octal mode
        ++ bs "; group and other access must be disabled"
  | CaPrivateKey => bs "failed to parse the CA private key"
  | CaCertificate | CaCertificatePem => bs "failed to parse the CA certificate"
  | MissingCaCertificate => bs "CA certificate input contains no certificate"
  end.
(** [None]: the metadata could not be read. *)
Definition validate_private_key_permissions (path : bytes) (mode : option N) : result tls_setup_error unit :=
  mode ← ok_or (ReadInput (bs "CA private key metadata") path) mode;
  let mode := permission_bits mode in
  if negb (shared_bits mode =? 0)%N then Err (InsecurePrivateKeyPermissions path mode) else Ok tt.
Inductive tls_input : Type := InputCertificate | InputPrivateKey.
(** [None]: the file could not be read as text. *)
Definition read_text (path : bytes) (input : tls_input) (content : option bytes) : result tls_setup_error bytes :=
  ok_or (ReadInput (match input with InputCertificate => bs "CA certificate" | InputPrivateKey => bs "CA private key" end) path) content.
(** [rcgen] and [rustls]: parsing of PEM. *)
Class PemLibrary : Type := {
  signing_key : Type;
  issuer : Type;
  pem_certificate : Type;
  key_from_pem : bytes -> option signing_key;
  issuer_from_ca_cert_pem : bytes -> signing_key -> option issuer;
  pem_certificates : bytes -> option (list pem_certificate) }.
Section Interceptor.
Context `{PemLibrary}.
(** [TlsInterceptor] as it is made: its empty cache is its capacity. *)
Record loaded_interceptor : Type := LoadedInterceptor {
  loaded_issuer : issuer;
  loaded_ca_chain : list pem_certificate;
  loaded_intercept_hosts : list host_pattern;
  loaded_cache_capacity : N }.
Definition from_material (ca_pem key_pem : bytes) (intercept_hosts : list host_pattern) (cache_capacity : N)
  : result tls_setup_error loaded_interceptor :=
  key ← ok_or CaPrivateKey (key_from_pem key_pem);
  issuer ← ok_or CaCertificate (issuer_from_ca_cert_pem ca_pem key);
  ca_chain ← ok_or CaCertificatePem (pem_certificates ca_pem);
  match ca_chain with
  | [] => Err MissingCaCertificate
  | _ => Ok (LoadedInterceptor issuer ca_chain intercept_hosts cache_capacity)
  end.
(** [from_config_and_roots]; [mode] and [file] answer for a path. *)
Definition from_config (mode : bytes -> option N) (file : bytes -> option bytes) (c : TlsInterceptionConfig.t)
  : result tls_setup_error loaded_interceptor :=
  let certificate := TlsInterceptionConfig.ca_certificate c in
  let private_key := TlsInterceptionConfig.ca_private_key c in
  _ ← validate_private_key_permissions private_key (mode private_key);
  ca_pem ← read_text certificate InputCertificate (file certificate);
  key_pem ← read_text private_key InputPrivateKey (file private_key);
  from_material ca_pem key_pem (TlsInterceptionConfig.intercept_hosts c) (TlsInterceptionConfig.leaf_cache_entries c).
End Interceptor.

(** * The checkpoint signer *)

Inductive checkpoint_key_error : Type :=
| CheckpointKeyRead (path : bytes)
| CheckpointKeyPermissions (path : bytes) (mode : N)
| CheckpointKeyHex
| CheckpointKeyLength
| ZeroInterval.
Definition show_checkpoint_key_error (e : checkpoint_key_error) : bytes :=
  match e with
  | CheckpointKeyRead path => bs "failed to read checkpoint key " ++ path
  | CheckpointKeyPermissions path mode => bs "checkpoint key " ++ path ++ bs " has insecure permissions " ++ show_octal mode
  | CheckpointKeyHex => bs "checkpoint key is not hexadecimal"
  | CheckpointKeyLength => bs "checkpoint key must contain exactly 32 bytes"
  | ZeroInterval => bs "checkpoint interval must be non-zero"
  end.
Definition validate_checkpoint_key_permissions (path : bytes) (mode : option N) : result checkpoint_key_error unit :=
  mode ← ok_or (CheckpointKeyRead path) mode;
  let mode := permission_bits mode in
  if negb (shared_bits mode =? 0)%N then Err (CheckpointKeyPermissions path mode) else Ok tt.
Section Signer.
Context `{Hex}.
(** [CheckpointSigner::load_hex_seed]: the seed of the signer. *)
Definition load_hex_seed (mode : bytes -> option N) (file : bytes -> option bytes) (path : bytes) : result checkpoint_key_error bytes :=
  _ ← validate_checkpoint_key_permissions path (mode path);
  input ← ok_or (CheckpointKeyRead path) (file path);
  decoded ← ok_or CheckpointKeyHex (hex_decode (trim_text input));
  if decide (length decoded = 32) then Ok decoded else Err CheckpointKeyLength.
Definition verifying_key_hex `{Ed25519} (seed : bytes) : bytes := hex_encode (verifying_key seed).
(** The text of a fixed number of bytes, in checkpoints and record hashes. *)
Inductive hex_error : Type := NotHex | ExpectedBytes (n : nat).
Definition serialize_hex (b : bytes) : bytes := hex_encode b.
Definition deserialize_hex (n : nat) (value : bytes) : result hex_error bytes :=
  decoded ← ok_or NotHex (hex_decode value);
  if decide (length decoded = n) then Ok decoded else Err (ExpectedBytes n).
Definition serialize_record_hash (h : record_hash) : bytes := hex_encode (record_hash_bytes h).
Definition deserialize_record_hash (value : bytes) : result hex_error record_hash := b ← deserialize_hex 32 value; Ok (RecordHash b).
End Signer.

(** * What is loaded *)

Section Properties.
Context `{PemLibrary, Hex}.
(** Neither the group nor others may read, write or execute the file. *)
Definition owner_only (mode : bytes -> option N) (path : bytes) : Prop :=
  exists m, mode path = Some m /\ forall k, (k < 6)%N -> N.testbit m k = false.
Lemma shared_bits_spec m : shared_bits (permission_bits m) = 0%N <-> forall k, (k < 6)%N -> N.testbit m k = false.
Proof.
  unfold shared_bits, permission_bits. rewrite <- N.land_assoc. change (N.land 511 63) with (N.ones 6). split.
  - intros Hz k Hk. apply (f_equal (fun n => N.testbit n k)) in Hz. rewrite N.land_spec, N.ones_spec_low, andb_true_r in Hz by done. by rewrite Hz, N.bits_0.
  - intros Hm. apply N.bits_inj. intros k. rewrite N.land_spec, N.bits_0. destruct (N.lt_ge_cases k 6) as [Hk|Hk].
    + by rewrite Hm.
    + by rewrite N.ones_spec_high, andb_false_r.
Qed.
Lemma private_key_Ok mode path : validate_private_key_permissions path (mode path) = Ok tt <-> owner_only mode path.
Proof.
  unfold validate_private_key_permissions, owner_only. destruct (mode path) as [m|]; cbn; [|naive_solver].
  destruct (N.eqb_spec (shared_bits (permission_bits m)) 0) as [Hz|Hz]; cbn; rewrite shared_bits_spec in Hz; naive_solver.
Qed.
Lemma checkpoint_key_Ok mode path : validate_checkpoint_key_permissions path (mode path) = Ok tt <-> owner_only mode path.
Proof.
  unfold validate_checkpoint_key_permissions, owner_only. destruct (mode path) as [m|]; cbn; [|naive_solver].
  destruct (N.eqb_spec (shared_bits (permission_bits m)) 0) as [Hz|Hz]; cbn; rewrite shared_bits_spec in Hz; naive_solver.
Qed.
(** Keys come from files that only their owner can use: a checkpoint seed is loaded
    exactly from such a file holding the hexadecimal text of 32 bytes, spaces around it
    apart, and an interceptor is made exactly from such a key and a certificate file
    that parse together and hold at least one certificate. *)
Theorem keys_load_exactly (mode : bytes -> option N) (file : bytes -> option bytes) (path seed : bytes)
    (c : TlsInterceptionConfig.t) (i : loaded_interceptor) :
  (load_hex_seed mode file path = Ok seed <->
     owner_only mode path /\ exists text, file path = Some text /\ hex_decode (trim_text text) = Some seed /\ length seed = 32) /\
  (from_config mode file c = Ok i <->
     owner_only mode (TlsInterceptionConfig.ca_private_key c) /\ loaded_ca_chain i <> [] /\
     loaded_intercept_hosts i = TlsInterceptionConfig.intercept_hosts c /\
     loaded_cache_capacity i = TlsInterceptionConfig.leaf_cache_entries c /\
     exists ca key k, file (TlsInterceptionConfig.ca_certificate c) = Some ca /\ file (TlsInterceptionConfig.ca_private_key c) = Some key /\
       key_from_pem key = Some k /\ issuer_from_ca_cert_pem ca k = Some (loaded_issuer i) /\ pem_certificates ca = Some (loaded_ca_chain i)).
Proof.
  split.
  - unfold load_hex_seed. rewrite <- checkpoint_key_Ok. split.
    + intros ([] & Hp & Hr)%bind_Ok. apply bind_Ok in Hr as (text & Ht%ok_or_Ok & Hr). apply bind_Ok in Hr as (decoded & Hd%ok_or_Ok & Hr).
      case_decide; [|done]. injection Hr as <-. eauto.
    + intros (-> & text & -> & Hd & Hlen). cbn. rewrite Hd. cbn. by rewrite decide_True.
  - unfold from_config, from_material, read_text. cbv zeta. destruct c as [ca_path key_path hosts entries].
    cbn [TlsInterceptionConfig.ca_certificate TlsInterceptionConfig.ca_private_key TlsInterceptionConfig.intercept_hosts TlsInterceptionConfig.leaf_cache_entries].
    rewrite <- private_key_Ok. split.
    + intros ([] & Hp & Hr)%bind_Ok. apply bind_Ok in Hr as (ca & Hca%ok_or_Ok & Hr). apply bind_Ok in Hr as (key & Hkey%ok_or_Ok & Hr).
      apply bind_Ok in Hr as (k & Hk%ok_or_Ok & Hr). apply bind_Ok in Hr as (signer & Hi%ok_or_Ok & Hr). apply bind_Ok in Hr as (chain & Hc%ok_or_Ok & Hr).
      destruct chain; [done|]. injection Hr as <-. cbn. eauto 12.
    + destruct i as [signer chain hosts' entries']. cbn. intros (-> & Hne & -> & -> & ca & key & k & -> & -> & Hk & Hi & Hc). cbn.
      rewrite Hk. cbn. rewrite Hi. cbn. rewrite Hc. cbn. by destruct chain.
Qed.
(** What a signer writes can be read back: the verifying key it prints is the one that
    replay parses, and the digests, keys and signatures of its checkpoints survive the
    text they are stored as. *)
Theorem checkpoint_texts_round_trip `{Ed25519} (seed : bytes) (s : AuditSequence.t) (h : record_hash) :
  (forall b, hex_decode (hex_encode b) = Some b) ->
  (forall k, length (verifying_key k) = 32) -> (forall k m, length (ed_sign k m) = 64) -> length (record_hash_bytes h) = 32 ->
  let c := sign_checkpoint seed s h in
  parse_checkpoint_public_key (verifying_key_hex seed) = Ok (public_key c) /\
  deserialize_hex 32 (serialize_hex (public_key c)) = Ok (public_key c) /\
  deserialize_hex 64 (serialize_hex (signature c)) = Ok (signature c) /\
  deserialize_record_hash (serialize_record_hash (checkpoint_hash c)) = Ok h.
Proof.
  intros Hhex Hkey Hsig Hh c.
  assert (Hrt : forall b n, length b = n -> deserialize_hex n (hex_encode b) = Ok b) by (intros b n Hn; unfold deserialize_hex; rewrite Hhex; cbn; by rewrite decide_True).
  split_and!.
  - unfold parse_checkpoint_public_key, verifying_key_hex. rewrite Hhex. cbn. by rewrite decide_True.
  - by apply Hrt, Hkey.
  - by apply Hrt, Hsig.
  - unfold deserialize_record_hash, serialize_record_hash. cbn. rewrite Hrt by done. cbn. by destruct h.
Qed.
End Properties.
