(* ===== verification/HttpMessages.v ===== *)
(** HTTP messages on their way through the forward proxy
    (crates/freja-proxy/src/http/body.rs and service/{response,hooks,body}.rs,
    runtime/hooks.rs): bodies and their bounded collection, the proxy's own responses,
    hooks and the operator's pause, preflight and streaming inspection of bodies.

    A message arrives from hyper with its head and a sequence of body frames; the wire
    capture that observes the same bytes passively is left out. *)
From stdpp Require Import gmap strings.
From stdpp Require Import prelude.
From S2P Require Import Prelude Bytes Net Endpoint Domain PolicyModel Acl Guard Inspection AuditModel AuditSink Hooks Runtime Destination FlowInspect Settings HttpHeaders Tls.

(** * Messages *)

Section Messages.
Context `{HeaderMap}.
(** [Incoming]: the frames still to come, each of which may fail or be late; the end of
    the list is the end of the body. *)
Inductive frame_answer : Type := Frame (f : body_frame) | FrameFailed | FrameLate.
Definition incoming : Type := list frame_answer.
(** Methods are their text; a version is the text it is printed as. *)
Record http_request (B : Type) : Type := MakeRequest {
  req_method : bytes; req_uri : uri; req_version : bytes; req_headers : header_map; req_body : B }.
Record http_response (B : Type) : Type := MakeResponse {
  resp_status : N; resp_version : bytes; resp_headers : header_map; resp_body : B }.
(** [HttpRequestSnapshot]. *)
Record http_request_snapshot : Type := HttpRequestSnapshot {
  snap_method : bytes; snap_uri : uri; snap_version : bytes; snap_headers : header_map; snap_body : bytes;
  maximum_head_bytes : N; maximum_body_bytes : N }.
(** The data of a body, trailers left out. *)
Fixpoint body_data (body : incoming) : list bytes :=
  match body with
  | Frame (DataFrame b) :: body => b :: body_data body
  | _ :: body => body_data body
  | [] => []
  end.
(** A body that ends without failure. *)
Definition complete (body : incoming) : bool :=
  forallb (fun a => match a with Frame _ => true | FrameFailed | FrameLate => false end) body.
End Messages.
Arguments MakeRequest {_ _}. Arguments MakeResponse {_ _}.
Arguments req_method {_ _}. Arguments req_uri {_ _}. Arguments req_version {_ _}.
Arguments req_headers {_ _}. Arguments req_body {_ _}.
Arguments resp_status {_ _}. Arguments resp_version {_ _}. Arguments resp_headers {_ _}. Arguments resp_body {_ _}.

Definition CONNECT : bytes := bs "CONNECT".
Definition HEAD : bytes := bs "HEAD".
Definition HTTP_11 : bytes := bs "HTTP/1.1".
Definition HTTP_2 : bytes := bs "HTTP/2.0".

(** * The environment of an HTTP connection *)

Inductive handshake_outcome : Type := HandshakeDone | HandshakeFailed | HandshakeTimedOut.
Inductive exchange_outcome `{HeaderMap} : Type :=
| ExchangeResponse (r : http_response incoming) | ExchangeFailed | ExchangeTimedOut.
Inductive upgrade_outcome : Type := Upgraded | UpgradeFailed | UpgradeShutdown.
Inductive downstream_outcome : Type :=
| DownstreamAccepted (alpn : option bytes) | DownstreamFailed | DownstreamTimedOut | DownstreamShutdown.
Inductive upstream_tls_outcome : Type := UpstreamTls (alpn : option bytes) | UpstreamTlsFailed | UpstreamTlsTimedOut.
Inductive connection_outcome : Type :=
| ConnectionEnded | ConnectionFailed | ConnectionShutdown | UpstreamConnectionFailed.
(** What the connection cannot decide: the engine's handshakes and exchanges, tasks,
    the operator, certificate issuance, shutdown while a body is pumped. *)
Class HttpEnvironment `{Environment, !HeaderIter, HttpLibrary, CertificateAuthority} : Type := {
  broker : option (list step -> InteractiveBroker.t http_request_snapshot);
  operator : list step -> http_request_snapshot -> operator_answer;
  interceptor : option tls_interceptor;
  acceptor_locks : list step -> bool * bool;
  other_sections : list step -> list locked_section;
  next_serial : list step -> N;
  leaf_cache : list step -> LeafCache.t server_config;
  server_name_valid : bytes -> bool;
  task_registered : list step -> bool;
  handshake : list step -> handshake_outcome;
  sender_ready : list step -> handshake_outcome;
  exchange : list step -> exchange_outcome;
  frame_interrupted : list step -> bool;
  frame_accepted : list step -> bool;
  upgrade : list step -> upgrade_outcome;
  accept_downstream : list step -> downstream_outcome;
  connect_upstream_tls : list step -> list bytes -> upstream_tls_outcome;
  exchange_shutdown : list step -> bool }.

(** * Bounded collection (http/body.rs) *)

Inductive collect_error : Type := CollectHyper | CollectReadTimedOut | LimitExceeded (observed maximum : N).
Definition show_collect_error (e : collect_error) : bytes :=
  match e with
  | CollectHyper => bs "HTTP body stream failed during preflight"
  | CollectReadTimedOut => bs "HTTP body frame read timed out"
  | LimitExceeded observed maximum =>
      bs "HTTP body preflight bytes " ++ show_N observed ++ bs " exceed configured limit " ++ show_N maximum
  end.
Section Collect.
Context `{HeaderMap}.
Fixpoint collect_from (collected : bytes) (maximum : N) (body : incoming) : result collect_error bytes :=
  match body with
  | [] => Ok collected
  | FrameLate :: _ => Err CollectReadTimedOut
  | FrameFailed :: _ => Err CollectHyper
  | Frame (TrailersFrame _) :: body => collect_from collected maximum body
  | Frame (DataFrame data) :: body =>
      let observed := sat_add (lenN collected) (lenN data) in
      if (maximum <? observed)%N then Err (LimitExceeded observed maximum)
      else collect_from (collected ++ data) maximum body
  end.
Definition collect_bounded (body : incoming) (maximum : N) : result collect_error bytes := collect_from [] maximum body.
End Collect.

(** * The proxy's own responses (service/response.rs) *)

(** What the client receives, and what is sent upstream: a body held in full, or one
    that a task pumps through inspection. *)
Section Responses.
Context `{Environment, !HeaderIter, HttpLibrary, Sha256}.
(** [BodyPumpConfig], with the pump's body and inspector; shutdown is the environment's. *)
Record body_pump : Type := BodyPump {
  pump_body : incoming;
  pump_inspection : flow_inspector;
  pump_direction : direction;
  pump_maximum : N;
  decoded_replacement_allowed : bool;
  body_may_change : bool }.
Inductive proxy_body : Type := FullBody (b : bytes) | PumpedBody (p : body_pump).
Definition full_bytes (b : proxy_body) : option bytes := match b with FullBody b => Some b | PumpedBody _ => None end.

Definition text_response (status : N) (message : bytes) : http_response proxy_body :=
  MakeResponse status HTTP_11
    (hm_insert (bs "x-content-type-options") (bs "nosniff")
       (hm_insert (bs "content-type") (bs "text/plain; charset=utf-8") hm_empty))
    (FullBody message).
(** Texts end in a line feed. *)
Definition line (text : bytes) : bytes := text ++ [LF].
Definition response_for_error (e : proxy_error) : result proxy_error (http_response proxy_body) :=
  match e with
  | PolicyDenied _ => Ok (text_response 403 (line (bs "forbidden")))
  | DetourLoop _ => Ok (text_response 500 (line (bs "invalid TCP detour policy")))
  | ConnectTimedOut _ | DnsTimedOut _ | UpstreamResponseTimedOut =>
      Ok (text_response 504 (line (bs "upstream timeout")))
  | Dns _ | NoResolvedAddresses _ | ConnectFailed _ | UpstreamHttp _ | Tls _ =>
      Ok (text_response 502 (line (bs "bad gateway")))
  | HookError _ | HookMutation _ => Ok (text_response 500 (line (bs "hook execution failed")))
  | InteractiveRejected => Ok (text_response 403 (line (bs "rejected by operator")))
  | InteractiveError _ => Ok (text_response 504 (line (bs "interactive interception failed")))
  | other => Err other
  end.
Definition quoted (b : bytes) : bytes := byte_of 34 :: b ++ [byte_of 34].
Definition challenge (a : ProxyAuthentication.t) : bytes :=
  bs "Basic realm=" ++ quoted (ProxyAuthentication.realm a) ++ bs ", charset=" ++ quoted (bs "UTF-8").
Definition proxy_authentication_required (a : ProxyAuthentication.t) : http_response proxy_body :=
  let response := text_response 407 (line (bs "proxy authentication required")) in
  if header_value (challenge a)
  then MakeResponse (resp_status response) (resp_version response)
         (hm_insert (bs "proxy-authenticate") (challenge a) (resp_headers response)) (resp_body response)
  else response.
Definition block_page : http_response proxy_body :=
  text_response 403 (line (bs "<!doctype html><title>Blocked by Freja</title><h1>Request blocked</h1>")).

(** * Header adjustments (service/body.rs, forward.rs) *)

(** A decimal length is a valid header value. *)
Definition set_content_length (m : header_map) (length : N) : header_map :=
  hm_insert CONTENT_LENGTH (show_N length) (hm_remove (bs "trailer") (hm_remove TRANSFER_ENCODING m)).
Definition remove_body_length_for_streaming_hooks (m : header_map) (body_may_change : bool) : header_map :=
  if body_may_change then hm_remove TRANSFER_ENCODING (hm_remove CONTENT_LENGTH m) else m.
Definition is_informational (status : N) : bool := (100 <=? status)%N && (status <? 200)%N.
Definition response_has_no_content (request_method : bytes) (status : N) : bool :=
  bool_decide (request_method = HEAD) || is_informational status
  || bool_decide (status ∈ [204; 205; 304]%N).
Definition normalize_no_content_headers (request_method : bytes) (status : N) (m : header_map) : header_map :=
  let m := hm_remove (bs "trailer") (hm_remove TRANSFER_ENCODING m) in
  if is_informational status || (status =? 204)%N then hm_remove CONTENT_LENGTH m
  else if (status =? 205)%N then set_content_length m 0
  else m.
Definition regenerate_host (m : header_map) (authority : bytes) : option header_map :=
  if header_value authority then Some (hm_insert (bs "host") authority m) else None.
End Responses.

(** * Hooks and the operator (service/hooks.rs, runtime/hooks.rs) *)

Section Operations.
Context `{HttpEnvironment, Sha256, Hex}.

Definition manual_action_of (r : result intercept_error interactive_decision) : manual_action :=
  match r with
  | Ok Continue => ManualContinue
  | Ok Reject => ManualReject
  | Ok (EditHeaders _) => ManualEditHeaders
  | Ok (OperatorReplaceBody _) => ManualReplaceBody
  | Ok (ModifyRequest _) => ManualModifyRequest
  | Ok CancelModification => ManualCancelModification
  | Err _ => ManualFailed
  end.
Definition interactive_http_request (c : audit_context) (request : http_request_snapshot)
  : flow (option interactive_decision) := fun w =>
  if decide (HookRunner.mode (hook_runner (history w)) = Interactive) then
    match broker with
    | None => (Err (InteractiveError InterceptChannelClosed), w)
    | Some b =>
        let r := InteractiveBroker.intercept_http_request (b (history w)) request (operator (history w) request) in
        (_ ← publish (AuditEnvelope c (ManualModification (manual_action_of r)));
         lift (map_err InteractiveError (d ← r; Ok (Some d)))) w
    end
  else (Ok None, w).
(** A head plan applied in place; the message is dropped when it is refused. *)
Definition apply_plan (m : header_map) (plan : head_plan) : flow header_map :=
  match apply_head_mutation m plan with
  | (Ok _, m) => mret m
  | (Err e, _) => fail (HookMutation e)
  end.
Definition apply_request_head_hooks (s : session_id) (t : transaction_id) (method target : bytes) (m : header_map)
  : flow header_map := fun w =>
  let runner := hook_runner (history w) in
  if decide (HookRunner.mode runner = Disabled) then (Ok m, w)
  else
    let r := HookRunner.request_head runner (HttpRequestHead method target m) in
    (c ← audit_context_ s (Some t);
     _ ← publish_hook_outcome c HookHttpRequestHead (is_ok r);
     plan ← lift (map_err HookError r);
     apply_plan m plan) w.
Definition apply_response_head_hooks (s : session_id) (t : transaction_id) (status : N) (m : header_map)
  : flow header_map := fun w =>
  let runner := hook_runner (history w) in
  if decide (HookRunner.mode runner = Disabled) then (Ok m, w)
  else
    let r := HookRunner.response_head runner (HttpResponseHead status m) in
    (c ← audit_context_ s (Some t);
     _ ← publish_hook_outcome c HookHttpResponseHead (is_ok r);
     plan ← lift (map_err HookError r);
     apply_plan m plan) w.
(** The headers of the CONNECT request as the operator leaves them; a body it sets is
    checked against a limit of zero bytes and dropped. *)
Definition pause_connect_request (s : session_id) (t : transaction_id) (limits : proxy_limits)
    (r : http_request incoming) : flow header_map := fun w =>
  if decide (HookRunner.mode (hook_runner (history w)) = Interactive) then
    (c ← audit_context_ s (Some t);
     d ← interactive_http_request c
           (HttpRequestSnapshot (req_method r) (req_uri r) (req_version r) (req_headers r) [] (header_bytes limits) 0);
     match d with
     | Some (EditHeaders plan) => apply_plan (req_headers r) plan
     | Some (OperatorReplaceBody replacement) =>
         _ ← lift (map_err HookMutation (apply_body_mutation [] (ReplaceBody replacement) 0)); mret (req_headers r)
     | Some (ModifyRequest plan) =>
         match apply_http_mutation (req_headers r) [] (plan_head plan) (plan_body plan) 0 with
         | (Ok _, m) => mret m
         | (Err e, _) => fail (HookMutation e)
         end
     | Some Reject => fail InteractiveRejected
     | Some (Continue | CancelModification) | None => mret (req_headers r)
     end) w
  else (Ok (req_headers r), w).

(** * Preflight inspection (service/body.rs) *)

Definition inspection_mode_ : flow inspection_mode := fun w =>
  (Ok (snapshot_inspection_mode (current_snapshot (history w))), w).
Definition inspect_preflight (s : session_id) (t : transaction_id) (limits : proxy_limits) (d : direction)
    (b : bytes) (target : resolved_facts) : flow bool :=
  i ← inspector_new s (Some t) Http (body_prefix_bytes limits);
  '(ok, _) ← inspector_permits (with_target i target) d b;
  mret ok.
Definition transform_preflight_body (s : session_id) (t : transaction_id) (limits : proxy_limits) (d : direction)
    (b : bytes) : flow (bytes * bool) :=
  i ← inspector_new s (Some t) Http (body_prefix_bytes limits);
  transform_http_body i d b (body_prefix_bytes limits) true.
(** [if replaced { normalize_replaced_body_headers(headers) }]. *)
Definition normalize_if (replaced : bool) (m : header_map) : header_map :=
  if replaced then normalize_replaced_body_headers m else m.

(** * Streaming inspection (service/body.rs) *)

Definition register_task : flow unit := fun w =>
  if task_registered (history w) then (Ok tt, w) else (Err TunnelRegistration, w).
Definition start_streaming_inspection (s : session_id) (t : transaction_id) (limits : proxy_limits) (body : incoming)
    (d : direction) (allowed may_change : bool) (target : resolved_facts) : flow proxy_body :=
  i ← inspector_new s (Some t) Http (body_prefix_bytes limits);
  _ ← register_task;
  mret (PumpedBody (BodyPump body (with_target i target) d (body_prefix_bytes limits) allowed may_change)).
Definition send_body_frame (f : result body_error body_frame) : flow bool := fun w =>
  if frame_accepted (history w) then (Ok true, log (FrameDelivered f) w) else (Ok false, w).
(** A last frame, after which the pump returns whether it was taken or not. *)
Definition end_with (e : body_error) : flow unit := _ ← send_body_frame (Err e); mret tt.
Fixpoint pump_loop (p : body_pump) (inspected : N) (i : flow_inspector) (body : incoming) : flow unit := fun w =>
  if frame_interrupted (history w) then (Ok tt, w)
  else
    match body with
    | [] => (Ok tt, w)
    | FrameLate :: _ => end_with BodyReadTimedOut w
    | FrameFailed :: _ => end_with BodyHyper w
    | Frame (TrailersFrame trailers) :: body =>
        if body_may_change p then pump_loop p inspected i body w
        else (taken ← send_body_frame (Ok (TrailersFrame trailers));
              if (taken : bool) then pump_loop p inspected i body else mret tt) w
    | Frame (DataFrame data) :: body =>
        let inspect_count := N.min (pump_maximum p - inspected) (lenN data) in
        (verdict ← attempt (if (0 <? inspect_count)%N
                            then inspector_permits i (pump_direction p) (takeN inspect_count data)
                            else mret (true, i));
         match verdict with
         | Err e => end_with (BodyInspection e)
         | Ok (false, _) => end_with BodyInspectionBlocked
         | Ok (true, i) =>
             let inspected := if (0 <? inspect_count)%N then sat_add inspected inspect_count else inspected in
             transformed ← attempt (transform_http_body i (pump_direction p) data (pump_maximum p)
                                      (decoded_replacement_allowed p));
             match transformed with
             | Err e => end_with (BodyInspection e)
             | Ok (output, _) =>
                 taken ← send_body_frame (Ok (DataFrame output));
                 if (taken : bool) then pump_loop p inspected i body else mret tt
             end
         end) w
    end.
Definition pump_inspected_body (p : body_pump) : flow unit := pump_loop p 0 (pump_inspection p) (pump_body p).

(** * The request body (service/body.rs) *)

(** The preflight of a request whose body was collected, with the responses for the
    ways the collection can fail. *)
Definition collected_or (too_large : bytes) (r : result collect_error bytes) : result (http_response proxy_body) bytes :=
  match r with
  | Ok b => Ok b
  | Err (LimitExceeded _ _) => Err (text_response 413 too_large)
  | Err CollectHyper => Err (text_response 400 (line (bs "request body stream failed")))
  | Err CollectReadTimedOut => Err (text_response 408 (line (bs "request body read timed out")))
  end.
Definition with_full_body (r : http_request incoming) (m : header_map) (b : bytes) : http_request proxy_body :=
  MakeRequest (req_method r) (req_uri r) (req_version r) (set_content_length m (lenN b)) (FullBody b).
Definition prepare_interactive_request (s : session_id) (t : transaction_id) (limits : proxy_limits)
    (r : http_request incoming) (interactive_uri : option uri) (target : resolved_facts)
  : flow (result (http_response proxy_body) (http_request proxy_body)) :=
  match collected_or (line (bs "request body exceeds interactive limit"))
          (collect_bounded (req_body r) (body_prefix_bytes limits)) with
  | Err response => mret (Err response)
  | Ok original =>
      permitted ← inspect_preflight s t limits HttpRequestBody original target;
      if negb permitted then mret (Err block_page)
      else
        '(body, replaced) ← transform_preflight_body s t limits HttpRequestBody original;
        let m := normalize_if replaced (req_headers r) in
        c ← audit_context_ s (Some t);
        d ← interactive_http_request c
              (HttpRequestSnapshot (req_method r) (default (req_uri r) interactive_uri) (req_version r) m body
                 (header_bytes limits) (body_prefix_bytes limits));
        match d with
        | Some (EditHeaders plan) => m ← apply_plan m plan; mret (Ok (with_full_body r m body))
        | Some (OperatorReplaceBody replacement) =>
            body ← lift (map_err HookMutation
                          (apply_body_mutation body (ReplaceBody replacement) (body_prefix_bytes limits)));
            mret (Ok (with_full_body r (normalize_replaced_body_headers m) body))
        | Some (ModifyRequest plan) =>
            match apply_http_mutation m body (plan_head plan) (plan_body plan) (body_prefix_bytes limits) with
            | (Ok body, m) => mret (Ok (with_full_body r m body))
            | (Err e, _) => fail (HookMutation e)
            end
        | Some Reject => fail InteractiveRejected
        | Some (Continue | CancelModification) | None => mret (Ok (with_full_body r m body))
        end
  end.
Definition CONTENT_ENCODING : bytes := bs "content-encoding".
Definition prepare_request_body (s : session_id) (t : transaction_id) (limits : proxy_limits)
    (r : http_request incoming) (interactive_uri : option uri) (target : resolved_facts)
  : flow (result (http_response proxy_body) (http_request proxy_body)) := fun w =>
  let runner := hook_runner (history w) in
  if decide (HookRunner.mode runner = Interactive)
  then prepare_interactive_request s t limits r interactive_uri target w
  else
    (mode ← inspection_mode_;
     match mode with
     | Preflight =>
         match collected_or (line (bs "request body exceeds preflight limit"))
                 (collect_bounded (req_body r) (body_prefix_bytes limits)) with
         | Err response => mret (Err response)
         | Ok b =>
             permitted ← inspect_preflight s t limits HttpRequestBody b target;
             if negb permitted then mret (Err block_page)
             else
               '(output, replaced) ← transform_preflight_body s t limits HttpRequestBody b;
               mret (Ok (with_full_body r (normalize_if replaced (req_headers r)) output))
         end
     | Streaming =>
         let may_change := HookRunner.may_mutate_request_body runner in
         let allowed := negb (contains_key (req_headers r) CONTENT_ENCODING) in
         if may_change && negb allowed
         then mret (Err (text_response 422 (line (bs "content-encoded body hooks require preflight mode"))))
         else
           let m := remove_body_length_for_streaming_hooks (normalize_if may_change (req_headers r)) may_change in
           body ← start_streaming_inspection s t limits (req_body r) HttpRequestBody allowed may_change target;
           mret (Ok (MakeRequest (req_method r) (req_uri r) (req_version r) m body))
     end) w.
End Operations.
