(* ===== verification/HttpService.v ===== *)
(** The HTTP forward service (crates/freja-proxy/src/http/service.rs and
    service/{forward,connect,intercept}.rs): a request from its head to the response the
    client gets, CONNECT tunnels, and requests inside an intercepted tunnel.

    Tasks a request starts are values of its result: the pump inside a streamed body,
    and the tunnel of a CONNECT. *)
From stdpp Require Import gmap strings.
From stdpp Require Import prelude.
From S2P Require Import Prelude Bytes Net Endpoint Domain PolicyModel Acl Guard Inspection AuditModel AuditSink Hooks Runtime Destination FlowInspect Relay Settings TcpSession HttpHeaders Tls HttpMessages.

Inductive intercepted_protocol : Type := Http1 | Http2.
#[export] Instance intercepted_protocol_eq_dec : EqDecision intercepted_protocol.
Proof. solve_decision. Defined.
Definition http_version (p : intercepted_protocol) : bytes := match p with Http1 => HTTP_11 | Http2 => HTTP_2 end.
Definition tunnel_error_outcome (e : proxy_error) : flow_outcome :=
  match e with
  | RelayRead _ | RelayWrite _ => OutRelayFailure
  | ShutdownError => OutShutdown
  | _ => OutTunnelFailure
  end.
Definition intercepted_tunnel_error_outcome (e : proxy_error) : flow_outcome :=
  match e with
  | Tls DownstreamHandshake => OutTlsClientRejected
  | Tls DownstreamHandshakeTimedOut => OutTlsClientTimeout
  | Tls (UpstreamHandshake _) => OutTlsUpstreamRejected
  | Tls (ApplicationProtocolMismatch _ _) | Tls (UnsupportedApplicationProtocol _) => OutTlsAlpnRejected
  | UpstreamResponseTimedOut => OutTlsUpstreamTimeout
  | other => tunnel_error_outcome other
  end.
Definition validate_intercepted_alpn (downstream upstream : option bytes) : result proxy_error unit :=
  let h2 := Some ALPN_HTTP_2 in
  let h1 := Some ALPN_HTTP_1_1 in
  if (bool_decide (downstream = h2) && bool_decide (upstream = h2))
     || (bool_decide (downstream ∈ [h1; None]) && bool_decide (upstream ∈ [h1; None]))
  then Ok tt
  else Err (Tls (ApplicationProtocolMismatch (utf8_lossy <$> downstream) (utf8_lossy <$> upstream))).

(** [HttpService], without its channels: tasks are registered by the environment. *)
Record http_service : Type := HttpService {
  service_peer : socket_addr;
  service_session : session_id;
  connect_port_rule : RuleId.t;
  service_listener : HttpForwardListener.t;
  service_limits : proxy_limits }.

Section Service.
Context `{HttpEnvironment, Sha256, Hex}.
Implicit Types (v : http_service) (t : transaction_id).

(** What a task spawned for a CONNECT runs. *)
Inductive tunnel : Type :=
| PlainTunnel (target : resolved_facts) (limits : relay_limits)
| InterceptedTunnel (acceptor : server_config) (target : forward_target) (selected : socket_addr).

(** * Policy (forward.rs) *)

Fixpoint judge_addresses v t (snapshot : policy_snapshot) (requested : requested_facts) (method path : bytes)
    (m : SanitizedHeaders.t) (addresses : list socket_addr) (first_denial : option Decision.t)
  : flow (option Decision.t) :=
  match addresses with
  | [] => mret first_denial
  | address :: addresses =>
      let facts := http_request_facts_new (ResolvedTargetFacts requested (sa_ip address)) method path m in
      c ← audit_context_ (service_session v) (Some t);
      _ ← publish_replay_facts c (ReplayHttpRequest facts);
      let '(decision, definition) := Acl.evaluate_with_definition (snapshot_policy snapshot) (HttpRequest facts) in
      c ← audit_context_ (service_session v) (Some t);
      _ ← publish_decision c decision (definition, enforcement snapshot) (EvaluatedResolved (request_target facts));
      judge_addresses v t snapshot requested method path m addresses (remember_denial snapshot decision first_denial)
  end.
(** The response that ends the request, if any. *)
Definition evaluate_http_policy v (requested : requested_facts) (addresses : list socket_addr) t
    (method path : bytes) (m : header_map) : flow (option (http_response proxy_body)) :=
  snapshot ← decision_snapshot;
  first_denial ← judge_addresses v t snapshot requested method path (policy_headers m) addresses None;
  match first_denial with
  | Some decision =>
      _ ← record_action (service_session v) (Some t) decision;
      mret (Some (text_response 403 (line (bs "forbidden"))))
  | None => mret None
  end.
Definition status_code (status : N) : flow HttpStatusCode.t :=
  lift (map_err (fun _ => InvalidHttpStatus) (HttpStatusCode.new status)).
Definition evaluate_http_response_policy v t (requested : requested_facts) (selected : socket_addr)
    (r : http_response incoming) : flow bool :=
  snapshot ← decision_snapshot;
  status ← status_code (resp_status r);
  let facts := HttpResponseFacts (ResolvedTargetFacts requested (sa_ip selected)) status (policy_headers (resp_headers r)) in
  c ← audit_context_ (service_session v) (Some t);
  _ ← publish_replay_facts c (ReplayHttpResponse facts);
  let '(decision, definition) := Acl.evaluate_with_definition (snapshot_policy snapshot) (HttpResponse facts) in
  c ← audit_context_ (service_session v) (Some t);
  _ ← publish_decision c decision (definition, enforcement snapshot) (EvaluatedResolved (response_target facts));
  if permits snapshot decision then mret true
  else _ ← record_action (service_session v) (Some t) decision; mret false.

(** * The response (forward.rs) *)

Definition preflight_response v t (requested_target : resolved_facts) (r : http_response incoming)
  : flow (http_response proxy_body) :=
  match collect_bounded (resp_body r) (body_prefix_bytes (service_limits v)) with
  | Err CollectReadTimedOut => mret (text_response 504 (line (bs "upstream body read timed out")))
  | Err e => mret (text_response 502 (show_collect_error e))
  | Ok b =>
      permitted ← inspect_preflight (service_session v) t (service_limits v) HttpResponseBody b requested_target;
      if negb permitted then mret block_page
      else
        '(output, replaced) ← transform_preflight_body (service_session v) t (service_limits v) HttpResponseBody b;
        mret (MakeResponse (resp_status r) (resp_version r)
                (set_content_length (normalize_if replaced (resp_headers r)) (lenN output)) (FullBody output))
  end.
Definition streaming_response v t (requested_target : resolved_facts) (r : http_response incoming)
  : flow (http_response proxy_body) := fun w =>
  let may_change := HookRunner.may_mutate_response_body (hook_runner (history w)) in
  let allowed := negb (contains_key (resp_headers r) CONTENT_ENCODING) in
  if may_change && negb allowed
  then (Ok (text_response 502 (line (bs "content-encoded response hooks require preflight mode"))), w)
  else
    let m := remove_body_length_for_streaming_hooks (normalize_if may_change (resp_headers r)) may_change in
    (body ← start_streaming_inspection (service_session v) t (service_limits v) (resp_body r) HttpResponseBody
              allowed may_change requested_target;
     mret (MakeResponse (resp_status r) (resp_version r) m body)) w.
Definition finish_response v t (r : http_response incoming) (requested : requested_facts) (selected : socket_addr)
    (request_method : bytes) : flow (http_response proxy_body) :=
  match validate (resp_headers r) (header_bytes (service_limits v)) with
  | Err e => mret (text_response 502 (show_header_error e))
  | Ok _ =>
      permitted ← evaluate_http_response_policy v t requested selected r;
      if negb permitted then mret block_page
      else
        m ← apply_response_head_hooks (service_session v) t (resp_status r) (resp_headers r);
        match strip_hop_by_hop m with
        | Err e => mret (text_response 502 (show_header_error e))
        | Ok m =>
            if response_has_no_content request_method (resp_status r)
            then mret (MakeResponse (resp_status r) (resp_version r)
                         (normalize_no_content_headers request_method (resp_status r) m) (FullBody []))
            else
              let r := MakeResponse (resp_status r) (resp_version r) m (resp_body r) in
              let target := ResolvedTargetFacts requested (sa_ip selected) in
              mode ← inspection_mode_;
              match mode with
              | Preflight => preflight_response v t target r
              | Streaming => streaming_response v t target r
              end
        end
  end.

(** * Sending (forward.rs, intercept.rs) *)

Definition request_sent (r : http_request proxy_body) : step :=
  RequestSent (req_method r) (uri_text (req_uri r)) (req_version r) (hm_iter (req_headers r)) (full_bytes (req_body r)).
(** [timeout(idle_timeout, sender.send_request(request))], the stage of a failure. *)
Definition send_request (stage : bytes) (r : http_request proxy_body) : flow (http_response incoming) := fun w =>
  let w := log (request_sent r) w in
  match exchange (history w) with
  | ExchangeResponse response => (Ok response, w)
  | ExchangeFailed => (Err (UpstreamHttp stage), w)
  | ExchangeTimedOut => (Err UpstreamResponseTimedOut, w)
  end.
Definition establish_http_sender : flow unit := fun w =>
  match handshake (history w) with
  | HandshakeFailed => (Err (UpstreamHttp (bs "handshake")), w)
  | HandshakeTimedOut => (Err UpstreamResponseTimedOut, w)
  | HandshakeDone => register_task w
  end.
Definition send_upstream_request (r : http_request proxy_body) : flow (http_response incoming) :=
  _ ← establish_http_sender; send_request (bs "request") r.

(** [timeout(connect_timeout, interceptor.connect_upstream(..))] (tls/interceptor.rs):
    [None] when it is the timeout that ends it, the negotiated protocol otherwise. *)
Definition connect_upstream (host : target_host) (downstream_alpn : option bytes) : flow (option (option bytes)) := fun w =>
  match upstream_protocols (server_name_valid (TargetHost.as_host_text host)) host downstream_alpn with
  | Err e => (Err (Tls e), w)
  | Ok protocols =>
      match connect_upstream_tls (history w) protocols with
      | UpstreamTls alpn => (Ok (Some alpn), w)
      | UpstreamTlsFailed => (Err (Tls (UpstreamHandshake (TargetHost.show host))), w)
      | UpstreamTlsTimedOut => (Ok None, w)
      end
  end.

(** * Forwarding (forward.rs) *)

(** [match m { Ok(a) => a, Err(error) => return h(error) }]. *)
Definition or_else {A B} (m : flow A) (h : proxy_error -> flow B) (k : A -> flow B) : flow B :=
  r ← attempt m;
  match r with
  | Ok a => k a
  | Err e => h e
  end.
Definition refuse (e : proxy_error) : flow (http_response proxy_body) := lift (response_for_error e).
(** From the moment an upstream is chosen: hooks, the body, the exchange. *)
Definition finish_forward v t (r : http_request incoming) (authority : bytes) (invalid_authority : bytes)
    (repeat_uri : option uri) (requested : requested_facts) (selected : socket_addr)
    (exchange_with : http_request proxy_body -> (http_response incoming -> flow (http_response proxy_body)) ->
                     flow (http_response proxy_body))
  : flow (http_response proxy_body) :=
  m ← apply_request_head_hooks (service_session v) t (req_method r) (uri_text (req_uri r)) (req_headers r);
  match regenerate_host m authority with
  | None => mret (text_response 400 invalid_authority)
  | Some m =>
      let r := MakeRequest (req_method r) (req_uri r) (req_version r) m (req_body r) in
      let resolved := ResolvedTargetFacts requested (sa_ip selected) in
      prepared ← prepare_request_body (service_session v) t (service_limits v) r repeat_uri resolved;
      match prepared with
      | Err response => mret response
      | Ok request =>
          exchange_with request (fun response => finish_response v t response requested selected (req_method r))
      end
  end.
Definition requested_by v (target : forward_target) : requested_facts :=
  RequestedTargetFacts (sa_ip (service_peer v)) (forward_host target) (forward_port target) Http.
Definition forward v t (r : http_request incoming) : flow (http_response proxy_body) :=
  match validate (req_headers r) (header_bytes (service_limits v)) with
  | Err e => mret (text_response 400 (show_header_error e))
  | Ok _ =>
  match from_absolute (req_uri r) with
  | Err e => mret (text_response 400 (show_target_error e))
  | Ok target =>
      let repeat_uri := Some (req_uri r) in
      let policy_path :=
        match origin_uri target with None => bs "/" | Some u => default (bs "/") (path_and_query u) end in
  match strip_hop_by_hop (req_headers r) with
  | Err e => mret (text_response 400 (show_header_error e))
  | Ok m =>
  match regenerate_host m (forward_authority target) with
  | None => mret (text_response 400 (bs "invalid target authority"))
  | Some m =>
      let r := MakeRequest (req_method r) (default (req_uri r) (origin_uri target)) HTTP_11 m (req_body r) in
      let requested := requested_by v target in
      or_else (authorize_and_resolve requested (service_session v) (Some t)) refuse (fun addresses =>
      denied ← evaluate_http_policy v requested addresses t (req_method r) policy_path (req_headers r);
      match denied with
      | Some response => mret response
      | None =>
          or_else (connect_any addresses) refuse (fun selected =>
          finish_forward v t r (forward_authority target) (bs "invalid target authority") repeat_uri requested selected
            (fun request k => or_else (send_upstream_request request) refuse k))
      end)
  end end end end.

(** A request inside an intercepted tunnel, which goes to the tunnel's own upstream. *)
Definition intercepted_upstream_uri (p : intercepted_protocol) (authority path : bytes) : option uri :=
  match p with
  | Http1 => parse_uri path
  | Http2 => build_uri (bs "https") authority path
  end.
Definition canonical_intercepted_uri (authority path : bytes) : option uri := build_uri (bs "https") authority path.
(** [InterceptedUpstreamSender::send_request] under the idle timeout. *)
Definition send_intercepted (p : intercepted_protocol) (r : http_request proxy_body) : flow (http_response incoming) := fun w =>
  match sender_ready (history w) with
  | HandshakeFailed =>
      (Err (UpstreamHttp (match p with
                          | Http1 => bs "intercepted HTTP/1 readiness"
                          | Http2 => bs "intercepted HTTP/2 readiness"
                          end)), w)
  | HandshakeTimedOut => (Err UpstreamResponseTimedOut, w)
  | HandshakeDone =>
      send_request (match p with
                    | Http1 => bs "intercepted HTTP/1 request"
                    | Http2 => bs "intercepted HTTP/2 request"
                    end) r w
  end.
Definition forward_intercepted v (target : forward_target) (selected : socket_addr) t (p : intercepted_protocol)
    (r : http_request incoming) : flow (http_response proxy_body) :=
  if decide (req_method r = CONNECT)
  then mret (text_response 405 (line (bs "nested CONNECT is not supported")))
  else
  match validate (req_headers r) (header_bytes (service_limits v)) with
  | Err e => mret (text_response 400 (show_header_error e))
  | Ok _ =>
      let path := default (bs "/") (path_and_query (req_uri r)) in
      let repeat_uri := canonical_intercepted_uri (forward_authority target) path in
  match strip_hop_by_hop (req_headers r) with
  | Err e => mret (text_response 400 (show_header_error e))
  | Ok m =>
  match regenerate_host m (forward_authority target) with
  | None => mret (text_response 400 (bs "invalid CONNECT authority"))
  | Some m =>
  match intercepted_upstream_uri p (forward_authority target) path with
  | None => mret (text_response 400 (bs "invalid intercepted request target"))
  | Some u =>
      let r := MakeRequest (req_method r) u (http_version p) m (req_body r) in
      let requested := requested_by v target in
      denied ← evaluate_http_policy v requested [selected] t (req_method r) path (req_headers r);
      match denied with
      | Some response => mret response
      | None =>
          finish_forward v t r (forward_authority target) (bs "invalid CONNECT authority") repeat_uri requested selected
            (fun request k => response ← send_intercepted p request; k response)
      end
  end end end end.

(** * CONNECT (connect.rs) *)

Definition connect_port_denial v (p : Port.t) (snapshot : policy_snapshot) : Decision.t :=
  Decision.new (HttpReject Forbidden) (Acl.generation (snapshot_policy snapshot)) StageHttpRequest
    (Some (connect_port_rule v)) [MatchReason (bs "connect-port-allowlist") (Port.show p)].
Definition start_connect_tunnel v (selected : socket_addr) (target : forward_target) t : flow tunnel :=
  let plain := PlainTunnel (ResolvedTargetFacts (requested_by v target) (sa_ip selected)) (relay_limits_of (service_limits v)) in
  match interceptor with
  | None => mret plain
  | Some i =>
      if should_intercept i (forward_host target) then fun w =>
        let h := history w in
        (acceptor ← lift (map_err Tls
           (downstream_acceptor i (acceptor_locks h) (other_sections h) (next_serial h) (forward_host target) None (leaf_cache h)).1);
         _ ← publish_event (service_session v) (Some t)
               (TlsCertificateGenerated (TargetHost.show (forward_host target)) acceptor.2);
         mret (InterceptedTunnel acceptor.1 target selected)) w
      else mret plain
  end.
(** The early responses of a CONNECT start no tunnel. *)
Definition no_tunnel (m : flow (http_response proxy_body)) : flow (http_response proxy_body * option tunnel) :=
  r ← m; mret (r, None).
(** The part of [connect] that refuses ports outside the allowlist. *)
Definition check_connect_port v t (target : forward_target) : flow (option (http_response proxy_body)) :=
  if HttpForwardListener.allows_connect_port (service_listener v) (forward_port target) then mret None
  else
    snapshot ← decision_snapshot;
    let decision := connect_port_denial v (forward_port target) snapshot in
    c ← audit_context_ (service_session v) (Some t);
    _ ← publish_decision c decision
          (DefConnectPorts (HttpForwardListener.connect_ports (service_listener v)), enforcement snapshot)
          (EvaluatedRequested (requested_by v target));
    if permits snapshot decision then mret None
    else
      _ ← record_action (service_session v) (Some t) decision;
      response ← lift (response_for_error (PolicyDenied decision));
      mret (Some response).
Definition connect_service v t (r : http_request incoming) : flow (http_response proxy_body * option tunnel) :=
  match validate (req_headers r) (header_bytes (service_limits v)) with
  | Err e => no_tunnel (mret (text_response 400 (show_header_error e)))
  | Ok _ =>
      m ← apply_request_head_hooks (service_session v) t (req_method r) (uri_text (req_uri r)) (req_headers r);
      let r := MakeRequest (req_method r) (req_uri r) (req_version r) m (req_body r) in
      m ← pause_connect_request (service_session v) t (service_limits v) r;
      match from_connect (req_uri r) with
      | Err e => no_tunnel (mret (text_response 400 (show_target_error e)))
      | Ok target =>
          refused ← check_connect_port v t target;
          match refused with
          | Some response => no_tunnel (mret response)
          | None =>
              let requested := requested_by v target in
              or_else (authorize_and_resolve requested (service_session v) (Some t)) (fun e => no_tunnel (refuse e)) (fun addresses =>
              denied ← evaluate_http_policy v requested addresses t CONNECT (forward_authority target) m;
              match denied with
              | Some response => no_tunnel (mret response)
              | None =>
                  or_else (connect_any addresses) (fun e => no_tunnel (refuse e)) (fun selected =>
                  handle ← start_connect_tunnel v selected target t;
                  _ ← register_task;
                  mret (text_response 200 [], Some handle))
              end)
          end
      end
  end.

(** * One transaction (service.rs) *)

Definition audit_request v t {B} (r : http_request B) : flow unit :=
  _ ← publish_http_event (service_session v) t (req_method r) (uri_text (req_uri r)) (req_version r)
        (presentation_headers (req_headers r));
  publish_event (service_session v) (Some t)
    (HttpRequestObserved (req_method r) (uri_text (req_uri r)) (audit_headers (req_headers r))).
Definition audit_response v t (status : HttpStatusCode.t) (m : gmap bytes (list bytes)) : flow unit :=
  publish_event (service_session v) (Some t) (HttpResponseObserved status m).
(** The end of [handle] and [handle_intercepted]. *)
Definition conclude_response v t (r : result proxy_error (http_response proxy_body)) : flow (http_response proxy_body) :=
  response ← lift (match r with Ok response => Ok response | Err e => response_for_error e end);
  status ← status_code (resp_status response);
  _ ← publish_http_response_event (service_session v) t status (resp_version response)
        (presentation_headers (resp_headers response));
  _ ← audit_response v t status (audit_headers (resp_headers response));
  mret response.
Definition proxy_authentication v t (r : http_request incoming) : flow (option (http_response proxy_body)) :=
  match HttpForwardListener.authentication (service_listener v) with
  | None => mret None
  | Some authentication =>
      let authenticated := authenticate_proxy_request (req_headers r) authentication in
      _ ← publish_event (service_session v) (Some t)
            (ProxyAuthentication_ (if authenticated then Accepted else Rejected));
      if authenticated then mret None
      else
        let response := proxy_authentication_required authentication in
        status ← status_code (resp_status response);
        _ ← audit_response v t status (audit_headers (resp_headers response));
        mret (Some response)
  end.
(** [handle]: the response, and the tunnel it leaves running. *)
Definition handle v t (r : http_request incoming) : flow (http_response proxy_body * option tunnel) :=
  _ ← audit_request v t r;
  refused ← proxy_authentication v t r;
  match refused with
  | Some response => mret (response, None)
  | None =>
      answer ← attempt (if decide (req_method r = CONNECT) then connect_service v t r
                        else no_tunnel (forward v t r));
      let '(response, handle) :=
        match answer with Ok (response, handle) => (Ok response, handle) | Err e => (Err e, None) end in
      response ← conclude_response v t response;
      mret (response, handle)
  end.
Definition handle_intercepted v (target : forward_target) (selected : socket_addr) t (p : intercepted_protocol)
    (r : http_request incoming) : flow (http_response proxy_body) :=
  _ ← audit_request v t r;
  answer ← attempt (forward_intercepted v target selected t p r);
  conclude_response v t answer.

(** * Tunnels (connect.rs, intercept.rs) *)

Definition run_tunnel (s : session_id) t (target : resolved_facts) (limits : relay_limits) (schedule : list branch)
  : flow (option unit) := fun w =>
  match upgrade (history w) with
  | UpgradeShutdown => (Err ShutdownError, w)
  | UpgradeFailed => (Err HttpUpgrade, w)
  | Upgraded =>
      (i ← inspector_new s (Some t) Tcp (preflight_bytes limits);
       r ← attempt (relay limits (Some (with_target i target)) schedule);
       match r with
       | Ok None => mret None
       | Ok (Some r) =>
           _ ← publish_event s (Some t)
                 (TunnelClosed (up_bytes (stats r)) (down_bytes (stats r)) (termination_outcome (termination r)));
           mret (Some tt)
       | Err e =>
           _ ← publish_event s (Some t) (TunnelClosed 0 0 (tunnel_error_outcome e));
           fail e
       end) w
  end.
End Service.
