(* ===== verification/HttpSafety.v ===== *)
(** What an HTTP transaction can do: its audit trail, the addresses it may contact, the
    headers of the requests it sends. *)
From stdpp Require Import gmap strings.
From stdpp Require Import prelude.
From S2P Require Import Prelude Bytes Net Endpoint Domain PolicyModel Acl Guard Inspection AuditModel AuditSink Hooks Runtime Destination FlowInspect Relay Settings TcpSession HttpHeaders Tls HttpMessages HttpService.

(** * Bounds on the parts of a transaction *)

Lemma only_any_event `{Environment} (P : step -> Prop) s t e :
  (forall c answer, P (Audited (AuditEnvelope c e) answer)) -> only P (publish_event s t e).
Proof. intros HP. unfold publish_event. apply only_bind; [apply only_context|intros; apply only_publish; auto]. Qed.

Section Parts.
Context `{HttpEnvironment, Sha256, Hex} (P : step -> Prop).
Context (P_audited : forall e answer, lifecycle (envelope_event e) = false -> P (Audited e answer)).
Context (P_observed : forall e, vouches e -> P (Observed e)).

Lemma only_event s t e : lifecycle e = false -> only P (publish_event s t e).
Proof. intros He. unfold publish_event. apply only_bind; [apply only_context|intros; apply only_quiet; auto]. Qed.
Lemma only_quiet_publish c e : lifecycle e = false -> only P (publish (AuditEnvelope c e)).
Proof. intros He. by apply only_quiet. Qed.
#[local] Hint Resolve only_event only_quiet_publish only_observe only_permits : only.
Ltac quiet := unfold record_action, publish_decision, publish_replay_facts, publish_hook_outcome,
  publish_http_event, publish_http_response_event; only_auto.

Lemma only_apply_plan m plan : only P (apply_plan m plan).
Proof. unfold apply_plan. quiet. Qed.
#[local] Hint Resolve only_apply_plan : only.
Lemma only_interactive c r : only P (interactive_http_request c r).
Proof.
  intros w. unfold interactive_http_request. case_decide; [|by apply only_ret].
  destruct broker; [|by apply only_fail]. apply (only_bind P); intros; quiet.
Qed.
#[local] Hint Resolve only_interactive : only.
Lemma only_request_head_hooks s t method target m : only P (apply_request_head_hooks s t method target m).
Proof. intros w. unfold apply_request_head_hooks. case_decide; [by apply only_ret|]. apply (only_bind P); intros; quiet. Qed.
Lemma only_response_head_hooks s t status m : only P (apply_response_head_hooks s t status m).
Proof. intros w. unfold apply_response_head_hooks. case_decide; [by apply only_ret|]. apply (only_bind P); intros; quiet. Qed.
Lemma only_pause s t limits r : only P (pause_connect_request s t limits r).
Proof. intros w. unfold pause_connect_request. case_decide; [|by apply only_ret]. apply (only_bind P); intros; quiet. Qed.
Lemma only_mode : only P inspection_mode_.
Proof. by apply only_pure. Qed.
Lemma only_inspector s t p maximum : only P (inspector_new s t p maximum).
Proof. by apply only_pure. Qed.
#[local] Hint Resolve only_request_head_hooks only_response_head_hooks only_pause only_mode only_inspector : only.
Lemma only_transform_body i d b maximum allowed : only P (transform_http_body i d b maximum allowed).
Proof.
  intros w. unfold transform_http_body. case_decide; [by apply only_ret|].
  destruct d; try (by apply only_ret); apply (only_bind P); intros; quiet.
Qed.
#[local] Hint Resolve only_transform_body : only.
Lemma only_inspect_preflight s t limits d b target : only P (inspect_preflight s t limits d b target).
Proof. unfold inspect_preflight. quiet. Qed.
Lemma only_transform_preflight s t limits d b : only P (transform_preflight_body s t limits d b).
Proof. unfold transform_preflight_body. quiet. Qed.
Lemma only_register : only P register_task.
Proof. intros w. exists []. rewrite app_nil_r. split; [|done]. unfold register_task. by destruct (task_registered _). Qed.
#[local] Hint Resolve only_inspect_preflight only_transform_preflight only_register : only.
Lemma only_start_streaming s t limits body d allowed may_change target :
  only P (start_streaming_inspection s t limits body d allowed may_change target).
Proof. unfold start_streaming_inspection. quiet. Qed.
#[local] Hint Resolve only_start_streaming : only.
Lemma only_prepare_interactive s t limits r u target : only P (prepare_interactive_request s t limits r u target).
Proof. unfold prepare_interactive_request. quiet. Qed.
#[local] Hint Resolve only_prepare_interactive : only.
Lemma only_prepare s t limits r u target : only P (prepare_request_body s t limits r u target).
Proof.
  intros w. unfold prepare_request_body. case_decide; [by apply only_prepare_interactive|].
  apply (only_bind P); [apply only_mode|]. intros mode. quiet.
Qed.
#[local] Hint Resolve only_prepare : only.
Lemma only_judge v t snapshot requested method path m addresses denial :
  only P (judge_addresses v t snapshot requested method path m addresses denial).
Proof.
  revert denial; induction addresses as [|a addresses IH]; intros denial; cbn [judge_addresses]; quiet; apply IH.
Qed.
#[local] Hint Resolve only_judge : only.
Lemma only_http_policy v requested addresses t method path m :
  only P (evaluate_http_policy v requested addresses t method path m).
Proof. unfold evaluate_http_policy. quiet. Qed.
Lemma only_status status : only P (status_code status).
Proof. apply only_lift. Qed.
#[local] Hint Resolve only_http_policy only_status : only.
Lemma only_response_policy v t requested selected r : only P (evaluate_http_response_policy v t requested selected r).
Proof. unfold evaluate_http_response_policy. quiet. Qed.
#[local] Hint Resolve only_response_policy : only.
Lemma only_finish_response v t r requested selected method : only P (finish_response v t r requested selected method).
Proof.
  unfold finish_response, preflight_response. quiet. intros w. unfold streaming_response.
  destruct (_ && _); [by apply only_ret|]. apply (only_bind P); intros; quiet.
Qed.
Lemma only_send stage r : P (request_sent r) -> only P (send_request stage r).
Proof.
  intros Hr. apply (only_log _ _ (request_sent r)); [done|]. intros w. unfold send_request. by destruct (exchange _).
Qed.
Lemma only_send_intercepted p r : P (request_sent r) -> only P (send_intercepted p r).
Proof.
  intros Hr w. unfold send_intercepted. destruct (sender_ready _); [|by apply only_fail..].
  destruct p; by apply only_send.
Qed.
Lemma only_send_upstream r : P (request_sent r) -> only P (send_upstream_request r).
Proof.
  intros Hr. unfold send_upstream_request. apply only_bind; [|intros; by apply only_send].
  intros w. unfold establish_http_sender. destruct (handshake _); [apply only_register|by apply only_fail..].
Qed.
Lemma only_or_else {A B} (m : flow A) (h : proxy_error -> flow B) k :
  only P m -> (forall e, only P (h e)) -> (forall a, only P (k a)) -> only P (or_else m h k).
Proof. intros. unfold or_else. apply only_bind; [by apply only_attempt|]. by intros []. Qed.
Lemma only_refuse e : only P (refuse e).
Proof. apply only_lift. Qed.
Lemma only_no_tunnel m : only P m -> only P (no_tunnel m).
Proof. intros. unfold no_tunnel. apply only_bind; [done|intros; apply only_ret]. Qed.
Lemma only_start_tunnel v selected target t : only P (start_connect_tunnel v selected target t).
Proof.
  unfold start_connect_tunnel. destruct interceptor as [i|]; [|apply only_ret].
  destruct (should_intercept _ _); [|apply only_ret]. intros w. apply (only_bind P); intros; quiet.
Qed.
Lemma only_check_port v t target : only P (check_connect_port v t target).
Proof. unfold check_connect_port. quiet. Qed.
Context (P_any : forall e answer, P (Audited e answer)).
Lemma only_audit_request v t {B} (r : http_request B) : only P (audit_request v t r).
Proof. unfold audit_request. apply only_bind; [quiet|intros; by apply only_any_event]. Qed.
Lemma only_conclude v t r : only P (conclude_response v t r).
Proof.
  unfold conclude_response, audit_response. apply only_bind; [apply only_lift|intros response].
  apply only_bind; [apply only_status|intros status]. apply only_bind; [quiet|intros _].
  apply only_bind; [by apply only_any_event|intros; apply only_ret].
Qed.
End Parts.

(** * Headers of sent requests *)

Definition HOST : bytes := bs "host".
Section Clean.
Context `{HeaderIter, !HeaderMapLaws}.
(** A head the proxy may send: one Host field, this one, and nothing hop-by-hop. *)
Definition clean (authority : bytes) (m : header_map) : Prop :=
  get_all m HOST = [authority] /\ forall n, n ∈ hop_by_hop -> get_all m n = [].
(** A change that keeps heads clean. *)
Definition keeps_clean (m m' : header_map) : Prop :=
  get_all m' HOST = get_all m HOST /\ forall n, n ∈ hop_by_hop -> get_all m n = [] -> get_all m' n = [].
Lemma keeps_trans m1 m2 m3 : keeps_clean m1 m2 -> keeps_clean m2 m3 -> keeps_clean m1 m3.
Proof. intros [Ha Fa] [Hb Fb]. split; [congruence|auto]. Qed.
Lemma keeps_refl m : keeps_clean m m.
Proof. by split. Qed.
Lemma clean_keeps authority m m' : clean authority m -> keeps_clean m m' -> clean authority m'.
Proof. intros [Ha Fa] [Hb Fb]. split; [congruence|auto]. Qed.
Lemma hop_by_hop_protected n : n ∈ hop_by_hop -> n ∈ protected_headers.
Proof.
  assert (Hall : Forall (fun x => x ∈ protected_headers) hop_by_hop) by (apply (bool_decide_unpack _); vm_compute; exact I).
  rewrite Forall_forall in Hall. apply Hall.
Qed.
Lemma host_protected : HOST ∈ protected_headers.
Proof. apply (bool_decide_unpack _). vm_compute. exact I. Qed.
Lemma not_hop_by_hop n : n ∈ [HOST; CONTENT_LENGTH] -> n ∉ hop_by_hop.
Proof.
  assert (Hall : Forall (fun x => x ∉ hop_by_hop) [HOST; CONTENT_LENGTH]) by (apply (bool_decide_unpack _); vm_compute; exact I).
  rewrite Forall_forall in Hall. apply Hall.
Qed.
Lemma keeps_remove n m : n <> HOST -> keeps_clean m (hm_remove n m).
Proof. intros Hn. split; [rewrite get_remove; by rewrite decide_False|]. intros x _ Hx. rewrite get_remove. by case_decide. Qed.
Lemma keeps_length v m : keeps_clean m (hm_insert CONTENT_LENGTH v m).
Proof.
  split; [rewrite get_insert; by rewrite decide_False by (vm_compute; discriminate)|].
  intros x Hin Hx. rewrite get_insert. rewrite decide_False; [done|]. intros <-.
  by apply (not_hop_by_hop CONTENT_LENGTH); [right; left|].
Qed.
Lemma keeps_mutation m plan : keeps_clean m (apply_head_mutation m plan).2.
Proof.
  split; [by apply apply_head_mutation_get, host_protected|].
  intros n Hn. by rewrite apply_head_mutation_get by by apply hop_by_hop_protected.
Qed.
Lemma keeps_normalized m : keeps_clean m (normalize_replaced_body_headers m).
Proof.
  split; intros; rewrite get_normalized; case_bool_decide as Hr; try done.
  by apply not_representation in Hr; [|apply host_protected].
Qed.
Lemma keeps_normalize_if b m : keeps_clean m (normalize_if b m).
Proof. destruct b; [apply keeps_normalized|apply keeps_refl]. Qed.
Lemma keeps_set_length m n : keeps_clean m (set_content_length m n).
Proof.
  unfold set_content_length. eapply keeps_trans; [|apply keeps_length].
  eapply keeps_trans; apply keeps_remove; vm_compute; discriminate.
Qed.
Lemma keeps_streaming m b : keeps_clean m (remove_body_length_for_streaming_hooks m b).
Proof.
  destruct b; cbn; [|apply keeps_refl]. eapply keeps_trans; apply keeps_remove; vm_compute; discriminate.
Qed.
Lemma keeps_http_mutation m body head plan maximum b m' :
  apply_http_mutation m body head plan maximum = (Ok b, m') -> keeps_clean m m'.
Proof.
  unfold apply_http_mutation. pose proof (keeps_mutation m head) as Hm.
  destruct (apply_head_mutation m head) as [[[]|e] m1]; [|done]. cbn [snd] in Hm.
  destruct (apply_body_mutation body plan maximum) as [output|e]; [|done]. intros [= <- <-].
  eapply keeps_trans; [exact Hm|]. eapply keeps_trans; [|apply keeps_length].
  eapply keeps_trans; [|apply keeps_remove; vm_compute; discriminate].
  eapply keeps_trans; [|apply keeps_remove; vm_compute; discriminate].
  destruct plan; [apply keeps_refl|apply keeps_normalized].
Qed.
Lemma strip_clean `{HttpLibrary} m m' : strip_hop_by_hop m = Ok m' -> forall n, n ∈ hop_by_hop -> get_all m' n = [].
Proof.
  unfold strip_hop_by_hop. destruct (connection_tokens m) as [tokens|e]; mcbn; [|done]. intros Heq n Hn.
  assert (m' = remove_all hop_by_hop (remove_all tokens m)) as -> by congruence.
  rewrite get_remove_all. by rewrite decide_True.
Qed.
Lemma regenerate_clean `{HttpLibrary} m authority m' : (forall n, n ∈ hop_by_hop -> get_all m n = []) ->
  regenerate_host m authority = Some m' -> clean authority m'.
Proof.
  intros Hm. unfold regenerate_host. destruct (header_value authority); [|done]. intros [= <-]. split.
  - rewrite get_insert. by rewrite decide_True.
  - intros n Hn. rewrite get_insert. rewrite decide_False; [by apply Hm|].
    intros <-. by apply (not_hop_by_hop HOST); [left|].
Qed.
Lemma get_content_length m n : get_all (set_content_length m n) CONTENT_LENGTH = [show_N n].
Proof. unfold set_content_length. rewrite get_insert. by rewrite decide_True. Qed.
End Clean.

Section Sent.
Context `{HttpEnvironment, Sha256, Hex, !HeaderMapLaws}.
(** A request made ready for the upstream: same method, target and version, a clean
    head, and exactly the length of a body that is sent in full. *)
Definition prepared (authority : bytes) (r : http_request incoming) (r' : http_request proxy_body) : Prop :=
  req_method r' = req_method r /\ req_uri r' = req_uri r /\ req_version r' = req_version r /\
  clean authority (req_headers r') /\
  forall b, full_bytes (req_body r') = Some b -> get_all (req_headers r') CONTENT_LENGTH = [show_N (lenN b)].

Section Yields.
Context (P : step -> Prop).
Context (P_audited : forall e answer, lifecycle (envelope_event e) = false -> P (Audited e answer)).
Context (P_observed : forall e, vouches e -> P (Observed e)).

Lemma apply_plan_clean m plan : yields P (keeps_clean m) (apply_plan m plan).
Proof.
  unfold apply_plan. pose proof (keeps_mutation m plan) as Hk.
  destruct (apply_head_mutation m plan) as [[[]|e] m']; [by apply yields_ret|apply yields_fail].
Qed.
Lemma request_head_hooks_clean s t method target m : yields P (keeps_clean m) (apply_request_head_hooks s t method target m).
Proof.
  intros w. unfold apply_request_head_hooks. case_decide; [by apply yields_ret, keeps_refl|].
  apply (yields_then P); [apply only_context|intros c]. apply yields_then; [by apply only_quiet|intros _].
  apply yields_then; [apply only_lift|intros plan]. apply apply_plan_clean.
Qed.
Lemma with_full_body_prepared authority r m b :
  clean authority (req_headers r) -> keeps_clean (req_headers r) m -> prepared authority r (with_full_body r m b).
Proof.
  intros Hc Hk. repeat (split; [done|]). split.
  - eapply clean_keeps; [exact Hc|]. eapply keeps_trans; [exact Hk|apply keeps_set_length].
  - intros b' [= <-]. apply get_content_length.
Qed.
Definition prepared_or_response authority r (x : result (http_response proxy_body) (http_request proxy_body)) : Prop :=
  match x with Ok r' => prepared authority r r' | Err _ => True end.
Lemma prepare_interactive_clean s t limits r u target authority : clean authority (req_headers r) ->
  yields P (prepared_or_response authority r) (prepare_interactive_request s t limits r u target).
Proof.
  intros Hc. unfold prepare_interactive_request. destruct (collected_or _ _) as [original|response]; [|by apply yields_ret].
  apply yields_then; [by apply only_inspect_preflight|intros []; cbn [negb]]; [|by apply yields_ret].
  apply yields_then; [by apply only_transform_preflight|intros [body replaced]].
  apply yields_then; [apply only_context|intros c]. apply yields_then; [by apply only_interactive|intros d].
  pose proof (keeps_normalize_if replaced (req_headers r)) as Hn.
  assert (Hkeep : yields P (prepared_or_response authority r)
    (mret (Ok (with_full_body r (normalize_if replaced (req_headers r)) body)))).
  { apply yields_ret. by apply with_full_body_prepared. }
  destruct d as [[| |plan|replacement|plan|]|]; try exact Hkeep; [apply yields_fail|..].
  - eapply yields_bind; [apply apply_plan_clean|]. intros m Hm. apply yields_ret.
    apply with_full_body_prepared; [done|]. by eapply keeps_trans.
  - apply yields_then; [apply only_lift|intros body']. apply yields_ret.
    apply with_full_body_prepared; [done|]. eapply keeps_trans; [done|apply keeps_normalized].
  - destruct (apply_http_mutation _ _ _ _ _) as [[body'|e] m] eqn:E; [|apply yields_fail].
    apply yields_ret. apply with_full_body_prepared; [done|]. eapply keeps_trans; [done|by eapply keeps_http_mutation].
Qed.
Lemma prepare_clean s t limits r u target authority : clean authority (req_headers r) ->
  yields P (prepared_or_response authority r) (prepare_request_body s t limits r u target).
Proof.
  intros Hc w. unfold prepare_request_body. case_decide; [by apply prepare_interactive_clean|].
  apply (yields_then P); [apply only_mode|]. intros [].
  - destruct (collected_or _ _) as [original|response]; [|by apply yields_ret].
    apply yields_then; [by apply only_inspect_preflight|intros []; cbn [negb]]; [|by apply yields_ret].
    apply yields_then; [by apply only_transform_preflight|intros [body replaced]]. apply yields_ret.
    apply with_full_body_prepared; [done|apply keeps_normalize_if].
  - cbv zeta. destruct (_ && _); [by apply yields_ret|]. unfold start_streaming_inspection.
    apply (yields_bind P (fun body => full_bytes body = None)).
    { apply yields_then; [apply only_inspector|intros i]. apply yields_then; [apply only_register|intros _].
      by apply yields_ret. }
    intros body Hbody. apply yields_ret. repeat (split; [done|]). split.
    + eapply clean_keeps; [exact Hc|]. eapply keeps_trans; [apply keeps_normalize_if|apply keeps_streaming].
    + cbn [req_body]. rewrite Hbody. done.
Qed.
End Yields.
End Sent.

Section Forwarded.
Context `{HttpEnvironment, Sha256, Hex, !HeaderMapLaws, !HeaderIterLaws}.
(** The bounds of a transaction that sends only what was prepared from [r]. *)
Section Bounds.
Context (P : step -> Prop).
Context (P_audited : forall e answer, lifecycle (envelope_event e) = false -> P (Audited e answer)).
Context (P_observed : forall e, vouches e -> P (Observed e)).
Lemma only_finish_forward v t r authority invalid u requested selected exchange_with :
  (forall n, n ∈ hop_by_hop -> get_all (req_headers r) n = []) ->
  (forall m request k,
     prepared authority (MakeRequest (req_method r) (req_uri r) (req_version r) m (req_body r)) request ->
     (forall response, only P (k response)) -> only P (exchange_with request k)) ->
  only P (finish_forward v t r authority invalid u requested selected exchange_with).
Proof.
  intros Hr Hex. unfold finish_forward. apply (only_yields P (fun _ => True)).
  eapply yields_bind; [by apply request_head_hooks_clean|]. intros m Hm.
  destruct (regenerate_host m authority) as [m'|] eqn:Hhost; [|by apply yields_ret].
  eapply yields_bind.
  { apply prepare_clean; [done|done|]. cbn [req_headers]. eapply regenerate_clean; [|exact Hhost].
    intros n Hn. apply Hm; auto. }
  intros [request|response] Hprep; [|by apply yields_ret]. apply yields_only. eapply Hex; [exact Hprep|].
  intros response. by apply only_finish_response.
Qed.
Context (P_looked : forall host port, P (LookedUp host port)) (P_connected : forall a, P (Connected a)).
Lemma only_forward v t r :
  (forall target m request,
     from_absolute (req_uri r) = Ok target ->
     prepared (forward_authority target)
       (MakeRequest (req_method r) (default (req_uri r) (origin_uri target)) HTTP_11 m (req_body r)) request ->
     P (request_sent request)) ->
  only P (forward v t r).
Proof.
  intros Hsent. unfold forward. destruct (validate _ _); [|apply only_ret].
  destruct (from_absolute (req_uri r)) as [target|e] eqn:Ht; [|apply only_ret]. cbv zeta.
  destruct (strip_hop_by_hop (req_headers r)) as [m|e] eqn:Hs; [|apply only_ret].
  destruct (regenerate_host m (forward_authority target)) as [m'|] eqn:Hh; [|apply only_ret].
  apply only_or_else; [by apply only_authorize_and_resolve|apply only_refuse|]. intros addresses.
  apply only_bind; [by apply only_http_policy|]. intros [response|]; [apply only_ret|].
  apply only_or_else; [by apply only_connect_any|apply only_refuse|]. intros selected.
  apply only_finish_forward; cbn [req_headers req_method req_uri req_version req_body].
  - eapply regenerate_clean; [|exact Hh]. by eapply strip_clean.
  - intros m2 request k Hprep Hk. apply only_or_else; [|apply only_refuse|done]. apply only_send_upstream. by eapply Hsent.
Qed.
Lemma only_forward_intercepted v target selected t p r :
  (forall u m request,
     prepared (forward_authority target) (MakeRequest (req_method r) u (http_version p) m (req_body r)) request ->
     P (request_sent request)) ->
  only P (forward_intercepted v target selected t p r).
Proof.
  intros Hsent. unfold forward_intercepted. case_decide; [apply only_ret|]. destruct (validate _ _); [|apply only_ret].
  cbv zeta. destruct (strip_hop_by_hop (req_headers r)) as [m|e] eqn:Hs; [|apply only_ret].
  destruct (regenerate_host m (forward_authority target)) as [m'|] eqn:Hh; [|apply only_ret].
  destruct (intercepted_upstream_uri _ _ _) as [u|]; [|apply only_ret].
  apply only_bind; [by apply only_http_policy|]. intros [response|]; [apply only_ret|].
  apply only_finish_forward; cbn [req_headers req_method req_uri req_version req_body].
  - eapply regenerate_clean; [|exact Hh]. by eapply strip_clean.
  - intros m2 request k Hprep Hk. apply only_bind; [|done]. apply only_send_intercepted. by eapply Hsent.
Qed.
Lemma only_connect_service v t r : only P (connect_service v t r).
Proof.
  unfold connect_service. destruct (validate _ _); [|by apply only_no_tunnel, only_ret].
  apply only_bind; [by apply only_request_head_hooks|intros m]. cbv zeta.
  apply only_bind; [by apply only_pause|intros m2].
  destruct (from_connect _) as [target|e]; [|by apply only_no_tunnel, only_ret].
  apply only_bind; [by apply only_check_port|intros [response|]]; [by apply only_no_tunnel, only_ret|].
  apply only_or_else; [by apply only_authorize_and_resolve|intros; by apply only_no_tunnel, only_refuse|intros addresses].
  apply only_bind; [by apply only_http_policy|]. intros [response|]; [by apply only_no_tunnel, only_ret|].
  apply only_or_else; [by apply only_connect_any|intros; by apply only_no_tunnel, only_refuse|intros selected].
  apply only_bind; [by apply only_start_tunnel|intros handle].
  apply only_bind; [apply only_register|intros _; apply only_ret].
Qed.
Context (P_any : forall e answer, P (Audited e answer)).
Lemma only_handle v t r :
  (forall target m request,
     req_method r <> CONNECT -> from_absolute (req_uri r) = Ok target ->
     prepared (forward_authority target)
       (MakeRequest (req_method r) (default (req_uri r) (origin_uri target)) HTTP_11 m (req_body r)) request ->
     P (request_sent request)) ->
  only P (handle v t r).
Proof.
  intros Hsent. unfold handle. apply only_bind; [by apply only_audit_request|intros _]. apply only_bind.
  { unfold proxy_authentication. destruct (HttpForwardListener.authentication _) as [a|]; [|apply only_ret].
    apply only_bind; [by apply only_any_event|intros _].
    destruct (authenticate_proxy_request _ _); [apply only_ret|].
    apply only_bind; [apply only_lift|intros status].
    apply only_bind; [by apply only_any_event|intros _; apply only_ret]. }
  intros [response|]; [apply only_ret|]. apply only_bind.
  { apply only_attempt. case_decide as Hm; [by apply only_connect_service|]. apply only_no_tunnel. apply only_forward. intros; by eapply Hsent. }
  intros answer. destruct (match answer with Ok (response, handle) => _ | Err e => _ end) as [response handle].
  apply only_bind; [by apply only_conclude|intros; apply only_ret].
Qed.
End Bounds.

(** A request the proxy sends for [r] to [authority]. *)
Definition sends (r : http_request incoming) (authority version : bytes) (s : step) : Prop :=
  match s with
  | RequestSent method _ version' headers body =>
      method = req_method r /\ version' = version /\ values_of HOST headers = [authority] /\
      (forall n, n ∈ hop_by_hop -> values_of n headers = []) /\
      forall b, body = Some b -> values_of CONTENT_LENGTH headers = [show_N (lenN b)]
  | _ => True
  end.
Lemma prepared_sends authority r m u version request :
  prepared authority (MakeRequest (req_method r) u version m (req_body r)) request ->
  sends r authority version (request_sent request).
Proof.
  intros (Hm & _ & Hv & [Hhost Hhop] & Hlen). cbn [sends request_sent].
  split; [done|]. split; [done|]. unfold values_of. rewrite <- !get_iter. split; [done|]. split.
  - intros n Hn. rewrite <- get_iter. by apply Hhop.
  - exact Hlen.
Qed.
Definition forwards (r : http_request incoming) (s : step) : Prop :=
  match s with
  | RequestSent _ _ _ _ _ =>
      req_method r <> CONNECT /\
      exists target, from_absolute (req_uri r) = Ok target /\ sends r (forward_authority target) HTTP_11 s
  | _ => True
  end.
(** C8. What leaves the proxy has one destination name and no smuggled framing: whatever
    the hooks and the operator change, every request that a transaction sends upstream
    has the client's method, a single Host field equal to the authority of the target it
    was authorised for, none of the hop-by-hop fields (proxy credentials and
    Transfer-Encoding among them), and, when the body is sent in full, a single
    Content-Length that is the length of that body.  This holds for forwarded requests,
    with the authority of the client's absolute URI, and for requests inside an
    intercepted tunnel, with the authority of the CONNECT; a CONNECT sends none. *)
Theorem sent_requests_are_clean (v : http_service) (t : transaction_id) (r : http_request incoming) (w : world) :
  (exists l, history (handle v t r w).2 = history w ++ l /\ Forall (forwards r) l) /\
  forall target selected p,
    exists l, history (handle_intercepted v target selected t p r w).2 = history w ++ l /\
      Forall (sends r (forward_authority target) (http_version p)) l.
Proof.
  split.
  - apply (only_handle (forwards r)); [done..|]. intros target m request Hm Ht Hprep. split; [done|].
    exists target. split; [done|]. by eapply prepared_sends.
  - intros target selected p. set (Q := sends r (forward_authority target) (http_version p)).
    assert (HQ : only Q (handle_intercepted v target selected t p r)); [|apply HQ].
    unfold handle_intercepted. apply only_bind; [by apply only_audit_request|intros _].
    apply only_bind; [|intros; by apply only_conclude]. apply only_attempt, only_forward_intercepted; [done..|].
    intros u m request Hprep. by eapply prepared_sends.
Qed.
End Forwarded.

(** * Addresses an HTTP transaction may contact *)

Section Contacts.
Context `{HttpEnvironment, Sha256, Hex}.
(** As [contacts], with two more gates: one on a snapshot taken before authorisation, and
    the policy on the request for every address, in a snapshot taken after it, when that
    snapshot enforces. *)
Definition http_contacts (gate : policy_snapshot -> Prop) (requested : requested_facts)
    (facts : socket_addr -> request_facts) (before l : list step) : Prop :=
  Forall client_side l \/
  exists l1 tried l2 addresses h0 h1 h1' h2,
    l = l1 ++ map Connected tried ++ l2 /\ Forall client_side l1 /\ Forall no_connection l2 /\
    tried <> [] /\ tried `prefix_of` addresses /\
    before `prefix_of` h0 /\ h0 `prefix_of` h1 /\ h1' `prefix_of` h2 /\ h2 `prefix_of` before ++ l1 /\
    gate (current_snapshot h0) /\ authorized h1 h1' requested addresses /\
    (enforcement (current_snapshot h2) = Enforce ->
     Forall (fun a => Decision.action (Acl.evaluate (snapshot_policy (current_snapshot h2)) (HttpRequest (facts a))) = Allow)
       addresses).
(** [m] adds steps of which [R] holds, given the history before. *)
Definition reaches (R : list step -> list step -> Prop) {A} (m : flow A) : Prop :=
  forall w, exists l, history (m w).2 = history w ++ l /\ R (history w) l.

Section Closed.
Context (R : list step -> list step -> Prop).
Context (R_quiet : forall before l, Forall client_side l -> R before l).
Context (R_before : forall before l l', Forall client_side l -> R (before ++ l) l' -> R before (l ++ l')).
Context (R_after : forall before l l', R before l -> Forall client_side l' -> R before (l ++ l')).
Lemma reaches_only {A} (m : flow A) : only client_side m -> reaches R m.
Proof. intros Hm w. destruct (Hm w) as (l & Hl & HF). exists l. auto. Qed.
Lemma reaches_bind {A B} (Q : A -> Prop) (m : flow A) (f : A -> flow B) :
  yields client_side Q m -> (forall a, Q a -> reaches R (f a)) -> reaches R (m ≫= f).
Proof.
  intros Hm Hf w. unfold mbind, flow_bind. destruct (Hm w) as [(l & Hl & HF) HQ].
  destruct (m w) as [[a|e] w1]; cbn [fst snd] in *; [|exists l; auto].
  destruct (Hf a (HQ a eq_refl) w1) as (l' & Hl' & HR). exists (l ++ l'). rewrite Hl', Hl, app_assoc. split; [done|].
  apply R_before; [done|]. by rewrite <- Hl.
Qed.
Lemma reaches_then {A B} (m : flow A) (f : A -> flow B) :
  only client_side m -> (forall a, reaches R (f a)) -> reaches R (m ≫= f).
Proof. intros Hm Hf. apply (reaches_bind (fun _ => True)); [by apply yields_only|auto]. Qed.
Lemma reaches_finally {A B} (m : flow A) (f : A -> flow B) :
  reaches R m -> (forall a, only client_side (f a)) -> reaches R (m ≫= f).
Proof.
  intros Hm Hf w. unfold mbind, flow_bind. destruct (Hm w) as (l & Hl & HR).
  destruct (m w) as [[a|e] w1]; cbn [snd] in Hl; [|exists l; auto].
  destruct (Hf a w1) as (l' & Hl' & HF). exists (l ++ l'). rewrite Hl', Hl, app_assoc. auto.
Qed.
Lemma reaches_attempt {A} (m : flow A) : reaches R m -> reaches R (attempt m).
Proof. intros Hm w. destruct (Hm w) as (l & Hl & HR). exists l. unfold attempt. by destruct (m w). Qed.
End Closed.
Lemma http_contacts_before gate requested facts before l l' :
  Forall client_side l -> http_contacts gate requested facts (before ++ l) l' ->
  http_contacts gate requested facts before (l ++ l').
Proof.
  intros Hl [HF|(l1 & tried & l2 & addresses & h0 & h1 & h1' & h2 & -> & F1 & F2 & Hne & Hpre & P0 & P1 & P2 & P3 & Hrest)].
  - left. by apply Forall_app.
  - right. exists (l ++ l1), tried, l2, addresses, h0, h1, h1', h2. rewrite <- app_assoc. split; [done|].
    split; [by apply Forall_app|]. do 3 (split; [done|]). split; [by eapply prefix_app_l|]. do 2 (split; [done|]).
    split; [by rewrite app_assoc|done].
Qed.
Lemma http_contacts_after gate requested facts before l l' :
  http_contacts gate requested facts before l -> Forall client_side l' ->
  http_contacts gate requested facts before (l ++ l').
Proof.
  intros [HF|(l1 & tried & l2 & addresses & h0 & h1 & h1' & h2 & -> & F1 & F2 & Hrest)] Hl'.
  - left. by apply Forall_app.
  - right. exists l1, tried, (l2 ++ l'), addresses, h0, h1, h1', h2. rewrite <- !app_assoc. split; [done|].
    split; [done|]. split; [|done]. apply Forall_app. split; [done|]. by apply client_side_no_connection.
Qed.
Lemma http_contacts_quiet gate requested facts before l :
  Forall client_side l -> http_contacts gate requested facts before l.
Proof. by left. Qed.
(** A gate that the snapshot at the start passes. *)
Lemma http_contacts_gate (gate gate' : policy_snapshot -> Prop) requested facts before l :
  gate (current_snapshot before) -> http_contacts gate' requested facts before l ->
  http_contacts gate requested facts before l.
Proof.
  intros Hg [HF|(l1 & tried & l2 & addresses & h0 & h1 & h1' & h2 & -> & F1 & F2 & Hne & Hpre & P0 & P1 & P2 & P3 & _ & Hrest)];
    [by left|].
  right. exists l1, tried, l2, addresses, before, h1, h1', h2. do 5 (split; [done|]). split; [done|].
  split; [by etrans|]. auto.
Qed.

Definition request_facts_at (requested : requested_facts) (method path : bytes) (m : header_map) (a : socket_addr) : request_facts :=
  http_request_facts_new (ResolvedTargetFacts requested (sa_ip a)) method path (policy_headers m).
Lemma judge_addresses_none v t snapshot requested method path m addresses denial :
  yields (fun _ => True) (fun r => r = None -> denial = None /\
      Forall (fun a => permits snapshot (Acl.evaluate (snapshot_policy snapshot) (HttpRequest
        (http_request_facts_new (ResolvedTargetFacts requested (sa_ip a)) method path m))) = true) addresses)
    (judge_addresses v t snapshot requested method path m addresses denial).
Proof.
  revert denial; induction addresses as [|a addresses IH]; intros denial; cbn [judge_addresses].
  { apply yields_ret. intros ->. by split. }
  apply yields_then; [apply only_context|intros c]. apply yields_then; [by apply only_publish|intros _].
  unfold Acl.evaluate at 1. destruct (Acl.evaluate_with_definition _ _) as [d def] eqn:E.
  apply yields_then; [apply only_context|intros c']. apply yields_then.
  { apply only_bind; [by apply only_publish|intros _; by apply only_try_publish]. }
  intros _. eapply yields_weaken; [|apply IH]. intros r Hr Hnone. destruct (Hr Hnone) as [Hd HF].
  unfold remember_denial in Hd. destruct (permits snapshot d) eqn:Hp; [|by destruct denial].
  split; [done|]. constructor; [|done]. unfold Acl.evaluate. by rewrite E.
Qed.
Lemma http_policy_permits v requested addresses t method path m w :
  (evaluate_http_policy v requested addresses t method path m w).1 = Ok None ->
  Forall (fun a => permits (current_snapshot (history w))
                     (Acl.evaluate (snapshot_policy (current_snapshot (history w)))
                        (HttpRequest (request_facts_at requested method path m a))) = true) addresses.
Proof.
  unfold evaluate_http_policy, mbind, flow_bind, decision_snapshot.
  destruct (judge_addresses_none v t (current_snapshot (history w)) requested method path (policy_headers m) addresses None w)
    as [_ Hj]. destruct (judge_addresses _ _ _ _ _ _ _ _ _ w) as [[[d|]|e] w1]; cbn [fst] in *; [| |done].
  - by destruct (record_action _ _ d w1) as [[]].
  - intros _. by destruct (Hj None eq_refl eq_refl) as [_ HF].
Qed.

(** Authorise, judge the request for every address, connect; [judged] says that a
    computation that returns nothing allowed [facts] at every address. *)
Definition guarded {B X} s t (requested : requested_facts) (judge : list socket_addr -> flow (option X))
    (h : proxy_error -> flow B) (refusal : X -> flow B) (k : socket_addr -> flow B) : flow B :=
  or_else (authorize_and_resolve requested s (Some t)) h (fun addresses =>
    denied ← judge addresses;
    match denied with
    | Some response => refusal response
    | None => or_else (connect_any addresses) h k
    end).
Definition judged {X} (facts : socket_addr -> request_facts) (addresses : list socket_addr) (m : flow (option X)) : Prop :=
  only client_side m /\
  forall w, (m w).1 = Ok None ->
    Forall (fun a => permits (current_snapshot (history w))
      (Acl.evaluate (snapshot_policy (current_snapshot (history w))) (HttpRequest (facts a))) = true) addresses.
Lemma http_policy_judges v requested addresses t method path m :
  judged (request_facts_at requested method path m) addresses (evaluate_http_policy v requested addresses t method path m).
Proof. split; [by apply only_http_policy|apply http_policy_permits]. Qed.
Lemma guarded_contacts {B X} s t requested facts (judge : list socket_addr -> flow (option X)) (h : proxy_error -> flow B) refusal k :
  (forall addresses, judged facts addresses (judge addresses)) ->
  (forall e, only client_side (h e)) -> (forall r, only client_side (refusal r)) -> (forall a, only no_connection (k a)) ->
  reaches (http_contacts (fun _ => True) requested facts) (guarded s t requested judge h refusal k).
Proof.
  intros Hjudge Oh Or Ok w. unfold guarded, or_else, mbind, flow_bind, attempt.
  pose proof (authorize_and_resolve_authorized requested s (Some t) w) as Hauth.
  destruct (only_authorize_and_resolve client_side ltac:(done) ltac:(done) requested s (Some t) ltac:(done) w)
    as (l1 & Hl1 & HF1).
  destruct (authorize_and_resolve requested _ _ w) as [[addresses|e] w1]; cbn [snd] in Hl1; cycle 1.
  { destruct (Oh e w1) as (l & Hl & HF). exists (l1 ++ l). rewrite Hl, Hl1, app_assoc. split; [done|].
    left. by apply Forall_app. }
  destruct (Hjudge addresses) as [Hjo Hpol]. specialize (Hpol w1). destruct (Hjo w1) as (l2 & Hl2 & HF2).
  destruct (judge addresses w1) as [[[response|]|e] w2]; cbn [fst snd] in *.
  { destruct (Or response w2) as (l & Hl & HF). exists (l1 ++ l2 ++ l). rewrite Hl, Hl2, Hl1, !app_assoc. split; [done|].
    left. rewrite !Forall_app. auto. }
  2: { exists (l1 ++ l2). rewrite Hl2, Hl1, app_assoc. split; [done|]. left. by apply Forall_app. }
  specialize (Hpol eq_refl).
  pose proof (connect_loop_spec addresses None w2) as Hc. fold (connect_any addresses) in Hc.
  destruct (connect_any addresses w2) as [r w3]. apply attempted_tried in Hc as (tried & Hh3 & Hpre & Hok).
  assert (Hcontact : forall l3, tried <> [] -> Forall no_connection l3 ->
    http_contacts (fun _ => True) requested facts (history w)
      ((l1 ++ l2) ++ map Connected tried ++ l3)).
  { intros l3 Hne HF3. right. exists (l1 ++ l2), tried, l3, addresses, (history w), (history w), (history w1), (history w1).
    split; [done|]. split; [by apply Forall_app|]. do 3 (split; [done|]). do 3 (split; [done|]). split.
    { rewrite Hl1. apply prefix_app. by apply prefix_app_r. }
    split; [done|]. split; [by apply Hauth|]. intros He. eapply Forall_impl; [exact Hpol|].
    intros a Ha. by apply (permits_enforced _ _ He). }
  destruct r as [a|e].
  - destruct (Ok a w3) as (l3 & Hl3 & HF3). exists ((l1 ++ l2) ++ map Connected tried ++ l3).
    rewrite Hl3, Hh3, Hl2, Hl1, <- !app_assoc. split; [done|]. rewrite app_assoc. by apply Hcontact; [apply Hok|].
  - destruct (Oh e w3) as (l3 & Hl3 & HF3). exists ((l1 ++ l2) ++ map Connected tried ++ l3).
    rewrite Hl3, Hh3, Hl2, Hl1, <- !app_assoc. split; [done|]. rewrite app_assoc.
    destruct (decide (tried = [])) as [->|Hne]; [left; rewrite !Forall_app; auto|].
    apply Hcontact; [done|]. by apply client_side_no_connection.
Qed.
End Contacts.

Section HandleContacts.
Context `{HttpEnvironment, Sha256, Hex, !HeaderMapLaws, !HeaderIterLaws}.
Definition target_of (r : http_request incoming) : result target_error forward_target :=
  if decide (req_method r = CONNECT) then from_connect (req_uri r) else from_absolute (req_uri r).
(** A CONNECT port is in the allowlist, unless policy is only observed. *)
Definition connect_gate (v : http_service) (r : http_request incoming) (target : forward_target) (snapshot : policy_snapshot) : Prop :=
  req_method r = CONNECT ->
  HttpForwardListener.allows_connect_port (service_listener v) (forward_port target) = true \/ enforcement snapshot = Observe.
(** The path and the headers that the policy on a request judges.  A request in absolute
    form is judged with the path it is forwarded with and with its end-to-end headers
    and the Host of its target; a CONNECT with its authority and the headers that the
    hooks and then the operator left of it when they ran between [before] and [after]. *)
Definition judged_as (v : http_service) (t : transaction_id) (r : http_request incoming) (target : forward_target)
    (before after : list step) (path : bytes) (m : header_map) : Prop :=
  if decide (req_method r = CONNECT) then
    path = forward_authority target /\
    exists hooked w1 w2 w3, before `prefix_of` history w1 /\
      apply_request_head_hooks (service_session v) t CONNECT (uri_text (req_uri r)) (req_headers r) w1 = (Ok hooked, w2) /\
      pause_connect_request (service_session v) t (service_limits v)
        (MakeRequest CONNECT (req_uri r) (req_version r) hooked (req_body r)) w2 = (Ok m, w3) /\
      history w3 `prefix_of` after
  else
    path = match origin_uri target with None => bs "/" | Some u => default (bs "/") (path_and_query u) end /\
    exists stripped, strip_hop_by_hop (req_headers r) = Ok stripped /\
      regenerate_host stripped (forward_authority target) = Some m.
Lemma judged_as_within v t r target before before' after after' path m :
  before `prefix_of` before' -> after' `prefix_of` after ->
  judged_as v t r target before' after' path m -> judged_as v t r target before after path m.
Proof.
  intros Hb Ha. unfold judged_as. case_decide; [|done]. intros [Hp (hooked & w1 & w2 & w3 & H1w & Hh & Hi & H3w)].
  split; [done|]. exists hooked, w1, w2, w3. split; [by etrans|]. split; [done|]. split; [done|]. by etrans.
Qed.
Definition transaction_contacts (v : http_service) (t : transaction_id) (r : http_request incoming) (before l : list step) : Prop :=
  Forall client_side l \/
  exists target path m,
    target_of r = Ok target /\ judged_as v t r target before (before ++ l) path m /\
    http_contacts (connect_gate v r target) (requested_by v target)
      (request_facts_at (requested_by v target) (req_method r) path m) before l.
Lemma transaction_before v t r before l l' : Forall client_side l ->
  transaction_contacts v t r (before ++ l) l' -> transaction_contacts v t r before (l ++ l').
Proof.
  intros Hl [HF|(target & path & m & Ht & Hj & Hc)]; [left; by apply Forall_app|].
  right. exists target, path, m. split; [done|]. split; [|by apply http_contacts_before].
  eapply judged_as_within; [|by rewrite app_assoc|exact Hj]. by apply prefix_app_r.
Qed.
Lemma transaction_after v t r before l l' :
  transaction_contacts v t r before l -> Forall client_side l' -> transaction_contacts v t r before (l ++ l').
Proof.
  intros [HF|(target & path & m & Ht & Hj & Hc)] Hl; [left; by apply Forall_app|].
  right. exists target, path, m. split; [done|]. split; [|by apply http_contacts_after].
  eapply judged_as_within; [done| |exact Hj]. rewrite app_assoc. by apply prefix_app_r.
Qed.
Lemma transaction_quiet v t r before l : Forall client_side l -> transaction_contacts v t r before l.
Proof. by left. Qed.
Ltac quietly := apply reaches_only; [apply transaction_quiet|].

Lemma forward_reaches v t r : req_method r <> CONNECT -> reaches (transaction_contacts v t r) (forward v t r).
Proof.
  intros Hm. unfold forward. destruct (validate _ _); [|quietly; apply only_ret].
  destruct (from_absolute (req_uri r)) as [target|e] eqn:Ht; [|quietly; apply only_ret]. cbv zeta.
  destruct (strip_hop_by_hop (req_headers r)) as [m|e] eqn:Hs; [|quietly; apply only_ret].
  destruct (regenerate_host m (forward_authority target)) as [m'|] eqn:Hh; [|quietly; apply only_ret].
  cbn [req_method req_uri req_version req_headers req_body]. intros w.
  set (path := match origin_uri target with None => bs "/" | Some u => default (bs "/") (path_and_query u) end).
  edestruct (guarded_contacts (service_session v) t (requested_by v target)
    (request_facts_at (requested_by v target) (req_method r) path m')
    (fun addresses => evaluate_http_policy v (requested_by v target) addresses t (req_method r) path m')
    refuse mret
    (fun selected => finish_forward v t
       (MakeRequest (req_method r) (default (req_uri r) (origin_uri target)) HTTP_11 m' (req_body r))
       (forward_authority target) (bs "invalid target authority") (Some (req_uri r)) (requested_by v target) selected
       (fun request k => or_else (send_upstream_request request) refuse k))) as (l & Hl & Hc).
  - intros addresses. apply http_policy_judges.
  - intros e. apply only_refuse.
  - intros response. apply only_ret.
  - intros selected. apply only_finish_forward; [done|done| |].
    + eapply regenerate_clean; [|exact Hh]. by eapply strip_clean.
    + intros m2 request k _ Hk. apply only_or_else; [|apply only_refuse|done]. by apply only_send_upstream.
  - exists l. split; [exact Hl|]. right. exists target. eexists _, m'. unfold target_of. rewrite decide_False by done.
    split; [done|]. split; [unfold judged_as; rewrite decide_False by done; eauto|].
    eapply http_contacts_gate; [|exact Hc]. by intros ?.
Qed.
Lemma check_port_passes v t target w w' : check_connect_port v t target w = (Ok None, w') ->
  HttpForwardListener.allows_connect_port (service_listener v) (forward_port target) = true \/
  enforcement (current_snapshot (history w)) = Observe.
Proof.
  unfold check_connect_port. destruct (HttpForwardListener.allows_connect_port _ _); [by left|].
  intros Hrun. right. unfold mbind, flow_bind, decision_snapshot, audit_context_ in Hrun.
  destruct (publish_decision _ _ _ _ w) as [[[]|e] w1]; [|done].
  destruct (permits _ (connect_port_denial _ _ _)) eqn:Hp.
  - unfold permits in Hp. apply orb_true_iff in Hp as [Hp%bool_decide_eq_true|Hp%bool_decide_eq_true]; done.
  - destruct (record_action _ _ _ w1) as [[[]|e] w2]; done.
Qed.
(** What [connect_service] does with the target once the headers [m] are settled. *)
Definition connect_settled (v : http_service) (t : transaction_id) (m : header_map) (target : forward_target)
  : flow (http_response proxy_body * option tunnel) :=
  refused ← check_connect_port v t target;
  match refused with
  | Some response => no_tunnel (mret response)
  | None =>
      guarded (service_session v) t (requested_by v target)
        (fun addresses => evaluate_http_policy v (requested_by v target) addresses t CONNECT (forward_authority target) m)
        (fun e => no_tunnel (refuse e)) (fun response => no_tunnel (mret response))
        (fun selected => handle ← start_connect_tunnel v selected target t;
                         _ ← register_task; mret (text_response 200 [], Some handle))
  end.
Lemma connect_settled_reaches v t r m target : req_method r = CONNECT ->
  reaches (http_contacts (connect_gate v r target) (requested_by v target)
             (request_facts_at (requested_by v target) CONNECT (forward_authority target) m))
    (connect_settled v t m target).
Proof.
  intros Hm w. unfold connect_settled, mbind at 1, flow_bind at 1.
  destruct (only_check_port client_side ltac:(done) ltac:(done) v t target w) as (l0 & Hl0 & HF0).
  pose proof (check_port_passes v t target w) as Hport.
  destruct (check_connect_port v t target w) as [[[response|]|e] w0]; cbn [snd] in Hl0.
  { destruct (only_no_tunnel client_side (mret response) ltac:(apply only_ret) w0) as (l1 & Hl1 & HF1).
    exists (l0 ++ l1). rewrite Hl1, Hl0, app_assoc. split; [done|]. left. by apply Forall_app. }
  2: { exists l0. split; [done|by left]. }
  specialize (Hport _ eq_refl).
  edestruct (guarded_contacts (service_session v) t (requested_by v target)
    (request_facts_at (requested_by v target) CONNECT (forward_authority target) m)
    (fun addresses => evaluate_http_policy v (requested_by v target) addresses t CONNECT (forward_authority target) m)
    (fun e => no_tunnel (refuse e)) (fun response => no_tunnel (mret response))
    (fun selected => handle ← start_connect_tunnel v selected target t;
                     _ ← register_task; mret (text_response 200 [], Some handle))) as (l & Hl & Hc).
  - intros addresses. apply http_policy_judges.
  - intros e. apply only_no_tunnel, only_refuse.
  - intros response. apply only_no_tunnel, only_ret.
  - intros selected. apply only_bind; [by apply only_start_tunnel|intros handle].
    apply only_bind; [apply only_register|intros _; apply only_ret].
  - exists (l0 ++ l). split; [rewrite app_assoc, <- Hl0; exact Hl|].
    eapply http_contacts_gate; [by intros _|]. apply http_contacts_before; [done|]. by rewrite <- Hl0.
Qed.
Lemma connect_reaches v t r : req_method r = CONNECT -> reaches (transaction_contacts v t r) (connect_service v t r).
Proof.
  intros Hm. unfold connect_service. destruct (validate _ _); [|quietly; by apply only_no_tunnel, only_ret].
  intros w. unfold mbind at 1, flow_bind at 1. rewrite !Hm.
  assert (Oh : only client_side (apply_request_head_hooks (service_session v) t CONNECT (uri_text (req_uri r)) (req_headers r)))
    by by apply only_request_head_hooks.
  destruct (Oh w) as (la & Hla & HFa).
  destruct (apply_request_head_hooks _ _ _ _ _ w) as [[m|e] wa] eqn:Ehooks; cbn [snd] in Hla;
    [|exists la; split; [done|by left]].
  cbv zeta. unfold mbind at 1, flow_bind at 1.
  assert (Op : only client_side (pause_connect_request (service_session v) t (service_limits v)
    (MakeRequest CONNECT (req_uri r) (req_version r) m (req_body r)))) by by apply only_pause.
  destruct (Op wa) as (lb & Hlb & HFb).
  destruct (pause_connect_request _ _ _ _ wa) as [[m2|e] wb] eqn:Epause; cbn [snd] in Hlb;
    rewrite Hla, <- app_assoc in Hlb; [|exists (la ++ lb); split; [done|]; left; by apply Forall_app].
  cbn [req_uri]. destruct (from_connect (req_uri r)) as [target|e] eqn:Ht; cycle 1.
  { destruct (only_no_tunnel client_side (mret (text_response 400 (show_target_error e))) ltac:(apply only_ret) wb) as (l & Hl & HF).
    exists ((la ++ lb) ++ l). split; [by rewrite Hl, Hlb, <- !app_assoc|]. left. rewrite !Forall_app. auto. }
  destruct (connect_settled_reaches v t r m2 target Hm wb) as (l & Hl & Hc).
  exists ((la ++ lb) ++ l). rewrite app_assoc, <- Hlb. split; [exact Hl|].
  right. exists target, (forward_authority target), m2. split; [unfold target_of; by rewrite decide_True|].
  split; [|rewrite Hm; apply http_contacts_before; [by apply Forall_app|by rewrite <- Hlb]].
  unfold judged_as. rewrite decide_True by done. split; [done|]. exists m, w, wa, wb. do 3 (split; [done|]).
  rewrite Hlb. rewrite <- app_assoc. apply prefix_app. apply prefix_app. by apply prefix_app_r.
Qed.

Lemma proxy_authentication_passes v t r :
  yields client_side (fun x => x = None -> forall a, HttpForwardListener.authentication (service_listener v) = Some a ->
      authenticate_proxy_request (req_headers r) a = true)
    (proxy_authentication v t r).
Proof.
  unfold proxy_authentication. destruct (HttpForwardListener.authentication _) as [a|]; [|by apply yields_ret].
  cbv zeta. apply yields_then; [by apply only_any_event|intros _].
  destruct (authenticate_proxy_request _ a) eqn:E; [apply yields_ret; by intros _ ? [= <-]|].
  apply yields_then; [apply only_lift|intros status]. apply yields_then; [by apply only_any_event|intros _].
  by apply yields_ret.
Qed.
Lemma handle_reaches (v : http_service) (t : transaction_id) (r : http_request incoming) (w : world) :
  exists l, history (handle v t r w).2 = history w ++ l /\
    (Forall client_side l \/
     (forall a, HttpForwardListener.authentication (service_listener v) = Some a ->
        authenticate_proxy_request (req_headers r) a = true) /\
     exists target path m,
       target_of r = Ok target /\ judged_as v t r target (history w) (history w ++ l) path m /\
       http_contacts (connect_gate v r target) (requested_by v target)
         (request_facts_at (requested_by v target) (req_method r) path m) (history w) l).
Proof.
  set (auth := forall a, HttpForwardListener.authentication (service_listener v) = Some a ->
        authenticate_proxy_request (req_headers r) a = true).
  set (R := fun before l => Forall client_side l \/ (auth /\ transaction_contacts v t r before l)).
  assert (HR : reaches R (handle v t r)); cycle 1.
  { destruct (HR w) as (l & Hl & [HF|[Ha [HF|Hc]]]); exists l; auto. }
  assert (Rq : forall before l, Forall client_side l -> R before l) by by left.
  assert (Rb : forall before l l', Forall client_side l -> R (before ++ l) l' -> R before (l ++ l')).
  { intros before l l' Hl [HF|[Ha Hc]]; [left; by apply Forall_app|right]. split; [done|by apply transaction_before]. }
  assert (Ra : forall before l l', R before l -> Forall client_side l' -> R before (l ++ l')).
  { intros before l l' [HF|[Ha Hc]] Hl; [left; by apply Forall_app|right]. split; [done|by apply transaction_after]. }
  unfold handle. apply reaches_then; [done|done|by apply only_audit_request|intros _].
  eapply reaches_bind; [done|done|apply proxy_authentication_passes|].
  intros [response|] Hauth; [by apply reaches_only; [|apply only_ret]|]. specialize (Hauth eq_refl).
  apply reaches_finally; [done| |].
  - apply reaches_attempt. intros w1. case_decide as Hm.
    + destruct (connect_reaches v t r Hm w1) as (l & Hl & Hc). exists l. split; [done|]. by right.
    + destruct (reaches_finally _ (transaction_after v t r) _ (fun r => mret (r, @None tunnel)) (forward_reaches v t r Hm)
        ltac:(intros; apply only_ret) w1) as (l & Hl & Hc). exists l. split; [done|]. by right.
  - intros answer. destruct (match answer with Ok (response, handle) => _ | Err e => _ end) as [response handle].
    apply only_bind; [by apply only_conclude|intros; apply only_ret].
Qed.
(** C9. An HTTP transaction reaches the network only as authorised: either nothing leaves
    towards an upstream, or the request was authenticated where the listener demands it
    and names a target, and the addresses the proxy tries are, in order, addresses that
    one authorisation of this client and this target returned before the first attempt,
    after which no other connection is attempted.  They are the target's, as it resolved
    then.  Where the snapshots taken on the way enforce, the port of a CONNECT was in the
    allowlist, the target and every address passed authorisation, and the policy allowed
    the request at every address, with its method, the path it is forwarded with and
    the headers left of it. *)
Theorem http_contacts_authorized (v : http_service) (t : transaction_id) (r : http_request incoming) (w : world) :
  exists l, history (handle v t r w).2 = history w ++ l /\
    (Forall client_side l \/
     (forall a, HttpForwardListener.authentication (service_listener v) = Some a ->
        authenticate_proxy_request (req_headers r) a = true) /\
     exists target path m,
       target_of r = Ok target /\ judged_as v t r target (history w) (history w ++ l) path m /\
       http_contacts (connect_gate v r target) (requested_by v target)
         (request_facts_at (requested_by v target) (req_method r) path m) (history w) l).
Proof. apply handle_reaches. Qed.
End HandleContacts.

(** * The audit trail of a transaction *)

Section HttpTrail.
Context `{HttpEnvironment, Sha256, Hex, !HeaderMapLaws, !HeaderIterLaws}.
Definition request_event (r : http_request incoming) : audit_event :=
  HttpRequestObserved (req_method r) (uri_text (req_uri r)) (audit_headers (req_headers r)).
(** Besides the request and the response, a transaction records its authentication and
    what the parts of it record, none of which is the life of a flow, a tunnel or
    another transaction. *)
Definition inside_transaction (e : audit_event) : Prop := lifecycle e = false \/ exists o, e = ProxyAuthentication_ o.
Definition answered (response : http_response proxy_body) (e : audit_event) : Prop :=
  exists status, HttpStatusCode.new (resp_status response) = Ok status /\
    e = HttpResponseObserved status (audit_headers (resp_headers response)).
(** An answered transaction ends with the event of its response; one that fails does not
    record a response, unless recording it is what failed. *)
Definition transaction_trail (r : http_request incoming) (x : result proxy_error (http_response proxy_body))
    (events : list audit_event) : Prop :=
  exists middle, Forall inside_transaction middle /\
    match x with
    | Ok response => exists e, answered response e /\ events = request_event r :: middle ++ [e]
    | Err error =>
        events = request_event r :: middle \/
        (audit_policy = FailClosed /\ (exists e, error = Audit e) /\
         exists response e, answered response e /\ events = request_event r :: middle ++ [e])
    end.

Lemma follows_run {A} (m : flow A) script o w : follows m script o ->
  exists l, history (m w).2 = history w ++ l /\
    (((m w).1 = o /\ audited l = script) \/ (audit_policy = FailClosed /\ exists e, (m w).1 = Err (Audit e))).
Proof.
  intros Hm. specialize (Hm w). destruct (m w) as [r w']. destruct Hm as (le & (_ & _ & l & Hl & Ha & _) & Hcase).
  exists l. split; [done|]. destruct Hcase as [[Hr Hle]|(Hfc & He & _)]; [left; split; [done|congruence]|by right].
Qed.
Lemma observe_run e w : exists l, history (try_publish e w).2 = history w ++ l /\ (try_publish e w).1 = Ok tt /\ audited l = [].
Proof.
  unfold try_publish. destruct events_enabled; cbn; [by exists [Observed e]|]. exists []. by rewrite app_nil_r.
Qed.
Lemma follows_one (m : flow unit) e w : follows m [e] (Ok tt) -> let '(r, w') := m w in
  exists l, history w' = history w ++ l /\ audited l = [e] /\
    (r = Ok tt \/ (audit_policy = FailClosed /\ exists error, r = Err (Audit error))).
Proof.
  intros Hm. specialize (Hm w). destruct (m w) as [r w'].
  destruct Hm as (le & (_ & _ & l & Hl & Ha & _) & [[-> ->]|(Hfc & He & Hne & Hpre)]); exists l.
  - auto.
  - split; [done|]. split; [|auto]. rewrite Ha. destruct le as [|x [|y le]]; [done| |]; destruct Hpre as [k Hk]; by injection Hk as <-.
Qed.
Lemma audit_request_follows v t (r : http_request incoming) : follows (audit_request v t r) [request_event r] (Ok tt).
Proof.
  unfold audit_request, publish_http_event. rewrite <- (app_nil_l [_]).
  eapply follows_bind; [apply follows_try_publish|apply follows_publish_event].
Qed.
(** The end of a transaction records the response it returns, and nothing else. *)
Lemma conclude_spec v t x w : let '(y, w') := conclude_response v t x w in
  exists l, history w' = history w ++ l /\
    match y with
    | Ok response => exists e, answered response e /\ audited l = [e]
    | Err error =>
        audited l = [] \/
        (audit_policy = FailClosed /\ (exists e, error = Audit e) /\ exists response e, answered response e /\ audited l = [e])
    end.
Proof.
  unfold conclude_response, lift, mbind, flow_bind.
  destruct (match x with Ok response => Ok response | Err e => response_for_error e end) as [response|error]; cycle 1.
  { exists []. rewrite app_nil_r. split; [done|]. by left. }
  unfold status_code, lift. destruct (HttpStatusCode.new (resp_status response)) as [status|] eqn:Hs; cbn [map_err]; cycle 1.
  { exists []. rewrite app_nil_r. split; [done|]. by left. }
  unfold publish_http_response_event.
  match goal with |- context [try_publish ?e w] => pose proof (follows_try_publish e w) as Hi; destruct (try_publish e w) as [r1 w1] end.
  destruct Hi as (le & (_ & _ & l1 & Hl1 & Ha1 & _) & [[-> ->]|(_ & _ & Hne & Hpre)]); [|by apply prefix_nil_inv in Hpre].
  unfold audit_response.
  pose proof (follows_one _ _ w1 (follows_publish_event (service_session v) (Some t) (HttpResponseObserved status (audit_headers (resp_headers response))))) as Ho.
  destruct (publish_event _ _ _ w1) as [r2 w2]. destruct Ho as (l2 & Hl2 & Ha2 & Hr2).
  assert (Hans : answered response (HttpResponseObserved status (audit_headers (resp_headers response)))) by (by exists status).
  assert (Haud : audited (l1 ++ l2) = [HttpResponseObserved status (audit_headers (resp_headers response))]).
  { by rewrite audited_app, Ha1, Ha2. }
  destruct Hr2 as [-> |(Hfc & error & ->)]; exists (l1 ++ l2); rewrite Hl2, Hl1, app_assoc; (split; [done|]).
  - by eexists.
  - right. split; [done|]. split; [by eexists|]. by exists response; eexists.
Qed.
Lemma body_inside v t r : only (audits inside_transaction)
  (if decide (req_method r = CONNECT) then connect_service v t r else no_tunnel (forward v t r)).
Proof.
  assert (Hq : forall e answer, lifecycle (envelope_event e) = false -> audits inside_transaction (Audited e answer)) by by left.
  case_decide; [by apply only_connect_service|]. apply only_no_tunnel. by apply only_forward.
Qed.
Lemma authentication_trail v t r w : let '(x, w') := proxy_authentication v t r w in
  exists l, history w' = history w ++ l /\
    match x with
    | Ok None => Forall inside_transaction (audited l)
    | Ok (Some response) => exists middle e, Forall inside_transaction middle /\ answered response e /\ audited l = middle ++ [e]
    | Err error =>
        Forall inside_transaction (audited l) \/
        (audit_policy = FailClosed /\ (exists e, error = Audit e) /\
         exists middle response e, Forall inside_transaction middle /\ answered response e /\ audited l = middle ++ [e])
    end.
Proof.
  unfold proxy_authentication. destruct (HttpForwardListener.authentication _) as [a|]; cycle 1.
  { exists []. by rewrite app_nil_r. }
  cbv zeta. unfold mbind at 1, flow_bind at 1.
  set (o := if authenticate_proxy_request _ _ then Accepted else Rejected).
  pose proof (follows_one _ _ w (follows_publish_event (service_session v) (Some t) (ProxyAuthentication_ o))) as Ho.
  destruct (publish_event _ _ _ w) as [r1 w1]. destruct Ho as (l1 & Hl1 & Ha1 & Hr1).
  assert (Hin : Forall inside_transaction [ProxyAuthentication_ o]) by (apply Forall_singleton; right; by exists o).
  destruct Hr1 as [-> |(Hfc & error & ->)]; cycle 1.
  { exists l1. split; [done|]. left. by rewrite Ha1. }
  destruct (authenticate_proxy_request _ _); [exists l1; split; [done|]; by rewrite Ha1|].
  unfold mbind, flow_bind, status_code, lift.
  destruct (HttpStatusCode.new (resp_status (proxy_authentication_required a))) as [status|] eqn:Hs; cbn [map_err]; cycle 1.
  { exists l1. split; [done|]. left. by rewrite Ha1. }
  unfold audit_response.
  pose proof (follows_one _ _ w1 (follows_publish_event (service_session v) (Some t)
    (HttpResponseObserved status (audit_headers (resp_headers (proxy_authentication_required a)))))) as Ho.
  destruct (publish_event _ _ _ w1) as [r2 w2]. destruct Ho as (l2 & Hl2 & Ha2 & Hr2).
  assert (Hans : answered (proxy_authentication_required a)
    (HttpResponseObserved status (audit_headers (resp_headers (proxy_authentication_required a))))) by (by exists status).
  assert (Haud : audited (l1 ++ l2) = [ProxyAuthentication_ o] ++
    [HttpResponseObserved status (audit_headers (resp_headers (proxy_authentication_required a)))]).
  { by rewrite audited_app, Ha1, Ha2. }
  destruct Hr2 as [-> |(Hfc & error & ->)]; exists (l1 ++ l2); rewrite Hl2, Hl1, app_assoc; (split; [done|]).
  - by exists [ProxyAuthentication_ o]; eexists.
  - right. split; [done|]. split; [by eexists|]. exists [ProxyAuthentication_ o]. by do 2 eexists.
Qed.

Lemma handle_trail v t r w :
  let '(x, w') := handle v t r w in
  exists l, history w' = history w ++ l /\
    transaction_trail r (match x with Ok (response, _) => Ok response | Err e => Err e end) (audited l).
Proof.
  unfold handle. unfold mbind at 1, flow_bind at 1.
  pose proof (follows_one _ _ w (audit_request_follows v t r)) as H0'.
  destruct (audit_request v t r w) as [r0 w0]. destruct H0' as (l0 & Hl0 & Ha0 & [-> |(Hfc & error & ->)]); cycle 1.
  { exists l0. split; [done|]. exists []. split; [done|]. left. by rewrite Ha0. }
  unfold mbind at 1, flow_bind at 1. pose proof (authentication_trail v t r w0) as Hauth.
  destruct (proxy_authentication v t r w0) as [[[response|]|error] w1]; destruct Hauth as (l1 & Hl1 & Ha1).
  { destruct Ha1 as (middle & e & Hm & Hans & Ha1). exists (l0 ++ l1). rewrite Hl1, Hl0, app_assoc. split; [done|].
    exists middle. split; [done|]. exists e. rewrite audited_app, Ha0, Ha1. done. }
  2: { exists (l0 ++ l1). rewrite Hl1, Hl0, app_assoc. split; [done|].
       destruct Ha1 as [Ha1|(Hfc & He & middle & response & e & Hm & Hans & Ha1)].
       - exists (audited l1). split; [done|]. left. by rewrite audited_app, Ha0.
       - exists middle. split; [done|]. right. split; [done|]. split; [done|]. exists response, e. split; [done|].
         by rewrite audited_app, Ha0, Ha1. }
  unfold mbind at 1, flow_bind at 1, attempt. destruct (body_inside v t r w1) as (l2 & Hl2 & HF2).
  apply audits_audited in HF2.
  match type of Hl2 with history (?m w1).2 = _ => destruct (m w1) as [answer w2] end. cbn [snd] in Hl2.
  destruct (match answer with Ok (response, handle) => _ | Err e => _ end) as [x handle].
  unfold mbind, flow_bind. pose proof (conclude_spec v t x w2) as Hc.
  destruct (conclude_response v t x w2) as [y w3]. destruct Hc as (l3 & Hl3 & Hc).
  assert (Hhist : history w3 = history w ++ l0 ++ l1 ++ l2 ++ l3).
  { by rewrite Hl3, Hl2, Hl1, Hl0, <- !app_assoc. }
  assert (Hmid : Forall inside_transaction (audited l1 ++ audited l2)) by (by apply Forall_app).
  assert (Haud : audited (l0 ++ l1 ++ l2 ++ l3) = request_event r :: (audited l1 ++ audited l2) ++ audited l3).
  { rewrite !audited_app, Ha0. cbn [app]. by rewrite <- app_assoc. }
  destruct y as [response|error]; exists (l0 ++ l1 ++ l2 ++ l3); (split; [done|]);
    exists (audited l1 ++ audited l2); (split; [done|]); rewrite Haud.
  - destruct Hc as (e & Hans & ->). by exists e.
  - destruct Hc as [-> |(Hfc & He & response & e & Hans & ->)]; [left; by rewrite app_nil_r|right].
    split; [done|]. split; [done|]. by exists response, e.
Qed.
Lemma handle_intercepted_trail v target selected t p r w :
  let '(x, w') := handle_intercepted v target selected t p r w in
  exists l, history w' = history w ++ l /\ transaction_trail r x (audited l).
Proof.
  unfold handle_intercepted. unfold mbind at 1, flow_bind at 1.
  pose proof (follows_one _ _ w (audit_request_follows v t r)) as Ho.
  destruct (audit_request v t r w) as [r0 w0]. destruct Ho as (l0 & Hl0 & Ha0 & [-> |(Hfc & error & ->)]); cycle 1.
  { exists l0. split; [done|]. exists []. split; [done|]. left. by rewrite Ha0. }
  unfold mbind, flow_bind, attempt.
  destruct (only_forward_intercepted (audits inside_transaction) ltac:(by left) ltac:(done) v target selected t p r ltac:(done) w0)
    as (l1 & Hl1 & HF1%audits_audited).
  destruct (forward_intercepted v target selected t p r w0) as [x w1]. cbn [snd] in Hl1.
  pose proof (conclude_spec v t x w1) as Hc. destruct (conclude_response v t x w1) as [y w2]. destruct Hc as (l2 & Hl2 & Hc).
  exists (l0 ++ l1 ++ l2). rewrite Hl2, Hl1, Hl0, !app_assoc. split; [done|]. exists (audited l1). split; [done|].
  rewrite !audited_app, Ha0. cbn [app]. destruct y as [response|error].
  - destruct Hc as (e & Hans & ->). by exists e.
  - destruct Hc as [-> |(Hfc & He & response & e & Hans & ->)]; [left; by rewrite app_nil_r|right].
    split; [done|]. split; [done|]. by exists response, e.
Qed.

(** C28. Every HTTP transaction is on the record: whatever happens to it, its first audit
    event is the request as it was received; if the client is given a response, the last
    event is exactly that response, with its status and headers, and no other request or
    response is recorded in between; a transaction that ends without a response records
    none, unless the audit channel failed closed on it. *)
Theorem http_transaction_trail (v : http_service) (t : transaction_id) (r : http_request incoming) (w : world) :
  let '(x, w') := handle v t r w in
  exists l, history w' = history w ++ l /\
    transaction_trail r (match x with Ok (response, _) => Ok response | Err e => Err e end) (audited l).
Proof. exact (handle_trail v t r w). Qed.

(** C31. Without credentials there is nothing but a challenge: when the listener demands
    authentication and the request's credentials do not verify, the proxy records the
    request, the rejection and the challenge, returns that challenge, and does nothing
    else at all: no policy is asked, no name resolved, no hook run, nothing read or sent. *)
Theorem unauthenticated_requests_stop (v : http_service) (t : transaction_id) (r : http_request incoming)
    (a : ProxyAuthentication.t) :
  HttpForwardListener.authentication (service_listener v) = Some a ->
  authenticate_proxy_request (req_headers r) a = false ->
  follows (handle v t r)
    [request_event r; ProxyAuthentication_ Rejected;
     HttpResponseObserved (HttpStatusCode.Make 407) (audit_headers (resp_headers (proxy_authentication_required a)))]
    (Ok (proxy_authentication_required a, None)).
Proof.
  intros Ha Hno. unfold handle. apply (follows_bind _ _ [_] _ tt); [apply audit_request_follows|].
  rewrite <- (app_nil_r [ProxyAuthentication_ Rejected; _]).
  eapply (follows_bind _ _ _ _ (Some (proxy_authentication_required a))); [|apply follows_ret].
  unfold proxy_authentication. rewrite Ha, Hno. cbv zeta.
  apply (follows_bind _ _ [_] _ tt); [apply follows_publish_event|].
  assert (Hs : resp_status (proxy_authentication_required a) = 407%N).
  { unfold proxy_authentication_required. by destruct (header_value _). }
  rewrite Hs. eapply (follows_bind _ _ []); [apply follows_lift|].
  apply (follows_bind _ _ [_] [] tt); [apply follows_publish_event|apply follows_ret].
Qed.
End HttpTrail.
