(* ===== verification/HttpBodies.v ===== *)
(** Bodies of HTTP messages: bounded collection is exact, preflight bodies are inspected
    whole, and a streamed body is delivered in order, no further than inspection permits. *)
From stdpp Require Import gmap strings.
From stdpp Require Import prelude.
From S2P Require Import Prelude Bytes Net Endpoint Domain PolicyModel Acl Guard Inspection AuditModel AuditSink Hooks Runtime Destination FlowInspect Relay Settings TcpSession HttpHeaders Tls HttpMessages HttpService HttpSafety.

(** * Collection *)

(** The length of the data of the first [k] data frames. *)
Definition first_data (k : nat) (body : incoming) : N := lenN (concat (take k (body_data body))).
Lemma first_data_0 body : first_data 0 body = 0%N.
Proof. done. Qed.
Lemma lenN_app (a b : bytes) : lenN (a ++ b) = (lenN a + lenN b)%N.
Proof. unfold lenN. rewrite length_app. lia. Qed.
Lemma collect_from_spec collected maximum body : (maximum < u64_max)%N -> (lenN collected <= maximum)%N ->
  match collect_from collected maximum body with
  | Ok b => complete body = true /\ b = collected ++ concat (body_data body) /\ (lenN b <= maximum)%N
  | Err (LimitExceeded observed m) =>
      m = maximum /\ exists k, (forall j, j <= k -> (lenN collected + first_data j body <= maximum)%N) /\
        (maximum < lenN collected + first_data (S k) body)%N
  | Err CollectHyper => exists before after, body = before ++ FrameFailed :: after /\ complete before = true /\
      (lenN collected + lenN (concat (body_data before)) <= maximum)%N
  | Err CollectReadTimedOut => exists before after, body = before ++ FrameLate :: after /\ complete before = true /\
      (lenN collected + lenN (concat (body_data before)) <= maximum)%N
  end.
Proof.
  intros Hmax. revert collected; induction body as [|a body IH]; intros collected Hc; cbn [collect_from].
  { cbn. by rewrite app_nil_r. }
  destruct a as [[data|trailers]| |].
  - assert (Hsat : (maximum <? sat_add (lenN collected) (lenN data))%N = (maximum <? lenN collected + lenN data)%N).
    { apply bool_eq_iff. rewrite !N.ltb_lt. unfold sat_add. lia. }
    rewrite Hsat. assert (Hlen : lenN (collected ++ data) = (lenN collected + lenN data)%N) by apply lenN_app.
    destruct (N.ltb_spec maximum (lenN collected + lenN data)) as [Hover|Hfit].
    + split; [done|]. exists 0. split.
      * intros j Hj. assert (j = 0) as -> by lia. rewrite first_data_0. lia.
      * unfold first_data. cbn [body_data take concat]. rewrite app_nil_r. lia.
    + specialize (IH (collected ++ data)). rewrite Hlen in IH. specialize (IH Hfit).
      destruct (collect_from (collected ++ data) maximum body) as [b|[| |observed m]].
      * destruct IH as (Hok & -> & Hle). split; [exact Hok|]. split; [|done]. cbn. by rewrite app_assoc.
      * destruct IH as (before & after & -> & Hok & Hle). exists (Frame (DataFrame data) :: before), after.
        split; [done|]. split; [exact Hok|]. cbn [body_data concat]. rewrite lenN_app. lia.
      * destruct IH as (before & after & -> & Hok & Hle). exists (Frame (DataFrame data) :: before), after.
        split; [done|]. split; [exact Hok|]. cbn [body_data concat]. rewrite lenN_app. lia.
      * destruct IH as (-> & k & Hk & Hover). split; [done|]. exists (S k).
        assert (Hfirst : forall j, (first_data (S j) (Frame (DataFrame data) :: body) = lenN data + first_data j body)%N).
        { intros j. unfold first_data. cbn [body_data take concat]. by rewrite lenN_app. }
        split; [|rewrite Hfirst; lia]. intros [|j] Hj; [rewrite first_data_0; lia|]. rewrite Hfirst. specialize (Hk j). lia.
  - specialize (IH collected Hc). destruct (collect_from collected maximum body) as [b|[| |observed m]].
    + exact IH.
    + destruct IH as (before & after & -> & Hok & Hle). by exists (Frame (TrailersFrame trailers) :: before), after.
    + destruct IH as (before & after & -> & Hok & Hle). by exists (Frame (TrailersFrame trailers) :: before), after.
    + exact IH.
  - exists [], body. split; [done|]. split; [done|]. cbn [body_data concat]. change (lenN []) with 0%N. lia.
  - exists [], body. split; [done|]. split; [done|]. cbn [body_data concat]. change (lenN []) with 0%N. lia.
Qed.

Lemma complete_app (a b : incoming) : complete (a ++ b) = complete a && complete b.
Proof. apply forallb_app. Qed.
Lemma first_data_le k body : (first_data k body <= lenN (concat (body_data body)))%N.
Proof. unfold first_data. rewrite <- (take_drop k (body_data body)) at 2. rewrite concat_app, lenN_app. lia. Qed.
(** In short: the whole data of a complete body that fits. *)
Lemma collection_spec body maximum : (maximum < u64_max)%N ->
  match collect_bounded body maximum with
  | Ok b => complete body = true /\ b = concat (body_data body) /\ (lenN b <= maximum)%N
  | Err (LimitExceeded _ _) => (maximum < lenN (concat (body_data body)))%N
  | Err _ => complete body = false
  end.
Proof.
  intros Hmax. pose proof (collect_from_spec [] maximum body Hmax ltac:(change (lenN []) with 0%N; lia)) as Hc.
  unfold collect_bounded. destruct (collect_from [] maximum body) as [b|[| |observed m]]; [done|..].
  - destruct Hc as (before & after & -> & _). rewrite complete_app. cbn. by rewrite andb_false_r.
  - destruct Hc as (before & after & -> & _). rewrite complete_app. cbn. by rewrite andb_false_r.
  - destruct Hc as (_ & k & _ & Hk). change (lenN []) with 0%N in Hk. pose proof (first_data_le (S k) body). lia.
Qed.

(** Bounded collection is exact and bounded: it succeeds exactly with the whole data of
    a body that ends and fits the limit; it reports the limit as soon as the data frames
    received exceed it, and not before; a failed or late frame is reported only when
    everything before it was in order and fitted. *)
Theorem collection_is_exact (body : incoming) (maximum : N) : (maximum < u64_max)%N ->
  match collect_bounded body maximum with
  | Ok b => complete body = true /\ b = concat (body_data body) /\ (lenN b <= maximum)%N
  | Err (LimitExceeded observed m) =>
      m = maximum /\ exists k, (forall j, j <= k -> (first_data j body <= maximum)%N) /\ (maximum < first_data (S k) body)%N
  | Err CollectHyper => exists before after, body = before ++ FrameFailed :: after /\ complete before = true /\
      (lenN (concat (body_data before)) <= maximum)%N
  | Err CollectReadTimedOut => exists before after, body = before ++ FrameLate :: after /\ complete before = true /\
      (lenN (concat (body_data before)) <= maximum)%N
  end.
Proof. intros Hmax. apply (collect_from_spec [] maximum body Hmax). change (lenN []) with 0%N. lia. Qed.

(** * Streaming *)

Lemma takeN_idem m (b : bytes) : takeN m (takeN m b) = takeN m b.
Proof. unfold takeN. by rewrite take_take, Nat.min_id. Qed.
Lemma lenN_takeN m (b : bytes) : lenN (takeN m b) = N.min m (lenN b).
Proof. unfold lenN, takeN. rewrite length_take. lia. Qed.

Section Pump.
Context `{HttpEnvironment, Sha256, Hex}.
(** What a pump hands over. *)
Definition delivered (l : list step) : list (result body_error body_frame) :=
  omap (fun s => match s with FrameDelivered f => Some f | _ => None end) l.
Definition delivered_data (l : list step) : list bytes :=
  omap (fun f => match f with Ok (DataFrame b) => Some b | _ => None end) (delivered l).
Lemma delivered_app a b : delivered (a ++ b) = delivered a ++ delivered b.
Proof. apply omap_app. Qed.
Lemma delivered_data_app a b : delivered_data (a ++ b) = delivered_data a ++ delivered_data b.
Proof. unfold delivered_data. by rewrite delivered_app, omap_app. Qed.
Lemma publishing_delivers_nothing l : Forall publishing l -> delivered l = [].
Proof. induction 1 as [|s l Hs HF IH]; [done|]. by destruct s. Qed.
Lemma send_spec f w : exists l, history (send_body_frame f w).2 = history w ++ l /\
  (send_body_frame f w).1 = Ok (frame_accepted (history w)) /\
  delivered l = (if frame_accepted (history w) then [f] else []).
Proof.
  unfold send_body_frame. destruct (frame_accepted (history w)); cbn; [by exists [FrameDelivered f]|].
  exists []. by rewrite app_nil_r.
Qed.
Lemma end_with_spec e w : exists l, history (end_with e w).2 = history w ++ l /\
  (delivered l = [] \/ delivered l = [Err e]).
Proof.
  unfold end_with, mbind, flow_bind. destruct (send_spec (Err e) w) as (l & Hl & Hr & Hd).
  destruct (send_body_frame (Err e) w) as [[taken|e'] w1]; cbn [fst snd] in *; [|done].
  exists l. split; [done|]. destruct (frame_accepted _); auto.
Qed.

Section Inspected.
Context (snapshot : policy_snapshot) (d : direction) (maximum : N).
Context (Henforce : enforcement snapshot = Enforce).
Context (Hwf : program_wf (snapshot_inspection snapshot)) (Hmax : (maximum <= u64_max)%N).
Context (Hhooks : forall h, HookRunner.mode (hook_runner h) = Disabled).
Notation cleaned text := (FlowInspect.clean (snapshot_inspection snapshot) d (takeN maximum text)).

(** The inspector after the data [acc]: it has seen the first [maximum] bytes of it. *)
Definition pump_state (acc : bytes) (inspected : N) (i : flow_inspector) : Prop :=
  exists streams, tracks snapshot Http maximum streams i /\ streams d = takeN maximum acc /\ inspected = lenN (streams d).
(** One data frame: what the inspection part of the loop decides. *)
Definition verdict_of (inspected : N) (i : flow_inspector) (data : bytes) : flow (bool * flow_inspector) :=
  let count := N.min (maximum - inspected) (lenN data) in
  if (0 <? count)%N then inspector_permits i d (takeN count data) else mret (true, i).
Definition next_inspected (inspected : N) (data : bytes) : N :=
  let count := N.min (maximum - inspected) (lenN data) in
  if (0 <? count)%N then sat_add inspected count else inspected.
Lemma verdict_spec acc inspected i data w : pump_state acc inspected i -> cleaned acc ->
  let '(r, w') := verdict_of inspected i data w in
  exists l, history w' = history w ++ l /\ delivered l = [] /\
    match r with
    | Ok (ok, i') => (ok = true <-> cleaned (acc ++ data)) /\ pump_state (acc ++ data) (next_inspected inspected data) i'
    | Err e => audit_policy = FailClosed
    end.
Proof.
  intros (streams & Htr & Hs & ->) Hclean. unfold verdict_of, next_inspected. cbv zeta.
  assert (Hcount : N.min (maximum - lenN (streams d)) (lenN data) = N.min (maximum - N.min maximum (lenN acc)) (lenN data)).
  { by rewrite Hs, lenN_takeN. }
  assert (Hnext : takeN maximum (acc ++ data) = streams d ++ takeN (N.min (maximum - lenN (streams d)) (lenN data)) data).
  { by rewrite Hcount, Hs, <- takeN_app_within. }
  set (count := N.min (maximum - lenN (streams d)) (lenN data)) in *.
  destruct (N.ltb_spec 0 count) as [Hpos|Hzero]; cycle 1.
  { exists []. split; [by rewrite app_nil_r|]. split; [done|].
    assert (Hsame : takeN maximum (acc ++ data) = takeN maximum acc).
    { rewrite Hnext, Hs. replace count with 0%N by lia. unfold takeN. by rewrite take_0, app_nil_r. }
    rewrite Hsame. split; [by split|]. exists streams. by rewrite Hsame. }
  pose proof (permits_follow i d (takeN count data) w) as Hf.
  pose proof (permits_run_clean snapshot Http maximum streams i d (takeN count data) Henforce Hwf Hmax Htr) as Hrun.
  rewrite Hs, takeN_idem in Hrun. specialize (Hrun Hclean). rewrite <- Hs, <- Hnext, takeN_idem in Hrun.
  destruct (inspector_permits i d (takeN count data) w) as [r w'].
  destruct (permits_run i d (takeN count data)) as [events [ok i']]. destruct Hrun as [Htr' Hok].
  destruct Hf as (le & (_ & _ & l & Hl & _ & Hpub) & Hcase). exists l. split; [done|].
  split; [by apply publishing_delivers_nothing|].
  destruct Hcase as [[-> _]|(Hfc & [e ->] & _)]; [|done]. split; [done|].
  exists (extend streams d (takeN count data)). split; [done|].
  assert (Hext : extend streams d (takeN count data) d = takeN maximum (acc ++ data)).
  { unfold extend. by rewrite decide_True by done; rewrite Hnext. }
  split; [done|]. rewrite Hext, Hnext. rewrite sat_add_small.
  - unfold lenN at 2. rewrite length_app. fold (lenN (streams d)).
    assert (lenN (takeN count data) = count) by (rewrite lenN_takeN; lia). unfold lenN in *. lia.
  - assert (lenN (streams d) <= maximum)%N by (rewrite Hs, lenN_takeN; lia). unfold count. lia.
Qed.

(** Delivered frames: some without error, then at most one error. *)
Definition well_ended (fs : list (result body_error body_frame)) : Prop :=
  exists frames tail, fs = map Ok frames ++ tail /\ (tail = [] \/ exists e, tail = [Err e]).
Lemma well_ended_cons f fs : well_ended fs -> well_ended (Ok f :: fs).
Proof. intros (frames & tail & -> & Ht). by exists (f :: frames), tail. Qed.
Lemma well_ended_error l e : delivered l = [] \/ delivered l = [Err e] -> well_ended (delivered l) /\ delivered_data l = [].
Proof.
  unfold delivered_data. intros [-> | ->]; (split; [|done]).
  - exists [], []. auto.
  - exists [], [Err e]. eauto.
Qed.
(** Nothing but the body and the policy decides: no shutdown, no lost receiver, no
    audit failure. *)
Definition undisturbed : Prop :=
  (forall h, frame_interrupted h = false) /\ (forall h, frame_accepted h = true) /\ audit_policy = FailOpen.
Definition pump_result (p : body_pump) (acc : bytes) (body : incoming) (l : list step) : Prop :=
  well_ended (delivered l) /\ delivered_data l `prefix_of` body_data body /\
  cleaned (acc ++ concat (delivered_data l)) /\
  (undisturbed -> complete body = true -> cleaned (acc ++ concat (body_data body)) -> delivered_data l = body_data body).
Lemma unclean_after acc (a b : bytes) : ~ cleaned (acc ++ a) -> ~ cleaned (acc ++ a ++ b).
Proof. intros Hn Hc. apply Hn. rewrite app_assoc in Hc. by apply clean_prefix in Hc. Qed.

Lemma pump_loop_spec p inspected i body acc w :
  pump_direction p = d -> pump_maximum p = maximum -> pump_state acc inspected i -> cleaned acc ->
  exists l, history (pump_loop p inspected i body w).2 = history w ++ l /\ pump_result p acc body l.
Proof.
  intros Hd Hm. revert inspected i acc w; induction body as [|a body IH]; intros inspected i acc w Hstate Hclean;
    cbn [pump_loop]; destruct (frame_interrupted (history w)) eqn:Hint.
  1,3: exists []; rewrite app_nil_r; (split; [done|]); split; [exists [], []; auto|]; split; [apply prefix_nil|];
    cbn; rewrite app_nil_r; (split; [done|]); intros (Hi & _); by rewrite Hi in Hint.
  { exists []. rewrite app_nil_r. split; [done|]. split; [exists [], []; auto|]. cbn. rewrite app_nil_r. done. }
  assert (Hstop : forall e, (undisturbed -> complete (a :: body) = true ->
      cleaned (acc ++ concat (body_data (a :: body))) -> False) -> forall w1 l1,
    history w1 = history w ++ l1 -> delivered l1 = [] ->
    exists l, history (end_with e w1).2 = history w ++ l /\ pump_result p acc (a :: body) l).
  { intros e Hno w1 l1 Hl1 Hd1. destruct (end_with_spec e w1) as (l2 & Hl2 & Hd2). exists (l1 ++ l2).
    rewrite Hl2, Hl1, app_assoc. split; [done|]. destruct (well_ended_error l2 e Hd2) as [Hwe Hdata].
    unfold pump_result. rewrite delivered_app, delivered_data_app, Hdata, Hd1. cbn [app].
    assert (delivered_data l1 = []) as -> by (unfold delivered_data; by rewrite Hd1).
    split; [done|]. split; [apply prefix_nil|]. cbn. rewrite app_nil_r. split; [done|].
    intros Hu Hc Hcl. by destruct (Hno Hu Hc Hcl). }
  destruct a as [[data|trailers]| |].
  - cbv zeta. rewrite Hd, Hm. unfold mbind at 1, flow_bind at 1, attempt at 1.
    pose proof (verdict_spec acc inspected i data w Hstate Hclean) as Hv. unfold verdict_of, next_inspected in Hv. cbv zeta in Hv.
    revert Hv. match goal with |- context [(if (0 <? ?c)%N then ?a else ?b) w] =>
      destruct ((if (0 <? c)%N then a else b) w) as [[[ok i']|e] w1] end; intros (l1 & Hl1 & Hd1 & Hv); cycle 1.
    { eapply Hstop; [|done|done]. intros (_ & _ & Hfo). congruence. }
    destruct Hv as [Hok Hstate']. destruct ok; cycle 1.
    { eapply Hstop; [|done|done]. intros _ _ Hcl. cbn [body_data concat] in Hcl.
      assert (Hfalse : false = true); [|done]. apply Hok. rewrite app_assoc in Hcl. by apply clean_prefix in Hcl. }
    unfold mbind at 1, flow_bind at 1, attempt, transform_http_body. rewrite decide_True by apply Hhooks.
    unfold mbind, flow_bind. destruct (send_spec (Ok (DataFrame data)) w1) as (l2 & Hl2 & Hr2 & Hd2).
    destruct (send_body_frame (Ok (DataFrame data)) w1) as [r2 w2]; cbn [fst snd] in *. rewrite Hr2.
    destruct (frame_accepted (history w1)) eqn:Hacc; cycle 1.
    { exists (l1 ++ l2). cbn [mret flow_ret snd]. rewrite Hl2, Hl1, app_assoc. split; [done|]. unfold pump_result.
      assert (delivered_data (l1 ++ l2) = []) as -> by (unfold delivered_data; by rewrite delivered_app, Hd1, Hd2).
      rewrite delivered_app, Hd1, Hd2. split; [exists [], []; auto|]. split; [apply prefix_nil|]. cbn. rewrite app_nil_r.
      split; [done|]. intros (_ & Ha & _). by rewrite Ha in Hacc. }
    destruct (IH _ i' (acc ++ data) w2 Hstate' (proj1 Hok eq_refl)) as (l3 & Hl3 & Hwe & Hpre & Hcl & Hall).
    exists (l1 ++ l2 ++ l3). rewrite Hl3, Hl2, Hl1, !app_assoc. split; [done|]. unfold pump_result.
    assert (delivered_data (l1 ++ l2 ++ l3) = data :: delivered_data l3) as Hdata.
    { unfold delivered_data. rewrite !delivered_app, Hd1, Hd2. done. }
    rewrite <- (app_assoc l1). rewrite Hdata, !delivered_app, Hd1, Hd2. cbn [app body_data concat].
    split; [by apply well_ended_cons|]. split; [by apply prefix_cons|]. rewrite !app_assoc. split; [done|].
    intros Hu Hc Hclean'. by rewrite Hall.
  - destruct (body_may_change p).
    + destruct (IH inspected i acc w Hstate Hclean) as (l & Hl & Hwe & Hpre & Hcl & Hall). exists l. by split.
    + unfold mbind, flow_bind. destruct (send_spec (Ok (TrailersFrame trailers)) w) as (l2 & Hl2 & Hr2 & Hd2).
      destruct (send_body_frame (Ok (TrailersFrame trailers)) w) as [r2 w2]; cbn [fst snd] in *. rewrite Hr2.
      assert (Hdata2 : delivered_data l2 = []) by (unfold delivered_data; rewrite Hd2; by destruct (frame_accepted _)).
      destruct (frame_accepted (history w)) eqn:Hacc; cycle 1.
      { exists l2. split; [done|]. unfold pump_result. rewrite Hdata2, Hd2. split; [exists [], []; auto|].
        split; [apply prefix_nil|]. cbn. rewrite app_nil_r. split; [done|]. intros (_ & Ha & _). by rewrite Ha in Hacc. }
      destruct (IH inspected i acc w2 Hstate Hclean) as (l3 & Hl3 & Hwe & Hpre & Hcl & Hall).
      exists (l2 ++ l3). rewrite Hl3, Hl2, app_assoc. split; [done|]. unfold pump_result.
      rewrite delivered_data_app, Hdata2, delivered_app, Hd2. cbn [app body_data].
      split; [by apply well_ended_cons|]. by split.
  - apply (Hstop BodyHyper) with (l1 := []); [done|by rewrite app_nil_r|done].
  - apply (Hstop BodyReadTimedOut) with (l1 := []); [done|by rewrite app_nil_r|done].
Qed.
End Inspected.
End Pump.

(** * A first chunk, in either mode *)

Section FirstChunk.
Context `{Environment, Sha256, Hex}.
Lemma fresh_scan i snapshot s t p maximum d b :
  program_wf (snapshot_inspection snapshot) -> (maximum <= u64_max)%N ->
  scan_view i = scan_view (inspector_of snapshot s t p maximum) ->
  default [] (scan_step i d b).1 = InspectionProgram.patterns (snapshot_inspection snapshot) ≫= new_findings d [] (takeN maximum b) /\
  inspector_decision (scan_step i d b).2 = snapshot /\ inspector_protocol (scan_step i d b).2 = p.
Proof.
  intros Hwf Hmax E. unfold scan_view in E. injection E as E1 E2 E3 E4 E5 E6.
  pose proof (f_equal (fun g => g d) E6) as Ed. cbv beta in Ed.
  assert (Hz : array_get 0%N (inspected_bytes i) (direction_index d) = 0%N) by (rewrite E5; by destruct d).
  unfold scan_step. rewrite E4, Hz, Ed, N.sub_0_r.
  assert (Hfresh : scanner_inv (snapshot_inspection snapshot) d [] (scanner_of (inspector_of snapshot s t p maximum) d)).
  { destruct d; by apply scanner_fresh. }
  assert (Hlen : (lenN (takeN maximum b) <= u64_max)%N) by (rewrite lenN_takeN; lia).
  destruct (inspect_step _ d [] _ (takeN maximum b) Hwf Hfresh Hlen) as [Hf _].
  assert (Hcount : takeN (N.min maximum (lenN b)) b = takeN maximum b).
  { unfold takeN, lenN. destruct (decide (N.to_nat maximum <= length b)).
    - by rewrite N.min_l by lia.
    - rewrite N.min_r by lia. rewrite !take_ge by lia. done. }
  destruct (N.eqb_spec (N.min maximum (lenN b)) 0) as [Hn|Hn]; cbn [fst snd default].
  - split; [|by rewrite E1, E2]. rewrite <- Hf.
    assert (takeN maximum b = []) as ->; [|done].
    rewrite <- Hcount, Hn. done.
  - rewrite Hcount. destruct (StreamScanner.inspect _ (takeN maximum b)) as [findings sc]. cbn [fst snd default] in *.
    split; [done|]. by rewrite <- E1, <- E2.
Qed.
Lemma clean_nil program d : program_wf program -> FlowInspect.clean program d [].
Proof.
  intros Hwf q Hq Ha Happ. unfold match_offsets. cbn.
  destruct (starts_with _ []) eqn:Es; [|done]. apply starts_with_spec in Es as (r & Hr).
  symmetry in Hr. apply app_eq_nil in Hr as [Hb _]. by apply Hwf in Hq as [? _].
Qed.
Lemma fresh_verdict i snapshot s t p maximum d b w :
  enforcement snapshot = Enforce -> program_wf (snapshot_inspection snapshot) -> (maximum <= u64_max)%N ->
  scan_view i = scan_view (inspector_of snapshot s t p maximum) ->
  match (inspector_permits i d b w).1 with
  | Ok (ok, _) => ok = true <-> FlowInspect.clean (snapshot_inspection snapshot) d (takeN maximum b)
  | Err e => audit_policy = FailClosed /\ exists error, e = Audit error
  end.
Proof.
  intros He Hwf Hmax Hview. pose proof (permits_follow i d b w) as Hf.
  destruct (inspector_permits i d b w) as [r w']. destruct Hf as (l & _ & Hcase). cbn [fst].
  destruct Hcase as [[-> _]|(Hfc & [e ->] & _)]; [|eauto].
  pose proof (permits_run_scan i d b) as Hrun.
  pose proof (capture_next_view (ui_next i d b) d b) as Hv. rewrite ui_next_view, Hview in Hv.
  destruct (capture_next (ui_next i d b) d b) as [events i2]. cbn [snd] in Hv. rewrite Hrun. cbn [snd].
  destruct (fresh_scan i2 snapshot s t p maximum d b Hwf Hmax Hv) as (Hfind & Hdec & Hproto).
  pose proof (judged_clean snapshot p d [] (takeN maximum b) He Hwf) as Hjudge. rewrite <- Hfind in Hjudge.
  pose proof (clean_app (snapshot_inspection snapshot) d [] (takeN maximum b) Hwf) as Happ. cbn [app] in Happ.
  unfold scan_run. destruct (scan_step i2 d b) as [[findings|] i3]; cbn [fst snd default] in *.
  - pose proof (judge_run_ok i3 findings) as Hj. destruct (judge_run i3 findings) as [rest ok]. cbn [fst snd] in *.
    rewrite Hj. unfold finding_decision. rewrite Hdec, Hproto, Happ.
    pose proof (clean_nil _ d Hwf). tauto.
  - split; [|done]. intros _. apply Happ. split; [by apply clean_nil|]. apply Hjudge. constructor.
Qed.
End FirstChunk.

(** * Properties *)

Section Properties.
Context `{HttpEnvironment, Sha256, Hex}.
(** No refusing pattern for this direction occurs in the text. *)
Definition refuses_nothing (ps : list InspectionPattern.t) (d : direction) (text : bytes) : Prop :=
  forall q, q ∈ ps -> InspectionPattern.action q = RuleDeny -> InspectionPattern.applies_to q d = true ->
    match_offsets text (InspectionPattern.bytes_ q) = [].

(** A streamed body goes out in order and no further than inspection lets it: under
    enforcement, in streaming mode and without hooks, the data frames a pump delivers are
    a prefix of the data frames it received, unchanged; the inspected prefix of what was
    delivered contains no refused pattern, however the frames cut it; at most one error
    frame is delivered, and it is the last.  Undisturbed by shutdown, the receiver or the
    audit channel, a complete body is delivered completely exactly when its inspected
    prefix contains no refused pattern. *)
Theorem pump_delivers_inspected_prefix (g : PolicyGeneration.t) (ps : list InspectionPattern.t) (s : session_id)
    (t : transaction_id) (limits : proxy_limits) (body : incoming) (d : direction) (allowed may_change : bool)
    (target : resolved_facts) (w0 w1 w : world) (p : body_pump) :
  let snapshot := current_snapshot (history w0) in
  let maximum := body_prefix_bytes limits in
  start_streaming_inspection s t limits body d allowed may_change target w0 = (Ok (PumpedBody p), w1) ->
  InspectionProgram.new g ps = Ok (snapshot_inspection snapshot) ->
  Forall (fun q => InspectionPattern.bytes_ q <> []) ps ->
  enforcement snapshot = Enforce -> snapshot_inspection_mode snapshot = Streaming -> (maximum <= u64_max)%N ->
  (forall h, HookRunner.mode (hook_runner h) = Disabled) ->
  exists l, history (pump_inspected_body p w).2 = history w ++ l /\
    well_ended (delivered l) /\ delivered_data l `prefix_of` body_data body /\
    refuses_nothing ps d (takeN maximum (concat (delivered_data l))) /\
    (undisturbed -> complete body = true ->
     delivered_data l = body_data body <-> refuses_nothing ps d (takeN maximum (concat (body_data body)))).
Proof.
  intros snapshot maximum Hstart Hnew Hne He Hm Hmax Hhooks.
  destruct (inspection_program_new_wf g ps _ Hnew Hne) as [Hwf Hps].
  unfold start_streaming_inspection, inspector_new, mbind, flow_bind, decision_snapshot, mret, flow_ret, register_task in Hstart.
  destruct (task_registered (history w0)); [|done]. injection Hstart as <- <-.
  unfold pump_inspected_body. cbn [pump_inspection pump_body].
  set (i := with_target (inspector_of snapshot s (Some t) Http maximum) target).
  assert (Hstate : pump_state snapshot d maximum [] 0 i).
  { exists (fun _ => []). split; [|by split; [unfold takeN; rewrite take_nil|]].
    eapply tracks_view; [|by apply (tracks_new snapshot s (Some t))]. done. }
  match goal with |- context [pump_loop ?q _ _ _ _] =>
    destruct (pump_loop_spec snapshot d maximum He Hwf Hmax Hhooks q 0 i body [] w eq_refl eq_refl Hstate) as (l & Hl & Hres) end.
  { unfold takeN. rewrite take_nil. by apply clean_nil. }
  destruct Hres as (Hwe & Hpre & Hcl & Hall). cbn [app] in Hcl, Hall.
  assert (Hclean : forall text, FlowInspect.clean (snapshot_inspection snapshot) d text <-> refuses_nothing ps d text).
  { intros text. unfold FlowInspect.clean, refuses_nothing. by rewrite Hps. }
  exists l. split; [done|]. split; [done|]. split; [done|]. split; [by apply Hclean|].
  intros Hu Hc. split; [intros <-; by apply Hclean|]. intros Hr. apply Hall; [done|done|]. by apply Hclean.
Qed.

(** Preflight holds a request back until all of it is inspected: under enforcement, in
    preflight mode and without hooks, the request that goes on carries its whole body,
    which arrived completely, fits the limit and contains no refused pattern; a body
    that does contain one is answered with the block page, and one that is too large,
    fails or is late with 413, 400 or 408. *)
Theorem preflight_requests_are_inspected (g : PolicyGeneration.t) (ps : list InspectionPattern.t) (s : session_id)
    (t : transaction_id) (limits : proxy_limits) (r : http_request incoming) (u : option uri) (target : resolved_facts)
    (w w' : world) (x : result (http_response proxy_body) (http_request proxy_body)) :
  let snapshot := current_snapshot (history w) in
  let maximum := body_prefix_bytes limits in
  let whole := concat (body_data (req_body r)) in
  InspectionProgram.new g ps = Ok (snapshot_inspection snapshot) ->
  Forall (fun q => InspectionPattern.bytes_ q <> []) ps ->
  enforcement snapshot = Enforce -> snapshot_inspection_mode snapshot = Preflight -> (maximum < u64_max)%N ->
  (forall h, HookRunner.mode (hook_runner h) = Disabled) ->
  prepare_request_body s t limits r u target w = (Ok x, w') ->
  match x with
  | Ok r' =>
      req_body r' = FullBody whole /\ complete (req_body r) = true /\ (lenN whole <= maximum)%N /\
      refuses_nothing ps HttpRequestBody whole
  | Err response =>
      (response = block_page /\ complete (req_body r) = true /\ (lenN whole <= maximum)%N /\
       ~ refuses_nothing ps HttpRequestBody whole) \/
      (resp_status response ∈ [413; 400; 408]%N /\ (complete (req_body r) = false \/ (maximum < lenN whole)%N))
  end.
Proof.
  intros snapshot maximum whole Hnew Hne He Hm Hmax Hhooks.
  destruct (inspection_program_new_wf g ps _ Hnew Hne) as [Hwf Hps].
  assert (Hclean : forall text, FlowInspect.clean (snapshot_inspection snapshot) HttpRequestBody text <-> refuses_nothing ps HttpRequestBody text).
  { intros text. unfold FlowInspect.clean, refuses_nothing. by rewrite Hps. }
  unfold prepare_request_body. rewrite decide_False by by rewrite Hhooks.
  unfold mbind at 1, flow_bind at 1, inspection_mode_. fold snapshot. rewrite Hm.
  pose proof (collection_spec (req_body r) maximum Hmax) as Hcol. fold whole in Hcol.
  fold maximum. destruct (collect_bounded (req_body r) maximum) as [b|e]; cbn [collected_or]; cycle 1.
  { intros Hrun. unfold mret, flow_ret in Hrun.
    destruct e; injection Hrun as <- <-; right; (split; [cbn [resp_status text_response]; set_solver|]); naive_solver. }
  destruct Hcol as (Hc & -> & Hlen).
  unfold mbind at 1, flow_bind at 1, inspect_preflight, inspector_new, mbind, flow_bind, decision_snapshot, mret, flow_ret.
  fold snapshot maximum.
  assert (Hfull : takeN maximum whole = whole) by (unfold takeN, lenN in *; rewrite take_ge; [done|lia]).
  pose proof (fresh_verdict (with_target (inspector_of snapshot s (Some t) Http maximum) target) snapshot s (Some t) Http
    maximum HttpRequestBody whole w He Hwf ltac:(lia) eq_refl) as Hv. rewrite Hfull in Hv.
  destruct (inspector_permits _ _ _ w) as [[[[] i']|e] w1]; cbn [fst negb] in *; [| |done].
  - unfold transform_preflight_body, inspector_new, transform_http_body, mbind, flow_bind, decision_snapshot, mret, flow_ret.
    rewrite decide_True by apply Hhooks. intros [= <- <-]. split; [done|]. split; [done|]. split; [done|]. by apply Hclean, Hv.
  - intros [= <- <-]. left. split; [done|]. split; [done|]. split; [done|]. intros Hr. by apply Hclean, Hv in Hr.
Qed.
End Properties.
