(* ===== verification/BodyChannel.v ===== *)
(** The channel between a body's pump and the connection that sends it
    (crates/freja-proxy/src/http/body.rs: [channel], [ChannelBody]; the capacity is that
    of service/body.rs).  Pump and receiver are two tasks: their interleaving is a list
    of events, quantified over.  The bounded queue is tokio's [mpsc] channel. *)
From stdpp Require Import gmap strings.
From stdpp Require Import prelude.
From S2P Require Import Prelude Bytes Net Endpoint Domain PolicyModel Acl Guard Inspection AuditModel AuditSink Hooks Runtime Destination FlowInspect Relay Settings TcpSession HttpHeaders Tls HttpMessages HttpService HttpSafety HttpBodies.

(** * The channel *)

(** [BodyFrame]. *)
Definition channel_frame : Type := result body_error body_frame.
Module BodyChannel.
(** What the sender's and the receiver's sides hold; [polled] is what the receiver was
    given so far, [ended] that it was told there is no more. *)
Record t : Type := Make {
  capacity : nat;
  queue : list channel_frame;
  sender : bool;
  receiver : bool;
  polled : list channel_frame;
  ended : bool }.
Definition channel (capacity : nat) : t := Make capacity [] true true [] false.
(** The capacity [start_streaming_inspection] gives. *)
Definition CAPACITY : nat := 8.
(** [ChannelBody::poll_frame]: [None] is [Poll::Pending]. *)
Definition poll_frame (c : t) : option (option channel_frame) * t :=
  match queue c with
  | f :: q => (Some (Some f), Make (capacity c) q (sender c) (receiver c) (polled c ++ [f]) (ended c))
  | [] => if sender c then (None, c) else (Some None, Make (capacity c) [] (sender c) (receiver c) (polled c) true)
  end.
(** [sender.send(frame)] completes: there is room, and a receiver. *)
Definition send (f : channel_frame) (c : t) : option t :=
  if sender c && receiver c && (length (queue c) <? capacity c)
  then Some (Make (capacity c) (queue c ++ [f]) (sender c) (receiver c) (polled c) (ended c)) else None.
(** Either side goes away: the pump returns, the connection drops the body. *)
Definition drop_sender (c : t) : t := Make (capacity c) (queue c) false (receiver c) (polled c) (ended c).
Definition drop_receiver (c : t) : t := Make (capacity c) [] (sender c) false (polled c) (ended c).
Inductive event : Type := Sent (f : channel_frame) | PumpReturned | Polled | BodyDropped.
(** [None]: the event cannot happen now. *)
Definition step (c : t) (e : event) : option t :=
  match e with
  | Sent f => send f c
  | PumpReturned => if sender c then Some (drop_sender c) else None
  | Polled => if receiver c then Some (poll_frame c).2 else None
  | BodyDropped => if receiver c then Some (drop_receiver c) else None
  end.
Fixpoint run (c : t) (es : list event) : option t :=
  match es with [] => Some c | e :: es => c ← step c e; run c es end.
Definition sends (es : list event) : list channel_frame := omap (fun e => match e with Sent f => Some f | _ => None end) es.
Definition is_return (e : event) : bool := match e with PumpReturned => true | _ => false end.
(** The pump's events of an interleaving: what it hands over, in its order, and its
    return after the last. *)
Definition interleaves (handed : list channel_frame) (es : list event) : Prop :=
  sends es `prefix_of` handed /\ (existsb is_return es = true -> sends es = handed).

(** What holds of a channel, after the frames [sent]. *)
Record holds (sent : list channel_frame) (returned : bool) (c : t) : Prop := {
  within : length (queue c) <= capacity c;
  in_order : polled c ++ queue c `prefix_of` sent;
  nothing_lost : receiver c = true -> polled c ++ queue c = sent;
  sender_returned : sender c = negb returned;
  ended_whole : ended c = true -> returned = true /\ polled c = sent }.
Lemma channel_holds n : holds [] false (channel n).
Proof. by split; cbn; [lia| | | |]. Qed.
Lemma step_holds sent returned c e c' : holds sent returned c -> step c e = Some c' ->
  holds (sent ++ sends [e]) (returned || is_return e) c' /\ capacity c' = capacity c.
Proof.
  intros [Hw Ho Hn Hs He] Hstep. destruct e as [f| | |]; cbn [sends omap list_omap] in *; rewrite ?app_nil_r.
  - cbn in Hstep. unfold send in Hstep. destruct (sender c) eqn:Es, (receiver c) eqn:Er; try done. cbn [andb] in Hstep.
    destruct (Nat.ltb_spec (length (queue c)) (capacity c)); [|done]. injection Hstep as <-. split; [|done]. destruct returned; [done|].
    split; cbn; [rewrite length_app; cbn; lia| | |done|].
    + rewrite app_assoc. rewrite Hn by done. done.
    + intros _. rewrite app_assoc. by rewrite Hn.
    + intros Hend. by destruct (He Hend).
  - cbn [is_return]. rewrite orb_true_r. cbn in Hstep. destruct (sender c) eqn:Es; [|done]. injection Hstep as <-. destruct returned; [done|]. split; [|done].
    split; cbn; [done|done|done|done|]. intros Hend. by destruct (He Hend).
  - cbn in Hstep. destruct (receiver c) eqn:Er; [|done]. injection Hstep as <-. specialize (Hn eq_refl). rewrite orb_false_r.
    unfold poll_frame. destruct (queue c) as [|f q] eqn:Eq; cbn [length] in *.
    + rewrite app_nil_r in Hn. destruct (sender c) eqn:Es; cbn; (split; [|done]); split; cbn; rewrite ?Eq, ?app_nil_r; try done.
      all: first [by rewrite Hn | by destruct returned].
    + cbn. split; [|done]. split; cbn; [lia| | |done|].
      * by rewrite <-app_assoc.
      * intros _. by rewrite <-app_assoc.
      * intros Hend. destruct (He Hend) as [_ Hp]. rewrite Hp in Hn. apply (f_equal length) in Hn. rewrite length_app in Hn. cbn in Hn. lia.
  - cbn in Hstep. destruct (receiver c) eqn:Er; [|done]. injection Hstep as <-. rewrite orb_false_r. split; [|done].
    split; cbn; [lia| |done|done|done]. rewrite app_nil_r. etrans; [|exact Ho]. by apply prefix_app_r.
Qed.
Lemma sends_app a b : sends (a ++ b) = sends a ++ sends b.
Proof. apply omap_app. Qed.
Lemma run_holds es : forall sent returned c c', holds sent returned c -> run c es = Some c' ->
  holds (sent ++ sends es) (returned || existsb is_return es) c' /\ capacity c' = capacity c.
Proof.
  induction es as [|e es IH]; intros sent returned c c' Hc Hrun; cbn [run] in Hrun.
  { injection Hrun as <-. cbn. by rewrite app_nil_r, orb_false_r. }
  destruct (step c e) as [c1|] eqn:Es; [|done]. destruct (step_holds sent returned c e c1 Hc Es) as [H1 Hcap].
  destruct (IH _ _ _ _ H1 Hrun) as [H2 Hcap2]. split; [|congruence]. change (e :: es) with ([e] ++ es). rewrite sends_app, app_assoc.
  cbn [existsb app]. by rewrite orb_assoc.
Qed.
End BodyChannel.

(** * How a pump ends *)

Section Ends.
Context `{HttpEnvironment, Sha256, Hex}.
(** Between two moments the pump was told to stop: by shutdown, or because what it sent
    was not taken. *)
Definition cut (h0 h1 : list step) : Prop :=
  exists h, h0 `prefix_of` h /\ h `prefix_of` h1 /\ (frame_interrupted h = true \/ frame_accepted h = false).
(** A pump ends with an error, or cut, or at the end of the body it read. *)
Definition pump_end (body : incoming) (h : list step) (l : list step) : Prop :=
  (exists e, Err e ∈ delivered l) \/ cut h (h ++ l) \/ complete body = true /\ length (delivered_data l) = length (body_data body).
Lemma cut_later h l1 l2 : cut (h ++ l1) (h ++ l1 ++ l2) -> cut h (h ++ l1 ++ l2).
Proof. intros (k & Hk & Hk2 & Hc). exists k. split; [|done]. etrans; [|exact Hk]. by apply prefix_app_r. Qed.
Lemma cut_at h l1 l2 : frame_interrupted (h ++ l1) = true \/ frame_accepted (h ++ l1) = false -> cut h (h ++ l1 ++ l2).
Proof. intros Hc. exists (h ++ l1). split; [by apply prefix_app_r|]. split; [|done]. rewrite app_assoc. by apply prefix_app_r. Qed.
Lemma verdict_delivers i d b (judged : bool) w :
  exists l, history ((if judged then inspector_permits i d b else mret (true, i)) w).2 = history w ++ l /\ delivered l = [].
Proof.
  destruct judged; [|exists []; by rewrite app_nil_r]. pose proof (permits_follow i d b w) as Hf.
  destruct (inspector_permits i d b w) as [r w']. destruct Hf as (le & (_ & _ & l & Hl & _ & Hpub) & _). exists l. split; [done|]. by apply publishing_delivers_nothing.
Qed.
(** After [l1], which hands nothing over, the pump sends a frame and goes on, or is cut. *)
Lemma send_then frame (body : incoming) (rest : flow unit) h l1 w1 n :
  history w1 = h ++ l1 -> delivered l1 = [] ->
  length (body_data body) = n + length (omap (fun f => match f with Ok (DataFrame b) => Some b | _ => None end) [frame]) ->
  (forall w2, exists l, history (rest w2).2 = history w2 ++ l /\
     ((exists e, Err e ∈ delivered l) \/ cut (history w2) (history w2 ++ l) \/ complete body = true /\ length (delivered_data l) = n)) ->
  exists l, history ((taken ← send_body_frame frame; if (taken : bool) then rest else mret tt) w1).2 = h ++ l /\ pump_end body h l.
Proof.
  intros Hw1 Hd1 Hn Hrest. unfold mbind, flow_bind. destruct (send_spec frame w1) as (l2 & Hl2 & Hr2 & Hd2).
  destruct (send_body_frame frame w1) as [r w2]. cbn [fst snd] in *. rewrite Hr2. rewrite Hw1 in Hd2, Hl2 |- *. destruct (frame_accepted (h ++ l1)) eqn:Hacc; cycle 1.
  { exists (l1 ++ l2). cbn. rewrite Hl2, <-app_assoc. split; [done|]. right. left. apply cut_at. by right. }
  destruct (Hrest w2) as (l3 & Hl3 & Hend). exists (l1 ++ l2 ++ l3). rewrite Hl3, Hl2, <-!app_assoc. split; [done|]. unfold pump_end.
  rewrite !delivered_app, !delivered_data_app, Hd1. assert (delivered_data l1 = []) as -> by (unfold delivered_data; by rewrite Hd1). cbn [app].
  assert (delivered_data l2 = omap (fun f => match f with Ok (DataFrame b) => Some b | _ => None end) [frame]) as -> by (unfold delivered_data; by rewrite Hd2).
  destruct Hend as [[e He]|[Hc|[Hcomplete Hlen]]].
  - left. exists e. set_solver.
  - right. left. rewrite Hl2, <-!app_assoc in Hc. rewrite (app_assoc l1 l2 l3). apply (cut_later h (l1 ++ l2) l3). by rewrite <-!app_assoc.
  - right. right. split; [done|]. rewrite length_app. lia.
Qed.
(** After [l1], an error ends the pump. *)
Lemma error_ends (body : incoming) e h l1 w1 : history w1 = h ++ l1 ->
  exists l, history (end_with e w1).2 = h ++ l /\ pump_end body h l.
Proof.
  intros Hw1. unfold end_with, mbind, flow_bind. destruct (send_spec (Err e) w1) as (l2 & Hl2 & Hr2 & Hd2).
  destruct (send_body_frame (Err e) w1) as [r w2]. cbn [fst snd] in *. rewrite Hr2. rewrite Hw1 in Hd2, Hl2.
  exists (l1 ++ l2). cbn. rewrite Hl2, <-app_assoc. split; [done|]. destruct (frame_accepted (h ++ l1)) eqn:Hacc.
  - left. exists e. rewrite delivered_app, Hd2. set_solver.
  - right. left. apply cut_at. by right.
Qed.
Lemma pump_ends p (body : incoming) : (forall h, HookRunner.mode (hook_runner h) = Disabled) -> forall inspected i w,
  exists l, history (pump_loop p inspected i body w).2 = history w ++ l /\ pump_end body (history w) l.
Proof.
  intros Hhooks. induction body as [|a body IH]; intros inspected i w; cbn [pump_loop]; destruct (frame_interrupted (history w)) eqn:Hint.
  1,3: exists []; rewrite app_nil_r; (split; [done|]); right; left; apply (cut_at _ [] []); left; by rewrite app_nil_r.
  { exists []. rewrite app_nil_r. split; [done|]. right. by right. }
  destruct a as [[data|trailers]| |].
  - cbv zeta. unfold mbind at 1, flow_bind at 1, attempt at 1.
    match goal with |- context [(if ?j then inspector_permits i ?d ?b else mret (true, i)) w] =>
      destruct (verdict_delivers i d b j w) as (l1 & Hl1 & Hd1); destruct ((if j then inspector_permits i d b else mret (true, i)) w) as [[[ok i']|e] w1] end;
      cbn [snd] in Hl1; [|by eapply error_ends].
    destruct ok; [|by eapply error_ends].
    unfold mbind at 1, flow_bind at 1, attempt, transform_http_body. rewrite decide_True by apply Hhooks. unfold mret, flow_ret at 1.
    eapply (send_then (Ok (DataFrame data))); [done|done| |intros w2; by apply IH]. cbn. lia.
  - destruct (body_may_change p).
    + destruct (IH inspected i w) as (l & Hl & Hend). by exists l.
    + eapply (send_then (Ok (TrailersFrame trailers)) _ _ _ []); [by rewrite app_nil_r|done| |intros w2; by apply IH]. cbn. lia.
  - apply (error_ends _ BodyHyper _ []). by rewrite app_nil_r.
  - apply (error_ends _ BodyReadTimedOut _ []). by rewrite app_nil_r.
Qed.
End Ends.

(** * What the receiver makes of a body *)

Section Properties.
Context `{HttpEnvironment, Sha256, Hex}.
Definition frame_data (fs : list channel_frame) : list bytes :=
  omap (fun f => match f with Ok (DataFrame b) => Some b | _ => None end) fs.
Lemma frame_data_prefix fs gs : fs `prefix_of` gs -> frame_data fs `prefix_of` frame_data gs.
Proof. intros [k ->]. unfold frame_data. rewrite omap_app. by apply prefix_app_r. Qed.
Lemma well_ended_prefix fs gs : fs `prefix_of` gs -> well_ended gs -> well_ended fs.
Proof.
  intros [k Hk] (frames & tail & -> & Htail). revert fs Hk; induction frames as [|f frames IH]; intros fs Hk; cbn in Hk.
  - exists [], fs. split; [done|]. destruct Htail as [->|[e ->]]; [left; by destruct fs|]. destruct fs as [|f fs]; [by left|].
    injection Hk as <- Hk. symmetry in Hk. apply app_eq_nil in Hk as [-> _]. right. by exists e.
  - destruct fs as [|f' fs]; [exists [], []; auto|]. injection Hk as <- Hk. by apply well_ended_cons, IH.
Qed.
Lemma refuses_nothing_prefix program ps d maximum a b : program_wf program -> InspectionProgram.patterns program = ps ->
  a `prefix_of` b -> refuses_nothing ps d (takeN maximum b) -> refuses_nothing ps d (takeN maximum a).
Proof.
  intros Hwf Hps [k ->] Hb. assert (Hcl : forall t, FlowInspect.clean program d t <-> refuses_nothing ps d t) by (intros t; unfold FlowInspect.clean, refuses_nothing; by rewrite Hps).
  apply Hcl in Hb. apply Hcl. by eapply clean_prefix.
Qed.
(** C35. What the receiver of a streamed body gets when policy is enforced, inspection
    streams and no hook is enabled (outside enforcement a refused pattern passes, and a
    hook may replace what was inspected), however the pump and the connection interleave:
    no more than eight frames wait; the data received is a prefix of the body's,
    unchanged, whose inspected part holds no refused pattern, with at most one error,
    which is the last frame; and when the receiver is told that the body ended, without
    an error, then the body was received whole, or the pump was cut: the one way a
    truncated body ends as a whole one does.  Undisturbed, a complete body that ends was
    received whole exactly when its inspected prefix holds no refused pattern. *)
Theorem streamed_bodies_end_as_inspected (g : PolicyGeneration.t) (ps : list InspectionPattern.t) (s : session_id)
    (t : transaction_id) (limits : proxy_limits) (body : incoming) (d : direction) (allowed may_change : bool)
    (target : resolved_facts) (w0 w1 w : world) (p : body_pump) :
  let snapshot := current_snapshot (history w0) in
  let maximum := body_prefix_bytes limits in
  start_streaming_inspection s t limits body d allowed may_change target w0 = (Ok (PumpedBody p), w1) ->
  InspectionProgram.new g ps = Ok (snapshot_inspection snapshot) ->
  Forall (fun q => InspectionPattern.bytes_ q <> []) ps ->
  enforcement snapshot = Enforce -> snapshot_inspection_mode snapshot = Streaming -> (maximum <= u64_max)%N ->
  (forall h, HookRunner.mode (hook_runner h) = Disabled) ->
  exists l, history (pump_inspected_body p w).2 = history w ++ l /\
  forall es c, BodyChannel.interleaves (delivered l) es -> BodyChannel.run (BodyChannel.channel BodyChannel.CAPACITY) es = Some c ->
    let got := frame_data (BodyChannel.polled c) in
    length (BodyChannel.queue c) <= 8 /\ got `prefix_of` body_data body /\ well_ended (BodyChannel.polled c) /\
    refuses_nothing ps d (takeN maximum (concat got)) /\
    (BodyChannel.ended c = true ->
       (exists e, Err e ∈ BodyChannel.polled c) \/ cut (history w) (history w ++ l) \/ complete body = true /\ got = body_data body) /\
    (BodyChannel.ended c = true -> undisturbed -> complete body = true ->
       got = body_data body <-> refuses_nothing ps d (takeN maximum (concat (body_data body)))).
Proof.
  intros snapshot maximum Hstart Hnew Hne He Hm Hmax Hhooks. destruct (inspection_program_new_wf g ps _ Hnew Hne) as [Hwf Hps].
  destruct (pump_delivers_inspected_prefix g ps s t limits body d allowed may_change target w0 w1 w p Hstart Hnew Hne He Hm Hmax Hhooks)
    as (l & Hl & Hwe & Hpre & Hcl & Hall). exists l. split; [done|]. intros es c [Hsends Hreturn] Hrun got.
  destruct (BodyChannel.run_holds es [] false _ c (BodyChannel.channel_holds _) Hrun) as [[Hw Ho _ _ Hend] Hcap]. rewrite Hcap in Hw. cbn [app orb] in *.
  assert (Hpolled : BodyChannel.polled c `prefix_of` delivered l) by (etrans; [by eapply prefix_app_l|]; by etrans).
  assert (Hgot : got `prefix_of` delivered_data l) by by apply frame_data_prefix.
  assert (Hwhole : BodyChannel.ended c = true -> BodyChannel.polled c = delivered l) by (intros Hd; destruct (Hend Hd) as [Hr ->]; by apply Hreturn).
  split; [exact Hw|]. split; [by etrans|]. split; [by eapply well_ended_prefix|]. split; [|split].
  - eapply refuses_nothing_prefix; [done|done| |exact Hcl]. destruct Hgot as [k ->]. rewrite concat_app. by apply prefix_app_r.
  - intros Hd. specialize (Hwhole Hd). destruct (pump_ends p (pump_body p) Hhooks 0%N (pump_inspection p) w) as (l' & Hl' & Hcases).
    unfold pump_inspected_body in Hl. rewrite Hl' in Hl. apply app_inv_head in Hl as ->.
    assert (Hbody : pump_body p = body).
    { unfold start_streaming_inspection, inspector_new, mbind, flow_bind, decision_snapshot, mret, flow_ret, register_task in Hstart.
      destruct (task_registered (history w0)); [|done]. by injection Hstart as <- _. }
    rewrite Hbody in Hcases. destruct Hcases as [Herr|[Hcut|[Hcomplete Hlen]]]; [left; by rewrite Hwhole|by right; left|right; right; split; [done|]].
    subst got. rewrite Hwhole. apply (prefix_length_eq _ _ Hpre). by rewrite Hlen.
  - intros Hd Hu Hcomplete. subst got. rewrite (Hwhole Hd). by apply Hall.
Qed.
End Properties.
