(* ===== verification/HttpServer.v ===== *)
(** The HTTP forward listener (crates/freja-proxy/src/http/server.rs and the tunnels of
    http/service/intercept.rs): what surrounds the transactions of a connection, the
    tracker of its tasks, the tunnels, and the accept loop.

    A script says what hyper and the peers do to a connection: the requests that arrive
    in turn, how the connection ends, and how the tasks that are not modelled as flows
    (the upstream connections) end.  Tasks are run where their effects can first matter:
    the pump of a response body after its head, a tunnel after the connection that
    upgraded to it; the pump of a request body runs beside its exchange and is not run
    here.  HTTP/2 streams of an intercepted tunnel are handled in the order of the script. *)
From stdpp Require Import gmap strings.
From stdpp Require Import prelude.
From S2P Require Import Prelude Bytes Net Endpoint Domain PolicyModel Acl Guard Inspection AuditModel AuditSink Hooks Runtime Destination FlowInspect Relay Settings TcpSession Server HttpHeaders Tls HttpMessages HttpService HttpSafety HttpBodies.

(** * The tasks of a connection ([track_connection_tasks])

    [TaskRegistered]: a handle arrives; [HandlesClosed]: the last sender is dropped;
    [TaskJoined i r]: the task at position [i] ends with [r] and is joined. *)
Inductive tracker_event : Type :=
| TaskRegistered
| HandlesClosed
| TaskJoined (i : nat) (r : result proxy_error unit).
Record tracker : Type := Tracker { receiver_open : bool; tracked_tasks : nat }.
Definition tracker_start : tracker := Tracker true 0.
(** [None]: the loop goes on; [Some r]: it has returned. *)
Definition tracker_step (k : tracker) (e : tracker_event) : tracker * option (result proxy_error unit) :=
  match e with
  | TaskRegistered => (if receiver_open k then Tracker true (S (tracked_tasks k)) else k, None)
  | HandlesClosed => (Tracker false (tracked_tasks k), None)
  | TaskJoined i r =>
      if decide (i < tracked_tasks k)
      then (Tracker (receiver_open k) (tracked_tasks k - 1), match r with Ok _ => None | Err e => Some (Err e) end)
      else (k, None)
  end.
(** [while receiver_open || !tasks.is_empty()]. *)
Fixpoint track_connection_tasks (k : tracker) (events : list tracker_event) : option (result proxy_error unit) :=
  if negb (receiver_open k) && (tracked_tasks k =? 0) then Some (Ok tt)
  else
    match events with
    | [] => None
    | e :: events =>
        match tracker_step k e with
        | (_, Some r) => Some r
        | (k, None) => track_connection_tasks k events
        end
    end.

(** * Plaintext counters (intercept.rs) *)

Record plaintext_counters : Type := PlaintextCounters {
  plaintext_client_to_upstream : N; plaintext_upstream_to_client : N }.
(** [ReadCountingIo::record] of the reads of one side. *)
Definition record_reads (reads : list N) : N := foldl sat_add 0%N reads.
Definition plaintext_stats (c : plaintext_counters) : relay_stats :=
  RelayStats (plaintext_client_to_upstream c) (plaintext_upstream_to_client c).

Section HttpServer.
Context `{HttpEnvironment, Sha256, Hex}.
Implicit Types (v : http_service) (t : transaction_id).

(** * Intercepted tunnels (intercept.rs) *)

(** What happens inside one: the requests in order, the bytes read from the client and
    from the upstream, and how the connections end. *)
Record tunnel_script : Type := TunnelScript {
  tunnel_requests : list (transaction_id * http_request incoming);
  client_reads : list N;
  upstream_reads : list N;
  tunnel_end : connection_outcome }.
Definition handshake_stage (p : intercepted_protocol) : bytes :=
  match p with Http1 => bs "intercepted HTTP/1 handshake" | Http2 => bs "intercepted HTTP/2 handshake" end.
Definition connection_stage (p : intercepted_protocol) : bytes :=
  match p with Http1 => bs "intercepted HTTP/1 connection" | Http2 => bs "intercepted HTTP/2 connection" end.
(** The handled requests.  A failed handler ends an HTTP/1 connection and one HTTP/2
    stream. *)
Fixpoint serve_requests v (target : forward_target) (selected : socket_addr) (p : intercepted_protocol)
    (requests : list (transaction_id * http_request incoming)) : flow unit :=
  match requests with
  | [] => mret tt
  | (t, r) :: requests =>
      answer ← attempt (handle_intercepted v target selected t p r);
      match answer, p with
      | Err _, Http1 => fail HttpConnection
      | Ok response, _ =>
          _ ← (match resp_body response with PumpedBody b => pump_inspected_body b | FullBody _ => mret tt end);
          serve_requests v target selected p requests
      | Err _, Http2 => serve_requests v target selected p requests
      end
  end.
(** [select!] between shutdown and the two connections. *)
Definition end_connections (p : intercepted_protocol) (e : connection_outcome) : flow unit :=
  match e with
  | ConnectionShutdown => fail ShutdownError
  | ConnectionFailed => fail HttpConnection
  | UpstreamConnectionFailed => fail (UpstreamHttp (connection_stage p))
  | ConnectionEnded => mret tt
  end.
Definition serve_intercepted_http v (target : forward_target) (selected : socket_addr) (p : intercepted_protocol)
    (script : tunnel_script) : flow unit := fun w =>
  match handshake (history w) with
  | HandshakeFailed | HandshakeTimedOut => (Err (UpstreamHttp (handshake_stage p)), w)
  | HandshakeDone =>
      (_ ← serve_requests v target selected p (tunnel_requests script); end_connections p (tunnel_end script)) w
  end.
Definition await_upgrade : flow unit := fun w =>
  match upgrade (history w) with
  | UpgradeShutdown => (Err ShutdownError, w)
  | UpgradeFailed => (Err HttpUpgrade, w)
  | Upgraded => (Ok tt, w)
  end.
(** [timeout(idle_timeout, acceptor.accept(..))]: the protocol negotiated with the client. *)
Definition accept_tls : flow (option bytes) := fun w =>
  match accept_downstream (history w) with
  | DownstreamShutdown => (Err ShutdownError, w)
  | DownstreamFailed => (Err (Tls DownstreamHandshake), w)
  | DownstreamTimedOut => (Err (Tls DownstreamHandshakeTimedOut), w)
  | DownstreamAccepted alpn => (Ok alpn, w)
  end.
Definition protocol_of (alpn : option bytes) : result proxy_error intercepted_protocol :=
  match alpn with
  | None => Ok Http1
  | Some alpn =>
      if decide (alpn = ALPN_HTTP_2) then Ok Http2
      else if decide (alpn = ALPN_HTTP_1_1) then Ok Http1
      else Err (Tls (UnsupportedApplicationProtocol (utf8_lossy alpn)))
  end.
(** Both handshakes, up to the record that interception is established. *)
Definition establish_interception v t (target : forward_target) : flow intercepted_protocol :=
  _ ← await_upgrade;
  alpn ← accept_tls;
  connected ← connect_upstream (forward_host target) alpn;
  match connected with
  | None => fail UpstreamResponseTimedOut
  | Some upstream_alpn =>
      _ ← lift (validate_intercepted_alpn alpn upstream_alpn);
      p ← lift (protocol_of alpn);
      _ ← publish_event (service_session v) (Some t)
            (TlsInterceptionEstablished (TargetHost.show (forward_host target)) (utf8_lossy <$> alpn));
      mret p
  end.
(** The counters stay at zero until interception is established. *)
Definition run_intercepted_tunnel v t (target : forward_target) (selected : socket_addr) (script : tunnel_script) : flow unit :=
  r ← attempt (establish_interception v t target);
  let counters :=
    match r with
    | Ok _ => PlaintextCounters (record_reads (client_reads script)) (record_reads (upstream_reads script))
    | Err _ => PlaintextCounters 0 0
    end in
  result ← attempt (p ← lift r; serve_intercepted_http v target selected p script);
  let stats := plaintext_stats counters in
  _ ← publish_event (service_session v) (Some t)
        (TunnelClosed (up_bytes stats) (down_bytes stats)
           (match result with Ok _ => OutCompleted | Err e => intercepted_tunnel_error_outcome e end));
  lift result.

(** * Connections (server.rs) *)

(** What happens to one: its requests in order, whether hyper ends it without error, how
    a tunnel it upgrades to goes, and how its other tasks end, before that tunnel and after. *)
Record connection_script : Type := ConnectionScript {
  script_requests : list (transaction_id * http_request incoming);
  ends_well : bool;
  relay_schedule : list branch;
  intercepted_script : tunnel_script;
  tasks_before : list (result proxy_error unit);
  tasks_after : list (result proxy_error unit) }.
(** The service loop of hyper.  A failed handler and a failed write are connection
    errors; an upgrade is the last exchange of a connection. *)
Fixpoint run_hyper_connection v (well : bool) (requests : list (transaction_id * http_request incoming))
  : flow (result proxy_error unit * option (transaction_id * tunnel)) :=
  let ended := if well then Ok tt else Err HttpConnection in
  match requests with
  | [] => mret (ended, None)
  | (t, r) :: requests =>
      answer ← attempt (handle v t r);
      match answer with
      | Err _ => mret (Err HttpConnection, None)
      | Ok (response, upgraded) =>
          _ ← (match resp_body response with PumpedBody b => pump_inspected_body b | FullBody _ => mret tt end);
          match upgraded with
          | Some tunnel => mret (ended, Some (t, tunnel))
          | None => run_hyper_connection v well requests
          end
      end
  end.
(** The task a CONNECT leaves; [None] when the schedule ends before the relay does. *)
Definition run_upgraded v (script : connection_script) (upgraded : option (transaction_id * tunnel)) : flow (option unit) :=
  match upgraded with
  | None => mret (Some tt)
  | Some (t, PlainTunnel target limits) => run_tunnel (service_session v) t target limits (relay_schedule script)
  | Some (t, InterceptedTunnel _ target selected) =>
      _ ← run_intercepted_tunnel v t target selected (intercepted_script script); mret (Some tt)
  end.
(** The tasks are registered, the service is dropped with the connection, and the tasks
    end in this order. *)
Definition joined_in_order (results : list (result proxy_error unit)) : list tracker_event :=
  map (fun _ => TaskRegistered) results ++ HandlesClosed :: map (TaskJoined 0) results.
Definition tracked (results : list (result proxy_error unit)) : result proxy_error unit :=
  default (Ok tt) (track_connection_tasks tracker_start (joined_in_order results)).
Definition connection_outcome_of (connection tracked : result proxy_error unit) : flow_outcome :=
  match connection, tracked with Ok _, Ok _ => OutCompleted | _, _ => OutHttpError end.
Definition close_connection (s : session_id) (connection tracked : result proxy_error unit) : flow unit :=
  _ ← publish_event s None (FlowClosed 0 0 (connection_outcome_of connection tracked));
  _ ← publish_flow_closed s 0 0;
  _ ← lift connection;
  lift tracked.
(** [serve_connection].  The tracker returns at the first task that fails; a tunnel that
    is still running then runs on, by itself. *)
Definition serve_connection v (listener : socket_addr) (script : connection_script) : flow (option unit) :=
  let s := service_session v in
  _ ← publish_event s None (ConnectionAccepted (show_socket_addr (service_peer v)) (show_socket_addr listener));
  _ ← publish_flow_opened s (show_socket_addr (service_peer v)) (bs "http-forward");
  '(connection, upgraded) ← run_hyper_connection v (ends_well script) (script_requests script);
  match tracked (tasks_before script) with
  | Err e =>
      closed ← attempt (close_connection s connection (Err e));
      _ ← attempt (run_upgraded v script upgraded);
      lift (match closed with Ok _ => Ok (Some tt) | Err e => Err e end)
  | Ok _ =>
      ended ← attempt (run_upgraded v script upgraded);
      match ended with
      | Ok None => mret None
      | Ok (Some _) => _ ← close_connection s connection (tracked (tasks_before script ++ Ok tt :: tasks_after script)); mret (Some tt)
      | Err e => _ ← close_connection s connection (tracked (tasks_before script ++ Err e :: tasks_after script)); mret (Some tt)
      end
  end.
End HttpServer.

(** * The accept loop (server.rs), which is that of the other listeners *)

Module HttpForwardServer.
Section Loop.
Context `{Environment}.
Definition reject_at_capacity (peer listener : socket_addr) (s : session_id) : flow unit :=
  _ ← publish_event s None (ConnectionAccepted (show_socket_addr peer) (show_socket_addr listener));
  publish_event s None (FlowClosed 0 0 OutConnectionLimit).
Definition run (limits : proxy_limits) (listener : socket_addr) (events : list server_event) : option (flow server) :=
  run_listener limits listener events.
End Loop.
End HttpForwardServer.
