(* ===== verification/ServerSafety.v ===== *)
(** The trail of an HTTP connection and of its tunnels, and the tracker of its tasks. *)
From stdpp Require Import gmap strings.
From stdpp Require Import prelude.
From S2P Require Import Prelude Bytes Net Endpoint Domain PolicyModel Acl Guard Inspection AuditModel AuditSink Hooks Runtime Destination FlowInspect Relay Settings TcpSession Server HttpHeaders Tls HttpMessages HttpService HttpSafety HttpBodies HttpServer.

(** * The tracker *)

Lemma track_registrations n k events : receiver_open k = true ->
  track_connection_tasks k (replicate n TaskRegistered ++ events)
  = track_connection_tasks (Tracker true (tracked_tasks k + n)) events.
Proof.
  revert k; induction n as [|n IH]; intros [o m] Ho; cbn in Ho; subst o; cbn [replicate app tracked_tasks].
  - by rewrite Nat.add_0_r.
  - cbn [track_connection_tasks receiver_open negb andb tracker_step tracked_tasks]. rewrite IH by done. cbn. f_equal. f_equal. lia.
Qed.
(** The first failure, in the order in which the tasks are joined. *)
Definition first_failure (results : list (result proxy_error unit)) : result proxy_error unit :=
  foldr (fun r rest => match r with Ok _ => rest | Err e => Err e end) (Ok tt) results.
Lemma track_joins results :
  track_connection_tasks (Tracker false (length results)) (map (TaskJoined 0) results) = Some (first_failure results).
Proof.
  induction results as [|r results IH]; [done|]. cbn [map length track_connection_tasks receiver_open tracked_tasks negb andb Nat.eqb].
  cbn [tracker_step tracked_tasks receiver_open]. rewrite decide_True by lia. destruct r as [[]|e]; [|done].
  cbn [first_failure foldr]. replace (S (length results) - 1) with (length results) by lia. exact IH.
Qed.
Lemma tracked_is_first_failure results : tracked results = first_failure results.
Proof.
  unfold tracked, joined_in_order.
  assert (Hr : map (fun _ : result proxy_error unit => TaskRegistered) results = replicate (length results) TaskRegistered).
  { induction results as [|r results IH]; [done|]. cbn. by rewrite IH. }
  rewrite Hr, track_registrations by done. cbn [tracker_start tracked_tasks Nat.add].
  change (track_connection_tasks (Tracker true (length results)) (HandlesClosed :: map (TaskJoined 0) results))
    with (track_connection_tasks (Tracker false (length results)) (map (TaskJoined 0) results)).
  by rewrite track_joins.
Qed.
Lemma first_failure_Ok results : first_failure results = Ok tt <-> Forall (fun r => r = Ok tt) results.
Proof.
  induction results as [|r results IH]; [by split|]. rewrite Forall_cons. cbn [first_failure foldr]. fold (first_failure results).
  destruct r as [[]|e]; [rewrite <- IH; naive_solver|]. split; [done|]. by intros [? _].
Qed.
Lemma record_reads_total reads : record_reads reads = N.min (foldr N.add 0%N reads) u64_max.
Proof.
  unfold record_reads. assert (Hg : forall acc, (acc <= u64_max)%N ->
    foldl sat_add acc reads = N.min (acc + foldr N.add 0%N reads) u64_max).
  { induction reads as [|n reads IH]; intros acc Ha; cbn [foldl foldr]; [lia|].
    rewrite IH by apply sat_add_le. unfold sat_add. lia. }
  rewrite Hg by (unfold u64_max; lia). f_equal.
Qed.

(** * Transactions, one after the other *)

Section Nested.
Context `{HttpEnvironment, Sha256, Hex, !HeaderMapLaws, !HeaderIterLaws}.
Definition quiet_event (e : audit_event) : Prop := lifecycle e = false.
(** The events of transactions for the first of these requests, in order, each followed
    by what the inspection of its response body records. *)
Inductive nested : list (http_request incoming) -> list audit_event -> Prop :=
| nested_none rs : nested rs []
| nested_one r rs x trail quiet rest :
    transaction_trail r x trail -> Forall quiet_event quiet -> nested rs rest -> nested (r :: rs) (trail ++ quiet ++ rest).

Section Pump.
Context (P : step -> Prop).
Context (P_audited : forall e answer, lifecycle (envelope_event e) = false -> P (Audited e answer)).
Context (P_observed : forall e, vouches e -> P (Observed e)) (P_delivered : forall f, P (FrameDelivered f)).
Lemma only_send_frame f : only P (send_body_frame f).
Proof.
  intros w. unfold send_body_frame. destruct (frame_accepted _); [|by apply only_ret].
  exists [FrameDelivered f]. split; [done|]. by constructor.
Qed.
Lemma only_end_with e : only P (end_with e).
Proof. apply only_bind; [apply only_send_frame|intros; apply only_ret]. Qed.
Lemma only_pump_loop p inspected i body : only P (pump_loop p inspected i body).
Proof.
  revert inspected i; induction body as [|a body IH]; intros inspected i w; cbn [pump_loop];
    destruct (frame_interrupted _); try by apply only_ret.
  destruct a as [[data|trailers]| |]; [| |by apply only_end_with..].
  - cbv zeta. apply (only_bind P).
    { apply only_attempt. destruct (0 <? _)%N; [by apply only_permits|apply only_ret]. }
    intros [[[] i']|e]; [|apply only_end_with..]. apply only_bind; [by apply only_attempt, only_transform_body|].
    intros [[output replaced]|e]; [|apply only_end_with]. apply only_bind; [apply only_send_frame|].
    intros []; [apply IH|apply only_ret].
  - destruct (body_may_change p); [by apply IH|]. apply (only_bind P); [apply only_send_frame|]. intros []; [apply IH|apply only_ret].
Qed.
Lemma only_pump_body b : only P (match b with PumpedBody p => pump_inspected_body p | FullBody _ => mret tt end).
Proof. destruct b; [apply only_ret|apply only_pump_loop]. Qed.
End Pump.

(** A computation whose events are nested transactions for [rs]. *)
Definition nests (rs : list (http_request incoming)) {A} (m : flow A) : Prop :=
  forall w, exists l, history (m w).2 = history w ++ l /\ nested rs (audited l).
Lemma nests_pure rs {A} (m : flow A) : (forall w, (m w).2 = w) -> nests rs m.
Proof. intros Hm w. exists []. rewrite Hm, app_nil_r. split; [done|constructor]. Qed.
Lemma nests_one {A B} r rs (m : flow A) (body : A -> proxy_body) (k : result proxy_error A -> flow B) (j : A -> flow B)
    (x_of : result proxy_error A -> result proxy_error (http_response proxy_body)) :
  (forall w, let '(x, w') := m w in exists l, history w' = history w ++ l /\ transaction_trail r (x_of x) (audited l)) ->
  (forall a w, k (Ok a) w = (_ ← (match body a with PumpedBody p => pump_inspected_body p | FullBody _ => mret tt end); j a) w) ->
  (forall a, nests rs (j a)) -> (forall e, nests rs (k (Err e))) ->
  nests (r :: rs) (x ← attempt m; k x).
Proof.
  intros Hm Hk Hj He w. unfold mbind at 1, flow_bind at 1, attempt. specialize (Hm w).
  destruct (m w) as [x w1]. destruct Hm as (l1 & Hl1 & Htr).
  assert (Hmid : exists l2 l3, history (k x w1).2 = history w1 ++ l2 ++ l3 /\ Forall quiet_event (audited l2) /\ nested rs (audited l3)).
  { destruct x as [a|e]; [|by destruct (He e w1) as (l & Hl & Hn); exists [], l].
    rewrite Hk. unfold mbind, flow_bind.
    destruct (only_pump_body (audits quiet_event) ltac:(done) ltac:(done) ltac:(done) (body a) w1) as (l2 & Hl2 & HF%audits_audited).
    destruct ((match body a with PumpedBody p => pump_inspected_body p | FullBody _ => mret tt end) w1) as [[[]|e] w2]; cbn [snd] in *.
    - destruct (Hj a w2) as (l3 & Hl3 & Hn). exists l2, l3. rewrite Hl3, Hl2, app_assoc. done.
    - exists l2, []. rewrite app_nil_r. split; [done|]. split; [done|constructor]. }
  destruct Hmid as (l2 & l3 & Hl & HF & Hn). exists (l1 ++ l2 ++ l3). rewrite Hl, Hl1, <- app_assoc. split; [done|].
  rewrite !audited_app. by eapply nested_one.
Qed.
Lemma serve_requests_nested v target selected p requests :
  nests (map snd requests) (serve_requests v target selected p requests).
Proof.
  induction requests as [|[t r] requests IH]; cbn [serve_requests map snd]; [by apply nests_pure|].
  eapply (nests_one r _ _ (fun response => resp_body response) _ (fun _ => serve_requests v target selected p requests) id).
  - intros w. apply handle_intercepted_trail.
  - done.
  - done.
  - intros e. destruct p; [by apply nests_pure|exact IH].
Qed.
Lemma run_hyper_nested v well requests : nests (map snd requests) (run_hyper_connection v well requests).
Proof.
  induction requests as [|[t r] requests IH]; cbn [run_hyper_connection map snd]; [by apply nests_pure|]. cbv zeta.
  eapply (nests_one r _ _ (fun a => resp_body a.1) _
    (fun a => match a.2 with
              | Some tunnel => mret (if well then Ok tt else Err HttpConnection, Some (t, tunnel))
              | None => run_hyper_connection v well requests
              end)
    (fun x => match x with Ok (response, _) => Ok response | Err e => Err e end)).
  - intros w. apply handle_trail.
  - by intros [response upgraded] w.
  - intros [response [tunnel|]]; [by apply nests_pure|exact IH].
  - intros e. by apply nests_pure.
Qed.
End Nested.

(** * Intercepted tunnels *)

Section Tunnel.
Context `{HttpEnvironment, Sha256, Hex, !HeaderMapLaws, !HeaderIterLaws}.
Definition established (target : forward_target) (alpn : option bytes) : audit_event :=
  TlsInterceptionEstablished (TargetHost.show (forward_host target)) (utf8_lossy <$> alpn).
Lemma establish_spec v t target w :
  let '(r, w') := establish_interception v t target w in
  exists l, history w' = history w ++ l /\ Forall publishing l /\
    match r with
    | Ok p => exists alpn, protocol_of alpn = Ok p /\ audited l = [established target alpn]
    | Err e =>
        audited l = [] \/
        (audit_policy = FailClosed /\ (exists error, e = Audit error) /\ exists alpn, audited l = [established target alpn])
    end.
Proof.
  assert (Hstop : forall e : proxy_error, exists l, history w = history w ++ l /\ Forall publishing l /\
    (audited l = [] \/ (audit_policy = FailClosed /\ (exists error, e = Audit error) /\ exists alpn, audited l = [established target alpn]))).
  { intros e. exists []. rewrite app_nil_r. split; [done|]. split; [constructor|by left]. }
  unfold establish_interception, await_upgrade, accept_tls, connect_upstream, lift, mbind, flow_bind.
  destruct (upgrade (history w)); [|apply Hstop..]. destruct (accept_downstream (history w)) as [alpn| | |]; [|apply Hstop..].
  destruct (upstream_protocols _ _ _) as [protocols|e]; [|apply Hstop].
  destruct (connect_upstream_tls _ _) as [upstream_alpn| |]; [|apply Hstop..].
  destruct (validate_intercepted_alpn alpn upstream_alpn) as [[]|e]; [|apply Hstop].
  destruct (protocol_of alpn) as [p|e] eqn:Hp; [|apply Hstop].
  pose proof (follows_publish_event (service_session v) (Some t) (established target alpn) w) as Hf. unfold established in Hf.
  destruct (publish_event _ _ _ w) as [r w'].
  destruct Hf as (le & (_ & _ & l & Hl & Ha & HF) & [[-> ->]|(Hfc & [e ->] & Hne & Hpre)]); exists l;
    (split; [done|]); (split; [done|]).
  - by exists alpn.
  - right. split; [done|]. split; [by exists e|]. exists alpn. rewrite Ha. unfold established.
    destruct le as [|x [|y le]]; [done| |]; destruct Hpre as [rest Hr]; injection Hr as ->; [done|].
    by destruct le.
Qed.
(** What an intercepted tunnel may do: no lookup, no connection, and requests only for
    the host of its CONNECT. *)
Definition stays_inside (target : forward_target) (s : step) : Prop :=
  match s with
  | LookedUp _ _ | Connected _ => False
  | RequestSent _ _ version headers _ =>
      version ∈ [HTTP_11; HTTP_2] /\ values_of HOST headers = [forward_authority target] /\
      forall n, n ∈ hop_by_hop -> values_of n headers = []
  | _ => True
  end.
Lemma sends_inside r target p s : match s with LookedUp _ _ | Connected _ => False | _ => True end ->
  sends r (forward_authority target) (http_version p) s -> stays_inside target s.
Proof.
  destruct s; try done. intros _ (_ & -> & Hh & Hn & _). split; [|by split].
  destruct p; [by left|by right; left].
Qed.
(** ** What bounds a tunnel, step by step *)

Section Bounds.
Context (P : step -> Prop) (P_any : forall e answer, P (Audited e answer)) (P_observed : forall e, vouches e -> P (Observed e)).
Context (P_delivered : forall f, P (FrameDelivered f)) (target : forward_target).
Context (P_sent : forall p (r : http_request incoming) u m request,
  prepared (forward_authority target) (MakeRequest (req_method r) u (http_version p) m (req_body r)) request -> P (request_sent request)).
Lemma only_handle_intercepted v selected t p r : only P (handle_intercepted v target selected t p r).
Proof.
  unfold handle_intercepted. apply only_bind; [by apply only_audit_request|intros _].
  apply only_bind; [|intros; by apply only_conclude]. apply only_attempt, only_forward_intercepted; [done..|].
  intros u m request Hp. by eapply P_sent.
Qed.
Lemma only_serve_requests v selected p requests : only P (serve_requests v target selected p requests).
Proof.
  induction requests as [|[t r] requests IH]; cbn [serve_requests]; [apply only_ret|].
  apply only_bind; [apply only_attempt, only_handle_intercepted|]. intros [response|e].
  - apply only_bind; [by apply only_pump_body|intros _; apply IH].
  - destruct p; [apply only_fail|apply IH].
Qed.
Lemma only_serve_intercepted v selected p script : only P (serve_intercepted_http v target selected p script).
Proof.
  intros w. unfold serve_intercepted_http. destruct (handshake (history w)); [|by exists []; rewrite app_nil_r; split; [|constructor]..].
  apply (only_bind P); [apply only_serve_requests|intros _]. destruct (tunnel_end script); [apply only_ret|apply only_fail..].
Qed.
Lemma only_run_intercepted v t selected script : only P (run_intercepted_tunnel v t target selected script).
Proof.
  unfold run_intercepted_tunnel. apply only_bind.
  - apply only_attempt. unfold establish_interception.
    apply only_bind; [apply only_pure; intros w; unfold await_upgrade; by destruct (upgrade _)|intros _].
    apply only_bind; [apply only_pure; intros w; unfold accept_tls; by destruct (accept_downstream _)|intros alpn].
    apply only_bind.
    { apply only_pure. intros w. unfold connect_upstream. destruct (upstream_protocols _ _ _); [|done]. by destruct (connect_upstream_tls _ _). }
    intros [upstream_alpn|]; [|apply only_fail]. apply only_bind; [apply only_lift|intros _].
    apply only_bind; [apply only_lift|intros p]. apply only_bind; [by apply only_any_event|intros _; apply only_ret].
  - intros r. cbv zeta. apply only_bind; [apply only_attempt; apply only_bind; [apply only_lift|intros p; apply only_serve_intercepted]|intros result].
    apply only_bind; [by apply only_any_event|intros _; apply only_lift].
Qed.
End Bounds.
Lemma stays_sent target p (r : http_request incoming) u m request :
  prepared (forward_authority target) (MakeRequest (req_method r) u (http_version p) m (req_body r)) request -> stays_inside target (request_sent request).
Proof. intros Hp. eapply sends_inside; [done|]. by eapply prepared_sends. Qed.
Lemma serve_intercepted_inside v target selected p script :
  nests (map snd (tunnel_requests script)) (serve_intercepted_http v target selected p script) /\
  only (stays_inside target) (serve_intercepted_http v target selected p script).
Proof.
  split; [|apply only_serve_intercepted; [done..|apply stays_sent]]. intros w. unfold serve_intercepted_http.
  destruct (handshake (history w)); [|by exists []; rewrite app_nil_r; split; [|constructor]..]. unfold mbind, flow_bind.
  destruct (serve_requests_nested v target selected p (tunnel_requests script) w) as (l & Hl & Hn).
  destruct (serve_requests _ _ _ _ _ w) as [[[]|e] w1]; cbn [snd] in *; [|by exists l].
  exists l. split; [|done]. by destruct (tunnel_end script).
Qed.
Lemma intercepted_tunnel_spec (v : http_service) (t : transaction_id) (target : forward_target)
    (selected : socket_addr) (script : tunnel_script) (w : world) :
  let '(x, w') := run_intercepted_tunnel v t target selected script w in
  exists l, history w' = history w ++ l /\ Forall (stays_inside target) l /\
  exists inner up down o, audited l = inner ++ [TunnelClosed up down o] /\
    ((up = 0 /\ down = 0 /\ (inner = [] \/ exists alpn, inner = [established target alpn]) /\ o <> OutCompleted)%N \/
     (exists alpn events, inner = established target alpn :: events /\ nested (map snd (tunnel_requests script)) events /\
        up = N.min (foldr N.add 0 (client_reads script)) u64_max /\
        down = N.min (foldr N.add 0 (upstream_reads script)) u64_max)%N) /\
    match x with
    | Ok _ => o = OutCompleted
    | Err e => o = intercepted_tunnel_error_outcome e \/ (audit_policy = FailClosed /\ exists error, e = Audit error)
    end.
Proof.
  unfold run_intercepted_tunnel. unfold mbind at 1, flow_bind at 1, attempt at 1.
  pose proof (establish_spec v t target w) as Hest. destruct (establish_interception v t target w) as [r w1].
  destruct Hest as (l1 & Hl1 & HF1 & Hr). unfold mbind at 1, flow_bind at 1. cbv zeta.
  set (counters := match r with Ok _ => _ | Err _ => _ end).
  set (result := (attempt (p ← lift r; serve_intercepted_http v target selected p script)) w1).
  assert (Hin : exists l2 res, history result.2 = history w1 ++ l2 /\ result.1 = Ok res /\ Forall (stays_inside target) l2 /\
    match r with Err e => res = Err e /\ audited l2 = [] | Ok _ => nested (map snd (tunnel_requests script)) (audited l2) end).
  { subst result. unfold attempt, mbind, flow_bind, lift. destruct r as [p|e]; cbn [fst snd].
    - destruct (serve_intercepted_inside v target selected p script) as [Hn Ho].
      destruct (Hn w1) as (l2 & Hl2 & Hn2). destruct (Ho w1) as (l3 & Hl3 & HF3).
      assert (l3 = l2) as -> by (by eapply app_inv_head; rewrite <- Hl2, <- Hl3).
      destruct (serve_intercepted_http _ _ _ _ _ w1) as [res w2]. by exists l2, res.
    - exists [], (Err e). by rewrite app_nil_r. }
  destruct Hin as (l2 & res & Hl2 & Hres & HF2 & Hn). destruct result as [result1 w2]. cbn [fst snd] in *. subst result1.
  match goal with |- context [publish_event ?s ?t ?e] =>
    pose proof (follows_one _ _ w2 (follows_publish_event s t e)) as Hc;
    destruct (only_any_event (stays_inside target) s t e ltac:(done) w2) as (l4 & Hl4 & HF4); set (closed := e) in * end.
  unfold mbind, flow_bind. destruct (publish_event _ _ closed w2) as [r3 w3].
  destruct Hc as (l3 & Hl3 & Ha3 & Hr3). cbn [snd] in Hl4.
  assert (l4 = l3) as -> by (by eapply app_inv_head; rewrite <- Hl3, <- Hl4).
  match goal with |- let '(_, _) := ?m in _ => destruct m as [x w4] eqn:Ex end.
  exists (l1 ++ l2 ++ l3). assert (w4 = w3) as -> by (destruct r3; unfold lift in Ex; congruence).
  rewrite Hl3, Hl2, Hl1, !app_assoc. split; [done|]. split.
  { rewrite !Forall_app. split; [split|]; [|done|done]. eapply Forall_impl; [exact HF1|]. by intros []. }
  exists (audited l1 ++ audited l2), (up_bytes (plaintext_stats counters)), (down_bytes (plaintext_stats counters)),
    (match res with Ok _ => OutCompleted | Err e => intercepted_tunnel_error_outcome e end).
  split; [by rewrite !audited_app, Ha3|]. split.
  - destruct r as [p|e]; cbn [counters plaintext_stats up_bytes down_bytes plaintext_client_to_upstream plaintext_upstream_to_client] in *.
    + right. destruct Hr as (alpn & _ & ->). exists alpn, (audited l2). rewrite !record_reads_total. done.
    + left. destruct Hn as [-> Hn]. rewrite Hn, app_nil_r. do 2 (split; [done|]). split.
      * destruct Hr as [->|(_ & _ & alpn & ->)]; [by left|right; by exists alpn].
      * destruct e; try done. by destruct source.
  - destruct Hr3 as [-> |(Hfc & error & ->)]; unfold lift in Ex; injection Ex as <-; [|right; split; [done|by exists error]].
    destruct res; [done|by left].
Qed.
(** C30. An intercepted tunnel is confined and accounted for: from the upgrade on it looks
    up and connects to nothing, and every request it sends names the host of its
    CONNECT and carries no hop-by-hop field, whatever the client wrote in it.  It
    records first that interception is established, before any request, then the
    transactions of its requests in order, and last that the tunnel is closed, with the
    plaintext bytes read on each side (none if it was not established), and the outcome
    of its end. *)
Theorem intercepted_tunnels_are_confined (v : http_service) (t : transaction_id) (target : forward_target)
    (selected : socket_addr) (script : tunnel_script) (w : world) :
  let '(x, w') := run_intercepted_tunnel v t target selected script w in
  exists l, history w' = history w ++ l /\ Forall (stays_inside target) l /\
  exists inner up down o, audited l = inner ++ [TunnelClosed up down o] /\
    ((up = 0 /\ down = 0 /\ (inner = [] \/ exists alpn, inner = [established target alpn]) /\ o <> OutCompleted)%N \/
     (exists alpn events, inner = established target alpn :: events /\ nested (map snd (tunnel_requests script)) events /\
        up = N.min (foldr N.add 0 (client_reads script)) u64_max /\
        down = N.min (foldr N.add 0 (upstream_reads script)) u64_max)%N) /\
    match x with
    | Ok _ => o = OutCompleted
    | Err e => o = intercepted_tunnel_error_outcome e \/ (audit_policy = FailClosed /\ exists error, e = Audit error)
    end.
Proof. exact (intercepted_tunnel_spec v t target selected script w). Qed.
End Tunnel.

(** * Connections *)

Section Connection.
Context `{HttpEnvironment, Sha256, Hex, !HeaderMapLaws, !HeaderIterLaws}.
(** The events of the tunnel of a connection: those of a relay, or those of an
    established interception; closed at the end, unless it never started or still runs. *)
Definition tunnel_trail (script : tunnel_script) (events : list audit_event) : Prop :=
  exists inner closed, events = inner ++ closed /\
    (closed = [] \/ exists up down o, closed = [TunnelClosed up down o]) /\
    (Forall quiet_event inner \/
     exists target alpn rest, inner = established target alpn :: rest /\ nested (map snd (tunnel_requests script)) rest).
Lemma tunnel_trail_nil script : tunnel_trail script [].
Proof. exists [], []. split; [done|]. split; [by left|by left]. Qed.
Lemma run_tunnel_trail s t target limits schedule script w :
  exists l, history (run_tunnel s t target limits schedule w).2 = history w ++ l /\ tunnel_trail script (audited l).
Proof.
  unfold run_tunnel. destruct (upgrade (history w)); [|by exists []; rewrite app_nil_r; split; [|apply tunnel_trail_nil]..].
  unfold mbind at 1, flow_bind at 1, inspector_new, mbind, flow_bind, decision_snapshot, mret, flow_ret, attempt.
  match goal with |- context [relay ?a ?b ?c w] =>
    destruct (only_relay (audits quiet_event) ltac:(done) ltac:(done) ltac:(done) ltac:(done) a b c w)
      as (l1 & Hl1 & HF%audits_audited); destruct (relay a b c w) as [r w1] end.
  cbn [snd] in Hl1.
  assert (Hclosed : forall e w', (exists up down o, e = TunnelClosed up down o) ->
    history w' = history w1 ++ [] -> exists l, history (publish_event s (Some t) e w').2 = history w ++ l /\ tunnel_trail script (audited l)).
  { intros e w' (up & down & o & ->) Hw'. pose proof (follows_one _ _ w' (follows_publish_event s (Some t) (TunnelClosed up down o))) as Hc.
    destruct (publish_event _ _ _ w') as [r2 w2]. destruct Hc as (l2 & Hl2 & Ha2 & _). exists (l1 ++ l2). cbn [snd].
    rewrite Hl2, Hw', Hl1, app_nil_r, app_assoc. split; [done|]. exists (audited l1), [TunnelClosed up down o].
    rewrite audited_app, Ha2. split; [done|]. split; [right; by do 3 eexists|by left]. }
  destruct r as [[r|]|e].
  - specialize (Hclosed (TunnelClosed (up_bytes (stats r)) (down_bytes (stats r)) (termination_outcome (termination r))) w1
      ltac:(by do 3 eexists) ltac:(by rewrite app_nil_r)). by destruct (publish_event _ _ _ w1) as [[[]|]].
  - exists l1. split; [done|]. exists (audited l1), []. rewrite app_nil_r. split; [done|]. split; [by left|by left].
  - specialize (Hclosed (TunnelClosed 0 0 (tunnel_error_outcome e)) w1
      ltac:(by do 3 eexists) ltac:(by rewrite app_nil_r)). by destruct (publish_event _ _ _ w1) as [[[]|]].
Qed.
Lemma run_upgraded_trail v script upgraded w :
  exists l, history (run_upgraded v script upgraded w).2 = history w ++ l /\ tunnel_trail (intercepted_script script) (audited l).
Proof.
  unfold run_upgraded. destruct upgraded as [[t [target limits|acceptor target selected]]|].
  - apply run_tunnel_trail.
  - unfold mbind, flow_bind. pose proof (intercepted_tunnel_spec v t target selected (intercepted_script script) w) as Hi.
    destruct (run_intercepted_tunnel _ _ _ _ _ w) as [x w']. destruct Hi as (l & Hl & _ & inner & up & down & o & Ha & Hinner & _).
    exists l. split; [by destruct x as [[]|]|]. exists inner, [TunnelClosed up down o]. split; [done|]. split; [right; by do 3 eexists|].
    destruct Hinner as [(_ & _ & [->|[alpn ->]] & _)|(alpn & events & -> & Hn & _)].
    + left. constructor.
    + right. exists target, alpn, []. split; [done|constructor].
    + right. by exists target, alpn, events.
  - exists []. rewrite app_nil_r. split; [done|apply tunnel_trail_nil].
Qed.
Lemma pump_loop_ok p inspected i body w : (pump_loop p inspected i body w).1 = Ok tt.
Proof.
  assert (Hend : forall e w, (end_with e w).1 = Ok tt).
  { intros e w'. unfold end_with, mbind, flow_bind. destruct (send_spec (Err e) w') as (l & _ & Hr & _).
    by destruct (send_body_frame _ w') as [[]]. }
  revert inspected i w; induction body as [|a body IH]; intros inspected i w; cbn [pump_loop]; destruct (frame_interrupted _); try done.
  destruct a as [[data|trailers]| |]; try apply Hend.
  - cbv zeta. unfold mbind, flow_bind, attempt.
    match goal with |- context [(if ?c then ?a else ?b) w] => destruct ((if c then a else b) w) as [[[[] i']|e] w1] end; try apply Hend.
    destruct (transform_http_body _ _ _ _ _ w1) as [[[output replaced]|e] w2]; [|apply Hend].
    destruct (send_spec (Ok (DataFrame output)) w2) as (l & _ & Hr & _). destruct (send_body_frame _ w2) as [r w3]. cbn [fst] in Hr.
    subst r. destruct (frame_accepted _); [apply IH|done].
  - destruct (body_may_change p); [apply IH|]. unfold mbind, flow_bind.
    destruct (send_spec (Ok (TrailersFrame trailers)) w) as (l & _ & Hr & _). destruct (send_body_frame _ w) as [r w3]. cbn [fst] in Hr.
    subst r. destruct (frame_accepted _); [apply IH|done].
Qed.
(** What a response's body leaves: frames delivered, by a pump that does not fail. *)
Definition pumped (body : proxy_body) (w w' : world) : Prop :=
  match body with PumpedBody p => (pump_inspected_body p w).2 = w' | FullBody _ => w' = w end.
(** The exchanges hyper made of the requests it read: each is handled in turn and its
    response delivered, until one fails, one upgrades, or none is left; [well] says
    whether the connection then ends without an error of its own. *)
Inductive exchanges v (well : bool) : list (transaction_id * http_request incoming) -> world ->
    result proxy_error unit -> option (transaction_id * tunnel) -> world -> Prop :=
| exchanges_end w : exchanges v well [] w (if well then Ok tt else Err HttpConnection) None w
| exchanges_failed t r requests w e w1 :
    handle v t r w = (Err e, w1) -> exchanges v well ((t, r) :: requests) w (Err HttpConnection) None w1
| exchanges_upgraded t r requests w response tunnel w1 w2 :
    handle v t r w = (Ok (response, Some tunnel), w1) -> pumped (resp_body response) w1 w2 ->
    exchanges v well ((t, r) :: requests) w (if well then Ok tt else Err HttpConnection) (Some (t, tunnel)) w2
| exchanges_next t r requests w response w1 w2 connection upgraded w3 :
    handle v t r w = (Ok (response, None), w1) -> pumped (resp_body response) w1 w2 ->
    exchanges v well requests w2 connection upgraded w3 ->
    exchanges v well ((t, r) :: requests) w connection upgraded w3.
Lemma run_hyper_exchanges v well requests w :
  exists connection upgraded w', run_hyper_connection v well requests w = (Ok (connection, upgraded), w') /\
    exchanges v well requests w connection upgraded w'.
Proof.
  revert w; induction requests as [|[t r] requests IH]; intros w; cbn [run_hyper_connection].
  { do 3 eexists. split; [done|]. constructor. }
  unfold mbind at 1, flow_bind at 1, attempt at 1. destruct (handle v t r w) as [[[response upgraded]|e] w1] eqn:Hh; cycle 1.
  { do 3 eexists. split; [done|]. by econstructor. }
  assert (Hp : forall b w, exists w', (match b with PumpedBody p => pump_inspected_body p | FullBody _ => mret tt end) w = (Ok tt, w') /\
    pumped b w w').
  { intros [b|p] w0; [by exists w0|]. unfold pumped.
    assert (Hr : (pump_inspected_body p w0).1 = Ok tt) by apply pump_loop_ok. destruct (pump_inspected_body p w0) as [r0 w0'].
    cbn in Hr. subst r0. by exists w0'. }
  destruct (Hp (resp_body response) w1) as (w2 & Hrun & Hpumped). unfold mbind at 1, flow_bind at 1.
  rewrite Hrun. destruct upgraded as [tunnel|].
  - do 3 eexists. split; [done|]. by econstructor.
  - destruct (IH w2) as (connection & upgraded & w3 & -> & Hx). do 3 eexists. split; [done|]. by eapply exchanges_next.
Qed.
(** How the task of an upgrade ends: there is none, or it is the relay of the tunnel,
    which the schedule may leave running, or the intercepted tunnel. *)
Definition upgrade_ends v (script : connection_script) (upgraded : option (transaction_id * tunnel)) (w : world)
    (ended : result proxy_error (option unit)) (w' : world) : Prop :=
  match upgraded with
  | None => ended = Ok (Some tt) /\ w' = w
  | Some (t, PlainTunnel target limits) => run_tunnel (service_session v) t target limits (relay_schedule script) w = (ended, w')
  | Some (t, InterceptedTunnel _ target selected) =>
      exists r, run_intercepted_tunnel v t target selected (intercepted_script script) w = (r, w') /\
        ended = match r with Ok _ => Ok (Some tt) | Err e => Err e end
  end.
Lemma run_upgraded_ends v script upgraded w :
  upgrade_ends v script upgraded w (run_upgraded v script upgraded w).1 (run_upgraded v script upgraded w).2.
Proof.
  destruct upgraded as [[t [target limits|acceptor target selected]]|]; cbn; [by destruct (run_tunnel _ _ _ _ _ w)| |done].
  unfold mbind, flow_bind. destruct (run_intercepted_tunnel _ _ _ _ _ w) as [[[]|e] w']; by eexists.
Qed.
(** The error a connection ends with: hyper's, or that of the first of its tasks to
    fail, the tunnel being the one in the middle. *)
Definition connection_end (script : connection_script) (connection : result proxy_error unit)
    (ended : result proxy_error (option unit)) : result proxy_error unit :=
  match connection with
  | Err e => Err e
  | Ok _ =>
      first_failure (tasks_before script ++ match ended with Ok _ => Ok tt | Err e => Err e end :: tasks_after script)
  end.
Definition closing (script : connection_script) connection ended : audit_event :=
  FlowClosed 0 0 (match connection_end script connection ended with Ok _ => OutCompleted | Err _ => OutHttpError end).
(** What a connection returns once it has closed, unless the audit channel fails closed. *)
Definition returned (script : connection_script) connection ended (x : result proxy_error (option unit)) : Prop :=
  x = match connection_end script connection ended with Ok _ => Ok (Some tt) | Err e => Err e end \/
  (audit_policy = FailClosed /\ exists error, x = Err (Audit error)).
(** What is left to record when hyper is done, the [transactions] behind it.  The tracker
    returns at the first task that fails: the close then comes before the events of
    the tunnel, which otherwise comes last. *)
Definition finished v (script : connection_script) connection upgraded (w : world) (x : result proxy_error (option unit))
    (events : list audit_event) : Prop :=
  exists w1 ended w2 l,
    upgrade_ends v script upgraded w1 ended w2 /\ history w2 = history w1 ++ l /\
    tunnel_trail (intercepted_script script) (audited l) /\
    match first_failure (tasks_before script), ended with
    | Ok _, Ok None => w1 = w /\ x = Ok None /\ events = audited l
    | Ok _, _ => w1 = w /\ returned script connection ended x /\ events = audited l ++ [closing script connection ended]
    | Err _, _ => returned script connection ended x /\ events = closing script connection ended :: audited l
    end.
Definition connection_trail v (script : connection_script) (w : world) (accepted : audit_event)
    (x : result proxy_error (option unit)) (events : list audit_event) : Prop :=
  (events = [accepted] /\ audit_policy = FailClosed /\ exists error, x = Err (Audit error)) \/
  exists w1 connection upgraded w2 opening l rest,
    history w1 = history w ++ opening /\ audited opening = [accepted] /\
    exchanges v (ends_well script) (script_requests script) w1 connection upgraded w2 /\
    history w2 = history w1 ++ l /\ nested (map snd (script_requests script)) (audited l) /\
    finished v script connection upgraded w2 x rest /\ events = accepted :: audited l ++ rest.

Lemma first_failure_app a b : first_failure (a ++ b) = match first_failure a with Ok _ => first_failure b | Err e => Err e end.
Proof.
  induction a as [|[u|e] a IH]; cbn [app first_failure foldr]; [done|exact IH|done].
Qed.
Lemma close_spec s connection tracked w :
  let '(y, w') := close_connection s connection tracked w in
  exists l, history w' = history w ++ l /\ audited l = [FlowClosed 0 0 (connection_outcome_of connection tracked)] /\
    (y = match connection with Ok _ => tracked | Err e => Err e end \/ (audit_policy = FailClosed /\ exists error, y = Err (Audit error))).
Proof.
  unfold close_connection. unfold mbind at 1, flow_bind at 1.
  pose proof (follows_one _ _ w (follows_publish_event s None (FlowClosed 0 0 (connection_outcome_of connection tracked)))) as Hc.
  destruct (publish_event _ _ _ w) as [r1 w1]. destruct Hc as (l1 & Hl1 & Ha1 & [-> |(Hfc & error & ->)]); cycle 1.
  { exists l1. split; [done|]. split; [done|]. right. split; [done|by exists error]. }
  unfold publish_flow_closed, mbind, flow_bind, lift.
  match goal with |- context [try_publish ?e w1] => destruct (observe_run e w1) as (l2 & Hl2 & Hr2 & Ha2);
    destruct (try_publish e w1) as [r2 w2] end.
  cbn [fst snd] in *. subst r2. assert (Hh : history w2 = history w ++ l1 ++ l2) by (by rewrite Hl2, Hl1, app_assoc).
  assert (Ha : audited (l1 ++ l2) = [FlowClosed 0 0 (connection_outcome_of connection tracked)]) by (by rewrite audited_app, Ha1, Ha2).
  destruct connection as [[]|e]; [destruct tracked as [[]|e]|]; exists (l1 ++ l2); (split; [done|]); (split; [done|]); by left.
Qed.
(** The outcome and the result of a close are those of [connection_end]. *)
Lemma close_ends script connection ended tracked (y : result proxy_error unit) :
  tracked = first_failure (tasks_before script ++ match ended with Ok _ => Ok tt | Err e => Err e end :: tasks_after script) ->
  (y = match connection with Ok _ => tracked | Err e => Err e end \/ (audit_policy = FailClosed /\ exists error, y = Err (Audit error))) ->
  FlowClosed 0 0 (connection_outcome_of connection tracked) = closing script connection ended /\
  returned script connection ended (match y with Ok _ => Ok (Some tt) | Err e => Err e end).
Proof.
  intros -> Hy. unfold closing, returned, connection_end. split.
  - destruct connection; [|done]. unfold connection_outcome_of. by destruct (first_failure _).
  - destruct Hy as [->|(Hfc & error & ->)]; [left|right; eauto]. destruct connection; [|done]. by destruct (first_failure _).
Qed.
(** From the moment hyper is done. *)
Lemma finish_connection v script connection upgraded w :
  let '(x, w') := (match tracked (tasks_before script) with
    | Err e =>
        closed ← attempt (close_connection (service_session v) connection (Err e));
        _ ← attempt (run_upgraded v script upgraded);
        lift (match closed with Ok _ => Ok (Some tt) | Err e => Err e end)
    | Ok _ =>
        ended ← attempt (run_upgraded v script upgraded);
        match ended with
        | Ok None => mret None
        | Ok (Some _) => _ ← close_connection (service_session v) connection (tracked (tasks_before script ++ Ok tt :: tasks_after script)); mret (Some tt)
        | Err e => _ ← close_connection (service_session v) connection (tracked (tasks_before script ++ Err e :: tasks_after script)); mret (Some tt)
        end
    end) w in
  exists l, history w' = history w ++ l /\ finished v script connection upgraded w x (audited l).
Proof.
  rewrite !tracked_is_first_failure. unfold finished. destruct (first_failure (tasks_before script)) as [[]|e] eqn:Hbefore.
  - unfold mbind at 1, flow_bind at 1, attempt. pose proof (run_upgraded_ends v script upgraded w) as Hends.
    destruct (run_upgraded_trail v script upgraded w) as (l & Hl & Htr).
    destruct (run_upgraded v script upgraded w) as [ended w1]. cbn [fst snd] in *.
    assert (Hclose : forall tracked,
      tracked = first_failure (tasks_before script ++ match ended with Ok _ => Ok tt | Err e => Err e end :: tasks_after script) ->
      let '(x, w') := (_ ← close_connection (service_session v) connection tracked; mret (Some tt)) w1 in
      exists k, history w' = history w ++ l ++ k /\ returned script connection ended x /\ audited k = [closing script connection ended]).
    { intros tracked Ht. unfold mbind, flow_bind. pose proof (close_spec (service_session v) connection tracked w1) as Hc.
      destruct (close_connection _ _ _ w1) as [y w2]. destruct Hc as (k & Hk & Ha & Hy).
      destruct (close_ends script connection ended tracked y Ht Hy) as [Hev Hret]. rewrite Hev in Ha.
      destruct y as [[]|e]; exists k; by rewrite Hk, Hl, app_assoc. }
    destruct ended as [[[]|]|e]; rewrite ?tracked_is_first_failure.
    + specialize (Hclose _ eq_refl). match goal with |- let '(_, _) := ?m in _ => destruct m as [x w2] end.
      destruct Hclose as (k & Hk & Hret & Ha). exists (l ++ k). split; [done|]. exists w, (Ok (Some tt)), w1, l. by rewrite audited_app, Ha.
    + exists l. split; [done|]. by exists w, (Ok None), w1, l.
    + specialize (Hclose _ eq_refl). match goal with |- let '(_, _) := ?m in _ => destruct m as [x w2] end.
      destruct Hclose as (k & Hk & Hret & Ha). exists (l ++ k). split; [done|]. exists w, (Err e), w1, l. by rewrite audited_app, Ha.
  - unfold mbind at 1, flow_bind at 1, attempt at 1.
    pose proof (close_spec (service_session v) connection (Err e) w) as Hc.
    destruct (close_connection _ _ _ w) as [y w1]. destruct Hc as (k & Hk & Ha & Hy).
    unfold mbind, flow_bind, attempt. pose proof (run_upgraded_ends v script upgraded w1) as Hends.
    destruct (run_upgraded_trail v script upgraded w1) as (l & Hl & Htr).
    destruct (run_upgraded v script upgraded w1) as [ended w2]. cbn [fst snd] in *.
    assert (Ht : Err e = first_failure (tasks_before script ++ match ended with Ok _ => Ok tt | Err e => Err e end :: tasks_after script))
      by (by rewrite first_failure_app, Hbefore).
    destruct (close_ends script connection ended _ y Ht Hy) as [Hev Hret]. rewrite Hev in Ha.
    exists (k ++ l). split; [by rewrite Hl, Hk, app_assoc|]. exists w1, ended, w2, l. by rewrite audited_app, Ha.
Qed.
(** C29. A connection is on the record from end to end: its acceptance comes first, then
    the transactions of the requests hyper exchanged, in order and one within the other
    never, then what its tunnel records, and last the close of its flow.  The close is
    a completion, and the connection returns without error, exactly when every handler
    answered, hyper ended without error, and the tunnel and every other task of the
    connection did; otherwise it is an error, the one returned.  When a task fails
    before the tunnel has ended, the close comes before the tunnel's events, because
    the tracker returns at the first failure; a tunnel still running is not closed.
    The only other exception is an audit channel that fails closed. *)
Theorem http_connections_are_recorded (v : http_service) (listener : socket_addr) (script : connection_script) (w : world) :
  let '(x, w') := serve_connection v listener script w in
  exists l, history w' = history w ++ l /\
    connection_trail v script w (ConnectionAccepted (show_socket_addr (service_peer v)) (show_socket_addr listener)) x (audited l).
Proof.
  unfold serve_connection. cbv zeta. set (accepted := ConnectionAccepted _ _). unfold mbind at 1, flow_bind at 1.
  pose proof (follows_one _ _ w (follows_publish_event (service_session v) None accepted)) as Hacc.
  destruct (publish_event _ _ accepted w) as [r0 w0]. destruct Hacc as (l0 & Hl0 & Ha0 & [-> |(Hfc & error & ->)]); cycle 1.
  { exists l0. split; [done|]. left. split; [done|]. split; [done|by exists error]. }
  unfold publish_flow_opened, mbind at 1, flow_bind at 1.
  match goal with |- context [try_publish ?e w0] => destruct (observe_run e w0) as (l1 & Hl1 & Hr1 & Ha1);
    destruct (try_publish e w0) as [r1 w1] end. cbn [fst snd] in *. subst r1.
  unfold mbind at 1, flow_bind at 1.
  destruct (run_hyper_nested v (ends_well script) (script_requests script) w1) as (l2 & Hl2 & Hn).
  destruct (run_hyper_exchanges v (ends_well script) (script_requests script) w1) as (connection & upgraded & w2 & Hrun & Hx).
  rewrite Hrun in *. cbn [snd] in Hl2. pose proof (finish_connection v script connection upgraded w2) as Hfinish.
  match goal with |- let '(_, _) := ?m in _ => destruct m as [x w3] end. destruct Hfinish as (l3 & Hl3 & Hf).
  exists ((l0 ++ l1) ++ l2 ++ l3). split; [by rewrite Hl3, Hl2, Hl1, Hl0, !app_assoc|]. right.
  exists w1, connection, upgraded, w2, (l0 ++ l1), l2, (audited l3). split; [by rewrite Hl1, Hl0, app_assoc|].
  rewrite !audited_app, Ha0, Ha1. done.
Qed.
End Connection.
