(* ===== verification/HttpRepeat.v ===== *)
(** Repeated requests (crates/freja-proxy/src/http/service/repeat.rs and
    crates/freja-policy/src/hook/repeat.rs): the worker that runs a retained request
    again, with fresh identifiers, through the policy, inspection and hooks of the
    moment, and keeps a bounded prefix of the response for the operator. *)
From stdpp Require Import gmap strings.
From stdpp Require Import prelude.
From S2P Require Import Prelude Bytes Net Endpoint Domain PolicyModel Acl Guard Inspection AuditModel AuditSink Hooks Runtime Destination FlowInspect Relay Settings TcpSession HttpHeaders Tls HttpMessages HttpService HttpSafety HttpBodies.

(** * Requests and results (freja-policy hook/repeat.rs) *)

Module RepeatFailureCategory.
Inductive t : Type :=
| InvalidRequest | PolicyDenied | Dns | Connect | Tls | Upstream | Inspection | Audit | Shutdown | Internal.
#[global] Instance eq_dec : EqDecision t.
Proof. solve_decision. Defined.
Definition show (c : t) : bytes :=
  match c with
  | InvalidRequest => bs "invalid request"
  | PolicyDenied => bs "policy denied"
  | Dns => bs "DNS failed"
  | Connect => bs "connection failed"
  | Tls => bs "TLS failed"
  | Upstream => bs "upstream HTTP failed"
  | Inspection => bs "inspection or hook failed"
  | Audit => bs "audit publication failed"
  | Shutdown => bs "shutdown"
  | Internal => bs "internal lifecycle failure"
  end.
End RepeatFailureCategory.

(** [InterceptContext] (hook/interactive.rs). *)
Record intercept_context : Type := InterceptContext {
  source_session : session_id; source_transaction : transaction_id; source_address : ip_addr }.

(** [AttemptError]: an error of the flow, or a category that an attempt ends with. *)
Notation attempting A := (flow (result RepeatFailureCategory.t A)).

Section Repeat.
Context `{HttpEnvironment, Sha256, Hex}.

Record repeat_request : Type := RepeatRequest {
  repeat_source : intercept_context; repeat_snapshot : http_request_snapshot }.
Record http_response_snapshot : Type := HttpResponseSnapshot {
  snapshot_status : N; snapshot_version : bytes; snapshot_headers : header_map; snapshot_content : bytes;
  observed_body_bytes : N; body_truncated : bool }.
Inductive repeat_outcome : Type :=
| RepeatResponse (response : http_response_snapshot)
| RepeatFailed (category : RepeatFailureCategory.t).
Record repeat_result : Type := RepeatResult {
  result_source : transaction_id; result_session : session_id; result_transaction : transaction_id;
  result_outcome : repeat_outcome }.

(** [AttemptError::Proxy]. *)
Definition proxy {A} (m : flow A) : attempting A := a ← m; mret (Ok a).
(** [AttemptError::Category]. *)
Definition category {A} (c : RepeatFailureCategory.t) : attempting A := mret (Err c).
(** The [?] of an attempt. *)
Definition attempt_then {A B} (m : attempting A) (k : A -> attempting B) : attempting B :=
  r ← m; match r with Ok a => k a | Err c => category c end.
Definition or_category {E A} (r : result E A) (c : RepeatFailureCategory.t) : attempting A :=
  mret (map_err (fun _ => c) r).
Definition refuse_unless (b : bool) (c : RepeatFailureCategory.t) : attempting unit :=
  if b then mret (Ok tt) else category c.
End Repeat.
Arguments repeat_request {_}.
Notation "x ←? m ; k" := (attempt_then m (fun x => k)) (at level 20, m at level 100, k at level 200, right associativity).
Notation "' x ←? m ; k" := (attempt_then m (fun x => k)) (at level 20, x pattern, m at level 100, k at level 200, right associativity).

Section Attempts.
Context `{HttpEnvironment, Sha256, Hex}.
Implicit Types (s : session_id) (t : transaction_id) (limits : proxy_limits).

(** * Categories (repeat.rs) *)

Definition failure_category (e : proxy_error) : RepeatFailureCategory.t :=
  match e with
  | PolicyDenied _ | DetourLoop _ => RepeatFailureCategory.PolicyDenied
  | Dns _ | DnsTimedOut _ | NoResolvedAddresses _ => RepeatFailureCategory.Dns
  | ConnectFailed _ | ConnectTimedOut _ => RepeatFailureCategory.Connect
  | Tls _ => RepeatFailureCategory.Tls
  | UpstreamHttp _ | UpstreamResponseTimedOut => RepeatFailureCategory.Upstream
  | HookError _ | HookMutation _ => RepeatFailureCategory.Inspection
  | Audit _ => RepeatFailureCategory.Audit
  | ShutdownError => RepeatFailureCategory.Shutdown
  | Bind _ | LocalAddress | AcceptFailed | HttpConnection | InvalidHttpStatus | HttpUpgrade
  | TunnelRegistration | InternalPolicy _ | RelayRead _ | RelayWrite _ | InteractiveError _
  | InteractiveRejected | Socks _ | ConcurrencyClosed | Join => RepeatFailureCategory.Internal
  end.
Definition failure_outcome (c : RepeatFailureCategory.t) : flow_outcome :=
  match c with
  | RepeatFailureCategory.InvalidRequest => OutRepeatInvalidRequest
  | RepeatFailureCategory.PolicyDenied => OutRepeatPolicyDenied
  | RepeatFailureCategory.Dns => OutRepeatDnsFailed
  | RepeatFailureCategory.Connect => OutRepeatConnectFailed
  | RepeatFailureCategory.Tls => OutRepeatTlsFailed
  | RepeatFailureCategory.Upstream => OutRepeatUpstreamFailed
  | RepeatFailureCategory.Inspection => OutRepeatInspectionFailed
  | RepeatFailureCategory.Audit => OutRepeatAuditFailed
  | RepeatFailureCategory.Shutdown => OutRepeatShutdown
  | RepeatFailureCategory.Internal => OutRepeatInternalFailure
  end.

(** * Headers and bodies (repeat.rs) *)

Definition repeat_host (m : header_map) (authority : bytes) : attempting header_map :=
  match regenerate_host m authority with
  | Some m => mret (Ok m)
  | None => category RepeatFailureCategory.InvalidRequest
  end.
Definition repeat_content_length (m : header_map) (length : N) : attempting header_map :=
  if header_value (show_N length) then mret (Ok (set_content_length m length))
  else category RepeatFailureCategory.Internal.
Definition retain_prefix (b : bytes) (maximum observed : N) : bytes * bool :=
  let retained := takeN (N.min maximum (lenN b)) b in
  (retained, (lenN retained <? observed)%N).
Definition retention limits : N := default (body_prefix_bytes limits) ui_content_bytes.

(** * Policy and hooks (repeat.rs) *)

Fixpoint judge_repeat s t (snapshot : policy_snapshot) (requested : requested_facts) (method path : bytes)
    (m : SanitizedHeaders.t) (addresses : list socket_addr) (first_denial : option Decision.t)
  : flow (option Decision.t) :=
  match addresses with
  | [] => mret first_denial
  | address :: addresses =>
      let facts := http_request_facts_new (ResolvedTargetFacts requested (sa_ip address)) method path m in
      c ← audit_context_ s (Some t);
      _ ← publish_replay_facts c (ReplayHttpRequest facts);
      let '(decision, definition) := Acl.evaluate_with_definition (snapshot_policy snapshot) (HttpRequest facts) in
      _ ← publish_decision c decision (definition, enforcement snapshot) (EvaluatedResolved (request_target facts));
      judge_repeat s t snapshot requested method path m addresses (remember_denial snapshot decision first_denial)
  end.
Definition evaluate_request_policy s t (requested : requested_facts) (addresses : list socket_addr)
    (method path : bytes) (m : header_map) : attempting unit :=
  snapshot ← decision_snapshot;
  first_denial ← judge_repeat s t snapshot requested method path (policy_headers m) addresses None;
  match first_denial with
  | Some decision => _ ← record_action s (Some t) decision; category RepeatFailureCategory.PolicyDenied
  | None => mret (Ok tt)
  end.
Definition evaluate_response_policy s t (requested : requested_facts) (selected : socket_addr)
    (r : http_response incoming) : attempting unit :=
  snapshot ← decision_snapshot;
  status ← status_code (resp_status r);
  let facts := HttpResponseFacts (ResolvedTargetFacts requested (sa_ip selected)) status (policy_headers (resp_headers r)) in
  c ← audit_context_ s (Some t);
  _ ← publish_replay_facts c (ReplayHttpResponse facts);
  let '(decision, definition) := Acl.evaluate_with_definition (snapshot_policy snapshot) (HttpResponse facts) in
  _ ← publish_decision c decision (definition, enforcement snapshot) (EvaluatedResolved (response_target facts));
  if permits snapshot decision then mret (Ok tt)
  else _ ← record_action s (Some t) decision; category RepeatFailureCategory.PolicyDenied.
(** The hooks of a repeat are those of a transaction. *)
Definition repeat_request_head_hooks s t (method target : bytes) (m : header_map) : attempting header_map :=
  proxy (apply_request_head_hooks s t method target m).
Definition repeat_response_head_hooks s t (status : N) (m : header_map) : attempting header_map :=
  proxy (apply_response_head_hooks s t status m).

(** * Bodies (repeat.rs) *)

Definition prepare_repeat_body s t limits (b : bytes) (m : header_map) (target : resolved_facts)
  : attempting (bytes * header_map) :=
  i ← inspector_new s (Some t) Http (body_prefix_bytes limits);
  '(permitted, i) ← inspector_permits (with_target i target) HttpRequestBody b;
  _ ←? refuse_unless permitted RepeatFailureCategory.Inspection;
  '(output, replaced) ← transform_http_body i HttpRequestBody b (body_prefix_bytes limits) true;
  m ←? repeat_content_length (normalize_if replaced m) (lenN output);
  mret (Ok (output, m)).
Record retained_body : Type := RetainedBody {
  retained_bytes : bytes; retained_observed : N; retained_truncated : bool; retained_replaced : bool }.
Definition preflight_response_body s t limits (body : incoming) (target : resolved_facts) : attempting retained_body :=
  match collect_bounded body (body_prefix_bytes limits) with
  | Err CollectHyper => fail (UpstreamHttp (bs "repeat response body"))
  | Err CollectReadTimedOut => category RepeatFailureCategory.Upstream
  | Err (LimitExceeded _ _) => category RepeatFailureCategory.Inspection
  | Ok b =>
      i ← inspector_new s (Some t) Http (body_prefix_bytes limits);
      '(permitted, i) ← inspector_permits (with_target i target) HttpResponseBody b;
      _ ←? refuse_unless permitted RepeatFailureCategory.Inspection;
      '(output, replaced) ← transform_http_body i HttpResponseBody b (body_prefix_bytes limits) true;
      let '(retained, truncated) := retain_prefix output (retention limits) (lenN output) in
      mret (Ok (RetainedBody retained (lenN output) truncated replaced))
  end.
(** The loop of [streaming_response_body]. *)
Fixpoint stream_loop limits (allowed : bool) (i : flow_inspector) (retained : bytes) (observed : N) (replaced : bool)
    (body : incoming) : attempting retained_body :=
  match body with
  | [] => mret (Ok (RetainedBody retained observed (lenN retained <? observed)%N replaced))
  | FrameLate :: _ => category RepeatFailureCategory.Upstream
  | FrameFailed :: _ => fail (UpstreamHttp (bs "repeat response body"))
  | Frame (TrailersFrame _) :: body => stream_loop limits allowed i retained observed replaced body
  | Frame (DataFrame data) :: body =>
      '(permitted, i) ← inspector_permits i HttpResponseBody data;
      if negb permitted then category RepeatFailureCategory.Inspection
      else
        '(output, changed) ← transform_http_body i HttpResponseBody data (body_prefix_bytes limits) allowed;
        let remaining := (retention limits - lenN retained)%N in
        stream_loop limits allowed i (retained ++ takeN (N.min remaining (lenN output)) output)
          (sat_add observed (lenN output)) (replaced || changed) body
  end.
Definition streaming_response_body s t limits (body : incoming) (m : header_map) (target : resolved_facts)
  : attempting retained_body := fun w =>
  let may_change := HookRunner.may_mutate_response_body (hook_runner (history w)) in
  let allowed := negb (contains_key m CONTENT_ENCODING) in
  (i ← inspector_new s (Some t) Http (body_prefix_bytes limits);
   if may_change && negb allowed then category RepeatFailureCategory.Inspection
   else stream_loop limits allowed (with_target i target) [] 0 false body) w.

(** * The exchange (repeat.rs) *)

Definition process_response s t limits (r : http_response incoming) (requested : requested_facts)
    (selected : socket_addr) (method : bytes) : attempting http_response_snapshot :=
  match validate (resp_headers r) (header_bytes limits) with
  | Err _ => category RepeatFailureCategory.Upstream
  | Ok _ =>
      _ ←? evaluate_response_policy s t requested selected r;
      m ←? repeat_response_head_hooks s t (resp_status r) (resp_headers r);
      m ←? or_category (strip_hop_by_hop m) RepeatFailureCategory.Upstream;
      if response_has_no_content method (resp_status r)
      then mret (Ok (HttpResponseSnapshot (resp_status r) (resp_version r)
                       (normalize_no_content_headers method (resp_status r) m) [] 0 false))
      else
        let target := ResolvedTargetFacts requested (sa_ip selected) in
        mode ← inspection_mode_;
        b ←? match mode with
             | Preflight => preflight_response_body s t limits (resp_body r) target
             | Streaming => streaming_response_body s t limits (resp_body r) m target
             end;
        m ←? (if retained_replaced b
              then repeat_content_length (normalize_replaced_body_headers m) (N.min (retained_observed b) usize_max)
              else mret (Ok m));
        mret (Ok (HttpResponseSnapshot (resp_status r) (resp_version r) m (retained_bytes b)
                    (retained_observed b) (retained_truncated b)))
  end.
(** The request is handed to the connection before the wait for its response, which
    shutdown and the idle timeout may end. *)
Definition exchange_repeat (request : http_request proxy_body) : attempting (http_response incoming) := fun w =>
  let w := log (request_sent request) w in
  if exchange_shutdown (history w) then (Ok (Err RepeatFailureCategory.Shutdown), w)
  else
    match exchange (history w) with
    | ExchangeResponse response => (Ok (Ok response), w)
    | ExchangeFailed => (Err (UpstreamHttp (bs "repeat request")), w)
    | ExchangeTimedOut => (Ok (Err RepeatFailureCategory.Upstream), w)
    end.
Definition handshake_repeat : attempting unit := fun w =>
  match handshake (history w) with
  | HandshakeDone => (Ok (Ok tt), w)
  | HandshakeFailed => (Err (UpstreamHttp (bs "repeat handshake")), w)
  | HandshakeTimedOut => (Ok (Err RepeatFailureCategory.Upstream), w)
  end.
Definition send_on s t limits (request : http_request proxy_body) (requested : requested_facts)
    (selected : socket_addr) : attempting http_response_snapshot :=
  _ ←? handshake_repeat;
  response ←? exchange_repeat request;
  process_response s t limits response requested selected (req_method request).

(** * An attempt (repeat.rs) *)

(** [https] needs an interceptor that intercepts the host. *)
Definition repeats_scheme (scheme : forward_scheme) (host : target_host) : bool :=
  match scheme with
  | SchemeHttp => true
  | SchemeHttps => match interceptor with None => false | Some i => should_intercept i host end
  end.
Definition connect_scheme (scheme : forward_scheme) (host : target_host) : attempting unit :=
  match scheme with
  | SchemeHttp => mret (Ok tt)
  | SchemeHttps =>
      match interceptor with
      | None => category RepeatFailureCategory.Tls
      | Some _ =>
          connected ← connect_upstream host (Some ALPN_HTTP_1_1);
          refuse_unless (bool_decide (is_Some connected)) RepeatFailureCategory.Tls
      end
  end.
Definition repeatable limits (r : http_request_snapshot) : bool :=
  bool_decide (snap_version r = HTTP_11) && negb (bool_decide (snap_method r = CONNECT))
  && (lenN (snap_body r) <=? body_prefix_bytes limits)%N.
Definition perform s t limits (command : repeat_request) : attempting http_response_snapshot :=
  let r := repeat_snapshot command in
  _ ←? refuse_unless (repeatable limits r) RepeatFailureCategory.InvalidRequest;
  _ ←? or_category (validate (snap_headers r) (header_bytes limits)) RepeatFailureCategory.InvalidRequest;
  '(target, scheme) ←? or_category (from_repeat (snap_uri r)) RepeatFailureCategory.InvalidRequest;
  _ ←? refuse_unless (repeats_scheme scheme (forward_host target)) RepeatFailureCategory.Tls;
  match origin_uri target with
  | None => category RepeatFailureCategory.InvalidRequest
  | Some u =>
      let path := default (bs "/") (path_and_query u) in
      m ←? or_category (strip_hop_by_hop (snap_headers r)) RepeatFailureCategory.InvalidRequest;
      m ←? repeat_host m (forward_authority target);
      let requested :=
        RequestedTargetFacts (source_address (repeat_source command)) (forward_host target) (forward_port target) Http in
      addresses ←? proxy (authorize_and_resolve requested s (Some t));
      _ ←? evaluate_request_policy s t requested addresses (snap_method r) path m;
      selected ←? proxy (connect_any addresses);
      m ←? repeat_request_head_hooks s t (snap_method r) (uri_text u) m;
      m ←? repeat_host m (forward_authority target);
      '(b, m) ←? prepare_repeat_body s t limits (snap_body r) m (ResolvedTargetFacts requested (sa_ip selected));
      let request := MakeRequest (snap_method r) u HTTP_11 m (FullBody b) in
      _ ←? connect_scheme scheme (forward_host target);
      send_on s t limits request requested selected
  end.

(** * The worker (repeat.rs) *)

Definition publish_request s t (command : repeat_request) : flow unit :=
  let r := repeat_snapshot command in
  _ ← publish_http_event s t (snap_method r) (uri_text (snap_uri r)) (snap_version r) (presentation_headers (snap_headers r));
  _ ← publish_wire_capture_unavailable s t HttpRequestBody
        (bs "repeat requests retain semantic snapshots, not ingress wire bytes");
  publish_event s (Some t)
    (HttpRequestObserved (snap_method r) (uri_text (snap_uri r)) (audit_headers (snap_headers r))).
Definition publish_response s t (r : http_response_snapshot) : flow unit :=
  status ← status_code (snapshot_status r);
  _ ← publish_http_response_event s t status (snapshot_version r) (presentation_headers (snapshot_headers r));
  publish_event s (Some t) (HttpResponseObserved status (audit_headers (snapshot_headers r))).
(** What a failed audit publication leaves of an attempt: nothing but itself. *)
Definition conclude_attempt s t (r : result proxy_error (result RepeatFailureCategory.t http_response_snapshot))
  : flow repeat_outcome :=
  match r with
  | Ok (Ok response) => _ ← publish_response s t response; mret (RepeatResponse response)
  | Ok (Err c) => mret (RepeatFailed c)
  | Err (Audit e) => fail (Audit e)
  | Err e => mret (RepeatFailed (failure_category e))
  end.
Definition response_bytes (o : repeat_outcome) : N :=
  match o with RepeatResponse r => observed_body_bytes r | RepeatFailed _ => 0%N end.
Definition close_outcome (o : repeat_outcome) : flow_outcome :=
  match o with RepeatResponse _ => OutCompleted | RepeatFailed c => failure_outcome c end.
(** [execute], with the fresh identifiers of the attempt. *)
Definition execute s t limits (command : repeat_request) : flow repeat_result :=
  let source := repeat_source command in
  _ ← publish_flow_opened s (show_ip (source_address source)) (uri_text (snap_uri (repeat_snapshot command)));
  _ ← publish_event s (Some t) (HttpRepeatStarted (source_session source) (source_transaction source));
  _ ← publish_request s t command;
  r ← attempt (perform s t limits command);
  outcome ← conclude_attempt s t r;
  let request_bytes := lenN (snap_body (repeat_snapshot command)) in
  _ ← publish_event s (Some t) (FlowClosed request_bytes (response_bytes outcome) (close_outcome outcome));
  _ ← publish_flow_closed s request_bytes (response_bytes outcome);
  mret (RepeatResult (source_transaction source) s t outcome).
(** What the worker meets: a command, with its fresh identifiers and what becomes of its
    result, a closed queue, or shutdown while it waits for one. *)
Inductive result_delivery : Type := ResultSent | ConsumerGone | SendShutdown.
Inductive worker_event : Type :=
| CommandReceived (command : repeat_request) (s : session_id) (t : transaction_id) (delivery : result_delivery)
| QueueClosed
| WorkerShutdown.
(** [run]: the results sent.  Without a queue or a consumer it only waits for shutdown. *)
Fixpoint run_worker limits (events : list worker_event) : flow (list repeat_result) :=
  match events with
  | CommandReceived command s t delivery :: events =>
      result ← execute s t limits command;
      match delivery with
      | ResultSent => results ← run_worker limits events; mret (result :: results)
      | ConsumerGone | SendShutdown => mret []
      end
  | QueueClosed :: _ | WorkerShutdown :: _ | [] => mret []
  end.
End Attempts.
