(* ===== verification/RepeatSafety.v ===== *)
(** What a repeated request can do: the addresses it contacts, the request it sends, its
    audit trail, and the part of the response it keeps. *)
From stdpp Require Import gmap strings.
From stdpp Require Import prelude.
From S2P Require Import Prelude Bytes Net Endpoint Domain PolicyModel Acl Guard Inspection AuditModel AuditSink Hooks Runtime Destination FlowInspect Relay Settings TcpSession HttpHeaders Tls HttpMessages HttpService HttpSafety HttpBodies HttpRepeat.

(** * Bounds on the parts of an attempt *)

(** What is true of the result of an attempt that goes on. *)
Definition goes_on {A} (Q : A -> Prop) (r : result RepeatFailureCategory.t A) : Prop :=
  match r with Ok a => Q a | Err _ => True end.

Section Parts.
Context `{HttpEnvironment, Sha256, Hex} (P : step -> Prop).
Lemma attempt_yields {A B} (Q : A -> Prop) (R : B -> Prop) (m : attempting A) (k : A -> attempting B) :
  yields P (goes_on Q) m -> (forall a, Q a -> yields P (goes_on R) (k a)) -> yields P (goes_on R) (attempt_then m k).
Proof. intros Hm Hk. eapply yields_bind; [exact Hm|]. intros [a|c] Ha; [by apply Hk|by apply yields_ret]. Qed.
Lemma yields_proxy {A} (Q : A -> Prop) (m : flow A) : yields P Q m -> yields P (goes_on Q) (proxy m).
Proof. intros Hm. eapply yields_bind; [exact Hm|]. intros a Ha. by apply yields_ret. Qed.
Lemma yields_or_category {E A} (r : result E A) c : yields P (goes_on (fun a => r = Ok a)) (or_category r c).
Proof. apply yields_ret. by destruct r. Qed.
Lemma yields_refuse b c : yields P (goes_on (fun _ => b = true)) (refuse_unless b c).
Proof. destruct b; by apply yields_ret. Qed.
Lemma yields_category {A} (Q : A -> Prop) c : yields P (goes_on Q) (category c : attempting A).
Proof. by apply yields_ret. Qed.
Lemma goes_on_only {A} (Q : A -> Prop) (m : attempting A) : (forall a, Q a) -> only P m -> yields P (goes_on Q) m.
Proof. intros HQ Hm. eapply yields_weaken; [|by apply yields_only]. intros [] _; cbn; auto. Qed.
Lemma attempt_only {A B} (m : attempting A) (k : A -> attempting B) :
  only P m -> (forall a, only P (k a)) -> only P (attempt_then m k).
Proof. intros Hm Hk. apply only_bind; [done|]. intros [a|c]; [apply Hk|apply only_ret]. Qed.
Lemma attempt_first {A B} (R : B -> Prop) (m : attempting A) (k : A -> attempting B) :
  only P m -> (forall a, yields P (goes_on R) (k a)) -> yields P (goes_on R) (attempt_then m k).
Proof. intros Hm Hk. eapply attempt_yields; [by apply (goes_on_only (fun _ => True))|auto]. Qed.
Lemma only_proxy {A} (m : flow A) : only P m -> only P (proxy m).
Proof. intros Hm. apply only_bind; [done|intros; apply only_ret]. Qed.
Lemma only_or_category {E A} (r : result E A) c : only P (or_category r c).
Proof. apply only_ret. Qed.
Lemma only_refuse_unless b c : only P (refuse_unless b c).
Proof. destruct b; apply only_ret. Qed.
Lemma only_category {A} c : only P (category c : attempting A).
Proof. apply only_ret. Qed.
#[local] Hint Resolve only_proxy only_or_category only_refuse_unless only_category : only.

Context (P_audited : forall e answer, lifecycle (envelope_event e) = false -> P (Audited e answer)).
Context (P_observed : forall e, vouches e -> P (Observed e)).
#[local] Hint Resolve only_event only_quiet_publish only_observe only_permits only_mode only_inspector
  only_transform_body only_request_head_hooks only_response_head_hooks only_status : only.
Ltac attempts := repeat (cbv zeta beta;
  match goal with
  | |- only _ (attempt_then _ _) => apply attempt_only; [|intros ?]
  | |- _ => only_step
  end).
Ltac quiet := unfold record_action, publish_decision, publish_replay_facts; attempts.

Lemma only_repeat_host m authority : only P (repeat_host m authority).
Proof. unfold repeat_host. quiet. Qed.
Lemma only_repeat_length m n : only P (repeat_content_length m n).
Proof. unfold repeat_content_length. quiet. Qed.
#[local] Hint Resolve only_repeat_host only_repeat_length : only.
Lemma only_judge_repeat s t snapshot requested method path m addresses denial :
  only P (judge_repeat s t snapshot requested method path m addresses denial).
Proof. revert denial; induction addresses as [|a addresses IH]; intros denial; cbn [judge_repeat]; quiet; apply IH. Qed.
#[local] Hint Resolve only_judge_repeat : only.
Lemma only_request_policy s t requested addresses method path m :
  only P (evaluate_request_policy s t requested addresses method path m).
Proof. unfold evaluate_request_policy. quiet. Qed.
Lemma only_repeat_response_policy s t requested selected r : only P (evaluate_response_policy s t requested selected r).
Proof. unfold evaluate_response_policy. quiet. Qed.
#[local] Hint Resolve only_request_policy only_repeat_response_policy : only.
Lemma only_prepare_body s t limits b m target : only P (prepare_repeat_body s t limits b m target).
Proof. unfold prepare_repeat_body. quiet. Qed.
Lemma only_preflight_body s t limits body target : only P (preflight_response_body s t limits body target).
Proof. unfold preflight_response_body. quiet. Qed.
Lemma only_stream_loop limits allowed i retained observed replaced body :
  only P (stream_loop limits allowed i retained observed replaced body).
Proof.
  revert i retained observed replaced; induction body as [|[[b|trailers]| |] body IH]; intros; cbn [stream_loop]; quiet; apply IH.
Qed.
Lemma only_streaming_body s t limits body m target : only P (streaming_response_body s t limits body m target).
Proof.
  intros w. unfold streaming_response_body. apply (only_bind P); [apply only_inspector|intros i].
  destruct (_ && _); [apply only_category|apply only_stream_loop].
Qed.
#[local] Hint Resolve only_prepare_body only_preflight_body only_streaming_body : only.
Lemma only_process_response s t limits r requested selected method :
  only P (process_response s t limits r requested selected method).
Proof. unfold process_response, repeat_response_head_hooks. quiet. Qed.
Lemma only_connect_scheme scheme host : only P (connect_scheme scheme host).
Proof.
  unfold connect_scheme. destruct scheme; [apply only_ret|]. destruct interceptor; [|apply only_category].
  apply only_bind; [|intros; apply only_refuse_unless]. apply only_pure. intros w. unfold connect_upstream.
  destruct (upstream_protocols _ _ _); [|done]. by destruct (connect_upstream_tls _ _).
Qed.
Lemma only_send_on s t limits request requested selected :
  P (request_sent request) -> only P (send_on s t limits request requested selected).
Proof.
  intros Hsent. unfold send_on. apply attempt_only.
  { apply only_pure. intros w. unfold handshake_repeat. by destruct (handshake _). }
  intros _. apply attempt_only; [|intros; apply only_process_response].
  apply (only_log _ _ (request_sent request)); [done|]. intros w. unfold exchange_repeat.
  destruct (exchange_shutdown _); [done|]. by destruct (exchange _).
Qed.
End Parts.

(** * The request that is sent *)

Section Sent.
Context `{HttpEnvironment, Sha256, Hex, !HeaderMapLaws, !HeaderIterLaws}.
(** What an attempt at [command] may hand to the upstream. *)
Definition made_from (r : http_request_snapshot) (request : http_request proxy_body) : Prop :=
  exists target scheme u b,
    from_repeat (snap_uri r) = Ok (target, scheme) /\ origin_uri target = Some u /\
    req_method request = snap_method r /\ req_uri request = u /\ req_version request = HTTP_11 /\
    clean (forward_authority target) (req_headers request) /\
    req_body request = FullBody b /\ get_all (req_headers request) CONTENT_LENGTH = [show_N (lenN b)].

Section Bounds.
Context (P : step -> Prop).
Context (P_audited : forall e answer, lifecycle (envelope_event e) = false -> P (Audited e answer)).
Context (P_observed : forall e, vouches e -> P (Observed e)).
Lemma repeat_host_yields m authority :
  yields P (goes_on (fun m' => regenerate_host m authority = Some m')) (repeat_host m authority).
Proof. unfold repeat_host. by destruct (regenerate_host m authority); apply yields_ret. Qed.
Lemma repeat_length_yields m n : yields P (goes_on (fun m' => m' = set_content_length m n)) (repeat_content_length m n).
Proof. unfold repeat_content_length. by destruct (header_value _); apply yields_ret. Qed.
Lemma prepare_body_yields s t limits b m target :
  yields P (goes_on (fun x => keeps_clean m x.2 /\ get_all x.2 CONTENT_LENGTH = [show_N (lenN x.1)]))
    (prepare_repeat_body s t limits b m target).
Proof.
  unfold prepare_repeat_body. apply yields_then; [apply only_inspector|intros i].
  apply yields_then; [by apply only_permits|intros [permitted i']].
  apply attempt_first; [apply only_refuse_unless|intros _].
  apply yields_then; [by apply only_transform_body|intros [output replaced]].
  eapply attempt_yields; [apply repeat_length_yields|]. intros m' ->. apply yields_ret. split; cbn [fst snd].
  - eapply keeps_trans; [apply keeps_normalize_if|apply keeps_set_length].
  - apply get_content_length.
Qed.
Context (P_looked : forall host port, P (LookedUp host port)) (P_connected : forall a, P (Connected a)).
Lemma only_perform s t limits command :
  (repeatable limits (repeat_snapshot command) = true ->
   forall request, made_from (repeat_snapshot command) request -> P (request_sent request)) ->
  only P (perform s t limits command).
Proof.
  intros Hsent. unfold perform. cbv zeta. eapply (only_yields P (goes_on (fun _ => True))).
  eapply attempt_yields; [apply yields_refuse|intros [] Hr]. specialize (Hsent Hr).
  apply attempt_first; [apply only_or_category|intros _].
  eapply attempt_yields; [apply yields_or_category|].
  intros [target scheme] Ht. apply attempt_first; [apply only_refuse_unless|intros _].
  destruct (origin_uri target) as [u|] eqn:Hu; [|apply yields_category].
  eapply attempt_yields; [apply yields_or_category|intros m Hm].
  pose proof (strip_clean _ _ Hm) as Hstrip.
  eapply attempt_yields; [apply repeat_host_yields|intros m1 Hm1].
  pose proof (regenerate_clean _ _ _ Hstrip Hm1) as [_ Hm1'].
  apply attempt_first; [by apply only_proxy, only_authorize_and_resolve|intros addresses].
  apply attempt_first; [by apply only_request_policy|intros _].
  apply attempt_first; [by apply only_proxy, only_connect_any|intros selected].
  eapply attempt_yields; [by apply yields_proxy, request_head_hooks_clean|intros m2 Hm2].
  eapply attempt_yields; [apply repeat_host_yields|intros m3 Hm3].
  eapply attempt_yields; [apply prepare_body_yields|intros [b m4] [Hk Hlen]]. cbn [fst snd] in *.
  apply attempt_first; [apply only_connect_scheme|intros _].
  apply goes_on_only; [done|]. apply only_send_on; [done|done|]. apply Hsent.
  exists target, scheme, u, b. do 5 (split; [done|]). split; [|done]. eapply clean_keeps; [|exact Hk].
  eapply regenerate_clean; [|exact Hm3]. intros n Hn. apply Hm2; auto.
Qed.
Context (P_any : forall e answer, P (Audited e answer)).
Lemma only_conclude_attempt s t r : only P (conclude_attempt s t r).
Proof.
  assert (Hresp : forall response, only P (publish_response s t response)).
  { intros response. unfold publish_response. apply only_bind; [apply only_status|intros status].
    apply only_bind; [by apply only_observe|intros _]. by apply only_any_event. }
  unfold conclude_attempt. destruct r as [[response|c]|e]; [|apply only_ret|].
  - apply only_bind; [apply Hresp|intros _; apply only_ret].
  - destruct e; first [apply only_ret | apply only_fail].
Qed.
Lemma only_publish_request s t command : only P (publish_request s t command).
Proof.
  unfold publish_request. apply only_bind; [by apply only_observe|intros _].
  apply only_bind; [by apply only_observe|intros _]. by apply only_any_event.
Qed.
Lemma only_execute s t limits command :
  (repeatable limits (repeat_snapshot command) = true ->
   forall request, made_from (repeat_snapshot command) request -> P (request_sent request)) ->
  only P (execute s t limits command).
Proof.
  intros Hsent. unfold execute. apply only_bind; [by apply only_observe|intros _].
  apply only_bind; [by apply only_any_event|intros _]. apply only_bind; [apply only_publish_request|intros _].
  apply only_bind; [by apply only_attempt, only_perform|intros r]. apply only_bind; [apply only_conclude_attempt|intros o].
  apply only_bind; [by apply only_any_event|intros _]. apply only_bind; [by apply only_observe|intros _; apply only_ret].
Qed.
End Bounds.

Definition repeats (r : http_request_snapshot) (x : step) : Prop :=
  match x with
  | RequestSent method text version headers body =>
      method = snap_method r /\ method <> CONNECT /\ version = HTTP_11 /\
      exists target scheme u b,
        from_repeat (snap_uri r) = Ok (target, scheme) /\ origin_uri target = Some u /\ text = uri_text u /\
        values_of HOST headers = [forward_authority target] /\ (forall n, n ∈ hop_by_hop -> values_of n headers = []) /\
        body = Some b /\ values_of CONTENT_LENGTH headers = [show_N (lenN b)]
  | _ => True
  end.
Lemma made_from_repeats limits r request : repeatable limits r = true -> made_from r request -> repeats r (request_sent request).
Proof.
  intros Hr (target & scheme & u & b & Ht & Hu & Hm & Hru & Hv & [Hhost Hhop] & Hb & Hlen). cbn [repeats request_sent].
  apply andb_true_iff in Hr as [[_ Hc]%andb_true_iff _]. apply negb_true_iff, bool_decide_eq_false in Hc.
  split; [done|]. split; [by rewrite Hm|]. split; [done|]. exists target, scheme, u, b. do 2 (split; [done|]).
  split; [by rewrite Hru|]. unfold values_of. rewrite <- !get_iter. split; [done|]. split.
  - intros n Hn. rewrite <- get_iter. by apply Hhop.
  - split; [by rewrite Hb|done].
Qed.
(** A repeated request leaves the proxy as clean as a first one: whatever the operator
    edited and the hooks change, what an attempt sends has the retained method, never
    CONNECT, and the origin form of the retained absolute URI, with a single Host field
    equal to its authority, none of the hop-by-hop fields, and a single Content-Length
    that is the length of the body sent with it, all of which the proxy holds. *)
Theorem repeated_requests_are_clean s t limits (command : repeat_request) (w : world) :
  exists l, history (execute s t limits command w).2 = history w ++ l /\ Forall (repeats (repeat_snapshot command)) l.
Proof.
  apply (only_execute (repeats (repeat_snapshot command))); [done..|]. intros Hr request. by eapply made_from_repeats.
Qed.
End Sent.

(** * The addresses that are contacted *)

Section Contacts.
Context `{HttpEnvironment, Sha256, Hex, !HeaderMapLaws, !HeaderIterLaws}.
Lemma judge_repeat_none s t snapshot requested method path m addresses denial :
  yields (fun _ => True) (fun r => r = None -> denial = None /\
      Forall (fun a => permits snapshot (Acl.evaluate (snapshot_policy snapshot) (HttpRequest
        (http_request_facts_new (ResolvedTargetFacts requested (sa_ip a)) method path m))) = true) addresses)
    (judge_repeat s t snapshot requested method path m addresses denial).
Proof.
  revert denial; induction addresses as [|a addresses IH]; intros denial; cbn [judge_repeat].
  { apply yields_ret. intros ->. by split. }
  apply yields_then; [apply only_context|intros c]. apply yields_then; [by apply only_publish|intros _].
  unfold Acl.evaluate at 1. destruct (Acl.evaluate_with_definition _ _) as [d def] eqn:E.
  apply yields_then; [apply only_bind; [by apply only_publish|intros _; by apply only_try_publish]|].
  intros _. eapply yields_weaken; [|apply IH]. intros r Hr Hnone. destruct (Hr Hnone) as [Hd HF].
  unfold remember_denial in Hd. destruct (permits snapshot d) eqn:Hp; [|by destruct denial].
  split; [done|]. constructor; [|done]. unfold Acl.evaluate. by rewrite E.
Qed.
(** The request policy of a repeat as a judgement that returns its refusal. *)
Definition judge s t (requested : requested_facts) (method path : bytes) (m : header_map) (addresses : list socket_addr)
  : flow (option RepeatFailureCategory.t) :=
  r ← evaluate_request_policy s t requested addresses method path m;
  mret (match r with Ok _ => None | Err c => Some c end).
Lemma repeat_policy_judges s t requested method path m addresses :
  judged (request_facts_at requested method path m) addresses (judge s t requested method path m addresses).
Proof.
  split. { apply only_bind; [by apply only_request_policy|intros; apply only_ret]. }
  intros w. unfold judge, evaluate_request_policy, mbind, flow_bind, decision_snapshot.
  destruct (judge_repeat_none s t (current_snapshot (history w)) requested method path (policy_headers m) addresses None w)
    as [_ Hj]. destruct (judge_repeat _ _ _ _ _ _ _ _ _ w) as [[[d|]|e] w1]; cbn [fst] in *; [| |done].
  - by destruct (record_action _ _ d w1) as [[]].
  - intros _. by destruct (Hj None eq_refl eq_refl) as [_ HF].
Qed.
Lemma reaches_weaken (R R' : list step -> list step -> Prop) {A} (m : flow A) :
  (forall before l, R before l -> R' before l) -> reaches R m -> reaches R' m.
Proof. intros HR Hm w. destruct (Hm w) as (l & Hl & Hc). exists l. auto. Qed.
(** Authorising, judging and connecting in an attempt. *)
Lemma attempt_guarded {B} s t requested method path m (k : socket_addr -> attempting B) :
  (forall a, only no_connection (k a)) ->
  reaches (http_contacts (fun _ => True) requested (request_facts_at requested method path m))
    (addresses ←? proxy (authorize_and_resolve requested s (Some t));
     _ ←? evaluate_request_policy s t requested addresses method path m;
     selected ←? proxy (connect_any addresses); k selected).
Proof.
  intros Hk w. edestruct (guarded_contacts s t requested (request_facts_at requested method path m)
    (judge s t requested method path m) (fail (A := result RepeatFailureCategory.t B)) category k) as (l & Hl & Hc).
  - apply repeat_policy_judges.
  - intros e. apply only_fail.
  - intros c. apply only_category.
  - exact Hk.
  - exists l. split; [|exact Hc]. rewrite <- Hl. f_equal. f_equal.
    unfold guarded, or_else, judge, attempt_then, proxy, attempt, category, mbind, flow_bind, mret, flow_ret, fail.
    destruct (authorize_and_resolve requested s (Some t) w) as [[addresses|e] w1]; [|done].
    destruct (evaluate_request_policy _ _ _ _ _ _ _ w1) as [[[[]|c]|e] w2]; [|done|done].
    by destruct (connect_any addresses w2) as [[selected|e] w3].
Qed.

Definition repeat_target (command : repeat_request) (target : forward_target) : requested_facts :=
  RequestedTargetFacts (source_address (repeat_source command)) (forward_host target) (forward_port target) Http.
Definition repeat_contacts limits (command : repeat_request) (before l : list step) : Prop :=
  Forall client_side l \/
  exists target scheme u stripped m,
    repeatable limits (repeat_snapshot command) = true /\
    from_repeat (snap_uri (repeat_snapshot command)) = Ok (target, scheme) /\
    repeats_scheme scheme (forward_host target) = true /\
    origin_uri target = Some u /\ strip_hop_by_hop (snap_headers (repeat_snapshot command)) = Ok stripped /\
    regenerate_host stripped (forward_authority target) = Some m /\
    http_contacts (fun _ => True) (repeat_target command target)
      (request_facts_at (repeat_target command target) (snap_method (repeat_snapshot command))
         (default (bs "/") (path_and_query u)) m) before l.
Section Closed.
Context (limits : proxy_limits) (command : repeat_request).
Let R := repeat_contacts limits command.
Lemma repeat_quiet before l : Forall client_side l -> R before l.
Proof. by left. Qed.
Lemma repeat_before before l l' : Forall client_side l -> R (before ++ l) l' -> R before (l ++ l').
Proof.
  intros Hl [HF|(target & scheme & u & stripped & m & Hr & Ht & Hs & Hu & Hst & Hm & Hc)]; [left; by apply Forall_app|].
  right. exists target, scheme, u, stripped, m. do 6 (split; [done|]). by apply http_contacts_before.
Qed.
Lemma repeat_after before l l' : R before l -> Forall client_side l' -> R before (l ++ l').
Proof.
  intros [HF|(target & scheme & u & stripped & m & Hr & Ht & Hs & Hu & Hst & Hm & Hc)] Hl; [left; by apply Forall_app|].
  right. exists target, scheme, u, stripped, m. do 6 (split; [done|]). by apply http_contacts_after.
Qed.
Lemma reaches_go_on {A B} (Q : A -> Prop) (m : attempting A) (k : A -> attempting B) :
  yields client_side (goes_on Q) m -> (forall a, Q a -> reaches R (k a)) -> reaches R (attempt_then m k).
Proof.
  intros Hm Hk. eapply reaches_bind; [apply repeat_quiet|apply repeat_before|exact Hm|].
  intros [a|c] Ha; [by apply Hk|]. apply reaches_only; [apply repeat_quiet|apply only_category].
Qed.
Lemma perform_reaches s t : reaches R (perform s t limits command).
Proof.
  unfold perform. cbv zeta. eapply reaches_go_on; [apply yields_refuse|intros [] Hr].
  eapply reaches_go_on; [apply yields_or_category|intros _ _].
  eapply reaches_go_on; [apply yields_or_category|intros [target scheme] Ht].
  eapply reaches_go_on; [apply yields_refuse|intros [] Hs].
  destruct (origin_uri target) as [u|] eqn:Hu; [|by apply reaches_only; [apply repeat_quiet|apply only_category]].
  eapply reaches_go_on; [apply yields_or_category|intros m Hm].
  eapply reaches_go_on; [apply repeat_host_yields|intros m1 Hm1].
  eapply (reaches_weaken _ R); cycle 1.
  { apply (attempt_guarded s t (repeat_target command target) _ (default (bs "/") (path_and_query u))). intros selected.
    apply attempt_only; [by apply only_proxy, only_request_head_hooks|intros m2].
    apply attempt_only; [apply only_repeat_host|intros m3].
    apply attempt_only; [by apply only_prepare_body|intros [b m4]].
    apply attempt_only; [apply only_connect_scheme|intros _]. by apply only_send_on. }
  intros before l Hc. right. exists target, scheme, u, m, m1. do 6 (split; [done|]). exact Hc.
Qed.
End Closed.
Lemma execute_reaches s t limits (command : repeat_request) (w : world) :
  exists l, history (execute s t limits command w).2 = history w ++ l /\ repeat_contacts limits command (history w) l.
Proof.
  assert (HR : reaches (repeat_contacts limits command) (execute s t limits command)); [|apply HR].
  unfold execute. cbv zeta.
  assert (Hq := repeat_quiet limits command). assert (Hb := repeat_before limits command).
  assert (Ha := repeat_after limits command).
  apply reaches_then; [done|done|by apply only_observe|intros _].
  apply reaches_then; [done|done|by apply only_any_event|intros _].
  apply reaches_then; [done|done|by apply only_publish_request|intros _].
  apply reaches_finally; [done|by apply reaches_attempt, perform_reaches|intros r].
  apply only_bind; [by apply only_conclude_attempt|intros o]. apply only_bind; [by apply only_any_event|intros _].
  apply only_bind; [by apply only_observe|intros _; apply only_ret].
Qed.
(** C12. A repeated request reaches the network only as authorised now, not as it was when
    it was retained: either nothing leaves towards an upstream, or the request can be
    repeated, an https target is one the interceptor intercepts, and the addresses tried
    are, in order, addresses that one authorisation of the original client and the
    target of the retained URI returned during the attempt and before its first
    connection, after which no other is attempted.  They are the target's, as it
    resolved then.  Where the snapshots taken on the way enforce, the target and every
    address passed authorisation, and the policy allowed this very request at every
    address: its method, the path of the retained URI and its end-to-end headers with
    the Host of the target. *)
Theorem repeats_are_authorized s t limits (command : repeat_request) (w : world) :
  exists l, history (execute s t limits command w).2 = history w ++ l /\ repeat_contacts limits command (history w) l.
Proof. apply execute_reaches. Qed.
End Contacts.

(** * Audit failures

    [closes m]: [m] fails on a publication only when the audit channel fails closed. *)
Definition closes `{Environment} {A} (m : flow A) : Prop :=
  forall w e, (m w).1 = Err (Audit e) -> audit_policy = FailClosed.
Create HintDb closes.
Section Closes.
Context `{HttpEnvironment, Sha256, Hex}.
Lemma closes_lift {A} (r : result proxy_error A) : (forall e, r <> Err (Audit e)) -> closes (lift r).
Proof. intros Hr w e He. by destruct (Hr e). Qed.
Lemma closes_mapped {E A} (f : E -> proxy_error) (r : result E A) : (forall x e, f x <> Audit e) -> closes (lift (map_err f r)).
Proof. intros Hf. apply closes_lift. intros e. destruct r as [a|x]; cbn; [done|]. intros He. apply (Hf x e). congruence. Qed.
Lemma closes_ret {A} (a : A) : closes (mret a).
Proof. done. Qed.
Lemma closes_fail {A} e : (forall x, e <> Audit x) -> closes (fail e : flow A).
Proof. intros He. apply (closes_lift (Err e)). intros x Hx. apply (He x). congruence. Qed.
Lemma closes_bind {A B} (m : flow A) (k : A -> flow B) : closes m -> (forall a, closes (k a)) -> closes (m ≫= k).
Proof.
  intros Hm Hk w e. unfold mbind, flow_bind. specialize (Hm w e). destruct (m w) as [[a|x] w1]; cbn [fst] in *; [apply Hk|auto].
  intros Hx. apply Hm. congruence.
Qed.
Lemma closes_follows {A} (m : flow A) script o : follows m script o -> (forall e, o <> Err (Audit e)) -> closes m.
Proof.
  intros Hm Ho w e. specialize (Hm w). destruct (m w) as [r w']. cbn [fst]. intros ->.
  destruct Hm as (l & _ & [[He _]|[Hfc _]]); [by destruct (Ho e)|done].
Qed.
Lemma closes_attempt {A} (m : flow A) : closes (attempt m).
Proof. intros w e. unfold attempt. by destruct (m w). Qed.
Lemma closes_context s t : closes (audit_context_ s t).
Proof. done. Qed.
Lemma closes_snapshot : closes decision_snapshot.
Proof. done. Qed.
Lemma closes_inspector s t p maximum : closes (inspector_new s t p maximum).
Proof. done. Qed.
Lemma closes_mode : closes inspection_mode_.
Proof. done. Qed.
Lemma closes_publish e : closes (publish e).
Proof. by eapply closes_follows; [apply follows_publish|]. Qed.
Lemma closes_observe e : closes (try_publish e).
Proof. by eapply closes_follows; [apply follows_try_publish|]. Qed.
Lemma closes_permits i d b : closes (inspector_permits i d b).
Proof. by eapply closes_follows; [apply permits_follow|]. Qed.
#[local] Hint Resolve closes_ret closes_context closes_snapshot closes_inspector closes_mode closes_publish closes_observe
  closes_permits closes_attempt : closes.
Ltac closing_step :=
  match goal with
  | |- closes (_ ≫= _) => apply closes_bind; [|intros ?]
  | |- closes (attempt_then _ _) => apply closes_bind; [|intros [?|?]]
  | |- closes (proxy _) => apply closes_bind; [|intros ?]
  | |- closes (lift (map_err _ _)) => by apply closes_mapped
  | |- closes (fail _) => by apply closes_fail
  | |- closes (match ?x with _ => _ end) => destruct x
  | |- closes (if ?x then _ else _) => destruct x
  | |- closes (let '_ := ?x in _) => destruct x
  | |- closes _ => solve [eauto with closes]
  end.
Ltac closing := unfold record_action, publish_decision, publish_replay_facts, publish_event, publish_hook_outcome,
  status_code, category, or_category, refuse_unless; repeat (cbv zeta beta; closing_step).

Lemma closes_requested n snapshot s t selected : closes (authorize_requested n snapshot s t selected).
Proof. revert selected; induction n as [|n IH]; intros selected; cbn [authorize_requested]; closing; apply IH. Qed.
Lemma closes_guard snapshot s t resolved denial : closes (guard_address snapshot s t resolved denial).
Proof. unfold guard_address. closing. Qed.
#[local] Hint Resolve closes_guard closes_requested : closes.
Lemma closes_addresses snapshot s t selected addresses denial :
  closes (authorize_addresses snapshot s t selected addresses denial).
Proof. revert denial; induction addresses as [|a addresses IH]; intros denial; cbn [authorize_addresses]; closing; apply IH. Qed.
#[local] Hint Resolve closes_addresses : closes.
Lemma closes_resolve selected : closes (resolve selected).
Proof.
  unfold resolve. apply closes_bind; [|intros l; cbv zeta; destruct (btree_collect l); closing].
  destruct (requested_host selected); [closing|]. intros w e. by destruct (lookup_host _ _ _).
Qed.
#[local] Hint Resolve closes_resolve : closes.
Lemma closes_authorize requested s t : closes (authorize_and_resolve requested s t).
Proof. unfold authorize_and_resolve, authorize_requested_target, authorize_resolved_targets. closing. Qed.
Lemma closes_connect addresses : closes (connect_any addresses).
Proof.
  unfold connect_any. assert (Hn : forall x, default (NoResolvedAddresses (bs "<empty address set>")) None <> Audit x) by done.
  revert Hn. generalize (@None proxy_error).
  induction addresses as [|a addresses IH]; intros last Hn; cbn [connect_loop]; [by apply closes_fail|].
  intros w e. destruct (connect _ a); [done|by apply IH..|done].
Qed.
Lemma closes_at {A} (m : flow A) w e : closes m -> (m w).1 = Err (Audit e) -> audit_policy = FailClosed.
Proof. intros Hm. apply Hm. Qed.
Lemma closes_transform i d b maximum allowed : closes (transform_http_body i d b maximum allowed).
Proof.
  intros w e. unfold transform_http_body. case_decide; [done|]. destruct d; try done; apply closes_at; closing.
Qed.
#[local] Hint Resolve closes_authorize closes_connect closes_transform : closes.
Lemma closes_plan m plan : closes (apply_plan m plan).
Proof. unfold apply_plan. destruct (apply_head_mutation m plan) as [[]]; closing. Qed.
#[local] Hint Resolve closes_plan : closes.
Lemma closes_request_head s t method target m : closes (apply_request_head_hooks s t method target m).
Proof. intros w e. unfold apply_request_head_hooks. case_decide; [done|]. apply closes_at; closing. Qed.
Lemma closes_response_head s t status m : closes (apply_response_head_hooks s t status m).
Proof. intros w e. unfold apply_response_head_hooks. case_decide; [done|]. apply closes_at; closing. Qed.
Lemma closes_judge_repeat s t snapshot requested method path m addresses denial :
  closes (judge_repeat s t snapshot requested method path m addresses denial).
Proof. revert denial; induction addresses as [|a addresses IH]; intros denial; cbn [judge_repeat]; closing; apply IH. Qed.
#[local] Hint Resolve closes_request_head closes_response_head closes_judge_repeat : closes.
Lemma closes_request_policy s t requested addresses method path m :
  closes (evaluate_request_policy s t requested addresses method path m).
Proof. unfold evaluate_request_policy. closing. Qed.
Lemma closes_response_policy s t requested selected r : closes (evaluate_response_policy s t requested selected r).
Proof. unfold evaluate_response_policy. closing. Qed.
Lemma closes_host m authority : closes (repeat_host m authority).
Proof. unfold repeat_host. closing. Qed.
Lemma closes_length m n : closes (repeat_content_length m n).
Proof. unfold repeat_content_length. closing. Qed.
#[local] Hint Resolve closes_request_policy closes_response_policy closes_host closes_length : closes.
Lemma closes_prepare_body s t limits b m target : closes (prepare_repeat_body s t limits b m target).
Proof. unfold prepare_repeat_body. closing. Qed.
Lemma closes_preflight_body s t limits body target : closes (preflight_response_body s t limits body target).
Proof. unfold preflight_response_body. closing. Qed.
Lemma closes_stream_loop limits allowed i retained observed replaced body :
  closes (stream_loop limits allowed i retained observed replaced body).
Proof.
  revert i retained observed replaced; induction body as [|[[b|trailers]| |] body IH]; intros; cbn [stream_loop]; closing; apply IH.
Qed.
#[local] Hint Resolve closes_stream_loop : closes.
Lemma closes_streaming_body s t limits body m target : closes (streaming_response_body s t limits body m target).
Proof. intros w e. unfold streaming_response_body. apply closes_at; closing. Qed.
#[local] Hint Resolve closes_prepare_body closes_preflight_body closes_streaming_body : closes.
Lemma closes_process_response s t limits r requested selected method :
  closes (process_response s t limits r requested selected method).
Proof. unfold process_response, repeat_response_head_hooks. closing. Qed.
#[local] Hint Resolve closes_process_response : closes.
Lemma closes_handshake : closes handshake_repeat.
Proof. intros w e. unfold handshake_repeat. by destruct (handshake _). Qed.
Lemma closes_exchange request : closes (exchange_repeat request).
Proof. intros w e. unfold exchange_repeat. destruct (exchange_shutdown _); [done|]. by destruct (exchange _). Qed.
Lemma closes_connect_scheme scheme host : closes (connect_scheme scheme host).
Proof.
  unfold connect_scheme. destruct scheme; [done|]. destruct interceptor; [|done]. apply closes_bind; [|intros; closing].
  intros w e. unfold connect_upstream. destruct (upstream_protocols _ _ _); [|done]. by destruct (connect_upstream_tls _ _).
Qed.
#[local] Hint Resolve closes_handshake closes_exchange closes_connect_scheme : closes.
Lemma closes_perform s t limits command : closes (perform s t limits command).
Proof. unfold perform, send_on, repeat_request_head_hooks. closing. Qed.
End Closes.

(** * The audit trail of an attempt *)

Section RepeatTrail.
Context `{HttpEnvironment, Sha256, Hex, !HeaderMapLaws}.
(** A response that is kept has a status that can be recorded. *)
Definition recordable (r : http_response_snapshot) : Prop :=
  exists status, HttpStatusCode.new (snapshot_status r) = Ok status.
Let Any : step -> Prop := fun _ => True.
Lemma response_policy_status s t requested selected r :
  yields Any (fun _ => exists status, HttpStatusCode.new (resp_status r) = Ok status)
    (evaluate_response_policy s t requested selected r).
Proof.
  unfold evaluate_response_policy. apply yields_then; [apply only_snapshot|intros snapshot].
  apply (yields_bind Any (fun status => HttpStatusCode.new (resp_status r) = Ok status)).
  { apply yields_lift. intros status. by destruct (HttpStatusCode.new _); intros [= ->]. }
  intros status Hs. eapply yields_weaken; [intros x _; by exists status|]. apply yields_only.
  apply only_bind; [apply only_context|intros c]. apply only_bind; [by apply only_publish|intros _].
  destruct (Acl.evaluate_with_definition _ _) as [d def].
  apply only_bind; [apply only_bind; [by apply only_publish|intros; by apply only_try_publish]|intros _].
  destruct (permits _ _); [apply only_ret|]. apply only_bind; [by apply only_any_event|intros; apply only_ret].
Qed.
Lemma process_response_recordable s t limits r requested selected method :
  yields Any (goes_on recordable) (process_response s t limits r requested selected method).
Proof.
  unfold process_response. destruct (validate _ _); [|by apply yields_ret].
  eapply yields_bind; [apply response_policy_status|]. intros [_|c] Hs; [|by apply yields_ret].
  apply attempt_first; [by apply only_proxy, only_response_head_hooks|intros m].
  apply attempt_first; [apply only_or_category|intros m'].
  destruct (response_has_no_content _ _); [by apply yields_ret|]. apply yields_then; [apply only_mode|intros mode].
  apply attempt_first; [destruct mode; [by apply only_preflight_body|by apply only_streaming_body]|intros b].
  apply attempt_first; [destruct (retained_replaced b); [apply only_repeat_length|apply only_ret]|intros m2].
  by apply yields_ret.
Qed.
Lemma perform_recordable s t limits command : yields Any (goes_on recordable) (perform s t limits command).
Proof.
  unfold perform. cbv zeta. do 2 (apply attempt_first; [first [apply only_refuse_unless|apply only_or_category]|intros _]).
  apply attempt_first; [apply only_or_category|intros [target scheme]].
  apply attempt_first; [apply only_refuse_unless|intros _]. destruct (origin_uri target); [|apply yields_category].
  apply attempt_first; [apply only_or_category|intros m]. apply attempt_first; [apply only_repeat_host|intros m1].
  apply attempt_first; [by apply only_proxy, only_authorize_and_resolve|intros addresses].
  apply attempt_first; [by apply only_request_policy|intros _].
  apply attempt_first; [by apply only_proxy, only_connect_any|intros selected].
  apply attempt_first; [by apply only_proxy, only_request_head_hooks|intros m2].
  apply attempt_first; [apply only_repeat_host|intros m3].
  apply attempt_first; [by apply only_prepare_body|intros [b m4]].
  apply attempt_first; [apply only_connect_scheme|intros _]. unfold send_on.
  apply attempt_first; [apply only_pure; intros w; unfold handshake_repeat; by destruct (handshake _)|intros _].
  apply attempt_first; [|intros response; apply process_response_recordable].
  match goal with |- only _ (exchange_repeat ?r) => apply (only_log _ _ (request_sent r)); [done|] end.
  intros w. unfold exchange_repeat. destruct (exchange_shutdown _); [done|]. by destruct (exchange _).
Qed.
(** The outcome of an attempt and the events that close it. *)
Definition outcome_of (r : result proxy_error (result RepeatFailureCategory.t http_response_snapshot)) : repeat_outcome :=
  match r with
  | Ok (Ok response) => RepeatResponse response
  | Ok (Err c) => RepeatFailed c
  | Err e => RepeatFailed (failure_category e)
  end.
Definition response_events (o : repeat_outcome) : list audit_event :=
  match o with
  | RepeatResponse r =>
      match HttpStatusCode.new (snapshot_status r) with
      | Ok status => [HttpResponseObserved status (audit_headers (snapshot_headers r))]
      | Err _ => []
      end
  | RepeatFailed _ => []
  end.
Definition closing_event (command : repeat_request) (o : repeat_outcome) : audit_event :=
  FlowClosed (lenN (snap_body (repeat_snapshot command))) (response_bytes o) (close_outcome o).
Definition started_events (command : repeat_request) : list audit_event :=
  let r := repeat_snapshot command in
  [HttpRepeatStarted (source_session (repeat_source command)) (source_transaction (repeat_source command));
   HttpRequestObserved (snap_method r) (uri_text (snap_uri r)) (audit_headers (snap_headers r))].
(** The parts of [execute] before and after the attempt. *)
Definition open_attempt s t (command : repeat_request) : flow unit :=
  _ ← publish_flow_opened s (show_ip (source_address (repeat_source command))) (uri_text (snap_uri (repeat_snapshot command)));
  _ ← publish_event s (Some t)
        (HttpRepeatStarted (source_session (repeat_source command)) (source_transaction (repeat_source command)));
  publish_request s t command.
Definition close_attempt s t (command : repeat_request) r : flow repeat_result :=
  outcome ← conclude_attempt s t r;
  _ ← publish_event s (Some t) (closing_event command outcome);
  _ ← publish_flow_closed s (lenN (snap_body (repeat_snapshot command))) (response_bytes outcome);
  mret (RepeatResult (source_transaction (repeat_source command)) s t outcome).
(** Past a step that records nothing. *)
Ltac observing := eapply (follows_bind _ _ []); [first [apply follows_try_publish|apply follows_lift]|].
Lemma open_follows s t command : follows (open_attempt s t command) (started_events command) (Ok tt).
Proof.
  unfold open_attempt, publish_flow_opened, publish_request, publish_http_event, publish_wire_capture_unavailable, started_events.
  cbv zeta. observing. apply (follows_bind _ _ [_] [_] tt); [apply follows_publish_event|].
  observing. observing. apply follows_publish_event.
Qed.
Lemma conclude_follows s t r : (forall e, r <> Err (Audit e)) -> (forall response, r = Ok (Ok response) -> recordable response) ->
  follows (conclude_attempt s t r) (response_events (outcome_of r)) (Ok (outcome_of r)).
Proof.
  intros Ha Hr. unfold conclude_attempt. destruct r as [[response|c]|e]; [|apply follows_ret|].
  - destruct (Hr _ eq_refl) as [status Hs]. cbn [outcome_of response_events]. rewrite Hs.
    unfold publish_response, status_code. rewrite Hs.
    apply (follows_bind _ _ [_] [] tt); [|apply follows_ret]. unfold publish_http_response_event.
    observing. observing. apply follows_publish_event.
  - destruct e; try apply follows_ret. by destruct (Ha source).
Qed.
Lemma close_attempt_follows s t command r :
  (forall e, r <> Err (Audit e)) -> (forall response, r = Ok (Ok response) -> recordable response) ->
  follows (close_attempt s t command r) (response_events (outcome_of r) ++ [closing_event command (outcome_of r)])
    (Ok (RepeatResult (source_transaction (repeat_source command)) s t (outcome_of r))).
Proof.
  intros Ha Hr. eapply follows_bind; [by apply conclude_follows|]. unfold publish_flow_closed.
  apply (follows_bind _ _ [_] [] tt); [apply follows_publish_event|]. observing. apply follows_ret.
Qed.
Lemma execute_parts s t limits command w :
  execute s t limits command w =
  (_ ← open_attempt s t command; r ← attempt (perform s t limits command); close_attempt s t command r) w.
Proof.
  unfold execute, open_attempt, close_attempt, mbind, flow_bind.
  destruct (publish_flow_opened _ _ _ w) as [[[]|e] w1]; [|done]. by destruct (publish_event _ _ _ w1) as [[[]|e] w2].
Qed.
(** Every repeat is on the record, from its start to its close: an attempt first
    records which flow and transaction it repeats and the request as it was retained,
    and nothing else of the kind until, when it has a response, exactly that response,
    and last the close of its flow, with the bytes of the request, the bytes observed of
    the response, and an outcome that tells its category.  It returns that same result, under the
    identifiers it was given; the only thing that can keep it from one is an audit
    channel that fails closed: any other error becomes a category. *)
Theorem repeats_are_recorded s t limits (command : repeat_request) (w : world) :
  let '(x, w') := execute s t limits command w in
  exists l, history w' = history w ++ l /\
    match x with
    | Ok result =>
        result_source result = source_transaction (repeat_source command) /\ result_session result = s /\
        result_transaction result = t /\
        (forall response, result_outcome result = RepeatResponse response -> recordable response) /\
        exists middle, Forall (fun e => lifecycle e = false) middle /\
          audited l = started_events command ++ middle ++ response_events (result_outcome result)
                        ++ [closing_event command (result_outcome result)]
    | Err e => audit_policy = FailClosed /\ exists error, e = Audit error
    end.
Proof.
  rewrite execute_parts. unfold mbind, flow_bind.
  destruct (follows_run _ _ _ w (open_follows s t command)) as (l1 & Hl1 & Hopen).
  destruct (open_attempt s t command w) as [r1 w1]. cbn [fst snd] in *.
  destruct Hopen as [[-> Ha1]|(Hfc & e & ->)]; [|exists l1; split; [done|split; [done|by exists e]]].
  unfold attempt. pose proof (closes_perform s t limits command w1) as Hclose.
  destruct (perform_recordable s t limits command w1) as [_ Hrec].
  destruct (only_perform (audits (fun e => lifecycle e = false)) ltac:(done) ltac:(done) ltac:(done) ltac:(done)
    s t limits command ltac:(done) w1) as (l2 & Hl2 & Hq).
  destruct (perform s t limits command w1) as [r w2]. cbn [fst snd] in *.
  assert ((exists e, r = Err (Audit e)) \/ ~ (exists e, r = Err (Audit e))) as [[e ->]|Hno].
  { destruct r as [r|[]]; try (by right; intros [? [=]]). left. by eexists. }
  { exists (l1 ++ l2). rewrite Hl2, Hl1, app_assoc. split; [done|]. split; [by eapply Hclose|by exists e]. }
  destruct (follows_run _ _ _ w2 (close_attempt_follows s t command r ltac:(intros e ->; apply Hno; by exists e)
    ltac:(intros response ->; exact (Hrec _ eq_refl)))) as (l3 & Hl3 & Hend).
  destruct (close_attempt s t command r w2) as [x w3]. cbn [fst snd] in *. exists (l1 ++ l2 ++ l3).
  rewrite Hl3, Hl2, Hl1, !app_assoc. split; [done|].
  destruct Hend as [[-> Ha3]|(Hfc & e & ->)]; [|split; [done|by exists e]]. cbn [result_source result_session result_transaction result_outcome].
  do 3 (split; [done|]). split.
  - intros response. destruct r as [[response'|c]|e]; intros [= <-]. exact (Hrec _ eq_refl).
  - exists (audited l2). split; [by apply audits_audited|]. by rewrite !audited_app, Ha1, Ha3, !app_assoc.
Qed.
End RepeatTrail.

(** * What is kept of a response *)

Lemma takeN_min m (b : bytes) : takeN (N.min m (lenN b)) b = takeN m b.
Proof.
  unfold takeN, lenN. destruct (decide (N.to_nat m <= length b)); [by rewrite N.min_l by lia|].
  rewrite N.min_r by lia. by rewrite !take_ge by lia.
Qed.

Section Kept.
Context `{HttpEnvironment, Sha256, Hex}.
Context (snapshot : policy_snapshot) (limits : proxy_limits).
Context (Henforce : enforcement snapshot = Enforce) (Hwf : program_wf (snapshot_inspection snapshot)).
Context (Hmax : (body_prefix_bytes limits < u64_max)%N).
Context (Hhooks : forall h, HookRunner.mode (hook_runner h) = Disabled).
Notation cleaned text :=
  (FlowInspect.clean (snapshot_inspection snapshot) HttpResponseBody (takeN (body_prefix_bytes limits) text)).
(** What is kept of a body without hooks. *)
Definition kept (whole : bytes) : retained_body :=
  RetainedBody (takeN (retention limits) whole) (N.min (lenN whole) u64_max)
    (lenN (takeN (retention limits) whole) <? N.min (lenN whole) u64_max)%N false.
Definition kept_or_failed (body : incoming) (whole : bytes) (x : result proxy_error (result RepeatFailureCategory.t retained_body)) : Prop :=
  match x with
  | Ok (Ok b) => complete body = true /\ cleaned whole /\ b = kept whole
  | Ok (Err c) =>
      c = RepeatFailureCategory.Inspection /\ ~ cleaned whole \/ c = RepeatFailureCategory.Upstream /\ complete body = false
  | Err e => complete body = false \/ audit_policy = FailClosed
  end.
Lemma stream_loop_kept allowed i body (streams : direction -> bytes) w :
  tracks snapshot Http (body_prefix_bytes limits) streams i -> cleaned (streams HttpResponseBody) ->
  let acc := streams HttpResponseBody in
  kept_or_failed body (acc ++ concat (body_data body))
    (stream_loop limits allowed i (takeN (retention limits) acc) (N.min (lenN acc) u64_max) false body w).1.
Proof.
  revert i streams w; induction body as [|[[data|trailers]| |] body IH]; intros i streams w Htr Hclean; cbn [stream_loop].
  - cbn. rewrite app_nil_r. done.
  - unfold mbind, flow_bind. pose proof (permits_follow i HttpResponseBody data w) as Hf.
    pose proof (permits_run_clean snapshot Http _ streams i HttpResponseBody data Henforce Hwf (N.lt_le_incl _ _ Hmax) Htr Hclean) as Hrun.
    destruct (inspector_permits i HttpResponseBody data w) as [r w'].
    destruct (permits_run i HttpResponseBody data) as [events [ok i']]. destruct Hrun as [Htr' Hok].
    destruct Hf as (le & _ & [[-> _]|(Hfc & [e ->] & _)]); [|by right]. cbn [snd]. destruct ok; cbn [negb]; cycle 1.
    { left. split; [done|]. intros Hc. cbn [body_data concat] in Hc. rewrite app_assoc in Hc.
      apply clean_prefix in Hc; [|done]. by apply Hok in Hc. }
    unfold transform_http_body. rewrite decide_True by apply Hhooks.
    specialize (IH i' (extend streams HttpResponseBody data) w' Htr').
    assert (Hext : extend streams HttpResponseBody data HttpResponseBody = streams HttpResponseBody ++ data).
    { unfold extend. by rewrite decide_True. }
    rewrite Hext in IH. specialize (IH (proj1 Hok eq_refl)). cbv zeta in IH. cbn [body_data concat]. rewrite app_assoc.
    assert (Hr : takeN (retention limits) (streams HttpResponseBody) ++
        takeN (N.min (retention limits - lenN (takeN (retention limits) (streams HttpResponseBody))) (lenN data)) data
      = takeN (retention limits) (streams HttpResponseBody ++ data)).
    { by rewrite lenN_takeN, <- takeN_app_within. }
    assert (Ho : sat_add (N.min (lenN (streams HttpResponseBody)) u64_max) (lenN data)
      = N.min (lenN (streams HttpResponseBody ++ data)) u64_max).
    { rewrite lenN_app. unfold sat_add. lia. }
    rewrite Hr, Ho. exact IH.
  - exact (IH i streams w Htr Hclean).
  - left. done.
  - right. done.
Qed.
Lemma preflight_kept s t body target w :
  current_snapshot (history w) = snapshot ->
  match (preflight_response_body s t limits body target w).1 with
  | Ok (Err c) =>
      c = RepeatFailureCategory.Inspection /\
        (~ cleaned (concat (body_data body)) \/ (body_prefix_bytes limits < lenN (concat (body_data body)))%N) \/
      c = RepeatFailureCategory.Upstream /\ complete body = false
  | x => kept_or_failed body (concat (body_data body)) x /\
         forall b, x = Ok (Ok b) -> (lenN (concat (body_data body)) <= body_prefix_bytes limits)%N
  end.
Proof.
  intros Hs. unfold preflight_response_body. pose proof (collection_spec body (body_prefix_bytes limits) Hmax) as Hcol.
  destruct (collect_bounded body _) as [b|[| |observed m]]; [|by split; [left|]|by right|by left; split; [|right]].
  destruct Hcol as (Hc & -> & Hlen). unfold inspector_new, mbind, flow_bind, decision_snapshot, mret, flow_ret. rewrite Hs.
  set (whole := concat (body_data body)) in *.
  pose proof (fresh_verdict (with_target (inspector_of snapshot s (Some t) Http (body_prefix_bytes limits)) target)
    snapshot s (Some t) Http (body_prefix_bytes limits) HttpResponseBody whole w Henforce Hwf (N.lt_le_incl _ _ Hmax) eq_refl) as Hv.
  destruct (inspector_permits _ _ whole w) as [[[ok i']|e] w1]; cbn [fst] in Hv; [|by split; [right; apply Hv|]].
  destruct ok; cbn [refuse_unless attempt_then]; cycle 1.
  { left. split; [done|]. left. intros Hcl. by apply Hv in Hcl. }
  unfold attempt_then, mbind, flow_bind, mret, flow_ret, transform_http_body. rewrite decide_True by apply Hhooks.
  assert (Hkeep : retain_prefix whole (retention limits) (lenN whole) =
    (takeN (retention limits) whole, (lenN (takeN (retention limits) whole) <? lenN whole)%N)).
  { unfold retain_prefix. rewrite takeN_min. done. }
  rewrite Hkeep. cbn [fst]. split; [|done]. split; [done|]. split; [by apply Hv|]. unfold kept.
  by rewrite (N.min_l (lenN whole)) by lia.
Qed.
End Kept.

Section KeptTheorem.
Context `{HttpEnvironment, Sha256, Hex}.
Lemma truncated_iff maximum (whole : bytes) : (lenN whole <= u64_max)%N ->
  (lenN (takeN maximum whole) <? N.min (lenN whole) u64_max)%N = true <-> takeN maximum whole <> whole.
Proof.
  intros Hw. rewrite N.ltb_lt, lenN_takeN. split.
  - intros Hlt Heq. apply (f_equal lenN) in Heq. rewrite lenN_takeN in Heq. lia.
  - intros Hne. destruct (N.le_gt_cases (lenN whole) maximum) as [Hle|Hgt]; [|lia].
    exfalso. apply Hne. unfold takeN, lenN in *. by rewrite take_ge by lia.
Qed.
(** The operator is shown what was inspected, and told when it is not all: under
    enforcement and without hooks, in either inspection mode, an attempt keeps a
    response body only when it arrived completely, its inspected prefix contains no
    refused pattern and, in preflight mode, all of it fits the limit; what is kept is
    exactly its first bytes, up to the operator's bound, the observed count is its
    length, and it is marked truncated exactly when something is missing.  It fails as
    an inspection failure only for a refused pattern or a body over the preflight limit,
    and as an upstream failure only for a body that did not arrive. *)
Theorem repeats_keep_inspected_prefix (g : PolicyGeneration.t) (ps : list InspectionPattern.t) s t (limits : proxy_limits)
    (body : incoming) (m : header_map) (target : resolved_facts) (w : world) :
  let snapshot := current_snapshot (history w) in
  let whole := concat (body_data body) in
  let permitted := refuses_nothing ps HttpResponseBody (takeN (body_prefix_bytes limits) whole) in
  let preflight := snapshot_inspection_mode snapshot = Preflight in
  InspectionProgram.new g ps = Ok (snapshot_inspection snapshot) ->
  Forall (fun q => InspectionPattern.bytes_ q <> []) ps ->
  enforcement snapshot = Enforce -> (body_prefix_bytes limits < u64_max)%N ->
  (forall h, HookRunner.mode (hook_runner h) = Disabled) ->
  match ((if decide preflight then preflight_response_body s t limits body target
          else streaming_response_body s t limits body m target) w).1 with
  | Ok (Ok b) =>
      complete body = true /\ permitted /\ (preflight -> (lenN whole <= body_prefix_bytes limits)%N) /\
      retained_bytes b = takeN (retention limits) whole /\ retained_observed b = N.min (lenN whole) u64_max /\
      retained_replaced b = false /\
      ((lenN whole <= u64_max)%N -> retained_truncated b = true <-> retained_bytes b <> whole)
  | Ok (Err c) =>
      c = RepeatFailureCategory.Inspection /\ (~ permitted \/ preflight /\ (body_prefix_bytes limits < lenN whole)%N) \/
      c = RepeatFailureCategory.Upstream /\ complete body = false
  | Err e => complete body = false \/ audit_policy = FailClosed
  end.
Proof.
  intros snapshot whole permitted preflight Hnew Hne He Hmax Hhooks.
  destruct (inspection_program_new_wf g ps _ Hnew Hne) as [Hwf Hps].
  assert (Hclean : FlowInspect.clean (snapshot_inspection snapshot) HttpResponseBody (takeN (body_prefix_bytes limits) whole)
    <-> refuses_nothing ps HttpResponseBody (takeN (body_prefix_bytes limits) whole)).
  { unfold FlowInspect.clean, refuses_nothing. by rewrite Hps. }
  assert (Hkept : forall b, b = kept limits whole ->
    retained_bytes b = takeN (retention limits) whole /\ retained_observed b = N.min (lenN whole) u64_max /\
    retained_replaced b = false /\ ((lenN whole <= u64_max)%N -> retained_truncated b = true <-> retained_bytes b <> whole)).
  { intros b ->. do 3 (split; [done|]). apply truncated_iff. }
  destruct (decide preflight) as [Hm|Hm].
  - pose proof (preflight_kept snapshot limits He Hwf Hmax Hhooks s t body target w eq_refl) as Hrun. fold whole in Hrun.
    destruct (preflight_response_body _ _ _ _ _ w).1 as [[b|c]|e]; [| |by apply Hrun].
    + destruct Hrun as [(Hc & Hcl & Hb) Hfit]. split; [done|]. split; [by apply Hclean|]. split; [by intros _; eapply Hfit|]. by apply Hkept.
    + unfold permitted. rewrite <- Hclean. destruct Hrun as [[-> [Hcl|Hlen]]|[-> Hc]]; [left; auto|left; auto|by right].
  - assert (Hs : snapshot_inspection_mode snapshot = Streaming) by by destruct (snapshot_inspection_mode snapshot).
    unfold streaming_response_body, HookRunner.may_mutate_response_body, inspector_new, mbind, flow_bind, decision_snapshot, mret, flow_ret.
    rewrite Hhooks. cbn [negb bool_decide andb]. fold snapshot.
    pose proof (stream_loop_kept snapshot limits He Hwf Hmax Hhooks (negb (contains_key m CONTENT_ENCODING))
      (with_target (inspector_of snapshot s (Some t) Http (body_prefix_bytes limits)) target) body (fun _ => []) w) as Hrun.
    cbv zeta in Hrun. cbn [app] in Hrun. fold whole in Hrun.
    assert (Hnil : forall k, takeN k ([] : bytes) = []) by (intros k; unfold takeN; apply take_nil).
    rewrite !Hnil in Hrun. change (N.min (lenN []) u64_max) with 0%N in Hrun.
    match type of Hrun with ?A -> ?B -> _ => assert (HA : A); [|assert (HB : B); [by apply clean_nil|specialize (Hrun HA HB)]] end.
    { eapply tracks_view; [|by apply (tracks_new snapshot s (Some t))]. done. }
    rewrite bool_decide_eq_true_2 by done. cbn [negb andb].
    destruct (stream_loop _ _ _ _ _ _ _ w).1 as [[b|c]|e]; [| |exact Hrun].
    + destruct Hrun as (Hc & Hcl & Hb). split; [done|]. split; [by apply Hclean|]. split; [done|]. by apply Hkept.
    + unfold permitted. rewrite <- Hclean. destruct Hrun as [[-> Hcl]|[-> Hc]]; [left; auto|by right].
Qed.
End KeptTheorem.
