(* ===== verification/HttpWitnesses.v ===== *)
(** A concrete proxy for the properties of HTTP transactions: header maps as lists, a
    certificate authority that names the host, an upstream that answers every request. *)
From stdpp Require Import gmap strings.
From stdpp Require Import prelude.
From S2P Require Import Prelude Bytes Net Endpoint Domain PolicyModel Acl Guard Inspection Framing AuditModel AuditSink Hooks Runtime Destination FlowInspect Relay Settings TcpSession HttpHeaders Tls HttpMessages HttpService HttpSafety HttpBodies BodyChannel HttpServer ServerSafety HttpRepeat RepeatSafety.

Module Example_proxy.
#[local] Existing Instance host_nets.
#[local] Existing Instance Example_http.list_headers.
#[local] Existing Instance Example_http.list_header_laws.
#[local] Existing Instance Example_http.list_iter.
#[local] Existing Instance Example_http.list_iter_laws.
#[local] Existing Instance identity_digest.
#[local] Instance plain_hex : Hex := {| hex_encode := fun b => b; hex_decode := Some |}.
Definition entries_of (l : list (bytes * bytes)) : header_map := l.
Definition target : authority := Authority (bs "a.example") (bs "a.example") None.
#[local] Instance library : HttpLibrary := {|
  header_name := fun t => if forallb token_byte t then Some (to_ascii_lowercase t) else None;
  header_value := fun _ => true; to_str := Some; base64_decode := Some;
  parse_uri := fun p => Some (Uri p None None (Some p));
  build_uri := fun scheme a p => Some (Uri (scheme ++ bs "://" ++ a ++ p) (Some scheme) (Some (Authority a a None)) (Some p)) |}.
#[local] Instance named_certificates : CertificateAuthority := {|
  certificate := bytes; issue := fun _ host => Ok host; accepts_chain := fun _ => true |}.
Definition body_patterns : list InspectionPattern.t :=
  [InspectionPattern.Make (DetectorId.Make (bs "d")) (RuleId.Make (bs "d")) (bs "abc") High Confirmed
     [HttpRequestBody; HttpResponseBody] RuleDeny []].
Definition body_program : InspectionProgram.t := InspectionProgram.Make PolicyGeneration.INITIAL body_patterns 3.
Definition snapshot (mode : inspection_mode) : policy_snapshot :=
  PolicySnapshot (AclPolicy PolicyGeneration.INITIAL [] RuleAllow) (compiled default_settings) Enforce mode body_program.
Definition environment (mode : inspection_mode) : Environment := {|
  audit_policy := FailOpen; audit_answer := fun _ _ => Ok tt; events_enabled := false;
  current_snapshot := fun _ => snapshot mode;
  hook_runner := fun _ => HookRunner.Make Disabled (HookRunner.Registry [] [] [] [] [] []) HookFailClosed;
  capture_prefix_bytes := None; ui_content_bytes := None; now := fun l => N.of_nat (length l);
  lookup_host := fun _ _ port => LookupAddresses [SocketAddr Example_flow.public port 0];
  connect := fun _ _ => ConnectOk; local_addr := fun _ => None; read_answer := fun _ _ => ReadUpTo 1023;
  write_answer := fun _ _ _ => WriteDone; shutdown_answer := fun _ _ => true |}.
#[local] Instance flow_environment : Environment := environment Preflight.
Definition reply : http_response incoming :=
  MakeResponse 200 HTTP_11 (entries_of [(bs "server", bs "x")]) [Frame (DataFrame (bs "fine"))].
Definition http_environment (mode : inspection_mode) : @HttpEnvironment _ _ (environment mode) _ _ _ :=
  @Build_HttpEnvironment _ _ (environment mode) _ _ _ None (fun _ _ => NoAnswer) None (fun _ => (true, true)) (fun _ => [])
    (fun _ => 0%N) (fun _ => LeafCache.new 2) (fun _ => true) (fun _ => true) (fun _ => HandshakeDone)
    (fun _ => HandshakeDone) (fun _ => ExchangeResponse reply) (fun _ => false) (fun _ => true) (fun _ => Upgraded)
    (fun _ => DownstreamAccepted None) (fun _ _ => UpstreamTls None) (fun _ => false).
#[local] Instance service_environment : HttpEnvironment := http_environment Preflight.
Definition credentials : ProxyAuthentication.t := ProxyAuthentication.Make (bs "r") (ProxyCredentialHash (bs "u:p")).
Definition service (a : option ProxyAuthentication.t) : http_service :=
  HttpService (SocketAddr (ipv4 198 51 100 1) 5000 0) 1%N (RuleId.Make (bs "connect-port-allowlist"))
    (HttpForwardListener.Make (ListenEndpoint.Make (SocketAddr (ipv4 127 0 0 1) 8080 0)) {[ 443%N ]} a)
    (ProxyLimits 8 1024 64 5 5 5).
Definition get_request (body : incoming) : http_request incoming :=
  MakeRequest (bs "POST") (Uri (bs "http://a.example/x") (Some (bs "http")) (Some target) (Some (bs "/x"))) HTTP_11
    (entries_of [(bs "host", bs "other"); (bs "connection", bs "close"); (bs "x-a", bs "1")]) body.
Definition request : http_request incoming := get_request [Frame (DataFrame (bs "he")); Frame (DataFrame (bs "llo"))].
Definition start : world := World [] (MetricCounters 0 0 0 0 0 0 0 0 0 0) [] [].
Definition sent (w : world) : list (bytes * list (bytes * bytes) * option bytes) :=
  omap (fun s => match s with RequestSent m _ _ h b => Some (m, h, b) | _ => None end) (history w).

(** The request goes out with its Host replaced and its body whole; the reply comes back. *)
Example forwarded :
  sent (handle (service None) 7%N request start).2
  = [(bs "POST", [(bs "x-a", bs "1"); (bs "host", bs "a.example"); (bs "content-length", bs "5")], Some (bs "hello"))] /\
  match (handle (service None) 7%N request start).1 with
  | Ok (response, None) => resp_status response = 200%N /\ full_bytes (resp_body response) = Some (bs "fine")
  | _ => False
  end.
Proof. vm_compute. auto. Qed.

Lemma sent_requests_are_clean_witness :
  exists l, history (handle (service None) 7%N request start).2 = history start ++ l /\ Forall (forwards request) l.
Proof. exact (proj1 (sent_requests_are_clean (service None) 7%N request start)). Defined.
Lemma http_contacts_authorized_witness :
  exists l, history (handle (service None) 7%N request start).2 = history start ++ l /\
    (Forall client_side l \/
     (forall a, HttpForwardListener.authentication (service_listener (service None)) = Some a -> authenticate_proxy_request (req_headers request) a = true) /\
     exists tgt path m, target_of request = Ok tgt /\
       judged_as (service None) 7%N request tgt (history start) (history start ++ l) path m /\
       http_contacts (connect_gate (service None) request tgt) (requested_by (service None) tgt)
         (request_facts_at (requested_by (service None) tgt) (req_method request) path m) (history start) l).
Proof. exact (http_contacts_authorized (service None) 7%N request start). Defined.
Lemma http_transaction_trail_witness :
  exists l, history (handle (service None) 7%N request start).2 = history start ++ l /\
    transaction_trail request
      (match (handle (service None) 7%N request start).1 with Ok (response, _) => Ok response | Err e => Err e end) (audited l).
Proof.
  pose proof (http_transaction_trail (service None) 7%N request start) as Ht. revert Ht.
  destruct (handle (service None) 7%N request start) as [x w']. intros (l & Hl & Ht). exists l. split; [exact Hl|exact Ht].
Defined.
Lemma unauthenticated_requests_stop_witness :
  let '(x, w') := handle (service (Some credentials)) 7%N request start in
  exists l, emits start w' l /\ x = Ok (proxy_authentication_required credentials, None).
Proof.
  pose proof (unauthenticated_requests_stop (service (Some credentials)) 7%N request credentials eq_refl eq_refl start) as Hf.
  revert Hf. destruct (handle (service (Some credentials)) 7%N request start) as [x w'].
  intros (l & Hl & [[-> _]|(Hfc & _)]); [|discriminate Hfc]. exists l. split; [exact Hl|reflexivity].
Defined.
Lemma collection_is_exact_witness :
  collect_bounded (req_body request) 4 = Err (LimitExceeded 5 4) /\
  exists k, (forall j, j <= k -> (first_data j (req_body request) <= 4)%N) /\ (4 < first_data (S k) (req_body request))%N.
Proof.
  pose proof (collection_is_exact (req_body request) 4 eq_refl) as Hc. revert Hc.
  assert (Hr : collect_bounded (req_body request) 4 = Err (LimitExceeded 5 4)) by (vm_compute; reflexivity).
  rewrite Hr. intros [_ Hc]. split; [reflexivity|exact Hc].
Defined.
Definition resolved : resolved_facts :=
  ResolvedTargetFacts (RequestedTargetFacts (ipv4 198 51 100 1) (Name (HostName.Make (bs "a.example"))) (Port.Make 80) Http)
    Example_flow.public.
Definition prepared_request (body : incoming) : result proxy_error (result (http_response proxy_body) (http_request proxy_body)) * world :=
  prepare_request_body 1%N 7%N (service_limits (service None)) (get_request body) None resolved start.
(** A refused pattern cut across two frames is answered with the block page. *)
Lemma preflight_requests_are_inspected_witness :
  (prepared_request [Frame (DataFrame (bs "xab")); Frame (DataFrame (bs "cx"))]).1 = Ok (Err block_page) /\
  ~ refuses_nothing body_patterns HttpRequestBody (bs "xabcx").
Proof.
  split; [vm_compute; reflexivity|].
  destruct (preflight_requests_are_inspected PolicyGeneration.INITIAL body_patterns 1%N 7%N (service_limits (service None))
    (get_request [Frame (DataFrame (bs "xab")); Frame (DataFrame (bs "cx"))]) None resolved start
    (prepared_request [Frame (DataFrame (bs "xab")); Frame (DataFrame (bs "cx"))]).2 (Err block_page))
    as [(_ & _ & _ & Hr)|[Hs _]].
  - vm_compute. reflexivity.
  - repeat constructor; discriminate.
  - reflexivity.
  - reflexivity.
  - vm_compute. reflexivity.
  - reflexivity.
  - vm_compute. reflexivity.
  - exact Hr.
  - exfalso. revert Hs. apply (bool_decide_unpack _). vm_compute. exact I.
Defined.

(** The same proxy in streaming mode: of four frames, two go out before the frame that
    completes the pattern. *)
Definition streaming : @HttpEnvironment _ _ (environment Streaming) _ _ _ := http_environment Streaming.
Definition chunks : incoming :=
  [Frame (DataFrame (bs "xx")); Frame (DataFrame (bs "ab")); Frame (DataFrame (bs "cx")); Frame (DataFrame (bs "y"))].
Definition pump : @body_pump _ :=
  match (@start_streaming_inspection _ _ (environment Streaming) _ _ _ streaming 1%N 7%N (service_limits (service None))
           chunks HttpRequestBody true false resolved start).1 with
  | Ok (PumpedBody p) => p
  | _ => BodyPump [] (inspector_of (snapshot Streaming) 1%N None Http 0%N) HttpRequestBody 0 true false
  end.
Definition pumped : world := (@pump_inspected_body _ _ (environment Streaming) _ _ _ streaming _ _ pump start).2.
Example pump_stops : delivered_data (history pumped) = [bs "xx"; bs "ab"].
Proof. vm_compute. reflexivity. Qed.
Lemma pump_delivers_inspected_prefix_witness :
  exists l, history pumped = history start ++ l /\ delivered_data l `prefix_of` body_data chunks /\
    refuses_nothing body_patterns HttpRequestBody (takeN 64 (concat (delivered_data l))).
Proof.
  destruct (@pump_delivers_inspected_prefix _ _ (environment Streaming) _ _ _ streaming _ _ PolicyGeneration.INITIAL body_patterns
    1%N 7%N (service_limits (service None)) chunks HttpRequestBody true false resolved start start start pump)
    as (l & Hl & _ & Hpre & Hclean & _).
  - vm_compute. reflexivity.
  - vm_compute. reflexivity.
  - repeat constructor; discriminate.
  - reflexivity.
  - reflexivity.
  - vm_compute. discriminate.
  - reflexivity.
  - exists l. split; [exact Hl|]. split; [exact Hpre|exact Hclean].
Defined.

(** The connection takes the frames while the pump goes on; it sees the block as an
    error, and then the end. *)
Definition body_events : list BodyChannel.event :=
  [BodyChannel.Sent (Ok (DataFrame (bs "xx"))); BodyChannel.Polled; BodyChannel.Polled; BodyChannel.Sent (Ok (DataFrame (bs "ab")));
   BodyChannel.Sent (Err BodyInspectionBlocked); BodyChannel.PumpReturned; BodyChannel.Polled; BodyChannel.Polled; BodyChannel.Polled].
Lemma streamed_bodies_end_as_inspected_witness :
  exists c, BodyChannel.run (BodyChannel.channel BodyChannel.CAPACITY) body_events = Some c /\
    BodyChannel.ended c = true /\ BodyChannel.polled c = delivered (history pumped) /\
    frame_data (BodyChannel.polled c) `prefix_of` body_data chunks /\
    refuses_nothing body_patterns HttpRequestBody (takeN 64 (concat (frame_data (BodyChannel.polled c)))).
Proof.
  destruct (@streamed_bodies_end_as_inspected _ _ (environment Streaming) _ _ _ streaming _ _ PolicyGeneration.INITIAL body_patterns
    1%N 7%N (service_limits (service None)) chunks HttpRequestBody true false resolved start start start pump)
    as (l & Hl & Hch).
  - vm_compute. reflexivity.
  - vm_compute. reflexivity.
  - repeat constructor; discriminate.
  - reflexivity.
  - reflexivity.
  - vm_compute. discriminate.
  - reflexivity.
  - assert (Hd : delivered l = BodyChannel.sends body_events).
    { change (history start ++ l) with l in Hl. rewrite <- Hl. vm_compute. reflexivity. }
    destruct (BodyChannel.run (BodyChannel.channel BodyChannel.CAPACITY) body_events) as [c|] eqn:Hrun; [|vm_compute in Hrun; discriminate Hrun].
    destruct (Hch body_events c) as (_ & Hpre & _ & Hclean & _); [rewrite Hd; split; [exists []; by rewrite app_nil_r|reflexivity]|exact Hrun|].
    exists c. split; [reflexivity|]. split; [|split; [|by split]]; vm_compute in Hrun; injection Hrun as <-; vm_compute; reflexivity.
Defined.
(** Shutdown while a body is pumped: the receiver of its first half is told that the
    body ended, as if it were whole. *)
Definition stopping : @HttpEnvironment _ _ (environment Streaming) _ _ _ :=
  @Build_HttpEnvironment _ _ (environment Streaming) _ _ _ None (fun _ _ => NoAnswer) None (fun _ => (true, true)) (fun _ => [])
    (fun _ => 0%N) (fun _ => LeafCache.new 2) (fun _ => true) (fun _ => true) (fun _ => HandshakeDone)
    (fun _ => HandshakeDone) (fun _ => ExchangeResponse reply) (fun h => match delivered h with [] => false | _ => true end) (fun _ => true) (fun _ => Upgraded)
    (fun _ => DownstreamAccepted None) (fun _ _ => UpstreamTls None) (fun _ => false).
Definition halves : incoming := [Frame (DataFrame (bs "first")); Frame (DataFrame (bs "second"))].
Definition stopped : world :=
  match (@start_streaming_inspection _ _ (environment Streaming) _ _ _ stopping 1%N 7%N (service_limits (service None))
           halves HttpResponseBody true false resolved start).1 with
  | Ok (PumpedBody p) => (@pump_inspected_body _ _ (environment Streaming) _ _ _ stopping _ _ p start).2
  | _ => start
  end.
Example truncated_body_ends :
  let es := [BodyChannel.Sent (Ok (DataFrame (bs "first"))); BodyChannel.PumpReturned; BodyChannel.Polled; BodyChannel.Polled] in
  delivered (history stopped) = BodyChannel.sends es /\
  exists c, BodyChannel.run (BodyChannel.channel BodyChannel.CAPACITY) es = Some c /\
    BodyChannel.polled c = [Ok (DataFrame (bs "first"))] /\ BodyChannel.ended c = true.
Proof. vm_compute. eauto. Qed.

(** * A repeated request *)

Definition limits : proxy_limits := service_limits (service None).
Definition retained (b : bytes) : repeat_request :=
  RepeatRequest (InterceptContext 1%N 7%N (ipv4 198 51 100 1))
    (HttpRequestSnapshot (bs "POST") (Uri (bs "http://a.example/x") (Some (bs "http")) (Some target) (Some (bs "/x"))) HTTP_11
       (entries_of [(bs "host", bs "other"); (bs "connection", bs "close"); (bs "x-a", bs "1")]) b 1024 64).
Definition repeated (b : bytes) : result proxy_error repeat_result * world := execute 2%N 8%N limits (retained b) start.
(** The draft goes out again and its response is kept; a draft with the refused pattern
    is not sent. *)
Example repeated_again :
  sent (repeated (bs "hello")).2
  = [(bs "POST", [(bs "x-a", bs "1"); (bs "host", bs "a.example"); (bs "content-length", bs "5")], Some (bs "hello"))] /\
  match (repeated (bs "hello")).1 with
  | Ok (RepeatResult _ _ _ (RepeatResponse r)) => snapshot_content r = bs "fine" /\ body_truncated r = false
  | _ => False
  end /\
  sent (repeated (bs "xabcx")).2 = [] /\
  match (repeated (bs "xabcx")).1 with
  | Ok r => result_outcome r = RepeatFailed RepeatFailureCategory.Inspection
  | Err _ => False
  end.
Proof. vm_compute. auto. Qed.
Lemma repeated_requests_are_clean_witness :
  exists l, history (repeated (bs "hello")).2 = history start ++ l /\ Forall (repeats (repeat_snapshot (retained (bs "hello")))) l.
Proof. exact (repeated_requests_are_clean 2%N 8%N limits (retained (bs "hello")) start). Defined.
Lemma repeats_are_authorized_witness :
  exists l, history (repeated (bs "hello")).2 = history start ++ l /\
    repeat_contacts limits (retained (bs "hello")) (history start) l.
Proof. exact (repeats_are_authorized 2%N 8%N limits (retained (bs "hello")) start). Defined.
Lemma repeats_are_recorded_witness :
  exists result l, (repeated (bs "xabcx")).1 = Ok result /\ history (repeated (bs "xabcx")).2 = history start ++ l /\
    exists middle, audited l = started_events (retained (bs "xabcx")) ++ middle ++ response_events (result_outcome result)
                                 ++ [closing_event (retained (bs "xabcx")) (result_outcome result)].
Proof.
  pose proof (repeats_are_recorded 2%N 8%N limits (retained (bs "xabcx")) start) as Ht. revert Ht. unfold repeated.
  destruct (execute 2%N 8%N limits (retained (bs "xabcx")) start) as [[result|e] w'].
  - intros (l & Hl & _ & _ & _ & _ & middle & _ & Ha). exists result, l. split; [reflexivity|]. split; [exact Hl|].
    exists middle. exact Ha.
  - intros (l & _ & Hfc & _). discriminate Hfc.
Defined.
(** A body cut into frames, kept up to the limit of 64 bytes. *)
Definition response_frames : incoming := [Frame (DataFrame (bs "xx")); Frame (DataFrame (bs "yy"))].
Lemma repeats_keep_inspected_prefix_witness :
  exists b, (preflight_response_body 2%N 8%N limits response_frames resolved start).1 = Ok (Ok b) /\
    retained_bytes b = takeN (retention limits) (bs "xxyy") /\
    refuses_nothing body_patterns HttpResponseBody (takeN 64 (bs "xxyy")).
Proof.
  pose proof (repeats_keep_inspected_prefix PolicyGeneration.INITIAL body_patterns 2%N 8%N limits response_frames
    (entries_of []) resolved start) as Ht. cbv zeta in Ht.
  assert (H1 : InspectionProgram.new PolicyGeneration.INITIAL body_patterns = Ok body_program) by (vm_compute; reflexivity).
  assert (H2 : Forall (fun q => InspectionPattern.bytes_ q <> []) body_patterns) by (repeat constructor; discriminate).
  assert (H3 : (body_prefix_bytes limits < u64_max)%N) by (vm_compute; reflexivity).
  specialize (Ht H1 H2 eq_refl H3 (fun _ => eq_refl)). revert Ht.
  match goal with |- context [decide ?P] => rewrite (decide_True (P := P)) by reflexivity end.
  assert (Hr : (preflight_response_body 2%N 8%N limits response_frames resolved start).1
    = Ok (Ok (RetainedBody (bs "xxyy") 4 false false))) by (vm_compute; reflexivity).
  rewrite Hr. intros (_ & Hp & _ & Hb & _). eexists. split; [reflexivity|]. split; [exact Hb|exact Hp].
Defined.

(** * Connections and intercepted tunnels *)

Definition tunnelled : http_request incoming :=
  MakeRequest (bs "POST") (Uri (bs "/x") None None (Some (bs "/x"))) HTTP_11
    (entries_of [(bs "host", bs "a.example"); (bs "x-a", bs "1")]) [Frame (DataFrame (bs "hello"))].
Definition inside : tunnel_script := TunnelScript [(8%N, tunnelled)] [5%N; 6%N] [7%N] ConnectionEnded.
Definition secure : forward_target := ForwardTarget (Name (HostName.Make (bs "a.example"))) (Port.Make 443) (bs "a.example") None.
Definition address : socket_addr := SocketAddr Example_flow.public 443 0.
Definition tunnel_run : result proxy_error unit * world := run_intercepted_tunnel (service None) 7%N secure address inside start.
(** The tunnel's requests go upstream and its bytes are counted. *)
Example tunnelled_through :
  map (fun x => x.1.1) (sent tunnel_run.2) = [bs "POST"] /\
  last (audited (history tunnel_run.2)) = Some (TunnelClosed 11 7 OutCompleted) /\
  (run_intercepted_tunnel (service None) 7%N secure address (TunnelScript [] [] [] ConnectionShutdown) start).1 = Err ShutdownError.
Proof. vm_compute. auto. Qed.
Lemma intercepted_tunnels_are_confined_witness :
  tunnel_run.1 = Ok tt /\ exists l, history tunnel_run.2 = history start ++ l /\ Forall (stays_inside secure) l /\
    exists inner up down, audited l = inner ++ [TunnelClosed up down OutCompleted].
Proof.
  assert (Hok : tunnel_run.1 = Ok tt) by (vm_compute; reflexivity). revert Hok. unfold tunnel_run.
  pose proof (intercepted_tunnels_are_confined (service None) 7%N secure address inside start) as Ht. revert Ht.
  destruct (run_intercepted_tunnel (service None) 7%N secure address inside start) as [x w']. cbn [fst snd]. intros Ht Hok. revert Ht. rewrite Hok.
  intros (l & Hl & Hin & inner & up & down & o & Ha & _ & Ho). split; [reflexivity|]. exists l. split; [exact Hl|]. split; [exact Hin|].
  exists inner, up, down. rewrite <- Ho. exact Ha.
Defined.
Definition ends (before : list (result proxy_error unit)) : connection_script :=
  ConnectionScript [(7%N, request); (8%N, get_request [])] true [] inside before [Ok tt].
Definition listening : socket_addr := SocketAddr (ipv4 127 0 0 1) 8080 0.
(** Both requests of the connection go out; a task that fails is the connection's end. *)
Example connections :
  length (sent (serve_connection (service None) listening (ends []) start).2) = 2 /\
  last (audited (history (serve_connection (service None) listening (ends []) start).2)) = Some (FlowClosed 0 0 OutCompleted) /\
  (serve_connection (service None) listening (ends [Err HttpConnection]) start).1 = Err HttpConnection.
Proof. vm_compute. auto. Qed.
Lemma http_connections_are_recorded_witness :
  exists l, history (serve_connection (service None) listening (ends []) start).2 = history start ++ l /\
    connection_trail (service None) (ends []) start (ConnectionAccepted (bs "198.51.100.1:5000") (bs "127.0.0.1:8080"))
      (Ok (Some tt)) (audited l).
Proof.
  pose proof (http_connections_are_recorded (service None) listening (ends []) start) as Ht. revert Ht.
  assert (Hok : (serve_connection (service None) listening (ends []) start).1 = Ok (Some tt)) by (vm_compute; reflexivity).
  revert Hok. destruct (serve_connection (service None) listening (ends []) start) as [x w']. cbn [fst snd].
  intros Hok. rewrite Hok. intros Ht. exact Ht.
Defined.
End Example_proxy.
