(* ===== verification/Config.v ===== *)
(** Configuration (crates/freja-config/src): the raw records a TOML file decodes to,
    their validation into bounds, listeners and inspection patterns, and compilation
    into the programs the runtime consumes.  Paths are their text; durations are
    milliseconds; hexadecimal decoding and TOML are parameters. *)
From stdpp Require Import gmap strings.
From stdpp Require Import prelude.
From S2P Require Import Prelude Bytes Net Endpoint Domain PolicyModel Acl Guard Inspection AuditModel AuditSink.

(** * Errors (error.rs) *)

Module ValidationError.
Inductive t : Type :=
| NoListeners
| InvalidBind (value : bytes) (source : endpoint_error)
| InvalidUpstream (value : bytes) (source : endpoint_error)
| InvalidConnectPort (value : N) (source : endpoint_error)
| EmptyConnectPorts
| RemoteHttpListenerRequiresAuthentication (bind : ListenEndpoint.t)
| RemoteTcpListenerUnsupported (bind : ListenEndpoint.t)
| RemoteSocksListenerRequiresAuthentication (bind : ListenEndpoint.t)
| InvalidProxyCredentialHash
| InvalidProxyCredentialHashLength
| InvalidProxyAuthenticationRealm
| NonLoopbackBindRequiresOptIn (bind : ListenEndpoint.t)
| InteractiveHooksRequireTui
| ZeroLimit (name : bytes)
| UiRowsBelowPausedFlows (ui_retained_rows paused_flows : N)
| UiContentBelowBodyLimit (ui_content_bytes body_prefix_bytes : N)
| WireCaptureLimitOverflow
| CapturePrefixExceedsBodyLimit (capture_bytes body_prefix_bytes : N)
| InspectionPatternExceedsBodyLimit (id : DetectorId.t) (pattern_bytes body_prefix_bytes : N)
| ZeroPolicyGeneration
| InvalidPatternHex (id : DetectorId.t)
| InvalidInspectionPattern (source : inspection_error)
| TlsInterceptionRequiresCaCertificate
| TlsInterceptionRequiresCaPrivateKey
| TlsInterceptionRequiresAllowlist.
(** [impl Display]; [debug] is [str]'s quoted form. *)
Definition show_inspection_error (e : inspection_error) : bytes :=
  match e with
  | EmptyPattern id => bs "detector " ++ DetectorId.as_str id ++ bs " has an empty byte pattern"
  | EmptyDirections id => bs "detector " ++ DetectorId.as_str id ++ bs " has no inspection directions"
  | DuplicateDetector id => bs "detector ID " ++ DetectorId.as_str id ++ bs " is duplicated"
  | UnsupportedDetour id => bs "detector " ++ DetectorId.as_str id ++ bs " cannot detour a flow after inspection begins"
  end.
Definition show (debug : bytes -> bytes) (e : t) : bytes :=
  match e with
  | NoListeners => bs "at least one listener is required"
  | InvalidBind value _ => bs "invalid listener bind " ++ debug value
  | InvalidUpstream value _ => bs "invalid static upstream " ++ debug value
  | InvalidConnectPort value _ => bs "invalid CONNECT allowlist port " ++ show_N value
  | EmptyConnectPorts => bs "HTTP listener CONNECT port allowlist must not be empty"
  | RemoteHttpListenerRequiresAuthentication bind =>
      bs "non-loopback HTTP proxy listener " ++ ListenEndpoint.show bind ++ bs " requires authentication"
  | RemoteTcpListenerUnsupported bind =>
      bs "non-loopback static TCP listener " ++ ListenEndpoint.show bind
      ++ bs " is unsupported because generic TCP has no proxy authentication handshake"
  | RemoteSocksListenerRequiresAuthentication bind =>
      bs "non-loopback SOCKS5 listener " ++ ListenEndpoint.show bind ++ bs " requires username/password authentication"
  | InvalidProxyCredentialHash => bs "proxy credential hash must be hexadecimal SHA-256"
  | InvalidProxyCredentialHashLength => bs "proxy credential hash must contain exactly 32 bytes"
  | InvalidProxyAuthenticationRealm => bs "proxy authentication realm is invalid"
  | NonLoopbackBindRequiresOptIn bind =>
      bs "listener " ++ ListenEndpoint.show bind ++ bs " is not loopback; set safety.allow_non_loopback = true explicitly"
  | InteractiveHooksRequireTui =>
      bs "interactive hooks require runtime.ui = " ++ [byte_of 34] ++ bs "tui" ++ [byte_of 34]
  | ZeroLimit name => bs "limit " ++ name ++ bs " must be non-zero"
  | UiRowsBelowPausedFlows rows paused =>
      bs "limits.ui_retained_rows (" ++ show_N rows ++ bs ") must be at least limits.paused_flows (" ++ show_N paused ++ bs ")"
  | UiContentBelowBodyLimit content body =>
      bs "interactive TUI content limit " ++ show_N content ++ bs " is smaller than body-prefix limit " ++ show_N body
  | WireCaptureLimitOverflow => bs "combined limits.header_bytes and limits.ui_content_bytes overflow usize"
  | CapturePrefixExceedsBodyLimit capture body =>
      bs "capture prefix " ++ show_N capture ++ bs " exceeds body-prefix limit " ++ show_N body
  | InspectionPatternExceedsBodyLimit id pattern body =>
      bs "detector " ++ DetectorId.as_str id ++ bs " pattern length " ++ show_N pattern
      ++ bs " exceeds body-prefix limit " ++ show_N body
  | ZeroPolicyGeneration => bs "policy.generation must be non-zero"
  | InvalidPatternHex id => bs "detector " ++ DetectorId.as_str id ++ bs " has invalid hexadecimal pattern"
  | InvalidInspectionPattern e => show_inspection_error e
  | TlsInterceptionRequiresCaCertificate => bs "TLS interception requires tls.ca_certificate"
  | TlsInterceptionRequiresCaPrivateKey => bs "TLS interception requires tls.ca_private_key"
  | TlsInterceptionRequiresAllowlist => bs "TLS interception requires a non-empty tls.intercept_hosts"
  end.
End ValidationError.
Definition show_policy_error (e : policy_error) : bytes :=
  match e with
  | DuplicateRule id => bs "policy rule ID " ++ RuleId.as_str id ++ bs " is duplicated"
  | EmptyBooleanExpression id operator => bs "rule " ++ RuleId.as_str id ++ bs " has an empty " ++ operator ++ bs " expression"
  | InvalidPortRange start end_ => bs "invalid destination port range " ++ show_N start ++ bs "..=" ++ show_N end_
  | BuiltInRule _ => bs "invalid built-in policy rule identifier"
  | InvalidDetourRule id => bs "TCP detour rule " ++ RuleId.as_str id ++ bs " must be limited to requested-stage TCP facts"
  | InvalidDefaultDetour => bs "TCP detour cannot be the policy default action"
  end.
Inductive config_error : Type :=
| ConfigRead (path : bytes)
| ConfigParse
| ConfigValidation (e : ValidationError.t)
| ConfigPolicy (e : policy_error)
| ConfigInspection (e : inspection_error).
Definition show_config_error (debug : bytes -> bytes) (e : config_error) : bytes :=
  match e with
  | ConfigRead path => bs "failed to read config " ++ path
  | ConfigParse => bs "failed to parse config as TOML"
  | ConfigValidation e => bs "invalid configuration: " ++ ValidationError.show debug e
  | ConfigPolicy e => bs "failed to compile policy: " ++ show_policy_error e
  | ConfigInspection e => bs "failed to compile inspection policy: " ++ ValidationError.show_inspection_error e
  end.

(** * Raw records (raw.rs and raw/) *)

Module RawSafety.
Record t : Type := Make {
  allow_non_loopback : bool;
  private_destinations : destination_access;
  link_local_destinations : destination_access;
  loopback_destinations : destination_access;
  metadata_destinations : destination_access }.
Definition default : t := Make false Protect Protect Protect Protect.
End RawSafety.
Module RawLimits.
Record t : Type := Make {
  connections : N;
  header_bytes : N;
  body_prefix_bytes : N;
  connect_timeout_ms : N;
  read_timeout_ms : N;
  idle_timeout_ms : N;
  paused_flows : N;
  interception_timeout_ms : N;
  ui_event_capacity : N;
  ui_content_bytes : N;
  ui_retained_rows : N }.
Definition default : t := Make 1024 65536 65536 10000 30000 60000 16 30000 1024 65536 128.
End RawLimits.
Module RawAudit.
Record t : Type := Make {
  path : bytes;
  channel_capacity : N;
  failure_policy : audit_failure_policy;
  redact_query_parameters : list bytes;
  checkpoint_signing_key : option bytes;
  checkpoint_interval : N }.
Definition default : t :=
  Make (bs ".") 1024 FailClosed [bs "access_token"; bs "api_key"; bs "password"; bs "secret"; bs "token"] None 1000.
End RawAudit.
Inductive raw_capture_policy : Type := RawMetadataOnly | RawPrefix (max_bytes : N).
Module RawInspectionPattern.
Record t : Type := Make {
  detector_id : DetectorId.t;
  rule_id : RuleId.t;
  pattern_hex : bytes;
  severity : Domain.severity;
  confidence : Domain.confidence;
  directions : list direction;
  action : rule_action;
  tags : list bytes }.
Definition default_severity : Domain.severity := High.
Definition default_confidence : Domain.confidence := Confirmed.
Definition default_directions : list direction := [ClientToUpstream; UpstreamToClient; HttpRequestBody; HttpResponseBody].
Definition default_action : rule_action := RuleDeny.
End RawInspectionPattern.
Record raw_inspection : Type := RawInspection { raw_mode : inspection_mode; raw_patterns : list RawInspectionPattern.t }.
Module RawTls.
Record t : Type := Make {
  handling : tls_handling;
  ca_certificate : option bytes;
  ca_private_key : option bytes;
  intercept_hosts : list host_pattern;
  leaf_cache_entries : N }.
Definition default : t := Make Tunnel None None [] 256.
End RawTls.
Record raw_proxy_authentication : Type := RawProxyAuthentication { raw_realm : bytes; raw_credential_sha256 : bytes }.
Definition default_proxy_realm : bytes := bs "Freja".
Definition default_connect_ports : list N := [Port.get Port.HTTPS].
Inductive raw_listener : Type :=
| RawHttpForward (bind : bytes) (connect_ports : list N) (authentication : option raw_proxy_authentication)
| RawTcpStatic (bind upstream : bytes)
| RawSocks5 (bind : bytes) (credential_sha256 : option bytes).

(** * Validated values (validation/) *)

(** [NonZeroUsize::new(value).ok_or(ZeroLimit { name })] and its kin. *)
Definition nonzero_count (name : bytes) (value : N) : result ValidationError.t N :=
  if decide (value = 0%N) then Err (ValidationError.ZeroLimit name) else Ok value.
Module Limits.
Record t : Type := Make {
  connections : N;
  header_bytes : N;
  body_prefix_bytes : N;
  connect_timeout : N;
  read_timeout : N;
  idle_timeout : N;
  paused_flows : N;
  interception_timeout : N;
  ui_event_capacity : N;
  ui_content_bytes : N;
  ui_retained_rows : N }.
#[global] Instance eq_dec : EqDecision t.
Proof. solve_decision. Defined.
Definition try_from (raw : RawLimits.t) : result ValidationError.t t :=
  connections ← nonzero_count (bs "connections") (RawLimits.connections raw);
  header_bytes ← nonzero_count (bs "header_bytes") (RawLimits.header_bytes raw);
  body_prefix_bytes ← nonzero_count (bs "body_prefix_bytes") (RawLimits.body_prefix_bytes raw);
  paused_flows ← nonzero_count (bs "paused_flows") (RawLimits.paused_flows raw);
  ui_event_capacity ← nonzero_count (bs "ui_event_capacity") (RawLimits.ui_event_capacity raw);
  ui_content_bytes ← nonzero_count (bs "ui_content_bytes") (RawLimits.ui_content_bytes raw);
  ui_retained_rows ← nonzero_count (bs "ui_retained_rows") (RawLimits.ui_retained_rows raw);
  connect_timeout ← nonzero_count (bs "connect_timeout_ms") (RawLimits.connect_timeout_ms raw);
  read_timeout ← nonzero_count (bs "read_timeout_ms") (RawLimits.read_timeout_ms raw);
  idle_timeout ← nonzero_count (bs "idle_timeout_ms") (RawLimits.idle_timeout_ms raw);
  interception_timeout ← nonzero_count (bs "interception_timeout_ms") (RawLimits.interception_timeout_ms raw);
  if (RawLimits.ui_retained_rows raw <? RawLimits.paused_flows raw)%N
  then Err (ValidationError.UiRowsBelowPausedFlows (RawLimits.ui_retained_rows raw) (RawLimits.paused_flows raw))
  else if bool_decide (checked_add (RawLimits.header_bytes raw) (RawLimits.ui_content_bytes raw) = None)
  then Err ValidationError.WireCaptureLimitOverflow
  else Ok (Make connections header_bytes body_prefix_bytes connect_timeout read_timeout idle_timeout paused_flows
             interception_timeout ui_event_capacity ui_content_bytes ui_retained_rows).
End Limits.
Inductive listener_exposure : Type := LoopbackOnly | AuthenticatedProxyAllowed.
Module SafetyConfig.
Record t : Type := Make { exposure : listener_exposure; destination_guards : guard_settings }.
Definition permits_non_loopback_bind (s : t) : bool :=
  match exposure s with AuthenticatedProxyAllowed => true | LoopbackOnly => false end.
Definition from (raw : RawSafety.t) : t :=
  Make (if RawSafety.allow_non_loopback raw then AuthenticatedProxyAllowed else LoopbackOnly)
    (DestinationGuardSettings (RawSafety.private_destinations raw) (RawSafety.link_local_destinations raw)
       (RawSafety.loopback_destinations raw) (RawSafety.metadata_destinations raw)).
End SafetyConfig.
Record checkpoint_signing : Type := CheckpointSigningConfig { key_path : bytes; interval : N }.
#[export] Instance checkpoint_signing_eq_dec : EqDecision checkpoint_signing.
Proof. solve_decision. Defined.
Module AuditConfig.
Record t : Type := Make {
  path : bytes;
  channel_capacity : N;
  failure_policy : audit_failure_policy;
  redact_query_parameters : list bytes;
  signing : option checkpoint_signing }.
#[global] Instance eq_dec : EqDecision t.
Proof. solve_decision. Defined.
Definition try_from (raw : RawAudit.t) : result ValidationError.t t :=
  channel_capacity ← nonzero_count (bs "audit.channel_capacity") (RawAudit.channel_capacity raw);
  signing ← match RawAudit.checkpoint_signing_key raw with
            | None => Ok None
            | Some key_path =>
                interval ← nonzero_count (bs "audit.checkpoint_interval") (RawAudit.checkpoint_interval raw);
                Ok (Some (CheckpointSigningConfig key_path interval))
            end;
  Ok (Make (RawAudit.path raw) channel_capacity (RawAudit.failure_policy raw)
        (map to_ascii_lowercase (RawAudit.redact_query_parameters raw)) signing).
End AuditConfig.
Module CapturePolicy.
Inductive t : Type := MetadataOnly | Prefix (max_bytes : N).
#[global] Instance eq_dec : EqDecision t.
Proof. solve_decision. Defined.
Definition try_from (raw : raw_capture_policy) (body_prefix_bytes : N) : result ValidationError.t t :=
  match raw with
  | RawMetadataOnly => Ok MetadataOnly
  | RawPrefix max_bytes =>
      if (body_prefix_bytes <? max_bytes)%N
      then Err (ValidationError.CapturePrefixExceedsBodyLimit max_bytes body_prefix_bytes)
      else max_bytes ← nonzero_count (bs "capture.max_bytes") max_bytes; Ok (Prefix max_bytes)
  end.
End CapturePolicy.
Record tls_interception : Type := TlsInterception {
  tls_ca_certificate : bytes; tls_ca_private_key : bytes; tls_intercept_hosts : list host_pattern; tls_leaf_cache_entries : N }.
#[export] Instance tls_interception_eq_dec : EqDecision tls_interception.
Proof. solve_decision. Defined.
Inductive tls_config : Type := TlsTunnel | TlsIntercept (i : tls_interception).
#[export] Instance tls_config_eq_dec : EqDecision tls_config.
Proof. solve_decision. Defined.
Definition validate_interception (raw : RawTls.t) : result ValidationError.t tls_config :=
  ca_certificate ← ok_or ValidationError.TlsInterceptionRequiresCaCertificate (RawTls.ca_certificate raw);
  ca_private_key ← ok_or ValidationError.TlsInterceptionRequiresCaPrivateKey (RawTls.ca_private_key raw);
  match RawTls.intercept_hosts raw with
  | [] => Err ValidationError.TlsInterceptionRequiresAllowlist
  | hosts =>
      entries ← nonzero_count (bs "tls.leaf_cache_entries") (RawTls.leaf_cache_entries raw);
      Ok (TlsIntercept (TlsInterception ca_certificate ca_private_key hosts entries))
  end.
Definition validate_tls (raw : RawTls.t) : result ValidationError.t tls_config :=
  match RawTls.handling raw with Tunnel => Ok TlsTunnel | Intercept => validate_interception raw end.

Section Validation.
Context `{IpNet, Hex}.
Definition validate_pattern (raw : RawInspectionPattern.t) (body_prefix_bytes : N)
  : result ValidationError.t InspectionPattern.t :=
  let id := RawInspectionPattern.detector_id raw in
  b ← ok_or (ValidationError.InvalidPatternHex id) (hex_decode (RawInspectionPattern.pattern_hex raw));
  if (body_prefix_bytes <? lenN b)%N
  then Err (ValidationError.InspectionPatternExceedsBodyLimit id (lenN b) body_prefix_bytes)
  else map_err ValidationError.InvalidInspectionPattern
         (InspectionPattern.new id (RawInspectionPattern.rule_id raw) b (RawInspectionPattern.severity raw)
            (RawInspectionPattern.confidence raw) (RawInspectionPattern.directions raw)
            (RawInspectionPattern.action raw) (RawInspectionPattern.tags raw)).
Definition validate_patterns (patterns : list RawInspectionPattern.t) (body_prefix_bytes : N)
  : result ValidationError.t (list InspectionPattern.t) :=
  collect (fun raw => validate_pattern raw body_prefix_bytes) patterns.

(** ** Listeners (validation/listener.rs) *)

Definition CREDENTIAL_HASH_BYTES : nat := 32.
Definition validate_credential_hash (value : bytes) : result ValidationError.t credential_hash :=
  decoded ← ok_or ValidationError.InvalidProxyCredentialHash (hex_decode value);
  if decide (length decoded = CREDENTIAL_HASH_BYTES) then Ok (ProxyCredentialHash decoded)
  else Err ValidationError.InvalidProxyCredentialHashLength.
Definition validate_proxy_authentication (raw : raw_proxy_authentication) : result ValidationError.t ProxyAuthentication.t :=
  hash ← validate_credential_hash (raw_credential_sha256 raw);
  map_err (fun _ => ValidationError.InvalidProxyAuthenticationRealm) (ProxyAuthentication.new (raw_realm raw) hash).
Definition validate_bind (bind_text : bytes) (allow_non_loopback : bool) : result ValidationError.t ListenEndpoint.t :=
  bind ← map_err (ValidationError.InvalidBind bind_text) (ListenEndpoint.from_str bind_text);
  if negb (ListenEndpoint.is_loopback bind) && negb allow_non_loopback
  then Err (ValidationError.NonLoopbackBindRequiresOptIn bind) else Ok bind.
Definition validate_http_forward (bind : bytes) (connect_ports : list N) (authentication : option raw_proxy_authentication)
    (allow_non_loopback : bool) : result ValidationError.t listener_spec :=
  bind ← validate_bind bind allow_non_loopback;
  if negb (ListenEndpoint.is_loopback bind) && negb (bool_decide (is_Some authentication))
  then Err (ValidationError.RemoteHttpListenerRequiresAuthentication bind)
  else if bool_decide (connect_ports = []) then Err ValidationError.EmptyConnectPorts
  else
    ports ← collect (fun value => map_err (ValidationError.InvalidConnectPort value) (Port.new value)) connect_ports;
    listener ← map_err (fun _ => ValidationError.EmptyConnectPorts) (HttpForwardListener.with_connect_ports bind ports);
    match authentication with
    | None => Ok (HttpForward listener)
    | Some a => a ← validate_proxy_authentication a; Ok (HttpForward (HttpForwardListener.with_authentication listener a))
    end.
Definition validate_tcp_static (bind upstream : bytes) (allow_non_loopback : bool) : result ValidationError.t listener_spec :=
  bind ← validate_bind bind allow_non_loopback;
  if negb (ListenEndpoint.is_loopback bind) then Err (ValidationError.RemoteTcpListenerUnsupported bind)
  else
    endpoint ← map_err (ValidationError.InvalidUpstream upstream) (UpstreamEndpoint.from_str upstream);
    Ok (TcpStatic (TcpStaticListener bind endpoint)).
Definition validate_socks5 (bind : bytes) (authentication : option bytes) (allow_non_loopback : bool)
  : result ValidationError.t listener_spec :=
  bind ← validate_bind bind allow_non_loopback;
  if negb (ListenEndpoint.is_loopback bind) && negb (bool_decide (is_Some authentication))
  then Err (ValidationError.RemoteSocksListenerRequiresAuthentication bind)
  else
    match authentication with
    | None => Ok (Socks5 (Socks5Listener bind None))
    | Some credential => hash ← validate_credential_hash credential; Ok (Socks5 (Socks5Listener bind (Some hash)))
    end.
Definition validate_listener (raw : raw_listener) (allow_non_loopback : bool) : result ValidationError.t listener_spec :=
  match raw with
  | RawHttpForward bind ports authentication => validate_http_forward bind ports authentication allow_non_loopback
  | RawTcpStatic bind upstream => validate_tcp_static bind upstream allow_non_loopback
  | RawSocks5 bind authentication => validate_socks5 bind authentication allow_non_loopback
  end.
Definition validate_all (raw : list raw_listener) (allow_non_loopback : bool) : result ValidationError.t (list listener_spec) :=
  collect (fun listener => validate_listener listener allow_non_loopback) raw.
End Validation.

(** * The three stages (raw.rs, validation.rs, compiled.rs) *)

Module RawPolicy.
Section Policy.
Context `{IpNet}.
Record t : Type := Make { generation : N; default_action : rule_action; rules : list acl_rule }.
Definition default : t := Make 1 RuleAllow [].
End Policy.
Arguments t {_}.
End RawPolicy.
Module RawConfig.
Section Config.
Context `{IpNet}.
Record t : Type := Make {
  runtime : runtime_profile;
  safety : RawSafety.t;
  limits : RawLimits.t;
  audit : RawAudit.t;
  capture : raw_capture_policy;
  inspection : raw_inspection;
  tls : RawTls.t;
  policy : RawPolicy.t;
  listeners : list raw_listener }.
Definition default : t :=
  Make runtime_profile_default RawSafety.default RawLimits.default RawAudit.default RawMetadataOnly
    (RawInspection Streaming []) RawTls.default RawPolicy.default [].
End Config.
Arguments t {_}.
End RawConfig.
Module ValidatedConfig.
Section Config.
Context `{IpNet, Hex}.
Record t : Type := Make {
  runtime : runtime_profile;
  safety : SafetyConfig.t;
  limits : Limits.t;
  audit : AuditConfig.t;
  capture : CapturePolicy.t;
  mode : inspection_mode;
  patterns : list InspectionPattern.t;
  tls : tls_config;
  generation : PolicyGeneration.t;
  default_action : rule_action;
  rules : list acl_rule;
  listeners : list listener_spec }.
Definition try_from (raw : RawConfig.t) : result ValidationError.t t :=
  let runtime := RawConfig.runtime raw in
  if bool_decide (rp_hooks runtime = Interactive) && negb (bool_decide (rp_ui runtime = Tui))
  then Err ValidationError.InteractiveHooksRequireTui
  else if bool_decide (RawConfig.listeners raw = []) then Err ValidationError.NoListeners
  else
    let safety := SafetyConfig.from (RawConfig.safety raw) in
    limits ← Limits.try_from (RawConfig.limits raw);
    if bool_decide (rp_hooks runtime = Interactive) && (Limits.ui_content_bytes limits <? Limits.body_prefix_bytes limits)%N
    then Err (ValidationError.UiContentBelowBodyLimit (Limits.ui_content_bytes limits) (Limits.body_prefix_bytes limits))
    else
      capture ← CapturePolicy.try_from (RawConfig.capture raw) (Limits.body_prefix_bytes limits);
      patterns ← validate_patterns (raw_patterns (RawConfig.inspection raw)) (Limits.body_prefix_bytes limits);
      tls ← validate_tls (RawConfig.tls raw);
      audit ← AuditConfig.try_from (RawConfig.audit raw);
      let policy := RawConfig.policy raw in
      generation ← map_err (fun _ => ValidationError.ZeroPolicyGeneration) (PolicyGeneration.new (RawPolicy.generation policy));
      listeners ← validate_all (RawConfig.listeners raw) (SafetyConfig.permits_non_loopback_bind safety);
      Ok (Make runtime safety limits audit capture (raw_mode (RawConfig.inspection raw)) patterns tls generation
            (RawPolicy.default_action policy) (RawPolicy.rules policy) listeners).
End Config.
Arguments t {_}.
End ValidatedConfig.
Module CompiledConfig.
Section Config.
Context `{IpNet, Hex}.
Record t : Type := Make {
  runtime : runtime_profile;
  safety : SafetyConfig.t;
  limits : Limits.t;
  audit : AuditConfig.t;
  capture : CapturePolicy.t;
  mode : inspection_mode;
  inspection : InspectionProgram.t;
  tls : tls_config;
  listeners : list listener_spec;
  policy : acl_policy;
  destination_guard : DestinationGuard.t }.
(** [ValidatedConfig::compile]. *)
Definition compile (v : ValidatedConfig.t) : result config_error t :=
  policy ← map_err ConfigPolicy
    (acl_policy_new (ValidatedConfig.generation v) (ValidatedConfig.rules v) (ValidatedConfig.default_action v));
  guard ← map_err ConfigPolicy (DestinationGuard.new (SafetyConfig.destination_guards (ValidatedConfig.safety v)));
  inspection ← map_err ConfigInspection
    (InspectionProgram.new (ValidatedConfig.generation v) (ValidatedConfig.patterns v));
  Ok (Make (ValidatedConfig.runtime v) (ValidatedConfig.safety v) (ValidatedConfig.limits v) (ValidatedConfig.audit v)
        (ValidatedConfig.capture v) (ValidatedConfig.mode v) inspection (ValidatedConfig.tls v)
        (ValidatedConfig.listeners v) policy guard).
(** [RawConfig::validate]. *)
Definition validate (raw : RawConfig.t) : result config_error ValidatedConfig.t :=
  map_err ConfigValidation (ValidatedConfig.try_from raw).
End Config.
Arguments t {_}.
End CompiledConfig.
(** What [load] does with a decoded document. *)
Definition compile_raw `{IpNet, Hex} (raw : RawConfig.t) : result config_error CompiledConfig.t :=
  validated ← CompiledConfig.validate raw; CompiledConfig.compile validated.
(** The [toml] crate's decoding of a document into the raw records. *)
Class TomlConfig `{IpNet} : Type := toml_from_str : bytes -> option RawConfig.t.
Section Loading.
Context `{TomlConfig, Hex}.
Definition parse (input : bytes) : result config_error RawConfig.t := ok_or ConfigParse (toml_from_str input).
(** [contents] is what reading [path] gives. *)
Definition read (path : bytes) (contents : option bytes) : result config_error RawConfig.t :=
  input ← ok_or (ConfigRead path) contents; parse input.
Definition load (path : bytes) (contents : option bytes) : result config_error CompiledConfig.t :=
  raw ← read path contents; compile_raw raw.
End Loading.
