(* ===== verification/ConfigSafety.v ===== *)
(** What a configuration that compiles guarantees (crates/freja-config/src), and that
    compilation accepts exactly the configurations of its declarative reading. *)
From stdpp Require Import gmap strings.
From stdpp Require Import prelude.
From S2P Require Import Prelude Bytes Net Endpoint Domain PolicyModel Acl Guard Inspection AuditModel AuditSink Config.

(** * Successful steps *)

Lemma bind_Ok_iff {E A B} (r : result E A) (f : A -> result E B) b : r ≫= f = Ok b <-> exists a, r = Ok a /\ f a = Ok b.
Proof. split; [apply bind_Ok|]. by intros (a & -> & Hf). Qed.
Lemma map_err_Ok {E F A} (f : E -> F) (r : result E A) a : map_err f r = Ok a <-> r = Ok a.
Proof. destruct r; cbn; naive_solver. Qed.
Lemma nonzero_count_Ok name v a : nonzero_count name v = Ok a <-> a = v /\ (0 < v)%N.
Proof. unfold nonzero_count. case_decide; [split; [done|lia]|]. split; [intros [= <-]; split; [done|lia]|by intros [-> _]]. Qed.
Lemma guard_Ok {E A} (b : bool) (e : E) (r : result E A) a : (if b then Err e else r) = Ok a <-> b = false /\ r = Ok a.
Proof. destruct b; naive_solver. Qed.
(** Reads a successful computation as the conjunction of its successful steps. *)
Ltac read_steps :=
  repeat first
    [ rewrite bind_Ok_iff | rewrite guard_Ok | rewrite map_err_Ok | rewrite ok_or_Ok | rewrite nonzero_count_Ok
    | setoid_rewrite bind_Ok_iff | setoid_rewrite guard_Ok | setoid_rewrite map_err_Ok | setoid_rewrite ok_or_Ok
    | setoid_rewrite nonzero_count_Ok ].

(** * The declarative reading *)

(** Every bound is positive, the rows hold the paused flows and the capture of a head
    with its content has a size. *)
Definition limits_ok (raw : RawLimits.t) : Prop :=
  Forall (fun v => (0 < v)%N)
    [RawLimits.connections raw; RawLimits.header_bytes raw; RawLimits.body_prefix_bytes raw; RawLimits.connect_timeout_ms raw;
     RawLimits.read_timeout_ms raw; RawLimits.idle_timeout_ms raw; RawLimits.paused_flows raw;
     RawLimits.interception_timeout_ms raw; RawLimits.ui_event_capacity raw; RawLimits.ui_content_bytes raw;
     RawLimits.ui_retained_rows raw] /\
  (RawLimits.paused_flows raw <= RawLimits.ui_retained_rows raw)%N /\
  (RawLimits.header_bytes raw + RawLimits.ui_content_bytes raw <= u64_max)%N.
Definition limits_of (raw : RawLimits.t) : Limits.t :=
  Limits.Make (RawLimits.connections raw) (RawLimits.header_bytes raw) (RawLimits.body_prefix_bytes raw)
    (RawLimits.connect_timeout_ms raw) (RawLimits.read_timeout_ms raw) (RawLimits.idle_timeout_ms raw)
    (RawLimits.paused_flows raw) (RawLimits.interception_timeout_ms raw) (RawLimits.ui_event_capacity raw)
    (RawLimits.ui_content_bytes raw) (RawLimits.ui_retained_rows raw).
Definition audit_ok (raw : RawAudit.t) (a : AuditConfig.t) : Prop :=
  (0 < RawAudit.channel_capacity raw)%N /\
  (RawAudit.checkpoint_signing_key raw = None \/ (0 < RawAudit.checkpoint_interval raw)%N) /\
  a = AuditConfig.Make (RawAudit.path raw) (RawAudit.channel_capacity raw) (RawAudit.failure_policy raw)
        (map to_ascii_lowercase (RawAudit.redact_query_parameters raw))
        ((fun key => CheckpointSigningConfig key (RawAudit.checkpoint_interval raw)) <$> RawAudit.checkpoint_signing_key raw).
Definition capture_ok (raw : raw_capture_policy) (body : N) (c : CapturePolicy.t) : Prop :=
  match raw with
  | RawMetadataOnly => c = CapturePolicy.MetadataOnly
  | RawPrefix n => (0 < n <= body)%N /\ c = CapturePolicy.Prefix n
  end.
Definition tls_ok (raw : RawTls.t) (c : tls_config) : Prop :=
  match RawTls.handling raw with
  | Tunnel => c = TlsTunnel
  | Intercept => exists certificate key, RawTls.ca_certificate raw = Some certificate /\ RawTls.ca_private_key raw = Some key /\
      RawTls.intercept_hosts raw <> [] /\ (0 < RawTls.leaf_cache_entries raw)%N /\
      c = TlsIntercept (TlsInterception certificate key (RawTls.intercept_hosts raw) (RawTls.leaf_cache_entries raw))
  end.
Section Reading.
Context `{IpNet, Hex}.
Definition pattern_ok (body : N) (raw : RawInspectionPattern.t) (p : InspectionPattern.t) : Prop :=
  exists b, hex_decode (RawInspectionPattern.pattern_hex raw) = Some b /\ b <> [] /\ (lenN b <= body)%N /\
    RawInspectionPattern.directions raw <> [] /\ is_detour (RawInspectionPattern.action raw) = false /\
    p = InspectionPattern.Make (RawInspectionPattern.detector_id raw) (RawInspectionPattern.rule_id raw) b
          (RawInspectionPattern.severity raw) (RawInspectionPattern.confidence raw) (RawInspectionPattern.directions raw)
          (RawInspectionPattern.action raw) (RawInspectionPattern.tags raw).
Definition credential_ok (text : bytes) (h : credential_hash) : Prop :=
  hex_decode text = Some (credential_bytes h) /\ length (credential_bytes h) = 32.
(** A listener binds a numeric address, loopback unless the configuration opts in; off
    loopback it asks for credentials, which plain TCP cannot. *)
Definition bind_ok (allow : bool) (text : bytes) (bind : ListenEndpoint.t) : Prop :=
  ListenEndpoint.from_str text = Ok bind /\ (ListenEndpoint.is_loopback bind = true \/ allow = true).
Inductive listener_ok (allow : bool) : raw_listener -> listener_spec -> Prop :=
| http_listener_ok text bind ports raw authentication :
    bind_ok allow text bind -> ListenEndpoint.is_loopback bind = true \/ raw <> None -> ports <> [] -> Forall (fun p => p <> 0%N) ports ->
    match raw, authentication with
    | None, None => True
    | Some raw, Some a => credential_ok (raw_credential_sha256 raw) (ProxyAuthentication.hash a) /\
        ProxyAuthentication.new (raw_realm raw) (ProxyAuthentication.hash a) = Ok a
    | _, _ => False
    end ->
    listener_ok allow (RawHttpForward text ports raw) (HttpForward (HttpForwardListener.Make bind (list_to_set ports) authentication))
| tcp_listener_ok text bind upstream endpoint :
    bind_ok allow text bind -> ListenEndpoint.is_loopback bind = true -> UpstreamEndpoint.from_str upstream = Ok endpoint ->
    listener_ok allow (RawTcpStatic text upstream) (TcpStatic (TcpStaticListener bind endpoint))
| socks_listener_ok text bind raw credential :
    bind_ok allow text bind -> ListenEndpoint.is_loopback bind = true \/ raw <> None ->
    match raw, credential with None, None => True | Some raw, Some h => credential_ok raw h | _, _ => False end ->
    listener_ok allow (RawSocks5 text raw) (Socks5 (Socks5Listener bind credential)).
(** The configuration [c] that the raw one describes, when it describes one. *)
Record configures (raw : RawConfig.t) (c : CompiledConfig.t) : Prop := {
  configures_runtime : CompiledConfig.runtime c = RawConfig.runtime raw;
  configures_interactive : rp_hooks (RawConfig.runtime raw) = Interactive ->
    rp_ui (RawConfig.runtime raw) = Tui /\
    (RawLimits.body_prefix_bytes (RawConfig.limits raw) <= RawLimits.ui_content_bytes (RawConfig.limits raw))%N;
  configures_listeners : RawConfig.listeners raw <> [] /\
    Forall2 (listener_ok (RawSafety.allow_non_loopback (RawConfig.safety raw))) (RawConfig.listeners raw) (CompiledConfig.listeners c);
  configures_safety : CompiledConfig.safety c = SafetyConfig.from (RawConfig.safety raw) /\
    CompiledConfig.destination_guard c = Guard.compiled (SafetyConfig.destination_guards (SafetyConfig.from (RawConfig.safety raw)));
  configures_limits : limits_ok (RawConfig.limits raw) /\ CompiledConfig.limits c = limits_of (RawConfig.limits raw);
  configures_audit : audit_ok (RawConfig.audit raw) (CompiledConfig.audit c);
  configures_capture : capture_ok (RawConfig.capture raw) (RawLimits.body_prefix_bytes (RawConfig.limits raw)) (CompiledConfig.capture c);
  configures_tls : tls_ok (RawConfig.tls raw) (CompiledConfig.tls c);
  configures_generation : RawPolicy.generation (RawConfig.policy raw) <> 0%N;
  configures_policy :
    CompiledConfig.policy c = AclPolicy (PolicyGeneration.Make (RawPolicy.generation (RawConfig.policy raw)))
      (RawPolicy.rules (RawConfig.policy raw)) (RawPolicy.default_action (RawConfig.policy raw)) /\
    policy_wf (CompiledConfig.policy c);
  configures_inspection : CompiledConfig.mode c = raw_mode (RawConfig.inspection raw) /\
    InspectionProgram.new (PolicyGeneration.Make (RawPolicy.generation (RawConfig.policy raw)))
      (InspectionProgram.patterns (CompiledConfig.inspection c)) = Ok (CompiledConfig.inspection c) /\
    NoDup (map InspectionPattern.detector_id (InspectionProgram.patterns (CompiledConfig.inspection c))) /\
    Forall2 (pattern_ok (RawLimits.body_prefix_bytes (RawConfig.limits raw))) (raw_patterns (RawConfig.inspection raw))
      (InspectionProgram.patterns (CompiledConfig.inspection c)) }.

(** * Each validation, exactly *)

Lemma limits_exact raw l : Limits.try_from raw = Ok l <-> limits_ok raw /\ l = limits_of raw.
Proof.
  unfold Limits.try_from, limits_ok, limits_of. rewrite !Forall_cons, Forall_nil.
  destruct raw as [c h b ct rt it p i e u r]; cbn [RawLimits.connections RawLimits.header_bytes RawLimits.body_prefix_bytes
    RawLimits.connect_timeout_ms RawLimits.read_timeout_ms RawLimits.idle_timeout_ms RawLimits.paused_flows
    RawLimits.interception_timeout_ms RawLimits.ui_event_capacity RawLimits.ui_content_bytes RawLimits.ui_retained_rows].
  split.
  - intros Hok. inv_bind. repeat match goal with H : nonzero_count _ _ = Ok _ |- _ => apply nonzero_count_Ok in H as [-> ?] end.
    apply guard_Ok in Hok as [Hrows%N.ltb_ge Hok]. apply guard_Ok in Hok as [Hsum%bool_decide_eq_false [= <-]].
    rewrite checked_add_None in Hsum. split; [|done]. split_and!; try done; lia.
  - intros [((? & ? & ? & ? & ? & ? & ? & ? & ? & ? & ? & _) & Hrows & Hsum) ->].
    assert (Hnz : forall name v, (0 < v)%N -> nonzero_count name v = Ok v) by (intros; by apply nonzero_count_Ok).
    rewrite !Hnz by done. mcbn. rewrite (proj2 (N.ltb_ge _ _)) by done. rewrite bool_decide_false; [done|].
    rewrite checked_add_None. lia.
Qed.
Lemma audit_exact raw a : AuditConfig.try_from raw = Ok a <-> audit_ok raw a.
Proof.
  unfold AuditConfig.try_from, audit_ok. rewrite bind_Ok_iff. setoid_rewrite nonzero_count_Ok. split.
  - intros (capacity & [-> Hcapacity] & Hs). split; [done|]. destruct (RawAudit.checkpoint_signing_key raw) as [key|].
    + inv_bind. apply nonzero_count_Ok in Hok0 as [-> ?]. subst. split; [by right|done].
    + inv_bind. subst. split; [by left|done].
  - intros (Hcapacity & Hinterval & ->). eexists. split; [by split|].
    destruct (RawAudit.checkpoint_signing_key raw) as [key|]; [|done]. destruct Hinterval as [?|Hinterval]; [done|].
    rewrite (proj2 (nonzero_count_Ok _ _ (RawAudit.checkpoint_interval raw))) by done. done.
Qed.
Lemma capture_exact raw body c : CapturePolicy.try_from raw body = Ok c <-> capture_ok raw body c.
Proof.
  destruct raw as [|n]; cbn [CapturePolicy.try_from capture_ok]; [naive_solver|].
  rewrite guard_Ok, bind_Ok_iff. setoid_rewrite nonzero_count_Ok. rewrite N.ltb_ge. naive_solver.
Qed.
Lemma tls_exact raw c : validate_tls raw = Ok c <-> tls_ok raw c.
Proof.
  unfold validate_tls, tls_ok. destruct (RawTls.handling raw); [naive_solver|].
  unfold validate_interception. rewrite bind_Ok_iff. setoid_rewrite bind_Ok_iff. setoid_rewrite ok_or_Ok.
  destruct (RawTls.intercept_hosts raw) as [|h hosts].
  - split; [naive_solver|]. by intros (? & ? & _ & _ & ? & _).
  - setoid_rewrite bind_Ok_iff. setoid_rewrite nonzero_count_Ok. naive_solver.
Qed.
Lemma pattern_exact body raw p : validate_pattern raw body = Ok p <-> pattern_ok body raw p.
Proof.
  unfold validate_pattern, pattern_ok. rewrite bind_Ok_iff. setoid_rewrite ok_or_Ok. setoid_rewrite guard_Ok.
  setoid_rewrite map_err_Ok. setoid_rewrite N.ltb_ge. unfold InspectionPattern.new. split.
  - intros (b & Hb & Hlen & Hp). exists b. split; [done|]. case_decide; [done|]. case_decide; [done|].
    destruct (RawInspectionPattern.action raw); [| |done]; injection Hp as <-; done.
  - intros (b & Hb & Hne & Hlen & Hd & Ha & ->). exists b. split; [done|]. split; [done|]. rewrite !decide_False by done.
    by destruct (RawInspectionPattern.action raw).
Qed.
Lemma credential_exact text h : validate_credential_hash text = Ok h <-> credential_ok text h.
Proof.
  unfold validate_credential_hash, credential_ok, CREDENTIAL_HASH_BYTES. rewrite bind_Ok_iff. setoid_rewrite ok_or_Ok. split.
  - intros (b & Hb & Hh). case_decide; [|done]. by injection Hh as <-.
  - intros [Hb Hlen]. exists (credential_bytes h). split; [done|]. rewrite decide_True by done. by destruct h.
Qed.
Lemma bind_exact allow text bind : validate_bind text allow = Ok bind <-> bind_ok allow text bind.
Proof.
  unfold validate_bind, bind_ok. rewrite bind_Ok_iff. setoid_rewrite map_err_Ok. split.
  - intros (b & Hb & Hg). apply guard_Ok in Hg as [Hg [= <-]]. split; [done|].
    destruct (ListenEndpoint.is_loopback b), allow; auto.
  - intros [Hb Hg]. exists bind. split; [done|]. apply guard_Ok. split; [|done].
    by destruct Hg as [-> | ->]; rewrite ?andb_false_r.
Qed.
Lemma ports_exact ports : ports <> [] -> Forall (fun p => p <> 0%N) ports ->
  forall bind, exists l, collect (fun value => map_err (ValidationError.InvalidConnectPort value) (Port.new value)) ports = Ok l /\
    HttpForwardListener.with_connect_ports bind l = Ok (HttpForwardListener.Make bind (list_to_set ports) None).
Proof.
  intros Hne Hports bind. exists (map Port.Make ports). split.
  - apply collect_Ok. induction Hports as [|p ports Hp _ IH]; [constructor|].
    cbn. constructor; [unfold Port.new; by rewrite (proj2 (N.eqb_neq p 0))|]. destruct ports; [constructor|by apply IH].
  - unfold HttpForwardListener.with_connect_ports. rewrite map_map, map_id. rewrite decide_False; [done|].
    destruct ports as [|p ports]; [done|]. cbn. set_solver.
Qed.
Lemma authentication_exact raw a : validate_proxy_authentication raw = Ok a <->
  credential_ok (raw_credential_sha256 raw) (ProxyAuthentication.hash a) /\ ProxyAuthentication.new (raw_realm raw) (ProxyAuthentication.hash a) = Ok a.
Proof.
  unfold validate_proxy_authentication. rewrite bind_Ok_iff. setoid_rewrite map_err_Ok. setoid_rewrite credential_exact. split.
  - intros (h & Hh & Ha). assert (ProxyAuthentication.hash a = h) as ->; [|done].
    revert Ha. unfold ProxyAuthentication.new. case_match; [done|]. by intros [= <-].
  - intros [Hh Ha]. by exists (ProxyAuthentication.hash a).
Qed.
Lemma remote_guard (b : bool) {A} (o : option A) : negb b && negb (bool_decide (is_Some o)) = false <-> b = true \/ o <> None.
Proof. destruct b, o; cbn; rewrite ?bool_decide_true, ?bool_decide_false by (by eexists || intros [? ?]; done); naive_solver. Qed.
Lemma listener_exact allow raw l : validate_listener raw allow = Ok l <-> listener_ok allow raw l.
Proof.
  destruct raw as [text ports raw|text upstream|text raw]; cbn [validate_listener].
  - unfold validate_http_forward. rewrite bind_Ok_iff. setoid_rewrite bind_exact. split.
    + intros (bind & Hb & Hok). apply guard_Ok in Hok as [Hremote%remote_guard Hok]. apply guard_Ok in Hok as [Hne%bool_decide_eq_false Hok].
      apply bind_Ok in Hok as (l1 & Hl1 & Hok). apply bind_Ok in Hok as (h & Hh & Hok).
      assert (Hports : Forall (fun p => p <> 0%N) ports).
      { apply collect_Ok in Hl1. clear -Hl1. induction Hl1 as [|p q ports l1 Hp _ IH]; constructor; [|done].
        apply map_err_Ok in Hp. unfold Port.new in Hp. by destruct (N.eqb_spec p 0). }
      destruct (ports_exact ports Hne Hports bind) as (l2 & Hl2 & Hh2). rewrite Hl1 in Hl2. injection Hl2 as <-.
      rewrite Hh2 in Hh. injection Hh as <-. destruct raw as [raw|].
      * apply bind_Ok in Hok as (a & Ha%authentication_exact & [= <-]). by constructor.
      * injection Hok as <-. by constructor.
    + intros Hl. inversion Hl as [text' bind ports' raw' auth Hb Hremote Hne Hports Hauth| |]; subst. exists bind. split; [done|].
      apply guard_Ok. split; [by apply remote_guard|]. apply guard_Ok. split; [by apply bool_decide_eq_false|].
      destruct (ports_exact ports Hne Hports bind) as (l2 & -> & Hh2). mcbn. rewrite Hh2. mcbn.
      destruct raw as [raw|], auth as [a|]; try done. apply authentication_exact in Hauth. by rewrite Hauth.
  - unfold validate_tcp_static. rewrite bind_Ok_iff. setoid_rewrite bind_exact. split.
    + intros (bind & Hb & Hok). apply guard_Ok in Hok as [Hloop%negb_false_iff Hok].
      apply bind_Ok in Hok as (e & He%map_err_Ok & [= <-]). by constructor.
    + intros Hl. inversion Hl; subst. eexists. split; [done|]. apply guard_Ok. split; [by apply negb_false_iff|].
      by match goal with H : UpstreamEndpoint.from_str _ = _ |- _ => rewrite H end.
  - unfold validate_socks5. rewrite bind_Ok_iff. setoid_rewrite bind_exact. split.
    + intros (bind & Hb & Hok). apply guard_Ok in Hok as [Hremote%remote_guard Hok]. destruct raw as [raw|].
      * apply bind_Ok in Hok as (h & Hh%credential_exact & [= <-]). by constructor.
      * injection Hok as <-. by constructor.
    + intros Hl. inversion Hl as [| |text' bind raw' credential Hb Hremote Hc]; subst. exists bind. split; [done|].
      apply guard_Ok. split; [by apply remote_guard|]. destruct raw as [raw|], credential as [h|]; try done.
      apply credential_exact in Hc. by rewrite Hc.
Qed.
Lemma collect_exact {E A B} (f : A -> result E B) (R : A -> B -> Prop) l bs :
  (forall a b, f a = Ok b <-> R a b) -> collect f l = Ok bs <-> Forall2 R l bs.
Proof. intros Hf. rewrite collect_Ok. split; intros Hall; (eapply Forall2_impl; [exact Hall|]); intros; by apply Hf. Qed.
Lemma check_patterns_complete ids m ps :
  NoDup (map InspectionPattern.detector_id ps) -> (forall p, p ∈ ps -> DetectorId.as_str (InspectionPattern.detector_id p) ∉ ids) ->
  exists r, InspectionProgram.check_patterns ids m ps = Ok r.
Proof.
  revert ids m; induction ps as [|p ps IH]; intros ids m Hnd Hids; [by eexists|].
  apply NoDup_cons in Hnd as [Hp Hnd]. cbn. rewrite decide_False by (apply Hids; constructor). apply IH; [done|].
  intros q Hq. rewrite not_elem_of_union, not_elem_of_singleton. split; [|by apply Hids; constructor].
  intros Heq. apply Hp. replace (InspectionPattern.detector_id p) with (InspectionPattern.detector_id q).
  - by apply list_elem_of_fmap_2.
  - destruct (InspectionPattern.detector_id p), (InspectionPattern.detector_id q). cbn in Heq. by rewrite Heq.
Qed.
Lemma program_exact g ps program :
  InspectionProgram.new g ps = Ok program <->
  NoDup (map InspectionPattern.detector_id ps) /\ InspectionProgram.patterns program = ps /\ InspectionProgram.new g ps = Ok program.
Proof.
  split; [|naive_solver]. intros Hp. split; [|split; [|done]]; unfold InspectionProgram.new in Hp;
    apply bind_Ok in Hp as (m & Hm & [= <-]); [|done]. by apply check_patterns_Ok in Hm as [? _].
Qed.
Lemma permits_from raw : SafetyConfig.permits_non_loopback_bind (SafetyConfig.from raw) = RawSafety.allow_non_loopback raw.
Proof. by destruct raw as [[] ? ? ? ?]. Qed.

Lemma compile_configures (raw : RawConfig.t) (c : CompiledConfig.t) : compile_raw raw = Ok c -> configures raw c.
Proof.
  unfold compile_raw, CompiledConfig.validate, CompiledConfig.compile, ValidatedConfig.try_from.
  intros (v & Hv%map_err_Ok & Hc)%bind_Ok. apply guard_Ok in Hv as [Htui Hv]. apply guard_Ok in Hv as [Hne%bool_decide_eq_false Hv].
  apply bind_Ok in Hv as (limits & [Hlimits ->]%limits_exact & Hv). apply guard_Ok in Hv as [Hcontent Hv].
  apply bind_Ok in Hv as (capture & Hcapture%capture_exact & Hv). apply bind_Ok in Hv as (patterns & Hpatterns & Hv).
  apply bind_Ok in Hv as (tls & Htls%tls_exact & Hv). apply bind_Ok in Hv as (audit & Haudit%audit_exact & Hv).
  apply bind_Ok in Hv as (g & Hg%map_err_Ok & Hv). apply bind_Ok in Hv as (listeners & Hlisteners & [= <-]).
  unfold PolicyGeneration.new in Hg. destruct (N.eqb_spec (RawPolicy.generation (RawConfig.policy raw)) 0) as [|Hgen]; [done|].
  injection Hg as <-. cbn [ValidatedConfig.generation ValidatedConfig.rules ValidatedConfig.default_action ValidatedConfig.safety
    ValidatedConfig.patterns] in Hc. rewrite guard_new in Hc.
  apply bind_Ok in Hc as (policy & [Hpolicy Hpwf]%map_err_Ok%acl_policy_new_Ok & Hc). cbn [map_err] in Hc.
  apply bind_Ok in Hc as (guard & [= <-] & Hc). apply bind_Ok in Hc as (program & (Hnd & Hps & Hprogram)%map_err_Ok%program_exact & [= <-]).
  apply (collect_exact _ _ _ _ (pattern_exact _)) in Hpatterns. apply (collect_exact _ _ _ _ (listener_exact _)) in Hlisteners.
  rewrite <- Hps in Hprogram, Hnd, Hpatterns.
  split; cbn [CompiledConfig.runtime CompiledConfig.limits CompiledConfig.safety CompiledConfig.audit CompiledConfig.capture CompiledConfig.tls
    CompiledConfig.listeners CompiledConfig.policy CompiledConfig.destination_guard CompiledConfig.mode CompiledConfig.inspection
    ValidatedConfig.runtime ValidatedConfig.limits ValidatedConfig.safety ValidatedConfig.audit ValidatedConfig.capture ValidatedConfig.tls
    ValidatedConfig.listeners ValidatedConfig.mode]; try done.
  + intros Hi. rewrite bool_decide_true in Htui, Hcontent by done. cbn [andb] in Htui, Hcontent.
    split; [by apply negb_false_iff, bool_decide_eq_true in Htui|by apply N.ltb_ge in Hcontent].
  + by rewrite permits_from in Hlisteners.
Qed.
Lemma configures_compile (raw : RawConfig.t) (c : CompiledConfig.t) : configures raw c -> compile_raw raw = Ok c.
Proof.
  unfold compile_raw, CompiledConfig.validate, CompiledConfig.compile, ValidatedConfig.try_from.
  intros [Hrt Hint [Hne Hl] [Hsafe Hguard] [Hlim Hlimits] Haudit Hcapture Htls Hgen [Hpol Hpwf] (Hmode & Hprogram & Hnd & Hpats)].
  apply (collect_exact _ _ _ _ (pattern_exact _)) in Hpats. apply (collect_exact _ _ _ _ (listener_exact _)) in Hl.
  set (v := ValidatedConfig.Make (RawConfig.runtime raw) (SafetyConfig.from (RawConfig.safety raw)) (limits_of (RawConfig.limits raw))
    (CompiledConfig.audit c) (CompiledConfig.capture c) (CompiledConfig.mode c) (InspectionProgram.patterns (CompiledConfig.inspection c))
    (CompiledConfig.tls c) (PolicyGeneration.Make (RawPolicy.generation (RawConfig.policy raw)))
    (RawPolicy.default_action (RawConfig.policy raw)) (RawPolicy.rules (RawConfig.policy raw)) (CompiledConfig.listeners c)).
  apply bind_Ok_iff. exists v. split.
  + apply map_err_Ok, guard_Ok. split.
    { destruct (decide (rp_hooks (RawConfig.runtime raw) = Interactive)) as [Hi|Hi]; [|by rewrite bool_decide_false].
      destruct (Hint Hi) as [Hui _]. by rewrite (bool_decide_true (rp_ui _ = _)), andb_false_r. }
    apply guard_Ok. split; [by apply bool_decide_eq_false|]. apply bind_Ok_iff. exists (limits_of (RawConfig.limits raw)).
    split; [by apply limits_exact|]. apply guard_Ok. split.
    { destruct (decide (rp_hooks (RawConfig.runtime raw) = Interactive)) as [Hi|Hi]; [|by rewrite bool_decide_false].
      destruct (Hint Hi) as [_ Hle]. rewrite (proj2 (N.ltb_ge _ _)) by exact Hle. apply andb_false_r. }
    cbn [Limits.body_prefix_bytes limits_of]. rewrite (proj2 (capture_exact _ _ _) Hcapture). mcbn. unfold validate_patterns.
    rewrite Hpats. mcbn. rewrite (proj2 (tls_exact _ _) Htls). mcbn. rewrite (proj2 (audit_exact _ _) Haudit). mcbn.
    unfold PolicyGeneration.new. rewrite (proj2 (N.eqb_neq _ _)) by done. mcbn. unfold validate_all, v.
    rewrite permits_from, Hl. mcbn. by rewrite Hmode.
  + subst v. cbn [ValidatedConfig.generation ValidatedConfig.rules ValidatedConfig.default_action ValidatedConfig.safety
      ValidatedConfig.patterns ValidatedConfig.runtime ValidatedConfig.limits ValidatedConfig.audit ValidatedConfig.capture
      ValidatedConfig.mode ValidatedConfig.tls ValidatedConfig.listeners].
    rewrite (proj2 (acl_policy_new_Ok _ _ _ _) (conj Hpol Hpwf)). mcbn. rewrite guard_new. mcbn. rewrite Hprogram. mcbn.
    rewrite <- Hguard, <- Hsafe, <- Hlimits, <- Hrt. by destruct c.
Qed.

(** C18. Loading accepts exactly the configurations of the declarative reading, and
    compiles each of them to the one it describes: bounds that are positive, fit the
    machine and each other; endpoints and credentials that parse; listeners that stay on
    loopback or were opted in and ask for credentials; interactive hooks only with the
    terminal that answers them and room for the bodies they show; detectors that are
    distinct, not empty and no longer than what is inspected; rules the policy engine
    takes; and the built-in guard with the classes left closed. *)
Theorem configurations_compile_exactly (raw : RawConfig.t) (c : CompiledConfig.t) :
  compile_raw raw = Ok c <-> configures raw c.
Proof. split; [apply compile_configures|apply configures_compile]. Qed.

End Reading.
