(* ===== verification/Process.v ===== *)
(** The process around the data plane (crates/freja/src): the choice of a configuration,
    the services and settings built from it, reloading it on a signal, the creation of
    the audit segment and the end of the process.  What the operating system answers
    (files, signals, tasks, certificate loading) is an argument. *)
From stdpp Require Import gmap strings.
From stdpp Require Import prelude.
From S2P Require Import Prelude Bytes Net Endpoint Domain PolicyModel Acl Guard Inspection AuditModel AuditSink Hooks Runtime Settings Keys Config.

(** * Errors (lib.rs) *)

(** The innermost source and the contexts put around it, outermost first. *)
Record app_error : Type := AppError { contexts : list bytes; source : bytes }.
Definition app_msg (message : bytes) : app_error := AppError [] message.
Definition add_context (context : bytes) (e : app_error) : app_error := AppError (context :: contexts e) (source e).
Definition show_app_error (e : app_error) : bytes := match contexts e with [] => source e | c :: _ => c end.
(** [ResultExt::context]; [show] is the source's text. *)
Definition with_context {E A} (show : E -> bytes) (context : bytes) (r : result E A) : result app_error A :=
  map_err (fun e => add_context context (app_msg (show e))) r.

(** * The configuration (configuration.rs) *)

Definition BUILT_IN_HTTP_BIND : bytes := bs "127.0.0.1:8080".
Section Configuration.
Context `{TomlConfig, Hex}.
Definition built_in_configuration : RawConfig.t :=
  RawConfig.Make (RawConfig.runtime RawConfig.default) (RawConfig.safety RawConfig.default) (RawConfig.limits RawConfig.default)
    (RawConfig.audit RawConfig.default) (RawConfig.capture RawConfig.default) (RawConfig.inspection RawConfig.default)
    (RawConfig.tls RawConfig.default) (RawConfig.policy RawConfig.default)
    [RawHttpForward BUILT_IN_HTTP_BIND [Port.get Port.HTTPS] None].
(** [file] answers reading a path. *)
Definition compile_configuration (file : bytes -> option bytes) (path : option bytes) : result config_error CompiledConfig.t :=
  match path with
  | Some path => load path (file path)
  | None => compile_raw built_in_configuration
  end.
Definition configuration_description (path : option bytes) : bytes :=
  match path with Some path => bs "configuration " ++ path | None => bs "built-in default configuration" end.
End Configuration.

(** * Settings (proxy.rs) *)

Definition proxy_limits_of (l : Limits.t) : result app_error proxy_limits :=
  with_context show_settings_error (bs "compiled configuration contains invalid proxy limits")
    (proxy_limits_new (Limits.connections l) (Limits.header_bytes l) (Limits.body_prefix_bytes l)
       (Limits.connect_timeout l) (Limits.read_timeout l) (Limits.idle_timeout l)).
Definition capture_settings (c : CapturePolicy.t) : result app_error CaptureSettings.t :=
  match c with
  | CapturePolicy.MetadataOnly => Ok CaptureSettings.metadata_only
  | CapturePolicy.Prefix n =>
      with_context show_settings_error (bs "compiled configuration contains an invalid capture bound") (CaptureSettings.prefix n)
  end.
(** The settings [tls_interceptor] hands to the interceptor's constructor. *)
Definition tls_settings (c : tls_config) : result app_error (option TlsInterceptionConfig.t) :=
  match c with
  | TlsTunnel => Ok None
  | TlsIntercept i =>
      settings ← with_context show_settings_error (bs "compiled configuration contains invalid TLS interception settings")
        (TlsInterceptionConfig.new (tls_ca_certificate i) (tls_ca_private_key i) (tls_intercept_hosts i) (tls_leaf_cache_entries i));
      Ok (Some settings)
  end.
Definition ui_capture_settings (l : Limits.t) : result app_error UiCaptureSettings.t :=
  with_context show_settings_error (bs "compiled configuration contains invalid TUI capture limits")
    (UiCaptureSettings.new (Limits.ui_content_bytes l) (Limits.ui_retained_rows l)).

(** * The reload fingerprint *)

Module ReloadFingerprint.
Record t : Type := Make {
  listeners : list listener_spec;
  limits : Limits.t;
  tls : tls_config;
  ui : ui_mode;
  hooks : hook_mode;
  audit : AuditConfig.t;
  capture : CapturePolicy.t }.
#[global] Instance eq_dec : EqDecision t.
Proof. solve_decision. Defined.
Section Fingerprint.
Context `{IpNet, Hex}.
Definition from_config (c : CompiledConfig.t) : t :=
  Make (CompiledConfig.listeners c) (CompiledConfig.limits c) (CompiledConfig.tls c) (rp_ui (CompiledConfig.runtime c))
    (rp_hooks (CompiledConfig.runtime c)) (CompiledConfig.audit c) (CompiledConfig.capture c).
Definition incompatibility (f : t) (candidate : CompiledConfig.t) : option bytes :=
  if decide (listeners f <> CompiledConfig.listeners candidate) then Some (bs "listener topology or authentication changed")
  else if decide (limits f <> CompiledConfig.limits candidate) then Some (bs "resource limits changed")
  else if decide (tls f <> CompiledConfig.tls candidate) then Some (bs "TLS configuration changed")
  else if decide (ui f <> rp_ui (CompiledConfig.runtime candidate) \/ hooks f <> rp_hooks (CompiledConfig.runtime candidate))
  then Some (bs "UI or hook mode changed")
  else if decide (audit f <> CompiledConfig.audit candidate) then Some (bs "audit sink configuration changed")
  else if decide (capture f <> CompiledConfig.capture candidate) then Some (bs "capture configuration changed")
  else None.
End Fingerprint.
End ReloadFingerprint.

(** * Services (runtime/snapshot.rs) *)

(** [DataPlaneServices] without its metrics and the far ends of its channels; [events]
    tells whether a sink is attached. *)
Module Services.
Section Services.
Context `{IpNet, HeaderMap, Hex} {interceptor : Type}.
Record t : Type := DataPlaneServices {
  snapshot : policy_snapshot;
  audit : audit_publisher;
  events : bool;
  hooks : HookRunner.t http_request_head http_response_head;
  tls : option interceptor;
  interactive : option (InteractiveBroker.t bytes);
  capture_prefix_bytes : option N;
  ui_capture : option UiCaptureSettings.t }.
Definition no_hooks : HookRunner.registry http_request_head http_response_head := HookRunner.Registry [] [] [] [] [] [].
Definition new (policy : acl_policy) (guard : DestinationGuard.t) (mode : enforcement_mode) (publisher : audit_publisher) : t :=
  DataPlaneServices (PolicySnapshot policy guard mode Streaming (InspectionProgram.empty (Acl.generation policy))) publisher
    false (HookRunner.Make Disabled no_hooks HookFailClosed) None None None None.
Definition with_inspection (program : InspectionProgram.t) (mode : inspection_mode) (s : t) : t :=
  DataPlaneServices
    (PolicySnapshot (snapshot_policy (snapshot s)) (destination_guard (snapshot s)) (enforcement (snapshot s)) mode program)
    (audit s) (events s) (hooks s) (tls s) (interactive s) (capture_prefix_bytes s) (ui_capture s).
(** [reload] stores one snapshot that replaces every reloadable input. *)
Definition reload (policy : acl_policy) (guard : DestinationGuard.t) (mode : enforcement_mode) (program : InspectionProgram.t)
    (inspection : inspection_mode) (s : t) : t :=
  DataPlaneServices (PolicySnapshot policy guard mode inspection program)
    (audit s) (events s) (hooks s) (tls s) (interactive s) (capture_prefix_bytes s) (ui_capture s).
Definition with_event_sink (s : t) : t :=
  DataPlaneServices (snapshot s) (audit s) true (hooks s) (tls s) (interactive s) (capture_prefix_bytes s) (ui_capture s).
Definition with_hooks (runner : HookRunner.t http_request_head http_response_head) (s : t) : t :=
  DataPlaneServices (snapshot s) (audit s) (events s) runner (tls s) (interactive s) (capture_prefix_bytes s) (ui_capture s).
Definition with_tls_interceptor (i : interceptor) (s : t) : t :=
  DataPlaneServices (snapshot s) (audit s) (events s) (hooks s) (Some i) (interactive s) (capture_prefix_bytes s) (ui_capture s).
Definition with_interactive_broker (b : InteractiveBroker.t bytes) (s : t) : t :=
  DataPlaneServices (snapshot s) (audit s) (events s) (hooks s) (tls s) (Some b) (capture_prefix_bytes s) (ui_capture s).
Definition with_capture (c : CaptureSettings.t) (s : t) : t :=
  DataPlaneServices (snapshot s) (audit s) (events s) (hooks s) (tls s) (interactive s) (CaptureSettings.maximum_prefix_bytes c) (ui_capture s).
Definition with_ui_capture (c : UiCaptureSettings.t) (s : t) : t :=
  DataPlaneServices (snapshot s) (audit s) (events s) (hooks s) (tls s) (interactive s) (capture_prefix_bytes s) (Some c).
End Services.
Arguments t {_ _} _.
End Services.

(** * The audit segment (audit_writer.rs) *)

Definition MAXIMUM_SEGMENT_NAME_ATTEMPTS : nat := 100.
(** [{:02}]. *)
Definition show_two_digits (n : N) : bytes := if (n <? 10)%N then bs "0" ++ show_N n else show_N n.
(** [Path::join] of a relative name. *)
Definition path_join (directory name : bytes) : bytes :=
  match last directory with
  | None => name
  | Some b => if bool_decide (b = byte_of 47) then directory ++ name else directory ++ bs "/" ++ name
  end.
Inductive open_error : Type := AlreadyExists (text : bytes) | OtherError (text : bytes).
Definition show_open_error (e : open_error) : bytes := match e with AlreadyExists t | OtherError t => t end.
(** What the operating system answers the process. *)
Class Platform : Type := {
  (** A file's text and its permission bits. *)
  read_file : bytes -> option bytes;
  file_mode : bytes -> option N;
  (** Binding a listener after those already bound. *)
  bind_listener : list (listener_spec * socket_addr) -> listener_spec -> result bytes socket_addr;
  is_dir : bytes -> bool;
  (** [create_new] fails on the files that exist; on others it can fail as well. *)
  existing : gset bytes;
  already_exists : bytes;
  refuses : bytes -> option bytes;
  (** Milliseconds since the epoch, or the clock's error. *)
  clock : result bytes N;
  process_id : N;
  hangup_handler : result bytes unit;
  (** [initialize_tracing] and [initialize_tui_tracing]. *)
  tracing : ui_mode -> result bytes unit;
  spawn_tui : result bytes unit }.
Definition open_new_audit_segment `{Platform} (path : bytes) : result open_error unit :=
  if decide (path ∈ existing) then Err (AlreadyExists already_exists)
  else match refuses path with Some text => Err (OtherError text) | None => Ok tt end.
Definition segment_name `{Platform} (timestamp : N) (collision : nat) : bytes :=
  bs "freja-" ++ show_N timestamp ++ bs "-" ++ show_N process_id ++ bs "-" ++ show_two_digits (N.of_nat collision) ++ bs ".jsonl".
(** The loop over the collisions from [collision], [attempts] of them left. *)
Fixpoint allocate_segment `{Platform} (directory : bytes) (timestamp : N) (collision attempts : nat) : result app_error bytes :=
  match attempts with
  | 0 => Err (app_msg (bs "could not allocate a unique audit segment name in " ++ directory))
  | S attempts =>
      let path := path_join directory (segment_name timestamp collision) in
      match open_new_audit_segment path with
      | Ok _ => Ok path
      | Err (AlreadyExists _) => allocate_segment directory timestamp (S collision) attempts
      | Err e => Err (add_context (bs "could not create an audit segment in " ++ directory) (app_msg (show_open_error e)))
      end
  end.
Definition create_audit_segment `{Platform} (configured_path : bytes) : result app_error bytes :=
  if negb (is_dir configured_path) then
    _ ← with_context show_open_error (bs "could not create new audit segment " ++ configured_path) (open_new_audit_segment configured_path);
    Ok configured_path
  else
    timestamp ← with_context id (bs "system clock is before the Unix epoch") clock;
    allocate_segment configured_path timestamp 0 MAXIMUM_SEGMENT_NAME_ATTEMPTS.
(** The inputs [spawn_audit_writer] gives the drain: the new segment, the redacted query
    parameters and the checkpoints. *)
Record audit_writer : Type := AuditWriter { segment : bytes; redacted : list bytes; checkpoint : option checkpoint_schedule }.
Definition spawn_audit_writer `{Hex, Platform} (c : AuditConfig.t) : result app_error audit_writer :=
  path ← create_audit_segment (AuditConfig.path c);
  checkpoint ← match AuditConfig.signing c with
    | Some signing =>
        signer ← with_context show_checkpoint_key_error (bs "could not load audit checkpoint key " ++ key_path signing)
          (load_hex_seed file_mode read_file (key_path signing));
        schedule ← with_context show_checkpoint_key_error (bs "could not configure audit checkpoints")
          (ok_or ZeroInterval (checkpoint_schedule_new signer (Config.interval signing)));
        Ok (Some schedule)
    | None => Ok None
    end;
  Ok (AuditWriter path (AuditConfig.redact_query_parameters c) checkpoint).

(** * Starting the proxy (proxy.rs) *)

(** Start-up ends in an error or in a panic of the runtime's channels. *)
Inductive startup_failure : Type := Panicked | Failed (e : app_error).
Definition failing {A} (r : result app_error A) : result startup_failure A := map_err Failed r.
(** A semaphore panics above [MAX_PERMITS]; a channel also without capacity. *)
Definition semaphore (permits : N) : result startup_failure unit := if (MAX_PERMITS <? permits)%N then Err Panicked else Ok tt.
Definition mpsc_channel (capacity : N) : result startup_failure unit := if (capacity =? 0)%N then Err Panicked else semaphore capacity.
Definition audit_channel (capacity : N) (policy : audit_failure_policy) : result startup_failure audit_publisher :=
  publisher ← failing (with_context id (bs "could not create bounded audit channel")
    (ok_or (bs "audit channel capacity must be non-zero") (AuditModel.channel (N.to_nat capacity) policy)));
  _ ← mpsc_channel capacity; Ok publisher.
Definition show_intercept_error (e : intercept_error) : bytes :=
  match e with
  | Saturated => bs "maximum paused flows reached"
  | InterceptChannelClosed => bs "interactive request channel is closed"
  | InterceptTimedOut => bs "interactive decision timed out"
  | ResponderDropped => bs "interactive responder was dropped"
  end.
Definition interactive_channel (capacity paused : N) : result startup_failure (InteractiveBroker.t bytes) :=
  broker ← failing (with_context show_intercept_error (bs "could not create bounded interactive interception channel")
    (InteractiveBroker.channel (N.to_nat capacity) (N.to_nat paused) InterceptFailClosed));
  _ ← mpsc_channel capacity; _ ← semaphore paused; Ok broker.
Definition ui_channel (capacity : N) : result startup_failure unit :=
  if (capacity =? 0)%N
  then Err (Failed (add_context (bs "could not create bounded UI event channel") (app_msg (bs "UI channel capacity must be non-zero"))))
  else mpsc_channel capacity.

Section Start.
Context `{TomlConfig, HeaderMap, Hex, PemLibrary, Platform}.
Notation interceptor := loaded_interceptor.
Definition tls_interceptor (c : tls_config) : result app_error (option interceptor) :=
  settings ← tls_settings c;
  match settings with
  | None => Ok None
  | Some settings => i ← with_context show_tls_setup_error (bs "could not initialize TLS interception") (from_config file_mode read_file settings); Ok (Some i)
  end.
(** [attach_tui_services]; [tui] tells whether the terminal was prepared. *)
Definition attach_tui_services (tui : bool) (c : CompiledConfig.t) (s : Services.t interceptor) : result app_error (Services.t interceptor) :=
  if tui then
    ui_capture ← ui_capture_settings (CompiledConfig.limits c);
    Ok (Services.with_event_sink (Services.with_ui_capture ui_capture s))
  else Ok s.
(** The capacity of the repeat executor's two channels, when there is one. *)
Definition prepare_repeat_services (c : CompiledConfig.t) : result startup_failure (option N) :=
  if decide (rp_hooks (CompiledConfig.runtime c) <> Interactive) then Ok None
  else
    let capacity := Limits.ui_retained_rows (CompiledConfig.limits c) in
    _ ← mpsc_channel capacity; _ ← mpsc_channel capacity; Ok (Some capacity).
Definition prepare_services (tui : bool) (c : CompiledConfig.t) : result startup_failure (Services.t interceptor) :=
  capture ← failing (capture_settings (CompiledConfig.capture c));
  publisher ← audit_channel (AuditConfig.channel_capacity (CompiledConfig.audit c)) (AuditConfig.failure_policy (CompiledConfig.audit c));
  let services := Services.new (CompiledConfig.policy c) (CompiledConfig.destination_guard c)
                    (rp_enforcement (CompiledConfig.runtime c)) publisher in
  let services := Services.with_capture capture services in
  let services := Services.with_inspection (CompiledConfig.inspection c) (CompiledConfig.mode c) services in
  let services := Services.with_hooks
    (HookRunner.Make (rp_hooks (CompiledConfig.runtime c)) Services.no_hooks HookFailClosed) services in
  interceptor ← failing (tls_interceptor (CompiledConfig.tls c));
  let services := match interceptor with Some i => Services.with_tls_interceptor i services | None => services end in
  services ← if decide (rp_hooks (CompiledConfig.runtime c) = Interactive) then
      broker ← interactive_channel (Limits.ui_event_capacity (CompiledConfig.limits c)) (Limits.paused_flows (CompiledConfig.limits c));
      Ok (Services.with_interactive_broker broker services)
    else Ok services;
  failing (attach_tui_services tui c services).
(** [bind_configured_servers]: the bound servers, in the order of the listeners. *)
Definition listener_kind (l : listener_spec) : bytes :=
  match l with
  | TcpStatic _ => bs "could not bind static TCP listener "
  | HttpForward _ => bs "could not bind HTTP forward listener "
  | Socks5 _ => bs "could not bind SOCKS5 listener "
  end.
Fixpoint bind_servers (bound : list (listener_spec * socket_addr)) (listeners : list listener_spec)
  : result app_error (list (listener_spec * socket_addr)) :=
  match listeners with
  | [] => Ok bound
  | listener :: listeners =>
      address ← with_context id (listener_kind listener ++ ListenEndpoint.show (listener_bind listener)) (bind_listener bound listener);
      bind_servers (bound ++ [(listener, address)]) listeners
  end.
Definition bind_configured_servers (c : CompiledConfig.t) : result app_error (list (listener_spec * socket_addr)) :=
  bind_servers [] (CompiledConfig.listeners c).
(** A process up to the spawning of its listeners. *)
Record running : Type := Running {
  limits : proxy_limits;
  services : Services.t interceptor;
  repeat_capacity : option N;
  servers : list (listener_spec * socket_addr);
  writer : audit_writer;
  fingerprint : ReloadFingerprint.t;
  terminal : bool }.
Definition run_proxy (tui : bool) (c : CompiledConfig.t) : result startup_failure running :=
  limits ← failing (proxy_limits_of (CompiledConfig.limits c));
  services ← prepare_services tui c;
  repeat_capacity ← prepare_repeat_services c;
  servers ← failing (bind_configured_servers c);
  if decide (servers = []) then Err (Failed (app_msg (bs "configuration contains no runnable listeners")))
  else
    writer ← failing (spawn_audit_writer (CompiledConfig.audit c));
    _ ← failing (with_context id (bs "failed to install SIGHUP handler") hangup_handler);
    _ ← (if tui then failing (with_context id (bs "could not start terminal UI") spawn_tui) else Ok tt);
    Ok (Running limits services repeat_capacity servers writer (ReloadFingerprint.from_config c) tui).
Definition compile_for (debug : bytes -> bytes) (path : option bytes) : result app_error CompiledConfig.t :=
  with_context (show_config_error debug) (bs "could not compile " ++ configuration_description path)
    (compile_configuration read_file path).
Definition run_proxy_command (debug : bytes -> bytes) (path : option bytes) : result startup_failure running :=
  compiled ← failing (compile_for debug path);
  if decide (rp_ui (CompiledConfig.runtime compiled) = Tui) then
    _ ← ui_channel (Limits.ui_event_capacity (CompiledConfig.limits compiled));
    _ ← failing (with_context id (bs "failed to initialize TUI tracing") (tracing Tui));
    run_proxy true compiled
  else
    _ ← failing (with_context id (bs "failed to initialize tracing") (tracing Headless));
    run_proxy false compiled.
(** [check_config]: what it prints. *)
Definition check_config (debug : bytes -> bytes) (path : option bytes) : result app_error bytes :=
  compiled ← compile_for debug path;
  Ok (bs "configuration valid: " ++ show_N (N.of_nat (length (CompiledConfig.listeners compiled)))
      ++ bs " listener(s), policy generation " ++ show_N (PolicyGeneration.get (Acl.generation (CompiledConfig.policy compiled)))).

(** * Reloading on a hangup (proxy.rs) *)

(** One hangup; [contents] is what the configured file then holds. *)
Definition reload_on_hangup (path : option bytes) (f : ReloadFingerprint.t) (s : Services.t interceptor) (contents : option bytes)
  : Services.t interceptor :=
  match path with
  | None => s
  | Some path =>
      match load path contents with
      | Err _ => s
      | Ok candidate =>
          match ReloadFingerprint.incompatibility f candidate with
          | Some _ => s
          | None => Services.reload (CompiledConfig.policy candidate) (CompiledConfig.destination_guard candidate)
              (rp_enforcement (CompiledConfig.runtime candidate)) (CompiledConfig.inspection candidate) (CompiledConfig.mode candidate) s
          end
      end
  end.
Definition reload_task (path : option bytes) (f : ReloadFingerprint.t) (s : Services.t interceptor) (hangups : list (option bytes))
  : Services.t interceptor := foldl (reload_on_hangup path f) s hangups.
End Start.

(** * The end of the process (proxy.rs) *)

(** How a task joins: with its own result, or not at all.  Errors are their text. *)
Inductive joined : Type := Joined (r : result bytes unit) | JoinFailed (text : bytes).
(** What the first [select!] sees. *)
Inductive shutdown_trigger : Type :=
| SignalReceived (r : result app_error unit)
| ListenerEnded (j : option joined)
| TuiExited
| AuditWriterEnded (j : joined).
Definition wrapped (context text : bytes) : app_error := add_context context (app_msg text).
Definition early_listener_failure (j : option joined) : app_error :=
  match j with
  | Some (Joined (Ok _)) => app_msg (bs "listener exited before shutdown was requested")
  | Some (Joined (Err e)) => wrapped (bs "listener failed") e
  | Some (JoinFailed e) => wrapped (bs "listener task failed to join") e
  | None => app_msg (bs "all listener tasks stopped unexpectedly")
  end.
Definition early_audit_writer_failure (j : joined) : app_error :=
  match j with
  | Joined (Ok _) => app_msg (bs "audit writer exited unexpectedly")
  | Joined (Err e) => wrapped (bs "audit writer failed") e
  | JoinFailed e => wrapped (bs "audit writer task failed to join") e
  end.
Definition drained_listener_failure (j : joined) : option app_error :=
  match j with
  | Joined (Ok _) => None
  | Joined (Err e) => Some (wrapped (bs "listener failed during shutdown") e)
  | JoinFailed e => Some (wrapped (bs "listener task failed to join") e)
  end.
(** The first failure, and whether the audit writer has been joined. *)
Definition wait_for_shutdown_trigger (t : shutdown_trigger) : result app_error (option app_error * bool) :=
  match t with
  | SignalReceived r => _ ← r; Ok (None, false)
  | ListenerEnded j => Ok (Some (early_listener_failure j), false)
  | TuiExited => Ok (None, false)
  | AuditWriterEnded j => Ok (Some (early_audit_writer_failure j), true)
  end.
Definition join_audit_writer (j : joined) : result app_error unit :=
  match j with
  | Joined r => with_context id (bs "audit writer failed") r
  | JoinFailed e => Err (wrapped (bs "audit writer task failed to join") e)
  end.
Definition join_terminal (j : joined) : result app_error unit :=
  match j with
  | Joined r => with_context id (bs "terminal UI failed") r
  | JoinFailed _ => Err (app_msg (bs "terminal UI thread panicked"))
  end.
(** From the trigger on: the listeners that join while draining, the audit writer's end
    and the terminal thread's, when there is one. *)
Definition shut_down (t : shutdown_trigger) (drained : list joined) (audit_task : joined) (tui_thread : option joined)
  : result app_error unit :=
  '(first_failure, audit_completed_early) ← wait_for_shutdown_trigger t;
  let first_failure := foldl (fun failure j => match failure with None => drained_listener_failure j | _ => failure end) first_failure drained in
  _ ← (if (audit_completed_early : bool) then Ok tt else join_audit_writer audit_task);
  _ ← match tui_thread with Some j => join_terminal j | None => Ok tt end;
  match first_failure with Some e => Err e | None => Ok tt end.

(** * Commands (main.rs) *)

Inductive command : Type :=
| CheckConfig (config : option bytes)
| Run (config : option bytes)
| Replay (audit config : bytes) (checkpoint_public_key : option bytes).
Section Main.
Context `{TomlConfig, HeaderMap, Hex, PemLibrary, Platform}.
Notation interceptor := loaded_interceptor.
(** [run]: its parts that other files model are arguments. *)
Definition run (debug : bytes -> bytes) (proxy : option bytes -> result app_error unit)
    (replay : bytes -> bytes -> option bytes -> result app_error unit) (c : option command) : result app_error unit :=
  let initialize_tracing := with_context id (bs "failed to initialize tracing") (tracing Headless) in
  match c with
  | Some (CheckConfig config) => _ ← initialize_tracing; _ ← check_config debug config; Ok tt
  | Some (Run config) => proxy config
  | Some (Replay audit config key) => _ ← initialize_tracing; replay audit config key
  | None => proxy None
  end.
Definition exit_code (r : result app_error unit) : N := match r with Ok _ => 0 | Err _ => 1 end.
End Main.
