(* ===== verification/ProcessSafety.v ===== *)
(** What the process does with a configuration that compiles: it starts unless the
    platform refuses, exposes only authenticated listeners, never writes over an audit
    segment, installs only compatible reloads and reports exactly the failures. *)
From stdpp Require Import gmap strings.
From stdpp Require Import prelude.
From S2P Require Import Prelude Bytes Net Endpoint Domain PolicyModel Acl Guard Inspection AuditModel AuditSink Hooks Runtime Settings Keys Config ConfigSafety Process.

(** * Steps of a computation *)

Lemma with_context_Ok {E A} (show : E -> bytes) context (r : result E A) a : with_context show context r = Ok a <-> r = Ok a.
Proof. apply map_err_Ok. Qed.
Lemma with_context_Err {E A} (show : E -> bytes) context (r : result E A) x :
  with_context show context r = Err x -> exists e, r = Err e /\ x = add_context context (app_msg (show e)).
Proof. destruct r; cbn; [done|]. intros [= <-]. by eexists. Qed.
Lemma failing_Ok {A} (r : result app_error A) a : failing r = Ok a <-> r = Ok a.
Proof. apply map_err_Ok. Qed.

(** * Audit segments *)

Section Segments.
Context `{Platform}.
(** A path that can be created. *)
Definition creatable (path : bytes) : Prop := path ∉ existing /\ refuses path = None.
Lemma open_new_Ok path : open_new_audit_segment path = Ok tt <-> creatable path.
Proof.
  unfold open_new_audit_segment, creatable. case_decide; [naive_solver|]. destruct (refuses path); naive_solver.
Qed.
Lemma open_new_exists path t : open_new_audit_segment path = Err (AlreadyExists t) -> path ∈ existing.
Proof. unfold open_new_audit_segment. case_decide; [done|]. by destruct (refuses path). Qed.
Lemma open_new_existing path : path ∈ existing -> open_new_audit_segment path = Err (AlreadyExists already_exists).
Proof. intros Hin. unfold open_new_audit_segment. by rewrite decide_True. Qed.
Definition candidate (directory : bytes) (timestamp : N) (i : nat) : bytes := path_join directory (segment_name timestamp i).
Lemma allocate_Ok directory ts attempts : forall from s,
  allocate_segment directory ts from attempts = Ok s <->
  exists i, from <= i < from + attempts /\ s = candidate directory ts i /\ creatable s /\
    forall j, from <= j < i -> candidate directory ts j ∈ existing.
Proof.
  induction attempts as [|attempts IH]; intros from s; cbn [allocate_segment].
  - split; [done|]. intros (i & ? & _). lia.
  - fold (candidate directory ts from).
    destruct (open_new_audit_segment (candidate directory ts from)) as [[]|[t|t]] eqn:E.
    + pose proof E as Hfree. apply open_new_Ok in Hfree. split.
      * intros [= <-]. exists from. split; [lia|]. split; [done|]. split; [done|]. intros j ?. lia.
      * intros (i & Hi & -> & _ & Hj). destruct (decide (i = from)) as [->|]; [done|]. destruct (proj1 Hfree). apply Hj. lia.
    + rewrite IH. pose proof (open_new_exists _ _ E) as Hin. split; intros (i & Hi & Hs & Hfree & Hj); exists i.
      * split; [lia|]. split; [done|]. split; [done|]. intros j ?. destruct (decide (j = from)) as [->|]; [done|]. apply Hj. lia.
      * split; [|split; [done|split; [done|intros j ?; apply Hj; lia]]].
        destruct (decide (i = from)) as [->|]; [|lia]. subst s. by destruct Hfree.
    + split; [done|]. intros (i & Hi & -> & Hfree & Hj). destruct (decide (i = from)) as [->|].
      * apply open_new_Ok in Hfree. congruence.
      * rewrite open_new_existing in E; [done|]. apply Hj. lia.
Qed.
Lemma path_join_inj directory : Inj (=) (=) (path_join directory).
Proof.
  intros a b. unfold path_join. destruct (last directory); [|done]. case_bool_decide; [apply app_inv_head|].
  intros ?%app_inv_head. by apply (app_inv_head (bs "/")).
Qed.
Lemma candidates_differ directory ts i j : i < 100 -> j < 100 -> candidate directory ts i = candidate directory ts j -> i = j.
Proof.
  intros Hi Hj Heq%path_join_inj. unfold segment_name in Heq.
  do 5 apply app_inv_head in Heq. apply app_inv_tail in Heq.
  assert (Hnd : NoDup (map (fun i => show_two_digits (N.of_nat i)) (seq 0 100))) by (apply (bool_decide_unpack _); vm_compute; exact I).
  rewrite NoDup_alt in Hnd. apply (Hnd i j (show_two_digits (N.of_nat i))).
  - by rewrite list_lookup_fmap, lookup_seq_lt.
  - by rewrite list_lookup_fmap, lookup_seq_lt, Heq.
Qed.
Lemma create_segment_Ok path s :
  create_audit_segment path = Ok s <->
  (is_dir path = false /\ s = path /\ creatable s) \/
  (is_dir path = true /\ exists ts i, clock = Ok ts /\ i < 100 /\ s = candidate path ts i /\ creatable s /\
     forall j, j < i -> candidate path ts j ∈ existing).
Proof.
  unfold create_audit_segment. destruct (is_dir path) eqn:Hd; cbn [negb].
  - rewrite bind_Ok_iff. setoid_rewrite with_context_Ok. setoid_rewrite allocate_Ok. split.
    + intros (ts & Hts & i & Hi & Hs & Hfree & Hj). right. split; [done|]. exists ts, i.
      split; [done|]. split; [unfold MAXIMUM_SEGMENT_NAME_ATTEMPTS in Hi; lia|]. split; [done|]. split; [done|]. intros j ?. apply Hj. lia.
    + intros [(? & _)|(_ & ts & i & Hts & Hi & Hs & Hfree & Hj)]; [done|]. exists ts. split; [done|]. exists i.
      split; [unfold MAXIMUM_SEGMENT_NAME_ATTEMPTS; lia|]. split; [done|]. split; [done|]. intros j ?. apply Hj. lia.
  - rewrite bind_Ok_iff. setoid_rewrite with_context_Ok. split.
    + intros ([] & Hok%open_new_Ok & [= <-]). by left.
    + intros [(_ & -> & Hfree)|(? & _)]; [|done]. exists tt. split; [by apply open_new_Ok|done].
Qed.
(** A start never writes over an audit segment: the file it creates did not exist; it
    is the configured path itself, or, in a directory, the first of the hundred distinct
    names of its instant that is free; and it has one whenever one of them can be
    created and those before it exist. *)
Theorem audit_segments_are_new (path s : bytes) :
  (create_audit_segment path = Ok s <->
   (is_dir path = false /\ s = path /\ creatable s) \/
   (is_dir path = true /\ exists ts i, clock = Ok ts /\ i < 100 /\ s = candidate path ts i /\ creatable s /\
      forall j, j < i -> candidate path ts j ∈ existing)) /\
  forall ts i j, i < 100 -> j < 100 -> candidate path ts i = candidate path ts j -> i = j.
Proof. split; [apply create_segment_Ok|]. intros ts i j. apply candidates_differ. Qed.
End Segments.

(** * Starting *)

Section Starting.
Context `{TomlConfig, HeaderMap, Hex, PemLibrary, Platform}.
Notation interceptor := loaded_interceptor.
Implicit Types (c : CompiledConfig.t) (s : Services.t interceptor).
(** The bounded channels and semaphores the configuration asks for can be made. *)
Definition channels_fit c : Prop :=
  (AuditConfig.channel_capacity (CompiledConfig.audit c) <= MAX_PERMITS)%N /\
  (rp_hooks (CompiledConfig.runtime c) = Interactive ->
     (Limits.ui_event_capacity (CompiledConfig.limits c) <= MAX_PERMITS)%N /\
     (Limits.paused_flows (CompiledConfig.limits c) <= MAX_PERMITS)%N /\
     (Limits.ui_retained_rows (CompiledConfig.limits c) <= MAX_PERMITS)%N).
(** Start-up errors that are the platform's answers. *)
Inductive platform_failure (tui : bool) c : app_error -> Prop :=
| interceptor_failed i e :
    CompiledConfig.tls c = TlsIntercept i ->
    from_config file_mode read_file (TlsInterceptionConfig.Make (tls_ca_certificate i) (tls_ca_private_key i) (tls_intercept_hosts i) (tls_leaf_cache_entries i))
      = Err e ->
    platform_failure tui c (wrapped (bs "could not initialize TLS interception") (show_tls_setup_error e))
| bind_failed bound l text :
    l ∈ CompiledConfig.listeners c -> bind_listener bound l = Err text ->
    platform_failure tui c (wrapped (listener_kind l ++ ListenEndpoint.show (listener_bind l)) text)
| segment_failed e : create_audit_segment (AuditConfig.path (CompiledConfig.audit c)) = Err e -> platform_failure tui c e
| signing_key_failed signing e :
    AuditConfig.signing (CompiledConfig.audit c) = Some signing -> load_hex_seed file_mode read_file (key_path signing) = Err e ->
    platform_failure tui c (wrapped (bs "could not load audit checkpoint key " ++ key_path signing) (show_checkpoint_key_error e))
| hangup_failed text : hangup_handler = Err text -> platform_failure tui c (wrapped (bs "failed to install SIGHUP handler") text)
| terminal_failed text : tui = true -> spawn_tui = Err text -> platform_failure tui c (wrapped (bs "could not start terminal UI") text).
(** The decision inputs a configuration gives. *)
Definition configured_snapshot c : policy_snapshot :=
  PolicySnapshot (CompiledConfig.policy c) (CompiledConfig.destination_guard c) (rp_enforcement (CompiledConfig.runtime c))
    (CompiledConfig.mode c) (CompiledConfig.inspection c).
(** The process a configuration describes. *)
Record runs_configuration (tui : bool) c (r : running ) : Prop := {
  runs_listeners : map fst (servers r) = CompiledConfig.listeners c;
  runs_snapshot : Services.snapshot (services r) = configured_snapshot c;
  runs_hooks : HookRunner.mode (Services.hooks (services r)) = rp_hooks (CompiledConfig.runtime c);
  runs_interactive : is_Some (Services.interactive (services r)) <-> rp_hooks (CompiledConfig.runtime c) = Interactive;
  runs_repeats : repeat_capacity r = (if decide (rp_hooks (CompiledConfig.runtime c) = Interactive)
                   then Some (Limits.ui_retained_rows (CompiledConfig.limits c)) else None);
  runs_tls : is_Some (Services.tls (services r)) <-> CompiledConfig.tls c <> TlsTunnel;
  runs_capture : Services.capture_prefix_bytes (services r)
    = match CompiledConfig.capture c with CapturePolicy.MetadataOnly => None | CapturePolicy.Prefix n => Some n end;
  runs_terminal : terminal r = tui /\ Services.events (services r) = tui /\
    Services.ui_capture (services r) = (if tui then Some (UiCaptureSettings.Make (Limits.ui_content_bytes (CompiledConfig.limits c))
      (Limits.ui_retained_rows (CompiledConfig.limits c))) else None);
  runs_audit : failure_policy (Services.audit (services r)) = AuditConfig.failure_policy (CompiledConfig.audit c) /\
    redacted (writer r) = AuditConfig.redact_query_parameters (CompiledConfig.audit c) /\
    create_audit_segment (AuditConfig.path (CompiledConfig.audit c)) = Ok (segment (writer r)) /\
    (is_Some (checkpoint (writer r)) <-> is_Some (AuditConfig.signing (CompiledConfig.audit c)));
  runs_fingerprint : fingerprint r = ReloadFingerprint.from_config c }.
(** What compilation leaves to be used when starting. *)
Record startable c : Prop := {
  startable_limits : Forall (fun v => (0 < v)%N)
    [Limits.connections (CompiledConfig.limits c); Limits.header_bytes (CompiledConfig.limits c);
     Limits.body_prefix_bytes (CompiledConfig.limits c); Limits.connect_timeout (CompiledConfig.limits c);
     Limits.read_timeout (CompiledConfig.limits c); Limits.idle_timeout (CompiledConfig.limits c);
     Limits.paused_flows (CompiledConfig.limits c); Limits.ui_event_capacity (CompiledConfig.limits c);
     Limits.ui_content_bytes (CompiledConfig.limits c); Limits.ui_retained_rows (CompiledConfig.limits c)];
  startable_capture : match CompiledConfig.capture c with CapturePolicy.MetadataOnly => True | CapturePolicy.Prefix n => (0 < n)%N end;
  startable_tls : match CompiledConfig.tls c with TlsTunnel => True
    | TlsIntercept i => tls_intercept_hosts i <> [] /\ (0 < tls_leaf_cache_entries i)%N end;
  startable_audit : (0 < AuditConfig.channel_capacity (CompiledConfig.audit c))%N /\
    match AuditConfig.signing (CompiledConfig.audit c) with None => True | Some signing => (0 < Config.interval signing)%N end;
  startable_listeners : CompiledConfig.listeners c <> [] }.
Lemma configured_startable raw c : configures raw c -> startable c.
Proof.
  intros Hc. destruct Hc as [_ _ [Hne Hl] _ [[Hlim _] Hlimits] Haudit Hcapture Htls _ _ _]. split.
  - rewrite Hlimits. rewrite !Forall_cons, !Forall_nil in *. destruct_and!. by split_and!.
  - destruct (RawConfig.capture raw); cbn in Hcapture; [by rewrite Hcapture|]. destruct Hcapture as [[? _] ->]. done.
  - unfold tls_ok in Htls. destruct (RawTls.handling _); [by rewrite Htls|]. by destruct Htls as (? & ? & _ & _ & ? & ? & ->).
  - destruct Haudit as (? & Hi & ->). cbn. split; [done|].
    destruct (RawAudit.checkpoint_signing_key _); [|done]. by destruct Hi.
  - apply Forall2_length in Hl. by destruct (CompiledConfig.listeners c), (RawConfig.listeners raw).
Qed.

(** An outcome that is as expected, a channel too large or the platform's refusal. *)
Definition starts {A} (tui : bool) c (Q : A -> Prop) (r : result startup_failure A) : Prop :=
  match r with
  | Ok a => Q a
  | Err Panicked => ~ channels_fit c
  | Err (Failed e) => platform_failure tui c e
  end.
Lemma starts_bind {A B} tui c (Q : A -> Prop) (R : B -> Prop) (r : result startup_failure A) f :
  starts tui c Q r -> (forall a, Q a -> starts tui c R (f a)) -> starts tui c R (r ≫= f).
Proof. intros Hr Hf. destruct r as [a|[|e]]; [by apply Hf|done|done]. Qed.
Lemma starts_ok {A} tui c (Q : A -> Prop) (r : result app_error A) a : r = Ok a -> Q a -> starts tui c Q (failing r).
Proof. by intros ->. Qed.
Lemma starts_permits {A} tui c (Q : A -> Prop) n (k : result startup_failure A) :
  (~ (n <= MAX_PERMITS)%N -> ~ channels_fit c) -> ((n <= MAX_PERMITS)%N -> starts tui c Q k) ->
  starts tui c Q (semaphore n ≫= fun _ => k).
Proof.
  intros Hbig Hk. unfold semaphore. destruct (N.ltb_spec MAX_PERMITS n); [apply Hbig; lia|by apply Hk].
Qed.
Lemma mpsc_positive n : (0 < n)%N -> mpsc_channel n = semaphore n.
Proof. intros ?. unfold mpsc_channel. by rewrite (proj2 (N.eqb_neq n 0)) by lia. Qed.
Lemma proxy_limits_ok c :
  startable c -> proxy_limits_of (CompiledConfig.limits c)
    = Ok (ProxyLimits (Limits.connections (CompiledConfig.limits c)) (Limits.header_bytes (CompiledConfig.limits c))
        (Limits.body_prefix_bytes (CompiledConfig.limits c)) (Limits.connect_timeout (CompiledConfig.limits c))
        (Limits.read_timeout (CompiledConfig.limits c)) (Limits.idle_timeout (CompiledConfig.limits c))).
Proof.
  intros [Hl _ _ _ _]. apply with_context_Ok, proxy_limits_new_ok. split; [done|].
  rewrite !Forall_cons in Hl. destruct_and!. unfold limits_wf. rewrite !Forall_cons, Forall_nil. by split_and!.
Qed.
Lemma capture_settings_ok c :
  startable c -> capture_settings (CompiledConfig.capture c)
    = Ok (CaptureSettings.Make match CompiledConfig.capture c with CapturePolicy.MetadataOnly => None | CapturePolicy.Prefix n => Some n end).
Proof.
  intros [_ Hc _ _ _]. destruct (CompiledConfig.capture c) as [|n]; [done|].
  unfold capture_settings, CaptureSettings.prefix, non_zero. by rewrite decide_False by lia.
Qed.
Lemma starts_audit tui c :
  startable c ->
  starts tui c (fun p => failure_policy p = AuditConfig.failure_policy (CompiledConfig.audit c) /\
                         (AuditConfig.channel_capacity (CompiledConfig.audit c) <= MAX_PERMITS)%N)
    (audit_channel (AuditConfig.channel_capacity (CompiledConfig.audit c)) (AuditConfig.failure_policy (CompiledConfig.audit c))).
Proof.
  intros [_ _ _ [Hpos _] _]. unfold audit_channel, AuditModel.channel. rewrite decide_False by lia.
  rewrite mpsc_positive by done. cbn [ok_or with_context map_err failing mbind result_bind].
  apply starts_permits; [intros ? [? _]; done|done].
Qed.
Lemma audit_channel_panics c :
  startable c -> (MAX_PERMITS < AuditConfig.channel_capacity (CompiledConfig.audit c))%N -> forall tui, run_proxy tui c = Err Panicked.
Proof.
  intros Hs Hbig tui. unfold run_proxy, prepare_services. rewrite proxy_limits_ok, capture_settings_ok by done.
  cbn [failing map_err mbind result_bind]. unfold audit_channel, AuditModel.channel. rewrite decide_False by lia.
  rewrite mpsc_positive by lia. unfold semaphore. by rewrite (proj2 (N.ltb_lt _ _) Hbig).
Qed.
Lemma starts_interactive tui c :
  startable c -> rp_hooks (CompiledConfig.runtime c) = Interactive ->
  starts tui c (fun _ => (Limits.ui_event_capacity (CompiledConfig.limits c) <= MAX_PERMITS)%N /\
                         (Limits.paused_flows (CompiledConfig.limits c) <= MAX_PERMITS)%N)
    (interactive_channel (Limits.ui_event_capacity (CompiledConfig.limits c)) (Limits.paused_flows (CompiledConfig.limits c))).
Proof.
  intros [Hl _ _ _ _] Hi. rewrite !Forall_cons in Hl. destruct_and!. unfold interactive_channel, InteractiveBroker.channel.
  rewrite decide_False by lia. rewrite mpsc_positive by done. cbn [ok_or with_context map_err failing mbind result_bind].
  apply starts_permits; [intros ? [_ Hfit]; naive_solver|]. intros ?.
  apply starts_permits; [intros ? [_ Hfit]; naive_solver|]. done.
Qed.
Lemma starts_repeats tui c :
  startable c ->
  starts tui c (fun n => n = (if decide (rp_hooks (CompiledConfig.runtime c) = Interactive)
                   then Some (Limits.ui_retained_rows (CompiledConfig.limits c)) else None) /\
                  (rp_hooks (CompiledConfig.runtime c) = Interactive -> (Limits.ui_retained_rows (CompiledConfig.limits c) <= MAX_PERMITS)%N))
    (prepare_repeat_services c).
Proof.
  intros [Hl _ _ _ _]. rewrite !Forall_cons in Hl. destruct_and!. unfold prepare_repeat_services.
  destruct (decide (rp_hooks (CompiledConfig.runtime c) = Interactive)) as [Hi|Hi].
  - rewrite decide_False by naive_solver. rewrite mpsc_positive by done.
    apply starts_permits; [intros ? [_ Hfit]; naive_solver|]. intros ?.
    apply starts_permits; [intros ? [_ Hfit]; naive_solver|]. done.
  - by rewrite decide_True by done.
Qed.
Lemma tls_settings_ok c :
  startable c -> tls_settings (CompiledConfig.tls c) = Ok match CompiledConfig.tls c with TlsTunnel => None
    | TlsIntercept i => Some (TlsInterceptionConfig.Make (tls_ca_certificate i) (tls_ca_private_key i) (tls_intercept_hosts i) (tls_leaf_cache_entries i)) end.
Proof.
  intros [_ _ Htls _ _]. destruct (CompiledConfig.tls c) as [|i]; [done|]. destruct Htls as [Hne Hpos].
  unfold tls_settings, TlsInterceptionConfig.new, non_zero. destruct (tls_intercept_hosts i); [done|].
  by rewrite decide_False by lia.
Qed.
Lemma starts_tls tui c :
  startable c -> starts tui c (fun o => is_Some o <-> CompiledConfig.tls c <> TlsTunnel) (failing (tls_interceptor (CompiledConfig.tls c))).
Proof.
  intros Hs. unfold tls_interceptor. rewrite tls_settings_ok by done. cbn [mbind result_bind].
  destruct (CompiledConfig.tls c) as [|i] eqn:Ht; [split; [by intros []|done]|].
  destruct (from_config _ _ _) as [x|text] eqn:E; cbn; [split; [done|by eexists]|]. by eapply interceptor_failed.
Qed.
Lemma starts_servers tui c :
  starts tui c (fun l => map fst l = CompiledConfig.listeners c) (failing (bind_configured_servers c)).
Proof.
  unfold bind_configured_servers.
  enough (Hgen : forall l bound, (forall x, x ∈ l -> x ∈ CompiledConfig.listeners c) ->
    starts tui c (fun r => map fst r = map fst bound ++ l) (failing (bind_servers bound l))).
  { eapply (Hgen _ []). done. }
  induction l as [|l ls IH]; intros bound Hin; cbn [bind_servers failing map_err starts]; [by rewrite app_nil_r|].
  destruct (bind_listener bound l) as [a|text] eqn:E; cbn [with_context map_err mbind result_bind].
  - pose proof (IH (bound ++ [(l, a)])) as Hrest. rewrite map_app, <- app_assoc in Hrest. apply Hrest.
    intros x ?. apply Hin. by constructor.
  - eapply bind_failed; [|done]. apply Hin. by constructor.
Qed.
Lemma starts_writer tui c :
  startable c ->
  starts tui c (fun w => redacted w = AuditConfig.redact_query_parameters (CompiledConfig.audit c) /\
      create_audit_segment (AuditConfig.path (CompiledConfig.audit c)) = Ok (segment w) /\
      (is_Some (checkpoint w) <-> is_Some (AuditConfig.signing (CompiledConfig.audit c))))
    (failing (spawn_audit_writer (CompiledConfig.audit c))).
Proof.
  intros [_ _ _ [_ Hsigning] _]. unfold spawn_audit_writer.
  destruct (create_audit_segment _) as [path|e] eqn:E; cbn [mbind result_bind failing map_err]; [|by constructor].
  destruct (AuditConfig.signing _) as [signing|] eqn:Es; [|by split_and!; [| |split; intros [? [=]]]].
  destruct (load_hex_seed _ _ _) as [seed|text] eqn:El; cbn [with_context map_err mbind result_bind].
  - unfold checkpoint_schedule_new. rewrite (proj2 (N.eqb_neq _ 0)) by lia. cbn. split; [done|]. split; [done|].
    split; by eexists.
  - by eapply signing_key_failed.
Qed.
Lemma ui_capture_settings_ok c :
  startable c -> ui_capture_settings (CompiledConfig.limits c)
    = Ok (UiCaptureSettings.Make (Limits.ui_content_bytes (CompiledConfig.limits c)) (Limits.ui_retained_rows (CompiledConfig.limits c))).
Proof.
  intros [Hl _ _ _ _]. rewrite !Forall_cons in Hl. destruct_and!.
  unfold ui_capture_settings, UiCaptureSettings.new, non_zero. by rewrite !decide_False by lia.
Qed.
(** The services before the terminal is attached, and after. *)
Record prepared (tui : bool) c s : Prop := {
  prepared_fit : (AuditConfig.channel_capacity (CompiledConfig.audit c) <= MAX_PERMITS)%N /\
    (rp_hooks (CompiledConfig.runtime c) = Interactive ->
       (Limits.ui_event_capacity (CompiledConfig.limits c) <= MAX_PERMITS)%N /\
       (Limits.paused_flows (CompiledConfig.limits c) <= MAX_PERMITS)%N);
  prepared_snapshot : Services.snapshot s = configured_snapshot c;
  prepared_hooks : HookRunner.mode (Services.hooks s) = rp_hooks (CompiledConfig.runtime c);
  prepared_interactive : is_Some (Services.interactive s) <-> rp_hooks (CompiledConfig.runtime c) = Interactive;
  prepared_tls : is_Some (Services.tls s) <-> CompiledConfig.tls c <> TlsTunnel;
  prepared_capture : Services.capture_prefix_bytes s
    = match CompiledConfig.capture c with CapturePolicy.MetadataOnly => None | CapturePolicy.Prefix n => Some n end;
  prepared_terminal : Services.events s = tui /\ Services.ui_capture s
    = (if tui then Some (UiCaptureSettings.Make (Limits.ui_content_bytes (CompiledConfig.limits c))
         (Limits.ui_retained_rows (CompiledConfig.limits c))) else None);
  prepared_audit : failure_policy (Services.audit s) = AuditConfig.failure_policy (CompiledConfig.audit c) }.
Lemma starts_services tui c : startable c -> starts tui c (prepared tui c) (prepare_services tui c).
Proof.
  intros Hs. unfold prepare_services. eapply starts_bind; [by eapply starts_ok, eq_refl; apply capture_settings_ok|].
  intros ? <-. eapply starts_bind; [by apply starts_audit|]. intros p [Hpolicy Haudit].
  eapply starts_bind; [by apply starts_tls|]. intros tls Htls.
  eapply (starts_bind _ _ (prepared false c)).
  - case_decide as Hi.
    + eapply starts_bind; [by apply starts_interactive|]. intros b Hb. destruct tls; split; cbn; try done; split; done || by eexists.
    + destruct tls; split; cbn; try done; split; done || intros [? [=]].
  - intros s Hp. unfold attach_tui_services. destruct tui; cbn [failing map_err]; [|done].
    rewrite ui_capture_settings_ok by done. destruct Hp. by split.
Qed.
Lemma starts_proxy tui c : startable c -> starts tui c (fun r => channels_fit c /\ runs_configuration tui c r) (run_proxy tui c).
Proof.
  intros Hs. unfold run_proxy. eapply starts_bind; [by eapply starts_ok, eq_refl; apply proxy_limits_ok|]. intros ? _.
  eapply starts_bind; [by apply starts_services|]. intros s [Hfit ? ? ? ? ? [? ?] ?].
  eapply starts_bind; [by apply starts_repeats|]. intros rep [Hrep Hrows].
  eapply starts_bind; [by apply starts_servers|]. intros l Hl. rewrite decide_False.
  2: { intros ->. destruct Hs as [_ _ _ _ Hne]. by destruct Hne. }
  eapply starts_bind; [by apply starts_writer|]. intros w (? & ? & ?).
  apply (starts_bind _ _ (fun _ => True)).
  { destruct hangup_handler eqn:E; [done|]. by constructor. }
  intros _ _. apply (starts_bind _ _ (fun _ => True)).
  { destruct tui; [|done]. destruct spawn_tui eqn:E; [done|]. by constructor. }
  intros _ _. cbn. split; [|by split]. unfold channels_fit. naive_solver.
Qed.
(** C27. A configuration that compiles starts: from every raw configuration that compiles,
    start-up either runs the process it describes (its listeners in order, its policy,
    guard and inspection as one snapshot, its hook mode with a broker and a repeat
    executor exactly when hooks are interactive, its capture, its redaction, a new audit
    segment), or stops at an answer of the platform (a certificate or key that does not
    load, an address that does not bind, a file that cannot be created, a handler), or
    panics, which happens only when a bounded channel is asked for more permits than the
    runtime has.  No other error of start-up is reachable. *)
Theorem compiled_configurations_start (tui : bool) (raw : RawConfig.t) c :
  compile_raw raw = Ok c ->
  match run_proxy tui c with
  | Ok r => channels_fit c /\ runs_configuration tui c r
  | Err Panicked => ~ channels_fit c
  | Err (Failed e) => platform_failure tui c e
  end.
Proof. intros Hc%compile_configures. apply starts_proxy. by eapply configured_startable. Qed.
End Starting.

(** * Exposure *)

Section Exposure.
Context `{TomlConfig, HeaderMap, Hex, PemLibrary, Platform}.
Notation interceptor := loaded_interceptor.
(** The raw configuration a path selects. *)
Definition selects (path : option bytes) (raw : RawConfig.t) : Prop :=
  match path with None => raw = built_in_configuration | Some path => read path (read_file path) = Ok raw end.
Definition authenticated (l : listener_spec) : Prop :=
  match l with
  | HttpForward l => HttpForwardListener.authentication l <> None
  | Socks5 l => socks_authentication l <> None
  | TcpStatic _ => False
  end.
Lemma compile_selected path c : compile_configuration read_file path = Ok c -> exists raw, selects path raw /\ compile_raw raw = Ok c.
Proof.
  destruct path as [path|]; cbn; [|by eexists]. unfold load. intros (raw & Hr & Hc)%bind_Ok. by exists raw.
Qed.
Lemma listener_ok_exposed allow raw l :
  listener_ok allow raw l -> ListenEndpoint.is_loopback (listener_bind l) = true \/ (allow = true /\ authenticated l).
Proof.
  intros Hl. destruct Hl as [text bind ports raw a [_ Hb] Hremote _ _ Ha|text bind upstream e _ Hloop _|text bind raw h [_ Hb] Hremote Hh]; cbn.
  - destruct (ListenEndpoint.is_loopback bind); [by left|right]. destruct Hb as [|Hb], Hremote as [|Hr]; try done.
    split; [done|]. by destruct raw, a.
  - by left.
  - destruct (ListenEndpoint.is_loopback bind); [by left|right]. destruct Hb as [|Hb], Hremote as [|Hr]; try done.
    split; [done|]. by destruct raw, h.
Qed.
Lemma run_proxy_servers tui c r : run_proxy tui c = Ok r -> map fst (servers r) = CompiledConfig.listeners c.
Proof.
  unfold run_proxy. intros Hr. apply bind_Ok in Hr as (? & _ & Hr). apply bind_Ok in Hr as (? & _ & Hr).
  apply bind_Ok in Hr as (? & _ & Hr). apply bind_Ok in Hr as (l & Hl & Hr). case_decide; [done|].
  apply bind_Ok in Hr as (? & _ & Hr). apply bind_Ok in Hr as (? & _ & Hr). apply bind_Ok in Hr as (? & _ & [= <-]).
  pose proof (starts_servers false c) as Hs. by rewrite Hl in Hs.
Qed.
Lemma started_servers_exposed (debug : bytes -> bytes) (path : option bytes) (r : running ) :
  run_proxy_command debug path = Ok r ->
  exists raw, selects path raw /\
    Forall (fun l => ListenEndpoint.is_loopback (listener_bind l) = true \/
                     (RawSafety.allow_non_loopback (RawConfig.safety raw) = true /\ authenticated l))
      (map fst (servers r)).
Proof.
  unfold run_proxy_command. intros (c & Hc%failing_Ok%with_context_Ok & Hr)%bind_Ok.
  apply compile_selected in Hc as (raw & Hsel & Hc). exists raw. split; [done|].
  assert (Hs : map fst (servers r) = CompiledConfig.listeners c).
  { case_decide; apply bind_Ok in Hr as (? & _ & Hr); [apply bind_Ok in Hr as (? & _ & Hr)|]; by eapply run_proxy_servers. }
  rewrite Hs. apply compile_configures in Hc as [_ _ [_ Hl] _ _ _ _ _ _ _ _].
  clear -Hl. induction Hl; constructor; [by eapply listener_ok_exposed|done].
Qed.
(** C7. Nothing is exposed by accident: once the process runs, from its file or from the
    built-in configuration, every server listens on a loopback address, or the
    configuration that was selected opted in to remote listeners and the server is an
    HTTP or SOCKS5 proxy that asks for credentials. *)
Theorem exposed_servers_are_authenticated (debug : bytes -> bytes) (path : option bytes) (r : running ) :
  run_proxy_command debug path = Ok r ->
  exists raw, selects path raw /\
    Forall (fun l => ListenEndpoint.is_loopback (listener_bind l) = true \/
                     (RawSafety.allow_non_loopback (RawConfig.safety raw) = true /\ authenticated l))
      (map fst (servers r)).
Proof. apply started_servers_exposed. Qed.
End Exposure.

(** * Reloads *)

Section Reloads.
Context `{TomlConfig, HeaderMap, Hex, PemLibrary, Platform}.
Notation interceptor := loaded_interceptor.
Implicit Types (s : Services.t interceptor) (f : ReloadFingerprint.t).
Lemma incompatibility_None f c : ReloadFingerprint.incompatibility f c = None <-> ReloadFingerprint.from_config c = f.
Proof.
  unfold ReloadFingerprint.incompatibility. split.
  - intros Hnone. repeat case_decide; try done. destruct f; unfold ReloadFingerprint.from_config. cbn in *.
    f_equal; apply dec_stable; naive_solver.
  - intros <-. cbn. by rewrite !decide_False by naive_solver.
Qed.
(** The candidates a file offered that keep what cannot be reloaded. *)
Definition accepted (path : option bytes) f (contents : option bytes) : option CompiledConfig.t :=
  path ← path;
  match load path contents with
  | Ok c => if decide (ReloadFingerprint.from_config c = f) then Some c else None
  | Err _ => None
  end.
Definition install s c : Services.t interceptor :=
  Services.DataPlaneServices (configured_snapshot c) (Services.audit s) (Services.events s) (Services.hooks s) (Services.tls s)
    (Services.interactive s) (Services.capture_prefix_bytes s) (Services.ui_capture s).
Lemma reload_step path f s contents :
  reload_on_hangup path f s contents = match accepted path f contents with Some c => install s c | None => s end.
Proof.
  unfold reload_on_hangup, accepted. destruct path as [path|]; [|done]. cbn [mbind option_bind].
  destruct (load path contents) as [c|e]; [|done].
  destruct (ReloadFingerprint.incompatibility f c) eqn:E.
  - rewrite decide_False; [done|]. rewrite <- incompatibility_None. by rewrite E.
  - rewrite decide_True; [done|]. by apply incompatibility_None.
Qed.
Lemma reload_task_last path f s (hangups : list (option bytes)) :
  reload_task path f s hangups = match last (omap (accepted path f) hangups) with Some c => install s c | None => s end.
Proof.
  unfold reload_task. induction hangups as [|contents hangups IH] using rev_ind; [done|].
  rewrite foldl_snoc, IH, reload_step, omap_app. cbn [omap list_omap].
  destruct (accepted path f contents) as [c|]; [|by rewrite app_nil_r]. rewrite last_snoc.
  by destruct (last (omap _ hangups)).
Qed.
Lemma accepted_spec path f contents c : accepted path f contents = Some c <->
  exists p raw, path = Some p /\ read p contents = Ok raw /\ configures raw c /\ ReloadFingerprint.from_config c = f.
Proof.
  unfold accepted. destruct path as [path|]; cbn [mbind option_bind]; [|split; [done|by intros (? & ? & ? & _)]]. unfold load. split.
  - destruct (read path contents) as [raw|] eqn:E; cbn [mbind result_bind]; [|done].
    destruct (compile_raw raw) as [c'|] eqn:Ec; [|done]. case_decide; [|done]. intros [= <-].
    exists path, raw. split_and!; try done. by apply compile_configures.
  - intros (p & raw & [= <-] & -> & Hc & Hf). apply configures_compile in Hc. cbn [mbind result_bind]. by rewrite Hc, decide_True.
Qed.
(** C23. A reload is all or nothing: whatever the file holds at each hangup, the services
    are those the process started with, with the policy, guard, enforcement and
    inspection of the last candidate accepted, all from that one candidate; a candidate
    is accepted exactly when it compiles and keeps the listeners, limits, TLS settings,
    modes, audit and capture the process runs with; without a file nothing changes. *)
Theorem reloads_install_compatible_candidates (path : option bytes) f s (hangups : list (option bytes)) :
  reload_task path f s hangups = match last (omap (accepted path f) hangups) with Some c => install s c | None => s end /\
  (forall contents c, accepted path f contents = Some c <->
     exists p raw, path = Some p /\ read p contents = Ok raw /\ configures raw c /\ ReloadFingerprint.from_config c = f) /\
  (path = None -> reload_task path f s hangups = s).
Proof.
  split; [apply reload_task_last|]. split; [apply accepted_spec|].
  intros ->. rewrite reload_task_last. induction hangups as [|h hangups IH]; [done|exact IH].
Qed.
End Reloads.

(** * The result of the process *)

Lemma drained_failure_kept e (drained : list joined) :
  foldl (fun failure j => match failure with None => drained_listener_failure j | _ => failure end) (Some e) drained = Some e.
Proof. by induction drained. Qed.
Lemma drained_None (drained : list joined) :
  foldl (fun failure j => match failure with None => drained_listener_failure j | _ => failure end) None drained = None <->
  Forall (fun j => j = Joined (Ok tt)) drained.
Proof.
  induction drained as [|j drained IH]; [done|]. rewrite Forall_cons. cbn [foldl].
  destruct j as [[[]|e]|e]; cbn [drained_listener_failure]; [rewrite IH; naive_solver| |]; rewrite drained_failure_kept; naive_solver.
Qed.
Lemma join_audit_Ok j : join_audit_writer j = Ok tt <-> j = Joined (Ok tt).
Proof. destruct j as [[[]|e]|e]; cbn; naive_solver. Qed.
Lemma join_terminal_Ok j : join_terminal j = Ok tt <-> j = Joined (Ok tt).
Proof. destruct j as [[[]|e]|e]; cbn; naive_solver. Qed.
(** The process reports success exactly when it was asked to stop, by a signal or from
    the terminal, and everything then ended well: every listener drained without error,
    the audit writer wrote all it was given, and the terminal thread, when there is one,
    returned without error. *)
Theorem process_succeeds_exactly (t : shutdown_trigger) (drained : list joined) (audit_task : joined) (tui_thread : option joined) :
  shut_down t drained audit_task tui_thread = Ok tt <->
  (t = SignalReceived (Ok tt) \/ t = TuiExited) /\ Forall (fun j => j = Joined (Ok tt)) drained /\
  audit_task = Joined (Ok tt) /\ (forall j, tui_thread = Some j -> j = Joined (Ok tt)).
Proof.
  rewrite <- drained_None, <- join_audit_Ok. unfold shut_down.
  assert (Htui : match tui_thread with Some j => join_terminal j | None => Ok tt end = Ok tt <-> forall j, tui_thread = Some j -> j = Joined (Ok tt)).
  { destruct tui_thread as [j|]; [rewrite join_terminal_Ok|]; naive_solver. }
  rewrite <- Htui. destruct (match tui_thread with Some j => join_terminal j | None => Ok tt end) as [[]|et];
    destruct t as [[[]|e]|j| |j]; cbn [wait_for_shutdown_trigger mbind result_bind]; rewrite ?drained_failure_kept;
    try (destruct (join_audit_writer audit_task) as [[]|ea]; cbn); try destruct (foldl _ None drained); naive_solver.
Qed.

(** * A concrete platform: an empty directory, every address free, two files *)
Module Example_process.
#[local] Existing Instance host_nets.
#[local] Existing Instance Example_headers.gmap_headers.
#[local] Instance plain_hex : Hex := {| hex_encode := fun b => b; hex_decode := Some |}.
Definition with_listeners (allow : bool) (generation : N) (capacity : N) (listeners : list raw_listener) : RawConfig.t :=
  RawConfig.Make (RuntimeProfile Headless Enforce Disabled) (RawSafety.Make allow Protect Protect Protect Protect) RawLimits.default
    (RawAudit.Make (bs "logs") capacity FailClosed [bs "Token"] None 1000) RawMetadataOnly (RawInspection Streaming []) RawTls.default
    (RawPolicy.Make generation RuleDeny []) listeners.
Definition remote (generation : N) : RawConfig.t :=
  with_listeners true generation 16 [RawSocks5 (bs "192.0.2.1:1080") (Some (bs "0123456789abcdef0123456789abcdef"))].
#[local] Instance files : TomlConfig := fun text =>
  if decide (text = bs "remote") then Some (remote 1)
  else if decide (text = bs "newer") then Some (remote 2)
  else if decide (text = bs "moved") then Some (with_listeners false 3 16 [RawSocks5 (bs "127.0.0.1:1080") None]) else None.
#[local] Instance no_pem : PemLibrary := {|
  signing_key := unit; issuer := unit; pem_certificate := unit; key_from_pem := fun _ => Some tt;
  issuer_from_ca_cert_pem := fun _ _ => Some tt; pem_certificates := fun _ => Some [tt] |}.
#[local] Instance platform : Platform := {|
  read_file := Some; file_mode := fun _ => Some 384%N;
  bind_listener := fun _ l => Ok (ListenEndpoint.address (listener_bind l));
  is_dir := fun p => bool_decide (p = bs "logs"); existing := {[ bs "logs/freja-7-42-00.jsonl" ]};
  already_exists := bs "file exists"; refuses := fun _ => None; clock := Ok 7%N; process_id := 42%N;
  hangup_handler := Ok tt; tracing := fun _ => Ok tt; spawn_tui := Ok tt |}.
Definition started (path : option bytes) : result startup_failure (running ) := run_proxy_command id path.
(** What can be seen of a start. *)
Definition listening (r : result startup_failure (running )) : option (list (bytes * bool) * bytes) :=
  match r with
  | Ok r => Some (map (fun l => (ListenEndpoint.show (listener_bind l.1), ListenEndpoint.is_loopback (listener_bind l.1))) (servers r),
                  segment (writer r))
  | Err _ => None
  end.

(** Without a file the process listens on loopback only; with the remote configuration
    its segment takes the first free name of the directory. *)
Example built_in_is_loopback : (fst <$> listening (started None)) = Some [(bs "127.0.0.1:8080", true)].
Proof. vm_compute. reflexivity. Qed.
Example remote_listens : listening (started (Some (bs "remote"))) = Some ([(bs "192.0.2.1:1080", false)], bs "logs/freja-7-42-01.jsonl").
Proof. vm_compute. reflexivity. Qed.
Example remote_without_credentials :
  compile_raw (with_listeners true 1 16 [RawSocks5 (bs "192.0.2.1:1080") None])
  = Err (ConfigValidation (ValidationError.RemoteSocksListenerRequiresAuthentication (ListenEndpoint.Make (SocketAddr (ipv4 192 0 2 1) 1080 0)))).
Proof. vm_compute. reflexivity. Qed.
Example remote_without_opt_in :
  compile_raw (with_listeners false 1 16 [RawSocks5 (bs "192.0.2.1:1080") (Some (bs "0123456789abcdef0123456789abcdef"))])
  = Err (ConfigValidation (ValidationError.NonLoopbackBindRequiresOptIn (ListenEndpoint.Make (SocketAddr (ipv4 192 0 2 1) 1080 0)))).
Proof. vm_compute. reflexivity. Qed.
(** The policy of the file is installed at the first hangup; the listener that moved and
    the file that does not parse change nothing. *)
Example reloads :
  (fun r => PolicyGeneration.get (Acl.generation (snapshot_policy (Services.snapshot
     (reload_task (Some (bs "f")) (fingerprint r) (services r) [Some (bs "newer"); Some (bs "moved"); Some (bs "?"); None])))))
    <$> match started (Some (bs "remote")) with Ok r => Some r | Err _ => None end = Some 2%N.
Proof. vm_compute. reflexivity. Qed.
(** A channel capacity that compiles, and that the runtime cannot allocate. *)
Definition oversized : RawConfig.t := with_listeners false 1 (MAX_PERMITS + 1) [RawSocks5 (bs "127.0.0.1:1080") None].
Example oversized_panics : exists c, compile_raw oversized = Ok c /\ forall tui, run_proxy tui c = Err Panicked.
Proof.
  assert (Hok : match compile_raw oversized with Ok _ => true | Err _ => false end = true) by (vm_compute; reflexivity).
  destruct (compile_raw oversized) as [c|e] eqn:E; [|discriminate Hok]. exists c. split; [done|].
  apply compile_configures in E as Hc. apply audit_channel_panics; [by eapply configured_startable|].
  destruct Hc as [_ _ _ _ _ (_ & _ & ->) _ _ _ _ _]. vm_compute. reflexivity.
Qed.
Lemma exposed_servers_are_authenticated_witness :
  exists r raw, started (Some (bs "remote")) = Ok r /\ selects (Some (bs "remote")) raw /\
    Forall (fun l => ListenEndpoint.is_loopback (listener_bind l) = true \/
                     (RawSafety.allow_non_loopback (RawConfig.safety raw) = true /\ authenticated l)) (map fst (servers r)).
Proof.
  assert (Hok : match started (Some (bs "remote")) with Ok _ => true | Err _ => false end = true) by (vm_compute; reflexivity).
  destruct (started (Some (bs "remote"))) as [r|e] eqn:E; [|discriminate Hok].
  exists r. destruct (exposed_servers_are_authenticated id (Some (bs "remote")) r E) as (raw & Hsel & Hl).
  exists raw. split; [reflexivity|]. split; assumption.
Defined.
Lemma compiled_configurations_start_witness :
  exists c, compile_raw (remote 1) = Ok c /\
  match run_proxy false c with
  | Ok r => channels_fit c /\ runs_configuration false c r
  | Err Panicked => ~ channels_fit c
  | Err (Failed e) => platform_failure false c e
  end.
Proof.
  assert (Hok : match compile_raw (remote 1) with Ok _ => true | Err _ => false end = true) by (vm_compute; reflexivity).
  destruct (compile_raw (remote 1)) as [c|e] eqn:E; [|discriminate Hok].
  exists c. split; [reflexivity|]. exact (compiled_configurations_start false (remote 1) c E).
Defined.
End Example_process.
