(* ===== verification/Lifecycle.v ===== *)
(** The life of the listeners around their loops: binding
    (crates/freja-proxy/src/tcp/server.rs, socks/server.rs, http/server.rs), the servers
    of the process and the signals it waits for (crates/freja/src/proxy.rs), the shutdown
    signal (shutdown.rs), the adapter to Pingora (pingora.rs) and the text of the errors
    they report (error.rs).  Tokio's watch channel is a parameter with its documented
    laws; I/O errors have no content. *)
From stdpp Require Import gmap strings.
From stdpp Require Import prelude.
From S2P Require Import Prelude Bytes Net Endpoint Domain PolicyModel Acl Guard Inspection AuditModel AuditSink Hooks Runtime Settings TcpSession Socks Server Tls HttpMessages HttpServer Config ConfigSafety Keys Process ProcessSafety.

(** * The text of an error (error.rs) *)

Definition rule_name (d : Decision.t) : bytes :=
  match matched_rule (Decision.trace d) with Some r => RuleId.as_str r | None => bs "<default>" end.
Definition show_proxy_error (e : proxy_error) : bytes :=
  match e with
  | Bind a => bs "failed to bind TCP listener " ++ show_socket_addr a
  | LocalAddress => bs "failed to read TCP listener address"
  | AcceptFailed => bs "failed to accept TCP connection"
  | Dns host => bs "failed to resolve upstream " ++ host
  | DnsTimedOut host => bs "timed out resolving upstream " ++ host
  | NoResolvedAddresses host => bs "DNS returned no addresses for upstream " ++ host
  | PolicyDenied d => bs "connection denied by policy rule " ++ rule_name d
  | DetourLoop d => bs "TCP detour selected more than once by policy rule " ++ rule_name d
  | ConnectFailed a => bs "failed to connect to upstream " ++ show_socket_addr a
  | ConnectTimedOut a => bs "timed out connecting to upstream " ++ show_socket_addr a
  | HttpConnection => bs "downstream HTTP/1 connection failed"
  | UpstreamHttp stage => bs "upstream HTTP/1 " ++ stage ++ bs " failed"
  | InvalidHttpStatus => bs "HTTP adapter produced an invalid status code"
  | UpstreamResponseTimedOut => bs "timed out waiting for upstream HTTP response"
  | HttpUpgrade => bs "CONNECT HTTP upgrade failed"
  | TunnelRegistration => bs "CONNECT tunnel registration channel is unavailable"
  | InternalPolicy _ => bs "invalid built-in proxy policy rule"
  | RelayRead direction => bs "failed to read relay direction " ++ direction
  | RelayWrite direction => bs "failed to write relay direction " ++ direction
  | Audit _ => bs "failed to publish a critical audit event"
  | HookError _ => bs "typed hook execution failed"
  | HookMutation _ => bs "typed HTTP hook mutation is invalid"
  | InteractiveError _ => bs "interactive interception failed"
  | InteractiveRejected => bs "flow rejected by interactive interception"
  | Socks _ => bs "SOCKS5 session failed"
  | Tls _ => bs "TLS interception failed"
  | ConcurrencyClosed => bs "connection concurrency limiter closed"
  | ShutdownError => bs "proxy session stopped during graceful shutdown"
  | Join => bs "TCP session task failed to join"
  end.
(** [Error::source] gives one. *)
Definition has_source (e : proxy_error) : bool :=
  match e with
  | DnsTimedOut _ | NoResolvedAddresses _ | PolicyDenied _ | DetourLoop _ | ConnectTimedOut _ | UpstreamResponseTimedOut
  | TunnelRegistration | InteractiveRejected | ConcurrencyClosed | ShutdownError => false
  | _ => true
  end.

Definition show_socks_error (e : socks_error) : bytes :=
  match e with
  | SocksIo stage => bs "SOCKS5 " ++ stage ++ bs " I/O failed"
  | SocksTimedOut stage => bs "SOCKS5 " ++ stage ++ bs " timed out"
  | UnsupportedVersion => bs "unsupported SOCKS version"
  | NoAcceptableAuthentication => bs "client offered no acceptable SOCKS5 authentication method"
  | AuthenticationFailed => bs "SOCKS5 authentication failed"
  | UnsupportedCommand => bs "unsupported SOCKS5 command"
  | UnsupportedAddressType => bs "unsupported SOCKS5 address type"
  | MalformedRequest => bs "malformed SOCKS5 request"
  | InvalidDomainEncoding => bs "SOCKS5 domain is not valid UTF-8"
  | InvalidTarget _ => bs "SOCKS5 target is invalid"
  end.
Definition show_body_error (e : body_error) : bytes :=
  match e with
  | BodyHyper => bs "HTTP body stream failed"
  | BodyReadTimedOut => bs "HTTP body frame read timed out"
  | BodyInspection _ => bs "HTTP body inspection failed"
  | BodyInspectionBlocked => bs "HTTP body was blocked by policy"
  end.

(** * Binding *)

(** What the operating system answers. *)
Inductive bind_answer : Type := BindRefused | AddressUnknown | BoundAt (a : socket_addr).
Definition bind_socket (bind : socket_addr) (answer : bind_answer) : result proxy_error socket_addr :=
  match answer with
  | BindRefused => Err (Bind bind)
  | AddressUnknown => Err LocalAddress
  | BoundAt a => Ok a
  end.
Module StaticTcpServer.
Record t : Type := Make { local_address : socket_addr; specification : tcp_static_listener; limits : proxy_limits }.
Definition bind (specification : tcp_static_listener) (limits : proxy_limits) (answer : bind_answer) : result proxy_error t :=
  a ← bind_socket (ListenEndpoint.address (static_bind specification)) answer; Ok (Make a specification limits).
End StaticTcpServer.
Module Socks5Server.
Record t : Type := Make { local_address : socket_addr; specification : socks5_listener; limits : proxy_limits }.
Definition bind (specification : socks5_listener) (limits : proxy_limits) (answer : bind_answer) : result proxy_error t :=
  a ← bind_socket (ListenEndpoint.address (socks_bind specification)) answer; Ok (Make a specification limits).
End Socks5Server.
Module HttpServerBinding.
Record t : Type := Make {
  local_address : socket_addr; specification : HttpForwardListener.t; connect_port_rule : RuleId.t; limits : proxy_limits }.
Definition bind (specification : HttpForwardListener.t) (limits : proxy_limits) (answer : bind_answer) : result proxy_error t :=
  a ← bind_socket (ListenEndpoint.address (HttpForwardListener.bind specification)) answer;
  rule ← map_err InternalPolicy (RuleId.new (bs "connect-port-allowlist"));
  Ok (Make a specification rule limits).
End HttpServerBinding.
(** Binding fails only for the operating system: the name of the built-in rule is a valid
    identifier. *)
Lemma http_bind_exact l limits answer :
  HttpServerBinding.bind l limits answer
  = match answer with
    | BindRefused => Err (Bind (ListenEndpoint.address (HttpForwardListener.bind l)))
    | AddressUnknown => Err LocalAddress
    | BoundAt a => Ok (HttpServerBinding.Make a l (RuleId.Make (bs "connect-port-allowlist")) limits)
    end.
Proof. by destruct answer. Qed.

(** ** The servers of the process (proxy.rs) *)

Module BoundServer.
Inductive t : Type :=
| Tcp (server : StaticTcpServer.t)
| Http (server : HttpServerBinding.t)
| Socks5 (server : Socks5Server.t).
Definition specification (s : t) : listener_spec :=
  match s with
  | Tcp s => TcpStatic (StaticTcpServer.specification s)
  | Http s => HttpForward (HttpServerBinding.specification s)
  | Socks5 s => Domain.Socks5 (Socks5Server.specification s)
  end.
Definition local_address (s : t) : socket_addr :=
  match s with
  | Tcp s => StaticTcpServer.local_address s
  | Http s => HttpServerBinding.local_address s
  | Socks5 s => Socks5Server.local_address s
  end.
Section Run.
Context `{Environment}.
(** The accept loop of the server, given what happens to it; [None] when it panics. *)
Definition run (s : t) (events : list server_event) : option (flow server) :=
  match s with
  | Tcp s => run_listener (StaticTcpServer.limits s) (StaticTcpServer.local_address s) events
  | Http s => HttpForwardServer.run (HttpServerBinding.limits s) (HttpServerBinding.local_address s) events
  | Socks5 s => run_listener (Socks5Server.limits s) (Socks5Server.local_address s) events
  end.
End Run.
End BoundServer.
(** A bound server runs unless its connection limit is beyond what a semaphore can hold:
    its task then panics before it accepts anything, whatever was to happen. *)
Theorem bound_servers_run `{Environment} (s : BoundServer.t) (events : list server_event) :
  let connections := connections (match s with
    | BoundServer.Tcp s => StaticTcpServer.limits s
    | BoundServer.Http s => HttpServerBinding.limits s
    | BoundServer.Socks5 s => Socks5Server.limits s end) in
  BoundServer.run s events = None <-> (MAX_PERMITS < connections)%N.
Proof.
  assert (Hrun : forall l a, run_listener l a events = None <-> (MAX_PERMITS < connections l)%N).
  { intros l a. unfold run_listener, server_start. destruct (N.ltb_spec MAX_PERMITS (connections l)); cbn; split; try done; lia. }
  destruct s; apply Hrun.
Qed.
(** A turn of the loop of [bind_configured_servers]. *)
Definition bind_server (l : listener_spec) (limits : proxy_limits) (answer : bind_answer) : result app_error BoundServer.t :=
  let context := listener_kind l ++ ListenEndpoint.show (listener_bind l) in
  match l with
  | TcpStatic l => s ← with_context show_proxy_error context (StaticTcpServer.bind l limits answer); Ok (BoundServer.Tcp s)
  | HttpForward l => s ← with_context show_proxy_error context (HttpServerBinding.bind l limits answer); Ok (BoundServer.Http s)
  | Socks5 l => s ← with_context show_proxy_error context (Socks5Server.bind l limits answer); Ok (BoundServer.Socks5 s)
  end.
(** [servers.push(..)], until one does not bind. *)
Fixpoint bind_all (limits : proxy_limits) (servers : list BoundServer.t) (listeners : list (listener_spec * bind_answer))
  : result app_error (list BoundServer.t) :=
  match listeners with
  | [] => Ok servers
  | (l, answer) :: listeners => s ← bind_server l limits answer; bind_all limits (servers ++ [s]) listeners
  end.
(** What the process sees of an answer. *)
Definition bound_address (l : listener_spec) (answer : bind_answer) : result bytes socket_addr :=
  match answer with
  | BindRefused => Err (show_proxy_error (Bind (ListenEndpoint.address (listener_bind l))))
  | AddressUnknown => Err (show_proxy_error LocalAddress)
  | BoundAt a => Ok a
  end.
Lemma bind_server_exact l limits answer :
  bind_server l limits answer
  = match bound_address l answer with
    | Err text => Err (add_context (listener_kind l ++ ListenEndpoint.show (listener_bind l)) (app_msg text))
    | Ok a => Ok match l with
                 | TcpStatic l => BoundServer.Tcp (StaticTcpServer.Make a l limits)
                 | HttpForward l => BoundServer.Http (HttpServerBinding.Make a l (RuleId.Make (bs "connect-port-allowlist")) limits)
                 | Socks5 l => BoundServer.Socks5 (Socks5Server.Make a l limits)
                 end
    end.
Proof. by destruct l, answer. Qed.
Definition bound_as (s : BoundServer.t) : listener_spec * socket_addr := (BoundServer.specification s, BoundServer.local_address s).
Section Binding.
Context `{Platform}.
(** The start of the process binds its servers as its platform answers: when the platform's
    [bind_listener] is that of the operating system, [bind_servers] succeeds with the
    listeners and the addresses of the bound servers, and fails with the same error. *)
Theorem servers_bind_as_answered (limits : proxy_limits) (answer : list listener_spec -> listener_spec -> bind_answer)
    (listeners : list listener_spec) :
  (forall bound l, bind_listener bound l = bound_address l (answer (map fst bound) l)) ->
  bind_servers [] listeners
  = map bound_as <$> bind_all limits [] (imap (fun i l => (l, answer (take i listeners) l)) listeners).
Proof.
  intros Hanswer.
  enough (Hgen : forall rest servers, map BoundServer.specification servers ++ rest = listeners ->
    bind_servers (map bound_as servers) rest
    = map bound_as <$> bind_all limits servers (imap (fun i l => (l, answer (take (length servers + i) listeners) l)) rest))
    by (by apply (Hgen listeners [])).
  induction rest as [|l rest IH]; intros servers Hl; cbn [imap bind_servers bind_all]; [done|].
  assert (Htake : take (length servers + 0) listeners = map fst (map bound_as servers)).
  { rewrite <-Hl, Nat.add_0_r. rewrite <-(length_map BoundServer.specification servers), take_app_length, map_map. done. }
  rewrite Htake, Hanswer, bind_server_exact.
  destruct (bound_address l (answer (map fst (map bound_as servers)) l)) as [a|text]; [|done].
  cbn [with_context map_err mbind result_bind].
  match goal with |- context [bind_all limits (servers ++ [?s]) _] => assert (Hs : bound_as s = (l, a)) by (by destruct l);
    pose proof (IH (servers ++ [s])) as IHs end.
  rewrite (map_app bound_as) in IHs. cbn [map] in IHs. rewrite Hs in IHs. rewrite IHs.
  - f_equal. f_equal. apply imap_ext. intros i x _. cbn. f_equal. f_equal. rewrite length_app. cbn. f_equal. lia.
  - rewrite map_app, <-app_assoc, <-Hl. cbn. do 2 f_equal. by apply (f_equal fst) in Hs.
Qed.
End Binding.

(** ** The signals of the process (proxy.rs) *)

(** What [select!] sees first: the answer to Ctrl+C, or SIGTERM, [None] when its handler
    closed. *)
Inductive first_signal : Type := Interrupt (r : result bytes unit) | Terminate (received : option unit).
Definition wait_for_shutdown_signal (install : result bytes unit) (first : first_signal) : result app_error unit :=
  _ ← with_context id (bs "failed to install SIGTERM handler") install;
  match first with
  | Interrupt r => with_context id (bs "failed to install or receive interrupt signal") r
  | Terminate received => ok_or (app_msg (bs "SIGTERM handler closed unexpectedly")) received
  end.

(** * The shutdown signal (shutdown.rs) *)

(** The channel as all its ends share it, and the mark of a receiver. *)
Inductive change : Type := ChangePending | ChangeSeen | AllSendersDropped.
Class Watch : Type := {
  watch : Type;
  mark : Type;
  watch_channel : watch * mark;
  watch_send : watch -> watch;
  watch_clone : watch -> watch;
  watch_drop : watch -> watch;
  watch_borrow : watch -> bool;
  watch_changed : watch -> mark -> change * mark }.
(** A value sent is unseen by the receivers of the channel until their [changed] returns;
    without an unseen value it waits while a sender lives.  The channel starts with
    [false]; [send] sends [true]. *)
Class WatchLaws `{Watch} : Type := {
  valid : watch -> mark -> Prop;
  unseen : watch -> mark -> bool;
  current : watch -> mark;
  senders : watch -> nat;
  channel_new : let '(w, r) := watch_channel in watch_borrow w = false /\ senders w = 1 /\ valid w r;
  send_value w : watch_borrow (watch_send w) = true /\ senders (watch_send w) = senders w;
  send_unseen w r : valid w r -> valid (watch_send w) r /\ unseen (watch_send w) r = true;
  clone_value w : watch_borrow (watch_clone w) = watch_borrow w /\ senders (watch_clone w) = S (senders w);
  clone_unseen w r : valid w r -> valid (watch_clone w) r /\ unseen (watch_clone w) r = unseen w r;
  drop_value w : watch_borrow (watch_drop w) = watch_borrow w /\ senders (watch_drop w) = senders w - 1;
  drop_unseen w r : valid w r -> valid (watch_drop w) r /\ unseen (watch_drop w) r = unseen w r;
  current_seen w : valid w (current w) /\ unseen w (current w) = false;
  changed_value w r : valid w r ->
    watch_changed w r = if unseen w r then (ChangeSeen, current w) else (if senders w =? 0 then AllSendersDropped else ChangePending, r) }.
(** What can happen around one waiting task. *)
Inductive shutdown_event : Type := Requested | SenderCloned | SenderDropped | SignalPolled.
#[export] Instance shutdown_event_eq_dec : EqDecision shutdown_event.
Proof. solve_decision. Defined.

Section Shutdown.
Context `{Watch}.
Definition shutdown_channel : watch * mark := watch_channel.
Definition shutdown (w : watch) : watch := watch_send w.
Definition is_cancelled (w : watch) : bool := watch_borrow w.
(** [cancelled] between two reads of the channel: at the head of its loop, in [changed], in
    [pending], which never ends, or returned. *)
Inductive signal : Type := Checking (r : mark) | Awaiting (r : mark) | Parked | Cancelled.
Definition cancelled_step (w : watch) (s : signal) : signal :=
  match s with
  | Checking r => if is_cancelled w then Cancelled else Awaiting r
  | Awaiting r =>
      match watch_changed w r with
      | (ChangeSeen, r) => Checking r
      | (AllSendersDropped, _) => Parked
      | (ChangePending, r) => Awaiting r
      end
  | Parked => Parked
  | Cancelled => Cancelled
  end.
Definition shutdown_step (st : watch * signal) (e : shutdown_event) : watch * signal :=
  let '(w, s) := st in
  match e with
  | Requested => (shutdown w, s)
  | SenderCloned => (watch_clone w, s)
  | SenderDropped => (watch_drop w, s)
  | SignalPolled => (w, cancelled_step w s)
  end.
Definition shutdown_run (st : watch * signal) (l : list shutdown_event) : watch * signal := foldl shutdown_step st l.
Definition waiting : watch * signal := let '(w, r) := shutdown_channel in (w, Checking r).
(** Only a sender that lives acts: [n] of them do before the events. *)
Fixpoint possible (n : nat) (l : list shutdown_event) : Prop :=
  match l with
  | [] => True
  | Requested :: l => 0 < n /\ possible n l
  | SenderCloned :: l => 0 < n /\ possible (S n) l
  | SenderDropped :: l => 0 < n /\ possible (n - 1) l
  | SignalPolled :: l => possible n l
  end.
End Shutdown.

Section ShutdownLaws.
Context `{WatchLaws}.
(** The signal is consistent with the requests so far. *)
Definition consistent (requested : bool) (n : nat) (st : watch * signal) : Prop :=
  watch_borrow st.1 = requested /\ senders st.1 = n /\
  match st.2 with
  | Checking r => valid st.1 r
  | Awaiting r => valid st.1 r /\ (requested = true -> unseen st.1 r = true)
  | Parked => requested = false /\ n = 0
  | Cancelled => requested = true
  end.
Lemma polled_consistent requested n st : consistent requested n st -> consistent requested n (shutdown_step st SignalPolled).
Proof.
  destruct st as [w s]. intros (Hb & Hn & Hs). cbn in *. destruct s as [r|r| |]; cbn [cancelled_step]; try by split_and!.
  - unfold is_cancelled. destruct (watch_borrow w) eqn:E; subst requested; by split_and!.
  - destruct Hs as [Hv Hu]. rewrite changed_value by done. destruct (unseen w r) eqn:Eu.
    + split_and!; [done..|apply current_seen].
    + destruct requested; [by specialize (Hu eq_refl)|]. destruct (Nat.eqb_spec (senders w) 0); (split; [done|]); (split; [done|]); cbn; [split; congruence|done].
Qed.
Lemma requested_consistent requested n w s : 0 < n -> consistent requested n (w, s) -> consistent true n (watch_send w, s).
Proof.
  intros Hn (Hb & Hw & Hs). destruct (send_value w) as [Hv Hk]. cbn in *. split; [done|]. split; [cbn; congruence|]. cbn.
  destruct s as [r|r| |]; [by apply send_unseen|destruct Hs as [Hs _]; by destruct (send_unseen w r Hs)|lia|done].
Qed.
Lemma cloned_consistent requested n w s : 0 < n -> consistent requested n (w, s) -> consistent requested (S n) (watch_clone w, s).
Proof.
  intros Hn (Hb & Hw & Hs). destruct (clone_value w) as [Hv Hk]. cbn in *. split; [cbn; congruence|]. split; [cbn; congruence|]. cbn.
  destruct s as [r|r| |]; [by apply clone_unseen| |lia|done]. destruct Hs as [Hs Hu], (clone_unseen w r Hs) as [? ->]. done.
Qed.
Lemma dropped_consistent requested n w s : 0 < n -> consistent requested n (w, s) -> consistent requested (n - 1) (watch_drop w, s).
Proof.
  intros Hn (Hb & Hw & Hs). destruct (drop_value w) as [Hv Hk]. cbn in *. split; [cbn; congruence|]. split; [cbn; lia|]. cbn.
  destruct s as [r|r| |]; [by apply drop_unseen| |lia|done]. destruct Hs as [Hs Hu], (drop_unseen w r Hs) as [? ->]. done.
Qed.
Lemma run_consistent l : forall requested n st, consistent requested n st -> possible n l ->
  exists m, consistent (requested || bool_decide (Requested ∈ l)) m (shutdown_run st l).
Proof.
  induction l as [|e l IH]; intros requested n st Hc Hl; [exists n; by rewrite bool_decide_false, orb_false_r by set_solver|].
  cbn [shutdown_run foldl]. assert (Hin : e <> Requested -> bool_decide (Requested ∈ e :: l) = bool_decide (Requested ∈ l)).
  { intros He. apply bool_decide_ext. set_solver. }
  destruct st as [w s], e; cbn [possible] in Hl; [|rewrite Hin by done..].
  - rewrite bool_decide_true by set_solver. rewrite orb_true_r. destruct Hl as [Hpos Hl].
    exact (IH true n _ (requested_consistent _ _ _ _ Hpos Hc) Hl).
  - destruct Hl as [Hpos Hl]. exact (IH _ _ _ (cloned_consistent _ _ _ _ Hpos Hc) Hl).
  - destruct Hl as [Hpos Hl]. exact (IH _ _ _ (dropped_consistent _ _ _ _ Hpos Hc) Hl).
  - exact (IH _ _ _ (polled_consistent _ _ _ Hc) Hl).
Qed.
Lemma waiting_consistent : consistent false 1 waiting.
Proof. pose proof channel_new as Hnew. unfold waiting, shutdown_channel. destruct watch_channel as [w r], Hnew as (Hb & Hn & Hv). by split_and!. Qed.
Lemma polls_complete n st : consistent true n st -> (shutdown_run st [SignalPolled; SignalPolled; SignalPolled]).2 = Cancelled.
Proof.
  destruct st as [w s]. intros (Hb & _ & Hs). cbn in *. destruct s as [r|r| |]; cbn [cancelled_step]; unfold is_cancelled.
  - by rewrite Hb.
  - destruct Hs as [Hv Hu]. rewrite changed_value, Hu by done. cbn [cancelled_step]. unfold is_cancelled. by rewrite Hb.
  - by destruct Hs.
  - done.
Qed.
(** Waiting for shutdown ends exactly when shutdown was requested: whatever the senders do
    and however the waiting task is scheduled, it has returned only if one of them
    requested shutdown, so dropping them all never cancels it; and once requested, even
    by a sender dropped at once, three steps of the task are enough for it to return. *)
Theorem cancelled_exactly_when_requested (l : list shutdown_event) :
  possible 1 l ->
  ((shutdown_run waiting l).2 = Cancelled -> Requested ∈ l) /\
  (Requested ∈ l -> (shutdown_run waiting (l ++ [SignalPolled; SignalPolled; SignalPolled])).2 = Cancelled) /\
  is_cancelled (shutdown_run waiting l).1 = bool_decide (Requested ∈ l).
Proof.
  intros Hl. destruct (run_consistent l false 1 waiting waiting_consistent Hl) as (m & Hm). cbn [orb] in Hm. split_and!.
  - intros Hc. destruct Hm as (_ & _ & Hm). rewrite Hc in Hm. by apply bool_decide_eq_true in Hm.
  - intros Hin. unfold shutdown_run. rewrite foldl_app. rewrite bool_decide_true in Hm by done. by eapply polls_complete.
  - apply Hm.
Qed.
End ShutdownLaws.

(** * The adapter to Pingora (pingora.rs) *)

Definition COMPATIBILITY_BASELINE : bytes := bs "0.8.1".
(** [process_new] serves the stream and gives none back: Pingora's reuse loop never sees a
    stream that was processed. *)
Definition process_new {stream world} (serve : stream -> world -> world) (s : stream) (w : world) : option stream * world :=
  (None, serve s w).


(** * A channel that counts its versions *)
Module Example_watch.
Record state : Type := State { value : bool; version : nat; alive : nat }.
#[local] Instance counted : Watch := {|
  watch := state; mark := nat; watch_channel := (State false 0 1, 0);
  watch_send := fun w => State true (S (version w)) (alive w);
  watch_clone := fun w => State (value w) (version w) (S (alive w));
  watch_drop := fun w => State (value w) (version w) (alive w - 1);
  watch_borrow := value;
  watch_changed := fun w r => if r <? version w then (ChangeSeen, version w)
                              else (if alive w =? 0 then AllSendersDropped else ChangePending, r) |}.
#[local] Instance counted_laws : WatchLaws.
Proof.
  refine (Build_WatchLaws counted (fun w r => r <= version w) (fun w r => r <? version w) version alive _ _ _ _ _ _ _ _ _); cbn; try done.
  - intros w r Hr. split; [lia|]. apply Nat.leb_le. lia.
  - intros w. split; [lia|apply Nat.ltb_irrefl].
Qed.
Lemma cancelled_exactly_when_requested_witness :
  (shutdown_run waiting [SignalPolled; SignalPolled; SenderCloned; SenderDropped; Requested; SenderDropped; SignalPolled; SignalPolled; SignalPolled]).2
    = Cancelled /\
  (shutdown_run waiting [SignalPolled; SenderDropped; SignalPolled; SignalPolled]).2 = Parked.
Proof.
  split; [|reflexivity].
  refine (proj1 (proj2 (cancelled_exactly_when_requested
    [SignalPolled; SignalPolled; SenderCloned; SenderDropped; Requested; SenderDropped] _)) _).
  - cbn. lia.
  - apply (bool_decide_unpack _). vm_compute. exact I.
Defined.
End Example_watch.
