(* ===== verification/UiEvents.v ===== *)
(** The channel between the data plane and the terminal (crates/freja-ui/src/lib.rs,
    crates/freja/src/ui_adapter.rs): the events, the bounded best-effort publisher, the
    adapter from the runtime's facts, and the account of what is delivered. *)
From stdpp Require Import gmap strings.
From stdpp Require Import prelude.
From S2P Require Import Prelude Bytes Net Endpoint Domain PolicyModel Acl Guard Inspection AuditModel Hooks Runtime.

(** * Events *)

Module UiEvent.
Section Event.
Context `{IpNet}.
Inductive t : Type :=
| OperationalLog (message : bytes)
| FlowOpened (s : session_id) (client target : bytes)
| HttpObserved (s : session_id) (x : transaction_id) (method target version : bytes) (headers : list (bytes * bytes))
| HttpResponseObserved (s : session_id) (x : transaction_id) (status : HttpStatusCode.t) (version : bytes)
    (headers : list (bytes * bytes))
| DecisionMade (s : session_id) (x : option transaction_id) (trace : decision_trace)
    (evidence : option (rule_definition * enforcement_mode)) (target : option evaluation_target)
| FindingDetected (s : session_id) (x : option transaction_id) (f : finding)
| BodyPrefix (s : session_id) (x : option transaction_id) (d : direction) (b : bytes) (offset observed_bytes : N) (truncated : bool)
| WireCaptured (s : session_id) (x : transaction_id) (d : direction) (b : bytes) (observed_bytes : N) (truncated : bool)
| WireCaptureFailed (s : session_id) (x : transaction_id) (d : direction) (reason : bytes)
| WireCaptureUnavailable (s : session_id) (x : transaction_id) (d : direction) (reason : bytes)
| FlowClosed (s : session_id) (client_to_upstream_bytes upstream_to_client_bytes : N).
End Event.
Arguments t {_}.
End UiEvent.
Definition to_ui_event `{IpNet} (e : data_plane_event) : UiEvent.t :=
  match e with
  | UiFlowOpened s client target => UiEvent.FlowOpened s client target
  | UiHttpObserved s x method target version headers => UiEvent.HttpObserved s x method target version headers
  | UiHttpResponseObserved s x status version headers => UiEvent.HttpResponseObserved s x status version headers
  | UiDecisionMade s x trace evidence target => UiEvent.DecisionMade s x trace evidence target
  | UiFindingDetected s x f => UiEvent.FindingDetected s x f
  | UiBodyPrefix s x d b offset observed truncated => UiEvent.BodyPrefix s x d b offset observed truncated
  | UiWireCaptured s x d b observed truncated => UiEvent.WireCaptured s x d b observed truncated
  | UiWireCaptureFailed s x d reason => UiEvent.WireCaptureFailed s x d reason
  | UiWireCaptureUnavailable s x d reason => UiEvent.WireCaptureUnavailable s x d reason
  | UiFlowClosed s up down => UiEvent.FlowClosed s up down
  end.

(** * The publisher *)

Inductive ui_publish_outcome : Type := Published | DroppedFull | DroppedClosed.
Module UiPublisher.
Section Publisher.
Context `{IpNet}.
(** The bounded channel with its receiver, and the shared counter of dropped events. *)
Record t : Type := Make {
  capacity : nat;
  queue : list UiEvent.t;
  receiver_open : bool;
  dropped : N }.
(** [None]: the capacity is zero. *)
Definition channel (capacity : nat) : option t := if decide (capacity = 0) then None else Some (Make capacity [] true 0).
(** [dropped.fetch_add(1)] wraps. *)
Definition count_dropped (p : t) : t := Make (capacity p) (queue p) (receiver_open p) ((dropped p + 1) mod (u64_max + 1)).
Definition try_publish (p : t) (e : UiEvent.t) : ui_publish_outcome * t :=
  if negb (receiver_open p) then (DroppedClosed, count_dropped p)
  else if decide (length (queue p) < capacity p)
  then (Published, Make (capacity p) (queue p ++ [e]) true (dropped p))
  else (DroppedFull, count_dropped p).
Definition dropped_events (p : t) : N := dropped p.
(** The receiver's [try_recv], and its end. *)
Definition try_recv (p : t) : option UiEvent.t * t :=
  match queue p with
  | [] => (None, p)
  | e :: queue => (Some e, Make (capacity p) queue (receiver_open p) (dropped p))
  end.
Definition close (p : t) : t := Make (capacity p) [] false (dropped p).
(** [UiDataPlaneEventSink::try_publish]. *)
Definition sink_try_publish (p : t) (e : data_plane_event) : t := (try_publish p (to_ui_event e)).2.
End Publisher.
Arguments t {_}.
End UiPublisher.

(** * What is delivered *)

Section Delivery.
Context `{IpNet}.
Inductive channel_step : Type := Publish (e : UiEvent.t) | Receive | EndReceiver.
(** The events received, and those lost with the receiver. *)
Record delivery : Type := Delivery { received : list UiEvent.t; lost : list UiEvent.t }.
Definition channel_run_step (st : UiPublisher.t * delivery) (s : channel_step) : UiPublisher.t * delivery :=
  let '(p, d) := st in
  match s with
  | Publish e => ((UiPublisher.try_publish p e).2, d)
  | Receive =>
      match UiPublisher.try_recv p with
      | (Some e, p) => (p, Delivery (received d ++ [e]) (lost d))
      | (None, p) => (p, d)
      end
  | EndReceiver => (UiPublisher.close p, Delivery (received d) (lost d ++ UiPublisher.queue p))
  end.
Definition channel_run (p : UiPublisher.t) (steps : list channel_step) : UiPublisher.t * delivery :=
  foldl channel_run_step (p, Delivery [] []) steps.
Definition published (steps : list channel_step) : list UiEvent.t :=
  omap (fun s => match s with Publish e => Some e | _ => None end) steps.
(** The channel's account of the events [events] published so far. *)
Record accounts (c : nat) (events : list UiEvent.t) (st : UiPublisher.t * delivery) : Prop := {
  accounts_capacity : UiPublisher.capacity st.1 = c /\ length (UiPublisher.queue st.1) <= c;
  accounts_order : received st.2 ++ lost st.2 ++ UiPublisher.queue st.1 `sublist_of` events;
  accounts_total : exists rejected, length events
    = length (received st.2) + length (lost st.2) + length (UiPublisher.queue st.1) + rejected /\
    UiPublisher.dropped st.1 = (N.of_nat rejected mod (u64_max + 1))%N;
  accounts_closed : if UiPublisher.receiver_open st.1 then lost st.2 = [] else UiPublisher.queue st.1 = [] }.
Lemma accounts_step c events st s :
  accounts c events st -> accounts c (events ++ published [s]) (channel_run_step st s).
Proof.
  destruct st as [p d]. intros [[Hc Hlen] Hord (r & Htotal & Hr) Hclosed]. destruct s as [e| |]; cbn -[N.modulo u64_max].
  - unfold UiPublisher.try_publish. assert (Hdrop : ((UiPublisher.dropped p + 1) mod (u64_max + 1) = N.of_nat (S r) mod (u64_max + 1))%N).
    { cbn [fst] in Hr. rewrite Hr, N.Div0.add_mod_idemp_l. f_equal. lia. }
    destruct (UiPublisher.receiver_open p) eqn:Ho; cbn [negb]; [case_decide as Hroom|].
    + split; cbn -[N.modulo u64_max] in *; [rewrite length_app; cbn; lia| | |by rewrite Ho in Hclosed].
      * rewrite !app_assoc in *. by apply sublist_app.
      * exists r. rewrite !length_app. cbn. split; [lia|done].
    + split; cbn -[N.modulo u64_max] in *; [done|by apply sublist_inserts_r| |by rewrite Ho in Hclosed |- *].
      exists (S r). rewrite length_app. cbn. split; [lia|done].
    + split; cbn -[N.modulo u64_max] in *; [done|by apply sublist_inserts_r| |by rewrite Ho in Hclosed |- *].
      exists (S r). rewrite length_app. cbn. split; [lia|done].
  - rewrite app_nil_r. unfold UiPublisher.try_recv. destruct (UiPublisher.queue p) as [|e q] eqn:Eq; [by split; cbn -[N.modulo u64_max] in *; rewrite ?Eq in *; [| |exists r|]|].
    cbn -[N.modulo u64_max] in *. rewrite Eq in *. assert (Hl : lost d = []). { by destruct (UiPublisher.receiver_open p). }
    rewrite Hl in *. split; cbn -[N.modulo u64_max] in *; rewrite ?Hl; [split; [done|lia]| | |].
    + cbn. rewrite <- app_assoc. exact Hord.
    + exists r. rewrite length_app. cbn. split; [lia|done].
    + destruct (UiPublisher.receiver_open p); [done|discriminate].
  - rewrite app_nil_r. cbn -[N.modulo u64_max] in *. split; cbn -[N.modulo u64_max] in *; [split; [done|lia]| | |done].
    + rewrite !app_nil_r. exact Hord.
    + exists r. rewrite length_app. split; [lia|done].
Qed.
(** The terminal can never hold up the network and loses nothing silently: whatever
    the interleaving of publishing, receiving and the end of the receiver, no more than
    the capacity is queued, what was received is in the order it was published, and
    every published event was received, waits, went down with the receiver or is counted
    as dropped (modulo the width of the counter); a publish that finds room in an open
    channel is never refused. *)
Theorem ui_delivery_is_accounted (c : nat) (p : UiPublisher.t) (steps : list channel_step) :
  UiPublisher.channel c = Some p ->
  accounts c (published steps) (channel_run p steps) /\
  forall e, UiPublisher.receiver_open (channel_run p steps).1 = true -> length (UiPublisher.queue (channel_run p steps).1) < c ->
    (UiPublisher.try_publish (channel_run p steps).1 e).1 = Published.
Proof.
  unfold UiPublisher.channel. case_decide as Hc; [done|]. intros [= <-].
  assert (Hrun : accounts c (published steps) (channel_run (UiPublisher.Make c [] true 0) steps)).
  { unfold channel_run. induction steps as [|s steps IH] using rev_ind.
    - split; cbn; [split; [done|lia]|done| |done]. by exists 0.
    - rewrite foldl_snoc. unfold published. rewrite omap_app. by apply accounts_step. }
  split; [done|]. intros e Ho Hroom. unfold UiPublisher.try_publish. rewrite Ho. cbn [negb].
  destruct Hrun as [[-> _] _ _ _]. by rewrite decide_True.
Qed.
End Delivery.

(** * One event fits, the next is dropped and counted *)
Module Example_channel.
#[local] Existing Instance host_nets.
Definition ready : UiEvent.t := UiEvent.OperationalLog (bs "ready").
Lemma ui_delivery_is_accounted_witness :
  exists p, UiPublisher.channel 1 = Some p /\
    let st := channel_run p [Publish ready; Publish ready; Receive] in
    accounts 1 [ready; ready] st /\ received st.2 = [ready] /\ UiPublisher.dropped_events st.1 = 1%N.
Proof.
  eexists. split; [reflexivity|]. split; [|split; reflexivity].
  exact (proj1 (ui_delivery_is_accounted 1 _ [Publish ready; Publish ready; Receive] eq_refl)).
Defined.
End Example_channel.
