(* ===== verification/Tracing.v ===== *)
(** The operational log on its way to the terminal (crates/freja/src/tracing_setup.rs):
    the writer that gathers one formatted event, and the router that publishes it until
    the terminal is disconnected. *)
From stdpp Require Import gmap strings.
From stdpp Require Import prelude.
From S2P Require Import Prelude Bytes Text Net Endpoint Domain PolicyModel Acl Guard Inspection AuditModel Hooks Runtime UiEvents.

Definition MAXIMUM_TUI_LOG_LINE_BYTES : nat := 16384.
Definition CARRIAGE_RETURN : u8 := byte_of 13.
Definition LINE_FEED : u8 := byte_of 10.
(** U+2026. *)
Definition ELLIPSIS : bytes := [byte_of 226; byte_of 128; byte_of 166].

Section Tracing.
Context `{IpNet}.
(** [Arc<Mutex<Option<UiPublisher>>>]; in the operations, [lock] is false when the mutex
    was poisoned. *)
Definition tui_tracing_router : Type := option UiPublisher.t.
Definition router_new (p : UiPublisher.t) : tui_tracing_router := Some p.
Definition router_publish (lock : bool) (r : tui_tracing_router) (message : bytes) : tui_tracing_router :=
  match lock, r with
  | true, Some p => Some (UiPublisher.try_publish p (UiEvent.OperationalLog message)).2
  | _, _ => r
  end.
Definition router_disconnect (lock : bool) (r : tui_tracing_router) : tui_tracing_router := if lock then None else r.
(** [TuiTracingWriter], without its router. *)
Record tui_tracing_writer : Type := TuiTracingWriter { written : bytes; truncated : bool }.
Definition make_writer : tui_tracing_writer := TuiTracingWriter [] false.
(** [Write::write] takes everything, whatever it keeps. *)
Definition writer_write (w : tui_tracing_writer) (b : bytes) : tui_tracing_writer :=
  let copied := Nat.min (MAXIMUM_TUI_LOG_LINE_BYTES - length (written w)) (length b) in
  TuiTracingWriter (written w ++ take copied b) (truncated w || (copied <? length b)).
Definition one_line (c : bytes) : bytes := if decide (c = [CARRIAGE_RETURN] \/ c = [LINE_FEED]) then [byte_of 32] else c.
Definition writer_message (w : tui_tracing_writer) : bytes :=
  concat (map one_line (chars (trim_text (utf8_lossy (written w))))) ++ (if truncated w then ELLIPSIS else []).
Definition writer_drop (lock : bool) (r : tui_tracing_router) (w : tui_tracing_writer) : tui_tracing_router :=
  match writer_message w with [] => r | message => router_publish lock r message end.
(** One event, in the pieces the formatter writes. *)
Definition log_event (lock : bool) (r : tui_tracing_router) (pieces : list bytes) : tui_tracing_router :=
  writer_drop lock r (foldl writer_write make_writer pieces).

(** * What is published *)

Lemma writes_keep pieces : forall w, length (written w) <= MAXIMUM_TUI_LOG_LINE_BYTES ->
  (truncated w = true -> length (written w) = MAXIMUM_TUI_LOG_LINE_BYTES) ->
  let w' := foldl writer_write w pieces in
  written w' = take MAXIMUM_TUI_LOG_LINE_BYTES (written w ++ concat pieces) /\
  truncated w' = truncated w || (MAXIMUM_TUI_LOG_LINE_BYTES <? length (written w ++ concat pieces)).
Proof.
  set (n := MAXIMUM_TUI_LOG_LINE_BYTES). induction pieces as [|b pieces IH]; intros w Hw Ht; cbn [foldl concat].
  { rewrite app_nil_r, take_ge by lia. rewrite (proj2 (Nat.ltb_ge n (length (written w)))) by lia. by rewrite orb_false_r. }
  destruct (IH (writer_write w b)) as [Hk Hc].
  - cbn [writer_write written truncated]. fold n. rewrite length_app, length_take. lia.
  - cbn [writer_write written truncated]. fold n. rewrite orb_true_iff, Nat.ltb_lt, length_app, length_take. intros [Htr|Hlt]; [specialize (Ht Htr)|]; lia.
  - cbv zeta in *. rewrite Hk, Hc. cbn [writer_write written truncated]. fold n. destruct (decide (length (written w) + length b <= n)).
    + rewrite (take_ge b) by lia. rewrite <- app_assoc. rewrite (proj2 (Nat.ltb_ge (Nat.min (n - length (written w)) (length b)) (length b))) by lia. by rewrite orb_false_r.
    + rewrite Nat.min_l by lia. rewrite (proj2 (Nat.ltb_lt (n - length (written w)) _)) by lia. rewrite orb_true_r. cbn [orb].
      rewrite (proj2 (Nat.ltb_lt n _)) by (rewrite !length_app; lia). rewrite orb_true_r. split; [|done].
      rewrite !(take_app_le (written w ++ take _ b)) by (rewrite length_app, length_take; lia).
      rewrite !app_assoc, (take_app_le (written w ++ b)) by (rewrite length_app; lia).
      rewrite take_app_ge, take_app_ge by lia. by rewrite take_take, Nat.min_id.
Qed.
Lemma lossy_length seen pending lo hi l : length (lossy_from seen pending lo hi l) <= 3 * (length seen + length l).
Proof.
  revert seen pending lo hi; induction l as [|b l IH]; intros seen pending lo hi; cbn [lossy_from length].
  { destruct seen; cbn; lia. }
  assert (Hr : length (match seen with [] => [] | _ => REPLACEMENT end) <= 3 * length seen) by (destruct seen; cbn; lia).
  cbv zeta. destruct (match pending with S _ => byte_in lo hi b | O => false end).
  - destruct pending as [|[|n]]; rewrite ?length_app; cbn [length].
    + specialize (IH [] 0 0%N 0%N). cbn [length] in IH. lia.
    + specialize (IH [] 0 0%N 0%N). cbn [length] in IH. lia.
    + specialize (IH (seen ++ [b]) (S n) 128%N 191%N). rewrite length_app in IH. cbn [length] in IH. lia.
  - rewrite length_app. destruct (utf8_lead b) as [[[[|n] lo'] hi']|].
    + specialize (IH [] 0 0%N 0%N). cbn [length] in *. lia.
    + specialize (IH [b] (S n) lo' hi'). cbn [length] in *. lia.
    + specialize (IH [] 0 0%N 0%N). rewrite length_app. change (length REPLACEMENT) with 3. cbn [length] in *. lia.
Qed.
Lemma one_line_ok c : char_ok c -> char_ok (one_line c) /\ LINE_FEED ∉ one_line c /\ CARRIAGE_RETURN ∉ one_line c.
Proof.
  intros Hc. unfold one_line. case_decide as Hn.
  - split; [by exists (byte_of 32), []|]. split; intros Hin%list_elem_of_singleton; discriminate Hin.
  - split; [done|]. split; intros Hin; apply Hn; [right|left]; eapply char_ascii; try done; vm_compute; reflexivity.
Qed.
(** What an event prints is published as one line: whatever the formatter writes and
    however it cuts it, the message is valid text of at most 48 KiB without line breaks,
    and it ends in an ellipsis exactly when something was left out; an event that is
    blank, and any event once the terminal is disconnected, publishes nothing; and a
    short line of text with no space around it is published as it is. *)
Theorem log_events_are_single_lines (pieces : list bytes) :
  let w := foldl writer_write make_writer pieces in
  let m := writer_message w in
  utf8_valid m = true /\ LINE_FEED ∉ m /\ CARRIAGE_RETURN ∉ m /\ length m <= 3 * MAXIMUM_TUI_LOG_LINE_BYTES + 3 /\
  truncated w = (MAXIMUM_TUI_LOG_LINE_BYTES <? length (concat pieces)) /\
  (forall lock p, log_event lock (Some p) pieces =
     Some (if lock && negb (bool_decide (m = [])) then (UiPublisher.try_publish p (UiEvent.OperationalLog m)).2 else p)) /\
  (forall lock r, log_event lock (router_disconnect true r) pieces = None) /\
  (utf8_valid (concat pieces) = true -> length (concat pieces) <= MAXIMUM_TUI_LOG_LINE_BYTES ->
   trim_text (concat pieces) = concat pieces -> LINE_FEED ∉ concat pieces -> CARRIAGE_RETURN ∉ concat pieces -> m = concat pieces).
Proof.
  intros w m. destruct (writes_keep pieces make_writer) as [Hk Ht]; [cbn; lia|done|]. cbn [make_writer written truncated app orb] in Hk, Ht. fold w in Hk, Ht.
  pose proof (trim_text_chars (utf8_lossy (written w)) (utf8_lossy_valid _)) as [Hok Hlen].
  assert (Hlines : Forall (fun c => char_ok c /\ LINE_FEED ∉ c /\ CARRIAGE_RETURN ∉ c) (map one_line (chars (trim_text (utf8_lossy (written w)))))).
  { apply Forall_fmap. eapply Forall_impl; [exact Hok|]. apply one_line_ok. }
  assert (Hdots : utf8_valid (if truncated w then ELLIPSIS else []) = true) by (destruct (truncated w); vm_compute; reflexivity).
  assert (Hno : forall x, x = LINE_FEED \/ x = CARRIAGE_RETURN -> x ∉ m).
  { intros x Hx. unfold m, writer_message. rewrite elem_of_app. intros [Hin|Hin].
    - apply list_elem_of_In, in_concat in Hin as (c & Hc%list_elem_of_In & Hin%list_elem_of_In). rewrite Forall_forall in Hlines.
      destruct (Hlines c Hc) as (_ & ? & ?). by destruct Hx as [-> | ->].
    - revert Hin. destruct Hx as [-> | ->], (truncated w); apply (bool_decide_unpack _); vm_compute; exact I. }
  split; [|split; [apply Hno; by left|split; [apply Hno; by right|]]].
  { unfold m, writer_message. rewrite utf8_valid_app; [done|]. apply chars_concat. eapply Forall_impl; [exact Hlines|]. by intros c (? & _). }
  split; [|split; [exact Ht|split; [|split]]].
  - unfold m, writer_message. rewrite length_app.
    assert (Hone : forall l, length (concat (map one_line l)) <= length (concat l)).
    { induction l as [|c l IH]; [done|]. cbn [map concat]. rewrite !length_app. assert (length (one_line c) <= length c); [|lia].
      unfold one_line. case_decide as Hc; [|done]. by destruct Hc as [-> | ->]. }
    specialize (Hone (chars (trim_text (utf8_lossy (written w))))). rewrite concat_chars in Hone.
    pose proof (lossy_length [] 0 0%N 0%N (written w)) as Hlossy. fold (utf8_lossy (written w)) in Hlossy. cbn [length plus] in Hlossy.
    assert (length (written w) <= MAXIMUM_TUI_LOG_LINE_BYTES) by (rewrite Hk, length_take; lia).
    assert (length (if truncated w then ELLIPSIS else []) <= 3) by (destruct (truncated w); cbn; lia). lia.
  - intros lock p. unfold log_event, writer_drop. fold w. fold m. destruct m; cbn; [by rewrite andb_false_r|]. by destruct lock.
  - intros lock r. unfold log_event, writer_drop, router_disconnect. fold w. fold m. destruct m; [done|]. by destruct lock.
  - intros Hv Hshort Htrim Hlf Hcr. unfold m, writer_message. rewrite Ht, Hk, (proj2 (Nat.ltb_ge _ _) Hshort), take_ge, utf8_lossy_fixed, Htrim, app_nil_r by done.
    assert (Hsame : map one_line (chars (concat pieces)) = chars (concat pieces)); [|by rewrite Hsame, concat_chars].
    rewrite <- (map_id (chars (concat pieces))) at 2. apply map_ext_in. intros c Hc. unfold one_line. rewrite decide_False; [done|].
    assert (Hsub : forall x, x ∈ c -> x ∈ concat pieces).
    { intros x Hx. rewrite <- (concat_chars (concat pieces)). apply list_elem_of_In, in_concat. exists c. split; [done|by apply list_elem_of_In]. }
    intros [-> | ->]; [apply Hcr|apply Hlf]; apply Hsub; set_solver.
Qed.
End Tracing.
