(* ===== verification/UiEditor.v ===== *)
(** The request editor of the terminal (crates/freja-ui/src/tui/editor.rs): the document
    it opens for a paused request, its bounded editing, the cursor, and what it submits.
    The modal text buffer (the vim-navigation crate), httparse and the [http] crate's
    value check are parameters; texts are their UTF-8 bytes. *)
From stdpp Require Import gmap strings.
From stdpp Require Import prelude.
From S2P Require Import Prelude Bytes Net Endpoint Domain PolicyModel Acl Guard Inspection AuditModel AuditSink Hooks Runtime HttpHeaders HttpMessages.

(** * Parameters *)

Definition NEWLINE : u8 := byte_of 10.
Definition CRLF : bytes := [byte_of 13; byte_of 10].
Record cursor : Type := Cursor { line : nat; byte_column : nat }.
#[export] Instance cursor_eq_dec : EqDecision cursor.
Proof. solve_decision. Defined.
Inductive editor_mode : Type := NormalMode | InsertMode.
#[export] Instance editor_mode_eq_dec : EqDecision editor_mode.
Proof. solve_decision. Defined.
Inductive motion_kind : Type := MoveLeft | MoveRight | LineStart | LineEnd | MoveUp | MoveDown.
(** [EditorInput]; a character is its bytes. *)
Inductive editor_input : Type :=
| InputInsert | InputEscape | InputCharacter (c : bytes) | InputNewline | InputBackspace | InputDelete | InputMotion (m : motion_kind).
(** The outcomes the editor distinguishes. *)
Inductive edit_outcome : Type := Ignored | ModeChanged | OtherOutcome.
#[export] Instance edit_outcome_eq_dec : EqDecision edit_outcome.
Proof. solve_decision. Defined.
(** [EditableBuffer], made with a byte limit. *)
Class TextBuffer : Type := {
  text_buffer : Type;
  with_byte_limit : bytes -> N -> text_buffer;
  buffer_text : text_buffer -> bytes;
  buffer_lines : text_buffer -> list bytes;
  buffer_cursor : text_buffer -> cursor;
  set_cursor : cursor -> text_buffer -> text_buffer;
  buffer_mode : text_buffer -> editor_mode;
  byte_len : text_buffer -> N;
  handle : editor_input -> text_buffer -> edit_outcome * text_buffer }.
(** [httparse::Request::parse] with room for a number of headers, and
    [HeaderValue::from_bytes]. *)
Inductive parse_outcome : Type :=
| ParsedHead (length : nat) (method path : option bytes) (version : option N) (headers : list (bytes * bytes))
| PartialHead
| ParseError.
Class HeadParser : Type := {
  parse_request : nat -> bytes -> parse_outcome;
  value_from_bytes : bytes -> bool }.

(** * Errors *)

Inductive edit_error : Type :=
| UnsupportedVersion
| NonTextHeader (name : bytes)
| NonTextBody
| DocumentTooLarge (actual maximum : N)
| Incomplete
| Parse
| ChangedStartLine
| InvalidHeaderName
| InvalidHeaderValue
| EditHeadTooLarge (actual maximum : N)
| EditBodyTooLarge (actual maximum : N)
| Mutation (e : mutation_error).
(** [impl Display for MutationError]. *)
Definition show_mutation_error (e : mutation_error) : bytes :=
  match e with
  | ProtectedHeader name => bs "hook may not mutate proxy-controlled header " ++ name
  | BodyTooLarge actual maximum =>
      bs "hook replacement body contains " ++ show_N actual ++ bs " bytes, exceeding the configured limit " ++ show_N maximum
  | EncodedBodyReplacement => bs "decoded body replacement cannot be applied after content encoding is committed"
  end.
Definition show_edit_error (e : edit_error) : bytes :=
  match e with
  | UnsupportedVersion => bs "the request editor supports HTTP/1.1 only"
  | NonTextHeader name => bs "header " ++ name ++ bs " is not editable UTF-8 text"
  | NonTextBody => bs "the request body is not editable UTF-8 text"
  | DocumentTooLarge actual maximum =>
      bs "edited request contains " ++ show_N actual ++ bs " bytes, exceeding the editor limit " ++ show_N maximum
  | Incomplete => bs "request head must end with a blank line"
  | Parse => bs "edited request is not valid HTTP/1.1 syntax"
  | ChangedStartLine => bs "method, request target, and HTTP version are read-only in the request editor"
  | InvalidHeaderName => bs "edited request has an invalid header name"
  | InvalidHeaderValue => bs "edited request has an invalid header value"
  | EditHeadTooLarge actual maximum =>
      bs "edited request headers contain " ++ show_N actual ++ bs " bytes, exceeding the configured limit " ++ show_N maximum
  | EditBodyTooLarge actual maximum =>
      bs "edited request body contains " ++ show_N actual ++ bs " bytes, exceeding the configured limit " ++ show_N maximum
  | Mutation e => bs "edited request is not permitted: " ++ show_mutation_error e
  end.

(** * Characters and the cursor *)

(** [char::is_control], on the bytes of the character. *)
Definition is_control (c : bytes) : bool :=
  match c with
  | [b] => (byte_val b <? 32)%N || (byte_val b =? 127)%N
  | [a; b] => (byte_val a =? 194)%N && byte_in 128 159 b
  | _ => false
  end.
(** [str::is_char_boundary]. *)
Definition is_char_boundary (text : bytes) (offset : nat) : bool :=
  match drop offset text with
  | [] => offset =? length text
  | b :: _ => negb (cont b)
  end.
(** The loop that steps back to a boundary. *)
Fixpoint floor_boundary (text : bytes) (offset : nat) : nat :=
  if is_char_boundary text offset then offset
  else match offset with 0 => 0 | S offset => floor_boundary text offset end.
Definition cursor_at_offset (document : bytes) (offset : nat) : cursor :=
  let offset := floor_boundary document (Nat.min offset (length document)) in
  let prefix := take offset document in
  Cursor (length (List.filter (fun b => bool_decide (b = NEWLINE)) prefix))
    match position NEWLINE (rev prefix) with
    | None => offset
    | Some i => offset - (length prefix - S i + 1)
    end.
(** The offsets of the characters of a text: [char_indices]. *)
Definition char_offsets (text : bytes) : list nat :=
  List.filter (is_char_boundary text) (seq 0 (length text)).
Definition previous_boundary (value : bytes) (cursor : nat) : option nat :=
  if (length value <? cursor) || negb (is_char_boundary value cursor) then None
  else last (char_offsets (take cursor value)).
Definition next_boundary (value : bytes) (cursor : nat) : option nat :=
  if (length value <? cursor) || negb (is_char_boundary value cursor) then None
  else
    match char_offsets (drop cursor value) with
    | [] => None
    | _ :: next :: _ => Some (cursor + next)
    | [_] => Some (length value)
    end.
Definition byte_at_character_column (value : bytes) (column : nat) : nat :=
  default (length value) (char_offsets value !! column).
Definition character_column (line : bytes) (byte_column : nat) : nat :=
  if (length line <? byte_column) || negb (is_char_boundary line byte_column) then 0
  else length (char_offsets (take byte_column line)).
Definition line_text (lines : list bytes) (i : nat) : bytes := default [] (lines !! i).
Definition insert_mode_cursor (lines : list bytes) (c : cursor) (motion : motion_kind) : cursor :=
  let line_index := Nat.min (line c) (length lines - 1) in
  let text := line_text lines line_index in
  let byte_column := Nat.min (byte_column c) (length text) in
  let stay := Cursor line_index byte_column in
  match motion with
  | MoveLeft =>
      if 0 <? byte_column then Cursor line_index (default 0 (previous_boundary text byte_column))
      else if 0 <? line_index then Cursor (line_index - 1) (length (line_text lines (line_index - 1))) else stay
  | MoveRight =>
      if byte_column <? length text then Cursor line_index (default (length text) (next_boundary text byte_column))
      else if S line_index <? length lines then Cursor (S line_index) 0 else stay
  | LineStart => Cursor line_index 0
  | LineEnd => Cursor line_index (length text)
  | MoveUp =>
      if 0 <? line_index then
        Cursor (line_index - 1) (byte_at_character_column (line_text lines (line_index - 1)) (character_column text byte_column))
      else stay
  | MoveDown =>
      if S line_index <? length lines then
        Cursor (S line_index) (byte_at_character_column (line_text lines (S line_index)) (character_column text byte_column))
      else stay
  end.

(** * The wire form of a document *)

(** [wire_request]: the wire bytes, where the body starts in them, and the room for
    headers. *)
Definition wire_request (document : bytes) : result edit_error (bytes * nat * nat) :=
  match head (occurrences_from 0 [NEWLINE; NEWLINE] document) with
  | None => Err Incomplete
  | Some separator =>
      let lines := split_on NEWLINE (take separator document) in
      let head := concat (map (fun l => l ++ CRLF) lines) ++ CRLF in
      Ok (head ++ drop (separator + 2) document, length head, Nat.max (length lines - 1) 1)
  end.

Section Wire.
Context `{HeaderIter, HttpLibrary, TextBuffer, HeadParser}.
Fixpoint append_parsed (m : header_map) (headers : list (bytes * bytes)) : result edit_error header_map :=
  match headers with
  | [] => Ok m
  | (name, value) :: headers =>
      name ← ok_or InvalidHeaderName (header_name name);
      if value_from_bytes value then append_parsed (hm_append name value m) headers else Err InvalidHeaderValue
  end.
Definition parsed_header_map (headers : list (bytes * bytes)) : result edit_error header_map := append_parsed hm_empty headers.
(** [HeaderMap::keys]: each name once, in iteration order. *)
Definition header_keys (m : header_map) : list bytes := remove_dups (map fst (hm_iter m)).
(** The filter on the names seen keeps the first of each. *)
Fixpoint first_of_each (seen : list bytes) (names : list bytes) : list bytes :=
  match names with
  | [] => []
  | n :: names => if decide (n ∈ seen) then first_of_each seen names else n :: first_of_each (n :: seen) names
  end.
Definition header_changes (original desired : header_map) (name : bytes) : head_plan :=
  if decide (get_all original name = get_all desired name) then []
  else RemoveHeader name :: map (AppendHeader name) (get_all desired name).
Definition header_diff (original desired : header_map) : head_plan :=
  concat (map (header_changes original desired) (first_of_each [] (header_keys original ++ header_keys desired))).
Definition header_budget (m : header_map) : N :=
  foldl (fun total e => sat_add (sat_add (sat_add total (lenN e.1)) (lenN e.2)) 4) 0%N (hm_iter m).
Definition validate_header_budget (m : header_map) (maximum : N) : result edit_error unit :=
  if (maximum <? header_budget m)%N then Err (EditHeadTooLarge (header_budget m) maximum) else Ok tt.

End Wire.

(** * The editor *)

Module RequestEditor.
Section Editor.
Context `{HeaderIter, HttpLibrary, TextBuffer, HeadParser}.
Record t : Type := Make {
  original_method : bytes;
  original_target : bytes;
  original_headers : header_map;
  original_body : bytes;
  maximum_head_bytes : N;
  maximum_body_bytes : N;
  maximum_document_bytes : N;
  buffer : text_buffer;
  viewport_top : N;
  status : bytes }.
Definition with_buffer (e : t) (b : text_buffer) : t :=
  Make (original_method e) (original_target e) (original_headers e) (original_body e) (maximum_head_bytes e) (maximum_body_bytes e)
    (maximum_document_bytes e) b (viewport_top e) (status e).
Definition with_status (e : t) (s : bytes) : t :=
  Make (original_method e) (original_target e) (original_headers e) (original_body e) (maximum_head_bytes e) (maximum_body_bytes e)
    (maximum_document_bytes e) (buffer e) (viewport_top e) s.
Definition with_viewport (e : t) (top : N) : t :=
  Make (original_method e) (original_target e) (original_headers e) (original_body e) (maximum_head_bytes e) (maximum_body_bytes e)
    (maximum_document_bytes e) (buffer e) top (status e).
Definition NORMAL_STATUS : bytes := bs "NORMAL — i insert | s submit | q discard".
Definition INSERT_STATUS : bytes := bs "INSERT — Esc/jj normal | Enter newline | Ctrl+S submit".
(** The text of the head: the start line, the headers and a blank line. *)
Fixpoint header_lines (entries : list (bytes * bytes)) : result edit_error bytes :=
  match entries with
  | [] => Ok []
  | (name, value) :: entries =>
      value ← ok_or (NonTextHeader name) (to_str value);
      rest ← header_lines entries;
      Ok (name ++ bs ": " ++ value ++ [NEWLINE] ++ rest)
  end.
Definition new (s : http_request_snapshot) : result edit_error t :=
  if decide (snap_version s <> HTTP_11) then Err UnsupportedVersion
  else
    let start_line := snap_method s ++ bs " " ++ uri_text (snap_uri s) ++ bs " HTTP/1.1" in
    headers ← header_lines (hm_iter (snap_headers s));
    let head := start_line ++ [NEWLINE] ++ headers ++ [NEWLINE] in
    if negb (utf8_valid (snap_body s)) then Err NonTextBody
    else
      let document := head ++ snap_body s in
      let maximum := sat_add (sat_add (sat_add (HttpMessages.maximum_head_bytes s) (HttpMessages.maximum_body_bytes s))
                                (lenN start_line)) 2 in
      if (maximum <? lenN document)%N then Err (DocumentTooLarge (lenN document) maximum)
      else
        let b := set_cursor (cursor_at_offset document (length head)) (with_byte_limit document maximum) in
        Ok (Make (snap_method s) (uri_text (snap_uri s)) (snap_headers s) (snap_body s)
              (HttpMessages.maximum_head_bytes s) (HttpMessages.maximum_body_bytes s) maximum b 0 NORMAL_STATUS).
Definition mode (e : t) : editor_mode := buffer_mode (buffer e).
Definition set_mode_status (e : t) : t :=
  with_status e match mode e with NormalMode => NORMAL_STATUS | InsertMode => INSERT_STATUS end.
Definition input (i : editor_input) (e : t) : t := with_buffer e (handle i (buffer e)).2.
Definition enter_insert_mode (e : t) : t := set_mode_status (input InputInsert e).
Definition enter_normal_mode (e : t) : t := set_mode_status (input InputEscape e).
Definition set_error (e : t) (error : edit_error) : t := with_status e (bs "ERROR — " ++ show_edit_error error).
(** The row the view starts at, which the editor keeps. *)
Definition keep_cursor_visible (e : t) (cursor_row visible_rows : N) : N * t :=
  if (visible_rows =? 0)%N then (viewport_top e, e)
  else
    let top := viewport_top e in
    let top := if (cursor_row <? top)%N then cursor_row
               else if (N.min 65535 (top + visible_rows) <=? cursor_row)%N then (cursor_row - (visible_rows - 1))%N else top in
    (top, with_viewport e top).
Definition handle_bounded_insert (i : editor_input) (required_bytes : N) (e : t) : t :=
  let exceeds_limit := match checked_add (byte_len (buffer e)) required_bytes with
                       | Some next => (maximum_document_bytes e <? next)%N | None => true end in
  let '(outcome, b) := handle i (buffer e) in
  let e := with_buffer e b in
  match outcome with
  | ModeChanged => set_mode_status e
  | Ignored =>
      if exceeds_limit
      then with_status e (bs "ERROR — request editor limit is " ++ show_N (maximum_document_bytes e) ++ bs " bytes") else e
  | OtherOutcome => e
  end.
Definition insert_character (c : bytes) (e : t) : t :=
  if is_control c then e else handle_bounded_insert (InputCharacter c) (lenN c) e.
Definition insert_tab (e : t) : t := handle_bounded_insert (InputCharacter [byte_of 9]) 1 e.
Definition insert_newline (e : t) : t := handle_bounded_insert InputNewline 1 e.
Definition backspace : t -> t := input InputBackspace.
Definition delete : t -> t := input InputDelete.
Definition move_cursor (m : motion_kind) (e : t) : t :=
  if decide (mode e = NormalMode) then input (InputMotion m) e
  else with_buffer e (set_cursor (insert_mode_cursor (buffer_lines (buffer e)) (buffer_cursor (buffer e)) m) (buffer e)).
Definition move_left : t -> t := move_cursor MoveLeft.
Definition move_right : t -> t := move_cursor MoveRight.
Definition move_home : t -> t := move_cursor LineStart.
Definition move_end : t -> t := move_cursor LineEnd.
Definition move_up : t -> t := move_cursor MoveUp.
Definition move_down : t -> t := move_cursor MoveDown.

(** [RequestEditSubmission]. *)
Record submission : Type := RequestEditSubmission {
  decision : interactive_decision;
  submitted_map : header_map;
  submitted_headers : list (bytes * bytes);
  submitted_body : bytes }.
Definition submit (e : t) : result edit_error submission :=
  '(wire, body_offset, header_capacity) ← wire_request (buffer_text (buffer e));
  match parse_request header_capacity wire with
  | ParseError => Err Parse
  | PartialHead => Err Incomplete
  | ParsedHead parsed_head_bytes method path version headers =>
      if decide (parsed_head_bytes <> body_offset) then Err Incomplete
      else if decide (method <> Some (original_method e) \/ path <> Some (original_target e) \/ version <> Some 1%N)
      then Err ChangedStartLine
      else
        let body := drop body_offset wire in
        if (maximum_body_bytes e <? lenN body)%N then Err (EditBodyTooLarge (lenN body) (maximum_body_bytes e))
        else
          desired ← parsed_header_map headers;
          _ ← validate_header_budget desired (maximum_head_bytes e);
          let head := header_diff (original_headers e) desired in
          _ ← map_err Mutation (apply_head_mutation (original_headers e) head).1;
          let body_plan := if decide (body = original_body e) then KeepBody else ReplaceBody body in
          let decision := if decide (head = [] /\ body_plan = KeepBody) then Continue
                          else ModifyRequest (HttpRequestMutationPlan head body_plan) in
          let display := match body_plan with ReplaceBody _ => normalize_replaced_body_headers desired | KeepBody => desired end in
          let display := hm_remove (bs "trailer") (hm_remove (bs "transfer-encoding") display) in
          let display := hm_insert (bs "content-length") (show_N (lenN body)) display in
          _ ← validate_header_budget display (maximum_head_bytes e);
          Ok (RequestEditSubmission decision display (hm_iter display) body)
  end.
End Editor.
End RequestEditor.

(** * What is submitted *)

Section Submission.
Context `{HeaderIter, !HeaderMapLaws, !HeaderIterLaws, HttpLibrary, TextBuffer, HeadParser}.
Lemma first_of_each_spec names : forall seen n, n ∈ first_of_each seen names <-> n ∈ names /\ n ∉ seen.
Proof.
  induction names as [|m names IH]; intros seen n; cbn [first_of_each]; [split; [intros ?%elem_of_nil; done|by intros [?%elem_of_nil _]]|].
  case_decide as Hm; rewrite ?elem_of_cons, IH, ?not_elem_of_cons; [|destruct (decide (n = m))]; naive_solver.
Qed.
Lemma apply_head_app m a b :
  apply_head_mutation m (a ++ b) = match apply_head_mutation m a with (Ok _, m) => apply_head_mutation m b | (Err e, m) => (Err e, m) end.
Proof. revert m; induction a as [|x a IH]; intros m; cbn; [done|]. by destruct (validate_mutable_header _). Qed.
Lemma apply_appends name vs : forall m m', apply_head_mutation m (map (AppendHeader name) vs) = (Ok tt, m') ->
  forall k, get_all m' k = if decide (name = k) then get_all m k ++ vs else get_all m k.
Proof.
  induction vs as [|v vs IH]; intros m m' Hm k; cbn in Hm.
  - injection Hm as <-. case_decide; by rewrite ?app_nil_r.
  - destruct (validate_mutable_header name); [|done]. rewrite (IH _ _ Hm), get_append. case_decide; [by rewrite <- app_assoc|done].
Qed.
Lemma apply_changes original desired name m m' :
  apply_head_mutation m (header_changes original desired name) = (Ok tt, m') ->
  (forall k, get_all m k = get_all original k \/ get_all m k = get_all desired k) ->
  (forall k, get_all m' k = if decide (name = k) then get_all desired k else get_all m k) /\
  (name ∈ protected_headers -> get_all original name = get_all desired name).
Proof.
  unfold header_changes. case_decide as Heq; intros Hm Hk.
  - injection Hm as <-. split; [|done]. intros k. case_decide; [subst k|done]. destruct (Hk name); congruence.
  - cbn in Hm. unfold validate_mutable_header in Hm. case_bool_decide as Hp; [done|]. split; [|done].
    intros k. rewrite (apply_appends _ _ _ _ Hm), get_remove. case_decide; [by subst|done].
Qed.
(** Applying the difference gives the desired values of every name, and changes no
    protected one. *)
Lemma apply_diff original desired m' :
  apply_head_mutation original (header_diff original desired) = (Ok tt, m') ->
  forall k, get_all m' k = get_all desired k /\ (k ∈ protected_headers -> get_all original k = get_all desired k).
Proof.
  unfold header_diff. set (names := first_of_each [] _). intros Hm k.
  assert (Hgen : forall names m, (forall k, get_all m k = get_all original k \/ get_all m k = get_all desired k) ->
    apply_head_mutation m (concat (map (header_changes original desired) names)) = (Ok tt, m') ->
    (get_all m' k = get_all m k \/ get_all m' k = get_all desired k) /\
    (k ∈ names -> get_all m' k = get_all desired k /\ (k ∈ protected_headers -> get_all original k = get_all desired k))).
  { clear Hm names. intros names. induction names as [|n names IH]; intros m Hinv Hm; cbn in Hm.
    - injection Hm as <-. split; [by left|by intros ?%elem_of_nil].
    - rewrite apply_head_app in Hm. destruct (apply_head_mutation m (header_changes _ _ n)) as [[[]|e] m1] eqn:E; [|done].
      apply apply_changes in E as [Hget Hprot]; [|done]. destruct (IH m1) as [Hkeep Hin]; [|done|].
      { intros j. rewrite Hget. case_decide; [by right|done]. }
      pose proof (Hget k) as Hgk. rewrite elem_of_cons. case_decide as Hnk.
      + subst n. split; [right; destruct Hkeep; congruence|]. intros _.
        split; [destruct Hkeep; congruence|done].
      + split; [destruct Hkeep; [left|right]; congruence|]. intros [->|?]; [done|by apply Hin]. }
  destruct (Hgen names original) as [Hkeep Hin]; [by left|done|].
  destruct (decide (k ∈ names)) as [Hk|Hk]; [by apply Hin|].
  assert (Hempty : get_all original k = [] /\ get_all desired k = []).
  { unfold names in Hk. rewrite first_of_each_spec, elem_of_app in Hk. unfold header_keys in Hk. rewrite !elem_of_remove_dups in Hk.
    rewrite !get_iter. assert (Hfilter : forall l : list (bytes * bytes), k ∉ map fst l -> (filter (fun e => e.1 = k) l).*2 = []).
    { intros l Hl. induction l as [|e l IH]; [done|]. cbn in Hl. apply not_elem_of_cons in Hl as [He Hl].
      rewrite filter_cons, decide_False by congruence. by apply IH. }
    split; apply Hfilter; intros Hin'; apply Hk; split; try (intros ?%elem_of_nil; done); tauto. }
  destruct Hempty as [Ho Hd]. rewrite Ho, Hd in *. split; [by destruct Hkeep|done].
Qed.
Lemma remove_all_get names : forall m k, get_all (foldl (fun h n => hm_remove n h) m names) k = if decide (k ∈ names) then [] else get_all m k.
Proof.
  induction names as [|n names IH]; intros m k; cbn [foldl]; [done|].
  rewrite IH, get_remove. repeat case_decide; try done; rewrite elem_of_cons in *; naive_solver.
Qed.
(** Maps with the same values for every name. *)
Definition same_headers (a b : header_map) : Prop := forall k, get_all a k = get_all b k.
#[local] Instance same_headers_equivalence : Equivalence same_headers.
Proof. split; [by intros a k|by intros a b Hab k|]. intros a b c Hab Hbc k. by rewrite (Hab k), (Hbc k). Qed.
#[local] Instance hm_remove_proper n : Proper (same_headers ==> same_headers) (hm_remove n).
Proof. intros a b Hab k. rewrite !get_remove. by case_decide. Qed.
#[local] Instance hm_insert_proper n v : Proper (same_headers ==> same_headers) (hm_insert n v).
Proof. intros a b Hab k. rewrite !get_insert. by case_decide. Qed.
#[local] Instance normalize_proper : Proper (same_headers ==> same_headers) normalize_replaced_body_headers.
Proof. intros a b Hab k. unfold normalize_replaced_body_headers. rewrite !remove_all_get. by case_decide. Qed.
(** Without changes the two maps agree. *)
Lemma diff_empty original desired : header_diff original desired = [] -> same_headers original desired.
Proof. intros Hd k. pose proof (apply_diff original desired original) as Happ. rewrite Hd in Happ. by destruct (Happ eq_refl k). Qed.

Lemma header_diff_same original desired : (forall k, get_all original k = get_all desired k) -> header_diff original desired = [].
Proof.
  intros Hsame. unfold header_diff. induction (first_of_each [] _) as [|n names IH]; [done|].
  cbn. unfold header_changes. by rewrite decide_True by apply Hsame.
Qed.
Lemma budget_ok m maximum : validate_header_budget m maximum = Ok tt -> (header_budget m <= maximum)%N.
Proof. unfold validate_header_budget. by destruct (N.ltb_spec maximum (header_budget m)). Qed.
(** The headers a submission shows: those of the document, with the length of its body
    and without what framed another; a new body drops what described the old one. *)
Definition shown_values (desired : header_map) (b : bytes) (replaced : bool) (n : bytes) : list bytes :=
  if decide (n = bs "content-length") then [show_N (lenN b)]
  else if decide (n = bs "transfer-encoding" \/ n = bs "trailer") then []
  else if replaced && bool_decide (n ∈ representation_headers) then []
  else get_all desired n.
Lemma shown_get desired b replaced n :
  get_all (hm_insert (bs "content-length") (show_N (lenN b))
    (hm_remove (bs "trailer") (hm_remove (bs "transfer-encoding")
       (if replaced : bool then normalize_replaced_body_headers desired else desired)))) n
  = shown_values desired b replaced n.
Proof.
  unfold shown_values. rewrite get_insert. destruct (decide (bs "content-length" = n)) as [<-|Hn]; [by rewrite decide_True|].
  rewrite decide_False, !get_remove by congruence.
  destruct (decide (bs "trailer" = n)) as [<-|Ht]; [by rewrite decide_True by auto|].
  destruct (decide (bs "transfer-encoding" = n)) as [<-|He]; [by rewrite decide_True by auto|].
  rewrite decide_False by naive_solver. destruct replaced; [|done]. cbn [andb]. rewrite get_normalized. by case_bool_decide.
Qed.
(** C15. The operator sees what is sent.  A submission is read from the document: its body
    is what follows the head, and its headers are those the head parses to, with the
    length of that body.  It keeps the method, the target and the version of the paused
    request and the values of every header that the proxy controls, and stays within
    the limits of head and body.  Its decision does to the original request, through
    the same application as every mutation, exactly what the terminal shows: it is to
    go on precisely when neither a header nor the body was changed, and otherwise a
    plan that is accepted and yields the submitted body and, name by name, the submitted
    headers. *)
Theorem submissions_are_what_is_shown (e : RequestEditor.t) (s : RequestEditor.submission) :
  RequestEditor.submit e = Ok s ->
  let original := RequestEditor.original_headers e in
  let changed := bool_decide (RequestEditor.submitted_body s <> RequestEditor.original_body e) in
  exists wire offset room headers desired,
    wire_request (buffer_text (RequestEditor.buffer e)) = Ok (wire, offset, room) /\
    parse_request room wire
      = ParsedHead offset (Some (RequestEditor.original_method e)) (Some (RequestEditor.original_target e)) (Some 1%N) headers /\
    parsed_header_map headers = Ok desired /\
    RequestEditor.submitted_body s = drop offset wire /\
    (forall n, get_all (RequestEditor.submitted_map s) n = shown_values desired (RequestEditor.submitted_body s) changed n) /\
    RequestEditor.submitted_headers s = hm_iter (RequestEditor.submitted_map s) /\
    (lenN (RequestEditor.submitted_body s) <= RequestEditor.maximum_body_bytes e)%N /\
    (header_budget (RequestEditor.submitted_map s) <= RequestEditor.maximum_head_bytes e)%N /\
    (forall n, n ∈ protected_headers -> get_all original n = get_all desired n) /\
    (RequestEditor.decision s = Continue <->
     same_headers original desired /\ RequestEditor.submitted_body s = RequestEditor.original_body e) /\
    match RequestEditor.decision s with
    | Continue => True
    | ModifyRequest plan => exists h,
        apply_http_mutation original (RequestEditor.original_body e) (plan_head plan) (plan_body plan)
          (RequestEditor.maximum_body_bytes e) = (Ok (RequestEditor.submitted_body s), h) /\
        same_headers h (RequestEditor.submitted_map s)
    | _ => False
    end.
Proof.
  unfold RequestEditor.submit. intros Hs. cbv zeta. apply bind_Ok in Hs as ([[wire offset] room] & Hw & Hs).
  destruct (parse_request room wire) as [n method path version headers| |] eqn:Hp; [|done|done].
  case_decide as Hn; [done|]. subst n. case_decide as Hline; [done|].
  assert (method = Some (RequestEditor.original_method e) /\ path = Some (RequestEditor.original_target e) /\ version = Some 1%N)
    as (-> & -> & ->) by (split_and!; apply dec_stable; tauto).
  destruct (N.ltb_spec (RequestEditor.maximum_body_bytes e) (lenN (drop offset wire))) as [|Hbody]; [done|].
  apply bind_Ok in Hs as (desired & Hdesired & Hs). apply bind_Ok in Hs as ([] & _ & Hs).
  apply bind_Ok in Hs as ([] & Hhead & Hs). apply bind_Ok in Hs as ([] & Hbudget & [= <-]).
  cbn [RequestEditor.submitted_body RequestEditor.submitted_map RequestEditor.decision RequestEditor.submitted_headers] in *.
  destruct (apply_head_mutation (RequestEditor.original_headers e) _) as [[[]|err] h] eqn:Ha; [|done].
  pose proof (apply_diff _ _ _ Ha) as Hdiff. assert (Hh : same_headers h desired) by (intros k; by apply Hdiff).
  exists wire, offset, room, headers, desired. do 4 (split; [done|]). split.
  { intros n. rewrite <- (shown_get desired (drop offset wire)). by destruct (decide (drop offset wire = _)), (bool_decide_reflect (drop offset wire <> RequestEditor.original_body e)). }
  split; [done|]. split; [done|]. split; [by apply budget_ok|]. split; [intros n ?; by apply Hdiff|].
  case_decide as Hb; [case_decide as Hsame|rewrite decide_False by (by intros [_ ?])].
  - destruct Hsame as [Hd _]. split; [|done]. split; [intros _; split; [by apply diff_empty|done]|done].
  - split.
    { split; [done|]. intros [Hs _]. destruct Hsame. split; [by apply header_diff_same|done]. }
    cbn [plan_head plan_body]. unfold apply_http_mutation. rewrite Ha. cbn [apply_body_mutation].
    eexists. split; [by rewrite Hb|]. by rewrite Hb, Hh.
  - split; [split; [done|by intros [_ ?]]|]. cbn [plan_head plan_body]. unfold apply_http_mutation. rewrite Ha. cbn [apply_body_mutation].
    rewrite (proj2 (N.ltb_ge _ _) Hbody). eexists. split; [done|]. by rewrite Hh.
Qed.
End Submission.
