(* ===== verification/UiRoundTrip.v ===== *)
(** A request opened in the editor and submitted unchanged goes on as it came
    (crates/freja-ui/src/tui/editor.rs), under what httparse, the [http] crate and the
    text buffer document. *)
From stdpp Require Import gmap strings.
From stdpp Require Import prelude.
From S2P Require Import Prelude Bytes Net Endpoint Domain PolicyModel Acl Guard Inspection AuditModel AuditSink Hooks Framing Runtime HttpHeaders HttpMessages UiEditor.

(** * Documents by their lines *)

(** Lines that end each with a newline. *)
Definition unlines (lines : list bytes) : bytes := concat (map (fun l => l ++ [NEWLINE]) lines).
Definition text_line (l : bytes) : Prop := l <> [] /\ NEWLINE ∉ l.

Lemma occurrence_skips l rest : forall i, NEWLINE ∉ l ->
  occurrences_from i [NEWLINE; NEWLINE] (l ++ rest) = occurrences_from (i + length l) [NEWLINE; NEWLINE] rest.
Proof.
  induction l as [|b l IH]; intros i Hl; cbn [app length]; [by rewrite Nat.add_0_r|].
  apply not_elem_of_cons in Hl as [Hb Hl]. cbn [occurrences_from].
  assert (Hs : starts_with [NEWLINE; NEWLINE] (b :: l ++ rest) = false).
  { unfold starts_with. cbn [strip_pre]. by rewrite decide_False. }
  rewrite Hs. cbn [app]. rewrite IH by done. by rewrite Nat.add_succ_r.
Qed.
Lemma unlines_cons l lines rest : unlines (l :: lines) ++ rest = l ++ NEWLINE :: (unlines lines ++ rest).
Proof. unfold unlines. cbn. by rewrite <- !app_assoc. Qed.
Lemma blank_line lines body : forall i, Forall text_line lines -> lines <> [] ->
  head (occurrences_from i [NEWLINE; NEWLINE] (unlines lines ++ NEWLINE :: body)) = Some (i + length (unlines lines) - 1).
Proof.
  induction lines as [|l lines IH]; intros i Hlines Hne; [done|]. apply Forall_cons in Hlines as [[Hl Hnl] Hlines].
  assert (Hlen : length (unlines (l :: lines)) = length l + 1 + length (unlines lines)).
  { unfold unlines. cbn. rewrite !length_app. cbn. lia. }
  rewrite unlines_cons, occurrence_skips by done. rewrite Hlen. destruct lines as [|l2 lines].
  - assert (Hs : starts_with [NEWLINE; NEWLINE] (NEWLINE :: unlines [] ++ NEWLINE :: body) = true) by (apply starts_with_spec; by exists body).
    cbn [occurrences_from]. rewrite Hs. cbn [app head]. f_equal. cbn. lia.
  - cbn [occurrences_from].
    assert (Hs : starts_with [NEWLINE; NEWLINE] (NEWLINE :: unlines (l2 :: lines) ++ NEWLINE :: body) = false).
    { rewrite unlines_cons. apply Forall_cons in Hlines as [[Hl2 Hnl2] _]. destruct l2 as [|b l2]; [done|].
      apply not_elem_of_cons in Hnl2 as [Hb _]. unfold starts_with. cbn. by rewrite decide_True, decide_False. }
    rewrite Hs. cbn [app]. rewrite IH by done. f_equal. lia.
Qed.
Lemma take_unlines lines rest :
  lines <> [] -> Forall text_line lines -> split_on NEWLINE (take (length (unlines lines) - 1) (unlines lines ++ rest)) = lines.
Proof.
  rewrite take_app_le by lia. induction lines as [|l lines IH]; intros Hne Hlines; [done|].
  apply Forall_cons in Hlines as [[Hl Hnl] Hlines].
  rewrite <- (app_nil_r (unlines (l :: lines))), unlines_cons, app_nil_r.
  rewrite length_app. cbn [length]. replace (length l + S (length (unlines lines)) - 1) with (length l + length (unlines lines)) by lia.
  destruct lines as [|l2 lines].
  - cbn. rewrite Nat.add_0_r, take_app_length. by apply split_on_none.
  - rewrite firstn_app_2. assert (Hpos : length (unlines (l2 :: lines)) = S (length (unlines (l2 :: lines)) - 1)).
    { unfold unlines. cbn. rewrite !length_app. cbn. lia. }
    rewrite Hpos. cbn [take]. rewrite split_on_app by done. f_equal. by apply IH.
Qed.

(** * The round trip *)

(** A buffer within its limit holds the text it was made with; moving the cursor keeps
    it. *)
Class TextBufferLaws `{TextBuffer} : Prop := {
  text_of_limit text limit : (lenN text <= limit)%N -> buffer_text (with_byte_limit text limit) = text;
  text_of_cursor c b : buffer_text (set_cursor c b) = buffer_text b }.

Section RoundTrip.
Context `{HeaderIter, !HeaderMapLaws, !HeaderIterLaws, HttpLibrary, TextBuffer, !TextBufferLaws, HeadParser}.
Definition start_line (s : http_request_snapshot) : bytes := snap_method s ++ bs " " ++ uri_text (snap_uri s) ++ bs " HTTP/1.1".
Definition head_lines (s : http_request_snapshot) : list bytes :=
  start_line s :: map (fun e => e.1 ++ bs ": " ++ e.2) (hm_iter (snap_headers s)).
(** The head of a snapshot on the wire. *)
Definition wire_head (s : http_request_snapshot) : bytes := concat (map (fun l => l ++ CRLF) (head_lines s)) ++ CRLF.
(** A request whose head is text, one line each, that the [http] crate and httparse read
    back as it is written. *)
Record readable (s : http_request_snapshot) : Prop := {
  readable_lines : Forall text_line (head_lines s);
  readable_headers : Forall (fun e => to_str e.2 = Some e.2 /\ header_name e.1 = Some e.1 /\ value_from_bytes e.2 = true)
    (hm_iter (snap_headers s));
  readable_head : parse_request (Nat.max (length (hm_iter (snap_headers s))) 1) (wire_head s ++ snap_body s)
    = ParsedHead (length (wire_head s)) (Some (snap_method s)) (Some (uri_text (snap_uri s))) (Some 1%N) (hm_iter (snap_headers s)) }.
Lemma header_lines_text entries :
  Forall (fun e => to_str e.2 = Some e.2 /\ header_name e.1 = Some e.1 /\ value_from_bytes e.2 = true) entries ->
  RequestEditor.header_lines entries = Ok (unlines (map (fun e => e.1 ++ bs ": " ++ e.2) entries)).
Proof.
  induction entries as [|[n v] entries IH]; intros He; [done|]. apply Forall_cons in He as [(Hv & _ & _) He].
  cbn [RequestEditor.header_lines]. cbn in Hv. rewrite Hv. cbn [ok_or mbind result_bind]. rewrite IH by done.
  unfold unlines. cbn. by rewrite <- !app_assoc.
Qed.
Lemma append_parsed_all entries : forall m,
  Forall (fun e => to_str e.2 = Some e.2 /\ header_name e.1 = Some e.1 /\ value_from_bytes e.2 = true) entries ->
  exists m', append_parsed m entries = Ok m' /\ forall k, get_all m' k = get_all m k ++ (filter (fun e => e.1 = k) entries).*2.
Proof.
  induction entries as [|[n v] entries IH]; intros m He; [by exists m; split; [|intros k; rewrite app_nil_r]|].
  apply Forall_cons in He as [(_ & Hn & Hv) He]. cbn in Hn, Hv. cbn [append_parsed]. rewrite Hn, Hv. cbn [ok_or mbind result_bind].
  destruct (IH (hm_append n v m) He) as (m' & Hm' & Hget). exists m'. split; [done|]. intros k. rewrite Hget, get_append, filter_cons.
  cbn. case_decide; [by rewrite <- app_assoc|done].
Qed.
Lemma document_wire s :
  readable s -> wire_request (unlines (head_lines s) ++ NEWLINE :: snap_body s)
    = Ok (wire_head s ++ snap_body s, length (wire_head s), Nat.max (length (hm_iter (snap_headers s))) 1).
Proof.
  intros [Hlines _ _]. unfold wire_request. rewrite blank_line by done. cbn [head_lines plus].
  rewrite take_unlines by done. fold (head_lines s). unfold wire_head at 1 2.
  assert (Hlen : 1 <= length (unlines (head_lines s))) by (unfold unlines, head_lines; cbn; rewrite !length_app; cbn; lia).
  replace (length (unlines (head_lines s)) - 1 + 2) with (length (unlines (head_lines s)) + 1) by lia.
  assert (Hcount : length (head_lines s) = S (length (hm_iter (snap_headers s)))) by (cbn; by rewrite length_map).
  rewrite drop_app_add, Hcount, Nat.sub_succ, Nat.sub_0_r. done.
Qed.
(** C21. Opening a request in the editor and submitting it unchanged changes nothing: the
    submission's decision lets the request go on as it came and its body is the original
    one; only the limits of head and body can stop it. *)
Theorem unchanged_documents_continue (s : http_request_snapshot) (e : RequestEditor.t) :
  readable s -> RequestEditor.new s = Ok e ->
  match RequestEditor.submit e with
  | Ok x => RequestEditor.decision x = Continue /\ RequestEditor.submitted_body x = snap_body s
  | Err (EditHeadTooLarge _ maximum) => maximum = HttpMessages.maximum_head_bytes s
  | Err (EditBodyTooLarge actual maximum) => actual = lenN (snap_body s) /\ maximum = HttpMessages.maximum_body_bytes s
  | Err _ => False
  end.
Proof.
  intros Hs Hnew. pose proof Hs as [_ Hheaders Hhead]. unfold RequestEditor.new in Hnew. case_decide as Hv; [done|].
  rewrite header_lines_text in Hnew by done. cbn [mbind result_bind] in Hnew.
  destruct (negb (utf8_valid (snap_body s))); [done|].
  match type of Hnew with (if (?m <? lenN ?d)%N then _ else _) = _ => destruct (N.ltb_spec m (lenN d)) as [|Hfits]; [done|] end.
  injection Hnew as <-. unfold RequestEditor.submit. cbn [RequestEditor.buffer]. rewrite text_of_cursor, text_of_limit by done.
  match goal with |- context [wire_request ?d] => assert (Hdoc : d = unlines (head_lines s) ++ NEWLINE :: snap_body s) end.
  { unfold head_lines. rewrite unlines_cons. unfold start_line. rewrite <- ?app_assoc. cbn [app]. rewrite <- ?app_assoc. reflexivity. }
  rewrite Hdoc, document_wire by done. cbn [mbind result_bind]. rewrite Hhead.
  rewrite decide_False by auto. cbn [RequestEditor.original_method RequestEditor.original_target].
  rewrite decide_False by naive_solver. rewrite drop_app_length.
  cbn [RequestEditor.maximum_body_bytes RequestEditor.maximum_head_bytes RequestEditor.original_headers RequestEditor.original_body].
  destruct (HttpMessages.maximum_body_bytes s <? lenN (snap_body s))%N; [done|].
  destruct (append_parsed_all (hm_iter (snap_headers s)) hm_empty Hheaders) as (desired & Hdesired & Hget).
  unfold parsed_header_map. rewrite Hdesired. cbn [mbind result_bind].
  rewrite (header_diff_same (snap_headers s) desired).
  2: { intros k. by rewrite Hget, get_empty, get_iter. }
  unfold validate_header_budget. destruct (_ <? header_budget desired)%N; [done|]. cbn [apply_head_mutation fst map_err mbind result_bind].
  rewrite (decide_True (P := snap_body s = snap_body s)) by done. rewrite decide_True by done.
  match goal with |- context [(?a <? ?b)%N] => destruct (a <? b)%N end; done.
Qed.
End RoundTrip.

(** * A concrete editor: a buffer that holds its text, a parser of lines *)
Module Example_editor.
#[local] Existing Instance Example_http.list_headers.
#[local] Existing Instance Example_http.list_header_laws.
#[local] Existing Instance Example_http.list_iter.
#[local] Existing Instance Example_http.list_iter_laws.
#[local] Instance library : HttpLibrary := {|
  header_name := fun t => if forallb token_byte t then Some (to_ascii_lowercase t) else None;
  header_value := fun _ => true; to_str := Some; base64_decode := Some; parse_uri := fun p => Some (Uri p None None (Some p));
  build_uri := fun _ _ _ => None |}.
#[local] Instance plain_buffer : TextBuffer := {|
  text_buffer := bytes * cursor; with_byte_limit := fun text _ => (text, Cursor 0 0); buffer_text := fst;
  buffer_lines := fun b => split_on NEWLINE b.1; buffer_cursor := snd; set_cursor := fun c b => (b.1, c);
  buffer_mode := fun _ => NormalMode; byte_len := fun b => lenN b.1; handle := fun _ b => (OtherOutcome, b) |}.
#[local] Instance plain_buffer_laws : TextBufferLaws.
Proof. by split. Qed.
Definition parse_header (l : bytes) : option (bytes * bytes) := e ← split_once (byte_of 58) l; Some (e.1, drop 1 e.2).
Definition parse_lines (wire : bytes) : parse_outcome :=
  match head (occurrences_from 0 (CRLF ++ CRLF) wire) with
  | None => PartialHead
  | Some i =>
      match map (fun l => default l (strip_pre [NEWLINE] l)) (split_on (byte_of 13) (take i wire)) with
      | [] => ParseError
      | start :: lines =>
          match split_on (byte_of 32) start with
          | [m; t; v] => ParsedHead (i + 4) (Some m) (Some t) (if decide (v = HTTP_11) then Some 1%N else None) (omap parse_header lines)
          | _ => ParseError
          end
      end
  end.
#[local] Instance line_parser : HeadParser := {| parse_request := fun _ => parse_lines; value_from_bytes := fun _ => true |}.
Definition entries : list (bytes * bytes) := [(bs "host", bs "a.example"); (bs "content-length", bs "3")].
Definition snapshot : http_request_snapshot :=
  HttpRequestSnapshot (bs "POST") (Uri (bs "/submit") None None (Some (bs "/submit"))) HTTP_11 (entries : header_map) (bs "old") 4096 4096.
Lemma snapshot_readable : readable snapshot.
Proof.
  split.
  - repeat constructor; try discriminate; apply (bool_decide_unpack _); vm_compute; exact I.
  - repeat constructor.
  - vm_compute. reflexivity.
Qed.
(** The head as opened, with one header added and another body. *)
Definition edited : option RequestEditor.t :=
  match RequestEditor.new snapshot with
  | Ok e => Some (RequestEditor.with_buffer e (bs "POST /submit HTTP/1.1" ++ [NEWLINE] ++ bs "host: a.example" ++ [NEWLINE]
      ++ bs "content-length: 3" ++ [NEWLINE] ++ bs "x-review: accepted" ++ [NEWLINE; NEWLINE] ++ bs "first" ++ [NEWLINE] ++ bs "second", Cursor 0 0))
  | Err _ => None
  end.
Definition outcome (e : option RequestEditor.t) : option (interactive_decision * list (bytes * bytes)) :=
  e ← e; match RequestEditor.submit e with Ok x => Some (RequestEditor.decision x, RequestEditor.submitted_headers x) | Err _ => None end.
Example edited_is_modified :
  outcome edited = Some (ModifyRequest (HttpRequestMutationPlan [RemoveHeader (bs "x-review"); AppendHeader (bs "x-review") (bs "accepted")]
      (ReplaceBody (bs "first" ++ [NEWLINE] ++ bs "second"))),
    [(bs "host", bs "a.example"); (bs "x-review", bs "accepted"); (bs "content-length", bs "12")]).
Proof. vm_compute. reflexivity. Qed.
Lemma unchanged_documents_continue_witness :
  exists e, RequestEditor.new snapshot = Ok e /\
  match RequestEditor.submit e with
  | Ok x => RequestEditor.decision x = Continue /\ RequestEditor.submitted_body x = bs "old"
  | Err _ => False
  end.
Proof.
  assert (Hok : match RequestEditor.new snapshot with
                | Ok e => match RequestEditor.submit e with Ok _ => true | Err _ => false end | Err _ => false end = true)
    by (vm_compute; reflexivity).
  destruct (RequestEditor.new snapshot) as [e|] eqn:E; [|discriminate Hok]. exists e. split; [reflexivity|].
  pose proof (unchanged_documents_continue snapshot e snapshot_readable E) as Hsame.
  destruct (RequestEditor.submit e); [exact Hsame|discriminate Hok].
Defined.
Lemma submissions_are_what_is_shown_witness :
  exists e s wire offset room headers desired, edited = Some e /\ RequestEditor.submit e = Ok s /\
    wire_request (buffer_text (RequestEditor.buffer e)) = Ok (wire, offset, room) /\
    parsed_header_map headers = Ok desired /\ RequestEditor.submitted_body s = drop offset wire /\
    (RequestEditor.decision s = Continue <->
     same_headers (RequestEditor.original_headers e) desired /\ RequestEditor.submitted_body s = RequestEditor.original_body e).
Proof.
  assert (Hok : match edited with
                | Some e => match RequestEditor.submit e with Ok _ => true | Err _ => false end | None => false end = true)
    by (vm_compute; reflexivity).
  destruct edited as [e|] eqn:E; [|discriminate Hok]. destruct (RequestEditor.submit e) as [s|] eqn:Es; [|discriminate Hok].
  destruct (submissions_are_what_is_shown e s Es)
    as (wire & offset & room & headers & desired & Hwire & _ & Hd & Hbody & _ & _ & _ & _ & _ & Hc & _).
  exists e, s, wire, offset, room, headers, desired. split; [reflexivity|]. split; [exact Es|]. split; [exact Hwire|].
  split; [exact Hd|]. split; [exact Hbody|exact Hc].
Defined.
End Example_editor.
