(* ===== verification/UiModel.v ===== *)
(** The state of the terminal (crates/freja-ui/src/tui/model.rs, tui/evidence.rs): a
    reducer from events to bounded rows, navigation, rule details and repeat
    workspaces.  The fields of [TuiModel] are kept in four records: the evidence view,
    what is retained, the navigation and the work of the operator. *)
From stdpp Require Import gmap strings.
From stdpp Require Import prelude.
From S2P Require Import Prelude Bytes Net Endpoint Domain PolicyModel Acl Guard Inspection AuditModel AuditSink Hooks Runtime Settings HttpHeaders Tls HttpMessages HttpRepeat UiEvents UiEditor.

(** * Data *)

Inductive tui_model_error : Type := ZeroMaximumRows | ZeroMaximumItemsPerRow.
Inductive tui_page : Type := TrafficPage | DiagnosticsPage | RepeatPage.
Inductive detail_layout : Type := SplitLayout | RequestLayout | ResponseLayout.
Inductive display_mode : Type := Pretty | Raw | HexDump.
Inductive selected_side : Type := RequestSide | ResponseSide.
Inductive focus_pane : Type := Flows | Detail | Evidence | Logs | RepeatWorkspaces | RepeatDetail.
Inductive editor_target : Type := InteractiveTarget | RepeatTarget (x : transaction_id).
Inductive traffic_kind : Type := HttpTraffic | TcpTraffic.
#[export] Instance tui_page_eq_dec : EqDecision tui_page.
Proof. solve_decision. Defined.
#[export] Instance focus_pane_eq_dec : EqDecision focus_pane.
Proof. solve_decision. Defined.
#[export] Instance traffic_kind_eq_dec : EqDecision traffic_kind.
Proof. solve_decision. Defined.
Inductive wire_state : Type :=
| WirePending
| WireBytes (b : bytes) (observed_bytes : N) (truncated : bool)
| WireFailed (reason : bytes)
| WireUnavailable (reason : bytes).
Record side_snapshot : Type := SideSnapshot {
  start_line : option bytes;
  headers : list (bytes * bytes);
  body : bytes;
  observed_body_bytes : N;
  body_truncated : bool;
  body_incomplete : bool;
  wire : wire_state }.
Definition side_default : side_snapshot := SideSnapshot None [] [] 0 false false WirePending.
Definition with_wire (s : side_snapshot) (w : wire_state) : side_snapshot :=
  SideSnapshot (start_line s) (headers s) (body s) (observed_body_bytes s) (body_truncated s) (body_incomplete s) w.
Definition with_head (s : side_snapshot) (line : bytes) (h : list (bytes * bytes)) : side_snapshot :=
  SideSnapshot (Some line) h (body s) (observed_body_bytes s) (body_truncated s) (body_incomplete s) (wire s).
Definition with_whole_body (s : side_snapshot) (h : list (bytes * bytes)) (b : bytes) : side_snapshot :=
  SideSnapshot (start_line s) h b (lenN b) false false (wire s).
Definition append_body (s : side_snapshot) (offset : N) (b : bytes) (observed : N) (truncated : bool) : side_snapshot :=
  SideSnapshot (start_line s) (headers s) (if (offset =? lenN (body s))%N then body s ++ b else body s)
    (N.max (observed_body_bytes s) observed) (body_truncated s || truncated)
    (if (offset =? lenN (body s))%N then body_incomplete s else true) (wire s).
(** [push_bounded] on a queue. *)
Definition push_bounded {A} (queue : list A) (value : A) (maximum : nat) : list A :=
  (if decide (length queue = maximum) then tail queue else queue) ++ [value].
(** [u16] scroll offsets. *)
Definition scroll_up_by (v amount : N) : N := v - amount.
Definition scroll_down_by (v amount : N) : N := N.min 65535 (v + amount).
(** [StatusCode::canonical_reason]. *)
Class StatusReasons : Type := { canonical_reason : N -> option bytes }.
Definition response_start_line `{StatusReasons} (version : bytes) (status : N) : bytes :=
  match (if (100 <=? status)%N && (status <=? 999)%N then canonical_reason status else None) with
  | None => version ++ bs " " ++ show_N status
  | Some reason => version ++ bs " " ++ show_N status ++ bs " " ++ reason
  end.

(** * Evaluations (evidence.rs) *)

Definition MAXIMUM_CONTEXT_BYTES : nat := 16384.
Definition MAXIMUM_REASONS : nat := 64.
Definition MAXIMUM_REASON_BYTES : nat := 1024.
Definition MAXIMUM_EVIDENCE_SCROLL : Z := 65535.
(** Whether the text was cut, and what is left. *)
Definition truncate (text : bytes) (limit : nat) : bool * bytes :=
  if length text <=? limit then (false, text) else (true, take (floor_boundary text limit) text).
(** [chars().take(n).collect()]. *)
Definition take_chars (n : nat) (text : bytes) : bytes :=
  match char_offsets text !! n with Some offset => take offset text | None => text end.

Section Data.
Context `{IpNet, HeaderIter, HttpLibrary, TextBuffer}.
Record trace_snapshot : Type := TraceSnapshot {
  trace_id : N;
  trace_evidence : option (rule_definition * enforcement_mode);
  reasons_incomplete : bool;
  trace_of : decision_trace;
  trace_target : option evaluation_target }.
Definition bound_reason (r : match_reason) : bool * match_reason :=
  let c := truncate (criterion r) MAXIMUM_REASON_BYTES in
  let o := truncate (observed r) MAXIMUM_REASON_BYTES in
  (c.1 || o.1, MatchReason c.2 o.2).
(** [TraceSnapshot::bounded]. *)
Definition bounded (id : N) (trace : decision_trace) (target : option evaluation_target)
    (evidence : option (rule_definition * enforcement_mode)) : trace_snapshot :=
  let kept := map bound_reason (take MAXIMUM_REASONS (match_reasons trace)) in
  TraceSnapshot id evidence ((MAXIMUM_REASONS <? length (match_reasons trace)) || existsb fst kept)
    (DecisionTrace (policy_generation trace) (evaluated_stage trace) (matched_rule trace) (map snd kept) (final_action trace)) target.
Record traffic_row : Type := TrafficRow {
  row_session : session_id;
  row_transaction : option transaction_id;
  row_kind : traffic_kind;
  row_client : bytes;
  row_target : bytes;
  row_request : side_snapshot;
  row_response : side_snapshot;
  row_findings : list finding;
  row_traces : list trace_snapshot;
  row_up : N;
  row_down : N;
  row_closed : bool }.
Definition row_identity : Type := session_id * option transaction_id.
Definition identity (r : traffic_row) : row_identity := (row_session r, row_transaction r).
Record session_metadata : Type := SessionMetadata { meta_session : session_id; meta_client : bytes; meta_target : bytes }.
Record repeat_workspace : Type := RepeatWorkspace {
  workspace_source : intercept_context;
  workspace_request : http_request_snapshot;
  latest_result : option repeat_result;
  in_flight : bool }.
Record rule_detail : Type := RuleDetail {
  detail_identity : row_identity;
  detail_request : bytes;
  request_incomplete : bool;
  detail_snapshot : trace_snapshot;
  detail_scroll_row : N }.

(** ** Updates of a row *)

Definition with_names (r : traffic_row) (client target : bytes) : traffic_row :=
  TrafficRow (row_session r) (row_transaction r) (row_kind r) client target (row_request r) (row_response r) (row_findings r)
    (row_traces r) (row_up r) (row_down r) (row_closed r).
Definition with_request (r : traffic_row) (s : side_snapshot) : traffic_row :=
  TrafficRow (row_session r) (row_transaction r) (row_kind r) (row_client r) (row_target r) s (row_response r) (row_findings r)
    (row_traces r) (row_up r) (row_down r) (row_closed r).
Definition with_response (r : traffic_row) (s : side_snapshot) : traffic_row :=
  TrafficRow (row_session r) (row_transaction r) (row_kind r) (row_client r) (row_target r) (row_request r) s (row_findings r)
    (row_traces r) (row_up r) (row_down r) (row_closed r).
Definition with_findings (r : traffic_row) (l : list finding) : traffic_row :=
  TrafficRow (row_session r) (row_transaction r) (row_kind r) (row_client r) (row_target r) (row_request r) (row_response r) l
    (row_traces r) (row_up r) (row_down r) (row_closed r).
Definition with_traces (r : traffic_row) (l : list trace_snapshot) : traffic_row :=
  TrafficRow (row_session r) (row_transaction r) (row_kind r) (row_client r) (row_target r) (row_request r) (row_response r)
    (row_findings r) l (row_up r) (row_down r) (row_closed r).
Definition close_row (r : traffic_row) (up down : N) : traffic_row :=
  TrafficRow (row_session r) (row_transaction r) (row_kind r) (row_client r) (row_target r) (row_request r) (row_response r)
    (row_findings r) (row_traces r) up down true.
(** [side_mut]. *)
Definition update_side (d : direction) (f : side_snapshot -> side_snapshot) (r : traffic_row) : traffic_row :=
  match d with
  | ClientToUpstream | HttpRequestBody => with_request r (f (row_request r))
  | UpstreamToClient | HttpResponseBody => with_response r (f (row_response r))
  end.
Definition empty_row (s : session_id) (x : option transaction_id) (k : traffic_kind) (metadata : option (bytes * bytes)) : traffic_row :=
  let '(client, target) := default (bs "<unknown>", bs "<unknown>") metadata in
  let wire := if decide (k = TcpTraffic) then WireUnavailable (bs "TCP Raw uses the bounded body stream") else WirePending in
  TrafficRow s x k client target (with_wire side_default wire) (with_wire side_default wire) [] [] 0 0 false.
End Data.

(** * The model *)

Module EvidenceView.
Section View.
Context `{IpNet}.
Record t : Type := Make {
  row : option row_identity;
  selected : option N;
  anchor : option N;
  scroll : Z;
  detail : option rule_detail }.
Definition default : t := Make None None None 0 None.
Definition with_detail (v : t) (d : option rule_detail) : t := Make (row v) (selected v) (anchor v) (scroll v) d.
End View.
Arguments t {_}.
End EvidenceView.
(** What the terminal retains of the traffic. *)
Module Store.
Section Store.
Context `{IpNet}.
Record t : Type := Make {
  next_evaluation_id : N;
  rows : list traffic_row;
  sessions : list session_metadata;
  operational_logs : list bytes;
  selected : nat;
  maximum_rows : nat;
  maximum_items_per_row : nat;
  paused_transactions : list transaction_id;
  dropped_events : N;
  capture_failures : N;
  capture_truncations : N }.
Definition with_rows (s : t) (l : list traffic_row) : t :=
  Make (next_evaluation_id s) l (sessions s) (operational_logs s) (selected s) (maximum_rows s) (maximum_items_per_row s)
    (paused_transactions s) (dropped_events s) (capture_failures s) (capture_truncations s).
Definition with_sessions (s : t) (l : list session_metadata) : t :=
  Make (next_evaluation_id s) (rows s) l (operational_logs s) (selected s) (maximum_rows s) (maximum_items_per_row s)
    (paused_transactions s) (dropped_events s) (capture_failures s) (capture_truncations s).
Definition with_logs (s : t) (l : list bytes) : t :=
  Make (next_evaluation_id s) (rows s) (sessions s) l (selected s) (maximum_rows s) (maximum_items_per_row s)
    (paused_transactions s) (dropped_events s) (capture_failures s) (capture_truncations s).
Definition with_selected (s : t) (i : nat) : t :=
  Make (next_evaluation_id s) (rows s) (sessions s) (operational_logs s) i (maximum_rows s) (maximum_items_per_row s)
    (paused_transactions s) (dropped_events s) (capture_failures s) (capture_truncations s).
Definition with_next_id (s : t) (n : N) : t :=
  Make n (rows s) (sessions s) (operational_logs s) (selected s) (maximum_rows s) (maximum_items_per_row s)
    (paused_transactions s) (dropped_events s) (capture_failures s) (capture_truncations s).
Definition with_paused (s : t) (l : list transaction_id) : t :=
  Make (next_evaluation_id s) (rows s) (sessions s) (operational_logs s) (selected s) (maximum_rows s) (maximum_items_per_row s)
    l (dropped_events s) (capture_failures s) (capture_truncations s).
Definition with_dropped (s : t) (n : N) : t :=
  Make (next_evaluation_id s) (rows s) (sessions s) (operational_logs s) (selected s) (maximum_rows s) (maximum_items_per_row s)
    (paused_transactions s) n (capture_failures s) (capture_truncations s).
Definition count_failure (s : t) : t :=
  Make (next_evaluation_id s) (rows s) (sessions s) (operational_logs s) (selected s) (maximum_rows s) (maximum_items_per_row s)
    (paused_transactions s) (dropped_events s) (sat_add (capture_failures s) 1) (capture_truncations s).
Definition count_truncation (s : t) (truncated : bool) : t :=
  Make (next_evaluation_id s) (rows s) (sessions s) (operational_logs s) (selected s) (maximum_rows s) (maximum_items_per_row s)
    (paused_transactions s) (dropped_events s) (capture_failures s)
    (if truncated then sat_add (capture_truncations s) 1 else capture_truncations s).
(** [&mut self.rows[index]]. *)
Definition update_row (s : t) (i : nat) (f : traffic_row -> traffic_row) : t := with_rows s (alter f i (rows s)).
Definition is_paused (s : t) (x : transaction_id) : bool := bool_decide (x ∈ paused_transactions s).
(** A row that no paused request holds. *)
Definition unpaused (s : t) (r : traffic_row) : bool :=
  match row_transaction r with None => true | Some x => negb (is_paused s x) end.
(** [iter().position]. *)
Fixpoint find_index {A} (p : A -> bool) (l : list A) : option nat :=
  match l with [] => None | a :: l => if p a then Some 0 else S <$> find_index p l end.
(** [rows.remove(index)], with the selection moved along. *)
Definition evict (s : t) (i : nat) : t :=
  let s := with_rows s (list_delete i (rows s)) in
  if i <? selected s then with_selected s (selected s - 1) else s.
Definition append_row (s : t) (r : traffic_row) : option nat * t :=
  (Some (length (rows s)), with_rows s (rows s ++ [r])).
(** The end shared by [push_row] and [ensure_paused_http_row]: a full store needs a row
    that [removable] gives up. *)
Definition push_row_evicting (removable : traffic_row -> bool) (s : t) (r : traffic_row) : option nat * t :=
  if decide (length (rows s) = maximum_rows s) then
    match find_index removable (rows s) with
    | None => (None, s)
    | Some i => append_row (evict s i) r
    end
  else append_row s r.
Definition push_row (s : t) (r : traffic_row) : option nat * t := push_row_evicting (fun c => row_closed c && unpaused s c) s r.
Definition session_metadata_of (s : t) (x : session_id) : option (bytes * bytes) :=
  (fun m => (meta_client m, meta_target m)) <$> List.find (fun m => bool_decide (meta_session m = x)) (sessions s).
Definition position_of (s : t) (id : row_identity) : option nat := find_index (fun r => bool_decide (identity r = id)) (rows s).
Definition ensure_http_row (s : t) (x : session_id) (tx : transaction_id) : option nat * t :=
  match position_of s (x, Some tx) with
  | Some i => (Some i, s)
  | None => push_row s (empty_row x (Some tx) HttpTraffic (session_metadata_of s x))
  end.
Definition ensure_paused_http_row (s : t) (x : session_id) (tx : transaction_id) : option nat * t :=
  match position_of s (x, Some tx) with
  | Some i => (Some i, s)
  | None => push_row_evicting (unpaused s) s (empty_row x (Some tx) HttpTraffic (session_metadata_of s x))
  end.
Definition ensure_tcp_row (s : t) (x : session_id) : option nat * t :=
  match position_of s (x, None) with
  | Some i => (Some i, s)
  | None => push_row s (empty_row x None TcpTraffic (session_metadata_of s x))
  end.
Definition ensure_correlated_row (s : t) (x : session_id) (tx : option transaction_id) : option nat * t :=
  match tx with Some tx => ensure_http_row s x tx | None => ensure_tcp_row s x end.
Definition update_session (s : t) (x : session_id) (client target : bytes) : t :=
  let sessions :=
    match find_index (fun m => bool_decide (meta_session m = x)) (sessions s) with
    | Some i => <[i := SessionMetadata x client target]> (sessions s)
    | None => sessions s ++ [SessionMetadata x client target]
    end in
  with_rows (with_sessions s sessions)
    (map (fun r => if decide (row_session r = x)
                   then with_names r client (if decide (row_kind r = TcpTraffic) then target else row_target r) else r) (rows s)).
Definition close_session (s : t) (x : session_id) (up down : N) : t :=
  let closed := with_rows s (map (fun r => if decide (row_session r = x) then close_row r up down else r) (rows s)) in
  let s := if existsb (fun r => bool_decide (row_session r = x)) (rows s) then closed
           else match ensure_tcp_row closed x with
                | (Some i, s) => update_row s i (fun r => close_row r up down)
                | (None, s) => s
                end in
  with_sessions s (List.filter (fun m => negb (bool_decide (meta_session m = x))) (sessions s)).
Definition selected_row (s : t) : option traffic_row := rows s !! selected s.
Definition selected_transaction (s : t) : option transaction_id := r ← selected_row s; row_transaction r.
Definition selected_is_paused (s : t) : bool :=
  match selected_transaction s with Some x => is_paused s x | None => false end.
End Store.
Arguments t {_}.
End Store.

(** Where the operator is. *)
Module Nav.
Record t : Type := Make {
  page : tui_page;
  layout : detail_layout;
  mode : display_mode;
  side : selected_side;
  focus : focus_pane;
  expanded_pane : option focus_pane;
  repeat_return_page : tui_page;
  detail_scroll : N;
  diagnostics_scroll : N;
  log_scroll : N }.
Definition start : t := Make TrafficPage SplitLayout Pretty RequestSide Flows None TrafficPage 0 0 0.
Definition at_page (n : t) (p : tui_page) (f : focus_pane) : t :=
  Make p (layout n) (mode n) (side n) f None (repeat_return_page n) (detail_scroll n) (diagnostics_scroll n) (log_scroll n).
Definition with_return_page (n : t) (p : tui_page) : t :=
  Make (page n) (layout n) (mode n) (side n) (focus n) (expanded_pane n) p (detail_scroll n) (diagnostics_scroll n) (log_scroll n).
Definition with_focus (n : t) (f : focus_pane) : t :=
  Make (page n) (layout n) (mode n) (side n) f (expanded_pane n) (repeat_return_page n) (detail_scroll n) (diagnostics_scroll n) (log_scroll n).
Definition with_side (n : t) (s : selected_side) : t :=
  Make (page n) (layout n) (mode n) s (focus n) (expanded_pane n) (repeat_return_page n) 0 (diagnostics_scroll n) (log_scroll n).
Definition with_detail_scroll (n : t) (v : N) : t :=
  Make (page n) (layout n) (mode n) (side n) (focus n) (expanded_pane n) (repeat_return_page n) v (diagnostics_scroll n) (log_scroll n).
Definition with_diagnostics_scroll (n : t) (v : N) : t :=
  Make (page n) (layout n) (mode n) (side n) (focus n) (expanded_pane n) (repeat_return_page n) (detail_scroll n) v (log_scroll n).
Definition with_log_scroll (n : t) (v : N) : t :=
  Make (page n) (layout n) (mode n) (side n) (focus n) (expanded_pane n) (repeat_return_page n) (detail_scroll n) (diagnostics_scroll n) v.
Definition with_expanded (n : t) (p : option focus_pane) : t :=
  Make (page n) (layout n) (mode n) (side n) (focus n) p (repeat_return_page n) (detail_scroll n) (diagnostics_scroll n) (log_scroll n).
Definition show_traffic (n : t) : t := at_page n TrafficPage Flows.
Definition show_repeat (n : t) : t :=
  at_page (if decide (page n <> RepeatPage) then with_return_page n (page n) else n) RepeatPage RepeatWorkspaces.
Definition leave_repeat (n : t) : t :=
  at_page n (repeat_return_page n)
    match repeat_return_page n with TrafficPage => Flows | DiagnosticsPage => Evidence | RepeatPage => RepeatWorkspaces end.
Definition cycle_layout (n : t) : t :=
  let '(side, layout) := match layout n with
    | SplitLayout => (RequestSide, RequestLayout) | RequestLayout => (ResponseSide, ResponseLayout) | ResponseLayout => (side n, SplitLayout) end in
  Make (page n) layout (mode n) side (focus n) (expanded_pane n) (repeat_return_page n) 0 (diagnostics_scroll n) (log_scroll n).
Definition cycle_display_mode (n : t) : t :=
  let mode := match mode n with Pretty => Raw | Raw => HexDump | HexDump => Pretty end in
  Make (page n) (layout n) mode (side n) (focus n) (expanded_pane n) (repeat_return_page n) 0 (diagnostics_scroll n) (log_scroll n).
Definition select_request_side (n : t) : t := with_side n RequestSide.
Definition select_response_side (n : t) : t := with_side n ResponseSide.
Definition focus_next (n : t) : t :=
  match page n with
  | RepeatPage =>
      match focus n, side n with
      | RepeatWorkspaces, _ => select_request_side (with_focus n RepeatDetail)
      | RepeatDetail, RequestSide => select_response_side n
      | _, _ => with_focus n RepeatWorkspaces
      end
  | TrafficPage => with_focus n match focus n with Flows => Detail | _ => Flows end
  | DiagnosticsPage => with_focus n match focus n with Evidence => Logs | _ => Evidence end
  end.
Definition focus_previous (n : t) : t :=
  match page n with
  | RepeatPage =>
      match focus n, side n with
      | RepeatWorkspaces, _ => select_response_side (with_focus n RepeatDetail)
      | RepeatDetail, ResponseSide => select_request_side n
      | _, _ => with_focus n RepeatWorkspaces
      end
  | TrafficPage => with_focus n match focus n with Detail => Flows | _ => Detail end
  | DiagnosticsPage => with_focus n match focus n with Logs => Evidence | _ => Logs end
  end.
Definition cycle_focus : t -> t := focus_next.
Definition expand_focused_pane (n : t) : t := with_expanded n (Some (focus n)).
Definition close_expanded_pane (n : t) : t := with_expanded n None.
(** [active_scroll_mut]. *)
Definition scroll_by (f : N -> N) (n : t) : t :=
  match focus n with
  | Logs => with_log_scroll n (f (log_scroll n))
  | Flows | Detail | RepeatWorkspaces | RepeatDetail => with_detail_scroll n (f (detail_scroll n))
  | Evidence => with_diagnostics_scroll n (f (diagnostics_scroll n))
  end.
End Nav.

(** What the operator works on. *)
Module Work.
Section Work.
Context `{HeaderIter, HttpLibrary, TextBuffer}.
Record t : Type := Make {
  editor : option RequestEditor.t;
  target : option editor_target;
  repeat_workspaces : list repeat_workspace;
  repeat_selected : nat;
  paused_flows : nat;
  interactive_status : bytes;
  input_notice : option bytes }.
Definition start : t := Make None None [] 0 0 (bs "idle") None.
Definition with_editor (w : t) (e : option RequestEditor.t) (g : option editor_target) : t :=
  Make e g (repeat_workspaces w) (repeat_selected w) (paused_flows w) (interactive_status w) (input_notice w).
Definition with_workspaces (w : t) (l : list repeat_workspace) : t :=
  Make (editor w) (target w) l (repeat_selected w) (paused_flows w) (interactive_status w) (input_notice w).
Definition with_repeat_selected (w : t) (i : nat) : t :=
  Make (editor w) (target w) (repeat_workspaces w) i (paused_flows w) (interactive_status w) (input_notice w).
Definition with_status (w : t) (n : nat) (s : bytes) : t :=
  Make (editor w) (target w) (repeat_workspaces w) (repeat_selected w) n s (input_notice w).
Definition with_notice (w : t) (n : option bytes) : t :=
  Make (editor w) (target w) (repeat_workspaces w) (repeat_selected w) (paused_flows w) (interactive_status w) n.
Definition source_of (x : transaction_id) (r : repeat_workspace) : bool :=
  bool_decide (source_transaction (workspace_source r) = x).
(** The workspace a transaction was opened from. *)
Definition update_workspace (w : t) (x : transaction_id) (f : repeat_workspace -> repeat_workspace) : t :=
  match Store.find_index (source_of x) (repeat_workspaces w) with
  | Some i => with_workspaces w (alter f i (repeat_workspaces w))
  | None => w
  end.
Definition apply_repeat_edit (w : t) (x : transaction_id) (headers : header_map) (body : bytes) : t :=
  update_workspace w x (fun r =>
    RepeatWorkspace (workspace_source r)
      (HttpRequestSnapshot (snap_method (workspace_request r)) (snap_uri (workspace_request r)) (snap_version (workspace_request r))
         headers body (maximum_head_bytes (workspace_request r)) (maximum_body_bytes (workspace_request r)))
      (latest_result r) (in_flight r)).
Definition selected_repeat_workspace (w : t) : option repeat_workspace := repeat_workspaces w !! repeat_selected w.
Definition selected_repeat_request (w : t) : option repeat_request :=
  r ← selected_repeat_workspace w;
  if in_flight r then None else Some (RepeatRequest (workspace_source r) (workspace_request r)).
Definition mark_selected_repeat_in_flight (w : t) : t :=
  with_workspaces w (alter (fun r => RepeatWorkspace (workspace_source r) (workspace_request r) None true) (repeat_selected w) (repeat_workspaces w)).
Definition apply_repeat_result (w : t) (result : repeat_result) : t :=
  update_workspace w (result_source result) (fun r => RepeatWorkspace (workspace_source r) (workspace_request r) (Some result) false).
Definition delete_selected_repeat (w : t) : bool * t :=
  match selected_repeat_workspace w with
  | None => (false, w)
  | Some r =>
      if in_flight r then (false, w)
      else
        let l := list_delete (repeat_selected w) (repeat_workspaces w) in
        (true, with_repeat_selected (with_workspaces w l) (Nat.min (repeat_selected w) (length l - 1)))
  end.
(** The check of [create_repeat_workspace]: an absolute-form HTTP/1.1 request other than
    CONNECT. *)
Definition repeatable_form (s : http_request_snapshot) : bool :=
  bool_decide (snap_version s = HTTP_11) && negb (bool_decide (snap_method s = bs "CONNECT"))
  && match scheme_str (snap_uri s) with
     | Some scheme => bool_decide (scheme = bs "http") || bool_decide (scheme = bs "https") | None => false end
  && match uri_authority (snap_uri s) with Some _ => true | None => false end.
End Work.
End Work.

Module TuiModel.
Section Model.
Context `{IpNet, HeaderIter, HttpLibrary, TextBuffer, StatusReasons}.
Record t : Type := Make { evidence_view : EvidenceView.t; store : Store.t; nav : Nav.t; work : Work.t }.
Definition with_view (m : t) (v : EvidenceView.t) : t := Make v (store m) (nav m) (work m).
Definition with_store (m : t) (s : Store.t) : t := Make (evidence_view m) s (nav m) (work m).
Definition with_nav (m : t) (n : Nav.t) : t := Make (evidence_view m) (store m) n (work m).
Definition with_work (m : t) (w : Work.t) : t := Make (evidence_view m) (store m) (nav m) w.
Definition FIRST_EVALUATION_ID : N := 1.
Definition from_limits (rows items : nat) : t :=
  Make EvidenceView.default (Store.Make FIRST_EVALUATION_ID [] [] [] 0 rows items [] 0 0 0) Nav.start Work.start.
Definition new (rows items : nat) : result tui_model_error t :=
  if decide (rows = 0) then Err ZeroMaximumRows
  else if decide (items = 0) then Err ZeroMaximumItemsPerRow else Ok (from_limits rows items).
Definition set_input_notice (m : t) (n : bytes) : t := with_work m (Work.with_notice (work m) (Some n)).
Definition clear_input_notice (m : t) : t := with_work m (Work.with_notice (work m) None).

(** ** Rule details (evidence.rs) *)

Definition reset_evidence_view (m : t) : t :=
  let row := Store.selected_row (store m) in
  let v := EvidenceView.Make (identity <$> row) (row ≫= fun r => trace_id <$> head (row_traces r)) None 0 None in
  with_nav (with_view m v) (Nav.with_diagnostics_scroll (nav m) 0).
Definition select_first_arriving_evaluation (m : t) (id : row_identity) (evaluation : N) : t :=
  let v := evidence_view m in
  let row := if decide (Nav.page (nav m) = DiagnosticsPage /\ EvidenceView.row v = None) then Some id else EvidenceView.row v in
  let selected := if decide (row = Some id /\ EvidenceView.selected v = None) then Some evaluation else EvidenceView.selected v in
  with_view m (EvidenceView.Make row selected (EvidenceView.anchor v) (EvidenceView.scroll v) (EvidenceView.detail v)).
Definition evidence_row (m : t) : option traffic_row :=
  id ← EvidenceView.row (evidence_view m); List.find (fun r => bool_decide (identity r = id)) (Store.rows (store m)).
Definition selected_evaluation (m : t) : option trace_snapshot :=
  row ← evidence_row m;
  match EvidenceView.selected (evidence_view m) with
  | Some id => List.find (fun x => bool_decide (trace_id x = id)) (row_traces row)
  | None => head (row_traces row)
  end.
Definition select_evaluation (next : bool) (m : t) : t :=
  match evidence_row m with
  | None => m
  | Some row =>
      let current := id ← EvidenceView.selected (evidence_view m);
                     Store.find_index (fun x => bool_decide (trace_id x = id)) (row_traces row) in
      let index := match current with
                   | None => 0
                   | Some i => if next then Nat.min (S i) (length (row_traces row) - 1) else i - 1 end in
      match row_traces row !! index with
      | None => m
      | Some x =>
          let v := evidence_view m in
          with_nav (with_view m (EvidenceView.Make (EvidenceView.row v) (Some (trace_id x)) (Some (trace_id x)) 0 (EvidenceView.detail v)))
            (Nav.with_diagnostics_scroll (nav m) 0)
      end
  end.
(** The request a detail shows, and whether it was cut. *)
Definition detail_context (row : traffic_row) : bytes * bool :=
  let line := start_line (row_request row) in
  let request := take_chars MAXIMUM_CONTEXT_BYTES (default (bs "Request unavailable (not retained); no URL inferred") line) in
  let too_long := match line with Some l => MAXIMUM_CONTEXT_BYTES <? length l | None => false end in
  let '(cut, request) := truncate request MAXIMUM_CONTEXT_BYTES in
  let host := if starts_with (bs "/") (row_target row) || bool_decide (row_target row = bs "*")
              then List.find (fun h => eq_ignore_ascii_case h.1 (bs "host")) (headers (row_request row)) else None in
  match host with
  | None => (request, too_long || cut)
  | Some (_, host) =>
      let request := request ++ bs " | Host header: " ++ utf8_lossy (take (Nat.min (length host) MAXIMUM_CONTEXT_BYTES) host) in
      let '(cut2, request) := truncate request MAXIMUM_CONTEXT_BYTES in
      (request, too_long || cut || (MAXIMUM_CONTEXT_BYTES <? length host) || cut2)
  end.
Definition open_rule_detail (m : t) : t :=
  match selected_evaluation m with
  | None => set_input_notice m (bs "No retained selected evaluation; j/k selects a retained decision. Findings are not decisions.")
  | Some snapshot =>
      match evidence_row m with
      | None => m
      | Some row =>
          let '(request, incomplete) := detail_context row in
          let v := evidence_view m in
          with_view m (EvidenceView.Make (EvidenceView.row v) (Some (trace_id snapshot)) (EvidenceView.anchor v) (EvidenceView.scroll v)
            (Some (RuleDetail (identity row) request incomplete snapshot 0)))
      end
  end.
Definition detail_original_retained (m : t) : bool :=
  match EvidenceView.detail (evidence_view m) with
  | None => false
  | Some d => existsb (fun r => bool_decide (identity r = detail_identity d)
      && existsb (fun x => bool_decide (trace_id x = trace_id (detail_snapshot d))) (row_traces r)) (Store.rows (store m))
  end.
Definition close_rule_detail (m : t) : t :=
  let retained := detail_original_retained m in
  let m := with_view m (EvidenceView.with_detail (evidence_view m) None) in
  if retained then m
  else set_input_notice m (bs "Original evaluation was evicted by retention limits; no replacement selected. j/k explicitly selects a retained decision.").
Definition evidence_missing (m : t) : bool :=
  match EvidenceView.row (evidence_view m) with
  | None => false
  | Some _ =>
      match evidence_row m with
      | None => true
      | Some _ => match EvidenceView.selected (evidence_view m), selected_evaluation m with Some _, None => true | _, _ => false end
      end
  end.
Definition I32_MAX : Z := 2147483647.
Definition scroll_evidence (amount : Z) (m : t) : bool * t :=
  let v := evidence_view m in
  if decide (Nav.focus (nav m) = Evidence /\ EvidenceView.anchor v <> None) then
    let moved := Z.max (- I32_MAX - 1) (Z.min I32_MAX (EvidenceView.scroll v + amount)) in
    (true, with_view m (EvidenceView.Make (EvidenceView.row v) (EvidenceView.selected v) (EvidenceView.anchor v)
       (Z.max (- MAXIMUM_EVIDENCE_SCROLL) (Z.min MAXIMUM_EVIDENCE_SCROLL moved)) (EvidenceView.detail v)))
  else (false, m).

(** ** Events *)

(** The row an event belongs to, updated; without room the event changes nothing. *)
Definition on_row (m : t) (r : option nat * Store.t) (f : nat -> Store.t -> Store.t) : t :=
  with_store m match r with (Some i, s) => f i s | (None, s) => s end.
Definition on_side (i : nat) (d : direction) (f : side_snapshot -> side_snapshot) (s : Store.t) : Store.t :=
  Store.update_row s i (update_side d f).
Definition apply (m : t) (e : UiEvent.t) : t :=
  let s := store m in
  match e with
  | UiEvent.OperationalLog message =>
      with_store m (Store.with_logs s (push_bounded (Store.operational_logs s) message (Store.maximum_items_per_row s)))
  | UiEvent.FlowOpened x client target => with_store m (Store.update_session s x client target)
  | UiEvent.HttpObserved x tx method target version hs =>
      on_row m (Store.ensure_http_row s x tx) (fun i s =>
        Store.with_selected (Store.update_row s i (fun r =>
          with_request (with_names r (row_client r) target)
            (with_head (row_request r) (method ++ bs " " ++ target ++ bs " " ++ version) hs))) i)
  | UiEvent.HttpResponseObserved x tx status version hs =>
      on_row m (Store.ensure_http_row s x tx) (fun i s =>
        Store.update_row s i (fun r =>
          let side := with_head (row_response r) (response_start_line version (HttpStatusCode.get status)) hs in
          with_response r match wire side with
            | WirePending => with_wire side (WireUnavailable (bs "upstream Raw is unavailable for a local or uncaptured response"))
            | _ => side end))
  | UiEvent.DecisionMade x tx trace evidence target =>
      match Store.ensure_correlated_row s x tx with
      | (None, s) => with_store m s
      | (Some i, s) =>
          let id := Store.next_evaluation_id s in
          match checked_add id 1 with
          | None => set_input_notice (with_store m s) (bs "evaluation identity limit reached; UI evaluation omitted")
          | Some next =>
              let m := select_first_arriving_evaluation (with_store m (Store.with_next_id s next)) (x, tx) id in
              with_store m (Store.update_row (store m) i (fun r =>
                with_traces r (push_bounded (row_traces r) (bounded id trace target evidence) (Store.maximum_items_per_row s))))
          end
      end
  | UiEvent.FindingDetected x tx finding =>
      on_row m (Store.ensure_correlated_row s x tx) (fun i s =>
        Store.update_row s i (fun r => with_findings r (push_bounded (row_findings r) finding (Store.maximum_items_per_row s))))
  | UiEvent.BodyPrefix x tx d b offset observed truncated =>
      on_row m (Store.ensure_correlated_row s x tx) (fun i s =>
        Store.count_truncation (on_side i d (fun side => append_body side offset b observed truncated) s) truncated)
  | UiEvent.WireCaptured x tx d b observed truncated =>
      on_row m (Store.ensure_http_row s x tx) (fun i s =>
        Store.count_truncation (on_side i d (fun side => with_wire side (WireBytes b observed truncated)) s) truncated)
  | UiEvent.WireCaptureFailed x tx d reason =>
      on_row m (Store.ensure_http_row s x tx) (fun i s =>
        Store.count_failure (on_side i d (fun side => with_wire side (WireFailed reason)) s))
  | UiEvent.WireCaptureUnavailable x tx d reason =>
      on_row m (Store.ensure_http_row s x tx) (fun i s => on_side i d (fun side => with_wire side (WireUnavailable reason)) s)
  | UiEvent.FlowClosed x up down => with_store m (Store.close_session s x up down)
  end.
Definition set_dropped_events (m : t) (n : N) : t := with_store m (Store.with_dropped (store m) n).
Definition set_interactive_state (m : t) (paused : list transaction_id) (status : bytes) : t :=
  with_work (with_store m (Store.with_paused (store m) paused)) (Work.with_status (work m) (length paused) status).

(** ** Navigation *)

Definition show_traffic (m : t) : t := with_nav m (Nav.show_traffic (nav m)).
Definition show_diagnostics (m : t) : t :=
  let m := reset_evidence_view m in with_nav m (Nav.at_page (nav m) DiagnosticsPage Evidence).
Definition show_repeat (m : t) : t := with_nav m (Nav.show_repeat (nav m)).
Definition select_previous (m : t) : t :=
  match Nav.page (nav m) with
  | RepeatPage => with_nav (with_work m (Work.with_repeat_selected (work m) (Work.repeat_selected (work m) - 1))) (Nav.with_detail_scroll (nav m) 0)
  | p =>
      let m := with_nav (with_store m (Store.with_selected (store m) (Store.selected (store m) - 1))) (Nav.with_detail_scroll (nav m) 0) in
      if decide (p = DiagnosticsPage) then reset_evidence_view m else m
  end.
Definition select_next (m : t) : t :=
  match Nav.page (nav m) with
  | RepeatPage =>
      if S (Work.repeat_selected (work m)) <? length (Work.repeat_workspaces (work m))
      then with_nav (with_work m (Work.with_repeat_selected (work m) (S (Work.repeat_selected (work m))))) (Nav.with_detail_scroll (nav m) 0)
      else m
  | p =>
      if S (Store.selected (store m)) <? length (Store.rows (store m)) then
        let m := with_nav (with_store m (Store.with_selected (store m) (S (Store.selected (store m))))) (Nav.with_detail_scroll (nav m) 0) in
        if decide (p = DiagnosticsPage) then reset_evidence_view m else m
      else m
  end.
Definition scroll_up (amount : N) (m : t) : t :=
  let '(done, m) := scroll_evidence (- Z.of_N amount) m in
  if (done : bool) then m else with_nav m (Nav.scroll_by (fun v => scroll_up_by v amount) (nav m)).
Definition scroll_down (amount : N) (m : t) : t :=
  let '(done, m) := scroll_evidence (Z.of_N amount) m in
  if (done : bool) then m else with_nav m (Nav.scroll_by (fun v => scroll_down_by v amount) (nav m)).

(** ** Interception and repeats *)

(** [InterceptRequest] without its responder. *)
Record intercept_request : Type := InterceptRequest { request_context : intercept_context; request_snapshot : http_request_snapshot }.
Definition transaction_of (r : intercept_request) : transaction_id := source_transaction (request_context r).
Definition apply_intercept_request (m : t) (r : intercept_request) : t :=
  let s := store m in
  let x := transaction_of r in
  let s := if Store.is_paused s x then s else Store.with_paused s (Store.paused_transactions s ++ [x]) in
  let snapshot := request_snapshot r in
  on_row m (Store.ensure_paused_http_row s (source_session (request_context r)) x) (fun i s =>
    Store.with_selected (Store.update_row s i (fun row =>
      let line := snap_method snapshot ++ bs " " ++ uri_text (snap_uri snapshot) ++ bs " " ++ snap_version snapshot in
      let side := with_whole_body (with_head (row_request row) line (hm_iter (snap_headers snapshot)))
                    (hm_iter (snap_headers snapshot)) (snap_body snapshot) in
      with_request (with_names row (row_client row) (uri_text (snap_uri snapshot))) side)) i).
Definition apply_edited_request (m : t) (hs : list (bytes * bytes)) (b : bytes) : t :=
  with_store m (Store.update_row (store m) (Store.selected (store m)) (fun r => with_request r (with_whole_body (row_request r) hs b))).
Definition open_request_editor (m : t) (r : intercept_request) : result edit_error unit * t :=
  match RequestEditor.new (request_snapshot r) with
  | Err e => (Err e, m)
  | Ok e => (Ok tt, with_work m (Work.with_editor (work m) (Some e) (Some InteractiveTarget)))
  end.
Definition open_repeat_editor (m : t) : result edit_error unit * t :=
  match Work.selected_repeat_workspace (work m) with
  | None => (Ok tt, m)
  | Some w =>
      match RequestEditor.new (workspace_request w) with
      | Err e => (Err e, m)
      | Ok e => (Ok tt, with_work m (Work.with_editor (work m) (Some e) (Some (RepeatTarget (source_transaction (workspace_source w))))))
      end
  end.
Definition create_repeat_workspace (m : t) (r : intercept_request) : bool * t :=
  let w := work m in
  match Store.find_index (Work.source_of (transaction_of r)) (Work.repeat_workspaces w) with
  | Some i => (true, show_repeat (with_work m (Work.with_repeat_selected w i)))
  | None =>
      if Store.maximum_rows (store m) <=? length (Work.repeat_workspaces w)
      then (false, set_input_notice m (bs "repeat workspace limit (" ++ show_N (N.of_nat (Store.maximum_rows (store m)))
                                       ++ bs ") reached; delete one before adding another"))
      else if negb (Work.repeatable_form (request_snapshot r))
      then (false, set_input_notice m (bs "repeat supports absolute-form HTTP/1.1 requests, excluding CONNECT"))
      else
        match RequestEditor.new (request_snapshot r) with
        | Err e => (false, set_input_notice m (bs "repeat requires an editable text request: " ++ show_edit_error e))
        | Ok _ =>
            let l := Work.repeat_workspaces w ++ [RepeatWorkspace (request_context r) (request_snapshot r) None false] in
            (true, show_repeat (with_work m (Work.with_repeat_selected (Work.with_workspaces w l) (length l - 1))))
        end
  end.
Definition unavailable (reason : bytes) : wire_state := WireUnavailable reason.
Definition message_only (line reason : bytes) : side_snapshot := SideSnapshot (Some line) [] [] 0 false false (unavailable reason).
Definition repeat_request_side (m : t) : option side_snapshot :=
  w ← Work.selected_repeat_workspace (work m);
  let r := workspace_request w in
  Some (SideSnapshot (Some (snap_method r ++ bs " " ++ uri_text (snap_uri r) ++ bs " HTTP/1.1")) (hm_iter (snap_headers r)) (snap_body r)
          (lenN (snap_body r)) false false (unavailable (bs "repeat workspaces contain semantic requests only"))).
Definition repeat_response_side (m : t) : option side_snapshot :=
  w ← Work.selected_repeat_workspace (work m);
  Some match result_outcome <$> latest_result w with
    | Some (RepeatResponse r) =>
        SideSnapshot (Some (response_start_line (snapshot_version r) (snapshot_status r))) (hm_iter (snapshot_headers r))
          (snapshot_content r) (HttpRepeat.observed_body_bytes r) (HttpRepeat.body_truncated r) false
          (unavailable (bs "repeat results contain semantic responses only"))
    | Some (RepeatFailed category) =>
        message_only (bs "Repeat failed: " ++ RepeatFailureCategory.show category) (bs "repeat attempt did not produce an HTTP response")
    | None => if in_flight w then message_only (bs "Repeat request in flight") (bs "repeat attempt has not completed")
              else message_only (bs "Not sent yet") (bs "repeat attempt has not been sent")
    end.
End Model.
Arguments t {_ _ _}.
End TuiModel.
