(* ===== verification/UiInput.v ===== *)
(** The keyboard of the terminal and its event loop (crates/freja-ui/src/tui/input.rs,
    tui/runtime.rs): what every key does to the model and to the paused requests, and
    the iterations that drain the channels.  What the other ends of the channels answer
    is an argument; what is sent to them is logged. *)
From stdpp Require Import gmap strings.
From stdpp Require Import prelude.
From S2P Require Import Prelude Bytes Net Endpoint Domain PolicyModel Acl Guard Inspection AuditModel AuditSink Hooks Runtime Settings HttpHeaders Tls HttpMessages HttpRepeat UiEvents UiEditor UiModel.

(** * Keys (crossterm) *)

(** A character key carries its bytes. *)
Inductive key_code : Type :=
| Char (c : bytes) | KeyEnter | KeyTab | KeyEsc | KeyBackspace | KeyDelete | KeyUp | KeyDown | KeyLeft | KeyRight
| KeyHome | KeyEnd | KeyPageUp | KeyPageDown | KeyOther.
#[export] Instance key_code_eq_dec : EqDecision key_code.
Proof. solve_decision. Defined.
Record key_event : Type := KeyEvent { code : key_code; control : bool; alt : bool; press : bool }.
Definition PAGE_SCROLL_ROWS : N := 10.
Definition is_char (k : key_event) (c : bytes) : bool := bool_decide (code k = Char c).
Definition is_exit_key (k : key_event) : bool := is_char k (bs "Q") || (is_char k (bs "c") && control k).

Section Input.
Context `{IpNet, HeaderIter, HttpLibrary, TextBuffer, HeadParser, StatusReasons}.
Implicit Types (m : TuiModel.t).

(** * The operator's links *)

Inductive send_outcome : Type := SendAccepted | SendFull | SendClosed.
(** [repeat_sender]: the executor's queue, when there is one, and what [try_send]
    answers; [still_waits]: whether the flow of a paused request still waits for its
    decision. *)
Record links : Type := Links {
  repeat_sender : option (repeat_request -> send_outcome);
  still_waits : transaction_id -> bool }.
Inductive ui_effect : Type :=
| Answer (x : transaction_id) (d : interactive_decision)
| SendRepeat (r : repeat_request).
(** The model, the paused requests in the order they came, and the effects so far. *)
Record console : Type := Console {
  model : TuiModel.t;
  pending : list TuiModel.intercept_request;
  effects : list ui_effect }.
Definition with_model (c : console) m : console := Console m (pending c) (effects c).
Definition notice (c : console) (text : bytes) : console := with_model c (TuiModel.set_input_notice (model c) text).
Definition holds (x : transaction_id) (r : TuiModel.intercept_request) : bool := bool_decide (TuiModel.transaction_of r = x).

(** * Answers and repeats *)

(** [response.send(decision)] of the request at [i], which leaves the queue. *)
Definition answer (l : links) (c : console) (i : nat) (x : transaction_id) (d : interactive_decision) : bool * console :=
  (still_waits l x, Console (model c) (list_delete i (pending c)) (effects c ++ [Answer x d])).
Definition respond_selected (l : links) (d : interactive_decision) (c : console) : bool * console :=
  match Store.selected_transaction (TuiModel.store (model c)) with
  | None => (false, c)
  | Some x =>
      match Store.find_index (holds x) (pending c) with
      | None => (false, c)
      | Some i => answer l c i x d
      end
  end.
Definition send_repeat (l : links) (c : console) : console :=
  match repeat_sender l with
  | None => notice c (bs "repeat executor is unavailable")
  | Some sender =>
      match Work.selected_repeat_request (TuiModel.work (model c)) with
      | None => notice c (bs "repeat workspace is already in flight or unavailable")
      | Some r =>
          match sender r with
          | SendAccepted =>
              let m := TuiModel.with_work (model c) (Work.mark_selected_repeat_in_flight (TuiModel.work (model c))) in
              Console m (pending c) (effects c ++ [SendRepeat r])
          | SendFull => notice c (bs "repeat request queue is full")
          | SendClosed => notice c (bs "repeat executor is closed")
          end
      end
  end.
Definition create_repeat_workspace (l : links) (c : console) : console :=
  match repeat_sender l with
  | None => notice c (bs "repeat executor is unavailable")
  | Some _ =>
      match Store.selected_transaction (TuiModel.store (model c)) with
      | None => c
      | Some x =>
          match Store.find_index (holds x) (pending c) with
          | None => notice c (bs "only a currently paused request can enter repeat mode")
          | Some i =>
              match pending c !! i with
              | None => c
              | Some r =>
                  let '(created, m) := TuiModel.create_repeat_workspace (model c) r in
                  let c := with_model c m in
                  if (created : bool) then
                    let '(sent, c) := answer l c i x Continue in
                    if (sent : bool) then c else notice c (bs "original request expired; repeat workspace remains available")
                  else c
              end
          end
      end
  end.

(** * The editor's keys *)

Definition update_editor (f : RequestEditor.t -> RequestEditor.t) (c : console) : console :=
  match Work.editor (TuiModel.work (model c)) with
  | None => c
  | Some e => with_model c (TuiModel.with_work (model c) (Work.with_editor (TuiModel.work (model c)) (Some (f e)) (Work.target (TuiModel.work (model c)))))
  end.
Definition close_editor (c : console) : console :=
  with_model c (TuiModel.with_work (model c) (Work.with_editor (TuiModel.work (model c)) None None)).
(** The outcome of opening an editor. *)
Definition opened (insert_mode : bool) (c : console) (r : result edit_error unit * TuiModel.t) : console :=
  match r with
  | (Ok _, m) => if insert_mode then update_editor RequestEditor.enter_insert_mode (with_model c m) else with_model c m
  | (Err e, m) => notice (with_model c m) (bs "request editor unavailable: " ++ show_edit_error e)
  end.
Definition open_request_editor (insert_mode : bool) (c : console) : console :=
  match Store.selected_transaction (TuiModel.store (model c)) with
  | None => c
  | Some x =>
      match List.find (holds x) (pending c) with
      | None => c
      | Some r => opened insert_mode c (TuiModel.open_request_editor (model c) r)
      end
  end.
Definition open_repeat_editor (insert_mode : bool) (c : console) : console := opened insert_mode c (TuiModel.open_repeat_editor (model c)).
Definition submit_editor (l : links) (c : console) : console :=
  match Work.editor (TuiModel.work (model c)) with
  | None => c
  | Some e =>
      match RequestEditor.submit e with
      | Err error => update_editor (fun e => RequestEditor.set_error e error) c
      | Ok s =>
          close_editor match Work.target (TuiModel.work (model c)) with
            | Some InteractiveTarget =>
                match respond_selected l (RequestEditor.decision s) c with
                | (true, c) => with_model c (TuiModel.apply_edited_request (model c) (RequestEditor.submitted_headers s) (RequestEditor.submitted_body s))
                | (false, c) => c
                end
            | Some (RepeatTarget x) =>
                send_repeat l (with_model c (TuiModel.with_work (model c)
                  (Work.apply_repeat_edit (TuiModel.work (model c)) x (RequestEditor.submitted_map s) (RequestEditor.submitted_body s))))
            | None => c
            end
      end
  end.
Definition handle_editor_normal_key (l : links) (k : key_event) (c : console) : console :=
  if is_char k (bs "q") then close_editor c
  else if is_char k (bs "s") then submit_editor l c
  else if is_char k (bs "i") then update_editor RequestEditor.enter_insert_mode c
  else if is_char k (bs "h") || bool_decide (code k = KeyLeft) then update_editor RequestEditor.move_left c
  else if is_char k (bs "j") || bool_decide (code k = KeyDown) then update_editor RequestEditor.move_down c
  else if is_char k (bs "k") || bool_decide (code k = KeyUp) then update_editor RequestEditor.move_up c
  else if is_char k (bs "l") || bool_decide (code k = KeyRight) then update_editor RequestEditor.move_right c
  else if is_char k (bs "0") || bool_decide (code k = KeyHome) then update_editor RequestEditor.move_home c
  else if is_char k (bs "$") || bool_decide (code k = KeyEnd) then update_editor RequestEditor.move_end c
  else c.
Definition handle_editor_insert_key (k : key_event) (c : console) : console :=
  match code k with
  | KeyEsc => update_editor RequestEditor.enter_normal_mode c
  | KeyEnter => update_editor RequestEditor.insert_newline c
  | KeyTab => update_editor RequestEditor.insert_tab c
  | KeyBackspace => update_editor RequestEditor.backspace c
  | KeyDelete => update_editor RequestEditor.delete c
  | KeyLeft => update_editor RequestEditor.move_left c
  | KeyRight => update_editor RequestEditor.move_right c
  | KeyUp => update_editor RequestEditor.move_up c
  | KeyDown => update_editor RequestEditor.move_down c
  | KeyHome => update_editor RequestEditor.move_home c
  | KeyEnd => update_editor RequestEditor.move_end c
  | Char ch => if control k || alt k then c else update_editor (RequestEditor.insert_character ch) c
  | _ => c
  end.
Definition handle_editor_key (l : links) (k : key_event) (c : console) : console :=
  if is_char k (bs "s") && control k then submit_editor l c
  else
    match Work.editor (TuiModel.work (model c)) with
    | None => c
    | Some e => match RequestEditor.mode e with
                | NormalMode => handle_editor_normal_key l k c
                | InsertMode => handle_editor_insert_key k c end
    end.

(** * All keys *)

Definition nav_model (f : Nav.t -> Nav.t) (c : console) : console :=
  with_model c (TuiModel.with_nav (model c) (f (TuiModel.nav (model c)))).
Definition on_model (f : TuiModel.t -> TuiModel.t) (c : console) : console := with_model c (f (model c)).
Definition delete_repeat (c : console) : console :=
  let '(deleted, w) := Work.delete_selected_repeat (TuiModel.work (model c)) in
  if (deleted : bool) then with_model c (TuiModel.with_work (model c) w)
  else notice c (bs "an in-flight repeat workspace cannot be deleted").
Definition page_of (c : console) : tui_page := Nav.page (TuiModel.nav (model c)).
Definition focus_of (c : console) : focus_pane := Nav.focus (TuiModel.nav (model c)).
Definition listing (c : console) : bool := bool_decide (focus_of c = Flows) || bool_decide (focus_of c = RepeatWorkspaces).
Definition paused_selected (c : console) : bool := Store.selected_is_paused (TuiModel.store (model c)).
Definition is_up (k : key_event) : bool := bool_decide (code k = KeyUp) || is_char k (bs "k").
Definition is_down (k : key_event) : bool := bool_decide (code k = KeyDown) || is_char k (bs "j").
(** The keys of an open rule detail. *)
Definition handle_detail_key (k : key_event) (d : rule_detail) (c : console) : console :=
  let scroll (v : N) := on_model (fun m => TuiModel.with_view m (EvidenceView.with_detail (TuiModel.evidence_view m)
    (Some (RuleDetail (detail_identity d) (detail_request d) (request_incomplete d) (detail_snapshot d) v)))) c in
  if bool_decide (code k = KeyEnter) || is_char k (bs "q") then on_model TuiModel.close_rule_detail c
  else if is_up k then scroll (scroll_up_by (detail_scroll_row d) 1)
  else if is_down k then scroll (scroll_down_by (detail_scroll_row d) 1)
  else if bool_decide (code k = KeyPageUp) then scroll (scroll_up_by (detail_scroll_row d) PAGE_SCROLL_ROWS)
  else if bool_decide (code k = KeyPageDown) then scroll (scroll_down_by (detail_scroll_row d) PAGE_SCROLL_ROWS)
  else if bool_decide (code k = KeyHome) then scroll 0%N
  else c.
(** The keys of the evidence pane; [None]: another key. *)
Definition handle_evidence_key (k : key_event) (c : console) : option console :=
  if is_char k (bs "j") then Some (on_model (TuiModel.select_evaluation true) c)
  else if is_char k (bs "k") then Some (on_model (TuiModel.select_evaluation false) c)
  else if bool_decide (code k = KeyEnter) then Some (on_model TuiModel.open_rule_detail c)
  else if is_char k (bs "z") then Some (nav_model Nav.expand_focused_pane c)
  else None.
Definition handle_expanded_key (k : key_event) (c : console) : console :=
  if is_up k && listing c then on_model TuiModel.select_previous c
  else if is_down k && listing c then on_model TuiModel.select_next c
  else if is_up k then on_model (TuiModel.scroll_up 1) c
  else if is_down k then on_model (TuiModel.scroll_down 1) c
  else if bool_decide (code k = KeyPageUp) then on_model (TuiModel.scroll_up PAGE_SCROLL_ROWS) c
  else if bool_decide (code k = KeyPageDown) then on_model (TuiModel.scroll_down PAGE_SCROLL_ROWS) c
  else if is_char k (bs "h") then nav_model Nav.select_request_side c
  else if is_char k (bs "l") then nav_model Nav.select_response_side c
  else if is_char k (bs "m") then nav_model Nav.cycle_display_mode c
  else c.
(** The keys while a pane is expanded. *)
Definition handle_overlay_key (l : links) (k : key_event) (c : console) : console :=
  if is_char k (bs "R") && bool_decide (page_of c = TrafficPage) then create_repeat_workspace l c
  else if is_char k (bs "e") && bool_decide (page_of c = RepeatPage) then open_repeat_editor false c
  else if is_char k (bs "i") && bool_decide (page_of c = RepeatPage) then open_repeat_editor true c
  else if is_char k (bs "s") && bool_decide (page_of c = RepeatPage) then send_repeat l c
  else if is_char k (bs "d") && bool_decide (page_of c = RepeatPage) then delete_repeat c
  else if is_char k (bs "e") && paused_selected c then open_request_editor false c
  else if is_char k (bs "i") && paused_selected c then open_request_editor true c
  else handle_expanded_key k c.
(** The keys of a page. *)
Definition handle_page_key (l : links) (k : key_event) (c : console) : console :=
  if is_char k (bs "1") then on_model TuiModel.show_traffic c
  else if is_char k (bs "2") then on_model TuiModel.show_diagnostics c
  else if is_char k (bs "3") then on_model TuiModel.show_repeat c
  else if is_char k (bs "R") && bool_decide (page_of c = TrafficPage) then create_repeat_workspace l c
  else if is_char k (bs "v") then nav_model Nav.cycle_layout c
  else if is_char k (bs "m") then nav_model Nav.cycle_display_mode c
  else if is_char k (bs "h") then nav_model Nav.select_request_side c
  else if is_char k (bs "l") then nav_model Nav.select_response_side c
  else if bool_decide (code k = KeyTab) then nav_model Nav.cycle_focus c
  else if is_up k && listing c then on_model TuiModel.select_previous c
  else if is_down k && listing c then on_model TuiModel.select_next c
  else if is_up k then on_model (TuiModel.scroll_up 1) c
  else if is_down k then on_model (TuiModel.scroll_down 1) c
  else if bool_decide (code k = KeyPageUp) then on_model (TuiModel.scroll_up PAGE_SCROLL_ROWS) c
  else if bool_decide (code k = KeyPageDown) then on_model (TuiModel.scroll_down PAGE_SCROLL_ROWS) c
  else if is_char k (bs "c") && negb (bool_decide (page_of c = RepeatPage)) then (respond_selected l Continue c).2
  else if is_char k (bs "r") && negb (bool_decide (page_of c = RepeatPage)) then (respond_selected l Reject c).2
  else if is_char k (bs "x") && negb (bool_decide (page_of c = RepeatPage)) then (respond_selected l CancelModification c).2
  else if is_char k (bs "s") && bool_decide (page_of c = RepeatPage) then send_repeat l c
  else if is_char k (bs "d") && bool_decide (page_of c = RepeatPage) then delete_repeat c
  else if is_char k (bs "e") && bool_decide (page_of c = RepeatPage) then open_repeat_editor false c
  else if is_char k (bs "i") && bool_decide (page_of c = RepeatPage) then open_repeat_editor true c
  else if is_char k (bs "e") && paused_selected c then open_request_editor false c
  else if is_char k (bs "i") && paused_selected c then open_request_editor true c
  else if bool_decide (code k = KeyEnter) then nav_model Nav.expand_focused_pane c
  else c.
(** The keys that are not the editor's, the detail's or the evidence pane's. *)
Definition handle_plain_key (l : links) (k : key_event) (c : console) : console :=
  let c := on_model TuiModel.clear_input_notice c in
  let expanded := match Nav.expanded_pane (TuiModel.nav (model c)) with Some _ => true | None => false end in
  if is_char k (bs "q") && expanded then nav_model Nav.close_expanded_pane c
  else if is_char k (bs "q") && bool_decide (page_of c = RepeatPage) then nav_model Nav.leave_repeat c
  else if expanded then handle_overlay_key l k c
  else if control k then
    if is_char k (bs "h") || is_char k (bs "k") then nav_model Nav.focus_previous c
    else if is_char k (bs "j") || is_char k (bs "l") then nav_model Nav.focus_next c else c
  else handle_page_key l k c.
(** Whether the terminal exits. *)
Definition handle_key_with_repeat (l : links) (k : key_event) (c : console) : bool * console :=
  if negb (press k) then (false, c)
  else if is_exit_key k then (true, c)
  else
    (false,
     match Work.editor (TuiModel.work (model c)), EvidenceView.detail (TuiModel.evidence_view (model c)) with
     | Some _, _ => handle_editor_key l k c
     | None, Some d => handle_detail_key k d c
     | None, None =>
         match (if bool_decide (focus_of c = Evidence) && negb (control k) then handle_evidence_key k c else None) with
         | Some c => c
         | None => handle_plain_key l k c
         end
     end).

(** * The event loop (runtime.rs) *)

(** [drain_intercepts] and [drain_repeat_results] on what their channels hold. *)
Definition drain_intercepts (requests : list TuiModel.intercept_request) (c : console) : console :=
  foldl (fun c r => Console (TuiModel.apply_intercept_request (model c) r) (pending c ++ [r]) (effects c)) c requests.
Definition drain_repeat_results (results : list repeat_result) (c : console) : console :=
  foldl (fun c r => with_model c (TuiModel.with_work (model c) (Work.apply_repeat_result (TuiModel.work (model c)) r))) c results.
Definition paused_transactions (c : console) : list transaction_id := map TuiModel.transaction_of (pending c).
(** [show_transaction]: a transaction's identity, printed. *)
Definition editor_status (show_transaction : transaction_id -> bytes) (c : console) : bytes :=
  match Work.editor (TuiModel.work (model c)), Work.input_notice (TuiModel.work (model c)) with
  | Some e, _ => RequestEditor.status e
  | None, Some n => n
  | None, None =>
      if decide (page_of c = RepeatPage) then
        match Work.selected_repeat_workspace (TuiModel.work (model c)) with
        | None => bs "no repeat workspaces"
        | Some w => if in_flight w then bs "repeat request in flight"
                    else match latest_result w with Some _ => bs "repeat result ready" | None => bs "repeat draft ready" end
        end
      else
        match Store.selected_transaction (TuiModel.store (model c)) with
        | None => bs "idle"
        | Some x => match List.find (holds x) (pending c) with None => bs "idle" | Some _ => bs "HTTP request " ++ show_transaction x end
        end
  end.
(** One iteration: what the channels hold, whether every publisher is gone, the counter
    of dropped events and the key read, if any. *)
Record iteration : Type := Iteration {
  events : list UiEvent.t;
  disconnected : bool;
  intercepts : list TuiModel.intercept_request;
  repeat_results : list repeat_result;
  dropped : N;
  key : option key_event;
  operator_links : links }.
(** Up to the drawing. *)
Definition refresh (show_transaction : transaction_id -> bytes) (i : iteration) (c : console) : console :=
  let c := with_model c (foldl TuiModel.apply (model c) (events i)) in
  let c := drain_repeat_results (repeat_results i) (drain_intercepts (intercepts i) c) in
  let c := on_model (fun m => TuiModel.set_dropped_events m (dropped i)) c in
  on_model (fun m => TuiModel.set_interactive_state m (paused_transactions c) (editor_status show_transaction c)) c.
Definition iterate (show_transaction : transaction_id -> bytes) (c : console) (i : iteration) : bool * console :=
  let c := refresh show_transaction i c in
  if disconnected i then (true, c) else
  match key i with Some k => handle_key_with_repeat (operator_links i) k c | None => (false, c) end.
(** The loop, until the terminal exits or the iterations end. *)
Fixpoint run_tui (show_transaction : transaction_id -> bytes) (c : console) (l : list iteration) : bool * console :=
  match l with
  | [] => (false, c)
  | i :: l =>
      match iterate show_transaction c i with
      | (true, c) => (true, c)
      | (false, c) => run_tui show_transaction c l
      end
  end.
Definition MAXIMUM_ITEMS_PER_ROW : nat := 256.
Definition start_console (retained_rows : nat) : result tui_model_error console :=
  m ← TuiModel.new retained_rows MAXIMUM_ITEMS_PER_ROW; Ok (Console m [] []).
End Input.
