(* ===== verification/UiSafety.v ===== *)
(** What holds of the terminal at all times (crates/freja-ui/src/tui): everything it
    retains is bounded and consistent, every paused request is answered at most once,
    and a paused request always has its row. *)
From stdpp Require Import gmap strings.
From stdpp Require Import prelude.
From S2P Require Import Prelude Bytes Net Endpoint Domain PolicyModel Acl Guard Inspection Framing AuditModel AuditSink Hooks Runtime Settings HttpHeaders Tls HttpMessages HttpRepeat UiEvents UiEditor UiRoundTrip UiModel UiInput.

(** * Lists *)

Lemma map_alter_same {A B} (h : A -> B) f (l : list A) i : (forall a, h (f a) = h a) -> map h (alter f i l) = map h l.
Proof.
  intros Hf. revert i; induction l as [|a l IH]; intros i; [done|].
  destruct i as [|i]; cbn; [by rewrite Hf|]. f_equal. apply (IH i).
Qed.
Lemma Forall_alter_all {A} (P : A -> Prop) f (l : list A) i : (forall a, P a -> P (f a)) -> Forall P l -> Forall P (alter f i l).
Proof.
  intros Hf Hl. revert i. induction Hl as [|a l Ha Hl IH]; intros i; [constructor|].
  destruct i as [|i]; constructor; auto.
Qed.
Lemma push_bounded_length {A} (q : list A) v n : 0 < n -> length q <= n -> length (push_bounded q v n) <= n.
Proof. intros Hn Hq. unfold push_bounded. rewrite length_app. cbn. case_decide; [destruct q; cbn in *; lia|lia]. Qed.
Lemma find_index_Some {A} (p : A -> bool) l i : Store.find_index p l = Some i -> exists a, l !! i = Some a /\ p a = true.
Proof.
  revert i; induction l as [|a l IH]; intros i; cbn; [done|]. destruct (p a) eqn:E; [intros [= <-]; by exists a|].
  destruct (Store.find_index p l) as [j|]; [|done]. intros [= <-]. by apply IH.
Qed.
Lemma find_index_None {A} (p : A -> bool) l : Store.find_index p l = None -> Forall (fun a => p a = false) l.
Proof.
  induction l as [|a l IH]; cbn; [constructor|]. destruct (p a) eqn:E; [done|].
  destruct (Store.find_index p l); [done|]. intros _. constructor; [done|by apply IH].
Qed.
Lemma map_list_delete {A B} (h : A -> B) (l : list A) i : map h (list_delete i l) = list_delete i (map h l).
Proof. revert i; induction l as [|a l IH]; intros [|i]; try done. cbn. f_equal. apply IH. Qed.
Lemma length_list_delete {A} (l : list A) i : i < length l -> S (length (list_delete i l)) = length l.
Proof. revert i; induction l as [|a l IH]; intros i Hi; cbn in Hi; [lia|]. destruct i as [|i]; [done|]. cbn. f_equal. apply (IH i). lia. Qed.
Lemma Forall_sublist_of {A} (P : A -> Prop) (l k : list A) : Forall P k -> l `sublist_of` k -> Forall P l.
Proof. rewrite !Forall_forall. intros Hk Hs a Ha. apply Hk. by eapply sublist_subseteq. Qed.

Section Safety.
Context `{IpNet, HeaderIter, HttpLibrary, TextBuffer, HeadParser, StatusReasons}.
Implicit Types (s : Store.t) (r : traffic_row).

(** * The store *)

Definition evaluation_ids s : list N := Store.rows s ≫= fun r => map trace_id (row_traces r).
Definition row_wf (items : nat) r : Prop :=
  length (row_findings r) <= items /\ length (row_traces r) <= items /\
  (row_kind r = match row_transaction r with Some _ => HttpTraffic | None => TcpTraffic end).
Record store_wf s : Prop := {
  wf_limits : 0 < Store.maximum_rows s /\ 0 < Store.maximum_items_per_row s;
  wf_rows : length (Store.rows s) <= Store.maximum_rows s;
  wf_identities : NoDup (map identity (Store.rows s));
  wf_selected : Store.selected s = 0 \/ Store.selected s < length (Store.rows s);
  wf_items : Forall (row_wf (Store.maximum_items_per_row s)) (Store.rows s);
  wf_logs : length (Store.operational_logs s) <= Store.maximum_items_per_row s;
  wf_evaluations : NoDup (evaluation_ids s) /\ Forall (fun i => (i < Store.next_evaluation_id s)%N) (evaluation_ids s);
  wf_sessions : NoDup (map meta_session (Store.sessions s)) }.
(** Changes of a row's contents that keep what the store relies on. *)
Definition keeps_row (f : traffic_row -> traffic_row) : Prop :=
  forall r, identity (f r) = identity r /\ row_kind (f r) = row_kind r /\ row_traces (f r) = row_traces r.
Lemma ids_alter f (l : list traffic_row) i : keeps_row f ->
  (alter f i l ≫= fun r => map trace_id (row_traces r)) = (l ≫= fun r => map trace_id (row_traces r)).
Proof.
  intros Hf. revert i; induction l as [|r l IH]; intros i; [done|]. destruct i as [|i]; cbn.
  - by destruct (Hf r) as (_ & _ & ->).
  - f_equal. apply (IH i).
Qed.
Lemma ids_map f (l : list traffic_row) : keeps_row f ->
  (map f l ≫= fun r => map trace_id (row_traces r)) = (l ≫= fun r => map trace_id (row_traces r)).
Proof. intros Hf. induction l as [|r l IH]; cbn; [done|]. destruct (Hf r) as (_ & _ & ->). f_equal. apply IH. Qed.
Lemma row_wf_keeps items f r : keeps_row f -> (length (row_findings r) <= items -> length (row_findings (f r)) <= items) -> row_wf items r -> row_wf items (f r).
Proof.
  intros Hf Hn (Hfind & Htraces & Hkind). destruct (Hf r) as (Hid & Hk & Ht). unfold row_wf. rewrite Ht, Hk, Hkind.
  injection Hid as _ ->. auto.
Qed.
Lemma wf_update_row s i f :
  keeps_row f -> (forall r, length (row_findings r) <= Store.maximum_items_per_row s -> length (row_findings (f r)) <= Store.maximum_items_per_row s) ->
  store_wf s -> store_wf (Store.update_row s i f).
Proof.
  intros Hf Hn [? Hr Hid Hs Hi ? [Hnd Hlt] ?]. split; cbn; try done; unfold evaluation_ids; cbn; rewrite ?length_alter, ?ids_alter by done; try done.
  - rewrite map_alter_same; [done|]. intros r. apply Hf.
  - apply Forall_alter_all; [|done]. intros r. apply row_wf_keeps; auto.
Qed.
Lemma bind_delete_sublist {A B} (g : A -> list B) (l : list A) i : (list_delete i l ≫= g) `sublist_of` (l ≫= g).
Proof.
  revert i; induction l as [|a l IH]; intros i; [done|]. destruct i as [|i]; cbn.
  - by apply sublist_inserts_l.
  - apply sublist_app; [done|apply IH].
Qed.
Lemma wf_with_rows s l n :
  store_wf s -> length l <= Store.maximum_rows s -> NoDup (map identity l) -> (n = 0 \/ n < length l) ->
  Forall (row_wf (Store.maximum_items_per_row s)) l -> (l ≫= fun r => map trace_id (row_traces r)) `sublist_of` evaluation_ids s ->
  store_wf (Store.with_selected (Store.with_rows s l) n).
Proof.
  intros [? ? ? ? ? ? [Hnd Hlt] ?] **. split; cbn; try done. unfold evaluation_ids; cbn. split; [eapply sublist_NoDup; [exact Hnd|done]|].
  eapply Forall_sublist_of; [exact Hlt|done].
Qed.
Lemma wf_append s r n :
  store_wf s -> length (Store.rows s) < Store.maximum_rows s -> identity r ∉ map identity (Store.rows s) ->
  row_wf (Store.maximum_items_per_row s) r -> row_traces r = [] -> n <= length (Store.rows s) ->
  store_wf (Store.with_selected (Store.with_rows s (Store.rows s ++ [r])) n).
Proof.
  intros Hs Hroom Hnew Hr Ht Hn. pose proof Hs as [? ? Hid ? Hi ? ? ?]. apply wf_with_rows; [done|rewrite length_app; cbn; lia| |rewrite length_app; cbn; lia| |].
  - rewrite map_app. apply NoDup_app; split; [done|]. split; [|apply NoDup_singleton].
    intros x Hx Hx2. apply list_elem_of_singleton in Hx2 as ->. done.
  - apply Forall_app; split; [done|by constructor].
  - rewrite bind_app. cbn. rewrite Ht. cbn. by rewrite app_nil_r.
Qed.
Lemma with_selected_same s : Store.with_selected s (Store.selected s) = s.
Proof. by destruct s. Qed.
Lemma evict_eq s i : Store.evict s i =
  Store.with_selected (Store.with_rows s (list_delete i (Store.rows s))) (if i <? Store.selected s then Store.selected s - 1 else Store.selected s).
Proof.
  unfold Store.evict. cbv zeta. change (Store.selected (Store.with_rows s (list_delete i (Store.rows s)))) with (Store.selected s).
  by destruct (i <? Store.selected s).
Qed.
Lemma delete_room s i : i < length (Store.rows s) -> store_wf s ->
  length (list_delete i (Store.rows s)) < Store.maximum_rows s /\ NoDup (map identity (list_delete i (Store.rows s))).
Proof.
  intros Hi [? ? Hid ? ? ? ? ?]. split.
  - pose proof (length_list_delete (Store.rows s) i Hi). lia.
  - rewrite map_list_delete. eapply sublist_NoDup; [exact Hid|apply (sublist_delete _ i)].
Qed.
Lemma wf_push p s r o s' :
  store_wf s -> identity r ∉ map identity (Store.rows s) -> row_wf (Store.maximum_items_per_row s) r -> row_traces r = [] ->
  Store.push_row_evicting p s r = (o, s') -> store_wf s' /\ (forall i, o = Some i -> i < length (Store.rows s')).
Proof.
  intros Hs Hnew Hr Ht. unfold Store.push_row_evicting. case_decide as Hfull.
  2:{ intros [= <- <-]. split; [|intros i [= <-]; cbn; rewrite length_app; cbn; lia].
    rewrite <-(with_selected_same (Store.with_rows s _)). pose proof (wf_rows _ Hs). pose proof (wf_selected _ Hs).
    apply wf_append; try done; cbn; lia. }
  destruct (Store.find_index p (Store.rows s)) as [i|] eqn:Ei; [|by intros [= <- <-]].
  apply find_index_Some in Ei as (a & Hi%lookup_lt_Some & _). pose proof (delete_room s i Hi Hs) as [Hlen Hnd].
  rewrite evict_eq. intros [= <- <-]. split; [|intros j [= <-]; cbn; rewrite length_app; cbn; lia].
  set (s0 := Store.with_selected (Store.with_rows s (list_delete i (Store.rows s))) 0).
  assert (store_wf s0) as Hs0.
  { apply wf_with_rows; [done|lia|done|by left| |apply bind_delete_sublist].
    eapply Forall_sublist_of; [apply (wf_items _ Hs)|apply (sublist_delete _ i)]. }
  assert (identity r ∉ map identity (Store.rows s0)) as Hnew0.
  { intros Hin. apply Hnew. cbn in Hin. rewrite map_list_delete in Hin. by eapply sublist_subseteq; [apply (sublist_delete _ i)|]. }
  pose proof (length_list_delete (Store.rows s) i Hi) as Hback.
  pose proof (wf_append s0 r (if i <? Store.selected s then Store.selected s - 1 else Store.selected s) Hs0 Hlen Hnew0 Hr Ht) as Happ.
  apply Happ. change (Store.rows s0) with (list_delete i (Store.rows s)). pose proof (wf_selected _ Hs). destruct (Nat.ltb_spec i (Store.selected s)); lia.
Qed.
(** ** How the store moves *)

Definition identities s : list row_identity := map identity (Store.rows s).
(** A row a paused request holds. *)
Definition protected s (id : row_identity) : Prop := exists x, id.2 = Some x /\ Store.is_paused s x = true.
(** The store after some operations: only rows of [ids] are new and no row of a paused
    request goes. *)
Record evolves (ids : list row_identity) s s' : Prop := {
  ev_paused : Store.paused_transactions s' = Store.paused_transactions s;
  ev_maximum_rows : Store.maximum_rows s' = Store.maximum_rows s;
  ev_maximum_items : Store.maximum_items_per_row s' = Store.maximum_items_per_row s;
  ev_new : forall id, id ∈ identities s' -> id ∈ identities s \/ id ∈ ids;
  ev_kept : forall id, id ∈ identities s -> protected s id -> id ∈ identities s' }.
Lemma protected_evolves ids s s' id : evolves ids s s' -> protected s id -> protected s' id.
Proof. intros [Hp _ _ _ _] (x & Hx & Hin). exists x. split; [done|]. unfold Store.is_paused in *. by rewrite Hp. Qed.
(** Nothing but the contents of the rows and the counters changed. *)
Lemma evolves_same ids s s' :
  Store.paused_transactions s' = Store.paused_transactions s -> Store.maximum_rows s' = Store.maximum_rows s ->
  Store.maximum_items_per_row s' = Store.maximum_items_per_row s -> identities s' = identities s -> evolves ids s s'.
Proof. intros ? ? ? Hid. split; [done|done|done| |]; rewrite Hid; auto. Qed.
Lemma evolves_refl ids s : evolves ids s s.
Proof. by apply evolves_same. Qed.
Lemma evolves_trans ids s s' s'' : evolves ids s s' -> evolves ids s' s'' -> evolves ids s s''.
Proof.
  intros Hev [? ? ? Hnew Hkept]. pose proof (protected_evolves ids s s') as Hprot. destruct Hev as [? ? ? Hnew' Hkept'].
  split; [congruence|congruence|congruence| |].
  - intros id [Hid|Hid]%Hnew; [by apply Hnew'|by right].
  - intros id Hid Hp. apply Hkept; [by apply Hkept'|]. apply Hprot; [by split|done].
Qed.
Lemma evolves_weaken ids ids' s s' : ids ⊆ ids' -> evolves ids s s' -> evolves ids' s s'.
Proof. intros Hsub [? ? ? Hnew ?]. split; try done. intros id [?|?]%Hnew; [by left|right; by apply Hsub]. Qed.
Definition advances (ids : list row_identity) s s' : Prop := store_wf s -> store_wf s' /\ evolves ids s s'.
Lemma advances_refl ids s : advances ids s s.
Proof. intros ?. split; [done|apply evolves_refl]. Qed.
Lemma advances_trans ids s s' s'' : advances ids s s' -> advances ids s' s'' -> advances ids s s''.
Proof. intros H12 H23 Hs. destruct (H12 Hs) as [Hs' ?]. destruct (H23 Hs') as [? ?]. split; [done|by eapply evolves_trans]. Qed.
Lemma advances_update_row ids s i f :
  keeps_row f ->
  (store_wf s -> forall r, length (row_findings r) <= Store.maximum_items_per_row s -> length (row_findings (f r)) <= Store.maximum_items_per_row s) ->
  advances ids s (Store.update_row s i f).
Proof.
  intros Hf Hn Hs. split; [apply wf_update_row; auto|]. apply evolves_same; try done. apply map_alter_same. intros r. apply Hf.
Qed.
Lemma evolves_push p s r o s' :
  (forall c, p c = true -> Store.unpaused s c = true) -> Store.push_row_evicting p s r = (o, s') -> evolves [identity r] s s'.
Proof.
  intros Hp. unfold Store.push_row_evicting. case_decide as Hfull.
  2:{ intros [= <- <-]. split; try done; unfold identities; cbn; rewrite map_app; intros id; rewrite elem_of_app; [|by left]. intros [?|?]; auto. }
  destruct (Store.find_index p (Store.rows s)) as [i|] eqn:Ei; [|intros [= <- <-]; split; auto].
  apply find_index_Some in Ei as (a & Hi & Ha). rewrite evict_eq. intros [= <- <-]. split; try done; unfold identities; cbn; rewrite map_app; intros id; rewrite elem_of_app.
  - intros [Hin|Hin]; [|by right]. left. rewrite map_list_delete in Hin. eapply sublist_subseteq; [apply (sublist_delete _ i)|exact Hin].
  - intros Hin (x & Hx & Hpaused). left. pose proof (delete_Permutation (Store.rows s) i a Hi) as HP.
    rewrite (Permutation_map identity HP) in Hin. apply elem_of_cons in Hin as [->|Hin]; [|done].
    specialize (Hp a Ha). unfold Store.unpaused in Hp. destruct a; cbn in *. rewrite Hx in Hp. by rewrite Hpaused in Hp.
Qed.
Lemma position_of_Some s id i : Store.position_of s id = Some i -> i < length (Store.rows s) /\ id ∈ identities s.
Proof.
  intros (a & Hi & <-%bool_decide_eq_true)%find_index_Some. split; [by eapply lookup_lt_Some|].
  apply list_elem_of_fmap. exists a. split; [done|]. by eapply list_elem_of_lookup_2.
Qed.
Lemma position_of_None s id : Store.position_of s id = None -> id ∉ identities s.
Proof.
  intros HF%find_index_None (a & -> & Ha)%list_elem_of_fmap. rewrite Forall_forall in HF. specialize (HF a Ha).
  by apply bool_decide_eq_false in HF.
Qed.
(** A row is found, or made when there is room. *)
Definition ensures (id : row_identity) s (r : option nat * Store.t) : Prop :=
  advances [id] s r.2 /\ (store_wf s -> forall i, r.1 = Some i -> i < length (Store.rows r.2)).
Lemma ensures_push p s r k meta :
  identity r = (row_session r, row_transaction r) -> r = empty_row (row_session r) (row_transaction r) k meta ->
  k = match row_transaction r with Some _ => HttpTraffic | None => TcpTraffic end ->
  (forall c, p c = true -> Store.unpaused s c = true) -> Store.position_of s (identity r) = None ->
  ensures (identity r) s (Store.push_row_evicting p s r).
Proof.
  intros _ Hr Hk Hp Hnew%position_of_None. destruct (Store.push_row_evicting p s r) as [o s'] eqn:E.
  assert (Hwf : row_wf (Store.maximum_items_per_row s) r /\ row_traces r = []).
  { destruct r; cbn in *. unfold empty_row in Hr. destruct (default _ meta). injection Hr as -> _ _ _ _ -> -> _ _ _. unfold row_wf; cbn. split; [|done]. repeat split; [lia|lia|done]. }
  destruct Hwf as [Hwf Ht]. split; cbn.
  - intros Hs. split; [by eapply wf_push|by eapply evolves_push].
  - intros Hs. by eapply (wf_push p s r o s' Hs Hnew Hwf Ht).
Qed.
Lemma ensures_found s id i : Store.position_of s id = Some i -> ensures id s (Some i, s).
Proof. intros [Hi _]%position_of_Some. split; [apply advances_refl|]. by intros _ j [= <-]. Qed.
Lemma empty_row_fields x tx k meta : row_session (empty_row x tx k meta) = x /\ row_transaction (empty_row x tx k meta) = tx.
Proof. unfold empty_row. by destruct (default _ meta). Qed.
Lemma ensures_empty p s x tx k meta :
  k = match tx with Some _ => HttpTraffic | None => TcpTraffic end ->
  (forall c, p c = true -> Store.unpaused s c = true) -> Store.position_of s (x, tx) = None ->
  ensures (x, tx) s (Store.push_row_evicting p s (empty_row x tx k meta)).
Proof.
  intros Hk Hp Hn. destruct (empty_row_fields x tx k meta) as [Hx Htx].
  assert (Hid : identity (empty_row x tx k meta) = (x, tx)) by (unfold identity; by rewrite Hx, Htx).
  rewrite <-Hid. apply (ensures_push p s _ k meta); rewrite ?Hid, ?Hx, ?Htx; done.
Qed.
Lemma closed_unpaused s c : row_closed c && Store.unpaused s c = true -> Store.unpaused s c = true.
Proof. by intros [_ ?]%andb_true_iff. Qed.
Lemma ensures_http s x tx : ensures (x, Some tx) s (Store.ensure_http_row s x tx).
Proof.
  unfold Store.ensure_http_row. destruct (Store.position_of s (x, Some tx)) eqn:E; [by apply ensures_found|].
  apply ensures_empty; [done|apply closed_unpaused|done].
Qed.
Lemma ensures_paused_http s x tx : ensures (x, Some tx) s (Store.ensure_paused_http_row s x tx).
Proof.
  unfold Store.ensure_paused_http_row. destruct (Store.position_of s (x, Some tx)) eqn:E; [by apply ensures_found|].
  by apply ensures_empty.
Qed.
Lemma ensures_tcp s x : ensures (x, None) s (Store.ensure_tcp_row s x).
Proof.
  unfold Store.ensure_tcp_row. destruct (Store.position_of s (x, None)) eqn:E; [by apply ensures_found|].
  apply ensures_empty; [done|apply closed_unpaused|done].
Qed.
Lemma ensures_correlated s x tx : ensures (x, tx) s (Store.ensure_correlated_row s x tx).
Proof. destruct tx; [apply ensures_http|apply ensures_tcp]. Qed.
(** ** What the events do to the store *)

Lemma advances_row id s (r : option nat * Store.t) (f : nat -> Store.t -> Store.t) :
  ensures id s r -> (forall i s', i < length (Store.rows s') -> advances [id] s' (f i s')) ->
  advances [id] s match r with (Some i, s) => f i s | (None, s) => s end.
Proof.
  intros [Hadv Hlt] Hf Hs. destruct r as [[i|] s']; [|by apply Hadv]. cbn in *.
  apply (advances_trans _ _ s'); [done| |done]. apply Hf. by apply Hlt.
Qed.
Lemma advances_selected ids s i : i < length (Store.rows s) -> advances ids s (Store.with_selected s i).
Proof. intros Hi [? ? ? ? ? ? ? ?]. split; [split; cbn; auto|by apply evolves_same]. Qed.
Lemma advances_count_failure ids s : advances ids s (Store.count_failure s).
Proof. intros [? ? ? ? ? ? ? ?]. split; [split; cbn; auto|by apply evolves_same]. Qed.
Lemma advances_count_truncation ids s b : advances ids s (Store.count_truncation s b).
Proof. intros [? ? ? ? ? ? ? ?]. split; [split; cbn; auto|by apply evolves_same]. Qed.
Lemma advances_logs ids s v : advances ids s (Store.with_logs s (push_bounded (Store.operational_logs s) v (Store.maximum_items_per_row s))).
Proof.
  intros [[? ?] ? ? ? ? ? ? ?]. split; [|by apply evolves_same]. split; cbn; auto. by apply push_bounded_length.
Qed.
Lemma keeps_request (f : traffic_row -> side_snapshot) : keeps_row (fun r => with_request r (f r)).
Proof. by intros []. Qed.
Lemma keeps_side d f : keeps_row (update_side d f).
Proof. by intros []; destruct d. Qed.
Lemma findings_side d f r : row_findings (update_side d f r) = row_findings r.
Proof. by destruct d. Qed.
Lemma advances_side ids s i d f : advances ids s (TuiModel.on_side i d f s).
Proof. apply advances_update_row; [apply keeps_side|]. intros _ r. by rewrite findings_side. Qed.
(** A new evaluation takes the next identity. *)
Lemma ids_push items t (l : list traffic_row) i : i < length l ->
  exists k, k `sublist_of` (l ≫= fun r => map trace_id (row_traces r)) /\
    (alter (fun r => with_traces r (push_bounded (row_traces r) t items)) i l ≫= fun r => map trace_id (row_traces r)) ≡ₚ trace_id t :: k.
Proof.
  revert i; induction l as [|r l IH]; intros i Hi; cbn in Hi; [lia|]. destruct i as [|i].
  - set (q := if decide (length (row_traces r) = items) then tail (row_traces r) else row_traces r).
    exists (map trace_id q ++ (l ≫= fun r => map trace_id (row_traces r))). split.
    + cbn. apply sublist_app; [|done]. subst q. case_decide; [|done]. destruct (row_traces r); cbn; [done|by apply sublist_cons].
    + cbn. fold q. unfold push_bounded. fold q. rewrite map_app, <-app_assoc. cbn. symmetry. apply Permutation_middle.
  - destruct (IH i ltac:(lia)) as (k & Hk & HP). exists (map trace_id (row_traces r) ++ k). split.
    + cbn. by apply sublist_app.
    + cbn. etrans; [apply Permutation_app_head, HP|]. symmetry. apply Permutation_middle.
Qed.
Lemma advances_trace ids s i t next :
  i < length (Store.rows s) -> trace_id t = Store.next_evaluation_id s -> checked_add (Store.next_evaluation_id s) 1 = Some next ->
  advances ids s (Store.update_row (Store.with_next_id s next) i (fun r => with_traces r (push_bounded (row_traces r) t (Store.maximum_items_per_row s)))).
Proof.
  intros Hi Ht Hnext [[? ?] ? Hid ? Hitems ? [Hnd Hlt] ?].
  assert (next = Store.next_evaluation_id s + 1)%N as -> by (by apply checked_add_Some in Hnext as [-> _]).
  assert (Hsame : map identity (alter (fun r => with_traces r (push_bounded (row_traces r) t (Store.maximum_items_per_row s))) i (Store.rows s)) = map identity (Store.rows s))
    by (apply map_alter_same; by intros []).
  split; [|by apply evolves_same]. split; cbn; rewrite ?length_alter, ?Hsame; auto.
  - apply Forall_alter_all; [|done]. intros r (Hf & Htr & Hk). destruct r; cbn in *. repeat split; try done. by apply push_bounded_length.
  - unfold evaluation_ids. cbn. destruct (ids_push (Store.maximum_items_per_row s) t (Store.rows s) i Hi) as (k & Hk & HP).
    assert (Hknd : NoDup k) by (eapply sublist_NoDup; [exact Hnd|done]).
    assert (Hklt : Forall (fun i => (i < Store.next_evaluation_id s)%N) k) by (eapply Forall_sublist_of; [exact Hlt|done]).
    rewrite Forall_forall in Hklt. split.
    + rewrite HP, Ht. constructor; [|done]. intros Hin. specialize (Hklt _ Hin). lia.
    + rewrite HP, Ht. apply Forall_forall. intros j [->|Hj]%elem_of_cons; [lia|]. specialize (Hklt j Hj). cbn in Hklt. lia.
Qed.
Lemma wf_map_rows s f : keeps_row f -> (forall r, row_findings (f r) = row_findings r) -> store_wf s -> store_wf (Store.with_rows s (map f (Store.rows s))).
Proof.
  intros Hf Hn [? ? ? ? Hitems ? ? ?]. assert (Hsame : map identity (map f (Store.rows s)) = map identity (Store.rows s)).
  { rewrite map_map. apply map_ext. intros r. apply Hf. }
  split; cbn; rewrite ?length_map, ?Hsame; auto.
  - apply Forall_fmap. eapply Forall_impl; [exact Hitems|]. intros r. apply row_wf_keeps; [done|]. by rewrite Hn.
  - unfold evaluation_ids. cbn. by rewrite ids_map.
Qed.
Lemma advances_map_rows ids s f : keeps_row f -> (forall r, row_findings (f r) = row_findings r) -> advances ids s (Store.with_rows s (map f (Store.rows s))).
Proof.
  intros Hf Hn Hs. split; [by apply wf_map_rows|]. apply evolves_same; try done. unfold identities. cbn. rewrite map_map. apply map_ext. intros r. apply Hf.
Qed.
Lemma advances_sessions ids s l : NoDup (map meta_session l) -> advances ids s (Store.with_sessions s l).
Proof. intros Hl [? ? ? ? ? ? ? ?]. split; [split; cbn; auto|by apply evolves_same]. Qed.
Lemma advances_update_session ids s x client target : advances ids s (Store.update_session s x client target).
Proof.
  intros Hs. unfold Store.update_session. set (l := match _ with Some _ => _ | None => _ end).
  assert (NoDup (map meta_session l)) as Hl.
  { pose proof (wf_sessions _ Hs) as Hnd. subst l. destruct (Store.find_index _ _) as [i|] eqn:E.
    - apply find_index_Some in E as (a & Hi & Ha%bool_decide_eq_true).
      rewrite list_fmap_insert. cbn. rewrite list_insert_id; [done|]. by rewrite list_lookup_fmap, Hi; cbn; rewrite Ha.
    - apply find_index_None in E. rewrite map_app. apply NoDup_app; split; [done|]. split; [|apply NoDup_singleton].
      intros y (m & -> & Hm)%list_elem_of_fmap Hy. rewrite Forall_forall in E. specialize (E m Hm). apply list_elem_of_singleton in Hy.
      by apply bool_decide_eq_false in E. }
  revert Hs. apply (advances_trans _ _ (Store.with_sessions s l)); [by apply advances_sessions|].
  apply (advances_map_rows ids (Store.with_sessions s l)); intros []; cbn; case_decide; done.
Qed.
Lemma NoDup_map_filter {A B} (h : A -> B) p (l : list A) : NoDup (map h l) -> NoDup (map h (List.filter p l)).
Proof.
  induction l as [|a l IH]; cbn; [done|]. intros [Ha Hl]%NoDup_cons. destruct (p a); [|by apply IH]. cbn. apply NoDup_cons. split; [|by apply IH].
  intros (b & Hb & [Hin _]%list_elem_of_In%filter_In)%list_elem_of_fmap. apply Ha. apply list_elem_of_fmap. exists b. split; [done|]. by apply list_elem_of_In.
Qed.
Lemma keeps_close up down : keeps_row (fun r => close_row r up down).
Proof. by intros []. Qed.
Lemma advances_close_session s x up down : advances [(x, None)] s (Store.close_session s x up down).
Proof.
  unfold Store.close_session. set (closed := Store.with_rows s _).
  assert (Hclosed : advances [(x, None)] s closed) by (apply advances_map_rows; intros []; cbn; case_decide; done).
  set (s' := if existsb _ _ then _ else _). assert (Hs' : advances [(x, None)] s s').
  { subst s'. destruct (existsb _ _); [done|]. apply (advances_trans _ _ closed); [done|].
    apply (advances_row (x, None) closed (Store.ensure_tcp_row closed x) (fun i s => Store.update_row s i (fun r => close_row r up down))); [apply ensures_tcp|].
    intros i s0 _. apply advances_update_row; [apply keeps_close|]. by intros _ []. }
  intros Hs. pose proof (wf_sessions _ (proj1 (Hs' Hs))) as Hnd. revert Hs. apply (advances_trans _ _ s'); [done|].
  apply advances_sessions. by apply NoDup_map_filter.
Qed.
(** The row an event is about. *)
Definition event_rows (e : UiEvent.t) : list row_identity :=
  match e with
  | UiEvent.OperationalLog _ | UiEvent.FlowOpened _ _ _ => []
  | UiEvent.HttpObserved x tx _ _ _ _ | UiEvent.HttpResponseObserved x tx _ _ _ => [(x, Some tx)]
  | UiEvent.DecisionMade x tx _ _ _ | UiEvent.FindingDetected x tx _ | UiEvent.BodyPrefix x tx _ _ _ _ _ => [(x, tx)]
  | UiEvent.WireCaptured x tx _ _ _ _ | UiEvent.WireCaptureFailed x tx _ _ | UiEvent.WireCaptureUnavailable x tx _ _ => [(x, Some tx)]
  | UiEvent.FlowClosed x _ _ => [(x, None)]
  end.
Lemma store_on_row (m : TuiModel.t) o f :
  TuiModel.store (TuiModel.on_row m o f) = match o with (Some i, s) => f i s | (None, s) => s end.
Proof. by destruct o as [[i|] s]. Qed.
Lemma advances_decision m x tx trace evidence target :
  advances [(x, tx)] (TuiModel.store m) (TuiModel.store (TuiModel.apply m (UiEvent.DecisionMade x tx trace evidence target))).
Proof.
  pose proof (ensures_correlated (TuiModel.store m) x tx) as [Hadv Hlt]. cbn [TuiModel.apply].
  destruct (Store.ensure_correlated_row (TuiModel.store m) x tx) as [[i|] s]; [|exact Hadv]. cbn in Hadv, Hlt.
  destruct (checked_add (Store.next_evaluation_id s) 1) as [next|] eqn:E; [|exact Hadv].
  intros Hs. pose proof (Hlt Hs i eq_refl) as Hi. revert Hs. apply (advances_trans _ _ s); [exact Hadv|].
  cbn. by apply advances_trace.
Qed.
Lemma advances_apply m e : advances (event_rows e) (TuiModel.store m) (TuiModel.store (TuiModel.apply m e)).
Proof.
  destruct e; cbn [TuiModel.apply event_rows]; rewrite ?store_on_row; cbn [TuiModel.store TuiModel.with_store];
    try (apply advances_row; [apply ensures_http || apply ensures_correlated|]; intros j s' Hj).
  - apply advances_logs.
  - apply advances_update_session.
  - eapply advances_trans; [|apply advances_selected; cbn; by rewrite length_alter].
    apply advances_update_row; [by intros []|by intros _ []].
  - apply advances_update_row; [by intros []|by intros _ []].
  - apply advances_decision.
  - apply advances_update_row; [by intros []|]. intros Hs r Hr. cbn. apply push_bounded_length; [apply Hs|done].
  - eapply advances_trans; [apply advances_side|apply advances_count_truncation].
  - eapply advances_trans; [apply advances_side|apply advances_count_truncation].
  - eapply advances_trans; [apply advances_side|apply advances_count_failure].
  - apply advances_side.
  - apply advances_close_session.
Qed.
End Safety.
