(* ===== verification/UiTerminal.v ===== *)
(** The terminal as a whole stays bounded and consistent (crates/freja-ui/src/tui):
    what the operator does and what the channels bring keep the rows, the navigation,
    the repeat workspaces and the editor in order. *)
From stdpp Require Import gmap strings.
From stdpp Require Import prelude.
From S2P Require Import Prelude Bytes Net Endpoint Domain PolicyModel Acl Guard Inspection Framing AuditModel AuditSink Hooks Runtime Settings HttpHeaders Tls HttpMessages HttpRepeat UiEvents UiEditor UiRoundTrip UiModel UiInput UiSafety.

Create HintDb terminal.

(** * Navigation *)

Definition page_focus (p : tui_page) (f : focus_pane) : Prop :=
  match p, f with
  | TrafficPage, (Flows | Detail) | DiagnosticsPage, (Evidence | Logs) | RepeatPage, (RepeatWorkspaces | RepeatDetail) => True
  | _, _ => False end.
Record nav_wf (n : Nav.t) : Prop := {
  nav_focus : page_focus (Nav.page n) (Nav.focus n);
  nav_expanded : Nav.expanded_pane n = None \/ Nav.expanded_pane n = Some (Nav.focus n);
  nav_return : Nav.repeat_return_page n <> RepeatPage;
  nav_scrolls : (Nav.detail_scroll n <= 65535 /\ Nav.diagnostics_scroll n <= 65535 /\ Nav.log_scroll n <= 65535)%N }.
(** The focus moves only while no pane is expanded. *)
Ltac solve_nav :=
  let n := fresh "n" in intros n; destruct n as [p ? ? sd f e r ? ? ?];
  let Hf := fresh "Hf" in let He := fresh "He" in let Hr := fresh "Hr" in let Hs := fresh "Hs" in
  intros [Hf He Hr Hs]; destruct p, f; cbn in Hf; try contradiction; destruct r, sd; cbn in *; intros; subst;
  split; cbn in *; try done; try lia; try (by left); try (by right); try (destruct He as [-> | ->]; try done; auto).
Lemma show_traffic_wf n : nav_wf n -> nav_wf (Nav.show_traffic n). Proof. revert n. solve_nav. Qed.
Lemma show_repeat_wf n : nav_wf n -> nav_wf (Nav.show_repeat n). Proof. revert n. solve_nav. Qed.
Lemma leave_repeat_wf n : nav_wf n -> nav_wf (Nav.leave_repeat n). Proof. revert n. solve_nav. Qed.
Lemma cycle_layout_wf n : nav_wf n -> nav_wf (Nav.cycle_layout n).
Proof. destruct n as [? [] ? ? ? ? ? ? ? ?]; intros [? ? ? [? ?]]; split; cbn in *; try done; lia. Qed.
Lemma cycle_display_mode_wf n : nav_wf n -> nav_wf (Nav.cycle_display_mode n).
Proof. destruct n as [? ? [] ? ? ? ? ? ? ?]; intros [? ? ? [? ?]]; split; cbn in *; try done; lia. Qed.
Lemma select_side_wf n s : nav_wf n -> nav_wf (Nav.with_side n s). Proof. revert n. solve_nav. Qed.
Lemma focus_next_wf n : nav_wf n -> Nav.expanded_pane n = None -> nav_wf (Nav.focus_next n). Proof. revert n. solve_nav. Qed.
Lemma focus_previous_wf n : nav_wf n -> Nav.expanded_pane n = None -> nav_wf (Nav.focus_previous n). Proof. revert n. solve_nav. Qed.
Lemma expand_wf n : nav_wf n -> nav_wf (Nav.expand_focused_pane n). Proof. revert n. solve_nav. Qed.
Lemma close_expanded_wf n : nav_wf n -> nav_wf (Nav.close_expanded_pane n). Proof. revert n. solve_nav. Qed.
Lemma scroll_by_wf n f : nav_wf n -> (forall v, (v <= 65535)%N -> (f v <= 65535)%N) -> nav_wf (Nav.scroll_by f n).
Proof.
  intros [? ? ? (? & ? & ?)] Hf. destruct n as [? ? ? ? [] ? ? ? ? ?]; cbn in *; split; cbn; try done; repeat split; auto.
Qed.
Lemma detail_scroll_wf n : nav_wf n -> nav_wf (Nav.with_detail_scroll n 0). Proof. revert n. solve_nav. Qed.
Lemma diagnostics_scroll_wf n : nav_wf n -> nav_wf (Nav.with_diagnostics_scroll n 0). Proof. revert n. solve_nav. Qed.
Lemma diagnostics_wf n : nav_wf n -> nav_wf (Nav.at_page n DiagnosticsPage Evidence). Proof. revert n. solve_nav. Qed.
#[export] Hint Resolve show_traffic_wf show_repeat_wf leave_repeat_wf cycle_layout_wf cycle_display_mode_wf select_side_wf
  expand_wf close_expanded_wf detail_scroll_wf diagnostics_scroll_wf diagnostics_wf focus_next_wf focus_previous_wf : terminal.

Section Terminal.
Context `{IpNet, HeaderIter, HttpLibrary, TextBuffer, HeadParser, StatusReasons}.
Implicit Types (m : TuiModel.t) (c : console) (ids : list row_identity).

(** * The model *)

Definition view_wf (v : EvidenceView.t) : Prop :=
  (- MAXIMUM_EVIDENCE_SCROLL <= EvidenceView.scroll v <= MAXIMUM_EVIDENCE_SCROLL)%Z /\
  (forall d, EvidenceView.detail v = Some d -> (detail_scroll_row d <= 65535)%N).
Definition sources (w : Work.t) : list transaction_id := map (fun r => source_transaction (workspace_source r)) (Work.repeat_workspaces w).
Record work_wf (rows : nat) (w : Work.t) : Prop := {
  workspaces_bounded : length (Work.repeat_workspaces w) <= rows;
  workspaces_distinct : NoDup (sources w);
  workspace_selected : Work.repeat_selected w = 0 \/ Work.repeat_selected w < length (Work.repeat_workspaces w);
  editor_has_target : Work.editor w = None <-> Work.target w = None }.
Record model_wf m : Prop := {
  model_store : store_wf (TuiModel.store m);
  model_view : view_wf (TuiModel.evidence_view m);
  model_nav : nav_wf (TuiModel.nav m);
  model_work : work_wf (Store.maximum_rows (TuiModel.store m)) (TuiModel.work m) }.
(** Steps of the model that keep it so, with the rows they may make. *)
Definition model_moves ids m m' : Prop := model_wf m -> model_wf m' /\ evolves ids (TuiModel.store m) (TuiModel.store m').
Lemma moves_refl ids m : model_moves ids m m.
Proof. intros ?. split; [done|apply evolves_refl]. Qed.
Lemma moves_trans ids m m' m'' : model_moves ids m m' -> model_moves ids m' m'' -> model_moves ids m m''.
Proof. intros H12 H23 Hm. destruct (H12 Hm) as [Hm' ?]. destruct (H23 Hm') as [? ?]. split; [done|by eapply evolves_trans]. Qed.
Lemma moves_store ids m s : advances ids (TuiModel.store m) s -> model_moves ids m (TuiModel.with_store m s).
Proof.
  intros Hadv [Hs ? ? Hw]. destruct (Hadv Hs) as [? Hev]. split; [|done]. split; cbn; try done. by rewrite (ev_maximum_rows _ _ _ Hev).
Qed.
Lemma moves_view ids m v : (view_wf (TuiModel.evidence_view m) -> view_wf v) -> model_moves ids m (TuiModel.with_view m v).
Proof. intros Hv [? ? ? ?]. split; [split; cbn; auto|apply evolves_refl]. Qed.
Lemma moves_nav ids m n : (nav_wf (TuiModel.nav m) -> nav_wf n) -> model_moves ids m (TuiModel.with_nav m n).
Proof. intros Hv [? ? ? ?]. split; [split; cbn; auto|apply evolves_refl]. Qed.
Lemma moves_work ids m w :
  (work_wf (Store.maximum_rows (TuiModel.store m)) (TuiModel.work m) -> work_wf (Store.maximum_rows (TuiModel.store m)) w) ->
  model_moves ids m (TuiModel.with_work m w).
Proof. intros Hv [? ? ? ?]. split; [split; cbn; auto|apply evolves_refl]. Qed.
Lemma moves_notice ids m t : model_moves ids m (TuiModel.set_input_notice m t).
Proof. apply moves_work. by intros []. Qed.
Lemma moves_select ids m i : (i < length (Store.rows (TuiModel.store m)) \/ i = 0) -> model_moves ids m (TuiModel.with_store m (Store.with_selected (TuiModel.store m) i)).
Proof.
  intros Hi. apply moves_store. destruct Hi as [Hi| ->]; [by apply advances_selected|]. intros [? ? ? ? ? ? ? ?].
  split; [split; cbn; auto|by apply evolves_same].
Qed.
Hint Resolve moves_refl moves_notice : terminal.
(** ** Each operation of the model *)

Lemma moves_reset ids m : model_moves ids m (TuiModel.reset_evidence_view m).
Proof.
  unfold TuiModel.reset_evidence_view. eapply moves_trans; [apply moves_view|apply moves_nav; cbn; auto with terminal].
  intros _. split; cbn; [unfold MAXIMUM_EVIDENCE_SCROLL; lia|done].
Qed.
Lemma moves_show_traffic ids m : model_moves ids m (TuiModel.show_traffic m).
Proof. apply moves_nav; auto with terminal. Qed.
Lemma moves_show_repeat ids m : model_moves ids m (TuiModel.show_repeat m).
Proof. apply moves_nav; auto with terminal. Qed.
Lemma moves_show_diagnostics ids m : model_moves ids m (TuiModel.show_diagnostics m).
Proof. unfold TuiModel.show_diagnostics. eapply moves_trans; [apply moves_reset|]. apply moves_nav. auto with terminal. Qed.
Lemma moves_select_row ids m i :
  (store_wf (TuiModel.store m) -> i < length (Store.rows (TuiModel.store m)) \/ i = 0) ->
  model_moves ids m (TuiModel.with_nav (TuiModel.with_store m (Store.with_selected (TuiModel.store m) i)) (Nav.with_detail_scroll (TuiModel.nav m) 0)).
Proof.
  intros Hi Hm. pose proof (Hi (model_store _ Hm)) as Hi'. revert Hm.
  eapply moves_trans; [by apply moves_select|]. apply moves_nav. cbn. auto with terminal.
Qed.
Lemma moves_select_workspace ids m i :
  (work_wf (Store.maximum_rows (TuiModel.store m)) (TuiModel.work m) -> i < length (Work.repeat_workspaces (TuiModel.work m)) \/ i = 0) ->
  model_moves ids m (TuiModel.with_nav (TuiModel.with_work m (Work.with_repeat_selected (TuiModel.work m) i)) (Nav.with_detail_scroll (TuiModel.nav m) 0)).
Proof.
  intros Hi. eapply moves_trans; [apply moves_work|apply moves_nav; cbn; auto with terminal].
  intros Hw. specialize (Hi Hw). destruct Hw as [? ? ? ?]. split; cbn; auto; lia.
Qed.
Lemma moves_select_previous ids m : model_moves ids m (TuiModel.select_previous m).
Proof.
  unfold TuiModel.select_previous. destruct (Nav.page (TuiModel.nav m)).
  3:{ apply moves_select_workspace. intros [_ _ ? _]. lia. }
  all: eapply (moves_trans _ _ _ _ (moves_select_row ids m (Store.selected (TuiModel.store m) - 1) _)); case_decide; [apply moves_reset|apply moves_refl].
  Unshelve. all: intros [_ _ _ ? _ _ _ _]; lia.
Qed.
Lemma moves_select_next ids m : model_moves ids m (TuiModel.select_next m).
Proof.
  unfold TuiModel.select_next. destruct (Nav.page (TuiModel.nav m)).
  3:{ destruct (Nat.ltb_spec (S (Work.repeat_selected (TuiModel.work m))) (length (Work.repeat_workspaces (TuiModel.work m)))); [|apply moves_refl].
    apply moves_select_workspace. by left. }
  all: destruct (Nat.ltb_spec (S (Store.selected (TuiModel.store m))) (length (Store.rows (TuiModel.store m)))); [|apply moves_refl].
  all: eapply (moves_trans _ _ _ _ (moves_select_row ids m (S (Store.selected (TuiModel.store m))) ltac:(by left))); case_decide; [apply moves_reset|apply moves_refl].
Qed.
Lemma moves_scroll_evidence ids m z : model_moves ids m (TuiModel.scroll_evidence z m).2.
Proof.
  unfold TuiModel.scroll_evidence. case_decide; [|apply moves_refl]. apply moves_view. intros [? ?]. split; cbn; [|done].
  unfold MAXIMUM_EVIDENCE_SCROLL. lia.
Qed.
Lemma moves_scroll ids m z f :
  (forall v, (v <= 65535)%N -> (f v <= 65535)%N) ->
  model_moves ids m (let '(done, m') := TuiModel.scroll_evidence z m in if (done : bool) then m' else TuiModel.with_nav m' (Nav.scroll_by f (TuiModel.nav m'))).
Proof.
  intros Hf. pose proof (moves_scroll_evidence ids m z) as Hz. destruct (TuiModel.scroll_evidence z m) as [[] m'].
  - exact Hz.
  - eapply moves_trans; [exact Hz|]. apply moves_nav. intros Hn. by apply scroll_by_wf.
Qed.
Lemma moves_scroll_up ids m a : model_moves ids m (TuiModel.scroll_up a m).
Proof. apply (moves_scroll ids m _ (fun v => scroll_up_by v a)). unfold scroll_up_by. lia. Qed.
Lemma moves_scroll_down ids m a : model_moves ids m (TuiModel.scroll_down a m).
Proof. apply (moves_scroll ids m _ (fun v => scroll_down_by v a)). unfold scroll_down_by. lia. Qed.
Lemma moves_select_evaluation ids m b : model_moves ids m (TuiModel.select_evaluation b m).
Proof.
  unfold TuiModel.select_evaluation. destruct (TuiModel.evidence_row m); [|apply moves_refl]. case_match; [|apply moves_refl].
  eapply moves_trans; [apply moves_view|apply moves_nav; cbn; auto with terminal].
  intros [? ?]. split; cbn; [unfold MAXIMUM_EVIDENCE_SCROLL; lia|done].
Qed.
Lemma moves_open_detail ids m : model_moves ids m (TuiModel.open_rule_detail m).
Proof.
  unfold TuiModel.open_rule_detail. destruct (TuiModel.selected_evaluation m); [|apply moves_notice]. destruct (TuiModel.evidence_row m) as [row|]; [|apply moves_refl].
  destruct (TuiModel.detail_context row). apply moves_view. intros [? ?]. split; cbn; [done|]. intros d [= <-]. cbn. lia.
Qed.
Lemma moves_close_detail ids m : model_moves ids m (TuiModel.close_rule_detail m).
Proof.
  unfold TuiModel.close_rule_detail. eapply moves_trans; [apply (moves_view ids m (EvidenceView.with_detail (TuiModel.evidence_view m) None))|case_match; [apply moves_refl|apply moves_notice]].
  intros [? ?]. by split.
Qed.
Lemma moves_clear_notice ids m : model_moves ids m (TuiModel.clear_input_notice m).
Proof. apply moves_work. by intros []. Qed.
Hint Resolve moves_show_traffic moves_show_repeat moves_show_diagnostics moves_select_previous moves_select_next moves_scroll_up
  moves_scroll_down moves_select_evaluation moves_open_detail moves_close_detail moves_clear_notice : terminal.
(** ** Editors and workspaces *)

Lemma work_editor rows w e g : (e = None <-> g = None) -> work_wf rows w -> work_wf rows (Work.with_editor w e g).
Proof. by intros ? [? ? ? ?]. Qed.
Lemma work_update rows w x f :
  (forall r, source_transaction (workspace_source (f r)) = source_transaction (workspace_source r)) ->
  work_wf rows w -> work_wf rows (Work.update_workspace w x f).
Proof.
  intros Hf [? ? ? ?]. unfold Work.update_workspace. case_match; [|done].
  split; cbn; rewrite ?length_alter; try done. unfold sources. cbn. by rewrite map_alter_same.
Qed.
Lemma work_in_flight rows w : work_wf rows w -> work_wf rows (Work.mark_selected_repeat_in_flight w).
Proof. intros [? ? ? ?]. split; cbn; rewrite ?length_alter; try done. unfold sources. cbn. by rewrite map_alter_same. Qed.
Lemma work_delete rows w : work_wf rows w -> work_wf rows (Work.delete_selected_repeat w).2.
Proof.
  intros [? ? ? ?]. unfold Work.delete_selected_repeat. destruct (Work.selected_repeat_workspace w) as [r|] eqn:E; [|by split].
  destruct (in_flight r); [by split|]. pose proof (length_list_delete _ _ (lookup_lt_Some _ _ _ E)) as Hlen.
  split; cbn; [lia| |lia|done]. unfold sources. cbn. rewrite map_list_delete. eapply sublist_NoDup; [done|apply (sublist_delete _ _)].
Qed.
Lemma work_append rows w r :
  length (Work.repeat_workspaces w) < rows -> source_transaction (workspace_source r) ∉ sources w -> work_wf rows w ->
  work_wf rows (Work.with_repeat_selected (Work.with_workspaces w (Work.repeat_workspaces w ++ [r])) (length (Work.repeat_workspaces w ++ [r]) - 1)).
Proof.
  intros Hroom Hnew [? ? ? ?]. split; cbn; rewrite ?length_app; cbn; [lia| |lia|done].
  unfold sources. cbn. rewrite map_app. apply NoDup_app; split; [done|]. split; [|apply NoDup_singleton].
  intros x Hx Hx2. apply list_elem_of_singleton in Hx2 as ->. done.
Qed.
Lemma moves_open_editor ids m e g : model_moves ids m (TuiModel.with_work m (Work.with_editor (TuiModel.work m) (Some e) (Some g))).
Proof. apply moves_work. by apply work_editor. Qed.
Lemma moves_open_request_editor ids m r : model_moves ids m (TuiModel.open_request_editor m r).2.
Proof. unfold TuiModel.open_request_editor. case_match; [apply moves_open_editor|apply moves_refl]. Qed.
Lemma moves_open_repeat_editor ids m : model_moves ids m (TuiModel.open_repeat_editor m).2.
Proof. unfold TuiModel.open_repeat_editor. repeat case_match; first [apply moves_refl|apply moves_open_editor]. Qed.
Lemma moves_create_repeat ids m r : model_moves ids m (TuiModel.create_repeat_workspace m r).2.
Proof.
  unfold TuiModel.create_repeat_workspace. destruct (Store.find_index _ _) as [i|] eqn:E.
  - eapply moves_trans; [|apply moves_show_repeat]. apply moves_work. apply find_index_Some in E as (a & Hi%lookup_lt_Some & _).
    intros [? ? ? ?]. split; cbn; auto.
  - destruct (Nat.leb_spec (Store.maximum_rows (TuiModel.store m)) (length (Work.repeat_workspaces (TuiModel.work m)))); [apply moves_notice|].
    destruct (negb _); [apply moves_notice|]. destruct (RequestEditor.new _); [|apply moves_notice].
    eapply moves_trans; [|apply moves_show_repeat]. apply moves_work. apply work_append; [done|]. cbn.
    apply find_index_None in E. rewrite Forall_forall in E. intros (b & Hb & Hin)%list_elem_of_fmap. specialize (E b Hin).
    unfold Work.source_of in E. apply bool_decide_eq_false in E. by apply E.
Qed.
Lemma moves_edited ids m h b : model_moves ids m (TuiModel.apply_edited_request m h b).
Proof. apply moves_store, advances_update_row; [by intros []|by intros _ []]. Qed.
(** ** What the channels bring *)

Lemma moves_apply m e : model_moves (event_rows e) m (TuiModel.apply m e).
Proof.
  assert (Hsame : forall m', advances (event_rows e) (TuiModel.store m) (TuiModel.store m') ->
    TuiModel.nav m' = TuiModel.nav m -> (view_wf (TuiModel.evidence_view m) -> view_wf (TuiModel.evidence_view m')) ->
    (work_wf (Store.maximum_rows (TuiModel.store m)) (TuiModel.work m) -> work_wf (Store.maximum_rows (TuiModel.store m)) (TuiModel.work m')) ->
    model_moves (event_rows e) m m').
  { intros m' Hadv Hn Hv Hw [Hs ? ? ?]. destruct (Hadv Hs) as [Hs' Hev]. split; [|done].
    split; rewrite ?Hn, ?(ev_maximum_rows _ _ _ Hev); auto. }
  apply Hsame; [apply advances_apply| | |]; destruct e; cbn [TuiModel.apply]; try done;
    unfold TuiModel.on_row; repeat case_match; try done. all: by intros [? ? ? ?].
Qed.
Lemma moves_result ids m r : model_moves ids m (TuiModel.with_work m (Work.apply_repeat_result (TuiModel.work m) r)).
Proof. apply moves_work. by apply work_update. Qed.
Lemma moves_dropped ids m n : model_moves ids m (TuiModel.set_dropped_events m n).
Proof. apply moves_store. intros [? ? ? ? ? ? ? ?]. split; [split; cbn; auto|by apply evolves_same]. Qed.
(** * The operator *)

(** The paused requests that got their answer, in order. *)
Definition answered (l : list ui_effect) : list transaction_id :=
  omap (fun e => match e with Answer x _ => Some x | SendRepeat _ => None end) l.
(** Every paused request taken: answered or waiting. *)
Definition accounted c : list transaction_id := answered (effects c) ++ paused_transactions c.
Definition operates c c' : Prop :=
  model_wf (model c) -> model_wf (model c') /\ evolves [] (TuiModel.store (model c)) (TuiModel.store (model c')) /\
    accounted c' ≡ₚ accounted c /\ pending c' `sublist_of` pending c.
Lemma operates_refl c : operates c c.
Proof. intros ?. split; [done|]. split; [apply evolves_refl|done]. Qed.
Lemma operates_trans c c' c'' : operates c c' -> operates c' c'' -> operates c c''.
Proof.
  intros H12 H23 Hc. destruct (H12 Hc) as (Hc' & ? & ? & ?). destruct (H23 Hc') as (? & ? & ? & ?).
  split; [done|]. split; [by eapply evolves_trans|]. split; by etrans.
Qed.
Lemma operates_model c m : model_moves [] (model c) m -> operates c (with_model c m).
Proof. intros Hm Hc. destruct (Hm Hc) as [? ?]. done. Qed.
Lemma operates_notice c t : operates c (notice c t).
Proof. apply operates_model, moves_notice. Qed.
Lemma operates_work c w :
  (work_wf (Store.maximum_rows (TuiModel.store (model c))) (TuiModel.work (model c)) -> work_wf (Store.maximum_rows (TuiModel.store (model c))) w) ->
  operates c (with_model c (TuiModel.with_work (model c) w)).
Proof. intros. by apply operates_model, moves_work. Qed.
Lemma answered_app l l' : answered (l ++ l') = answered l ++ answered l'.
Proof. apply omap_app. Qed.
Lemma holder c x i : Store.find_index (holds x) (pending c) = Some i -> exists r, pending c !! i = Some r /\ TuiModel.transaction_of r = x.
Proof. intros (r & ? & ?%bool_decide_eq_true)%find_index_Some. by exists r. Qed.
Lemma operates_answer l c i x d r :
  pending c !! i = Some r -> TuiModel.transaction_of r = x -> operates c (answer l c i x d).2.
Proof.
  intros Hi <- Hc. split; [done|]. split; [apply evolves_refl|]. split; [|apply (sublist_delete _ i)].
  unfold accounted, paused_transactions. cbn. rewrite answered_app. cbn. rewrite <-app_assoc. apply Permutation_app_head. cbn.
  change (TuiModel.transaction_of r :: map TuiModel.transaction_of (list_delete i (pending c))) with (map TuiModel.transaction_of (r :: list_delete i (pending c))).
  apply Permutation_map. symmetry. by apply delete_Permutation.
Qed.
Lemma operates_respond l d c : operates c (respond_selected l d c).2.
Proof.
  unfold respond_selected. destruct (Store.selected_transaction _) as [x|]; [|apply operates_refl].
  destruct (Store.find_index _ _) as [i|] eqn:E; [|apply operates_refl]. apply holder in E as (r & ? & ?). by eapply operates_answer.
Qed.
Lemma operates_sends c m r : operates c (with_model c m) -> operates c (Console m (pending c) (effects c ++ [SendRepeat r])).
Proof.
  intros Hm Hc. destruct (Hm Hc) as (? & ? & Hacc & ?). split; [done|]. split; [done|]. split; [|done].
  unfold accounted in *. cbn in *. rewrite answered_app. cbn. by rewrite app_nil_r.
Qed.
Lemma operates_send_repeat l c : operates c (send_repeat l c).
Proof.
  unfold send_repeat. destruct (repeat_sender l); [|apply operates_notice]. destruct (Work.selected_repeat_request _); [|apply operates_notice].
  case_match; [|apply operates_notice|apply operates_notice]. apply operates_sends, operates_work, work_in_flight.
Qed.
Lemma operates_create_repeat l c : operates c (create_repeat_workspace l c).
Proof.
  unfold create_repeat_workspace. destruct (repeat_sender l); [|apply operates_notice]. destruct (Store.selected_transaction _) as [x|]; [|apply operates_refl].
  destruct (Store.find_index _ _) as [i|] eqn:E; [|apply operates_notice]. apply holder in E as (r & Hr & Hx). rewrite Hr.
  pose proof (moves_create_repeat [] (model c) r) as Hm. destruct (TuiModel.create_repeat_workspace (model c) r) as [[] m]; cbn in Hm; [|by apply operates_model].
  apply operates_model in Hm. pose proof (operates_answer l (with_model c m) i x Continue r Hr Hx) as Ha.
  destruct (answer l (with_model c m) i x Continue) as [[] c']; cbn in Ha.
  - by eapply operates_trans.
  - eapply operates_trans; [exact Hm|]. eapply operates_trans; [exact Ha|]. apply operates_notice.
Qed.
(** ** The editor *)

Lemma operates_update_editor f c : operates c (update_editor f c).
Proof.
  unfold update_editor. destruct (Work.editor _) as [e|] eqn:E; [|apply operates_refl].
  apply operates_work. intros [? ? ? Ht]. split; cbn; try done. rewrite <-Ht, E. done.
Qed.
Lemma operates_close_editor c : operates c (close_editor c).
Proof. apply operates_work, work_editor. done. Qed.
Lemma operates_opened b c (o : result edit_error unit * TuiModel.t) : model_moves [] (model c) o.2 -> operates c (opened b c o).
Proof.
  destruct o as [[]  m]; cbn; intros Hm%operates_model; (eapply operates_trans; [exact Hm|]); [destruct b|].
  - apply (operates_update_editor _ (with_model c m)).
  - apply operates_refl.
  - apply operates_notice.
Qed.
Lemma operates_open_request b c : operates c (open_request_editor b c).
Proof.
  unfold open_request_editor. destruct (Store.selected_transaction _); [|apply operates_refl]. destruct (List.find _ _); [|apply operates_refl].
  apply operates_opened, moves_open_request_editor.
Qed.
Lemma operates_open_repeat b c : operates c (open_repeat_editor b c).
Proof. apply operates_opened, moves_open_repeat_editor. Qed.
Lemma operates_submit l c : operates c (submit_editor l c).
Proof.
  unfold submit_editor. destruct (Work.editor _); [|apply operates_refl]. destruct (RequestEditor.submit _) as [s|]; [|apply operates_update_editor].
  eapply operates_trans; [|apply operates_close_editor]. destruct (Work.target _) as [[|x]|]; [|  |apply operates_refl].
  - pose proof (operates_respond l (RequestEditor.decision s) c) as Hr. destruct (respond_selected _ _ _) as [[] c']; cbn in Hr; [|done].
    eapply operates_trans; [exact Hr|]. apply operates_model, moves_edited.
  - eapply operates_trans; [|apply operates_send_repeat]. apply operates_work. by apply work_update.
Qed.
Hint Resolve operates_refl operates_notice operates_respond operates_send_repeat operates_create_repeat operates_update_editor
  operates_close_editor operates_open_request operates_open_repeat operates_submit : terminal.
(** A decision between two steps. *)
Lemma operates_if (b : bool) c c1 c2 : (b = true -> operates c c1) -> (b = false -> operates c c2) -> operates c (if b then c1 else c2).
Proof. destruct b; auto. Qed.
Ltac each_key := repeat (apply operates_if; [intros _; auto with terminal|intros _]); auto with terminal.
Lemma operates_editor_key l k c : operates c (handle_editor_key l k c).
Proof.
  unfold handle_editor_key. apply operates_if; intros _; [apply operates_submit|]. destruct (Work.editor _) as [e|]; [|apply operates_refl].
  destruct (RequestEditor.mode e).
  - unfold handle_editor_normal_key. each_key.
  - unfold handle_editor_insert_key. destruct (code k); auto with terminal. each_key.
Qed.
(** ** Every other key *)

Lemma operates_on f c : (forall m, model_moves [] m (f m)) -> operates c (on_model f c).
Proof. intros Hf. apply operates_model, Hf. Qed.
Lemma operates_nav f c : (nav_wf (TuiModel.nav (model c)) -> nav_wf (f (TuiModel.nav (model c)))) -> operates c (nav_model f c).
Proof. intros Hf. by apply operates_model, moves_nav. Qed.
Lemma operates_delete c : operates c (delete_repeat c).
Proof.
  unfold delete_repeat. pose proof (work_delete (Store.maximum_rows (TuiModel.store (model c))) (TuiModel.work (model c))) as Hw.
  destruct (Work.delete_selected_repeat _) as [[] w]; [|apply operates_notice]. by apply operates_work.
Qed.
Hint Extern 3 (operates _ (on_model _ _)) => apply operates_on; intros ?; solve [eauto with terminal] : terminal.
Hint Extern 3 (operates _ (nav_model _ _)) => apply operates_nav; intros ?; solve [eauto with terminal | apply select_side_wf; assumption] : terminal.
Hint Resolve operates_delete : terminal.
Lemma operates_detail_key k d c :
  EvidenceView.detail (TuiModel.evidence_view (model c)) = Some d -> operates c (handle_detail_key k d c).
Proof.
  intros Hd.
  assert (Hscroll : forall v, ((detail_scroll_row d <= 65535)%N -> (v <= 65535)%N) -> operates c (on_model (fun m => TuiModel.with_view m (EvidenceView.with_detail (TuiModel.evidence_view m)
    (Some (RuleDetail (detail_identity d) (detail_request d) (request_incomplete d) (detail_snapshot d) v)))) c)).
  { intros v Hv. apply operates_model, moves_view. intros [? Hrow]. split; cbn; [done|]. intros d' [= <-]. cbn. apply Hv. by apply Hrow. }
  unfold handle_detail_key. repeat (apply operates_if; intros _); auto with terminal; apply Hscroll; unfold scroll_up_by, scroll_down_by; lia.
Qed.
Lemma operates_evidence_key k c c' : handle_evidence_key k c = Some c' -> operates c c'.
Proof. unfold handle_evidence_key. repeat case_match; intros [= <-]; auto with terminal. Qed.
Lemma operates_expanded_key k c : operates c (handle_expanded_key k c).
Proof. unfold handle_expanded_key. each_key. Qed.
Hint Resolve operates_expanded_key : terminal.
Lemma operates_overlay_key l k c : operates c (handle_overlay_key l k c).
Proof. unfold handle_overlay_key. each_key. Qed.
Lemma operates_page_key l k c : Nav.expanded_pane (TuiModel.nav (model c)) = None -> operates c (handle_page_key l k c).
Proof. intros Hn. unfold handle_page_key. each_key. Qed.
Hint Resolve operates_overlay_key operates_page_key : terminal.
Lemma operates_plain_key l k c : operates c (handle_plain_key l k c).
Proof.
  unfold handle_plain_key. eapply operates_trans; [apply (operates_on TuiModel.clear_input_notice), moves_clear_notice|].
  set (c1 := on_model _ c). destruct (Nav.expanded_pane (TuiModel.nav (model c1))) eqn:E; each_key.
Qed.
Lemma operates_key l k c : operates c (handle_key_with_repeat l k c).2.
Proof.
  unfold handle_key_with_repeat. destruct (negb (press k)); [apply operates_refl|]. destruct (is_exit_key k); [apply operates_refl|].
  destruct (Work.editor _); [apply operates_editor_key|]. destruct (EvidenceView.detail _) eqn:E; [by apply operates_detail_key|].
  cbn [snd]. match goal with |- operates c match ?o with _ => _ end => destruct o as [c'|] eqn:Ek end; [|apply operates_plain_key].
  destruct (bool_decide _ && _); [|done]. by eapply operates_evidence_key.
Qed.
(** * The event loop *)

Definition paused_with (s : Store.t) (x : transaction_id) : Store.t :=
  if Store.is_paused s x then s else Store.with_paused s (Store.paused_transactions s ++ [x]).
Lemma paused_with_wf s x : store_wf s -> store_wf (paused_with s x).
Proof. unfold paused_with. destruct (Store.is_paused s x); [done|]. intros [? ? ? ? ? ? ? ?]. split; cbn; auto. Qed.
Lemma paused_with_same s x :
  Store.rows (paused_with s x) = Store.rows s /\ Store.maximum_rows (paused_with s x) = Store.maximum_rows s /\
  Store.maximum_items_per_row (paused_with s x) = Store.maximum_items_per_row s.
Proof. unfold paused_with. by destruct (Store.is_paused s x). Qed.
Lemma advances_intercept m r :
  advances [(source_session (TuiModel.request_context r), Some (TuiModel.transaction_of r))] (paused_with (TuiModel.store m) (TuiModel.transaction_of r))
    (TuiModel.store (TuiModel.apply_intercept_request m r)).
Proof.
  unfold TuiModel.apply_intercept_request. fold (paused_with (TuiModel.store m) (TuiModel.transaction_of r)). rewrite store_on_row.
  apply advances_row; [apply ensures_paused_http|]. intros i s Hi.
  eapply advances_trans; [|apply advances_selected; cbn; by rewrite length_alter].
  apply advances_update_row; [by intros []|by intros _ []].
Qed.
Lemma intercept_fields m r : TuiModel.nav (TuiModel.apply_intercept_request m r) = TuiModel.nav m /\
  TuiModel.evidence_view (TuiModel.apply_intercept_request m r) = TuiModel.evidence_view m /\ TuiModel.work (TuiModel.apply_intercept_request m r) = TuiModel.work m.
Proof. by unfold TuiModel.apply_intercept_request, TuiModel.on_row. Qed.
(** The limits a model was made with. *)
Definition limits_of m : nat * nat := (Store.maximum_rows (TuiModel.store m), Store.maximum_items_per_row (TuiModel.store m)).
Lemma evolves_limits ids m m' : evolves ids (TuiModel.store m) (TuiModel.store m') -> limits_of m' = limits_of m.
Proof. intros [_ Hr Hi _ _]. unfold limits_of. by rewrite Hr, Hi. Qed.
Lemma intercept_wf m r : model_wf m -> model_wf (TuiModel.apply_intercept_request m r) /\ limits_of (TuiModel.apply_intercept_request m r) = limits_of m.
Proof.
  intros [Hs ? ? ?]. destruct (advances_intercept m r) as [Hs' Hev]; [by apply paused_with_wf|].
  destruct (intercept_fields m r) as (Hn & Hv & Hw). destruct (paused_with_same (TuiModel.store m) (TuiModel.transaction_of r)) as (_ & Hr & Hi).
  assert (Hl : limits_of (TuiModel.apply_intercept_request m r) = limits_of m).
  { destruct Hev as [_ Hr' Hi' _ _]. unfold limits_of. by rewrite Hr', Hi', Hr, Hi. }
  split; [|done]. pose proof (f_equal fst Hl) as Hlr. unfold limits_of, fst in Hlr. split; rewrite ?Hn, ?Hv, ?Hw, ?Hlr; auto.
Qed.
(** What an iteration brings keeps the model in order and adds the new requests. *)
Definition receives (new : list TuiModel.intercept_request) c c' : Prop :=
  model_wf (model c) -> model_wf (model c') /\ limits_of (model c') = limits_of (model c) /\ pending c' = pending c ++ new /\ effects c' = effects c.
Lemma receives_trans l l' c c' c'' : receives l c c' -> receives l' c' c'' -> receives (l ++ l') c c''.
Proof.
  intros H12 H23 Hc. destruct (H12 Hc) as (Hc' & Hl & Hp & He). destruct (H23 Hc') as (? & Hl' & Hp' & He').
  rewrite Hl', Hp', He', Hl, Hp, He, <-app_assoc. done.
Qed.
Lemma receives_model c m : (model_wf (model c) -> model_wf m /\ limits_of m = limits_of (model c)) -> receives [] c (with_model c m).
Proof. intros Hm Hc. destruct (Hm Hc). by rewrite app_nil_r. Qed.
Lemma receives_moves ids c m : model_moves ids (model c) m -> receives [] c (with_model c m).
Proof. intros Hm. apply receives_model. intros Hc. destruct (Hm Hc) as [? ?%evolves_limits]. done. Qed.
Lemma events_wf l m : model_wf m -> model_wf (foldl TuiModel.apply m l) /\ limits_of (foldl TuiModel.apply m l) = limits_of m.
Proof.
  revert m; induction l as [|e l IH]; intros m Hm; [done|]. cbn. destruct (moves_apply m e Hm) as [Hm' Hl%evolves_limits]. rewrite <-Hl. by apply IH.
Qed.
Lemma receives_intercepts l c : receives l c (drain_intercepts l c).
Proof.
  revert c; induction l as [|r l IH]; intros c; [intros ?; cbn; by rewrite app_nil_r|].
  apply (receives_trans [r] l _ (Console (TuiModel.apply_intercept_request (model c) r) (pending c ++ [r]) (effects c))); [|apply IH].
  intros Hc. destruct (intercept_wf (model c) r Hc). done.
Qed.
Lemma receives_results l c : receives [] c (drain_repeat_results l c).
Proof.
  revert c; induction l as [|r l IH]; intros c; [intros ?; cbn; by rewrite app_nil_r|].
  apply (receives_trans [] [] _ (with_model c (TuiModel.with_work (model c) (Work.apply_repeat_result (TuiModel.work (model c)) r)))); [|apply IH].
  apply (receives_moves []), moves_result.
Qed.
Lemma receives_refresh show i c : receives (intercepts i) c (refresh show i c).
Proof.
  unfold refresh. set (c1 := with_model c _). set (c2 := drain_intercepts _ c1). set (c3 := drain_repeat_results _ c2). set (c4 := on_model _ c3).
  rewrite <-(app_nil_r (intercepts i)). apply (receives_trans _ _ _ c4).
  - rewrite <-(app_nil_r (intercepts i)). apply (receives_trans _ _ _ c3); [|apply (receives_moves []), moves_dropped].
    rewrite <-(app_nil_r (intercepts i)). apply (receives_trans _ _ _ c2); [|apply receives_results].
    apply (receives_trans [] _ _ c1); [|apply receives_intercepts]. apply receives_model, events_wf.
  - apply receives_model. intros [[? ? ? ? ? ? ? ?] ? ? [? ? ? ?]]. split; [split; cbn; try done; split; cbn; done|done].
Qed.
(** An iteration and its key. *)
Lemma iterate_cases show c i : (iterate show c i).2 = refresh show i c \/
  exists k, disconnected i = false /\ key i = Some k /\ (iterate show c i).2 = (handle_key_with_repeat (operator_links i) k (refresh show i c)).2.
Proof. unfold iterate. destruct (disconnected i); [by left|]. destruct (key i) as [k|]; [right; by exists k|by left]. Qed.
Lemma iterate_operates show c i : operates (refresh show i c) (iterate show c i).2.
Proof. destruct (iterate_cases show c i) as [-> |(k & _ & _ & ->)]; [apply operates_refl|apply operates_key]. Qed.
(** What every run preserves and adds. *)
Lemma iterate_wf show c i : model_wf (model c) ->
  model_wf (model (iterate show c i).2) /\ limits_of (model (iterate show c i).2) = limits_of (model c) /\
  accounted (iterate show c i).2 ≡ₚ accounted c ++ map TuiModel.transaction_of (intercepts i).
Proof.
  intros Hc. destruct (receives_refresh show i c Hc) as (Hc' & Hl & Hp & He).
  destruct (iterate_operates show c i Hc') as (Hc'' & Hl'%evolves_limits & Hacc & _). split; [done|]. split; [by rewrite Hl', Hl|].
  rewrite Hacc. unfold accounted, paused_transactions. by rewrite He, Hp, map_app, app_assoc.
Qed.
(** The iterations a run went through. *)
Lemma run_tui_wf show l c : model_wf (model c) ->
  exists done, done `prefix_of` l /\ ((run_tui show c l).1 = false -> done = l) /\
    model_wf (model (run_tui show c l).2) /\ limits_of (model (run_tui show c l).2) = limits_of (model c) /\
    accounted (run_tui show c l).2 ≡ₚ accounted c ++ map TuiModel.transaction_of (concat (map intercepts done)).
Proof.
  revert c; induction l as [|i l IH]; intros c Hc; [exists []; cbn; by rewrite app_nil_r|]. cbn.
  destruct (iterate_wf show c i Hc) as (Hc' & Hl & Hacc). destruct (iterate show c i) as [[] c']; cbn [fst snd] in *.
  - exists [i]. split; [by apply prefix_cons, prefix_nil|]. split; [done|]. cbn. by rewrite app_nil_r.
  - destruct (IH c' Hc') as (d & Hd & Hend & ? & Hl' & Hacc'). exists (i :: d). split; [by apply prefix_cons|]. split; [intros Hb; by rewrite Hend|].
    split; [done|]. split; [by rewrite Hl', Hl|]. cbn. by rewrite Hacc', Hacc, map_app, app_assoc.
Qed.
Lemma start_wf rows c : start_console rows = Ok c -> model_wf (model c) /\ limits_of (model c) = (rows, MAXIMUM_ITEMS_PER_ROW) /\ accounted c = [].
Proof.
  unfold start_console, TuiModel.new. case_decide; [done|]. case_decide; [done|]. intros [= <-]. split; [|done].
  split; cbn; [|split; cbn; [unfold MAXIMUM_EVIDENCE_SCROLL; lia|done]|by split; cbn; auto|by split; cbn; try lia; auto using NoDup_nil_2].
  unfold MAXIMUM_ITEMS_PER_ROW in *. split; cbn; try lia; auto using NoDup_nil_2.
Qed.
(** The terminal starts for every positive number of retained rows, and whatever
    traffic, paused requests, repeat results and keys reach it, the memory it keeps is
    bounded and consistent: at most that many rows with distinct identities and a valid
    selection, at most 256 findings, evaluations and log lines each, distinct
    evaluation identities below the next one, at most that many repeat workspaces with
    distinct sources and a valid selection, an editor exactly when it has a target, the
    focus on a pane of the page, and scroll offsets within 16 bits. *)
Theorem terminal_state_is_bounded show rows l :
  0 < rows ->
  exists c, start_console rows = Ok c /\
    let m := model (run_tui show c l).2 in
    model_wf m /\ Store.maximum_rows (TuiModel.store m) = rows /\ Store.maximum_items_per_row (TuiModel.store m) = 256.
Proof.
  intros Hrows. destruct (start_console rows) as [c|e] eqn:E.
  2:{ exfalso. revert E. unfold start_console, TuiModel.new. case_decide; [lia|]. by case_decide. }
  exists c. split; [done|]. apply start_wf in E as (Hc & Hl & _). destruct (run_tui_wf show l c Hc) as (_ & _ & _ & Hm & Hl' & _).
  rewrite Hl in Hl'. split; [done|]. by injection Hl'.
Qed.
(** C13. Every paused request is answered at most once: after any run of the terminal,
    the requests it received are exactly those it has answered and those that still
    wait, and all of them were received unless the operator left. *)
Theorem paused_requests_are_answered_once show rows c l :
  start_console rows = Ok c ->
  exists received, received `prefix_of` l /\ ((run_tui show c l).1 = false -> received = l) /\
    answered (effects (run_tui show c l).2) ++ paused_transactions (run_tui show c l).2
      ≡ₚ map TuiModel.transaction_of (concat (map intercepts received)).
Proof.
  intros (Hc & _ & Hacc)%start_wf. destruct (run_tui_wf show l c Hc) as (d & ? & ? & _ & _ & HP). exists d. rewrite Hacc in HP. done.
Qed.
End Terminal.
