(* ===== verification/UiPaused.v ===== *)
(** Paused requests and the operator (crates/freja-ui/src/tui): a paused request has its
    row while there is room for it, and what can go wrong with the ones that are
    answered late or while another is edited. *)
From stdpp Require Import gmap strings.
From stdpp Require Import prelude.
From S2P Require Import Prelude Bytes Net Endpoint Domain PolicyModel Acl Guard Inspection Framing AuditModel AuditSink Hooks Runtime Settings HttpHeaders Tls HttpMessages HttpRepeat UiEvents UiEditor UiRoundTrip UiModel UiInput UiSafety UiTerminal.

Section Paused.
Context `{IpNet, HeaderIter, HttpLibrary, TextBuffer, HeadParser, StatusReasons}.
Implicit Types (c : console) (i : iteration) (s : Store.t).

(** * Transactions and their sessions *)

(** Each transaction belongs to one session, in everything the terminal is told. *)
Variable session_of : transaction_id -> session_id.
Definition agrees (id : row_identity) : Prop := match id.2 with Some x => id.1 = session_of x | None => True end.
Definition request_row (r : TuiModel.intercept_request) : row_identity :=
  (source_session (TuiModel.request_context r), Some (TuiModel.transaction_of r)).
Definition iteration_agrees i : Prop := Forall agrees (concat (map event_rows (events i))) /\ Forall (fun r => agrees (request_row r)) (intercepts i).
(** The requests the store protects never outnumber its rows: what is paused when an
    iteration begins, with what it brings. *)
Fixpoint roomy (show : transaction_id -> bytes) c (l : list iteration) : Prop :=
  match l with
  | [] => True
  | i :: l =>
      length (Store.paused_transactions (TuiModel.store (model c))) + length (intercepts i) <= Store.maximum_rows (TuiModel.store (model c)) /\
      roomy show (iterate show c i).2 l
  end.
#[export] Instance roomy_dec show c l : Decision (roomy show c l).
Proof. revert c; induction l as [|i l IH]; intros c; cbn [roomy]; apply _. Defined.
(** The pending requests have their rows, which the store protects. *)
Record held c : Prop := {
  held_agrees : Forall agrees (identities (TuiModel.store (model c)));
  held_rows : Forall (fun r => request_row r ∈ identities (TuiModel.store (model c))) (pending c);
  held_paused : Forall (fun r => Store.is_paused (TuiModel.store (model c)) (TuiModel.transaction_of r) = true) (pending c) }.
Lemma evolves_agrees ids s s' : Forall agrees ids -> evolves ids s s' -> Forall agrees (identities s) -> Forall agrees (identities s').
Proof. rewrite !Forall_forall. intros Hids [_ _ _ Hnew _] Hs id [?|?]%Hnew; auto. Qed.
Lemma evolves_paused ids s s' x : evolves ids s s' -> Store.is_paused s' x = Store.is_paused s x.
Proof. intros [Hp _ _ _ _]. unfold Store.is_paused. by rewrite Hp. Qed.
Lemma held_step ids c c' :
  Forall agrees ids -> evolves ids (TuiModel.store (model c)) (TuiModel.store (model c')) -> pending c' `sublist_of` pending c -> held c -> held c'.
Proof.
  intros Hids Hev Hsub [Ha Hr Hp]. split; [by apply (evolves_agrees ids (TuiModel.store (model c)))| |].
  - rewrite Forall_forall in Hr, Hp |- *. intros r Hin. pose proof (sublist_subseteq _ _ Hsub r Hin) as Hin'.
    apply (ev_kept _ _ _ Hev); [by apply Hr|]. exists (TuiModel.transaction_of r). split; [done|by apply Hp].
  - rewrite Forall_forall in Hp |- *. intros r Hin. rewrite (evolves_paused _ _ _ _ Hev). apply Hp. by eapply sublist_subseteq.
Qed.
(** * A new paused request finds a row *)

Lemma paused_with_paused s x : Store.is_paused (paused_with s x) x = true /\
  (forall y, Store.is_paused s y = true -> Store.is_paused (paused_with s x) y = true) /\
  length (Store.paused_transactions (paused_with s x)) <= S (length (Store.paused_transactions s)).
Proof.
  unfold paused_with. destruct (Store.is_paused s x) eqn:E; [split; [done|split; [done|lia]]|].
  unfold Store.is_paused in *. cbn. rewrite length_app. cbn. split; [apply bool_decide_eq_true; set_solver|]. split; [|lia].
  intros y ?%bool_decide_eq_true. apply bool_decide_eq_true. set_solver.
Qed.
Lemma full_of_paused s x :
  store_wf s -> Forall agrees (identities s) -> Store.is_paused s x = true -> (session_of x, Some x) ∉ identities s ->
  Store.find_index (Store.unpaused s) (Store.rows s) = None -> length (Store.rows s) < length (Store.paused_transactions s).
Proof.
  intros Hs Ha Hx Hnew HF%find_index_None. rewrite Forall_forall in HF. rewrite Forall_forall in Ha.
  assert (Hsub : (session_of x, Some x) :: identities s ⊆+ map (fun y => (session_of y, Some y)) (Store.paused_transactions s)).
  { apply NoDup_submseteq; [constructor; [done|apply Hs]|]. intros id [->|Hid]%elem_of_cons.
    - apply list_elem_of_fmap. exists x. split; [done|]. by apply bool_decide_eq_true in Hx.
    - pose proof (Ha id Hid) as Hagree. apply list_elem_of_fmap in Hid as (r & -> & Hr). specialize (HF r Hr). unfold Store.unpaused in HF.
      destruct r as [sess [y|] ? ? ? ? ? ? ? ? ? ?]; cbn in *; [|done]. unfold agrees in Hagree. cbn in Hagree. subst sess.
      apply list_elem_of_fmap. exists y. split; [done|]. by apply negb_false_iff, bool_decide_eq_true in HF. }
  apply submseteq_length in Hsub. rewrite length_map in Hsub. unfold identities in Hsub. cbn in Hsub. rewrite length_map in Hsub. lia.
Qed.
Lemma intercept_row s x :
  store_wf s -> Forall agrees (identities s) -> Store.is_paused s x = true -> length (Store.paused_transactions s) <= Store.maximum_rows s ->
  exists j, (Store.ensure_paused_http_row s (session_of x) x).1 = Some j /\ (session_of x, Some x) ∈ identities (Store.ensure_paused_http_row s (session_of x) x).2.
Proof.
  intros Hs Ha Hx Hroom. unfold Store.ensure_paused_http_row. destruct (Store.position_of s (session_of x, Some x)) as [j|] eqn:E.
  { exists j. split; [done|]. by apply position_of_Some in E as [_ ?]. }
  apply position_of_None in E. destruct (empty_row_fields (session_of x) (Some x) HttpTraffic (Store.session_metadata_of s (session_of x))) as [Hsx Htx].
  unfold Store.push_row_evicting. case_decide as Hfull; [|eexists; split; [done|]; cbn; unfold identities; cbn; rewrite map_app; cbn; unfold identity at 2; rewrite Hsx, Htx; set_solver].
  destruct (Store.find_index _ _) as [j|] eqn:Ef; [|apply full_of_paused with (x := x) in Ef; [lia|done..]].
  eexists. split; [done|]. cbn. unfold identities. cbn. rewrite map_app. cbn. unfold identity at 2. rewrite Hsx, Htx. set_solver.
Qed.
Lemma intercept_identities m r :
  identities (TuiModel.store (TuiModel.apply_intercept_request m r)) =
  identities (Store.ensure_paused_http_row (paused_with (TuiModel.store m) (TuiModel.transaction_of r)) (source_session (TuiModel.request_context r)) (TuiModel.transaction_of r)).2.
Proof.
  unfold TuiModel.apply_intercept_request. fold (paused_with (TuiModel.store m) (TuiModel.transaction_of r)). rewrite store_on_row.
  destruct (Store.ensure_paused_http_row _ _ _) as [[j|] s]; [|done]. apply map_alter_same. by intros [].
Qed.
Lemma held_intercept c r :
  model_wf (model c) -> agrees (request_row r) -> S (length (Store.paused_transactions (TuiModel.store (model c)))) <= Store.maximum_rows (TuiModel.store (model c)) ->
  held c ->
  held (Console (TuiModel.apply_intercept_request (model c) r) (pending c ++ [r]) (effects c)) /\
  length (Store.paused_transactions (TuiModel.store (TuiModel.apply_intercept_request (model c) r))) <= S (length (Store.paused_transactions (TuiModel.store (model c)))).
Proof.
  intros [Hs _ _ _] Hr Hroom [Ha Hrows Hp]. set (s := TuiModel.store (model c)) in *. set (x := TuiModel.transaction_of r) in *.
  destruct (paused_with_paused s x) as (Hx & Hmono & Hlen). destruct (paused_with_same s x) as (Hsame & Hmax & _).
  assert (Hid1 : identities (paused_with s x) = identities s) by (unfold identities; by rewrite Hsame).
  destruct (advances_intercept (model c) r (paused_with_wf _ _ Hs)) as [_ Hev]. fold s x in Hev.
  assert (Hnew : request_row r ∈ identities (TuiModel.store (TuiModel.apply_intercept_request (model c) r))).
  { rewrite intercept_identities. fold s x. unfold request_row, agrees in *. cbn in Hr. fold x in Hr. rewrite Hr.
    destruct (intercept_row (paused_with s x) x (paused_with_wf _ _ Hs)) as (j & _ & Hin); [by rewrite Hid1|done|lia|]. exact Hin. }
  split.
  - split; cbn [model pending].
    + eapply (evolves_agrees _ _ _ _ Hev). by rewrite Hid1. Unshelve. by constructor.
    + apply Forall_app; split; [|by constructor]. rewrite Forall_forall in Hrows, Hp |- *. intros y Hy.
      apply (ev_kept _ _ _ Hev); [rewrite Hid1; by apply Hrows|]. exists (TuiModel.transaction_of y). split; [done|]. apply Hmono. by apply Hp.
    + apply Forall_app; split; [|constructor; [|constructor]].
      * rewrite Forall_forall in Hp |- *. intros y Hy. rewrite (evolves_paused _ _ _ _ Hev). apply Hmono. by apply Hp.
      * rewrite (evolves_paused _ _ _ _ Hev). exact Hx.
  - by rewrite (ev_paused _ _ _ Hev).
Qed.
Lemma held_intercepts l c :
  model_wf (model c) -> Forall (fun r => agrees (request_row r)) l ->
  length (Store.paused_transactions (TuiModel.store (model c))) + length l <= Store.maximum_rows (TuiModel.store (model c)) -> held c -> held (drain_intercepts l c).
Proof.
  revert c; induction l as [|r l IH]; intros c Hc Hl Hroom Hheld; [done|]. cbn in Hroom. apply Forall_cons in Hl as [Hr Hl].
  destruct (held_intercept c r Hc Hr ltac:(lia) Hheld) as [Hheld' Hlen]. destruct (intercept_wf (model c) r Hc) as [Hc' Hlim].
  pose proof (f_equal fst Hlim) as Hmax. unfold limits_of, fst in Hmax.
  change (drain_intercepts (r :: l) c) with (drain_intercepts l (Console (TuiModel.apply_intercept_request (model c) r) (pending c ++ [r]) (effects c))).
  apply IH; [exact Hc'|done| |done]. cbn [model]. rewrite Hmax. lia.
Qed.
Lemma held_events l c : model_wf (model c) -> Forall agrees (concat (map event_rows l)) -> held c ->
  held (with_model c (foldl TuiModel.apply (model c) l)) /\
  Store.paused_transactions (TuiModel.store (foldl TuiModel.apply (model c) l)) = Store.paused_transactions (TuiModel.store (model c)).
Proof.
  revert c; induction l as [|e l IH]; intros c Hc Hl Hheld; [by destruct c|]. cbn in *. apply Forall_app in Hl as [He Hl].
  destruct (moves_apply (model c) e Hc) as [Hc' Hev].
  destruct (IH (with_model c (TuiModel.apply (model c) e)) Hc' Hl) as [? Hpaused]; [by apply (held_step (event_rows e) c)|]. split; [done|].
  cbn in Hpaused. rewrite Hpaused. apply (ev_paused _ _ _ Hev).
Qed.
Lemma held_moves c m : model_wf (model c) -> model_moves [] (model c) m -> held c -> held (with_model c m).
Proof. intros Hc Hm. destruct (Hm Hc) as [_ Hev]. by apply (held_step []). Qed.
Lemma held_results l c : model_wf (model c) -> held c -> held (drain_repeat_results l c).
Proof.
  revert c; induction l as [|r l IH]; intros c Hc Hheld; [done|]. cbn. pose proof (moves_result [] (model c) r) as Hm.
  apply IH; [by apply Hm|]. by apply held_moves.
Qed.
Lemma held_refresh show i c :
  model_wf (model c) -> iteration_agrees i ->
  length (Store.paused_transactions (TuiModel.store (model c))) + length (intercepts i) <= Store.maximum_rows (TuiModel.store (model c)) ->
  held c -> held (refresh show i c).
Proof.
  intros Hc [He Hi] Hroom Hheld. unfold refresh. set (c1 := with_model c _). set (c2 := drain_intercepts _ c1). set (c3 := drain_repeat_results _ c2). set (c4 := on_model _ c3).
  destruct (held_events (events i) c Hc He Hheld) as [Hheld1 Hp]. destruct (events_wf (events i) (model c) Hc) as [Hc1 Hl].
  pose proof (f_equal fst Hl) as Hmax. unfold limits_of, fst in Hmax.
  assert (Hheld2 : held c2) by (apply held_intercepts; try done; cbn; rewrite Hp, Hmax; done).
  destruct (receives_intercepts (intercepts i) c1 Hc1) as (Hc2 & _). destruct (receives_results (repeat_results i) c2 Hc2) as (Hc3 & _).
  assert (Hheld4 : held c4) by (apply held_moves; [done|apply moves_dropped|by apply held_results]).
  destruct Hheld4 as [Ha Hr _]. split; cbn; [exact Ha|exact Hr|]. apply Forall_forall. intros r Hin. unfold Store.is_paused. cbn.
  apply bool_decide_eq_true, list_elem_of_fmap. by exists r.
Qed.
Lemma run_held show l c : model_wf (model c) -> Forall iteration_agrees l -> roomy show c l -> held c -> held (run_tui show c l).2.
Proof.
  revert c; induction l as [|i l IH]; intros c Hc Hl Hroom Hheld; [done|]. apply Forall_cons in Hl as [Hi Hl]. destruct Hroom as [Hroom Hrest].
  pose proof (held_refresh show i c Hc Hi Hroom Hheld) as Href. destruct (receives_refresh show i c Hc) as (Hcr & _).
  destruct (iterate_operates show c i Hcr) as (_ & Hev & _ & Hsub). destruct (iterate_wf show c i Hc) as (Hc' & _).
  assert (Hheld' : held (iterate show c i).2) by (by apply (held_step [] (refresh show i c))).
  cbn. destruct (iterate show c i) as [[] c']; [done|]. by apply IH.
Qed.
(** C14. While what is paused when an iteration begins, with what the iteration brings,
    fits the retained rows, every request that waits for the operator has its row in
    the list (and the store protects it), whatever else the terminal records: the rows
    of other traffic give way first. *)
Theorem paused_requests_have_rows show rows c l :
  start_console rows = Ok c -> Forall iteration_agrees l -> roomy show c l ->
  Forall (fun r => exists row, row ∈ Store.rows (TuiModel.store (model (run_tui show c l).2)) /\ identity row = request_row r /\
            Store.unpaused (TuiModel.store (model (run_tui show c l).2)) row = false)
    (pending (run_tui show c l).2).
Proof.
  intros Hstart Hl Hroom. pose proof (start_wf _ _ Hstart) as (Hc & _). destruct (run_held show l c Hc Hl Hroom) as [_ Hr Hp].
  { revert Hstart. unfold start_console, TuiModel.new. case_decide; [done|]. case_decide; [done|]. intros [= <-]. by repeat constructor. }
  rewrite Forall_forall in Hr, Hp |- *. intros r Hin. specialize (Hr r Hin). specialize (Hp r Hin). cbv beta in Hr, Hp.
  apply list_elem_of_fmap in Hr as (row & Hid & Hrow). exists row. split; [done|]. split; [done|].
  unfold Store.unpaused. injection Hid as _ Htx. rewrite <-Htx. by rewrite Hp.
Qed.
End Paused.

(** * Concrete runs: a buffer that types at its end *)
Module Example_terminal.
#[local] Existing Instance host_nets.
#[local] Existing Instance Example_http.list_headers.
#[local] Existing Instance Example_http.list_header_laws.
#[local] Existing Instance Example_http.list_iter.
#[local] Existing Instance Example_http.list_iter_laws.
#[local] Existing Instance Example_editor.library.
#[local] Existing Instance Example_editor.line_parser.
#[local] Instance typing_buffer : TextBuffer := {|
  text_buffer := bytes * editor_mode; with_byte_limit := fun text _ => (text, NormalMode); buffer_text := fst;
  buffer_lines := fun b => split_on NEWLINE b.1; buffer_cursor := fun _ => Cursor 0 0; set_cursor := fun _ b => b;
  buffer_mode := snd; byte_len := fun b => lenN b.1;
  handle := fun i b => match i with
                       | InputInsert => (ModeChanged, (b.1, InsertMode))
                       | InputEscape => (ModeChanged, (b.1, NormalMode))
                       | InputCharacter ch => (OtherOutcome, (b.1 ++ ch, b.2))
                       | _ => (OtherOutcome, b) end |}.
#[local] Instance reasons : StatusReasons := {| canonical_reason := fun s => if decide (s = 200%N) then Some (bs "OK") else None |}.
Definition request (x : transaction_id) (body : bytes) : TuiModel.intercept_request :=
  TuiModel.InterceptRequest (InterceptContext 1%N x (V4 (byte_of 192) (byte_of 0) (byte_of 2) (byte_of 1)))
    (HttpRequestSnapshot (bs "POST") (Uri (bs "/submit") None None (Some (bs "/submit"))) HTTP_11 (Example_editor.entries : header_map) body 4096 4096).
Definition waiting : links := Links None (fun _ => true).
Definition quiet (requests : list TuiModel.intercept_request) (k : option key_event) : iteration :=
  Iteration [] false requests [] 0 k waiting.
Definition typed (text : bytes) : option key_event := Some (KeyEvent (Char text) false false true).
Definition console_of (rows : nat) : console := match start_console rows with Ok c => c | Err _ => Console (TuiModel.from_limits 0 0) [] [] end.
Definition show_id (x : transaction_id) : bytes := show_N x.
Definition effects_of (rows : nat) (l : list iteration) : list ui_effect := effects (run_tui show_id (console_of rows) l).2.
Definition pending_of (rows : nat) (l : list iteration) : list transaction_id := paused_transactions (run_tui show_id (console_of rows) l).2.
Definition rows_of (rows : nat) (l : list iteration) : list row_identity := identities (TuiModel.store (model (run_tui show_id (console_of rows) l).2)).
(** The first request is edited and the second is paused meanwhile. *)
Definition edit_under_arrival : list iteration :=
  [quiet [request 7%N (bs "old")] (typed (bs "i")); quiet [] (typed (bs "!"));
   Iteration [] false [request 8%N (bs "old")] [] 0 (Some (KeyEvent KeyEsc false false true)) waiting; quiet [] (typed (bs "s"))].
(** What was typed for request 7 is sent as the answer to request 8: the editor of a
    paused request does not hold its transaction, and a new paused request takes the
    selection. *)
Example edits_reach_another_request :
  effects_of 4 edit_under_arrival = [Answer 8%N (ModifyRequest (HttpRequestMutationPlan [] (ReplaceBody (bs "old!"))))] /\
  pending_of 4 edit_under_arrival = [7%N].
Proof. split; vm_compute; reflexivity. Qed.
(** With one row, the answer of one request and the arrival of the next: the row of the
    answered request is still protected when the next one arrives, which gets none and
    which no key then answers. *)
Definition answer_then_arrival : list iteration :=
  [quiet [request 7%N []] (typed (bs "c")); quiet [request 8%N []] (typed (bs "c")); quiet [] (typed (bs "c"))].
Example answered_requests_hold_their_row :
  rows_of 1 answer_then_arrival = [(1, Some 7)]%N /\ pending_of 1 answer_then_arrival = [8%N] /\
  effects_of 1 answer_then_arrival = [Answer 7 Continue]%N.
Proof. repeat split; vm_compute; reflexivity. Qed.
(** A request whose flow no longer waits keeps its row: the terminal learns of it only
    when the operator answers. *)
Definition expired : links := Links None (fun _ => false).
Definition expiry_then_arrival : list iteration := [Iteration [] false [request 7%N []] [] 0 None expired; Iteration [] false [request 8%N []] [] 0 None expired].
Example expired_requests_hold_their_row :
  rows_of 1 expiry_then_arrival = [(1, Some 7)]%N /\ pending_of 1 expiry_then_arrival = [7; 8]%N.
Proof. split; vm_compute; reflexivity. Qed.
(** ** The theorems on them *)

Lemma started rows : 0 < rows -> start_console rows = Ok (console_of rows).
Proof. unfold console_of, start_console, TuiModel.new. intros Hr. case_decide; [lia|]. by case_decide. Qed.
Lemma terminal_state_is_bounded_witness :
  exists c, start_console 4 = Ok c /\ model_wf (model (run_tui show_id c edit_under_arrival).2) /\
    length (Store.rows (TuiModel.store (model (run_tui show_id c edit_under_arrival).2))) = 2.
Proof.
  destruct (terminal_state_is_bounded show_id 4 edit_under_arrival ltac:(lia)) as (c & Hc & Hm & _). exists c. split; [exact Hc|].
  split; [exact Hm|]. rewrite started in Hc by lia. injection Hc as <-. vm_compute. reflexivity.
Defined.
Lemma paused_requests_are_answered_once_witness :
  exists received, (received `prefix_of` edit_under_arrival) /\
    (8%N :: [7%N]) ≡ₚ map TuiModel.transaction_of (concat (map intercepts received)).
Proof.
  destruct (paused_requests_are_answered_once show_id 4 (console_of 4) edit_under_arrival (started 4 ltac:(lia))) as (d & Hd & _ & HP).
  exists d. split; [exact Hd|].
  assert (Hval : answered (effects (run_tui show_id (console_of 4) edit_under_arrival).2) ++ paused_transactions (run_tui show_id (console_of 4) edit_under_arrival).2 = [8%N; 7%N])
    by (vm_compute; reflexivity).
  rewrite Hval in HP. exact HP.
Defined.
Lemma paused_requests_have_rows_witness :
  Forall (fun r => exists row, row ∈ Store.rows (TuiModel.store (model (run_tui show_id (console_of 4) edit_under_arrival).2)) /\ identity row = request_row r /\
            Store.unpaused (TuiModel.store (model (run_tui show_id (console_of 4) edit_under_arrival).2)) row = false)
    (pending (run_tui show_id (console_of 4) edit_under_arrival).2) /\ pending_of 4 edit_under_arrival = [7%N].
Proof.
  split; [|vm_compute; reflexivity]. apply (paused_requests_have_rows (fun _ => 1%N) show_id 4); [apply started; lia| |].
  - repeat (apply Forall_cons; split; [split; repeat constructor|]). apply Forall_nil. exact I.
  - assert (Hroom : bool_decide (roomy show_id (console_of 4) edit_under_arrival) = true) by (vm_compute; reflexivity).
    by apply bool_decide_eq_true in Hroom.
Defined.
End Example_terminal.
