(* ===== verification/UiText.v ===== *)
(** The text the terminal draws (crates/freja-ui/src/tui/render.rs,
    tui/render/evidence.rs): escaping, the views of a message, and wrapping.  What a
    character looks like (ratatui's graphemes and widths) and serde_json's layout are
    parameters. *)
From stdpp Require Import gmap strings.
From stdpp Require Import prelude.
From S2P Require Import Prelude Bytes Text Net Endpoint Domain PolicyModel Acl Guard Inspection AuditModel AuditSink Hooks Runtime Framing WireCapture Settings HttpHeaders Tls HttpMessages HttpRepeat UiEvents UiEditor UiModel.

(** * Lines *)

(** [str::lines]. *)
Definition strip_return (line : bytes) : bytes := default line (strip_suf [byte_of 13] line).
Definition text_lines (text : bytes) : list bytes :=
  match rev (split_on NEWLINE text) with
  | [] => []
  | final :: fields => map strip_return (rev fields) ++ match final with [] => [] | _ => [final] end
  end.

(** * Escaping *)

(** [{byte:02x}]. *)
Definition hex_byte (b : u8) : bytes := [hex_digit (byte_val b / 16); hex_digit (byte_val b mod 16)].
Definition escape_byte (b : u8) : bytes := bs "\x" ++ hex_byte b.
Definition escape_char (c : bytes) : bytes :=
  if decide (c = [NEWLINE]) then c
  else if decide (c = [byte_of 13]) then bs "\r"
  else if decide (c = [byte_of 9]) then bs "\t"
  else if is_control c then concat (map escape_byte c) else c.
Definition push_escaped_text (text : bytes) : bytes := concat (map escape_char (chars text)).
(** The loop, a step for each valid stretch and each byte that is none. *)
Fixpoint escape_from (fuel : nat) (rest : bytes) : bytes :=
  match fuel, rest with
  | S fuel, b :: tail =>
      if utf8_valid rest then push_escaped_text rest
      else if 0 <? valid_up_to rest
      then push_escaped_text (take (valid_up_to rest) rest) ++ escape_from fuel (drop (valid_up_to rest) rest)
      else escape_byte b ++ escape_from fuel tail
  | _, _ => []
  end.
Definition escape_terminal_bytes (b : bytes) : bytes := escape_from (length b) b.

(** * The views of a message *)

Definition HEX_BYTES_PER_ROW : nat := 16.
Definition HEX_BYTE_COLUMN_WIDTH : nat := 3.
Definition SPACE : u8 := byte_of 32.
Definition join_spaces (l : list bytes) : bytes :=
  match l with [] => [] | f :: l => f ++ concat (map (fun g => SPACE :: g) l) end.
(** A graphic byte or a space as it is, another as a dot. *)
Definition ascii_of (b : u8) : u8 := if byte_in 33 126 b || bool_decide (b = SPACE) then b else byte_of 46.
Definition hex_ascii (b : bytes) : bytes :=
  join_spaces (map hex_byte b) ++ repeat SPACE ((HEX_BYTES_PER_ROW - length b) * HEX_BYTE_COLUMN_WIDTH)
    ++ bs " |" ++ map ascii_of b ++ bs "|".
(** [{offset:08x}]. *)
Definition show_offset (n : N) : bytes := let digits := show_hex_fuel 15 n [] in repeat (byte_of 48) (8 - length digits) ++ digits.
(** [slice::chunks]. *)
Fixpoint chunks_from (fuel n : nat) (b : bytes) : list bytes :=
  match fuel, b with
  | S fuel, _ :: _ => take n b :: chunks_from fuel n (drop n b)
  | _, _ => []
  end.
Definition chunks (n : nat) (b : bytes) : list bytes := chunks_from (length b) n b.
Definition body_status (s : side_snapshot) : option bytes :=
  if body_incomplete s then Some (bs "[incomplete: one or more UI events were dropped]")
  else if body_truncated s
  then Some (bs "[truncated: retained " ++ show_N (lenN (body s)) ++ bs " of " ++ show_N (observed_body_bytes s) ++ bs " body bytes]")
  else None.
Definition display_bytes (s : side_snapshot) (k : traffic_kind) : bytes * option bytes :=
  match k with
  | TcpTraffic => (body s, body_status s)
  | HttpTraffic =>
      match wire s with
      | WirePending => ([], Some (bs "Raw capture pending"))
      | WireBytes b observed truncated =>
          (b, if truncated then Some (bs "[truncated: retained " ++ show_N (lenN b) ++ bs " of " ++ show_N observed ++ bs " bytes]") else None)
      | WireFailed reason | WireUnavailable reason => ([], Some (bs "Raw unavailable: " ++ reason))
      end
  end.
(** The lines, with a line that says there are none. *)
Definition or_line (line : bytes) (l : list bytes) : list bytes := match l with [] => [line] | _ => l end.
Definition raw_lines (s : side_snapshot) (k : traffic_kind) : list bytes :=
  let '(b, status) := display_bytes s k in
  or_line (bs "No bytes observed") (text_lines (escape_terminal_bytes b) ++ option_list status).
Definition hex_lines (s : side_snapshot) (k : traffic_kind) : list bytes :=
  let '(b, status) := display_bytes s k in
  or_line (bs "No bytes observed")
    (imap (fun line chunk => show_offset (N.of_nat (line * HEX_BYTES_PER_ROW)) ++ bs "  " ++ hex_ascii chunk) (chunks HEX_BYTES_PER_ROW b)
       ++ option_list status).
(** ** The readable view *)

(** serde_json: the indented text of a JSON document. *)
Class JsonText : Type := { pretty_json : bytes -> option bytes }.
Definition media_type_is_json (value : bytes) : bool :=
  let media_type := trim_text (default [] (head (split_on (byte_of 59) value))) in
  eq_ignore_ascii_case media_type (bs "application/json") || ends_with (bs "+json") (to_ascii_lowercase media_type).
Definition is_json (h : list (bytes * bytes)) : bool :=
  existsb (fun e => eq_ignore_ascii_case e.1 (bs "content-type") && utf8_valid e.2 && media_type_is_json e.2) h.

Section Views.
Context `{JsonText}.
Definition pretty_body (h : list (bytes * bytes)) (b : bytes) : bytes :=
  match (if is_json h then pretty_json b else None) with
  | Some pretty => pretty
  | None => escape_terminal_bytes b
  end.
Definition pretty_lines (s : side_snapshot) : list bytes :=
  or_line (bs "No content observed")
    (option_list (start_line s)
     ++ map (fun e => e.1 ++ bs ": " ++ escape_terminal_bytes e.2) (headers s)
     ++ (match start_line s, headers s with None, [] => [] | _, _ => [[]] end)
     ++ text_lines (pretty_body (headers s) (body s))
     ++ option_list (body_status s)).
Definition side_lines (s : side_snapshot) (k : traffic_kind) (mode : display_mode) : list bytes :=
  match mode with Pretty => pretty_lines s | Raw => raw_lines s k | HexDump => hex_lines s k end.
End Views.
Definition side_title (k : traffic_kind) (side : selected_side) (mode : display_mode) : bytes :=
  let name := match k, side with
    | HttpTraffic, RequestSide => bs "Request" | HttpTraffic, ResponseSide => bs "Response"
    | TcpTraffic, RequestSide => bs "Client -> Upstream" | TcpTraffic, ResponseSide => bs "Upstream -> Client" end in
  let mode := match mode with Pretty => bs "Pretty" | Raw => bs "Raw" | HexDump => bs "Hex" end in
  name ++ bs " [" ++ mode ++ bs "]  m mode | v split/request/response | h/l side".
(** The operational log and the last line but one of the statistics. *)
Definition log_lines `{IpNet} (s : Store.t) : list bytes := map escape_terminal_bytes (Store.operational_logs s).

(** * Wrapping *)

(** [Line::styled_graphemes], the cells a grapheme takes, and [Line::width]. *)
Class Graphemes : Type := {
  graphemes : bytes -> list bytes;
  cell_width : bytes -> N;
  line_width : bytes -> N }.
Section Wrapping.
Context `{Graphemes}.
Definition sat16 (n : N) : N := N.min 65535 n.
(** The rows done, the graphemes of the current row and its width. *)
Definition wrap_step (width : N) (st : list (list bytes) * list bytes * N) (g : bytes) : list (list bytes) * list bytes * N :=
  let '(rows, current, used) := st in
  let w := cell_width g in
  if (width <? w)%N then st
  else
    let '(rows, current, used) := if (0 <? used)%N && (width <? sat16 (used + w))%N then (rows ++ [current], [], 0%N) else (rows, current, used) in
    let current := current ++ [g] in
    let used := sat16 (used + w) in
    if (used =? width)%N then (rows ++ [current], [], 0%N) else (rows, current, used).
Definition wrap_rows (width : N) (gs : list bytes) : list (list bytes) :=
  let '(rows, current, _) := foldl (wrap_step width) ([], [], 0%N) gs in
  match concat current, rows with
  | [], _ :: _ => rows
  | _, _ => rows ++ [current]
  end.
Definition wrap_editor_line (line : bytes) (width : N) : list bytes :=
  if (width =? 0)%N then [] else map (@concat _) (wrap_rows width (graphemes line)).
Definition cursor_step (width : N) (st : N * N) (g : bytes) : N * N :=
  let '(row, column) := st in
  let w := cell_width g in
  if (width <? w)%N then st
  else
    let '(row, column) := if (0 <? column)%N && (width <? sat16 (column + w))%N then (sat_add row 1, 0%N) else (row, column) in
    let column := sat16 (column + w) in
    if (column =? width)%N then (sat_add row 1, 0%N) else (row, column).
Definition wrapped_cursor (prefix : bytes) (width : N) : N * N :=
  if (width =? 0)%N then (0, 0)%N else foldl (cursor_step width) (0, 0)%N (graphemes prefix).
(** The rows of the draft, and where the caret is drawn. *)
Definition editor_layout (lines : list bytes) (c : cursor) (width : N) : list bytes * N * N :=
  let wrapped := map (fun l => wrap_editor_line (escape_terminal_bytes l) width) lines in
  let before := length (concat (take (line c) wrapped)) in
  let prefix := match lines !! line c with
                | Some l => if (length l <? byte_column c) || negb (is_char_boundary l (byte_column c)) then []
                            else escape_terminal_bytes (take (byte_column c) l)
                | None => [] end in
  let '(row, column) := wrapped_cursor prefix width in
  (concat wrapped, sat16 (sat_add (N.of_nat before) row), column).
(** [wrap_evidence_lines] on one line: a row is broken before the grapheme that does
    not fit. *)
Definition evidence_step (width : N) (st : list bytes * bytes * N) (g : bytes) : list bytes * bytes * N :=
  let '(rows, text, used) := st in
  let size := line_width g in
  if (width <? used + size)%N && negb (bool_decide (text = [])) then (rows ++ [text], g, size) else (rows, text ++ g, (used + size)%N).
Definition wrap_evidence_line (width : N) (line : bytes) : list bytes :=
  let '(rows, text, _) := foldl (evidence_step width) ([], [], 0%N) (graphemes line) in rows ++ [text].
Definition wrap_evidence_lines (lines : list bytes) (width : N) : list bytes :=
  if (width =? 0)%N then [] else lines ≫= wrap_evidence_line width.
(** [bounded_context_lines]: rows that fit, the last marked when the text does not. *)
Definition OMITTED : bytes := bs "... [shortened]".
Fixpoint fill_row (available used : N) (row : bytes) (gs : list bytes) : N * bytes * list bytes :=
  match gs with
  | [] => (used, row, [])
  | g :: gs' => if (available <? used + line_width g)%N then (used, row, gs) else fill_row available (used + line_width g) (row ++ g) gs'
  end.
Fixpoint context_rows (rows : nat) (width remaining : N) (gs : list bytes) : list bytes :=
  match rows with
  | 0 => []
  | S rows =>
      let shortened := (rows =? 0) && (width <? remaining)%N in
      let available := (width - (if shortened then lenN OMITTED else 0))%N in
      let '(used, row, rest) := fill_row available 0 [] gs in
      (if shortened then row ++ OMITTED else row) :: match rest with [] => [] | _ => context_rows rows width (remaining - used) rest end
  end.
Definition bounded_context_lines (text : bytes) (width : N) (maximum_lines : nat) : list bytes :=
  context_rows maximum_lines width (line_width text) (graphemes text).
(** The context kept above the evaluations of a row. *)
Definition replace_newlines (text : bytes) : bytes := concat (map (fun b => if decide (b = NEWLINE) then bs "\n" else [b]) text).
Definition request_context `{IpNet} (show_transaction : transaction_id -> bytes) (row : traffic_row) (width : N) (maximum_lines : nat) : list bytes :=
  let identity := match row_transaction row with
                  | None => bs "Transaction: unavailable" | Some x => bs "Transaction: " ++ show_transaction x end in
  identity ::
  match start_line (row_request row) with
  | None => [bs "Request: unavailable (not retained)"]
  | Some line =>
      let host := if starts_with (bs "/") (row_target row) || bool_decide (row_target row = bs "*")
                  then match List.find (fun h => eq_ignore_ascii_case h.1 (bs "host")) (headers (row_request row)) with
                       | None => bs "Host header: unavailable | "
                       | Some (_, value) => bs "Host header: " ++ escape_terminal_bytes value ++ bs " | " end
                  else [] in
      bounded_context_lines (replace_newlines (escape_terminal_bytes (host ++ bs "Request: " ++ line))) width maximum_lines
  end.
End Wrapping.
(** The connection an evaluation was about. *)
Definition show_evaluation_target (target : option evaluation_target) : bytes :=
  let line (r : requested_facts) (resolved : bytes) :=
    show_ip (source_ip r) ++ bs " -> " ++ UpstreamEndpoint.show (UpstreamEndpoint.Make (requested_host r) (destination_port r))
      ++ bs " / evaluated=" ++ resolved in
  match target with
  | None => bs "connection: unavailable"
  | Some (EvaluatedRequested r) => line r (bs "unresolved")
  | Some (EvaluatedResolved r) =>
      line (resolved_requested r) (show_socket_addr (SocketAddr (resolved_ip r) (Port.get (destination_port (resolved_requested r))) 0))
  end.
(** ** The list of flows and the statistics *)

Section Lists.
Context `{IpNet}.
Definition flow_line (show_session : session_id -> bytes) (show_transaction : transaction_id -> bytes) (s : Store.t) (r : traffic_row) : bytes :=
  let state := if match row_transaction r with Some x => Store.is_paused s x | None => false end then bs "paused"
               else if row_closed r then bs "closed" else bs "live  " in
  let identity := match row_transaction r with None => show_session (row_session r) | Some x => show_transaction x end in
  let protocol := match row_kind r with HttpTraffic => bs "HTTP" | TcpTraffic => bs "TCP " end in
  protocol ++ bs " " ++ state ++ bs " " ++ identity ++ bs " " ++ default (row_target r) (start_line (row_request r)).
Definition stats_lines (s : Store.t) (paused : nat) (status : bytes) : list bytes :=
  let closed := length (List.filter row_closed (Store.rows s)) in
  let totals := foldl (fun t r => (sat_add t.1 (row_up r), sat_add t.2 (row_down r))) (0, 0)%N (Store.rows s) in
  [bs "rows: " ++ show_N (N.of_nat (length (Store.rows s))) ++ bs " (closed " ++ show_N (N.of_nat closed) ++ bs ")";
   bs "bytes: " ++ show_N totals.1 ++ bs " / " ++ show_N totals.2;
   bs "UI dropped=" ++ show_N (Store.dropped_events s) ++ bs " capture failures=" ++ show_N (Store.capture_failures s)
     ++ bs " truncations=" ++ show_N (Store.capture_truncations s);
   bs "paused=" ++ show_N (N.of_nat paused) ++ bs " interactive=" ++ escape_terminal_bytes status;
   bs "1/2 page | Ctrl+h/j/k/l pane | j/k scroll | Enter expand | q back | Ctrl+c/Q quit"].
End Lists.

(** * What is drawn is clean *)

(** One line of text without control characters, and such lines. *)
Definition tidy (text : bytes) : Prop := utf8_valid text = true /\ Forall (fun c => is_control c = false) (chars text).
Definition clean (text : bytes) : Prop := utf8_valid text = true /\ Forall (fun c => c = [NEWLINE] \/ is_control c = false) (chars text).
(** ** Clean texts *)

Lemma drawn_nil : clean [].
Proof. split; [done|constructor]. Qed.
Lemma drawn_app a t : clean a -> clean t -> clean (a ++ t).
Proof.
  intros [Ha Hca] [Ht Hct]. split; [by rewrite utf8_valid_app|]. rewrite chars_app by (by apply valid_starts). by apply Forall_app.
Qed.
Lemma tidy_app a t : tidy a -> tidy t -> tidy (a ++ t).
Proof.
  intros [Ha Hca] [Ht Hct]. split; [by rewrite utf8_valid_app|]. rewrite chars_app by (by apply valid_starts). by apply Forall_app.
Qed.
Lemma tidy_nil : tidy [].
Proof. split; [done|constructor]. Qed.
Lemma tidy_clean t : tidy t -> clean t.
Proof. intros [Hv Ht]. split; [done|]. eapply Forall_impl; [exact Ht|]. by right. Qed.
Lemma clean_concat l : Forall clean l -> clean (concat l).
Proof. induction 1; [apply drawn_nil|by apply drawn_app]. Qed.
Lemma tidy_concat l : Forall tidy l -> tidy (concat l).
Proof. induction 1; [apply tidy_nil|by apply tidy_app]. Qed.
(** Printable ASCII. *)
Definition graphic (b : u8) : Prop := (32 <= byte_val b < 127)%N.
Lemma graphic_tidy t : Forall graphic t -> tidy t.
Proof.
  intros Ht. split; [apply utf8_ascii; eapply Forall_impl; [exact Ht|]; intros b ?; unfold graphic in *; lia|].
  assert (Hc : chars t = map (fun b => [b]) t).
  { induction Ht as [|b t Hb Ht IH]; [done|]. cbn [chars map]. rewrite IH. destruct Ht as [|b' t Hb' Ht]; [done|]. cbn.
    assert (cont b' = false) as ->; [|done]. unfold cont, byte_in, graphic in *. apply andb_false_iff. rewrite !N.leb_gt. lia. }
  rewrite Hc. apply Forall_fmap. eapply Forall_impl; [exact Ht|]. intros b [Hl Hu]. cbn. apply orb_false_iff. rewrite N.ltb_ge, N.eqb_neq. lia.
Qed.
Lemma hex_digit_graphic d : (d < 16)%N -> graphic (hex_digit d).
Proof. intros Hd. unfold hex_digit, graphic. destruct (N.ltb_spec d 10); rewrite byte_val_of by lia; lia. Qed.
Lemma hex_byte_graphic b : Forall graphic (hex_byte b).
Proof.
  apply Forall_cons; split; [|apply Forall_cons; split; [|constructor]]; apply hex_digit_graphic.
  - apply N.Div0.div_lt_upper_bound. apply byte_val_lt.
  - by apply N.mod_lt.
Qed.
Lemma bs_graphic (t : bytes) : forallb (fun b => (32 <=? byte_val b)%N && (byte_val b <? 127)%N) t = true -> Forall graphic t.
Proof. rewrite forallb_forall, Forall_forall. intros Ht b Hb%list_elem_of_In. specialize (Ht b Hb). apply andb_true_iff in Ht. rewrite N.leb_le, N.ltb_lt in Ht. done. Qed.
Lemma literal_tidy (t : bytes) : forallb (fun b => (32 <=? byte_val b)%N && (byte_val b <? 127)%N) t = true -> tidy t.
Proof. intros. by apply graphic_tidy, bs_graphic. Qed.
Lemma escape_byte_tidy b : tidy (escape_byte b).
Proof. apply tidy_app; [by apply literal_tidy|]. apply graphic_tidy, hex_byte_graphic. Qed.
Lemma escape_char_clean b k : utf8_valid (b :: k) = true -> Forall (fun c => cont c = true) k -> clean (escape_char (b :: k)).
Proof.
  intros Hv Hk. unfold escape_char. case_decide as Hn; [rewrite Hn; split; [done|]; constructor; [by left|constructor]|].
  case_decide; [by apply tidy_clean, literal_tidy|]. case_decide; [by apply tidy_clean, literal_tidy|].
  destruct (is_control (b :: k)) eqn:Ec.
  - apply tidy_clean, tidy_concat, Forall_fmap, Forall_true. intros ?. apply escape_byte_tidy.
  - split; [done|]. rewrite chars_conts by done. constructor; [by right|constructor].
Qed.
Lemma push_escaped_clean t : utf8_valid t = true -> clean (push_escaped_text t).
Proof.
  revert t. apply text_ind; [apply drawn_nil|]. intros b k r Hb Hk Hv _ Hr IH. unfold push_escaped_text in *. rewrite chars_first by done.
  cbn [map concat]. apply drawn_app; [by apply escape_char_clean|done].
Qed.
Lemma escape_from_clean fuel t : clean (escape_from fuel t).
Proof.
  revert t; induction fuel as [|fuel IH]; intros [|b t]; try apply drawn_nil. cbn [escape_from].
  destruct (utf8_valid (b :: t)) eqn:Ev; [by apply push_escaped_clean|]. destruct (0 <? valid_up_to (b :: t)); apply drawn_app; auto.
  - apply push_escaped_clean, floor_valid_valid.
  - apply tidy_clean, escape_byte_tidy.
Qed.
(** The loop takes every byte: more fuel changes nothing. *)
Lemma escape_from_enough fuel fuel' t : length t <= fuel -> length t <= fuel' -> escape_from fuel t = escape_from fuel' t.
Proof.
  revert fuel' t; induction fuel as [|fuel IH]; intros [|fuel'] [|b t] Hf Hf'; cbn in Hf, Hf'; try lia; try done.
  cbn [escape_from]. destruct (utf8_valid (b :: t)); [done|]. destruct (Nat.ltb_spec 0 (valid_up_to (b :: t))).
  - f_equal. apply IH; rewrite length_drop; change (length (b :: t)) with (S (length t)); lia.
  - f_equal. apply IH; lia.
Qed.
Lemma escape_clean_same t : clean t -> escape_terminal_bytes t = t.
Proof.
  intros [Hv Hc]. unfold escape_terminal_bytes. destruct t as [|b t]; [done|]. cbn [length escape_from]. rewrite Hv. unfold push_escaped_text.
  rewrite <-(concat_chars (b :: t)) at 2. f_equal. induction Hc as [|c cs Hc Hcs IH]; [done|]. cbn. f_equal; [|exact IH].
  unfold escape_char. destruct Hc as [->|Hc]; [done|]. case_decide; [done|]. case_decide; [by subst|]. case_decide; [by subst|]. by rewrite Hc.
Qed.
(** ** Lines *)

Lemma split_on_prefix c p r : c ∉ p -> split_on c (p ++ r) = match split_on c r with f :: fs => (p ++ f) :: fs | [] => [p] end.
Proof.
  intros Hc. induction p as [|b p IH]; cbn [app]; [by destruct (split_on c r) eqn:E; [by apply split_by_nonempty in E|]|].
  apply not_elem_of_cons in Hc as [Hb Hc]. unfold split_on in *. cbn [split_by]. rewrite bool_decide_false by done. rewrite (IH Hc).
  by destruct (split_by _ r).
Qed.
Lemma clean_fields t : clean t -> Forall tidy (split_on NEWLINE t).
Proof.
  intros [Hv Hc]. revert t Hv Hc. apply (text_ind (fun t => Forall _ (chars t) -> Forall tidy (split_on NEWLINE t))).
  - intros _. repeat constructor.
  - intros b k r Hb Hk Hv Ha Hr IH. rewrite chars_first by done. intros [Hc Hcs]%Forall_cons. specialize (IH Hcs).
    destruct (decide (b = NEWLINE)) as [->|Hn].
    + rewrite (Ha ltac:(by vm_compute)) in *. cbn [app]. change (split_on NEWLINE (NEWLINE :: r)) with (split_on NEWLINE ([] ++ NEWLINE :: r)).
      rewrite split_on_app by set_solver. constructor; [apply tidy_nil|done].
    + assert (Hno : NEWLINE ∉ b :: k).
      { apply not_elem_of_cons; split; [by intros <-|]. intros Hin. rewrite Forall_forall in Hk. by specialize (Hk _ Hin). }
      assert (Hp : tidy (b :: k)).
      { split; [done|]. rewrite chars_conts by done. constructor; [|constructor]. destruct Hc as [Hc|Hc]; [|done]. by injection Hc as ->. }
      rewrite split_on_prefix by done. destruct (split_on NEWLINE r) as [|f fs]; [by constructor|]. apply Forall_cons in IH as [Hf Hfs].
      constructor; [by apply tidy_app|done].
Qed.
Lemma strip_return_tidy t : tidy t -> strip_return t = t.
Proof.
  intros [Hv Hc]. unfold strip_return. destruct (strip_suf [byte_of 13] t) as [r|] eqn:E; [|done]. apply strip_suf_Some in E as ->.
  rewrite chars_app in Hc by done. apply Forall_app in Hc as [_ Hc]. by apply Forall_cons in Hc as [Hc _].
Qed.
Lemma clean_lines t : clean t -> Forall tidy (text_lines t).
Proof.
  intros Ht%clean_fields. unfold text_lines. apply Forall_rev in Ht.
  destruct (rev (split_on NEWLINE t)) as [|final fields]; [constructor|]. apply Forall_cons in Ht as [Hfinal Hfields]. apply Forall_app; split.
  - apply Forall_fmap. apply Forall_rev in Hfields. eapply Forall_impl; [exact Hfields|].
    intros l Hl. cbn. by rewrite strip_return_tidy.
  - destruct final; [constructor|]. by constructor.
Qed.
Lemma show_N_tidy n : tidy (show_N n).
Proof.
  apply graphic_tidy. eapply Forall_impl; [apply show_N_digits|]. intros b. unfold is_digit, byte_in, graphic. rewrite andb_true_iff, !N.leb_le. lia.
Qed.
Lemma show_hex_graphic fuel n acc : Forall graphic acc -> Forall graphic (show_hex_fuel fuel n acc).
Proof.
  revert n acc; induction fuel as [|fuel IH]; intros n acc Ha; cbn [show_hex_fuel]; cbv zeta.
  - constructor; [apply hex_digit_graphic; by apply N.mod_lt|done].
  - assert (Forall graphic (hex_digit (n mod 16) :: acc)) by (constructor; [apply hex_digit_graphic; by apply N.mod_lt|done]).
    destruct (n <? 16)%N; [done|]. by apply IH.
Qed.
Lemma repeat_graphic b n : graphic b -> Forall graphic (repeat b n).
Proof. intros Hb. induction n; by constructor. Qed.
Lemma hex_row_tidy n chunk : tidy (show_offset n ++ bs "  " ++ hex_ascii chunk).
Proof.
  assert (Hs : graphic SPACE) by (by vm_compute).
  apply graphic_tidy. unfold show_offset, hex_ascii. repeat apply Forall_app_2; try (by apply bs_graphic); try (by apply repeat_graphic).
  - by apply show_hex_graphic.
  - unfold join_spaces. destruct (map hex_byte chunk) as [|f l] eqn:E; [constructor|].
    assert (Hl : Forall (Forall graphic) (f :: l)) by (rewrite <-E; apply Forall_fmap, Forall_true; intros b; apply hex_byte_graphic).
    apply Forall_cons in Hl as [Hf Hl]. apply Forall_app; split; [done|]. apply Forall_concat, Forall_fmap. eapply Forall_impl; [exact Hl|].
    intros g Hg. by constructor.
  - apply Forall_fmap, Forall_true. intros b. unfold ascii_of, graphic. cbn. destruct (byte_in 33 126 b) eqn:Eb; cbn [orb].
    + unfold byte_in in Eb. rewrite andb_true_iff, !N.leb_le in Eb. lia.
    + case_bool_decide as Hb; [subst b; exact Hs|]. change (graphic (byte_of 46)). by vm_compute.
Qed.
(** The reasons the program gives for bytes it does not have: what the framer, the two
    captures, a repeat and the model say. *)
Definition fixed_reasons : list bytes :=
  [bs "HTTP/1 capture completed without a result"; RequestCaptureState.limit_exceeded; RequestCaptureState.head_not_observed;
   RequestCaptureState.ended_early; ResponseCapture.ended_early;
   bs "upstream Raw is unavailable for a local or uncaptured response"; bs "TCP Raw uses the bounded body stream";
   bs "repeat requests retain semantic snapshots, not ingress wire bytes"; bs "repeat workspaces contain semantic requests only";
   bs "repeat results contain semantic responses only"; bs "repeat attempt did not produce an HTTP response";
   bs "repeat attempt has not completed"; bs "repeat attempt has not been sent"].
Definition given_reason (r : bytes) : Prop := (exists e, r = show_framing_error e) \/ r ∈ fixed_reasons.
(** What the libraries and the program guarantee of a snapshot: its header names are
    tokens, and a reason is one of the program's own.  Nothing is known of the start
    line, the header values and the bytes. *)
Record observed_side (s : side_snapshot) : Prop := {
  side_names : Forall (fun e => forallb token_byte e.1 = true) (headers s);
  side_reason : match wire s with WireFailed r | WireUnavailable r => given_reason r | _ => True end }.
Lemma or_line_tidy t l : tidy t -> Forall tidy l -> Forall tidy (or_line t l).
Proof. destruct l; cbn; [by constructor|done]. Qed.
Ltac literal := apply literal_tidy; vm_compute; reflexivity.
Lemma body_status_tidy s : Forall tidy (option_list (body_status s)).
Proof.
  unfold body_status. destruct (body_incomplete s); [constructor; [literal|constructor]|]. destruct (body_truncated s); [|constructor].
  constructor; [|constructor]. repeat apply tidy_app; try literal; apply show_N_tidy.
Qed.
Lemma token_byte_graphic b : token_byte b = true -> graphic b.
Proof.
  assert (Hall : token_byte b = false \/ ((32 <=? byte_val b)%N && (byte_val b <? 127)%N) = true) by (destruct b as [[] [] [] [] [] [] [] []]; vm_compute; auto).
  unfold graphic. destruct Hall as [->|Hall]; [done|]. apply andb_true_iff in Hall. rewrite N.leb_le, N.ltb_lt in Hall. done.
Qed.
Lemma token_tidy n : forallb token_byte n = true -> tidy n.
Proof.
  rewrite forallb_forall. intros Hn. apply graphic_tidy, Forall_forall. intros b Hb%list_elem_of_In. by apply token_byte_graphic, Hn.
Qed.
Lemma given_reason_tidy r : given_reason r -> tidy r.
Proof.
  intros [[[] ->]|Hr]; try (cbn [show_framing_error]; repeat apply tidy_app; try apply show_N_tidy; literal).
  assert (Hall : Forall tidy fixed_reasons) by (unfold fixed_reasons; repeat (apply Forall_cons; split; [literal|]); apply Forall_nil; exact I). rewrite Forall_forall in Hall. by apply Hall.
Qed.
Lemma display_status_tidy s k : observed_side s -> Forall tidy (option_list (display_bytes s k).2).
Proof.
  intros [_ Hr]. unfold display_bytes. destruct k; [|apply body_status_tidy]. destruct (wire s) as [|b observed []|r|r]; cbn [snd option_list];
    first [apply Forall_nil; exact I|apply Forall_cons; split; [|constructor]].
  - literal.
  - repeat apply tidy_app; try literal; apply show_N_tidy.
  - apply tidy_app; [literal|by apply given_reason_tidy].
  - apply tidy_app; [literal|by apply given_reason_tidy].
Qed.
Section CleanViews.
Context `{JsonText}.
Lemma escape_clean t : clean (escape_terminal_bytes t).
Proof. apply escape_from_clean. Qed.
Lemma raw_lines_tidy s k : observed_side s -> Forall tidy (raw_lines s k).
Proof.
  intros Hs%(display_status_tidy s k). unfold raw_lines. destruct (display_bytes s k) as [b status]. apply or_line_tidy; [literal|].
  apply Forall_app; split; [|done]. apply clean_lines, escape_clean.
Qed.
Lemma hex_lines_tidy s k : observed_side s -> Forall tidy (hex_lines s k).
Proof.
  intros Hs%(display_status_tidy s k). unfold hex_lines. destruct (display_bytes s k) as [b status]. apply or_line_tidy; [literal|].
  apply Forall_app; split; [|done]. apply Forall_lookup. intros i l (chunk & _ & ->)%list_lookup_imap_Some. apply hex_row_tidy.
Qed.
(** A header value keeps its line: its newlines are not escaped. *)
Lemma pretty_body_clean s : (is_json (headers s) = true -> pretty_json (body s) = None) -> clean (pretty_body (headers s) (body s)).
Proof.
  intros Hj. unfold pretty_body. destruct (is_json (headers s)); [rewrite Hj by done|]; apply escape_clean.
Qed.
(** The readable view after its start line. *)
Definition below_start (s : side_snapshot) : list bytes :=
  map (fun e => e.1 ++ bs ": " ++ escape_terminal_bytes e.2) (headers s)
  ++ (match start_line s, headers s with None, [] => [] | _, _ => [[]] end)
  ++ text_lines (pretty_body (headers s) (body s)) ++ option_list (body_status s).
Lemma below_start_clean s : observed_side s -> (is_json (headers s) = true -> pretty_json (body s) = None) ->
  Forall clean (below_start s).
Proof.
  intros [Hn _] Hj. unfold below_start. repeat apply Forall_app_2.
  - apply Forall_fmap. eapply Forall_impl; [exact Hn|]. intros e Hname. cbv beta in Hname |- *.
    apply drawn_app; [by apply tidy_clean, token_tidy|]. apply drawn_app; [apply tidy_clean; literal|apply escape_clean].
  - destruct (start_line s), (headers s); repeat constructor.
  - eapply Forall_impl; [by apply clean_lines, pretty_body_clean|apply tidy_clean].
  - eapply Forall_impl; [apply body_status_tidy|apply tidy_clean].
Qed.
(** C11. What was observed on the network is drawn without control characters, the start
    line excepted.  Whatever the bytes: every line of the raw and hexadecimal
    views, and every line of the readable view below the start line unless it is
    serde_json's indented document, is valid text whose characters are printable,
    header values keeping only their newlines; escaping takes any bytes and leaves text
    without control characters as it is.  The start line is drawn as it was observed,
    so a control character of the target a peer wrote is handed on as it is. *)
Theorem views_draw_no_controls s k mode :
  observed_side s -> (mode = Pretty -> is_json (headers s) = true -> pretty_json (body s) = None) ->
  (exists rest,
    side_lines s k mode = match mode with Pretty => option_list (start_line s) | Raw | HexDump => [] end ++ rest /\
    Forall clean rest /\ (mode <> Pretty -> Forall tidy rest)) /\
  (forall t, clean (escape_terminal_bytes t)) /\ (forall t, clean t -> escape_terminal_bytes t = t).
Proof.
  intros Hs Hj. split; [|split; [apply escape_clean|apply escape_clean_same]].
  assert (Htidy : forall l, Forall tidy l -> Forall clean l) by (intros; eapply Forall_impl; eauto using tidy_clean).
  destruct mode; [|exists (raw_lines s k)|exists (hex_lines s k)]; cbn [side_lines app];
    [|pose proof (raw_lines_tidy s k Hs)|pose proof (hex_lines_tidy s k Hs)]; [|auto..].
  specialize (Hj eq_refl). pose proof (below_start_clean s Hs Hj) as Hbelow.
  change (pretty_lines s) with (or_line (bs "No content observed") (option_list (start_line s) ++ below_start s)).
  destruct (option_list (start_line s)) as [|line l] eqn:El; [|by exists (below_start s)].
  exists (or_line (bs "No content observed") (below_start s)). split; [done|]. split; [|done].
  destruct (below_start s); [constructor; [apply tidy_clean; literal|constructor]|exact Hbelow].
Qed.
End CleanViews.

(** * The caret stands where its text ends *)
Section Caret.
Context `{Graphemes}.
Variable width : N.
Hypothesis width_positive : (0 < width)%N.
Hypothesis width_bounded : (width < 65535)%N.

Definition fits (g : bytes) : bool := (cell_width g <=? width)%N.
Definition row_width (row : list bytes) : N := foldr (fun g n => (cell_width g + n)%N) 0%N row.
Lemma row_width_app a b : row_width (a ++ b) = (row_width a + row_width b)%N.
Proof. induction a as [|g a IH]; cbn; [done|]. unfold row_width in *. rewrite IH. lia. Qed.
(** The text so far fills the rows done and the current one, which is not full. *)
Record wrapped (gs : list bytes) (st : list (list bytes) * list bytes * N) : Prop := {
  wrapped_text : concat st.1.1 ++ st.1.2 = List.filter fits gs;
  wrapped_used : st.2 = row_width st.1.2;
  wrapped_room : (st.2 < width)%N;
  wrapped_rows : Forall (fun row => (row_width row <= width)%N) st.1.1 }.
Lemma row_width_one g : row_width [g] = cell_width g.
Proof. cbn. lia. Qed.
Lemma wrapped_done gs rows current : concat rows ++ current = List.filter fits gs -> Forall (fun row => (row_width row <= width)%N) rows ->
  (row_width current <= width)%N -> wrapped gs (rows ++ [current], [], 0%N).
Proof.
  intros Ht Hrows Hc. split; cbn [fst snd]; [|done|done|].
  - rewrite concat_app, app_nil_r. cbn. by rewrite app_nil_r.
  - apply Forall_app_2; [done|by constructor].
Qed.
Lemma wrap_step_wrapped gs st g : wrapped gs st -> wrapped (gs ++ [g]) (wrap_step width st g).
Proof.
  destruct st as [[rows current] used]. intros [Ht Hu Hroom Hrows]. cbn [fst snd] in *. unfold wrap_step.
  assert (Hg : List.filter fits (gs ++ [g]) = List.filter fits gs ++ if fits g then [g] else []) by (rewrite List.filter_app; done).
  unfold fits in Hg at 3. destruct (N.ltb_spec width (cell_width g)) as [Hw|Hw].
  { rewrite (proj2 (N.leb_gt _ _)), app_nil_r in Hg by done. split; cbn [fst snd]; try done. by rewrite Hg. }
  rewrite (proj2 (N.leb_le _ _)) in Hg by done. rewrite <-Ht, <-app_assoc in Hg. unfold sat16.
  destruct ((0 <? used)%N && (width <? N.min 65535 (used + cell_width g))%N) eqn:Ew.
  - rewrite N.add_0_l, N.min_r by lia. cbn [app].
    assert (Hrows' : Forall (fun row => (row_width row <= width)%N) (rows ++ [current])) by (apply Forall_app_2; [done|constructor; [lia|constructor]]).
    assert (Ht' : concat (rows ++ [current]) ++ [g] = List.filter fits (gs ++ [g])) by (by rewrite Hg, concat_app, <-app_assoc; cbn; rewrite app_nil_r).
    destruct (N.eqb_spec (cell_width g) width) as [He|He]; [by apply wrapped_done; [..|rewrite row_width_one]|].
    split; cbn [fst snd]; rewrite ?row_width_one; try done. lia.
  - assert (Hle : (used + cell_width g <= width)%N) by (apply andb_false_iff in Ew as [Ew|Ew]; apply N.ltb_ge in Ew; lia).
    rewrite N.min_r by lia. assert (Hused : row_width (current ++ [g]) = (used + cell_width g)%N) by (by rewrite row_width_app, row_width_one, Hu).
    destruct (N.eqb_spec (used + cell_width g) width) as [He|He]; [by apply wrapped_done; [..|rewrite Hused]|].
    split; cbn [fst snd]; try done. lia.
Qed.
Lemma wrap_wrapped gs : wrapped gs (foldl (wrap_step width) ([], [], 0%N) gs).
Proof.
  induction gs as [|g gs IH] using rev_ind; [by split|]. rewrite foldl_app. by apply wrap_step_wrapped.
Qed.
Lemma rows_bound gs : (lenN (foldl (wrap_step width) ([], [], 0%N) gs).1.1 <= 2 * lenN gs)%N.
Proof.
  unfold lenN. induction gs as [|g gs IH] using rev_ind; [done|]. rewrite foldl_app, length_app. cbn [foldl].
  destruct (foldl (wrap_step width) ([], [], 0%N) gs) as [[rows current] used]. cbn in IH. unfold wrap_step.
  destruct (width <? cell_width g)%N; cbn; [lia|]. destruct (_ && _); destruct (_ =? _)%N; cbn; rewrite ?length_app; cbn; lia.
Qed.
(** The caret moves as the rows grow. *)
Lemma cursor_follows gs : (2 * lenN gs < u64_max)%N ->
  foldl (cursor_step width) (0, 0)%N gs =
  let '(rows, _, used) := foldl (wrap_step width) ([], [], 0%N) gs in (lenN rows, used).
Proof.
  induction gs as [|g gs IH] using rev_ind; intros Hlen; [done|]. pose proof (rows_bound gs) as Hrows. rewrite !foldl_app. cbn [foldl].
  assert (Hlen' : (2 * lenN gs + 2 < u64_max)%N) by (unfold lenN in *; rewrite length_app in Hlen; cbn in Hlen; lia).
  rewrite IH by lia. destruct (foldl (wrap_step width) ([], [], 0%N) gs) as [[rows current] used]. cbn in Hrows. unfold cursor_step, wrap_step.
  destruct (width <? cell_width g)%N; [done|].
  assert (Hsnoc : forall (l : list (list bytes)) r, lenN (l ++ [r]) = (lenN l + 1)%N) by (intros l r; unfold lenN; rewrite length_app; cbn; lia).
  destruct (_ && _); destruct (_ =? _)%N; cbn; rewrite ?Hsnoc, ?sat_add_small; repeat f_equal; rewrite ?sat_add_small; lia.
Qed.
(** What follows only adds to the current row and after it. *)
Definition extends (rows : list (list bytes)) (current : list bytes) (st : list (list bytes) * list bytes * N) : Prop :=
  (st.1.1 = rows /\ current `prefix_of` st.1.2) \/ exists row more, st.1.1 = rows ++ row :: more /\ current `prefix_of` row.
Lemma extends_step rows current st g : extends rows current st -> extends rows current (wrap_step width st g).
Proof.
  destruct st as [[rows' current'] used]. intros [[Hr Hp]|(row & more & Hr & Hp)]; cbn [fst snd] in *; subst rows'; unfold wrap_step;
    destruct (width <? cell_width g)%N; try (by left); try (by right; exists row, more);
    destruct (_ && _); destruct (_ =? _)%N; cbn [fst snd].
  - right. exists current', [[] ++ [g]]. by rewrite <-app_assoc.
  - right. by exists current', [].
  - right. exists (current' ++ [g]), []. split; [done|]. by apply prefix_app_r.
  - left. split; [done|]. by apply prefix_app_r.
  - right. exists row, (more ++ [current'] ++ [[] ++ [g]]). split; [|done]. by rewrite <-!app_assoc.
  - right. exists row, (more ++ [current']). split; [|done]. by rewrite <-app_assoc.
  - right. exists row, (more ++ [current' ++ [g]]). split; [|done]. by rewrite <-app_assoc.
  - right. by exists row, more.
Qed.
Lemma extends_all rows current used s : extends rows current (foldl (wrap_step width) (rows, current, used) s).
Proof.
  induction s as [|g s IH] using rev_ind; [by left|]. rewrite foldl_app. by apply extends_step.
Qed.
(** The rows drawn, once the line ends. *)
Lemma drawn_rows gs : Forall (fun g => g <> []) gs ->
  Forall (fun row => (row_width row <= width)%N) (wrap_rows width gs) /\ concat (wrap_rows width gs) = List.filter fits gs.
Proof.
  intros Hgs. unfold wrap_rows. destruct (wrap_wrapped gs) as [Ht Hu Hroom Hrows]. destruct (foldl (wrap_step width) ([], [], 0%N) gs) as [[rows current] used].
  cbn [fst snd] in *. assert (Hend : Forall (fun row => (row_width row <= width)%N) (rows ++ [current]) /\ concat (rows ++ [current]) = List.filter fits gs).
  { split; [apply Forall_app_2; [done|constructor; [lia|constructor]]|]. rewrite concat_app. cbn. by rewrite app_nil_r. }
  destruct (concat current) eqn:Ec; [|exact Hend]. destruct rows as [|row rows]; [exact Hend|]. split; [done|].
  destruct current as [|g current]; [by rewrite app_nil_r in Ht|]. exfalso.
  assert (Hin : g ∈ List.filter fits gs) by (rewrite <-Ht; set_solver). apply list_elem_of_In, List.filter_In in Hin as [Hin%list_elem_of_In _].
  rewrite Forall_forall in Hgs. apply (Hgs g Hin). cbn in Ec. by apply app_nil in Ec as [? _].
Qed.
(** The caret of the editor stands where its text ends: however a line is wrapped,
    every row fits the width and together they show every grapheme that fits, in
    order; and what is drawn before the caret, the rows above it and the cells to its
    left, is exactly the text before the cursor. *)
Theorem caret_follows_its_text line prefix rest :
  graphemes line = graphemes prefix ++ rest -> Forall (fun g => g <> []) (graphemes line) -> (2 * lenN (graphemes prefix) < u64_max)%N ->
  exists rows, wrap_editor_line line width = map (@concat _) rows /\
    Forall (fun row => (row_width row <= width)%N) rows /\ concat rows = List.filter fits (graphemes line) /\
    let '(row, column) := wrapped_cursor prefix width in
    exists left, concat (take (N.to_nat row) rows) ++ left = List.filter fits (graphemes prefix) /\
      left `prefix_of` default [] (rows !! N.to_nat row) /\ row_width left = column /\ (column < width)%N.
Proof.
  intros Hline Hgs Hlen. exists (wrap_rows width (graphemes line)). unfold wrap_editor_line, wrapped_cursor. rewrite (proj2 (N.eqb_neq _ _)) by lia.
  destruct (drawn_rows (graphemes line) Hgs) as [Hfit Hall]. split; [done|]. split; [done|]. split; [done|].
  rewrite cursor_follows by done. pose proof (wrap_wrapped (graphemes prefix)) as [Ht Hu Hroom Hrows].
  pose proof (wrap_wrapped (graphemes line)) as [Htl _ _ _]. rewrite Hline in Htl, Hgs |- *. unfold wrap_rows. rewrite foldl_app in Htl |- *.
  destruct (foldl (wrap_step width) ([], [], 0%N) (graphemes prefix)) as [[rows current] used]. cbn [fst snd] in *.
  pose proof (extends_all rows current used rest) as Hext. destruct (foldl (wrap_step width) (rows, current, used) rest) as [[rows' current'] used'].
  unfold extends in Hext. cbn [fst snd] in Hext, Htl. exists current. unfold lenN. rewrite Nat2N.id.
  assert (Hpart : forall row more, current `prefix_of` row -> concat (take (length rows) (rows ++ row :: more)) ++ current = List.filter fits (graphemes prefix) /\
    current `prefix_of` default [] ((rows ++ row :: more) !! length rows) /\ row_width current = used /\ (used < width)%N).
  { intros row more Hp. rewrite take_app_length, list_lookup_middle by done. done. }
  destruct Hext as [[-> Hp]|(row & more & -> & Hp)].
  - destruct (concat current') eqn:Ec; [|by apply (Hpart current' [])]. destruct rows as [|row0 rows0] eqn:Er; [by apply (Hpart current' [])|]. rewrite <-Er in *.
    assert (current' = []) as ->.
    { destruct current' as [|g current']; [done|]. exfalso.
      assert (Hin : g ∈ List.filter fits (graphemes prefix ++ rest)) by (rewrite <-Htl; set_solver). apply list_elem_of_In, List.filter_In in Hin as [Hin%list_elem_of_In _].
      rewrite Forall_forall in Hgs. apply (Hgs g Hin). cbn in Ec. by apply app_nil in Ec as [? _]. }
    apply prefix_nil_inv in Hp as ->. rewrite take_ge by lia. split; [done|]. split; [apply prefix_nil|]. done.
  - destruct (concat current') eqn:Ec; [|by rewrite <-app_assoc; apply (Hpart row (more ++ [current']))]. destruct (rows ++ row :: more) as [|r0 l0] eqn:El; [by destruct rows|].
    rewrite <-El. by apply Hpart.
Qed.
End Caret.

(** * A message with an escape sequence, and a narrow screen *)
Module Example_text.
#[local] Instance no_json : JsonText := {| pretty_json := fun _ => None |}.
#[local] Instance one_cell : Graphemes := {| graphemes := chars; cell_width := fun _ => 1%N; line_width := fun t => lenN (chars t) |}.
Definition coloured : bytes := byte_of 27 :: bs "[31m" ++ [byte_of 13; NEWLINE].
Definition side : side_snapshot := SideSnapshot (Some (bs "GET / HTTP/1.1")) [(bs "host", bs "a")] coloured 7 false false (WireBytes coloured 7 false).
Example escaped_views :
  side_lines side HttpTraffic Raw = [bs "\x1b[31m\r"] /\
  side_lines side TcpTraffic HexDump = [bs "00000000  1b 5b 33 31 6d 0d 0a                            |.[31m..|"].
Proof. split; vm_compute; reflexivity. Qed.
(** A target with the control sequence introducer U+009B, as a peer can write it. *)
Definition introducer : bytes := [byte_of 194; byte_of 155].
Definition marked : side_snapshot :=
  SideSnapshot (Some (bs "GET /" ++ introducer ++ bs "31m HTTP/1.1")) [(bs "host", introducer)] coloured 7 false false WirePending.
Lemma marked_observed : observed_side marked.
Proof. split; [repeat constructor|exact I]. Qed.
Example start_line_is_drawn_as_observed :
  is_control introducer = true /\ utf8_valid introducer = true /\
  side_lines marked HttpTraffic Pretty =
    [bs "GET /" ++ introducer ++ bs "31m HTTP/1.1"; bs "host: \xc2\x9b"; []; bs "\x1b[31m\r"].
Proof. split; [|split]; vm_compute; reflexivity. Qed.
Lemma views_draw_no_controls_witness :
  exists rest, side_lines marked HttpTraffic Pretty = option_list (start_line marked) ++ rest /\ Forall clean rest.
Proof.
  destruct (proj1 (@views_draw_no_controls no_json marked HttpTraffic Pretty
    marked_observed (fun _ _ => eq_refl))) as (rest & Hl & Hr & _).
  exists rest. split; [exact Hl|exact Hr].
Defined.
Lemma caret_follows_its_text_witness :
  wrap_editor_line (bs "abcde") 2 = [bs "ab"; bs "cd"; bs "e"] /\ wrapped_cursor (bs "abc") 2 = (1, 1)%N /\
  exists rows left, wrap_editor_line (bs "abcde") 2 = map (@concat _) rows /\
    concat (take 1 rows) ++ left = [bs "a"; bs "b"; bs "c"] /\ left `prefix_of` default [] (rows !! 1).
Proof.
  split; [vm_compute; reflexivity|]. assert (Hwrap : wrapped_cursor (bs "abc") 2 = (1, 1)%N) by (vm_compute; reflexivity). split; [exact Hwrap|].
  assert (Hline : graphemes (bs "abcde") = graphemes (bs "abc") ++ [bs "d"; bs "e"]) by (vm_compute; reflexivity).
  assert (Hgs : Forall (fun g => g <> []) (graphemes (bs "abcde"))) by (vm_compute; repeat constructor; discriminate).
  destruct (caret_follows_its_text 2 ltac:(lia) ltac:(lia) (bs "abcde") (bs "abc") [bs "d"; bs "e"] Hline Hgs ltac:(vm_compute; reflexivity))
    as (rows & Hrows & _ & _ & Hcaret).
  rewrite Hwrap in Hcaret. destruct Hcaret as (left & Hleft & Hp & _). exists rows, left. split; [exact Hrows|]. split; [exact Hleft|exact Hp].
Defined.
End Example_text.
