(* ===== verification/UiDetail.v ===== *)
(** The evaluations of a row and the detail of one rule, as text
    (crates/freja-ui/src/tui/render/evidence.rs). *)
From stdpp Require Import gmap strings.
From stdpp Require Import prelude.
From S2P Require Import Prelude Bytes Net Endpoint Domain PolicyModel Acl Guard Inspection AuditModel AuditSink Hooks Runtime Settings HttpHeaders Tls HttpMessages HttpRepeat Evidence UiEvents UiEditor UiModel UiText.

(** * Derived [Debug] *)

Definition debug_severity (s : severity) : bytes :=
  match s with
  | Informational => bs "Informational" | Low => bs "Low" | Medium => bs "Medium" | High => bs "High" | Critical => bs "Critical" end.
Definition debug_confidence (c : confidence) : bytes :=
  match c with Heuristic => bs "Heuristic" | Probable => bs "Probable" | Confirmed => bs "Confirmed" end.
Definition debug_direction (d : direction) : bytes :=
  match d with
  | ClientToUpstream => bs "ClientToUpstream" | UpstreamToClient => bs "UpstreamToClient"
  | HttpRequestBody => bs "HttpRequestBody" | HttpResponseBody => bs "HttpResponseBody" end.
Definition debug_action_kind (k : action_kind) : bytes :=
  match k with KAllow => bs "Allow" | KHttpReject => bs "HttpReject" | KTcpClose => bs "TcpClose" | KTcpDetour => bs "TcpDetour" end.
Definition debug_stage (s : policy_stage) : bytes :=
  match s with
  | RequestedDestination => bs "RequestedDestination" | ResolvedDestination => bs "ResolvedDestination"
  | StageHttpRequest => bs "HttpRequest" | StageHttpResponse => bs "HttpResponse" | StageStreaming => bs "Streaming" end.
Definition debug_source (s : rule_source) : bytes :=
  match s with
  | FromAcl => bs "Acl" | FromAclDefault => bs "AclDefault" | FromInspection => bs "Inspection"
  | FromInspectionDefault => bs "InspectionDefault" | FromDestinationGuard => bs "DestinationGuard" | FromConnectPorts => bs "ConnectPorts" end.
Definition debug_enforcement (m : enforcement_mode) : bytes := match m with Observe => bs "Observe" | Enforce => bs "Enforce" end.
Definition show_nat (n : nat) : bytes := show_N (N.of_nat n).

(** * The evaluations of a row *)

Section Evaluations.
Context `{IpNet, HeaderIter, HttpLibrary, TextBuffer, StatusReasons}.
Definition finding_line (f : finding) : bytes :=
  bs "finding " ++ DetectorId.as_str (detector_id f) ++ bs " " ++ debug_severity (finding_severity f) ++ bs " "
    ++ debug_confidence (finding_confidence f) ++ bs " " ++ debug_direction (finding_direction f).
Definition trace_line (selected : option N) (x : trace_snapshot) : bytes :=
  escape_terminal_bytes
    ((if bool_decide (selected = Some (trace_id x)) then bs "> " else bs "  ") ++ bs "decision " ++ debug_action_kind (final_action (trace_of x))
     ++ bs " rule=" ++ match matched_rule (trace_of x) with Some r => RuleId.as_str r | None => bs "<default>" end
     ++ bs " generation=" ++ show_N (PolicyGeneration.get (policy_generation (trace_of x))) ++ bs " | " ++ show_evaluation_target (trace_target x)).
Definition evaluation_lines (m : TuiModel.t) (row : option traffic_row) : list bytes :=
  match row with
  | None => []
  | Some r => map finding_line (row_findings r) ++ map (trace_line (trace_id <$> TuiModel.selected_evaluation m)) (row_traces r)
  end.
End Evaluations.

(** * The detail of a rule *)

Section Detail.
Context `{IpNet, DefinitionJson}.
Definition append_definition (t : DefinitionText.t) : list bytes :=
  (if DefinitionText.incomplete t
   then [bs "[INCOMPLETE: definition field exceeded 16 KiB or could not be serialized; suffix unavailable]"] else [])
  ++ text_lines (DefinitionText.text t).
(** What a stage knows, and what it does not. *)
Definition stage_inputs (s : policy_stage) : bytes * option bytes :=
  match s with
  | RequestedDestination => (bs "client IP, requested host/port, protocol", Some (bs "resolved IP and HTTP method/path/headers"))
  | ResolvedDestination => (bs "client IP, requested host/port, protocol, resolved IP", Some (bs "HTTP method/path/headers"))
  | StageHttpRequest => (bs "destination facts and this request's method, path, sanitized headers", None)
  | StageHttpResponse => (bs "destination facts and sanitized response headers", Some (bs "request method/path"))
  | StageStreaming => (bs "unavailable for this stage", None)
  end.
(** [rule_count() - evaluated()] on [usize]: [None], below zero. *)
Definition not_evaluated (a : acl_evidence) : option nat :=
  if evidence_evaluated a <=? rule_count a then Some (rule_count a - evidence_evaluated a) else None.
(** [None]: the subtraction overflows. *)
Definition append_acl_summary (a : acl_evidence) (stage : policy_stage) : option (list bytes) :=
  let first := bs "Configured ACL: " ++ show_nat (rule_count a) ++ bs " rules | first match wins | default action: "
                 ++ DefinitionText.text (evidence_default a) in
  counts ←
    (if rule_count a =? 0
     then Some [bs "Why default: no ACL rules were configured; there were no rule conditions to match."]
     else
       rest ← not_evaluated a;
       Some [bs "This evaluation: " ++ show_nat (evidence_evaluated a) ++ bs " checked | " ++ show_nat (evidence_did_not_match a)
               ++ bs " did not match | " ++ show_nat (evidence_unavailable a) ++ bs " unavailable at this stage | " ++ show_nat rest
               ++ bs " not evaluated";
             match evidence_ordinal a with
             | None => bs "Why default: no configured rule matched at this stage."
             | Some order => bs "Selected rule #" ++ show_nat order ++ bs "; evaluation stopped at the first match."
             end]);
  let '(inputs, unavailable) := stage_inputs stage in
  Some (first :: counts ++ (bs "ACL inputs: " ++ inputs ++ bs ".")
          :: match unavailable with Some u => [bs "Unavailable at this stage: " ++ u ++ bs "."] | None => [] end
          ++ [bs "This is the ACL configuration; destination guards and payload inspection are separate checks."]).
Definition source_note (s : rule_source) : bytes :=
  match s with
  | FromInspection => bs "The policy matches the finding detector ID. Other fields describe the detector and its emitted findings. Pattern bytes are decimal octets; directions bound detection."
  | FromDestinationGuard => bs "Built-in address protection is independent of ordered ACL rules; the condition names the protected class."
  | FromConnectPorts => bs "Built-in listener CONNECT allowlist."
  | _ => bs "Default policy has no individual rule declaration."
  end.
Definition declaration_lines (a : acl_evidence) : list bytes :=
  (if (0 <? rule_count a) && ((1 <? rule_count a) || match evidence_ordinal a with None => true | Some _ => false end)
   then bs "Configured ACL rules (declaration order; results from this evaluation):"
        :: (if MAXIMUM_ACL_EVIDENCE_RULES <? rule_count a
            then [bs "[Only the first " ++ show_nat MAXIMUM_ACL_EVIDENCE_RULES ++ bs " of " ++ show_nat (rule_count a)
                    ++ bs " rule definitions are included; summary counts cover all rules]"] else [])
        ++ append_definition (declarations a)
   else [])
  ++ (if 0 <? rule_count a
      then [bs "all=AND; any=OR; not requires available facts. Ports are inclusive; host suffix includes subdomains. Method/header names ignore case; paths and header values are case-sensitive."]
      else []).
Definition reason_lines (x : trace_snapshot) : list bytes :=
  bs "Recorded match reasons (observed facts):"
  :: (match match_reasons (trace_of x) with [] => [bs "No match reasons retained."] | _ => [] end)
  ++ map (fun r => criterion r ++ bs ": " ++ observed r) (match_reasons (trace_of x))
  ++ (if reasons_incomplete x then [bs "[Recorded reasons shortened by UI retention limits]"] else []).
(** [None]: the summary panics. *)
Definition rule_detail_lines (x : trace_snapshot) : option (list bytes) :=
  let trace := trace_of x in
  let evidence := (fun e => snapshot e.1 e.2) <$> trace_evidence x in
  head ←
    match evidence with
    | None => Some [bs "Source/definition/enforcement: unavailable (not retained with this evaluation). Current same-ID rules are not substituted."]
    | Some e =>
        summary ← match evidence_acl e with Some a => append_acl_summary a (evaluated_stage trace) | None => Some [] end;
        Some ((bs "Source: " ++ debug_source (evidence_source e) ++ bs " | Enforcement at decision: " ++ debug_enforcement (evidence_enforcement e)) :: summary)
    end;
  let rule := bs "Rule ID: " ++ match matched_rule trace with Some r => RuleId.as_str r | None => bs "<default: no individual rule>" end in
  let definition :=
    match evidence with
    | None => []
    | Some e =>
        (if decide (evidence_source e <> FromAclDefault)
         then bs "Conditions (selected definition; JSON representation):" :: append_definition (evidence_conditions e)
              ++ bs "Configured action (selected definition):" :: append_definition (evidence_action e)
         else [])
        ++ match evidence_acl e with Some a => declaration_lines a | None => [source_note (evidence_source e)] end
    end in
  let mode :=
    match evidence with
    | None => []
    | Some e => [match evidence_enforcement e with
                 | Observe => bs "Observe: records policy denials without enforcing them."
                 | Enforce => bs "Enforce: applies policy actions; streaming cannot retract bytes already forwarded." end]
    end in
  Some (show_evaluation_target (trace_target x) :: head ++ rule :: definition
          ++ (bs "Policy action category: " ++ debug_action_kind (final_action trace) ++ bs " (not proof of execution)")
          :: bs "Communication outcome: this evaluation does not establish delivery." :: mode ++ reason_lines x).
(** As drawn: every line escaped and cut at its newlines. *)
Definition drawn_detail (x : trace_snapshot) : option (list bytes) :=
  (fun l => l ≫= fun line => split_on NEWLINE (escape_terminal_bytes line)) <$> rule_detail_lines x.
End Detail.

(** * Every decision's detail is drawn *)

Section Drawn.
Context `{IpNet, DefinitionJson}.
Lemma summary_some p f ev mode stage : (evaluate_with_definition p f).2 = DefAcl ev ->
  exists a l, evidence_acl (snapshot (DefAcl ev) mode) = Some a /\ append_acl_summary a stage = Some l.
Proof.
  destruct (acl_evidence_accounts p f) as (seen & rest & d & ev' & Heval & Hp & Hcount & _). rewrite Heval. cbn [snd]. intros [= ->].
  pose proof (evaluate_rules_keeps p f (rules p) (AclEvaluation.new (rules p) (default_action p))) as [Hrules _].
  unfold evaluate_with_definition in Heval. destruct (evaluate_rules p f (rules p) _) as [d0 ev0]. injection Heval as -> ->. cbn in Hrules.
  exists (acl_snapshot ev). unfold append_acl_summary, not_evaluated. cbn [acl_snapshot rule_count evidence_evaluated]. rewrite Hrules, Hcount.
  assert (Hle : (length seen <=? length (rules p)) = true) by (apply Nat.leb_le; rewrite Hp, length_app; lia). rewrite Hle.
  destruct (stage_inputs stage) as [inputs unavailable].
  destruct (length (rules p) =? 0); cbn [mbind option_bind]; eexists; (split; [unfold snapshot; by destruct (AclEvaluation.selected_rule ev)|reflexivity]).
Qed.
Lemma detail_some x : (forall e, trace_evidence x = Some e -> evaluated_definition e.1) -> exists l, rule_detail_lines x = Some l.
Proof.
  intros Hx. unfold rule_detail_lines. destruct (trace_evidence x) as [[def mode]|]; cbn [fmap option_fmap option_map]; [|cbn; by eexists].
  specialize (Hx _ eq_refl). cbn [fst snd] in *. destruct def as [ev| | | |]; [|unfold snapshot; cbn; by eexists..].
  destruct Hx as (p & f & Hev). destruct (summary_some p f ev mode (evaluated_stage (trace_of x)) Hev) as (a & l & Ha & Hl).
  rewrite Ha, Hl. cbn [mbind option_bind]. by eexists.
Qed.
(** Whatever decision is opened, its detail can be drawn: the summary's count of rules
    not evaluated never falls below zero, and every line of it, with the observed facts
    and the definitions it quotes, is free of control characters. *)
Theorem decision_details_are_drawn x :
  (forall e, trace_evidence x = Some e -> evaluated_definition e.1) ->
  exists l, drawn_detail x = Some l /\ Forall tidy l.
Proof.
  intros (l & Hl)%detail_some. unfold drawn_detail. rewrite Hl. eexists. split; [reflexivity|].
  apply Forall_bind. apply Forall_true. intros line. apply clean_fields, escape_clean.
Qed.
End Drawn.
