(* ===== verification/UiScreen.v ===== *)
(** What is drawn where (crates/freja-ui/src/tui/render.rs, tui/render/evidence.rs): pages,
    panes, floating windows, titles, scrolling and the caret.  A frame is the list of the
    widgets rendered on it, each with its area.  How ratatui divides an area is a
    parameter with laws, how it paints a widget is left out, and so are the styles of
    single lines. *)
From stdpp Require Import gmap strings.
From stdpp Require Import prelude.
From S2P Require Import Prelude Bytes Text Net Endpoint Domain PolicyModel Acl Guard Inspection AuditModel AuditSink Hooks Runtime Settings HttpHeaders Tls HttpMessages HttpRepeat Evidence UiEvents UiEditor UiModel UiInput UiTerminal UiPaused UiRoundTrip UiText UiDetail.

(** * Areas, widgets and frames *)

(** [Rect]: 16-bit cells. *)
Record rect : Type := Rect { rx : N; ry : N; rw : N; rh : N }.
#[export] Instance rect_eq_dec : EqDecision rect.
Proof. solve_decision. Defined.
Inductive layout_direction : Type := Horizontal | Vertical.
Inductive constraint : Type := Percentage (n : N) | AtLeast (n : N) | Exactly (n : N).
(** [Layout::split], and [Block::inner] of a block with all its borders. *)
Class Layouts : Type := {
  split_area : layout_direction -> list constraint -> rect -> list rect;
  block_inner : rect -> rect }.
Inductive style : Type := DefaultStyle | Cyan | CyanBold | Yellow.
Record block : Type := Block { block_title : bytes; title_style : style; border_style : style }.
Inductive widget : Type :=
| Paragraph (b : option block) (s : style) (lines : list bytes) (wrap : bool) (scroll : N)
| ItemList (b : block) (items : list bytes) (selected : option nat)
| BlockWidget (b : block)
| Clear.
Record frame : Type := Frame { frame_area : rect; drawn : list (rect * widget); caret : option (N * N) }.
Definition render_widget (w : widget) (a : rect) (f : frame) : frame := Frame (frame_area f) (drawn f ++ [(a, w)]) (caret f).
Definition set_cursor_position (p : N * N) (f : frame) : frame := Frame (frame_area f) (drawn f) (Some p).

Definition MINIMUM_WIDTH : N := 80.
Definition MINIMUM_HEIGHT : N := 24.
Definition FLOW_LIST_PERCENT : N := 25.
Definition FLOW_DETAIL_PERCENT : N := 75.
Definition SPLIT_SIDE_PERCENT : N := 50.
Definition EXPANDED_PANE_WIDTH_PERCENT : N := 94.
Definition EXPANDED_PANE_HEIGHT_PERCENT : N := 92.
Definition EDITOR_WIDTH_PERCENT : N := 96.
Definition EDITOR_HEIGHT_PERCENT : N := 94.
Definition EDITOR_MINIMUM_CONTENT_ROWS : N := 4.
Definition EDITOR_STATUS_ROWS : N := 3.
Definition DIAGNOSTICS_EVIDENCE_PERCENT : N := 45.
Definition DIAGNOSTICS_MINIMUM_LOG_ROWS : N := 5.
Definition DIAGNOSTICS_STATISTICS_ROWS : N := 8.

Definition debug_display_mode (mode : display_mode) : bytes := match mode with Pretty => bs "Pretty" | Raw => bs "Raw" | HexDump => bs "Hex" end.
Definition debug_layout (l : detail_layout) : bytes :=
  match l with SplitLayout => bs "Split" | RequestLayout => bs "Request" | ResponseLayout => bs "Response" end.
Definition debug_editor_mode (mode : editor_mode) : bytes := match mode with NormalMode => bs "Normal" | InsertMode => bs "Insert" end.
Definition focus_eqb (a b : focus_pane) : bool :=
  match a, b with
  | Flows, Flows | Detail, Detail | Evidence, Evidence | Logs, Logs | RepeatWorkspaces, RepeatWorkspaces | RepeatDetail, RepeatDetail => true
  | _, _ => false
  end.
Definition side_eqb (a b : selected_side) : bool :=
  match a, b with RequestSide, RequestSide | ResponseSide, ResponseSide => true | _, _ => false end.
Definition plain_block (title : bytes) : block := Block title DefaultStyle DefaultStyle.

Definition render_minimum_size (f : frame) : frame :=
  let message := bs "Freja TUI requires at least " ++ show_N MINIMUM_WIDTH ++ bs "x" ++ show_N MINIMUM_HEIGHT
    ++ bs "; current size is " ++ show_N (rw (frame_area f)) ++ bs "x" ++ show_N (rh (frame_area f)) in
  render_widget (Paragraph (Some (plain_block (bs "Terminal too small"))) DefaultStyle [message] true 0) (frame_area f) f.

Section Screen.
Context `{IpNet, HeaderIter, HttpLibrary, TextBuffer, StatusReasons, !DefinitionJson, JsonText, Graphemes, Layouts}.
(** How session and transaction identifiers are shown. *)
Context (show_session : session_id -> bytes) (show_transaction : transaction_id -> bytes).
Implicit Types (m : TuiModel.t) (f : frame).

(** * Traffic *)

Definition border_of m (pane : focus_pane) : style := if focus_eqb (Nav.focus (TuiModel.nav m)) pane then Cyan else DefaultStyle.
Definition render_flows m (a : rect) f : frame :=
  let s := TuiModel.store m in
  let title := bs "Flows [1 Traffic]  mode=" ++ debug_display_mode (Nav.mode (TuiModel.nav m)) ++ bs " layout="
    ++ debug_layout (Nav.layout (TuiModel.nav m)) ++ bs "  Ctrl+h/j/k/l pane | Enter expand" in
  render_widget (ItemList (Block title Yellow (border_of m Flows)) (map (flow_line show_session show_transaction s) (Store.rows s))
      ((fun _ => Store.selected s) <$> Store.selected_row s)) a f.
Definition render_side m (side : selected_side) (a : rect) f : frame :=
  match Store.selected_row (TuiModel.store m) with
  | None => render_widget (Paragraph (Some (plain_block (bs "Traffic"))) DefaultStyle [bs "No traffic rows"] false 0) a f
  | Some row =>
      let n := TuiModel.nav m in
      let shown := match side with RequestSide => row_request row | ResponseSide => row_response row end in
      let border := if focus_eqb (Nav.focus n) Detail && side_eqb (Nav.side n) side then CyanBold else DefaultStyle in
      render_widget (Paragraph (Some (Block (side_title (row_kind row) side (Nav.mode n)) DefaultStyle border)) DefaultStyle
        (side_lines shown (row_kind row) (Nav.mode n)) true (Nav.detail_scroll n)) a f
  end.
(** The areas are indexed: a split that does not give them panics. *)
Definition render_traffic m f : option frame :=
  let areas := split_area Vertical [Percentage FLOW_LIST_PERCENT; Percentage FLOW_DETAIL_PERCENT] (frame_area f) in
  top ← areas !! 0;
  let f := render_flows m top f in
  bottom ← areas !! 1;
  match Nav.layout (TuiModel.nav m) with
  | SplitLayout =>
      let details := split_area Horizontal [Percentage SPLIT_SIDE_PERCENT; Percentage SPLIT_SIDE_PERCENT] bottom in
      left_ ← details !! 0;
      let f := render_side m RequestSide left_ f in
      right_ ← details !! 1;
      Some (render_side m ResponseSide right_ f)
  | RequestLayout => Some (render_side m RequestSide bottom f)
  | ResponseLayout => Some (render_side m ResponseSide bottom f)
  end.

(** * Repeats *)

Definition workspace_line (w : repeat_workspace) : bytes :=
  let status := if in_flight w then bs "sending " else match latest_result w with Some _ => bs "complete" | None => bs "ready   " end in
  status ++ bs " " ++ show_transaction (source_transaction (workspace_source w)) ++ bs " " ++ snap_method (workspace_request w)
    ++ bs " " ++ uri_text (snap_uri (workspace_request w)).
Definition render_repeat_workspaces m (a : rect) f : frame :=
  let w := TuiModel.work m in
  let title := bs "Workspaces [3 Repeat]  s send | e/i edit+send | d delete | q back — "
    ++ escape_terminal_bytes (Work.interactive_status w) in
  render_widget (ItemList (Block title Yellow (border_of m RepeatWorkspaces)) (map workspace_line (Work.repeat_workspaces w))
      ((fun _ => Work.repeat_selected w) <$> Work.selected_repeat_workspace w)) a f.
Definition render_repeat_side m (side : selected_side) (a : rect) f : frame :=
  match (match side with RequestSide => TuiModel.repeat_request_side m | ResponseSide => TuiModel.repeat_response_side m end) with
  | None => render_widget (Paragraph (Some (plain_block (bs "Repeat"))) DefaultStyle [bs "No repeat workspaces"] false 0) a f
  | Some shown =>
      let n := TuiModel.nav m in
      let name := match side with RequestSide => bs "Editable request" | ResponseSide => bs "Latest result" end in
      let border := if focus_eqb (Nav.focus n) RepeatDetail && side_eqb (Nav.side n) side then CyanBold else DefaultStyle in
      let title := name ++ bs " [" ++ debug_display_mode (Nav.mode n) ++ bs "]  Ctrl+h/j/k/l pane | j/k scroll" in
      render_widget (Paragraph (Some (Block title DefaultStyle border)) DefaultStyle
        (side_lines shown HttpTraffic (Nav.mode n)) true (Nav.detail_scroll n)) a f
  end.
Definition render_repeat m f : option frame :=
  let areas := split_area Vertical [Percentage FLOW_LIST_PERCENT; Percentage FLOW_DETAIL_PERCENT] (frame_area f) in
  top ← areas !! 0;
  let f := render_repeat_workspaces m top f in
  bottom ← areas !! 1;
  let details := split_area Horizontal [Percentage SPLIT_SIDE_PERCENT; Percentage SPLIT_SIDE_PERCENT] bottom in
  left_ ← details !! 0;
  let f := render_repeat_side m RequestSide left_ f in
  right_ ← details !! 1;
  Some (render_repeat_side m ResponseSide right_ f).

(** * Diagnostics *)

Definition render_operational_logs m (a : rect) f : frame :=
  render_widget (Paragraph (Some (Block (bs "Operational logs") DefaultStyle (border_of m Logs))) DefaultStyle
    (log_lines (TuiModel.store m)) true (Nav.log_scroll (TuiModel.nav m))) a f.
Definition render_stats m (a : rect) f : frame :=
  let w := TuiModel.work m in
  render_widget (Paragraph (Some (plain_block (bs "Statistics"))) DefaultStyle
    (stats_lines (TuiModel.store m) (Work.paused_flows w) (Work.interactive_status w)) false 0) a f.

(** ** Evaluations *)

Definition with_height (a : rect) (h : N) : rect := Rect (rx a) (ry a) (rw a) h.
(** The area below its first [h] rows. *)
Definition below (a : rect) (h : N) : rect := Rect (rx a) (sat16 (ry a + h)) (rw a) (rh a - h).
Definition is_http (r : traffic_row) : bool := match row_kind r with HttpTraffic => true | TcpTraffic => false end.
Definition render_context m (row : option traffic_row) (a : rect) f : rect * frame :=
  match (r ← row; if is_http r then Some r else None) with
  | None => (a, f)
  | Some row =>
      let maximum_lines := match Nav.expanded_pane (TuiModel.nav m) with Some Evidence => 6 | _ => 2 end in
      let context := request_context show_transaction row (rw a) maximum_lines in
      let height := N.min (sat16 (lenN context)) (rh a - 1) in
      (below a height, render_widget (Paragraph None Cyan context false 0) (with_height a height) f)
  end.
Definition render_notice m (row : option traffic_row) (a : rect) f : rect * frame :=
  if TuiModel.evidence_missing m || match row with None => true | Some r => bool_decide (row_traces r = []) end then
    let message := if TuiModel.evidence_missing m
      then bs "Original evaluation no longer retained; no replacement selected. j/k selects explicitly."
      else bs "No evaluations retained. Findings do not identify an applied rule." in
    let notice := with_height a (N.min (rh a) 2) in
    (below a (rh notice), render_widget (Paragraph None Yellow [message] true 0) notice f)
  else (a, f).
Definition MAXIMUM_SCROLL_OFFSET : Z := 65535.
Definition I64_MAX : Z := 9223372036854775807.
(** The line of the evaluation the view is anchored to. *)
Definition anchored_line m (row : option traffic_row) : option nat :=
  id ← EvidenceView.anchor (TuiModel.evidence_view m);
  r ← row;
  index ← Store.find_index (fun x => bool_decide (trace_id x = id)) (row_traces r);
  Some (index + length (row_findings r)).
(** [None]: the slice before the anchored line is out of range. *)
Definition evidence_scroll m (row : option traffic_row) (lines : list bytes) (width : N) : option N :=
  match anchored_line m row with
  | None => Some (Nav.diagnostics_scroll (TuiModel.nav m))
  | Some index =>
      if length lines <? index then None
      else
        let height := Z.min (Z.of_nat (length (wrap_evidence_lines (take index lines) width))) I64_MAX in
        Some (Z.to_N (Z.max 0 (Z.min MAXIMUM_SCROLL_OFFSET (height + EvidenceView.scroll (TuiModel.evidence_view m)))))
  end.
Definition render_evidence m (a : rect) f : option frame :=
  let row := TuiModel.evidence_row m in
  let lines := evaluation_lines m row in
  let f := render_widget (BlockWidget (Block (bs "Findings / DecisionTrace | j/k select | Enter rule | z expand") DefaultStyle (border_of m Evidence))) a f in
  let '(inner, f) := render_context m row (block_inner a) f in
  let '(inner, f) := render_notice m row inner f in
  scroll ← evidence_scroll m row lines (rw inner);
  Some (render_widget (Paragraph None DefaultStyle (wrap_evidence_lines lines (rw inner)) false scroll) inner f).
Definition render_diagnostics m f : option frame :=
  let areas := split_area Vertical [Percentage DIAGNOSTICS_EVIDENCE_PERCENT; AtLeast DIAGNOSTICS_MINIMUM_LOG_ROWS;
                                    Exactly DIAGNOSTICS_STATISTICS_ROWS] (frame_area f) in
  top ← areas !! 0;
  f ← render_evidence m top f;
  middle ← areas !! 1;
  let f := render_operational_logs m middle f in
  bottom ← areas !! 2;
  Some (render_stats m bottom f).

(** ** The detail of a rule *)

Definition detail_header m (d : rule_detail) (width : N) : list bytes :=
  let '(session, transaction) := detail_identity d in
  let x := detail_snapshot d in
  let identity := match transaction with
    | None => bs "TCP Session: " ++ show_session session
    | Some id => bs "Transaction: " ++ show_transaction id ++ bs " | Session: " ++ show_session session end in
  [identity;
   bs "Evaluation #" ++ show_N (trace_id x) ++ bs " | generation=" ++ show_N (PolicyGeneration.get (policy_generation (trace_of x)))
     ++ bs " | stage=" ++ debug_stage (evaluated_stage (trace_of x))]
  ++ bounded_context_lines (replace_newlines (escape_terminal_bytes (detail_request d))) width 2
  ++ (if request_incomplete d then [bs "[Request context shortened by retention limit]"] else [])
  ++ [if TuiModel.detail_original_retained m
      then bs "Frozen evaluation view; forwarding and event delivery continue."
      else bs "Original evaluation evicted; this frozen detail remains. No replacement selected."].
(** [None]: the text of the detail panics. *)
Definition render_rule_detail m f : option frame :=
  match EvidenceView.detail (TuiModel.evidence_view m) with
  | None => Some f
  | Some d =>
      let a := frame_area f in
      let f := render_widget Clear a f in
      let title := bs "Rule detail (read-only) | Enter/q close | j/k/arrows/Pg scroll | Home top" in
      let inner := block_inner a in
      let f := render_widget (BlockWidget (Block title DefaultStyle Cyan)) a f in
      let header := wrap_evidence_lines (detail_header m d (rw inner)) (rw inner) in
      let height := N.min (sat16 (lenN header)) (rh inner) in
      let f := render_widget (Paragraph None DefaultStyle header false 0) (with_height inner height) f in
      let body := below inner height in
      lines ← drawn_detail (detail_snapshot d);
      let lines := wrap_evidence_lines lines (rw body) in
      let maximum_scroll := (lenN lines - rh body)%N in
      Some (render_widget (Paragraph None DefaultStyle lines false (N.min (detail_scroll_row d) (sat16 maximum_scroll))) body f)
  end.

(** * The editor *)

(** [None]: an area of the splits is missing. *)
Definition floating_area (a : rect) (width height : N) : option rect :=
  let vertical := split_area Vertical [Percentage ((100 - height) / 2); Percentage height; AtLeast 0] a in
  middle ← vertical !! 1;
  split_area Horizontal [Percentage ((100 - width) / 2); Percentage width; AtLeast 0] middle !! 1.
(** The editor keeps the row its view starts at. *)
Definition render_request_editor m f : option (frame * TuiModel.t) :=
  match Work.editor (TuiModel.work m) with
  | None => Some (f, m)
  | Some e =>
      a ← floating_area (frame_area f) EDITOR_WIDTH_PERCENT EDITOR_HEIGHT_PERCENT;
      let f := render_widget Clear a f in
      let areas := split_area Vertical [AtLeast EDITOR_MINIMUM_CONTENT_ROWS; Exactly EDITOR_STATUS_ROWS] a in
      content ← areas !! 0;
      let visible_columns := (rw content - 2)%N in
      let visible_rows := (rh content - 2)%N in
      let b := RequestEditor.buffer e in
      let '(lines, cursor_row, cursor_column) := editor_layout (buffer_lines b) (buffer_cursor b) visible_columns in
      let '(scroll, e) := RequestEditor.keep_cursor_visible e cursor_row visible_rows in
      let title := bs "HTTP/1.1 Request Editor [" ++ debug_editor_mode (RequestEditor.mode e) ++ bs "]" in
      let f := render_widget (Paragraph (Some (Block title Yellow Cyan)) DefaultStyle lines false scroll) content f in
      status_area ← areas !! 1;
      let f := render_widget (Paragraph (Some (plain_block (bs "Typed edit — start line and framing headers are protected"))) DefaultStyle
                 [RequestEditor.status e] false 0) status_area f in
      let f := if ((0 <? visible_columns) && (0 <? visible_rows) && (scroll <=? cursor_row) && (cursor_row <? sat16 (scroll + visible_rows)))%N
               then set_cursor_position (sat16 (sat16 (rx content + 1) + cursor_column), sat16 (sat16 (ry content + 1) + (cursor_row - scroll))) f
               else f in
      Some (f, TuiModel.with_work m (Work.with_editor (TuiModel.work m) (Some e) (Work.target (TuiModel.work m))))
  end.

(** * A frame *)

Definition render_expanded_pane m (pane : focus_pane) f : option frame :=
  a ← floating_area (frame_area f) EXPANDED_PANE_WIDTH_PERCENT EXPANDED_PANE_HEIGHT_PERCENT;
  let f := render_widget Clear a f in
  match pane with
  | Flows => Some (render_flows m a f)
  | Detail => Some (render_side m (Nav.side (TuiModel.nav m)) a f)
  | Evidence => render_evidence m a f
  | Logs => Some (render_operational_logs m a f)
  | RepeatWorkspaces => Some (render_repeat_workspaces m a f)
  | RepeatDetail => Some (render_repeat_side m (Nav.side (TuiModel.nav m)) a f)
  end.
Definition render_page m f : option frame :=
  match Nav.page (TuiModel.nav m) with
  | TrafficPage => render_traffic m f
  | DiagnosticsPage => render_diagnostics m f
  | RepeatPage => render_repeat m f
  end.
(** [None]: rendering panics. *)
Definition render m f : option (frame * TuiModel.t) :=
  if ((rw (frame_area f) <? MINIMUM_WIDTH) || (rh (frame_area f) <? MINIMUM_HEIGHT))%N then Some (render_minimum_size f, m)
  else
    f ← render_page m f;
    f ← match Nav.expanded_pane (TuiModel.nav m) with Some pane => render_expanded_pane m pane f | None => Some f end;
    f ← render_rule_detail m f;
    render_request_editor m f.
End Screen.

(** * Laws of the layout *)

(** [b] lies in [a]. *)
Definition inside (a b : rect) : Prop :=
  (rx a <= rx b /\ rx b + rw b <= rx a + rw a /\ ry a <= ry b /\ ry b + rh b <= ry a + rh a)%N.
#[export] Instance inside_preorder : PreOrder inside.
Proof. split; [intros a|intros a b c]; unfold inside; lia. Qed.
(** An area has a part for each constraint, and a block is drawn around its inside. *)
Class LayoutLaws `{Layouts} : Prop := {
  split_length d cs a : length (split_area d cs a) = length cs;
  split_inside d cs a : Forall (inside a) (split_area d cs a);
  inner_inside a : inside a (block_inner a) }.
(** Cells are numbered with 16 bits. *)
Definition fits (a : rect) : Prop := (rx a + rw a <= 65535 /\ ry a + rh a <= 65535)%N.
Lemma inside_fits a b : inside a b -> fits a -> fits b.
Proof. unfold inside, fits. lia. Qed.
Lemma with_height_inside a h : (h <= rh a)%N -> inside a (with_height a h).
Proof. unfold inside. cbn. lia. Qed.
Lemma below_inside a h : fits a -> (h <= rh a)%N -> inside a (below a h).
Proof. unfold fits, inside, below, sat16. cbn. lia. Qed.
Lemma split_nth `{LayoutLaws} d cs a i : i < length cs -> exists b, split_area d cs a !! i = Some b /\ inside a b.
Proof.
  intros Hi. rewrite <-(split_length d cs a) in Hi. apply lookup_lt_is_Some in Hi as [b Hb]. exists b. split; [done|].
  pose proof (split_inside d cs a) as HF. rewrite Forall_forall in HF. by eapply HF, list_elem_of_lookup_2.
Qed.
Lemma floating_inside `{LayoutLaws} a width height : exists b, floating_area a width height = Some b /\ inside a b.
Proof.
  unfold floating_area. edestruct (split_nth Vertical) as (middle & -> & Hm); [|cbn [mbind option_bind]].
  2: { edestruct (split_nth Horizontal) as (b & -> & Hb); [|exists b; split; [done|by transitivity middle]]. cbn. lia. }
  cbn. lia.
Qed.

(** * Drawing inside a frame *)

(** [f'] is [f] with more widgets, inside [a]. *)
Definition draws (a : rect) (f f' : frame) : Prop :=
  frame_area f' = frame_area f /\ caret f' = caret f /\
  exists l, drawn f' = drawn f ++ l /\ Forall (fun d => inside a d.1) l.
#[export] Instance draws_preorder a : PreOrder (draws a).
Proof.
  split; [intros f|intros f g h (Ha & Hc & l & Hl & HF) (Ha' & Hc' & l' & Hl' & HF')].
  - split; [done|]. split; [done|]. exists []. by rewrite app_nil_r.
  - split; [congruence|]. split; [congruence|]. exists (l ++ l'). rewrite Hl', Hl, app_assoc. split; [done|]. by apply Forall_app.
Qed.
Lemma draws_widget a w b f : inside a b -> draws a f (render_widget w b f).
Proof. intros Hb. split; [done|]. split; [done|]. exists [(b, w)]. split; [done|]. by constructor. Qed.
Lemma draws_inside a b f f' : inside a b -> draws b f f' -> draws a f f'.
Proof.
  intros Hb (? & ? & l & ? & HF). split; [done|]. split; [done|]. exists l. split; [done|].
  eapply Forall_impl; [exact HF|]. intros d ?. by transitivity b.
Qed.
(** [r] succeeds, drawing inside [a]. *)
Definition renders (a : rect) (f : frame) (r : option frame) : Prop := exists f', r = Some f' /\ draws a f f'.
Lemma renders_some a f f' : draws a f f' -> renders a f (Some f').
Proof. by exists f'. Qed.
Lemma renders_bind a f (r : option frame) k :
  renders a f r -> (forall f', draws a f f' -> renders a f' (k f')) -> renders a f (r ≫= k).
Proof. intros (f' & -> & Hf) Hk. destruct (Hk f' Hf) as (g & Hg & Hd). exists g. split; [done|]. by transitivity f'. Qed.
(** A part of a split, and what is drawn in it. *)
Lemma renders_split `{LayoutLaws} a f d cs b i k :
  i < length cs -> (forall c, inside b c -> renders a f (k c)) -> renders a f (split_area d cs b !! i ≫= k).
Proof. intros Hi Hk. destruct (split_nth d cs b i Hi) as (c & -> & Hc). by apply Hk. Qed.

Section Rendering.
Context `{IpNet, HeaderIter, HttpLibrary, TextBuffer, StatusReasons, !DefinitionJson, JsonText, Graphemes, LayoutLaws}.
Context (show_session : session_id -> bytes) (show_transaction : transaction_id -> bytes).
Implicit Types (m : TuiModel.t) (f : frame).
Lemma flows_draws m a f : draws a f (render_flows show_session show_transaction m a f).
Proof. by apply draws_widget. Qed.
Lemma side_draws m side a f : draws a f (render_side m side a f).
Proof. unfold render_side. destruct (Store.selected_row _); by apply draws_widget. Qed.
Lemma repeat_side_draws m side a f : draws a f (render_repeat_side m side a f).
Proof. unfold render_repeat_side. destruct (match side with RequestSide => _ | ResponseSide => _ end); by apply draws_widget. Qed.
(** A pane in a part of the area, then the rest. *)
Lemma renders_pane a b f f' k : inside a b -> draws b f f' -> renders a f' k -> renders a f k.
Proof. intros Hb Hf (g & -> & Hg). exists g. split; [done|]. transitivity f'; [by eapply draws_inside|done]. Qed.
Lemma traffic_renders m f : renders (frame_area f) f (render_traffic show_session show_transaction m f).
Proof.
  set (a := frame_area f). unfold render_traffic. cbv zeta. apply renders_split; [cbn; lia|intros top Htop].
  apply renders_split; [cbn; lia|intros bottom Hbottom]. eapply renders_pane; [exact Htop|apply flows_draws|].
  destruct (Nav.layout _).
  - apply renders_split; [cbn; lia|intros l Hl]. apply renders_split; [cbn; lia|intros r Hr].
    eapply (renders_pane _ l); [by transitivity bottom|apply side_draws|].
    apply renders_some. eapply (draws_inside _ r); [by transitivity bottom|apply side_draws].
  - apply renders_some. by eapply draws_inside, side_draws.
  - apply renders_some. by eapply draws_inside, side_draws.
Qed.
Lemma repeat_renders m f : renders (frame_area f) f (render_repeat show_transaction m f).
Proof.
  set (a := frame_area f). unfold render_repeat. cbv zeta. apply renders_split; [cbn; lia|intros top Htop].
  apply renders_split; [cbn; lia|intros bottom Hbottom]. eapply renders_pane; [exact Htop|by apply draws_widget|].
  apply renders_split; [cbn; lia|intros l Hl]. apply renders_split; [cbn; lia|intros r Hr].
  eapply (renders_pane _ l); [by transitivity bottom|apply repeat_side_draws|].
  apply renders_some. eapply (draws_inside _ r); [by transitivity bottom|apply repeat_side_draws].
Qed.
Lemma context_draws m row a f : fits a ->
  let '(b, f') := render_context show_transaction m row a f in inside a b /\ draws a f f'.
Proof.
  intros Hfits. unfold render_context. destruct (row ≫= _) as [r|]; [|by split]. cbv zeta.
  match goal with |- context [below a ?h] => assert (Hh : (h <= rh a)%N) by lia end.
  split; [by apply below_inside|]. by apply draws_widget, with_height_inside.
Qed.
Lemma notice_draws m row a f : fits a -> let '(b, f') := render_notice m row a f in inside a b /\ draws a f f'.
Proof.
  intros Hfits. unfold render_notice. destruct (TuiModel.evidence_missing m || _); [|by split]. cbv zeta.
  cbn [with_height rh]. split; [apply below_inside; [done|lia]|]. apply draws_widget, with_height_inside. lia.
Qed.
(** The anchored evaluation is one of the lines. *)
Lemma anchored_in_range m row i : anchored_line m row = Some i ->
  exists r x, row = Some r /\ row_traces r !! (i - length (row_findings r)) = Some x /\ EvidenceView.anchor (TuiModel.evidence_view m) = Some (trace_id x) /\
    length (row_findings r) <= i /\ i < length (evaluation_lines m row).
Proof.
  unfold anchored_line. destruct (EvidenceView.anchor _) as [id|]; [|done]. destruct row as [r|]; [|done]. cbn [mbind option_bind].
  destruct (Store.find_index _ _) as [index|] eqn:Ei; [|done]. intros [= <-].
  assert (Hx : exists x, row_traces r !! index = Some x /\ trace_id x = id).
  { revert index Ei. induction (row_traces r) as [|x l IH]; intros index Ei; cbn in Ei; [done|].
    destruct (bool_decide (trace_id x = id)) eqn:Eb; [injection Ei as <-; exists x; split; [done|by apply bool_decide_eq_true in Eb]|].
    destruct (Store.find_index _ l) as [j|] eqn:Ej; [|done]. injection Ei as <-. by apply IH. }
  destruct Hx as (x & Hx & Hid). exists r, x. rewrite Nat.add_sub. split; [done|]. split; [done|]. split; [by rewrite Hid|].
  split; [lia|]. unfold evaluation_lines. rewrite length_app, !length_map. apply lookup_lt_Some in Hx. lia.
Qed.
Lemma evidence_scroll_some m row width : exists n, evidence_scroll m row (evaluation_lines m row) width = Some n.
Proof.
  unfold evidence_scroll. destruct (anchored_line m row) as [i|] eqn:E; [|by eexists].
  destruct (anchored_in_range _ _ _ E) as (r & x & _ & _ & _ & _ & Hi). rewrite (proj2 (Nat.ltb_ge _ _)) by lia. by eexists.
Qed.
Lemma evidence_renders m a f : fits a -> renders a f (render_evidence show_transaction m a f).
Proof.
  intros Hfits. unfold render_evidence. cbv zeta. set (f1 := render_widget (BlockWidget _) a f).
  assert (D1 : draws a f f1) by (by apply draws_widget). pose proof (inner_inside a) as Hi.
  pose proof (context_draws m (TuiModel.evidence_row m) (block_inner a) f1 (inside_fits _ _ Hi Hfits)) as D2.
  destruct (render_context _ _ _ _ _) as [b f2]. destruct D2 as [Hb D2].
  pose proof (notice_draws m (TuiModel.evidence_row m) b f2 ltac:(eapply inside_fits, inside_fits; eassumption)) as D3.
  destruct (render_notice _ _ _ _) as [c f3]. destruct D3 as [Hc D3].
  assert (Hab : inside a b) by (by transitivity (block_inner a)). assert (Hac : inside a c) by (by transitivity b).
  destruct (evidence_scroll_some m (TuiModel.evidence_row m) (rw c)) as [n ->]. cbn [mbind option_bind]. apply renders_some.
  transitivity f1; [done|]. transitivity f2; [by apply (draws_inside _ _ _ _ Hi)|]. transitivity f3; [by apply (draws_inside _ _ _ _ Hab)|]. by apply draws_widget.
Qed.
Lemma renders_inside a b f r : inside a b -> renders b f r -> renders a f r.
Proof. intros Hb (f' & -> & Hf). exists f'. split; [done|by eapply draws_inside]. Qed.
Lemma diagnostics_renders m f : fits (frame_area f) -> renders (frame_area f) f (render_diagnostics show_transaction m f).
Proof.
  intros Hfits. set (a := frame_area f) in *. unfold render_diagnostics. cbv zeta. apply renders_split; [cbn; lia|intros top Htop].
  apply renders_bind; [eapply renders_inside; [exact Htop|]; apply evidence_renders; by eapply inside_fits|intros f' Hf'].
  apply renders_split; [cbn; lia|intros middle Hm]. apply renders_split; [cbn; lia|intros bottom Hb].
  eapply renders_pane; [exact Hm|by apply draws_widget|]. apply renders_some. by apply draws_widget.
Qed.
Lemma expanded_renders m pane f : fits (frame_area f) -> renders (frame_area f) f (render_expanded_pane show_session show_transaction m pane f).
Proof.
  intros Hfits. unfold render_expanded_pane. destruct (floating_inside (frame_area f) EXPANDED_PANE_WIDTH_PERCENT EXPANDED_PANE_HEIGHT_PERCENT) as (b & -> & Hb).
  cbn [mbind option_bind]. eapply renders_inside; [exact Hb|]. eapply renders_pane; [reflexivity|by apply draws_widget|].
  destruct pane; try (apply renders_some; first [apply side_draws|apply repeat_side_draws|by apply draws_widget]).
  apply evidence_renders. by eapply inside_fits.
Qed.
(** The open detail shows a decision with the definition its evaluator gave. *)
Definition drawable m : Prop :=
  forall d e, EvidenceView.detail (TuiModel.evidence_view m) = Some d -> trace_evidence (detail_snapshot d) = Some e ->
    evaluated_definition e.1.
Lemma detail_renders m f : fits (frame_area f) -> drawable m -> renders (frame_area f) f (render_rule_detail show_session show_transaction m f).
Proof.
  intros Hfits Hd. unfold render_rule_detail. destruct (EvidenceView.detail _) as [d|] eqn:E; [|by apply renders_some].
  assert (Hl : exists lines, drawn_detail (detail_snapshot d) = Some lines).
  { unfold drawn_detail. destruct (detail_some (detail_snapshot d)) as (l & ->); [intros e; by apply Hd|by eexists]. }
  destruct Hl as [lines Hl]. cbv zeta. rewrite Hl. cbn [mbind option_bind]. pose proof (inner_inside (frame_area f)) as Hi.
  match goal with |- context [below _ ?h] => assert (Hh : (h <= rh (block_inner (frame_area f)))%N) by lia end.
  apply renders_some. repeat (etransitivity; [|apply draws_widget]); try reflexivity.
  - transitivity (block_inner (frame_area f)); [done|by apply with_height_inside].
  - transitivity (block_inner (frame_area f)); [done|]. apply below_inside; [by eapply inside_fits|done].
Qed.

(** ** The caret *)

Lemma cursor_step_bounds width row column g : (0 < width <= 65535)%N -> (column < width)%N ->
  (snd (cursor_step width (row, column) g) < width)%N.
Proof.
  intros Hw Hc. unfold cursor_step, sat16. destruct (N.ltb_spec width (cell_width g)); [done|].
  destruct (N.ltb_spec 0 column); cbn [andb]; [destruct (N.ltb_spec width (N.min 65535 (column + cell_width g)))|];
    match goal with |- context [N.eqb ?a ?b] => destruct (N.eqb_spec a b) end; cbn; lia.
Qed.
Lemma wrapped_cursor_bounds prefix width : (0 < width <= 65535)%N -> (snd (wrapped_cursor prefix width) < width)%N.
Proof.
  intros Hw. unfold wrapped_cursor. rewrite (proj2 (N.eqb_neq _ _)) by lia.
  enough (Hgen : forall gs st, (st.2 < width)%N -> ((foldl (cursor_step width) st gs).2 < width)%N) by (apply Hgen; cbn; lia).
  induction gs as [|g gs IH]; intros [row column] Hst; cbn [foldl]; [done|]. by apply IH, cursor_step_bounds.
Qed.
Lemma editor_layout_bounds lines c width : (0 < width <= 65535)%N ->
  let '(_, row, column) := editor_layout lines c width in (row <= 65535 /\ column < width)%N.
Proof.
  intros Hw. unfold editor_layout. cbv zeta. match goal with |- context [wrapped_cursor ?p width] =>
    pose proof (wrapped_cursor_bounds p width Hw); destruct (wrapped_cursor p width) as [row column] end.
  unfold sat16. cbn [snd] in *. lia.
Qed.
(** The view is moved so that the row of the cursor is in it: all of the rows a draft can
    have but the last are reached. *)
Lemma keep_cursor_visible_shows e row rows : (0 < rows <= 65535)%N -> (row < 65535)%N ->
  let '(top, _) := RequestEditor.keep_cursor_visible e row rows in (top <= row < sat16 (top + rows))%N.
Proof.
  intros Hrows Hrow. unfold RequestEditor.keep_cursor_visible, sat16. rewrite (proj2 (N.eqb_neq _ _)) by lia. cbv zeta.
  destruct (N.ltb_spec row (RequestEditor.viewport_top e)); [lia|].
  destruct (N.leb_spec (N.min 65535 (RequestEditor.viewport_top e + rows)) row); lia.
Qed.
(** Where the draft is drawn. *)
Definition editor_content (a : rect) : option rect :=
  b ← floating_area a EDITOR_WIDTH_PERCENT EDITOR_HEIGHT_PERCENT;
  split_area Vertical [AtLeast EDITOR_MINIMUM_CONTENT_ROWS; Exactly EDITOR_STATUS_ROWS] b !! 0.
(** [f'] is [f] with more widgets inside its area, and perhaps a caret inside it. *)
Definition extends f f' : Prop :=
  frame_area f' = frame_area f /\ (exists l, drawn f' = drawn f ++ l /\ Forall (fun d => inside (frame_area f) d.1) l) /\
  forall x y, caret f' = Some (x, y) -> caret f = Some (x, y) \/
    (rx (frame_area f) < x < rx (frame_area f) + rw (frame_area f) /\ ry (frame_area f) < y < ry (frame_area f) + rh (frame_area f))%N.
(** The model but for the row the editor's view starts at. *)
Definition same_but_view m m' : Prop :=
  m' = m \/ exists e top, Work.editor (TuiModel.work m) = Some e /\
    m' = TuiModel.with_work m (Work.with_editor (TuiModel.work m) (Some (RequestEditor.with_viewport e top)) (Work.target (TuiModel.work m))).
Lemma draws_extends f f' : draws (frame_area f) f f' -> extends f f'.
Proof. intros (Ha & Hc & Hl). split; [done|]. split; [done|]. intros x y. rewrite Hc. by left. Qed.
Lemma editor_extends m f : fits (frame_area f) ->
  exists f' m', render_request_editor m f = Some (f', m') /\ extends f f' /\ same_but_view m m'.
Proof.
  intros Hfits. unfold render_request_editor. destruct (Work.editor (TuiModel.work m)) as [e|] eqn:Ee; cycle 1.
  { exists f, m. split; [done|]. split; [by apply draws_extends|by left]. }
  destruct (floating_inside (frame_area f) EDITOR_WIDTH_PERCENT EDITOR_HEIGHT_PERCENT) as (b & -> & Hb). cbn [mbind option_bind].
  destruct (split_nth Vertical [AtLeast EDITOR_MINIMUM_CONTENT_ROWS; Exactly EDITOR_STATUS_ROWS] b 0) as (content & -> & Hc); [cbn; lia|].
  destruct (split_nth Vertical [AtLeast EDITOR_MINIMUM_CONTENT_ROWS; Exactly EDITOR_STATUS_ROWS] b 1) as (status & Hs & Hsi); [cbn; lia|].
  cbn [mbind option_bind]. rewrite Hs. cbn [mbind option_bind].
  assert (Hfc : inside (frame_area f) content) by (by transitivity b). pose proof (inside_fits _ _ Hfc Hfits) as Hcf.
  pose proof (editor_layout_bounds (buffer_lines (RequestEditor.buffer e)) (buffer_cursor (RequestEditor.buffer e)) (rw content - 2)) as Hlayout.
  destruct (editor_layout _ _ _) as [[lines row] column].
  assert (Hview : exists top, RequestEditor.keep_cursor_visible e row (rh content - 2) = (top, RequestEditor.with_viewport e top)).
  { unfold RequestEditor.keep_cursor_visible. destruct (_ =? 0)%N; [|by eexists]. exists (RequestEditor.viewport_top e). by destruct e. }
  destruct Hview as (top & ->). cbv zeta. eexists _, _. split; [reflexivity|]. split; [|right; by exists e, top].
  match goal with |- extends f (if ?c then set_cursor_position ?p ?g else ?g) => set (g1 := g); set (shown := c);
    assert (Hg : draws (frame_area f) f g1) end.
  { repeat (etransitivity; [|apply draws_widget]); try reflexivity; [done|done|by transitivity b]. }
  destruct Hg as (Ha & Hcaret & Hl). destruct shown eqn:Eshown; [|by apply draws_extends].
  subst shown. rewrite !andb_true_iff, !N.ltb_lt, N.leb_le in Eshown. destruct Eshown as [[[Hcols Hrows] Htop] Hrow].
  unfold fits in Hcf. specialize (Hlayout ltac:(lia)). split; [exact Ha|]. split; [exact Hl|]. intros x y [= <- <-]. right.
  unfold sat16 in *. unfold inside in Hfc. lia.
Qed.
(** ** Frames *)

Definition too_small (a : rect) : bool := ((rw a <? MINIMUM_WIDTH) || (rh a <? MINIMUM_HEIGHT))%N.
Lemma page_renders m f : fits (frame_area f) -> renders (frame_area f) f (render_page show_session show_transaction m f).
Proof. intros Hfits. unfold render_page. destruct (Nav.page _); [apply traffic_renders|by apply diagnostics_renders|apply repeat_renders]. Qed.
Lemma overlays_render m f : fits (frame_area f) -> drawable m ->
  renders (frame_area f) f
    (g ← render_page show_session show_transaction m f;
     g ← match Nav.expanded_pane (TuiModel.nav m) with Some pane => render_expanded_pane show_session show_transaction m pane g | None => Some g end;
     render_rule_detail show_session show_transaction m g).
Proof.
  intros Hfits Hd. apply renders_bind; [by apply page_renders|]. intros f1 (A1 & _ & _).
  apply renders_bind; [|intros f2 (A2 & _ & _)].
  - rewrite <-A1. destruct (Nav.expanded_pane _); [apply expanded_renders; by rewrite A1|by apply renders_some].
  - assert (A : frame_area f2 = frame_area f) by congruence. rewrite <-A. apply detail_renders; [by rewrite A|done].
Qed.
Lemma render_stays m (a : rect) :
  fits a -> drawable m ->
  exists f' m', render show_session show_transaction m (Frame a [] None) = Some (f', m') /\
    frame_area f' = a /\ Forall (fun d => inside a d.1) (drawn f') /\
    (forall x y, caret f' = Some (x, y) -> (rx a < x < rx a + rw a /\ ry a < y < ry a + rh a)%N) /\
    same_but_view m m' /\
    (too_small a = true -> length (drawn f') = 1 /\ caret f' = None /\ m' = m).
Proof.
  intros Hfits Hd. unfold render. cbn [frame_area]. fold (too_small a). destruct (too_small a) eqn:Esmall.
  { eexists _, _. split; [reflexivity|]. split; [done|]. split; [by repeat constructor|]. split; [done|]. split; [by left|done]. }
  destruct (overlays_render m (Frame a [] None) Hfits Hd) as (f1 & Hf1 & D1).
  destruct (render_page _ _ _ _) as [g1|]; [|done]. cbn [mbind option_bind] in Hf1 |- *.
  destruct (match Nav.expanded_pane _ with Some _ => _ | None => _ end) as [g2|]; [|done]. cbn [mbind option_bind] in Hf1 |- *. rewrite Hf1.
  destruct D1 as (Ha & Hc & l & Hl & HF). cbn in Ha, Hc, Hl, HF.
  destruct (editor_extends m f1) as (f' & m' & Hr & (Ha' & (l' & Hl' & HF') & Hcaret) & Hm); [by rewrite Ha|].
  exists f', m'. split; [exact Hr|]. rewrite Ha in *. split; [done|]. split; [rewrite Hl', Hl; by apply Forall_app|].
  split; [|done]. intros x y Hx. destruct (Hcaret x y Hx) as [Hx'|Hx']; [congruence|done].
Qed.
(** C22. Drawing stays on the screen and never fails: whatever the terminal holds, a frame
    is drawn without an index or a slice out of range, every widget of it within the
    frame and the caret strictly inside it; below 80 by 24 cells it is only the notice
    that says so; and nothing of the model changes but the row at which the editor's view
    starts. *)
Theorem frames_stay_on_screen m (a : rect) :
  fits a -> drawable m ->
  exists f' m', render show_session show_transaction m (Frame a [] None) = Some (f', m') /\
    frame_area f' = a /\ Forall (fun d => inside a d.1) (drawn f') /\
    (forall x y, caret f' = Some (x, y) -> (rx a < x < rx a + rw a /\ ry a < y < ry a + rh a)%N) /\
    same_but_view m m' /\
    (too_small a = true -> length (drawn f') = 1 /\ caret f' = None /\ m' = m).
Proof. apply render_stays. Qed.
Lemma scroll_of_height h : (N.of_nat h <= 65535)%N -> N.to_nat (Z.to_N (Z.max 0 (Z.min MAXIMUM_SCROLL_OFFSET (Z.min (Z.of_nat h) I64_MAX + 0)))) = h.
Proof. unfold MAXIMUM_SCROLL_OFFSET, I64_MAX. lia. Qed.
(** Whatever the width, the view of the evaluations starts at the one it is anchored to:
    the row of the screen below the context is the first row of its decision, as long as
    the rows before it can be counted with 16 bits. *)
Theorem evaluations_stay_anchored m (row : option traffic_row) (width : N) (i : nat) :
  (0 < width)%N -> anchored_line m row = Some i -> EvidenceView.scroll (TuiModel.evidence_view m) = 0%Z ->
  (lenN (wrap_evidence_lines (take i (evaluation_lines m row)) width) <= 65535)%N ->
  exists x rest n, EvidenceView.anchor (TuiModel.evidence_view m) = Some (trace_id x) /\
    evidence_scroll m row (evaluation_lines m row) width = Some n /\
    drop (N.to_nat n) (wrap_evidence_lines (evaluation_lines m row) width)
      = wrap_evidence_line width (trace_line (trace_id <$> TuiModel.selected_evaluation m) x) ++ rest.
Proof.
  intros Hw Hi Hscroll Hlen. pose proof (anchored_in_range _ _ _ Hi) as (r & x & -> & Hx & Hanchor & Hge & Hlt).
  unfold evidence_scroll. rewrite Hi, (proj2 (Nat.ltb_ge _ _)), Hscroll by lia.
  assert (Hline : evaluation_lines m (Some r) !! i = Some (trace_line (trace_id <$> TuiModel.selected_evaluation m) x)).
  { unfold evaluation_lines. rewrite lookup_app_r by (by rewrite length_map). by rewrite length_map, list_lookup_fmap, Hx. }
  exists x, (drop (S i) (evaluation_lines m (Some r)) ≫= wrap_evidence_line width). eexists. split; [done|]. split; [reflexivity|].
  rewrite (scroll_of_height _ Hlen). unfold wrap_evidence_lines. rewrite (proj2 (N.eqb_neq _ _)) by lia.
  rewrite <-(take_drop_middle _ _ _ Hline) at 2. rewrite bind_app, drop_app_length. done.
Qed.
(** The caret is always drawn: when the area of the draft has room, and the draft has fewer
    rows before the caret than 16 bits count, the caret is shown at its own column and
    row of the text, the view having moved if it must. *)
Theorem caret_is_drawn m (a content : rect) e :
  fits a -> drawable m -> too_small a = false -> Work.editor (TuiModel.work m) = Some e ->
  editor_content a = Some content -> (2 < rw content)%N -> (2 < rh content)%N ->
  let '(lines, row, column) := editor_layout (buffer_lines (RequestEditor.buffer e)) (buffer_cursor (RequestEditor.buffer e)) (rw content - 2) in
  (row < 65535)%N ->
  exists f' m' top, render show_session show_transaction m (Frame a [] None) = Some (f', m') /\
    caret f' = Some (rx content + 1 + column, ry content + 1 + (row - top))%N /\
    (top <= row < top + (rh content - 2))%N /\
    exists title, (content, Paragraph (Some title) DefaultStyle lines false top) ∈ drawn f'.
Proof.
  intros Hfits Hd Hbig He Hcontent Hcols Hrows. unfold editor_content in Hcontent.
  destruct (floating_inside a EDITOR_WIDTH_PERCENT EDITOR_HEIGHT_PERCENT) as (b & Hb & Hbi). rewrite Hb in Hcontent. cbn [mbind option_bind] in Hcontent.
  destruct (split_nth Vertical [AtLeast EDITOR_MINIMUM_CONTENT_ROWS; Exactly EDITOR_STATUS_ROWS] b 1) as (status & Hs & _); [cbn; lia|].
  assert (Hcf : fits content).
  { eapply inside_fits; [|exact Hfits]. transitivity b; [done|]. pose proof (split_inside Vertical [AtLeast EDITOR_MINIMUM_CONTENT_ROWS; Exactly EDITOR_STATUS_ROWS] b) as HF.
    rewrite Forall_forall in HF. by eapply HF, list_elem_of_lookup_2. }
  pose proof (editor_layout_bounds (buffer_lines (RequestEditor.buffer e)) (buffer_cursor (RequestEditor.buffer e)) (rw content - 2)) as Hlayout.
  destruct (editor_layout _ _ _) as [[lines row] column] eqn:El. intros Hrow. unfold fits in Hcf. specialize (Hlayout ltac:(lia)).
  destruct (overlays_render m (Frame a [] None) Hfits Hd) as (f1 & Hf1 & Ha & _ & _). unfold render. cbn [frame_area] in *. fold (too_small a). rewrite Hbig.
  destruct (render_page _ _ _ _) as [g1|]; [|done]. cbn [mbind option_bind] in Hf1 |- *.
  destruct (match Nav.expanded_pane _ with Some _ => _ | None => _ end) as [g2|]; [|done]. cbn [mbind option_bind] in Hf1 |- *. rewrite Hf1.
  cbn [mbind option_bind]. unfold render_request_editor. rewrite He, Ha, Hb. cbn [mbind option_bind]. rewrite Hcontent, Hs. cbn [mbind option_bind]. rewrite El.
  pose proof (keep_cursor_visible_shows e row (rh content - 2) ltac:(lia) Hrow) as Hview.
  destruct (RequestEditor.keep_cursor_visible e row (rh content - 2)) as [top e']. cbv zeta.
  assert (Hshown : ((0 <? rw content - 2) && (0 <? rh content - 2) && (top <=? row) && (row <? sat16 (top + (rh content - 2))))%N = true).
  { rewrite !andb_true_iff, !N.ltb_lt, N.leb_le. lia. }
  rewrite Hshown. eexists _, _, top. split; [reflexivity|]. unfold sat16 in *. split.
  { unfold set_cursor_position. cbn [caret]. apply (f_equal Some). apply pair_equal_spec. split; lia. }
  split; [lia|]. eexists. cbn [drawn set_cursor_position render_widget]. rewrite !elem_of_app. left. right. by left.
Qed.
End Rendering.

(** * A screen of 80 by 24 cells *)
Module Example_screen.
#[local] Existing Instance host_nets.
#[local] Existing Instance Example_http.list_headers.
#[local] Existing Instance Example_http.list_iter.
#[local] Existing Instance Example_editor.library.
#[local] Existing Instance Example_editor.line_parser.
#[local] Existing Instance Example_terminal.typing_buffer.
#[local] Existing Instance Example_terminal.reasons.
#[local] Existing Instance Example_text.no_json.
#[local] Existing Instance Example_text.one_cell.
#[local] Instance no_definitions : DefinitionJson := {| json_pieces := fun _ => ([], true) |}.
(** Parts from the top or the left, the last one with what is left. *)
Definition size_of (total : N) (c : constraint) : N :=
  match c with Percentage n => total * n / 100 | AtLeast n | Exactly n => n end.
Fixpoint sizes (total left : N) (cs : list constraint) : list N :=
  match cs with
  | [] => []
  | [_] => [left]
  | c :: cs => let n := N.min left (size_of total c) in n :: sizes total (left - n) cs
  end.
Fixpoint stack (place : N -> N -> rect) (offset : N) (ns : list N) : list rect :=
  match ns with [] => [] | n :: ns => place offset n :: stack place (offset + n) ns end.
Definition extent (d : layout_direction) (a : rect) : N := match d with Horizontal => rw a | Vertical => rh a end.
Definition placed (d : layout_direction) (a : rect) (offset n : N) : rect :=
  match d with
  | Horizontal => Rect (rx a + offset) (ry a) n (rh a)
  | Vertical => Rect (rx a) (ry a + offset) (rw a) n
  end.
#[local] Instance stacked : Layouts := {|
  split_area := fun d cs a => stack (placed d a) 0 (sizes (extent d a) (extent d a) cs);
  block_inner := fun a => if ((rw a <? 2) || (rh a <? 2))%N then Rect (rx a) (ry a) 0 0
                          else Rect (rx a + 1) (ry a + 1) (rw a - 2) (rh a - 2) |}.
Lemma sizes_length total cs : forall left, length (sizes total left cs) = length cs.
Proof. induction cs as [|c [|c' cs] IH]; intros left; [done..|]. cbn [sizes length]. f_equal. apply IH. Qed.
Lemma stack_length place ns : forall offset, length (stack place offset ns) = length ns.
Proof. induction ns as [|n ns IH]; intros offset; [done|]. cbn. f_equal. apply IH. Qed.
Lemma stack_inside d a total cs : forall left offset, (offset + left <= extent d a)%N ->
  Forall (inside a) (stack (placed d a) offset (sizes total left cs)).
Proof.
  induction cs as [|c [|c' cs] IH]; intros left offset Hle; [constructor|..].
  - repeat constructor; destruct d; cbn in *; lia.
  - change (sizes total left (c :: c' :: cs)) with (N.min left (size_of total c) :: sizes total (left - N.min left (size_of total c)) (c' :: cs)).
    generalize (size_of total c). intros n. cbn [stack]. constructor; [destruct d; cbn in *; repeat split; cbn; lia|]. apply IH. lia.
Qed.
#[local] Instance stacked_laws : LayoutLaws.
Proof.
  split.
  - intros. cbn. by rewrite stack_length, sizes_length.
  - intros. cbn. apply stack_inside. lia.
  - intros a. cbn. destruct (N.ltb_spec (rw a) 2), (N.ltb_spec (rh a) 2); cbn; repeat split; cbn; lia.
Qed.
Definition screen : rect := Rect 0 0 80 24.
(** A paused request of which the body is being edited. *)
Definition editing : TuiModel.t :=
  model (run_tui Example_terminal.show_id (Example_terminal.console_of 4)
    [Example_terminal.quiet [Example_terminal.request 7%N (bs "old")] (Example_terminal.typed (bs "i"))]).2.
Definition shown (a : rect) : option (frame * TuiModel.t) := render show_N show_N editing (Frame a [] None).
(** The list of flows and the two sides, then the editor over them, its caret at the start
    of the draft. *)
Example editor_over_traffic :
  (fun r => (map fst (drawn r.1), caret r.1)) <$> shown screen
  = Some ([Rect 0 0 80 6; Rect 0 6 40 18; Rect 40 6 40 18; Rect 1 0 76 22; Rect 1 0 76 4; Rect 1 4 76 18], Some (2, 1)%N).
Proof. vm_compute. reflexivity. Qed.
Example flows_list :
  (fun r => (fun d => match d.2 with ItemList _ l _ => l | _ => [] end) <$> head (drawn r.1)) <$> shown screen
  = Some (Some [bs "HTTP paused 7 POST /submit HTTP/1.1"]).
Proof. vm_compute. reflexivity. Qed.
Example notice_when_small :
  (fun r => map (fun d => match d.2 with Paragraph _ _ l _ _ => l | _ => [] end) (drawn r.1)) <$> shown (Rect 0 0 79 24)
  = Some [[bs "Freja TUI requires at least 80x24; current size is 79x24"]].
Proof. vm_compute. reflexivity. Qed.
Lemma nothing_open : drawable editing.
Proof. intros d e Hd. assert (Hnone : EvidenceView.detail (TuiModel.evidence_view editing) = None) by (vm_compute; reflexivity). congruence. Qed.
Lemma six_widgets r : shown screen = Some r -> length (drawn r.1) = 6.
Proof.
  intros Hr. assert (Hlen : (fun r => length (drawn r.1)) <$> shown screen = Some 6) by (vm_compute; reflexivity).
  rewrite Hr in Hlen. by injection Hlen.
Qed.
Lemma frames_stay_on_screen_witness :
  exists f' m', shown screen = Some (f', m') /\ frame_area f' = screen /\ Forall (fun d => inside screen d.1) (drawn f') /\ length (drawn f') = 6.
Proof.
  destruct (frames_stay_on_screen show_N show_N editing screen ltac:(split; cbn; lia) nothing_open)
    as (f' & m' & Hr & Ha & Hin & _). exists f', m'. split; [exact Hr|]. split; [exact Ha|]. split; [exact Hin|].
  exact (six_widgets _ Hr).
Defined.
End Example_screen.
