(* ===== verification/UiLoop.v ===== *)
(** The terminal's thread (crates/freja-ui/src/tui/runtime.rs, tui/terminal.rs,
    tui/input.rs): the terminal taken over and restored, the faults of drawing and of
    reading keys, and what a whole run draws.  A run never panics: every definition it
    draws came with a decision of an evaluator. *)
From stdpp Require Import gmap strings.
From stdpp Require Import prelude.
From S2P Require Import Prelude Bytes Net Endpoint Domain PolicyModel Acl Guard Inspection Evidence AuditModel AuditSink Hooks Runtime Settings HttpHeaders Tls HttpMessages HttpRepeat UiEvents UiEditor UiModel UiInput UiSafety UiTerminal UiText UiDetail Text UiPaused UiRoundTrip UiScreen.

#[local] Create HintDb vouched.
(** * Where the definitions on the screen come from *)

Section Provenance.
Context `{IpNet, HeaderIter, HttpLibrary, TextBuffer, HeadParser, StatusReasons}.
(** What is known of every definition the terminal receives. *)
Context (P : rule_definition * enforcement_mode -> Prop).
Implicit Types (m : TuiModel.t) (s : Store.t) (c : console).
Definition vouched_trace (x : trace_snapshot) : Prop := forall e, trace_evidence x = Some e -> P e.
Definition vouched_row (r : traffic_row) : Prop := Forall vouched_trace (row_traces r).
Definition vouched_store s : Prop := Forall vouched_row (Store.rows s).
Definition vouched_detail m : Prop := forall d, EvidenceView.detail (TuiModel.evidence_view m) = Some d -> vouched_trace (detail_snapshot d).
Definition vouched m : Prop := vouched_store (TuiModel.store m) /\ vouched_detail m.
Definition vouched_event (e : UiEvent.t) : Prop :=
  match e with UiEvent.DecisionMade _ _ _ evidence _ => forall d, evidence = Some d -> P d | _ => True end.

(** ** Rows *)

Lemma vouched_same s s' : Store.rows s' = Store.rows s -> vouched_store s -> vouched_store s'.
Proof. unfold vouched_store. by intros ->. Qed.
Lemma vouched_update s i f : (forall r, vouched_row r -> vouched_row (f r)) -> vouched_store s -> vouched_store (Store.update_row s i f).
Proof. intros Hf Hs. unfold vouched_store, Store.update_row. cbn. apply Forall_alter; [done|]. intros; by apply Hf. Qed.
Lemma vouched_map s f : (forall r, vouched_row r -> vouched_row (f r)) -> vouched_store s -> vouched_store (Store.with_rows s (map f (Store.rows s))).
Proof. intros Hf Hs. unfold vouched_store. cbn. apply Forall_map. eapply Forall_impl; [exact Hs|]. intros r. apply Hf. Qed.
Lemma vouched_push p s (r : traffic_row) : row_traces r = [] -> vouched_store s -> vouched_store (Store.push_row_evicting p s r).2.
Proof.
  intros Hr Hs. assert (Hrow : vouched_row r) by (unfold vouched_row; by rewrite Hr).
  assert (Happ : forall s', vouched_store s' -> vouched_store (Store.append_row s' r).2).
  { intros s' Hs'. unfold vouched_store. cbn. by apply Forall_app; repeat constructor. }
  unfold Store.push_row_evicting. case_decide; [|by apply Happ]. destruct (Store.find_index _ _); [|done]. apply Happ.
  unfold Store.evict. case_match; unfold vouched_store; cbn; by apply Forall_delete.
Qed.
Lemma empty_row_traces x tx k meta : row_traces (empty_row x tx k meta) = [].
Proof. unfold empty_row. by destruct (default _ meta). Qed.
Lemma vouched_http s x tx : vouched_store s -> vouched_store (Store.ensure_http_row s x tx).2.
Proof. intros Hs. unfold Store.ensure_http_row. case_match; [done|]. by apply vouched_push; [apply empty_row_traces|]. Qed.
Lemma vouched_paused s x tx : vouched_store s -> vouched_store (Store.ensure_paused_http_row s x tx).2.
Proof. intros Hs. unfold Store.ensure_paused_http_row. case_match; [done|]. by apply vouched_push; [apply empty_row_traces|]. Qed.
Lemma vouched_tcp s x : vouched_store s -> vouched_store (Store.ensure_tcp_row s x).2.
Proof. intros Hs. unfold Store.ensure_tcp_row. case_match; [done|]. by apply vouched_push; [apply empty_row_traces|]. Qed.
Lemma vouched_correlated s x tx : vouched_store s -> vouched_store (Store.ensure_correlated_row s x tx).2.
Proof. destruct tx; [apply vouched_http|apply vouched_tcp]. Qed.
Lemma vouched_close s x up down : vouched_store s -> vouched_store (Store.close_session s x up down).
Proof.
  intros Hs. unfold Store.close_session.
  assert (Hmap : vouched_store (Store.with_rows s (map (fun r => if decide (row_session r = x) then close_row r up down else r) (Store.rows s)))).
  { apply vouched_map; [|done]. intros r Hr. by case_decide. }
  match goal with |- vouched_store (Store.with_sessions ?t _) => apply (vouched_same t); [done|] end. case_match; [done|].
  pose proof (vouched_tcp _ x Hmap) as Htcp. destruct (Store.ensure_tcp_row _ _) as [[i|] s']; cbn in Htcp; [|done].
  by apply vouched_update.
Qed.
Hint Resolve vouched_http vouched_paused vouched_tcp vouched_correlated : vouched.

(** ** The model *)

Definition keeps m m' : Prop := vouched m -> vouched m'.
#[export] Instance keeps_preorder : PreOrder keeps.
Proof. split; [by intros m Hm|intros a b d Hab Hbd Ha; by apply Hbd, Hab]. Qed.
(** The same rows, and the detail that was open or none. *)
Lemma keeps_same m m' : Store.rows (TuiModel.store m') = Store.rows (TuiModel.store m) ->
  EvidenceView.detail (TuiModel.evidence_view m') = EvidenceView.detail (TuiModel.evidence_view m) -> keeps m m'.
Proof. intros Hr Hd [Hs Hv]. split; [by eapply vouched_same|]. intros d. rewrite Hd. apply Hv. Qed.
Lemma keeps_detail m v : (forall d, EvidenceView.detail v = Some d -> vouched m -> vouched_trace (detail_snapshot d)) -> keeps m (TuiModel.with_view m v).
Proof. intros Hv Hm. destruct Hm as [Hs Hd]. split; [done|]. intros d E. by apply Hv. Qed.
Lemma keeps_closed m v : EvidenceView.detail v = None -> keeps m (TuiModel.with_view m v).
Proof. intros Hv. apply keeps_detail. intros d. by rewrite Hv. Qed.
Lemma keeps_store m s : (vouched_store (TuiModel.store m) -> vouched_store s) -> keeps m (TuiModel.with_store m s).
Proof. intros Hs [? ?]. split; [by apply Hs|done]. Qed.
Lemma keeps_row m (o : option nat * Store.t) f :
  (vouched_store (TuiModel.store m) -> vouched_store o.2) -> (forall i s, vouched_store s -> vouched_store (f i s)) -> keeps m (TuiModel.on_row m o f).
Proof. intros Ho Hf. apply keeps_store. intros Hs%Ho. destruct o as [[i|] s]; cbn in *; [by apply Hf|done]. Qed.
Lemma vouched_side i d f s : vouched_store s -> vouched_store (TuiModel.on_side i d f s).
Proof. apply vouched_update. intros r Hr. by destruct d. Qed.
Lemma vouched_pushed r n tr (k : nat) t e : vouched_row r -> (forall d, e = Some d -> P d) -> vouched_row (with_traces r (push_bounded (row_traces r) (bounded n tr t e) k)).
Proof.
  intros Hr He. unfold vouched_row, push_bounded. cbn. apply Forall_app. split; [|by repeat constructor].
  unfold vouched_row in Hr. case_decide; [|done]. by destruct (row_traces r); inversion Hr.
Qed.
Lemma keeps_apply m e : vouched_event e -> keeps m (TuiModel.apply m e).
Proof.
  intros He. destruct e; cbn [TuiModel.apply].
  all: try (apply keeps_row; [eauto with vouched|intros i' s' Hs'; try (by apply vouched_side)]).
  all: try match goal with |- vouched_store (Store.with_selected ?t _) => apply (vouched_same t); [done|] end.
  all: try match goal with |- vouched_store (Store.count_truncation ?t _) => apply (vouched_same t); [done|by apply vouched_side] end.
  all: try match goal with |- vouched_store (Store.count_failure ?t) => apply (vouched_same t); [done|by apply vouched_side] end.
  all: try (apply vouched_update; [|done]; intros r Hr; first [done|by destruct (wire _)]).
  - by apply keeps_same.
  - apply keeps_store. intros Hs. apply (vouched_map (Store.with_sessions _ _)); [|done]. intros r Hr. by case_decide.
  - destruct (Store.ensure_correlated_row _ _ _) as [[i|] s'] eqn:E.
    2:{ apply keeps_store. intros Hs. by pose proof (vouched_correlated _ s x Hs) as Hs'; rewrite E in Hs'. }
    intros [Hs Hd]. pose proof (vouched_correlated _ s x Hs) as Hs'. rewrite E in Hs'. cbn in Hs'. destruct (checked_add _ 1); [|by split].
    split; [|exact Hd]. apply vouched_update; [|done]. intros r Hr. by apply vouched_pushed.
  - apply keeps_store, vouched_close.
Qed.
Lemma keeps_reset m : keeps m (TuiModel.reset_evidence_view m).
Proof. unfold TuiModel.reset_evidence_view. etransitivity; [|by apply keeps_same]. by apply keeps_closed. Qed.
(** The row under the operator's eyes changes, and on the diagnostics page what is shown. *)
Lemma keeps_moved m m' (b : Prop) `{Decision b} : Store.rows (TuiModel.store m') = Store.rows (TuiModel.store m) ->
  TuiModel.evidence_view m' = TuiModel.evidence_view m -> keeps m (if decide b then TuiModel.reset_evidence_view m' else m').
Proof. intros Hr Hv. transitivity m'; [apply keeps_same; [done|by rewrite Hv]|]. case_decide; [apply keeps_reset|reflexivity]. Qed.
Lemma keeps_select_previous m : keeps m (TuiModel.select_previous m).
Proof. unfold TuiModel.select_previous. destruct (Nav.page _); first [by apply keeps_moved|by apply keeps_same]. Qed.
Lemma keeps_select_next m : keeps m (TuiModel.select_next m).
Proof.
  unfold TuiModel.select_next. destruct (Nav.page _); (destruct (_ <? _); [|reflexivity]); first [by apply keeps_moved|by apply keeps_same].
Qed.
Lemma keeps_scroll_evidence m z : keeps m (TuiModel.scroll_evidence z m).2.
Proof. unfold TuiModel.scroll_evidence. case_decide; by apply keeps_same. Qed.
Lemma keeps_scroll_up m a : keeps m (TuiModel.scroll_up a m).
Proof.
  unfold TuiModel.scroll_up. pose proof (keeps_scroll_evidence m (- Z.of_N a)) as Hz. destruct (TuiModel.scroll_evidence _ m) as [[] m']; [done|].
  etransitivity; [exact Hz|by apply keeps_same].
Qed.
Lemma keeps_scroll_down m a : keeps m (TuiModel.scroll_down a m).
Proof.
  unfold TuiModel.scroll_down. pose proof (keeps_scroll_evidence m (Z.of_N a)) as Hz. destruct (TuiModel.scroll_evidence _ m) as [[] m']; [done|].
  etransitivity; [exact Hz|by apply keeps_same].
Qed.
Lemma keeps_select_evaluation m b : keeps m (TuiModel.select_evaluation b m).
Proof. unfold TuiModel.select_evaluation. repeat case_match; by apply keeps_same. Qed.
(** A detail is opened on a retained evaluation. *)
Lemma selected_vouched m x : TuiModel.selected_evaluation m = Some x -> vouched m -> vouched_trace x.
Proof.
  unfold TuiModel.selected_evaluation, TuiModel.evidence_row. intros Hx [Hs _]. destruct (EvidenceView.row _) as [id|]; [|done].
  cbn [mbind option_bind] in Hx. destruct (List.find _ _) as [r|] eqn:Er; [|done]. cbn [mbind option_bind] in Hx.
  apply find_some in Er as [Hin _]. unfold vouched_store in Hs. rewrite List.Forall_forall in Hs. specialize (Hs r Hin).
  unfold vouched_row in Hs. rewrite List.Forall_forall in Hs. destruct (EvidenceView.selected _).
  - apply find_some in Hx as [Hx _]. by apply Hs.
  - apply Hs. destruct (row_traces r); [done|]. injection Hx as ->. by left.
Qed.
Lemma keeps_open_detail m : keeps m (TuiModel.open_rule_detail m).
Proof.
  unfold TuiModel.open_rule_detail. destruct (TuiModel.selected_evaluation m) as [x|] eqn:E; [|by apply keeps_same]. case_match; [|by apply keeps_same].
  destruct (TuiModel.detail_context _). apply keeps_detail. intros d [= <-]. by apply selected_vouched.
Qed.
Lemma keeps_close_detail m : keeps m (TuiModel.close_rule_detail m).
Proof.
  unfold TuiModel.close_rule_detail. case_match; [by apply keeps_closed|]. etransitivity; [by apply (keeps_closed m (EvidenceView.with_detail (TuiModel.evidence_view m) None))|by apply keeps_same].
Qed.
Lemma keeps_edited m h b : keeps m (TuiModel.apply_edited_request m h b).
Proof. apply keeps_store. by apply vouched_update. Qed.
Lemma keeps_create_repeat m r : keeps m (TuiModel.create_repeat_workspace m r).2.
Proof. unfold TuiModel.create_repeat_workspace. repeat case_match; by apply keeps_same. Qed.
Lemma keeps_intercept m r : keeps m (TuiModel.apply_intercept_request m r).
Proof.
  unfold TuiModel.apply_intercept_request. apply keeps_row.
  - intros Hs. apply vouched_paused. by case_match.
  - intros i s Hs. apply (vouched_same (Store.update_row s i (fun row =>
      with_request (with_names row (row_client row) (uri_text (snap_uri (TuiModel.request_snapshot r)))) (with_whole_body (with_head (row_request row)
        (snap_method (TuiModel.request_snapshot r) ++ bs " " ++ uri_text (snap_uri (TuiModel.request_snapshot r)) ++ bs " " ++ snap_version (TuiModel.request_snapshot r))
        (hm_iter (snap_headers (TuiModel.request_snapshot r)))) (hm_iter (snap_headers (TuiModel.request_snapshot r))) (snap_body (TuiModel.request_snapshot r)))))); [done|].
    by apply vouched_update.
Qed.

(** ** The operator and the channels *)

Definition lasts c c' : Prop := keeps (model c) (model c').
#[export] Instance lasts_preorder : PreOrder lasts.
Proof. split; [by intros c Hc|intros a b d Hab Hbd Ha; by apply Hbd, Hab]. Qed.
Lemma lasts_same c c' : model c' = model c -> lasts c c'.
Proof. intros E. unfold lasts. by rewrite E. Qed.
Lemma lasts_if (b : bool) c c1 c2 : lasts c c1 -> lasts c c2 -> lasts c (if b then c1 else c2).
Proof. by destruct b. Qed.
Lemma lasts_respond l d c : lasts c (respond_selected l d c).2.
Proof. unfold respond_selected. repeat case_match; by apply lasts_same. Qed.
Lemma lasts_send_repeat l c : lasts c (send_repeat l c).
Proof. unfold send_repeat. repeat case_match; first [by apply lasts_same|by apply keeps_same]. Qed.
Lemma lasts_update_editor f c : lasts c (update_editor f c).
Proof. unfold update_editor. case_match; [by apply keeps_same|by apply lasts_same]. Qed.
Lemma lasts_close_editor c : lasts c (close_editor c).
Proof. by apply keeps_same. Qed.
Lemma lasts_create_repeat l c : lasts c (create_repeat_workspace l c).
Proof.
  unfold create_repeat_workspace, lasts. destruct (repeat_sender l); [|by apply keeps_same]. destruct (Store.selected_transaction _); [|reflexivity].
  destruct (Store.find_index _ _); [|by apply keeps_same]. destruct (pending c !! _) as [r|]; [|reflexivity].
  pose proof (keeps_create_repeat (model c) r) as Hm. destruct (TuiModel.create_repeat_workspace _ _) as [b m]. cbn [snd] in Hm.
  destruct b; [|exact Hm]. unfold answer. destruct (still_waits l _); [exact Hm|]. etransitivity; [exact Hm|by apply keeps_same].
Qed.
Lemma lasts_opened b c (o : result edit_error unit * TuiModel.t) : keeps (model c) o.2 -> lasts c (opened b c o).
Proof.
  destruct o as [[] m]; cbn; intros Hm; (transitivity (with_model c m); [exact Hm|]); [destruct b; [apply lasts_update_editor|reflexivity]|by apply keeps_same].
Qed.
Lemma lasts_open_request b c : lasts c (open_request_editor b c).
Proof.
  unfold open_request_editor. destruct (Store.selected_transaction _); [|reflexivity]. destruct (List.find _ _); [|reflexivity].
  apply lasts_opened. unfold TuiModel.open_request_editor. case_match; by apply keeps_same.
Qed.
Lemma lasts_open_repeat b c : lasts c (open_repeat_editor b c).
Proof. apply lasts_opened. unfold TuiModel.open_repeat_editor. repeat case_match; by apply keeps_same. Qed.
Lemma lasts_submit l c : lasts c (submit_editor l c).
Proof.
  unfold submit_editor. destruct (Work.editor _); [|reflexivity]. destruct (RequestEditor.submit _) as [s|]; [|apply lasts_update_editor].
  etransitivity; [|apply lasts_close_editor]. destruct (Work.target _) as [[|x]|]; [| |reflexivity].
  - pose proof (lasts_respond l (RequestEditor.decision s) c) as Hr. destruct (respond_selected _ _ _) as [[] c']; cbn in Hr; [|done].
    etransitivity; [exact Hr|]. apply keeps_edited.
  - etransitivity; [|apply lasts_send_repeat]. unfold lasts. by apply keeps_same.
Qed.
Lemma lasts_nav f c : lasts c (nav_model f c).
Proof. by apply keeps_same. Qed.
Lemma lasts_delete c : lasts c (delete_repeat c).
Proof. unfold delete_repeat. destruct (Work.delete_selected_repeat _) as [[] w]; by apply keeps_same. Qed.
Lemma lasts_on f c : (forall m, keeps m (f m)) -> lasts c (on_model f c).
Proof. intros Hf. apply Hf. Qed.
Hint Resolve lasts_respond lasts_send_repeat lasts_update_editor lasts_close_editor lasts_create_repeat lasts_open_request lasts_open_repeat
  lasts_submit lasts_nav lasts_delete keeps_select_previous keeps_select_next keeps_scroll_up keeps_scroll_down keeps_select_evaluation
  keeps_open_detail keeps_close_detail : vouched.
Hint Extern 2 (lasts ?c ?c) => reflexivity : vouched.
Hint Extern 3 (lasts _ (on_model _ _)) => apply lasts_on; intros ?; solve [auto with vouched | by apply keeps_same | etransitivity; [apply keeps_reset|by apply keeps_same]] : vouched.
Ltac each_case := repeat (apply lasts_if; [auto with vouched|]); auto with vouched.
Lemma lasts_editor_key l k c : lasts c (handle_editor_key l k c).
Proof.
  unfold handle_editor_key. apply lasts_if; [apply lasts_submit|]. destruct (Work.editor _) as [e|]; [|reflexivity]. destruct (RequestEditor.mode e).
  - unfold handle_editor_normal_key. each_case.
  - unfold handle_editor_insert_key. destruct (code k); auto with vouched. each_case.
Qed.
Lemma lasts_detail_key k d c : EvidenceView.detail (TuiModel.evidence_view (model c)) = Some d -> lasts c (handle_detail_key k d c).
Proof.
  intros Hd. unfold handle_detail_key. apply lasts_if; [auto with vouched|].
  repeat apply lasts_if; try reflexivity; apply keeps_detail; intros d' [= <-] [_ Hm]; by apply (Hm d).
Qed.
Lemma lasts_evidence_key k c c' : handle_evidence_key k c = Some c' -> lasts c c'.
Proof. unfold handle_evidence_key. repeat case_match; intros [= <-]; auto with vouched. Qed.
Lemma lasts_plain_key l k c : lasts c (handle_plain_key l k c).
Proof.
  unfold handle_plain_key. transitivity (on_model TuiModel.clear_input_notice c); [by apply keeps_same|]. set (c1 := on_model _ c).
  unfold handle_overlay_key, handle_expanded_key, handle_page_key. repeat apply lasts_if; auto with vouched.
Qed.
Lemma lasts_key l k c : lasts c (handle_key_with_repeat l k c).2.
Proof.
  unfold handle_key_with_repeat. destruct (negb (press k)); [reflexivity|]. destruct (is_exit_key k); [reflexivity|].
  destruct (Work.editor _); [apply lasts_editor_key|]. destruct (EvidenceView.detail _) eqn:E; [by apply lasts_detail_key|].
  cbn [snd]. match goal with |- lasts c match ?o with _ => _ end => destruct o as [c'|] eqn:Ek end; [|apply lasts_plain_key].
  destruct (bool_decide _ && _); [|done]. by eapply lasts_evidence_key.
Qed.
Lemma vouched_events l m : Forall vouched_event l -> keeps m (foldl TuiModel.apply m l).
Proof. intros Hl; revert m; induction Hl as [|e l He _ IH]; intros m; [reflexivity|]. cbn. etransitivity; [by apply keeps_apply|apply IH]. Qed.
Lemma lasts_intercepts l c : lasts c (drain_intercepts l c).
Proof.
  revert c; induction l as [|r l IH]; intros c; [reflexivity|]. unfold drain_intercepts. cbn [foldl].
  etransitivity; [|apply IH]. apply keeps_intercept.
Qed.
Lemma lasts_results l c : lasts c (drain_repeat_results l c).
Proof.
  revert c; induction l as [|r l IH]; intros c; [reflexivity|]. unfold drain_repeat_results. cbn [foldl].
  etransitivity; [|apply IH]. unfold lasts. by apply keeps_same.
Qed.
Lemma lasts_refresh show i c : Forall vouched_event (events i) -> lasts c (refresh show i c).
Proof.
  intros Hi. unfold refresh. set (c1 := with_model c _). transitivity c1; [by apply (vouched_events (events i) (model c))|].
  transitivity (drain_repeat_results (repeat_results i) (drain_intercepts (intercepts i) c1)).
  - etransitivity; [apply lasts_intercepts|apply lasts_results].
  - unfold lasts. by apply keeps_same.
Qed.
End Provenance.

(** * The thread *)

Inductive tui_error : Type :=
| TuiIo (operation : bytes)
| ThreadSpawn
| TuiModelFailed (e : tui_model_error).
Definition show_tui_model_error (e : tui_model_error) : bytes :=
  match e with
  | ZeroMaximumRows => bs "TUI maximum rows must be non-zero"
  | ZeroMaximumItemsPerRow => bs "TUI maximum items per row must be non-zero"
  end.
Definition show_tui_error (e : tui_error) : bytes :=
  match e with
  | TuiIo operation => bs "TUI " ++ operation ++ bs " failed"
  | ThreadSpawn => bs "failed to spawn dedicated TUI thread"
  | TuiModelFailed e => show_tui_model_error e
  end.
(** What the thread asks of the terminal, and its word to the process that it ends. *)
Inductive terminal_call : Type :=
| InitTerminal
| RestoreTerminal
| DrawFrame (f : frame)
| PollInput
| ReadInput
| NotifyExit.
(** [Terminal::draw]: whether it fails before it calls back, or while it writes. *)
Inductive draw_answer : Type := Drawn | ResizeFailed | WriteFailed.
Inductive input_answer : Type := PollFailed | NothingReady | ReadFailed | OtherInput | KeyInput (k : key_event).
Inductive thread_end : Type := Returned (r : result tui_error unit) | Panicked.

Section Thread.
Context `{IpNet, HeaderIter, HttpLibrary, TextBuffer, HeadParser, StatusReasons, !DefinitionJson, JsonText, Graphemes, Layouts}.
Context (show_session : session_id -> bytes) (show_transaction : transaction_id -> bytes).
Implicit Types (c : console).

(** One turn of the loop: what the channels hold (its [key] is what the terminal
    answers here), the cells of the terminal, and the terminal's answers. *)
Record turn : Type := Turn {
  brought : iteration;
  area : rect;
  draw_answered : draw_answer;
  input_answered : input_answer }.
Record progress : Type := Progress {
  calls : list terminal_call;
  state : console;
  ended : option thread_end }.
(** [handle_input]: whether the operator leaves. *)
Definition handle_input (l : links) (a : input_answer) (c : console) : list terminal_call * result tui_error bool * console :=
  match a with
  | PollFailed => ([PollInput], Err (TuiIo (bs "input poll")), c)
  | NothingReady => ([PollInput], Ok false, c)
  | ReadFailed => ([PollInput; ReadInput], Err (TuiIo (bs "input read")), c)
  | OtherInput => ([PollInput; ReadInput], Ok false, c)
  | KeyInput k =>
      let '(leaves, c) := if negb (press k) then (false, c) else handle_key_with_repeat l k c in
      ([PollInput; ReadInput], Ok leaves, c)
  end.
(** [TerminalGuard::draw], on the model as it then is. *)
Definition draw (t : turn) (c : console) : list terminal_call * option (result tui_error unit) * console :=
  match draw_answered t with
  | ResizeFailed => ([], Some (Err (TuiIo (bs "draw"))), c)
  | answer =>
      match render show_session show_transaction (model c) (Frame (area t) [] None) with
      | None => ([], None, c)
      | Some (f, m) =>
          ([DrawFrame f], Some match answer with WriteFailed => Err (TuiIo (bs "draw")) | _ => Ok tt end, with_model c m)
      end
  end.
Definition take_turn (t : turn) (c : console) : progress :=
  let c := refresh show_transaction (brought t) c in
  let '(drawing, drawn, c) := draw t c in
  match drawn with
  | None => Progress drawing c (Some Panicked)
  | Some (Err e) => Progress drawing c (Some (Returned (Err e)))
  | Some (Ok _) =>
      if disconnected (brought t) then Progress drawing c (Some (Returned (Ok tt)))
      else
        let '(reading, leaves, c) := handle_input (operator_links (brought t)) (input_answered t) c in
        Progress (drawing ++ reading) c
          match leaves with Ok true => Some (Returned (Ok tt)) | Ok false => None | Err e => Some (Returned (Err e)) end
  end.
Fixpoint turns (l : list turn) (c : console) : progress :=
  match l with
  | [] => Progress [] c None
  | t :: l =>
      let p := take_turn t c in
      match ended p with
      | Some _ => p
      | None => let q := turns l (state p) in Progress (calls p ++ calls q) (state q) (ended q)
      end
  end.
(** [TerminalGuard::enter], the loop, and the guard's [drop] however the loop ends. *)
Definition run_terminal (rows : nat) (init_succeeds : bool) (l : list turn) : list terminal_call * option console * option thread_end :=
  match start_console rows with
  | Err e => ([], None, Some (Returned (Err (TuiModelFailed e))))
  | Ok c =>
      if init_succeeds then
        let p := turns l c in
        (InitTerminal :: calls p ++ match ended p with Some _ => [RestoreTerminal] | None => [] end, Some (state p), ended p)
      else ([InitTerminal; RestoreTerminal], Some c, Some (Returned (Err (TuiIo (bs "initialization")))))
  end.
(** The thread's body: it tells the process when the run returned. *)
Definition terminal_thread (rows : nat) (init_succeeds : bool) (l : list turn) : list terminal_call * option console * option thread_end :=
  let '(made, c, e) := run_terminal rows init_succeeds l in
  (made ++ match e with Some (Returned _) => [NotifyExit] | _ => [] end, c, e).
Definition spawn_tui (spawn_succeeds : bool) (rows : nat) (init_succeeds : bool) (l : list turn) :
    result tui_error (list terminal_call * option console * option thread_end) :=
  if spawn_succeeds then Ok (terminal_thread rows init_succeeds l) else Err ThreadSpawn.
End Thread.

(** * Every run is sound *)

Section Sound.
Context `{IpNet, HeaderIter, HttpLibrary, TextBuffer, HeadParser, StatusReasons, !DefinitionJson, JsonText, Graphemes, LayoutLaws}.
Context (show_session : session_id -> bytes) (show_transaction : transaction_id -> bytes).
Implicit Types (c : console) (t : turn).
(** The definitions that evaluators give with their decisions. *)
Definition from_evaluators (e : rule_definition * enforcement_mode) : Prop := evaluated_definition e.1.
Definition acceptable t : Prop := fits (area t) /\ Forall (vouched_event from_evaluators) (events (brought t)).
(** A call between taking the terminal over and giving it back, within the screen. *)
Definition on_screen (k : terminal_call) : Prop :=
  match k with
  | DrawFrame f => Forall (fun d => inside (frame_area f) d.1) (drawn f) /\
      (forall x y, caret f = Some (x, y) -> (rx (frame_area f) < x < rx (frame_area f) + rw (frame_area f) /\ ry (frame_area f) < y < ry (frame_area f) + rh (frame_area f))%N)
  | PollInput | ReadInput => True
  | InitTerminal | RestoreTerminal | NotifyExit => False
  end.
(** How a turn ends the run: the operation that failed, if one did, or a way out. *)
Definition verdict t : option (result tui_error unit) :=
  match draw_answered t with
  | Drawn =>
      if disconnected (brought t) then Some (Ok tt)
      else match input_answered t with
           | PollFailed => Some (Err (TuiIo (bs "input poll")))
           | ReadFailed => Some (Err (TuiIo (bs "input read")))
           | KeyInput k => if press k && is_exit_key k then Some (Ok tt) else None
           | NothingReady | OtherInput => None
           end
  | ResizeFailed | WriteFailed => Some (Err (TuiIo (bs "draw")))
  end.
(** The turns of a run. *)
Fixpoint reached (l : list turn) : list turn :=
  match l with
  | [] => []
  | t :: l => t :: match verdict t with Some _ => [] | None => reached l end
  end.
(** What holds between turns. *)
Definition sound (limits : nat * nat) c : Prop := model_wf (model c) /\ limits_of (model c) = limits /\ vouched from_evaluators (model c).
Lemma vouched_drawable m : vouched from_evaluators m -> drawable m.
Proof. intros [_ Hd] d e Hdet He. by apply (Hd d Hdet e He). Qed.
Lemma operates_drawing c m : same_but_view (model c) m -> operates c (with_model c m) /\ lasts from_evaluators c (with_model c m).
Proof.
  intros [-> |(e & top & He & ->)]; [destruct c; split; [apply operates_refl|by intros ?]|]. split; [|by apply keeps_same].
  apply operates_work. intros [? ? ? Ht]. split; cbn; try done. rewrite <-Ht, He. done.
Qed.
(** A step of the operator keeps all of it. *)
Definition steps c c' : Prop := operates c c' /\ lasts from_evaluators c c'.
Lemma steps_refl c : steps c c.
Proof. split; [apply operates_refl|reflexivity]. Qed.
Lemma steps_trans c c' c'' : steps c c' -> steps c' c'' -> steps c c''.
Proof. intros [? ?] [? ?]. split; [by eapply operates_trans|by etransitivity]. Qed.
Lemma steps_sound limits c c' : steps c c' -> sound limits c -> sound limits c' /\ accounted c' ≡ₚ accounted c.
Proof.
  intros [Ho Hl] (Hm & Hlim & Hv). destruct (Ho Hm) as (Hm' & Hev%evolves_limits & Hacc & _). split; [|done].
  split; [done|]. split; [congruence|by apply Hl].
Qed.
Lemma refresh_sound limits c i : Forall (vouched_event from_evaluators) (events i) -> sound limits c ->
  sound limits (refresh show_transaction i c) /\
  accounted (refresh show_transaction i c) ≡ₚ accounted c ++ map TuiModel.transaction_of (intercepts i).
Proof.
  intros Hi (Hm & Hlim & Hv). destruct (receives_refresh show_transaction i c Hm) as (Hm' & Hl & Hp & He). split.
  - split; [done|]. split; [congruence|]. by apply (lasts_refresh from_evaluators show_transaction i c Hi).
  - unfold accounted, paused_transactions. by rewrite He, Hp, map_app, app_assoc.
Qed.
Lemma input_steps l a c : steps c (handle_input l a c).2 /\ Forall on_screen (handle_input l a c).1.1.
Proof.
  destruct a as [| | | |k]; try (split; [apply steps_refl|by repeat constructor]).
  cbn [handle_input]. split.
  - destruct (negb (press k)); [apply steps_refl|]. pose proof (operates_key l k c). pose proof (lasts_key from_evaluators l k c).
    by destruct (handle_key_with_repeat l k c).
  - destruct (if negb _ then _ else _). by repeat constructor.
Qed.
Lemma draw_sound limits t c : fits (area t) -> sound limits c ->
  exists made c', draw show_session show_transaction t c = (made, Some match draw_answered t with Drawn => Ok tt | _ => Err (TuiIo (bs "draw")) end, c') /\
    steps c c' /\ Forall on_screen made.
Proof.
  intros Ha (_ & _ & Hv). unfold draw.
  destruct (render_stays show_session show_transaction (model c) (area t) Ha (vouched_drawable _ Hv)) as (f & m & Hr & Harea & Hin & Hcaret & Hsame & _).
  assert (Hf : on_screen (DrawFrame f)) by (cbn; by rewrite Harea). rewrite Hr.
  destruct (draw_answered t); eexists _, _; (split; [reflexivity|]); (split; [|first [by constructor|by repeat (constructor; [exact Hf|])]]); first [by apply operates_drawing|apply steps_refl].
Qed.
Lemma turn_sound limits t c : acceptable t -> sound limits c ->
  let p := take_turn show_session show_transaction t c in
  sound limits (state p) /\ Forall on_screen (calls p) /\ ended p = Returned <$> verdict t /\
  accounted (state p) ≡ₚ accounted c ++ map TuiModel.transaction_of (intercepts (brought t)).
Proof.
  intros [Ha Hev] Hc. destruct (refresh_sound limits c (brought t) Hev Hc) as [Hr Hacc]. unfold take_turn, verdict.
  destruct (draw_sound limits t _ Ha Hr) as (made & c' & -> & Hs & Hmade). destruct (steps_sound _ _ _ Hs Hr) as [Hc' Hacc']. rewrite Hacc in Hacc'.
  destruct (draw_answered t); [|cbn; by split_and!..]. destruct (disconnected (brought t)); [cbn; by split_and!|].
  pose proof (input_steps (operator_links (brought t)) (input_answered t) c') as [Hi Hread]. destruct (steps_sound _ _ _ Hi Hc') as [Hsound Hacc'']. rewrite Hacc' in Hacc''.
  destruct (handle_input _ _ c') as [[reading leaves] c''] eqn:E. cbn [fst snd] in *. split; [done|]. split; [by apply Forall_app|]. split; [|done].
  cbn [ended]. destruct (input_answered t) as [| | | |k]; cbn in E; try by injection E as <- <- <-.
  unfold handle_key_with_repeat in E. destruct (press k); cbn [negb andb] in *; [|by injection E as <- <- <-].
  destruct (is_exit_key k); by injection E as <- <- <-.
Qed.
Lemma turns_sound limits l c : Forall acceptable l -> sound limits c ->
  let p := turns show_session show_transaction l c in
  sound limits (state p) /\ Forall on_screen (calls p) /\ ended p = Returned <$> head (omap verdict l) /\
  accounted (state p) ≡ₚ accounted c ++ map TuiModel.transaction_of (concat (map (fun t => intercepts (brought t)) (reached l))).
Proof.
  intros Hl; revert c; induction Hl as [|t l Ht _ IH]; intros c Hc; [cbn; by rewrite app_nil_r|].
  destruct (turn_sound limits t c Ht Hc) as (Hs & Hcalls & Hend & Hacc). cbn [turns reached omap list_omap]. rewrite Hend.
  destruct (verdict t) as [r|] eqn:E; cbn [fmap option_fmap option_map].
  - rewrite Hend. cbn. rewrite app_nil_r. done.
  - destruct (IH _ Hs) as (Hs' & Hcalls' & Hend' & Hacc'). cbn [state calls ended]. split; [done|]. split; [by apply Forall_app|]. split; [done|].
    cbn. by rewrite Hacc', Hacc, map_app, app_assoc.
Qed.
Lemma start_sound rows : 0 < rows -> exists c, start_console rows = Ok c /\ sound (rows, MAXIMUM_ITEMS_PER_ROW) c /\ accounted c = [].
Proof.
  intros Hrows. destruct (start_console rows) as [c|e] eqn:E.
  2:{ exfalso. revert E. unfold start_console, TuiModel.new. case_decide; [lia|]. by case_decide. }
  exists c. split; [done|]. destruct (start_wf rows c E) as (Hm & Hlim & Hacc). split; [|done]. split; [done|]. split; [done|].
  unfold start_console, TuiModel.new in E. case_decide; [done|]. case_decide; [done|]. injection E as <-. by split; [constructor|].
Qed.
(** Whatever reaches the terminal's thread and however it ends, the terminal is given
    back and the thread never panics: of the turns it goes through, the first that fails,
    at drawing, polling or reading, ends the run with that operation's error, and the
    first that lets the operator out or finds every publisher gone ends it in order;
    between taking the terminal over and restoring it, once, it only reads keys and draws
    frames that stay on the screen; then it tells the process.  What it keeps meanwhile is
    bounded and consistent, and the paused requests it received are those it answered,
    once each, and those that wait. *)
Lemma thread_sound rows init_succeeds l :
  0 < rows -> Forall acceptable l ->
  exists middle c e,
    terminal_thread show_session show_transaction rows init_succeeds l =
      (InitTerminal :: middle ++ match e with Some _ => [RestoreTerminal; NotifyExit] | None => [] end, Some c, Returned <$> e) /\
    e = (if init_succeeds then head (omap verdict l) else Some (Err (TuiIo (bs "initialization")))) /\
    Forall on_screen middle /\
    model_wf (model c) /\ limits_of (model c) = (rows, 256) /\
    answered (effects c) ++ paused_transactions c
      ≡ₚ map TuiModel.transaction_of (concat (map (fun t => intercepts (brought t)) (if init_succeeds then reached l else []))).
Proof.
  intros Hrows Hl. destruct (start_sound rows Hrows) as (c & Hc & Hs & Hacc). unfold terminal_thread, run_terminal. rewrite Hc. destruct init_succeeds.
  - destruct (turns_sound _ l c Hl Hs) as ((Hm & Hlim & _) & Hcalls & Hend & Hacc'). set (p := turns _ _ l c) in *.
    exists (calls p), (state p), (head (omap verdict l)). rewrite Hacc in Hacc'. rewrite Hend.
    split; [|done]. destruct (head (omap verdict l)); cbn; by rewrite ?app_nil_r, <-?app_assoc.
  - exists [], c, (Some (Err (TuiIo (bs "initialization")))). destruct Hs as (Hm & Hlim & _).
    split; [done|]. split; [done|]. split; [constructor|]. split; [done|]. split; [done|]. cbn. by rewrite <-Hacc.
Qed.
End Sound.

(** * An operator opens the detail of a decision, and then the terminal fails *)
Module Example_thread.
#[local] Existing Instance host_nets.
#[local] Existing Instance Example_http.list_headers.
#[local] Existing Instance Example_http.list_iter.
#[local] Existing Instance Example_editor.library.
#[local] Existing Instance Example_editor.line_parser.
#[local] Existing Instance Example_terminal.typing_buffer.
#[local] Existing Instance Example_terminal.reasons.
#[local] Existing Instance Example_text.no_json.
#[local] Existing Instance Example_text.one_cell.
#[local] Existing Instance Example_screen.no_definitions.
#[local] Existing Instance Example_screen.stacked.
#[local] Existing Instance Example_screen.stacked_laws.
Definition facts : policy_facts := Requested (ex_requested (ipv4 192 0 2 1)).
Definition decided : Decision.t * rule_definition := evaluate_with_definition ex_policy facts.
Definition arrival : UiEvent.t :=
  UiEvent.DecisionMade 1%N (Some 7%N) (Decision.trace decided.1) (Some (decided.2, Enforce)) (Some (EvaluatedRequested (ex_requested (ipv4 192 0 2 1)))).
Definition brings (l : list UiEvent.t) (requests : list TuiModel.intercept_request) : iteration :=
  Iteration l false requests [] 0 None Example_terminal.waiting.
Definition pressed (c : key_code) : input_answer := KeyInput (KeyEvent c false false true).
Definition visit : list turn :=
  [Turn (brings [arrival] [Example_terminal.request 7%N (bs "old")]) Example_screen.screen Drawn (pressed (Char (bs "2")));
   Turn (brings [] []) Example_screen.screen Drawn (pressed KeyEnter);
   Turn (brings [] []) Example_screen.screen Drawn ReadFailed;
   Turn (brings [] []) Example_screen.screen Drawn (pressed (Char (bs "Q")))].
Definition visited (init_succeeds : bool) (l : list turn) : list terminal_call * option console * option thread_end :=
  terminal_thread show_N show_N 4 init_succeeds l.
(** The names of the calls, with the number of widgets drawn. *)
Definition called (k : terminal_call) : option nat := match k with DrawFrame f => Some (length (drawn f)) | _ => None end.
(** The third frame shows the detail; nothing follows the failure but the restoration. *)
Example calls_of_visit :
  (fun o => (map called o.1.1, o.2)) (visited true visit)
  = ([None; Some 3; None; None; Some 5; None; None; Some 9; None; None; None; None], Some (Returned (Err (TuiIo (bs "input read"))))).
Proof. vm_compute. reflexivity. Qed.
Example refused_terminal :
  visited false visit = ([InitTerminal; RestoreTerminal; NotifyExit], Some (Example_terminal.console_of 4), Some (Returned (Err (TuiIo (bs "initialization"))))).
Proof. vm_compute. reflexivity. Qed.
Example error_text : show_tui_error (TuiIo (bs "input read")) = bs "TUI input read failed".
Proof. reflexivity. Qed.
Lemma visit_acceptable : Forall acceptable visit.
Proof.
  assert (Harr : vouched_event from_evaluators arrival).
  { intros d [= <-]. exists ex_policy, facts. reflexivity. }
  repeat constructor; try done; cbn; lia.
Qed.
End Example_thread.
