(* ===== verification/System.v ===== *)
(** The whole proxy: the network access of a flow, of any kind and at any time, traced to
    the configuration the process was started from or reloaded, through start-up
    (Process), compilation (Config), the guard (Guard), authorisation (Destination) and
    the sessions that call it (TcpSession, Socks, HttpServer, HttpRepeat). *)
From stdpp Require Import gmap strings.
From stdpp Require Import prelude.
From S2P Require Import Prelude Bytes Net Endpoint Domain PolicyModel Acl Guard Inspection AuditModel AuditSink Hooks Runtime Destination FlowInspect Relay Settings TcpSession Socks HttpHeaders Tls Keys HttpMessages HttpService HttpSafety HttpBodies HttpServer ServerSafety HttpRepeat RepeatSafety HttpWitnesses Config ConfigSafety Process ProcessSafety.

(** * What runs *)

Section System.
Context `{HttpEnvironment, Sha256, Hex, !HeaderMapLaws, !HeaderIterLaws, !TomlConfig, !PemLibrary, !Platform}.
Notation running := (@running _ _ _).

(** The work the tasks of a running process do: a session of one of its servers, or an
    attempt of its repeat executor. *)
Inductive activity : Type :=
| StaticFlow (client listener : socket_addr) (l : tcp_static_listener) (s : session_id) (schedule : list branch)
| SocksFlow (client listener : socket_addr) (l : socks5_listener) (s : session_id) (schedule : list branch)
| HttpFlow (client listener : socket_addr) (l : HttpForwardListener.t) (rule : RuleId.t) (s : session_id) (script : connection_script)
| RepeatFlow (s : session_id) (t : transaction_id) (command : repeat_request).
Definition run_activity (limits : proxy_limits) (a : activity) (w : world) : world :=
  match a with
  | StaticFlow client listener l s schedule => (run_static_session client listener (static_upstream l) s limits schedule w).2
  | SocksFlow client listener l s schedule =>
      (serve_session (SessionContext client listener (socks_authentication l) limits) s schedule w).2
  | HttpFlow client listener l rule s script => (serve_connection (HttpService client s rule l limits) listener script w).2
  | RepeatFlow s t command => (execute s t limits command w).2
  end.
(** The process does [a]: one of its servers listens for it, or it has an executor. *)
Definition serves (r : running) (a : activity) : Prop :=
  match a with
  | StaticFlow _ _ l _ _ => TcpStatic l ∈ map fst (servers r)
  | SocksFlow _ _ l _ _ => Socks5 l ∈ map fst (servers r)
  | HttpFlow _ _ l _ _ _ => HttpForward l ∈ map fst (servers r)
  | RepeatFlow _ _ _ => repeat_capacity r <> None
  end.
(** The decisions a flow sees, whenever it looks, are those of the services of the process
    after some of the hangups it got. *)
Definition governed (path : option bytes) (r : running) : Prop :=
  exists hangups : list step -> list (option bytes), forall h,
    current_snapshot h = Services.snapshot (reload_task path (fingerprint r) (services r) (hangups h)).

(** * Who may cause it *)

(** The client gave credentials of the listener, or the listener is reached from this
    machine only. *)
Definition entitled (a : activity) (w : world) : Prop :=
  match a with
  | StaticFlow _ _ l _ _ => ListenEndpoint.is_loopback (static_bind l) = true
  | SocksFlow _ _ l _ _ =>
      ListenEndpoint.is_loopback (socks_bind l) = true \/
      exists expected pre rest, socks_authentication l = Some expected /\ preamble (Some expected) pre /\ client_input w = pre ++ rest
  | HttpFlow _ _ l _ _ script =>
      ListenEndpoint.is_loopback (HttpForwardListener.bind l) = true \/
      exists credentials t request, HttpForwardListener.authentication l = Some credentials /\
        (t, request) ∈ script_requests script /\ authenticate_proxy_request (req_headers request) credentials = true
  | RepeatFlow _ _ _ => True
  end.
(** The client of [a] asked to reach [requested]: the configured upstream; the request
    read after a preamble the listener takes; the target of a request whose credentials
    the listener takes; the target of the retained URI. *)
Definition asks (a : activity) (w : world) (requested : requested_facts) : Prop :=
  match a with
  | StaticFlow client _ l _ _ =>
      requested = RequestedTargetFacts (sa_ip client) (UpstreamEndpoint.host (static_upstream l))
                    (UpstreamEndpoint.port (static_upstream l)) Tcp
  | SocksFlow client _ l _ _ =>
      exists pre request rest host port,
        client_input w = pre ++ request ++ rest /\ preamble (socks_authentication l) pre /\
        encodes_request request host port /\ requested = RequestedTargetFacts (sa_ip client) host port Tcp
  | HttpFlow client _ l _ _ script =>
      exists t request target, (t, request) ∈ script_requests script /\
        (forall credentials, HttpForwardListener.authentication l = Some credentials ->
           authenticate_proxy_request (req_headers request) credentials = true) /\
        target_of request = Ok target /\
        requested = RequestedTargetFacts (sa_ip client) (forward_host target) (forward_port target) Http
  | RepeatFlow _ _ command =>
      exists target scheme, from_repeat (snap_uri (repeat_snapshot command)) = Ok (target, scheme) /\
        requested = RequestedTargetFacts (source_address (repeat_source command)) (forward_host target) (forward_port target) Http
  end.
Lemma asks_entitled r a w requested :
  serves r a ->
  Forall (fun l => ListenEndpoint.is_loopback (listener_bind l) = true \/ authenticated l) (map fst (servers r)) ->
  asks a w requested -> entitled a w.
Proof.
  rewrite Forall_forall. intros Hs Hl Ha.
  destruct a as [c ls l s sched|c ls l s sched|c ls l rule s script|s t command]; cbn in *; [..|done];
    destruct (Hl _ Hs) as [Hb|Hb]; cbn in Hb; try (by left); try done; right.
  - destruct (socks_authentication l) as [h|] eqn:E; [|done].
    destruct Ha as (pre & request & rest & host & port & Hin & Hp & _). by exists h, pre, (request ++ rest).
  - destruct (HttpForwardListener.authentication l) as [h|] eqn:E; [|done]. destruct Ha as (t & q & target & Hin & Hq & _).
    exists h, t, q. auto.
Qed.

(** * What is reached *)

(** An address that some authorisation of [requested] returned. *)
Definition granted (requested : requested_facts) (x : socket_addr) : Prop :=
  exists before after addresses, x ∈ addresses /\ authorized before after requested addresses.
(** Only addresses granted for what was asked are connected to. *)
Definition reaches_granted (asked : requested_facts -> Prop) (st : step) : Prop :=
  match st with Connected x => exists requested, asked requested /\ granted requested x | _ => True end.
Lemma unconnected_reaches asked l : Forall no_connection l -> Forall (reaches_granted asked) l.
Proof. intros HF. eapply Forall_impl; [exact HF|]. by intros []. Qed.
Lemma client_side_reaches asked l : Forall client_side l -> Forall (reaches_granted asked) l.
Proof. intros HF. by apply unconnected_reaches, client_side_no_connection. Qed.
Lemma tried_reaches (asked : requested_facts -> Prop) tried addresses before after requested :
  asked requested -> tried `prefix_of` addresses -> authorized before after requested addresses ->
  Forall (reaches_granted asked) (map Connected tried).
Proof.
  intros Hq [k ->] Ha. apply Forall_map, Forall_forall. intros x Hx. exists requested. split; [done|].
  exists before, after, (tried ++ k). split; [by apply elem_of_app; left|done].
Qed.
Lemma contacts_reaches (asked : requested_facts -> Prop) requested before l :
  asked requested -> contacts requested before l -> Forall (reaches_granted asked) l.
Proof.
  intros Hq [HF|(l1 & tried & l2 & addresses & h & h' & -> & F1 & F2 & _ & Hpre & _ & _ & Ha)]; [by apply client_side_reaches|].
  rewrite !Forall_app. split; [by apply client_side_reaches|]. split; [by eapply tried_reaches|by apply unconnected_reaches].
Qed.
Lemma http_contacts_reaches (asked : requested_facts -> Prop) gate requested facts before l :
  asked requested -> http_contacts gate requested facts before l -> Forall (reaches_granted asked) l.
Proof.
  intros Hq [HF|(l1 & tried & l2 & addresses & h0 & h1 & h1' & h2 & -> & F1 & F2 & _ & Hpre & _ & _ & _ & _ & _ & Ha & _)];
    [by apply client_side_reaches|].
  rewrite !Forall_app. split; [by apply client_side_reaches|]. split; [by eapply tried_reaches|by apply unconnected_reaches].
Qed.

(** * A connection of the HTTP listener *)

Section Connections.
Context (P : step -> Prop) (P_any : forall e answer, P (Audited e answer)) (P_observed : forall e, vouches e -> P (Observed e)).
Context (P_delivered : forall f, P (FrameDelivered f)) (P_sent : forall p b, P (Sent p b)) (P_closed : forall p, P (Closed p)).
Context (P_request : forall r : http_request proxy_body, P (request_sent r)).
Lemma only_run_tunnel s t target relayed schedule : only P (run_tunnel s t target relayed schedule).
Proof.
  intros w. unfold run_tunnel. destruct (upgrade (history w)); [|by apply only_pure..].
  apply (only_bind P); [by apply only_pure|intros i].
  apply only_bind; [by apply only_attempt, only_relay|intros [[x|]|e]].
  - apply only_bind; [by apply only_any_event|intros; apply only_ret].
  - apply only_ret.
  - apply only_bind; [by apply only_any_event|intros; apply only_fail].
Qed.
Lemma only_upgraded v script upgraded : only P (run_upgraded v script upgraded).
Proof.
  destruct upgraded as [[t [target relayed|acceptor target selected]]|]; [apply only_run_tunnel| |apply only_ret].
  apply only_bind; [by apply only_run_intercepted|intros; apply only_ret].
Qed.
Lemma only_close_connection s connection tracked : only P (close_connection s connection tracked).
Proof.
  apply only_bind; [by apply only_any_event|intros _]. apply only_bind; [by apply only_try_publish, P_observed|intros _].
  apply only_bind; [apply only_lift|intros _; apply only_lift].
Qed.
Lemma only_hyper v well requests :
  (forall t r, (t, r) ∈ requests -> only P (handle v t r)) -> only P (run_hyper_connection v well requests).
Proof.
  induction requests as [|[t r] requests IH]; intros Hr; cbn [run_hyper_connection]; [apply only_ret|].
  apply only_bind; [apply only_attempt, Hr; by constructor|intros [[response upgraded]|e]; [|apply only_ret]].
  apply only_bind; [by apply only_pump_body|intros _]. destruct upgraded; [apply only_ret|].
  apply IH. intros. apply Hr. by constructor.
Qed.
Lemma only_serve_connection v listener script :
  (forall t r, (t, r) ∈ script_requests script -> only P (handle v t r)) -> only P (serve_connection v listener script).
Proof.
  intros Hr. unfold serve_connection. apply only_bind; [by apply only_any_event|intros _].
  apply only_bind; [by apply only_try_publish, P_observed|intros _]. apply only_bind; [by apply only_hyper|intros [connection upgraded]].
  destruct (tracked (tasks_before script)) as [[]|e].
  - apply only_bind; [apply only_attempt, only_upgraded|intros [[x|]|e]]; [|apply only_ret|];
      (apply only_bind; [apply only_close_connection|intros; apply only_ret]).
  - apply only_bind; [apply only_attempt, only_close_connection|intros closed].
    apply only_bind; [apply only_attempt, only_upgraded|intros; apply only_lift].
Qed.
End Connections.

(** * Every activity *)

Lemma activity_reaches limits a w :
  exists l, history (run_activity limits a w) = history w ++ l /\ Forall (reaches_granted (asks a w)) l.
Proof.
  destruct a as [c ls l s sched|c ls l s sched|c ls l rule s script|s t command]; cbn [run_activity].
  - pose proof (static_session_contacts c ls (static_upstream l) s limits sched w) as Hr.
    destruct (run_static_session _ _ _ _ _ _ w) as [x w']. destruct Hr as (k & Hk & Hc). exists k. split; [done|].
    by eapply contacts_reaches.
  - pose proof (socks_session_reaches (SessionContext c ls (socks_authentication l) limits) s sched w) as Hr.
    destruct (serve_session _ _ _ w) as [x w']. destruct Hr as (k & Hk & Hc). exists k. split; [done|].
    destruct Hc as [HF|(pre & request & rest & host & port & Hin & Hp & Hq & Hc)]; [by apply client_side_reaches|].
    eapply contacts_reaches; [|exact Hc]. by exists pre, request, rest, host, port.
  - apply only_serve_connection; [done..|]. intros t r Hin w1.
    destruct (handle_reaches (HttpService c s rule l limits) t r w1) as (k & Hk & Hc). exists k. split; [done|].
    destruct Hc as [HF|[Ha (target & path & m & Ht & _ & Hc)]]; [by apply client_side_reaches|].
    eapply http_contacts_reaches; [|exact Hc]. by exists t, r, target.
  - destruct (execute_reaches s t limits command w) as (k & Hk & Hc). exists k. split; [done|].
    destruct Hc as [HF|(target & scheme & u & stripped & m & _ & Ht & _ & _ & _ & _ & Hc)]; [by apply client_side_reaches|].
    eapply http_contacts_reaches; [|exact Hc]. by exists target, scheme.
Qed.

(** * What governs it *)

(** A configuration the process runs with: that of its start, or what its file held at a
    hangup, compiled, with the listeners the process started. *)
Definition governing (path : option bytes) (r : running) (raw : RawConfig.t) c : Prop :=
  compile_raw raw = Ok c /\ CompiledConfig.listeners c = map fst (servers r) /\
  (selects path raw \/ exists file contents, path = Some file /\ read file contents = Ok raw).
(** [x] is an address at which the configuration lets [requested] be reached: an answer
    of the resolver, or the literal address, for the name and port of that target, or of
    the destination its policy detours it to.  If it enforces, its policy allows the
    target and the address, and the address is in no block of a class that it protects. *)
Definition within raw c (requested : requested_facts) (x : socket_addr) : Prop :=
  exists selected h addresses,
    (selected = requested \/
     rp_enforcement (RawConfig.runtime raw) = Enforce /\
     exists destination, Decision.action (Acl.evaluate (CompiledConfig.policy c) (Requested requested)) = TcpDetour destination /\
       selected = redirected requested destination) /\
    resolves h selected addresses /\ x ∈ addresses /\
    (rp_enforcement (RawConfig.runtime raw) = Enforce ->
     Decision.action (Acl.evaluate (CompiledConfig.policy c) (Requested selected)) = Allow /\
     Decision.action (Acl.evaluate (CompiledConfig.policy c) (Resolved (resolved_of selected x))) = Allow /\
     (ip_wf (sa_ip x) -> forall k, class_protected (SafetyConfig.destination_guards (SafetyConfig.from (RawConfig.safety raw))) k = true ->
        in_class (sa_ip x) k = false)).
Lemma started_configured debug path (r : running) : run_proxy_command debug path = Ok r ->
  exists raw c tui, selects path raw /\ compile_raw raw = Ok c /\ runs_configuration tui c r.
Proof.
  unfold run_proxy_command. intros (c & Hc%failing_Ok%with_context_Ok & Hr)%bind_Ok.
  apply compile_selected in Hc as (raw & Hsel & Hc). exists raw, c.
  assert (Hs : startable c) by (eapply configured_startable, compile_configures, Hc).
  assert (Hrun : forall tui, run_proxy tui c = Ok r -> runs_configuration tui c r).
  { intros tui E. pose proof (starts_proxy tui c Hs) as Ht. rewrite E in Ht. apply Ht. }
  case_decide; apply bind_Ok in Hr as (? & _ & Hr); [apply bind_Ok in Hr as (? & _ & Hr)|]; eauto.
Qed.
Lemma governed_configured debug path (r : running) h : run_proxy_command debug path = Ok r -> governed path r ->
  exists raw c, governing path r raw c /\ current_snapshot h = configured_snapshot c.
Proof.
  intros (raw & c & tui & Hsel & Hc & Hrun)%started_configured [hangups Hsnap]. rewrite Hsnap, reload_task_last.
  destruct (last (omap _ (hangups h))) as [c'|] eqn:E; cycle 1.
  { exists raw, c. split; [|apply Hrun]. split; [done|]. split; [symmetry; apply Hrun|by left]. }
  apply last_Some_elem_of in E. apply list_elem_of_omap in E as (contents & _ & Ha).
  apply accepted_spec in Ha as (file & raw' & Hp & Hread & Hc' & Hf). exists raw', c'. split; [|done].
  split; [by apply configures_compile|]. split; [|right; by exists file, contents].
  rewrite (runs_fingerprint _ _ _ Hrun) in Hf. rewrite (runs_listeners _ _ _ Hrun).
  by apply (f_equal ReloadFingerprint.listeners) in Hf.
Qed.
Lemma granted_within debug path (r : running) requested x : run_proxy_command debug path = Ok r -> governed path r ->
  granted requested x -> exists raw c, governing path r raw c /\ within raw c requested x.
Proof.
  intros Hr Hg (before & after & addresses & Hx & selected & l1 & l2 & _ & _ & _ & Hsel & Hres & Hallow).
  destruct (governed_configured _ _ _ before Hr Hg) as (raw & c & Hgov & Hsnap). exists raw, c. split; [done|].
  pose proof (compile_configures _ _ (proj1 Hgov)) as Hc.
  rewrite Hsnap in Hsel, Hallow. unfold selected_target, allowed_addresses, requested_decision in Hsel, Hallow.
  cbn [configured_snapshot enforcement snapshot_policy destination_guard] in Hsel, Hallow.
  rewrite (configures_runtime _ _ Hc) in Hsel, Hallow.
  exists selected, (before ++ l1), addresses. do 3 (split; [done|]). intros He. destruct (Hallow He) as [Hreq HF].
  rewrite Forall_forall in HF. destruct (HF x Hx) as [Hguard Ha]. split; [done|]. split; [done|].
  intros Hwf k Hk. rewrite (proj2 (configures_safety _ _ Hc)) in Hguard. by eapply guard_passes in Hguard.
Qed.
(** C2. All network access is governed, end to end.  Once the process runs, from its file
    or from the built-in configuration, and whatever its file holds at any hangup: every
    address a session of its servers or a repeated request connects to is connected to
    for a target its client asked for (the configured upstream, the SOCKS request, an
    HTTP request with the credentials its listener demands, the retained URI), that
    client having reached the listener from this machine or given its credentials; and
    it is an address of that target within a configuration that was selected at the
    start or accepted at a hangup and compiles to the listeners the process has.  If
    that configuration enforces, its policy allows the target and the address, and the
    address is in no block it protects; only then may the target be the one its policy
    detours the client to. *)
Theorem network_access_is_governed (debug : bytes -> bytes) (path : option bytes) (r : running) (a : activity) (w : world) :
  run_proxy_command debug path = Ok r -> governed path r -> serves r a ->
  exists l, history (run_activity (limits r) a w) = history w ++ l /\
    forall x, Connected x ∈ l ->
      entitled a w /\
      exists requested raw c, asks a w requested /\ governing path r raw c /\ within raw c requested x.
Proof.
  intros Hr Hg Hs. destruct (activity_reaches (limits r) a w) as (l & Hl & HF). exists l. split; [done|]. intros x Hx.
  rewrite Forall_forall in HF. destruct (HF _ Hx) as (requested & Ha & Hgrant). split.
  - apply (asks_entitled r _ _ requested); [done| |done]. destruct (started_servers_exposed _ _ _ Hr) as (raw & _ & Hl').
    eapply Forall_impl; [exact Hl'|]. intros ? [?|[_ ?]]; auto.
  - destruct (granted_within _ _ _ _ _ Hr Hg Hgrant) as (raw & c & Hgov & Hin). by exists requested, raw, c.
Qed.
End System.

(** * A started proxy on the concrete network *)
Module Example_system.
#[local] Existing Instance host_nets.
#[local] Existing Instance Example_http.list_headers.
#[local] Existing Instance Example_http.list_header_laws.
#[local] Existing Instance Example_http.list_iter.
#[local] Existing Instance Example_http.list_iter_laws.
#[local] Existing Instance identity_digest.
#[local] Existing Instance Example_proxy.library.
#[local] Existing Instance Example_proxy.named_certificates.
#[local] Instance plain_hex : Hex := {| hex_encode := fun b => b; hex_decode := Some |}.
(** Two files: the listener in the first allows everything, the second, denying all, is
    what the file holds at the hangup. *)
Definition open (action : rule_action) : RawConfig.t :=
  RawConfig.Make (RuntimeProfile Headless Enforce Disabled) (RawSafety.Make false Protect Protect Protect Protect) RawLimits.default
    (RawAudit.Make (bs "logs") 16 FailOpen [] None 1000) RawMetadataOnly (RawInspection Streaming []) RawTls.default
    (RawPolicy.Make 1 action []) [RawHttpForward (bs "127.0.0.1:8080") [443%N] None].
#[local] Instance files : TomlConfig := fun text =>
  if decide (text = bs "open") then Some (open RuleAllow) else if decide (text = bs "closed") then Some (open RuleDeny) else None.
#[local] Instance no_pem : PemLibrary := {|
  signing_key := unit; issuer := unit; pem_certificate := unit; key_from_pem := fun _ => Some tt;
  issuer_from_ca_cert_pem := fun _ _ => Some tt; pem_certificates := fun _ => Some [tt] |}.
#[local] Instance platform : Platform := {|
  read_file := Some; file_mode := fun _ => Some 384%N;
  bind_listener := fun _ l => Ok (ListenEndpoint.address (listener_bind l));
  is_dir := fun p => bool_decide (p = bs "logs"); existing := ∅;
  already_exists := bs "file exists"; refuses := fun _ => None; clock := Ok 7%N; process_id := 42%N;
  hangup_handler := Ok tt; tracing := fun _ => Ok tt; spawn_tui := Ok tt |}.
Definition started : option (@running _ _ _) :=
  match run_proxy_command id (Some (bs "open")) with Ok r => Some r | Err _ => None end.
(** No hangup until a hundred steps were taken, then one. *)
Definition hangups (l : list step) : list (option bytes) := if length l <? 100 then [] else [Some (bs "closed")].
Definition live (l : list step) : policy_snapshot :=
  match started with
  | Some r => Services.snapshot (reload_task (Some (bs "open")) (fingerprint r) (services r) (hangups l))
  | None => Example_proxy.snapshot Streaming
  end.
#[local] Instance flow_environment : Environment := {|
  audit_policy := FailOpen; audit_answer := fun _ _ => Ok tt; events_enabled := false;
  current_snapshot := live;
  hook_runner := fun _ => HookRunner.Make Disabled (HookRunner.Registry [] [] [] [] [] []) HookFailClosed;
  capture_prefix_bytes := None; ui_content_bytes := None; now := fun l => N.of_nat (length l);
  lookup_host := fun _ _ port => LookupAddresses [SocketAddr Example_flow.public port 0];
  connect := fun _ _ => ConnectOk; local_addr := fun _ => None; read_answer := fun _ _ => ReadUpTo 1023;
  write_answer := fun _ _ _ => WriteDone; shutdown_answer := fun _ _ => true |}.
#[local] Instance service_environment : HttpEnvironment :=
  @Build_HttpEnvironment _ _ flow_environment _ _ _ None (fun _ _ => NoAnswer) None (fun _ => (true, true)) (fun _ => [])
    (fun _ => 0%N) (fun _ => LeafCache.new 2) (fun _ => true) (fun _ => true) (fun _ => HandshakeDone)
    (fun _ => HandshakeDone) (fun _ => ExchangeResponse Example_proxy.reply) (fun _ => false) (fun _ => true) (fun _ => Upgraded)
    (fun _ => DownstreamAccepted None) (fun _ _ => UpstreamTls None) (fun _ => false).
Definition client : socket_addr := SocketAddr (ipv4 198 51 100 1) 5000 0.
Definition bound : socket_addr := SocketAddr (ipv4 127 0 0 1) 8080 0.
Definition listener : HttpForwardListener.t := HttpForwardListener.Make (ListenEndpoint.Make bound) {[ 443%N ]} None.
Definition connection : activity :=
  HttpFlow client bound listener (RuleId.Make (bs "connect-port-allowlist")) 1%N
    (ConnectionScript [(7%N, Example_proxy.request)] true [] (TunnelScript [] [] [] ConnectionEnded) [] []).
(** The addresses this connection contacts in a world. *)
Definition contacted (w : world) : list socket_addr :=
  match started with
  | Some r => omap (fun s => match s with Connected x => Some x | _ => None end) (history (run_activity (limits r) connection w))
  | None => []
  end.
Definition later : world := World (replicate 100 (Observed (UiFlowClosed 0%N 0%N 0%N))) (MetricCounters 0 0 0 0 0 0 0 0 0 0) [] [].
(** Before the hangup the connection reaches the target; after it, nothing. *)
Example before_the_hangup : contacted Example_proxy.start = [SocketAddr Example_flow.public 80 0].
Proof. vm_compute. reflexivity. Qed.
Example after_the_hangup : contacted later = [].
Proof. vm_compute. reflexivity. Qed.
Lemma network_access_is_governed_witness : exists r,
  started = Some r /\ governed (Some (bs "open")) r /\
  exists l, history (run_activity (limits r) connection Example_proxy.start) = history Example_proxy.start ++ l /\
    forall x, Connected x ∈ l ->
      entitled connection Example_proxy.start /\
      exists requested raw c, asks connection Example_proxy.start requested /\
        governing (Some (bs "open")) r raw c /\ within raw c requested x.
Proof.
  destruct (run_proxy_command id (Some (bs "open"))) as [r|e] eqn:E; cycle 1.
  { exfalso. assert (Hok : match run_proxy_command id (Some (bs "open")) with Ok _ => true | Err _ => false end = true)
      by (vm_compute; reflexivity). rewrite E in Hok. discriminate Hok. }
  assert (Hs : started = Some r) by (unfold started; rewrite E; reflexivity).
  assert (Hg : governed (Some (bs "open")) r) by (exists hangups; intros h; cbn; unfold live; rewrite Hs; reflexivity).
  exists r. split; [exact Hs|]. split; [exact Hg|].
  apply (network_access_is_governed id (Some (bs "open")) r connection Example_proxy.start E Hg).
  assert (Hl : (map fst ∘ servers) <$> started = Some [HttpForward listener]) by (vm_compute; reflexivity).
  rewrite Hs in Hl. injection Hl as Hl. unfold serves, connection. rewrite Hl. left.
Defined.
End Example_system.
