(* ===== verification/Shown.v ===== *)
(** From the proxy to the screen: every decision a flow shows the operator carries the
    definition its evaluator gave, so that the terminal's thread can draw whatever the
    activities of the process (System) send it (UiEvents, UiLoop). *)
From stdpp Require Import gmap strings.
From stdpp Require Import prelude.
From S2P Require Import Prelude Bytes Text Net Endpoint Domain PolicyModel Acl Guard Inspection AuditModel AuditSink Hooks Runtime Destination FlowInspect Relay Settings TcpSession Socks HttpHeaders Tls Keys HttpMessages HttpService HttpSafety HttpBodies HttpServer ServerSafety HttpRepeat RepeatSafety HttpWitnesses Evidence UiEvents UiEditor UiModel UiInput UiSafety UiTerminal UiPaused UiRoundTrip UiText UiDetail UiScreen UiLoop Config Process System.

(** * What flows show *)

Section Shows.
Context `{HttpEnvironment, Sha256, Hex, !HeaderMapLaws, !HeaderIterLaws}.
Definition shows (st : step) : Prop := match st with Observed e => vouches e | _ => True end.
Lemma only_session (P : step -> Prop) s accepted opened (outcome_of : proxy_error -> flow_outcome) body :
  (forall e answer, P (Audited e answer)) -> (forall e, vouches e -> P (Observed e)) -> vouches opened -> only P body ->
  only P (_ ← publish_event s None accepted; _ ← try_publish opened; r ← attempt body; close_session s outcome_of r).
Proof.
  intros Pa Po Hopened Hbody. apply only_bind; [by apply only_any_event|intros _]. apply only_bind; [by apply only_try_publish, Po|intros _].
  apply only_bind; [by apply only_attempt|intros r]. unfold close_session, publish_flow_closed.
  destruct r as [[[]|]|]; [|apply only_ret|]; (apply only_bind; [by apply only_any_event|intros _]);
    (apply only_bind; [by apply only_try_publish, Po|intros _]); [apply only_ret|apply only_fail].
Qed.
Lemma activity_shows limits a w : exists l, history (run_activity limits a w) = history w ++ l /\ Forall shows l.
Proof.
  destruct a as [c ls l s sched|c ls l s sched|c ls l rule s script|s t command]; cbn [run_activity].
  - apply only_session; [done..|]. unfold run_session_inner. cbv zeta. apply only_bind; [by apply only_authorize_and_resolve|intros addresses].
    apply only_bind; [by apply only_connect_any|intros _]. apply only_bind; [by apply only_pure|intros i]. by apply only_relay.
  - apply only_session; [done..|]. by apply only_socks_session.
  - apply only_serve_connection; [done..|]. intros t r _. by apply only_handle.
  - by apply only_execute.
Qed.

(** * What the terminal receives *)

Definition is_decision (e : data_plane_event) : bool := match e with UiDecisionMade _ _ _ _ _ => true | _ => false end.
(** An event some activity of the process published; wire captures and the like, which are
    published beside the activities, are no decisions. *)
Definition published (e : data_plane_event) : Prop :=
  is_decision e = false \/
  exists limits a w, Observed e ∈ drop (length (history w)) (history (run_activity limits a w)).
Definition sent_to_terminal (e : UiEvent.t) : Prop :=
  (exists message, e = UiEvent.OperationalLog message) \/ exists d, e = to_ui_event d /\ published d.
Lemma published_vouches e : published e -> vouches e.
Proof.
  intros [He|(limits & a & w & Hin)]; [by destruct e|]. destruct (activity_shows limits a w) as (l & Hl & HF). rewrite Hl in Hin.
  rewrite drop_app_length in Hin. rewrite Forall_forall in HF. exact (HF _ Hin).
Qed.
Lemma sent_vouched e : sent_to_terminal e -> vouched_event from_evaluators e.
Proof.
  intros [[message ->]|(d & -> & Hd%published_vouches)]; [done|]. destruct d; try done. cbn in *. intros x ->. exact Hd.
Qed.
(** The events an activity publishes from a fresh start on. *)
Definition traffic_of limits a w : list data_plane_event :=
  omap (fun s => match s with Observed e => Some e | _ => None end) (history (run_activity limits a w)).
Lemma traffic_published limits a w : history w = [] -> Forall sent_to_terminal (map to_ui_event (traffic_of limits a w)).
Proof.
  intros Hw. apply Forall_map, Forall_forall. intros d (s & Hs & Hd)%list_elem_of_omap. right. exists d. split; [done|]. right.
  exists limits, a, w. rewrite Hw. destruct s; try done. by injection Hd as <-.
Qed.
End Shows.

Section Survives.
Context `{HttpEnvironment, Sha256, Hex, !HeaderMapLaws, !HeaderIterLaws, !TextBuffer, HeadParser, StatusReasons, !DefinitionJson, JsonText, Graphemes, LayoutLaws}.
Context (show_session : session_id -> bytes) (show_transaction : transaction_id -> bytes).
(** C10. Whatever the proxy shows the terminal, the thread of the terminal never panics and
    gives the terminal back, however it ends: of the turns it goes through, the first that
    fails, at drawing, polling or reading, ends the run with that operation's error, and
    the first that lets the operator out or finds every publisher gone ends it in order;
    between taking the terminal over and restoring it, once, it only reads keys and draws
    frames that stay on the screen; then it tells the process.  What it keeps meanwhile is
    bounded and consistent, and the paused requests it received are those it answered,
    once each, and those that wait. *)
Theorem terminal_survives_the_traffic (rows : nat) (init_succeeds : bool) (l : list turn) :
  0 < rows -> Forall (fun t => fits (area t) /\ Forall sent_to_terminal (events (brought t))) l ->
  exists middle c e,
    terminal_thread show_session show_transaction rows init_succeeds l =
      (InitTerminal :: middle ++ match e with Some _ => [RestoreTerminal; NotifyExit] | None => [] end, Some c, Returned <$> e) /\
    e = (if init_succeeds then head (omap verdict l) else Some (Err (TuiIo (bs "initialization")))) /\
    Forall on_screen middle /\
    model_wf (model c) /\ limits_of (model c) = (rows, 256) /\
    answered (effects c) ++ paused_transactions c
      ≡ₚ map TuiModel.transaction_of (concat (map (fun t => intercepts (brought t)) (if init_succeeds then reached l else []))).
Proof.
  intros Hrows Hl. apply thread_sound; [done|]. eapply Forall_impl; [exact Hl|]. intros t [Ha Hev]. split; [done|].
  eapply Forall_impl; [exact Hev|]. apply sent_vouched.
Qed.
End Survives.

(** * A connection watched from the terminal *)
Module Example_shown.
#[local] Existing Instance host_nets.
#[local] Existing Instance Example_http.list_headers.
#[local] Existing Instance Example_http.list_header_laws.
#[local] Existing Instance Example_http.list_iter.
#[local] Existing Instance Example_http.list_iter_laws.
#[local] Existing Instance identity_digest.
#[local] Existing Instance Example_proxy.library.
#[local] Existing Instance Example_proxy.named_certificates.
#[local] Existing Instance Example_proxy.plain_hex.
#[local] Existing Instance Example_editor.line_parser.
#[local] Existing Instance Example_terminal.typing_buffer.
#[local] Existing Instance Example_terminal.reasons.
#[local] Existing Instance Example_text.no_json.
#[local] Existing Instance Example_text.one_cell.
#[local] Existing Instance Example_screen.no_definitions.
#[local] Existing Instance Example_screen.stacked.
#[local] Existing Instance Example_screen.stacked_laws.
#[local] Instance watched : Environment := {|
  audit_policy := FailOpen; audit_answer := fun _ _ => Ok tt; events_enabled := true;
  current_snapshot := fun _ => Example_proxy.snapshot Preflight;
  hook_runner := fun _ => HookRunner.Make Disabled (HookRunner.Registry [] [] [] [] [] []) HookFailClosed;
  capture_prefix_bytes := None; ui_content_bytes := Some 64%N; now := fun l => N.of_nat (length l);
  lookup_host := fun _ _ port => LookupAddresses [SocketAddr Example_flow.public port 0];
  connect := fun _ _ => ConnectOk; local_addr := fun _ => None; read_answer := fun _ _ => ReadUpTo 1023;
  write_answer := fun _ _ _ => WriteDone; shutdown_answer := fun _ _ => true |}.
#[local] Instance watched_service : HttpEnvironment :=
  @Build_HttpEnvironment _ _ watched _ _ _ None (fun _ _ => NoAnswer) None (fun _ => (true, true)) (fun _ => [])
    (fun _ => 0%N) (fun _ => LeafCache.new 2) (fun _ => true) (fun _ => true) (fun _ => HandshakeDone)
    (fun _ => HandshakeDone) (fun _ => ExchangeResponse Example_proxy.reply) (fun _ => false) (fun _ => true) (fun _ => Upgraded)
    (fun _ => DownstreamAccepted None) (fun _ _ => UpstreamTls None) (fun _ => false).
Definition bound : socket_addr := SocketAddr (ipv4 127 0 0 1) 8080 0.
Definition connection : activity :=
  HttpFlow (SocketAddr (ipv4 198 51 100 1) 5000 0) bound (HttpForwardListener.Make (ListenEndpoint.Make bound) {[ 443%N ]} None)
    (RuleId.Make (bs "connect-port-allowlist")) 1%N
    (ConnectionScript [(7%N, Example_proxy.request)] true [] (TunnelScript [] [] [] ConnectionEnded) [] []).
Definition limits : proxy_limits := service_limits (Example_proxy.service None).
Definition traffic : list data_plane_event := traffic_of limits connection Example_proxy.start.
Definition brings (l : list data_plane_event) : iteration := Iteration (map to_ui_event l) false [] [] 0 None Example_terminal.waiting.
Definition visit : list turn :=
  [Turn (brings traffic) Example_screen.screen Drawn (Example_thread.pressed (Char (bs "2")));
   Turn (brings []) Example_screen.screen Drawn (Example_thread.pressed KeyEnter);
   Turn (brings []) Example_screen.screen Drawn ReadFailed;
   Turn (brings []) Example_screen.screen Drawn (Example_thread.pressed (Char (bs "Q")))].
(** Four decisions are among its events: the target as requested, the address, the
    request and the response. *)
Example decisions_in_traffic : length (List.filter is_decision traffic) = 4.
Proof. vm_compute. reflexivity. Qed.
Definition watch (l : list turn) : list terminal_call * option console * option thread_end := terminal_thread show_N show_N 4 true l.
(** The third frame shows the detail of the first of them; the failure ends the run. *)
Example calls_of_watch :
  (fun o => (map Example_thread.called o.1.1, o.2)) (watch visit)
  = ([None; Some 3; None; None; Some 5; None; None; Some 9; None; None; None; None], Some (Returned (Err (TuiIo (bs "input read"))))).
Proof. vm_compute. reflexivity. Qed.
Lemma watch_acceptable : Forall (fun t => fits (area t) /\ Forall sent_to_terminal (events (brought t))) visit.
Proof.
  assert (Hs : fits Example_screen.screen) by (split; cbn; lia).
  repeat (constructor; [split; [exact Hs|first [exact (traffic_published limits connection Example_proxy.start eq_refl)|constructor]]|]). constructor.
Qed.
Lemma terminal_survives_the_traffic_witness :
  exists middle c, watch visit = (InitTerminal :: middle ++ [RestoreTerminal; NotifyExit], Some c, Some (Returned (Err (TuiIo (bs "input read"))))) /\
    Forall on_screen middle.
Proof.
  destruct (terminal_survives_the_traffic show_N show_N 4 true visit ltac:(lia) watch_acceptable) as (middle & c & e & Hrun & He & Hon & _ & _ & _).
  assert (Ee : e = Some (Err (TuiIo (bs "input read")))) by (rewrite He; vm_compute; reflexivity). clear He. subst e.
  exists middle, c. split; [exact Hrun|exact Hon].
Defined.
End Example_shown.
